(* ===== verification/_CoqProject ===== *)
-Q . S2P
Prelude.v
Errors.v
SqlDb.v
Breaker.v
Ring.v
Keys.v
SlidingWindow.v
BucketStore.v
Lockout.v
Throttle.v
RequestLimit.v
RateAdmin.v
AuthModels.v
TRL.v
AuthStores.v
AuthService.v
AuthSafety.v
Consent.v
Tenant.v
TenantSafety.v
ClientResolver.v
Decision.v
LRU.v
RegistryCache.v
Registry.v
Orchestrator.v
AuditTrail.v
Outbox.v
RegistryService.v
VC.v
EvidenceFlow.v
Http.v
Jwt.v
RateMiddleware.v
AuthHandler.v
AuthSql.v
AuthSqlSafety.v
TxLocks.v
TenantSql.v
RegistrySql.v
ConsentSql.v
RateSql.v
RateSqlSafety.v
VcSql.v
Cleanup.v
Requests.v
Endpoints.v
Routes.v
Redis.v
RedisStores.v
RedisSafety.v
Kafka.v
Config.v
Platform.v
Privacy.v
Observability.v
ResourceServer.v
Contracts.v
Tokengen.v
MockRegistries.v
