(* ===== verification/Prelude.v ===== *)
(** * Credo: a verification development

    Credo (module [credo], Go) is an identity and evidence platform: OAuth
    authorization with sessions and rotating refresh tokens, tenants and their
    OAuth clients, consent records, a registry of citizen and sanctions evidence,
    verifiable credentials, a decision engine over that evidence, an audit
    pipeline, and the HTTP middleware and rate limiting in front of all of them.
    This library is a shallow embedding of that core with the theorems that make
    it correct.

    ** Parts and files

    Foundations
    - [Prelude] (this file): results, the error-state monad, tactics, hints and
      the lemmas on lists, maps and machine integers that the files share.
    - [Errors]: [pkg/domain-errors], [pkg/platform/sentinel] and the registry's
      provider errors.  Error chains with [errors.Is], [errors.As], [Wrap] and
      [HasCode].
    - [Breaker]: [pkg/platform/circuit/breaker.go] and the breaker of
      [internal/ratelimit/middleware/circuitbreaker.go].
    - [Ring]: circular buffers, and the security audit buffer
      [pkg/platform/audit/publishers/security/buffer.go].
    - [LRU]: a map and a linked list of heap elements, shared by the caches.

    Rate limiting
    - [Keys]: [internal/ratelimit/models/keys.go].
    - [SlidingWindow], [BucketStore]:
      [internal/ratelimit/store/bucket/store_memory.go], the window of 256
      timestamps and the sharded store with its LRU eviction.
      [BucketStore] ends with the class of the interface [ports.BucketStore].
    - [RequestLimit]: [internal/ratelimit/service/requestlimit] and
      [clientlimit], the allowlist store, the limits of
      [internal/ratelimit/config/config.go]; written against the classes
      [BucketStore] and [AllowlistStore].
    - [Lockout]: [internal/ratelimit/service/authlockout], its in-memory store,
      and the lockout and backoff rules of [internal/ratelimit/models/models.go].
    - [Throttle]: [internal/ratelimit/store/globalthrottle/store_memory.go], one
      atomic access per step.
    - [RateAdmin]: [internal/ratelimit/admin] and the quotas of
      [internal/ratelimit/service/quota] with their store.
    - [RateMiddleware]: [internal/ratelimit/middleware], and the middleware
      stacks of [cmd/server/main.go] (requires [Http]).

    Identity
    - [AuthModels], [AuthStores], [TRL], [AuthService]: [internal/auth/models],
      the in-memory stores and the revocation list of [internal/auth/store], and
      the operations of [internal/auth/service] (authorize, code exchange,
      refresh, revocation, logout, user info, user deletion).
    - [AuthSafety]: the theorems on the auth service, over the step relation of
      the transactions and store operations of concurrent requests.
    - [Tenant]: [internal/tenant] (models, stores, services, secrets);
      [TenantSafety]: its invariants.
    - [ClientResolver]: [internal/auth/adapters], the breaker and cache that
      [cmd/server/main.go] wires between the auth service and the tenant service,
      and what suspending a tenant means for the auth service.
    - [Consent]: [internal/consent] (models, store, service, transactions).

    Evidence
    - [Registry]: the domain model, HTTP providers and conversions of
      [internal/evidence/registry]; [Orchestrator]: its orchestrator and
      correlation rules; [RegistryCache]: its in-memory cache;
      [RegistryService]: its service, against the classes [CacheStore] (instances:
      [RegistryCache], and the SQL cache in [RegistrySql]) and [AuditStore].
    - [VC]: [internal/evidence/vc], against the class [CredentialStore].
    - [Decision]: [internal/decision] and [pkg/domain/age.go]; the consent gate is
      the consent service's [Require].
    - [EvidenceFlow]: consent, registry and credential services wired together.

    Audit
    - [AuditTrail]: [pkg/platform/audit] (events, in-memory store, the three
      publishers), with the class [AuditStore] (a failed append stores the event
      or does not) and [AuditStoreAtomic] (it does not).
    - [Outbox]: the SQL audit store, the outbox worker and the audit consumer, over
      the database of [SqlDb].
    - [Kafka]: [internal/platform/kafka], the producer under the outbox worker and
      the consumption loop over the class [ConsumerLaws], and the queries of the
      audit table.
    - [Observability]: the attributes of every audit call of the auth, tenant and
      rate-limit services, what reaches the security publisher, and the request
      log; [Privacy]: [pkg/platform/privacy], with the parser of addresses.

    Databases
    - [SqlDb]: tables, statements, transactions and their failures, under
      [AuthSql], [TenantSql], [ConsentSql], [RegistrySql], [RateSql], [VcSql]: the
      [store_postgres.go] of each module with its generated queries, the schema
      of [migrations/], and the transactions of [cmd/server].
    - [AuthSqlSafety], [RateSqlSafety], [TxLocks]: what these guarantee; in
      [TxLocks] the transactions of several requests interleave under row locks.
    - [Redis], [RedisStores], [RedisSafety]: the Redis server as the stores use it,
      the Redis stores of sessions, revocations and registry records, and what
      they guarantee.
    - [Cleanup]: the clean-up workers over both kinds of store.

    HTTP
    - [Http]: [pkg/requestcontext] and [pkg/platform/middleware].
    - [Jwt]: [internal/jwt_token], over the class of the JWT library.
    - [AuthHandler]: [internal/auth/handler], [pkg/platform/httputil] and the
      rate-limit adapter of [cmd/server], down to the auth service.
    - [Requests]: decoding, normalisation and validation of every request type,
      over the class [RequestOps]; [Endpoints]: the handlers of consent, tenants,
      decisions, registry, credentials, rate limits and administration; [Routes]:
      every endpoint of the two servers with the group that guards it.
    - [Contracts]: the contract records between the auth stores and the
      administration.

    Programs
    - [Config]: [internal/platform/config] and what [cmd/server/main.go] decides
      from it; [Platform]: health endpoints, devices, the audit helpers, and the
      outbox worker's life up to the shutdown of the server.
    - [Tokengen]: [cmd/tokengen]; [ResourceServer]: [lab/resource-server];
      [MockRegistries]: the two servers of [mocks/], composed with the HTTP
      providers of [Registry].

    ** How the code is represented

    A function returning [(T, error)] is a [result]; a method that changes its
    receiver and may fail is an [ST] computation, whose state survives an error
    as in Go.  A struct is a [Record], a Go map a [gmap], a slice a list;
    integers are [Z] with the wrap-around of their width written where it can
    occur; a [float64] is a [spec_float]; times are nanoseconds.  Where several
    pointers lead to the same object (LRU elements, client indexes) the model has
    a heap and addresses.  A mutex makes a method one step; the lock-free throttle
    has one step per atomic access; the auth service has one step per transaction
    or store call; concurrent lookups and fetches complete in any order.  A
    middleware is a function from handlers to handlers.  A Go interface is a class
    with the laws its clients rely on, or a record of operations.  Error messages
    of domain errors are kept; log lines and metrics are not.

    ** Code that is an argument

    The JWT library (with the law that a token signed under a key parses under
    that key until it expires), [uuid.New] and UUID text, bcrypt, random bytes,
    [url.Parse], network addresses, media types, JSON coding, Unicode case
    mapping, the HTTP client of the providers, when statements, commands and
    commits of the databases fail, the Kafka clients, SHA-256 and HMAC, the
    user-agent parser, durations and calendar dates, the order in which Go ranges
    over a map and the order in which concurrent work completes.  The theorems quantify over
    them; the hypotheses used are stated in each theorem or section, and each such
    theorem has a witness with concrete functions.

    ** What the theorems show

    - Token flows ([AuthSafety]): codes and refresh tokens are used at most once,
      a replay issues nothing and, by the code's own client, ends the session for
      good; tokens are issued only to the active client,
      user and tenant the session belongs to, revocation and logout do exactly
      what they promise, and sessions never change their owner.
    - From the wire to the session store ([Http], [Jwt], [AuthHandler]): a handler
      behind [RequireAuth] runs only for a valid, unrevoked token and with its
      identifiers; an issued access token authenticates its user and an ID token
      never does; nobody ends another user's session; internal errors are not
      shown to clients.
    - Tenants ([TenantSafety], [ClientResolver]): the stores' indexes stay
      consistent, operations scoped to a tenant never reach another one,
      suspension stops the tenant's token flows as the server is wired, at once
      while the circuit is closed and within the cache's time to live otherwise.
    - Consent: the service refines the documented life cycle of grant and
      revocation times on the histories where the code's grants are atomic
      (single-purpose grants, and multi-purpose ones not refused after their first
      purpose); revocation is immediate and lasts.
    - Registry: lookups ask the sources each strategy names, in order, and report
      exactly their answers and failures; merging and voting pick the most
      confident record, the cache returns only the last record saved, fresh and in
      the mode asked for; regulated mode hides name, date of birth and address in
      every answer and in the cache, and shows a national identifier only where the
      cache answers with the key it was asked; no sanctions result of the single
      lookup without its audit event.
    - Credentials ([VC], [EvidenceFlow]): exactly the issued credentials verify,
      and issuing needs both consents.
    - Decisions: a result is a function of the evidence whatever the schedule;
      nobody passes without cause; no result without its audit event.
    - Databases: whatever fails, a history of calls of a SQL store is a history of
      the in-memory store or fails without effect or loses only the reply; the
      schema holds in every reachable state; of concurrent exchanges of a code one
      wins; concurrent failures cannot bypass the lockout, which is renewed after an
      earlier one ran out, whatever clears and resets came before; the SQL bucket
      store enforces its limit for costs of up to 1000; an update in Redis keeps
      every write of others and is based on the last one, and a revocation lasts.
    - Endpoints ([Routes]): only authorized requests change the state, consents
      change by their owner or the administration, requests that do not validate
      are refused.
    - Audit ([AuditTrail], [Outbox]): every security event emitted is queued,
      stored, dropped, given up or abandoned by cancellation, exactly once and as
      the counters say; an entry is deleted only after it was published, after any
      failures every entry is published once the services answer, and what the
      consumer stores is the event that was appended, at the precision of the
      database and less the documented loss; the consumer hands
      every record over at least once ([Kafka]); a shutdown publishes what was
      written before it ([Platform]); auth events name their user
      ([Observability]) and anonymised addresses keep the network and nothing else
      ([Privacy]).
    - Programs: what a server accepts in a given environment ([Config]), what the
      administration sees ([Contracts]), which tokens the resource server accepts,
      and that the providers report what the registries hold ([MockRegistries]).
    - Rate limits: the circular buffer refines the log of all accepted requests,
      the store keeps keys apart and evicts the least recently used one, and an
      address gets no more than its limit end to end, evictions included, as long
      as no window sees more requests than a shard holds; the middleware answers as
      the primary, the fallback or neither in the order the breaker prescribes, and
      in fail-open mode an outage lets only a bounded number of requests through
      unchecked; lockouts count exactly the failures since the
      last login; counters of the throttle stay bounded in every interleaving;
      keys never collide; resets, allowlist entries and quotas do what they say.
    - Revocation list, breakers, ring buffer: the list has no false positives and
      forgets nothing early; a breaker opens exactly on a run of failures; the
      ring buffer refines a bounded queue.
    - Limits of the code, each with its theorem: a limit above 256 is not
      enforced, the backoff overflows at high failure counts, the throttle's reset
      races, a second replay is an internal error, a multi-purpose grant is not
      atomic, the retry budget cannot be lowered, the citizen rule drops other
      evidence, the combined registry check is not audited, compliance events are
      misfiled, the lockout never engages, users and administrators share
      allowances, auth requests count twice, client limits miss JSON bodies,
      unknown clients revive a suspended tenant, an administrator's reset leaves
      one bucket, unlimited quotas are exceeded from the start, production may sign
      with a key of the source and accept the tool's tokens, a polling interval of
      zero ends the server, tenant and quota events have no subject, revoked
      sessions count as active, a consumer passes over an event whose handling
      failed, a clean-up hides a replay, the index of a user's sessions in Redis
      expires first, a cost above 1000 is counted as 1000 by the SQL bucket store,
      the option to fail closed has no effect, an event that does not fit the audit
      table's columns is never stored there.

    ** Bounds and fuel

    No theorem depends on a fuel that may run out.  Loops are recursions on the
    list they traverse; [TrimSpace] strips at least one byte per round and gets
    as many rounds as the string has bytes; a retry loop has [MaxRetries + 1]
    rounds as in the code; closing the security publisher gets one round per queued
    event, which is proved to be enough.  The pages of a SCAN end with the server's
    cursor, after a number of rounds that is an argument of the listing; a listing
    that has not ended is no answer.  The parser of IPv6 addresses gets eight rounds
    for eight groups.  The drain of the outbox worker ends with
    its ten seconds, after a number of rounds that is an argument.  The retry of
    the consent upsert is written for the code's two attempts.  A throttle call is
    a thread of steps; alone it is proved to finish within ten.  The sliding window
    keeps the code's 256 slots, and the refinement asks for limits of at most that
    size.

    ** Not modelled

    Metrics and the text log; the construction of clients, pools and of the modules
    in [cmd/server/main.go], which is a list of constructor calls; the timeout and
    body-size middleware and the latency middleware; the dispatch and usage text of
    [cmd/tokengen]; [internal/seeder], which nothing constructs; type stubs without
    behaviour; mocks generated for tests, [pkg/testutil] and [e2e].  What is left has
    no state or decision of its own that the theorems could be about. *)
From stdpp Require Export base tactics decidable numbers option list gmap strings fin_maps sets sorting relations.
From stdpp Require Export pretty.

#[global] Set Default Goal Selector "!".

(** ** Notation scope of the development *)

Declare Scope go_scope.
Delimit Scope go_scope with go.

(** ** Results and the error-state monad

    A Go function returning [(T, error)] is a [result]; a method that mutates
    the receiver and may fail is an [ST] computation.  The state survives an
    error, as it does in Go: there is no rollback. *)

Inductive result (E A : Type) : Type :=
| Ok (a : A)
| Err (e : E).
Arguments Ok {E A} a.
Arguments Err {E A} e.

#[global] Instance result_ret {E} : MRet (result E) := fun A a => Ok a.

#[global] Instance result_bind {E} : MBind (result E) := fun A B f m =>
  match m with Ok a => f a | Err e => Err e end.

#[global] Instance result_eq_dec {E A} `{EqDecision E, EqDecision A} :
  EqDecision (result E A).
Proof. solve_decision. Defined.

Definition is_Ok {E A} (r : result E A) : bool :=
  match r with Ok _ => true | Err _ => false end.

(** A guard: [require b e] fails with [e] unless [b]. *)
Definition require {E} (b : bool) (e : E) : result E unit :=
  if b then Ok tt else Err e.

Definition ST (S E A : Type) : Type := S -> result E A * S.

#[global] Instance st_ret {S E} : MRet (ST S E) := fun A a s => (Ok a, s).

#[global] Instance st_bind {S E} : MBind (ST S E) := fun A B f m s =>
  match m s with
  | (Ok a, s') => f a s'
  | (Err e, s') => (Err e, s')
  end.

Definition st_get {S E} : ST S E S := fun s => (Ok s, s).
Definition st_gets {S E A} (f : S -> A) : ST S E A := fun s => (Ok (f s), s).
Definition st_modify {S E} (f : S -> S) : ST S E unit := fun s => (Ok tt, f s).
Definition st_fail {S E A} (e : E) : ST S E A := fun s => (Err e, s).
Definition st_lift {S E A} (r : result E A) : ST S E A := fun s => (r, s).

(** Run a computation and inspect its result, as [if err := ...; err != nil]. *)
Definition st_try {S E A} (m : ST S E A) : ST S E (result E A) := fun s => let '(r, s') := m s in (Ok r, s').

(** Run a computation on a component of the state. *)
Definition st_zoom {S T E A} (get : S -> T) (set : T -> S -> S) (m : ST T E A) : ST S E A :=
  fun s => let '(r, t) := m (get s) in (r, set t s).

(** ** Time

    [time.Time] is the number of nanoseconds since the Unix epoch and
    [time.Duration] a number of nanoseconds, both as [Z].  The zero [Time] is
    1 January of year 1. *)

Abbreviation time := Z (only parsing).
Abbreviation duration := Z (only parsing).

Definition max_int64 : Z := 9223372036854775807.
Definition min_int64 : Z := (-9223372036854775808)%Z.

(** Two's complement wrap-around of [int64] (Go's [int] on 64-bit targets). *)
Definition wrap64 (z : Z) : Z := ((z + 2 ^ 63) `mod` 2 ^ 64 - 2 ^ 63)%Z.

Definition Nanosecond : duration := 1.
Definition Millisecond : duration := 1000000.
Definition Second : duration := 1000000000.
Definition Minute : duration := 60000000000.
Definition Hour : duration := 3600000000000.

Definition zero_time : time := (-62135596800000000000)%Z.
Definition time_IsZero (t : time) : bool := (t =? zero_time)%Z.

(** [t.After(u)] and [t.Before(u)]. *)
Definition time_After (t u : time) : bool := (u <? t)%Z.
Definition time_Before (t u : time) : bool := (t <? u)%Z.
Definition time_Add (t : time) (d : duration) : time := (t + d)%Z.

(** [t.Sub(u)] saturates at the bounds of [Duration]. *)
Definition time_Sub (t u : time) : duration :=
  Z.max min_int64 (Z.min max_int64 (t - u)).

(** [int(d.Seconds())] and [d.Milliseconds()]: truncation toward zero.  The
    conversion through [float64] is exact for durations below [2^22] seconds. *)
Definition int_Seconds (d : duration) : Z := Z.quot d Second.
Definition int_Milliseconds (d : duration) : Z := Z.quot d Millisecond.

(** [x.After(p)] on an optional time, with Go's [p == nil || x.After] idiom. *)
Definition nil_or_After (x : time) (p : option time) : bool :=
  match p with None => true | Some y => time_After x y end.

(** ** Identifiers

    A UUID is a natural number and the nil UUID is zero; [uuid.New] is an
    argument of the operations that call it. *)

Abbreviation uuid := N (only parsing).
Definition IsNil (x : uuid) : bool := (x =? 0)%N.

(** ** Strings *)

Definition str_empty (s : string) : bool := bool_decide (s = "").
Definition slices_Contains {A} `{EqDecision A} (l : list A) (x : A) : bool :=
  bool_decide (x ∈ l).

(** UTF-8 encodings of the runes of [unicode.IsSpace]. *)
Definition space_runes : list (list Z) :=
  [[9]; [10]; [11]; [12]; [13]; [32]; [194; 133]; [194; 160]; [225; 154; 128];
   [226; 128; 128]; [226; 128; 129]; [226; 128; 130]; [226; 128; 131]; [226; 128; 132];
   [226; 128; 133]; [226; 128; 134]; [226; 128; 135]; [226; 128; 136]; [226; 128; 137];
   [226; 128; 138]; [226; 128; 168]; [226; 128; 169]; [226; 128; 175]; [226; 129; 159];
   [227; 128; 128]]%Z.

Definition bytes_of (s : string) : list Z :=
  (fun a => Z.of_N (Ascii.N_of_ascii a)) <$> String.list_ascii_of_string s.
Definition of_bytes (l : list Z) : string :=
  String.string_of_list_ascii ((fun z => Ascii.ascii_of_N (Z.to_N z)) <$> l).

(** Drop one of the given prefixes, when one matches. *)
Fixpoint strip_one (pats : list (list Z)) (l : list Z) : option (list Z) :=
  match pats with
  | [] => None
  | p :: pats' =>
      if bool_decide (p = take (length p) l) then Some (drop (length p) l)
      else strip_one pats' l
  end.

(** Every prefix is at least one byte, so [length l] rounds are enough. *)
Fixpoint strip_all (fuel : nat) (pats : list (list Z)) (l : list Z) : list Z :=
  match fuel with
  | 0%nat => l
  | S fuel' =>
      match strip_one pats l with
      | Some l' => strip_all fuel' pats l'
      | None => l
      end
  end.

(** [strings.TrimSpace]: leading and trailing white space removed. *)
Definition TrimSpace (s : string) : string :=
  let l := strip_all (String.length s) space_runes (bytes_of s) in
  of_bytes (reverse (strip_all (length l) (reverse <$> space_runes) (reverse l))).

(** ** Automation *)

Create HintDb credo.
Create Rewrite HintDb credo.

(** Case analysis on the matches of a computation, with the trivial branches
    closed and equalities solved. *)
Ltac crush_match := repeat (case_match; simplify_eq/=; try done).

(** Unfold the error-state monad and compute. *)
Ltac st_unfold :=
  unfold st_get, st_gets, st_modify, st_fail, st_lift, st_try, st_zoom,
    mbind, mret, st_bind, st_ret, result_bind, result_ret in *; simpl in *.

(** Boolean hypotheses to propositions. *)
Ltac bools :=
  repeat match goal with
  | H : (_ && _)%bool = true |- _ => apply andb_true_iff in H as [? ?]
  | H : (_ || _)%bool = false |- _ => apply orb_false_iff in H as [? ?]
  | H : negb _ = true |- _ => apply negb_true_iff in H
  | H : negb _ = false |- _ => apply negb_false_iff in H
  | H : bool_decide _ = true |- _ => apply bool_decide_eq_true in H
  | H : bool_decide _ = false |- _ => apply bool_decide_eq_false in H
  | H : (_ <? _)%Z = true |- _ => apply Z.ltb_lt in H
  | H : (_ <? _)%Z = false |- _ => apply Z.ltb_ge in H
  | H : (_ <=? _)%Z = true |- _ => apply Z.leb_le in H
  | H : (_ <=? _)%Z = false |- _ => apply Z.leb_gt in H
  | H : (_ =? _)%Z = true |- _ => apply Z.eqb_eq in H
  | H : (_ =? _)%Z = false |- _ => apply Z.eqb_neq in H
  end.

Ltac times := unfold time_After, time_Before, time_Add, nil_or_After in *.

(** ** Shared lemmas *)

Lemma string_length_app p t : String.length (p +:+ t) = (String.length p + String.length t)%nat.
Proof. induction p as [|a p IH]; simpl; [done|]. by rewrite IH. Qed.

Lemma string_app_cancel_r (a b t : string) : a +:+ t = b +:+ t -> a = b.
Proof.
  revert b. induction a as [|c a IH]; intros [|c' b] E; [done| | |].
  - apply (f_equal String.length) in E. rewrite !string_length_app in E. simpl in E. lia.
  - apply (f_equal String.length) in E. rewrite !string_length_app in E. simpl in E. lia.
  - injection E as -> E. f_equal. by apply IH.
Qed.

Lemma wrap64_id z : (min_int64 <= z <= max_int64)%Z -> wrap64 z = z.
Proof. unfold wrap64, min_int64, max_int64. intros. rewrite Z.mod_small; lia. Qed.

Lemma wrap64_range z : (min_int64 <= wrap64 z <= max_int64)%Z.
Proof.
  unfold wrap64, min_int64, max_int64.
  pose proof (Z.mod_pos_bound (z + 2 ^ 63) (2 ^ 64) ltac:(lia)). lia.
Qed.

Lemma time_Sub_exact t u :
  (min_int64 <= t - u <= max_int64)%Z -> time_Sub t u = (t - u)%Z.
Proof. unfold time_Sub. lia. Qed.

Lemma time_Sub_ge t u d :
  (d <= max_int64)%Z -> (d <= t - u)%Z -> (d <= time_Sub t u)%Z.
Proof. unfold time_Sub. lia. Qed.

Lemma time_Sub_lt t u d :
  (min_int64 < d)%Z -> (t - u < d)%Z -> (time_Sub t u < d)%Z.
Proof. unfold time_Sub, min_int64, max_int64. lia. Qed.

(** A Go map loop that deletes the entries satisfying [P] keeps exactly the others. *)
Lemma lookup_filter_keep {K V} `{Countable K} (P : K * V -> Prop) `{∀ x, Decision (P x)}
    (m : gmap K V) k v :
  filter P m !! k = Some v <-> m !! k = Some v /\ P (k, v).
Proof. apply map_lookup_filter_Some. Qed.

Lemma filter_all {A} (P : A -> Prop) `{∀ x, Decision (P x)} (l : list A) :
  Forall P l -> filter P l = l.
Proof. induction 1 as [|x l Hx _ IH]; [done|]. by rewrite filter_cons_True, IH. Qed.

Lemma filter_none {A} (P : A -> Prop) `{∀ x, Decision (P x)} (l : list A) :
  Forall (fun x => ~ P x) l -> filter P l = [].
Proof. induction 1 as [|x l Hx _ IH]; [done|]. by rewrite filter_cons_False, IH. Qed.

Lemma filter_ext_in {A} (P Q : A -> Prop) `{∀ x, Decision (P x), ∀ x, Decision (Q x)} (l : list A) :
  (forall x, x ∈ l -> P x <-> Q x) -> filter P l = filter Q l.
Proof.
  induction l as [|x l IH]; intros Hl; [done|]. rewrite !filter_cons.
  rewrite IH by (intros y Hy; apply Hl; by constructor).
  pose proof (Hl x ltac:(by constructor)) as Hx. repeat case_decide; first [done|by f_equal|tauto].
Qed.

(** A sequence succeeds when both of its parts do. *)
Lemma st_bind_Ok {S E A B} (m : ST S E A) (f : A -> ST S E B) s b s' :
  (m ≫= f) s = (Ok b, s') <-> exists a s1, m s = (Ok a, s1) /\ f a s1 = (Ok b, s').
Proof.
  unfold mbind, st_bind. destruct (m s) as [[a|e] s1]; split.
  - intros H. by exists a, s1.
  - by intros (? & ? & [= <- <-] & H).
  - done.
  - by intros (? & ? & ? & _).
Qed.

(** A sequence fails when one of its parts does. *)
Lemma st_bind_Err {S E A B} (m : ST S E A) (f : A -> ST S E B) s e s' :
  (m ≫= f) s = (Err e, s') <->
  m s = (Err e, s') \/ exists a s1, m s = (Ok a, s1) /\ f a s1 = (Err e, s').
Proof.
  unfold mbind, st_bind. destruct (m s) as [[a|e'] s1]; split.
  - intros H. right. by exists a, s1.
  - by intros [[=]|(? & ? & [= <- <-] & H)].
  - intros [= -> ->]. by left.
  - by intros [[= -> ->]|(? & ? & ? & _)].
Qed.

Lemma st_lift_Ok {S E A} (r : result E A) (s s' : S) a : st_lift r s = (Ok a, s') <-> r = Ok a /\ s' = s.
Proof. unfold st_lift. naive_solver. Qed.
Lemma st_lift_Err {S E A} (r : result E A) (s s' : S) e : st_lift r s = (Err e, s') <-> r = Err e /\ s' = s.
Proof. unfold st_lift. naive_solver. Qed.

Lemma NoDup_fmap_filter {A B} (f : A -> B) (P : A -> Prop) `{∀ x, Decision (P x)} (l : list A) :
  NoDup (f <$> l) -> NoDup (f <$> filter P l).
Proof.
  induction l as [|x l IH]; [done|]. rewrite fmap_cons, filter_cons. intros [Hn Hd]%NoDup_cons.
  case_decide; [|by apply IH]. rewrite fmap_cons. apply NoDup_cons. split; [|by apply IH].
  intros (y & Hy & Hin)%list_elem_of_fmap. apply Hn. apply list_elem_of_fmap. exists y. split; [done|].
  by apply list_elem_of_filter in Hin as [_ ?].
Qed.

(** ** Invariants of computations

    [st_keeps I m Q]: run from a state in [I], the computation ends in [I], with an
    error or without, and a result it returns is in [Q]. *)
Definition st_keeps {S E A} (I : S -> Prop) (m : ST S E A) (Q : A -> Prop) : Prop :=
  forall s r s', I s -> m s = (r, s') -> I s' /\ forall a, r = Ok a -> Q a.

Section keeps.
Context {S E : Type} (I : S -> Prop).

Lemma keeps_ret {A} (a : A) (Q : A -> Prop) : Q a -> st_keeps (E := E) I (mret a) Q.
Proof. intros H s r s' HI [= <- <-]. split; [done|]. by intros ? [= <-]. Qed.
Lemma keeps_fail {A} (e : E) (Q : A -> Prop) : st_keeps I (st_fail e) Q.
Proof. intros s r s' HI [= <- <-]. by split. Qed.
Lemma keeps_lift {A} (x : result E A) (Q : A -> Prop) : (forall a, x = Ok a -> Q a) -> st_keeps I (st_lift x) Q.
Proof. intros H s r s' HI [= <- <-]. by split. Qed.
Lemma keeps_bind {A B} (m : ST S E A) (f : A -> ST S E B) (Q : A -> Prop) (R : B -> Prop) :
  st_keeps I m Q -> (forall a, Q a -> st_keeps I (f a) R) -> st_keeps I (m ≫= f) R.
Proof.
  intros Hm Hf s r s' HI. unfold mbind, st_bind. destruct (m s) as [[a|e] s1] eqn:H1.
  - destruct (Hm s _ s1 HI H1) as [HI1 Ha]. apply Hf; [by apply Ha|done].
  - intros [= <- <-]. split; [by eapply Hm|done].
Qed.
Lemma keeps_try {A} (m : ST S E A) (Q : A -> Prop) :
  st_keeps I m Q -> st_keeps I (st_try m) (fun r => forall a, r = Ok a -> Q a).
Proof.
  intros Hm s r s' HI. unfold st_try. destruct (m s) as [x s1] eqn:H1. intros [= <- <-].
  destruct (Hm s x s1 HI H1) as [? ?]. split; [done|]. by intros ? [= <-].
Qed.
Lemma keeps_weaken {A} (m : ST S E A) (Q R : A -> Prop) : st_keeps I m Q -> (forall a, Q a -> R a) -> st_keeps I m R.
Proof. intros Hm HQ s r s' HI H. destruct (Hm s r s' HI H) as [? Hr]. split; [done|]. intros a ->. by apply HQ, Hr. Qed.
End keeps.

(** A computation on a component that the invariant does not look at. *)
Lemma keeps_zoom_frame {S T E A} (I : S -> Prop) (get : S -> T) (set : T -> S -> S) (m : ST T E A) :
  (forall t s, I s -> I (set t s)) -> st_keeps I (st_zoom get set m) (fun _ => True).
Proof. intros Hs s r s' HI. unfold st_zoom. destruct (m (get s)) as [x t]. intros [= <- <-]. split; [by apply Hs|done]. Qed.
