(* ===== verification/Errors.v ===== *)
(** * Errors: [pkg/domain-errors], [pkg/platform/sentinel] and
    [internal/evidence/registry/providers/errors.go]

    The error values the services and stores exchange.  A Go error is an
    error chain; the constructors are the ways the code builds one:
    - [EVal]: a package-level error value, compared by identity with
      [errors.Is] (the sentinels, [session.ErrSessionRevoked], the sentinels of the
      registry providers and the registry cache's [ErrNotFound]);
    - [EDomain], [EDomainW]: a [*dErrors.Error] without and with a wrapped
      cause;
    - [EProvider], [EProviderW]: a [*providers.ProviderError] without and with
      an underlying error;
    - [EWrap]: [fmt.Errorf] with a prefix and the verb [%w];
    - [EOther]: any other error (a driver error, a cancelled context).
    [errors_Is], [errors_As], [Wrap] and [HasCode] follow the chain exactly as
    the library does. *)
From S2P Require Import Prelude.

Inductive errval :=
| ErrNotFound | ErrConflict | ErrExpired | ErrAlreadyUsed | ErrInvalidState
| ErrUnavailable | ErrSessionRevoked
| ErrProviderNotFound | ErrNoProvidersAvailable | ErrAllProvidersFailed | ErrCacheNotFound.

#[global] Instance errval_eq_dec : EqDecision errval.
Proof. solve_decision. Defined.

Inductive Code :=
| CodeNotFound | CodeBadRequest | CodeInvalidInput | CodeValidation
| CodeInternal | CodeConflict | CodeUnauthorized | CodeForbidden
| CodeInvalidConsent | CodeMissingConsent | CodePolicyViolation
| CodeTimeout | CodeInvariantViolation | CodeInvalidGrant
| CodeInvalidClient | CodeUnsupportedGrantType | CodeInvalidRequest
| CodeAccessDenied.

#[global] Instance Code_eq_dec : EqDecision Code.
Proof. solve_decision. Defined.

Definition Code_string (c : Code) : string :=
  match c with
  | CodeNotFound => "not_found"
  | CodeBadRequest => "bad_request"
  | CodeInvalidInput => "invalid_input"
  | CodeValidation => "validation_failed"
  | CodeInternal => "internal_error"
  | CodeConflict => "conflict"
  | CodeUnauthorized => "unauthorized"
  | CodeForbidden => "forbidden"
  | CodeInvalidConsent => "invalid_consent"
  | CodeMissingConsent => "missing_consent"
  | CodePolicyViolation => "policy_violation"
  | CodeTimeout => "timeout"
  | CodeInvariantViolation => "invariant_violation"
  | CodeInvalidGrant => "invalid_grant"
  | CodeInvalidClient => "invalid_client"
  | CodeUnsupportedGrantType => "unsupported_grant_type"
  | CodeInvalidRequest => "invalid_request"
  | CodeAccessDenied => "access_denied"
  end.

(** The failure taxonomy of the registry providers. *)
Inductive ErrorCategory :=
| ErrorTimeout | ErrorBadData | ErrorAuthentication | ErrorProviderOutage
| ErrorContractMismatch | ErrorNotFound | ErrorRateLimited | ErrorInternal.

#[global] Instance ErrorCategory_eq_dec : EqDecision ErrorCategory.
Proof. solve_decision. Defined.

Definition ErrorCategory_text (c : ErrorCategory) : string :=
  match c with
  | ErrorTimeout => "timeout"
  | ErrorBadData => "bad_data"
  | ErrorAuthentication => "authentication"
  | ErrorProviderOutage => "provider_outage"
  | ErrorContractMismatch => "contract_mismatch"
  | ErrorNotFound => "not_found"
  | ErrorRateLimited => "rate_limited"
  | ErrorInternal => "internal"
  end.

Record ProviderError := mkPE {
  pe_Category : ErrorCategory;
  pe_ProviderID : string;
  pe_Message : string;
  pe_Retryable : bool;
}.

#[global] Instance ProviderError_eq_dec : EqDecision ProviderError.
Proof. solve_decision. Defined.

Inductive error :=
| EVal (v : errval)
| EDomain (c : Code) (msg : string)
| EDomainW (c : Code) (msg : string) (inner : error)
| EProvider (pe : ProviderError)
| EProviderW (pe : ProviderError) (inner : error)
| EWrap (prefix : string) (inner : error)
| EOther (msg : string).

#[global] Instance error_eq_dec : EqDecision error.
Proof. solve_decision. Defined.

Abbreviation res A := (result error A) (only parsing).

Definition errval_string (v : errval) : string :=
  match v with
  | ErrNotFound => "not found"
  | ErrConflict => "conflict"
  | ErrExpired => "expired"
  | ErrAlreadyUsed => "already used"
  | ErrInvalidState => "invalid state"
  | ErrUnavailable => "unavailable"
  | ErrSessionRevoked => "session has been revoked: invalid state"
  | ErrProviderNotFound => "provider not found"
  | ErrNoProvidersAvailable => "no providers available for this type"
  | ErrAllProvidersFailed => "all providers failed"
  | ErrCacheNotFound => "not found"
  end.

Definition ProviderError_text (pe : ProviderError) : string :=
  "provider " +:+ pe_ProviderID pe +:+ " [" +:+ ErrorCategory_text (pe_Category pe) +:+ "]: " +:+ pe_Message pe.

(** [(e *Error) Error()] and the texts of the other errors. *)
Fixpoint Error_text (e : error) : string :=
  match e with
  | EVal v => errval_string v
  | EDomain c m | EDomainW c m _ => if str_empty m then Code_string c else m
  | EProvider pe => ProviderError_text pe
  | EProviderW pe i => ProviderError_text pe +:+ ": " +:+ Error_text i
  | EWrap p i => p +:+ ": " +:+ Error_text i
  | EOther m => m
  end.

(** [errors.Is(e, target)] for a package-level target value.  A [*Error] has an
    [Is] method that matches other [*Error]s only, so it is stepped over. *)
Fixpoint errors_Is (e : error) (target : errval) : bool :=
  match e with
  | EVal v =>
      bool_decide (v = target) ||
      (bool_decide (v = ErrSessionRevoked) && bool_decide (target = ErrInvalidState))
  | EDomain _ _ | EProvider _ | EOther _ => false
  | EDomainW _ _ i | EProviderW _ i | EWrap _ i => errors_Is i target
  end.

(** [errors.As(e, &de)] for [de *Error]: the outermost domain error. *)
Fixpoint errors_As (e : error) : option (Code * string) :=
  match e with
  | EDomain c m | EDomainW c m _ => Some (c, m)
  | EProviderW _ i | EWrap _ i => errors_As i
  | EVal _ | EProvider _ | EOther _ => None
  end.

(** [errors.As(e, &pe)] for [pe *ProviderError]: the outermost provider error. *)
Fixpoint errors_As_provider (e : error) : option ProviderError :=
  match e with
  | EProvider pe | EProviderW pe _ => Some pe
  | EDomainW _ _ i | EWrap _ i => errors_As_provider i
  | EVal _ | EDomain _ _ | EOther _ => None
  end.

Definition New (c : Code) (m : string) : error := EDomain c m.

Definition Wrap (e : error) (c : Code) (m : string) : error :=
  match errors_As e with
  | Some (c', _) => EDomainW c' m e
  | None => EDomainW c m e
  end.

Definition HasCode (e : error) (c : Code) : bool :=
  match errors_As e with
  | Some (c', _) => bool_decide (c' = c)
  | None => false
  end.

(** [NewProviderError]: timeouts, outages and rate limits are retryable. *)
Definition NewProviderError (category : ErrorCategory) (providerID message : string)
    (underlying : option error) : error :=
  let pe := mkPE category providerID message
    (bool_decide (category = ErrorTimeout) || bool_decide (category = ErrorProviderOutage)
     || bool_decide (category = ErrorRateLimited)) in
  match underlying with None => EProvider pe | Some e => EProviderW pe e end.

Definition IsRetryable (e : error) : bool :=
  match errors_As_provider e with Some pe => pe_Retryable pe | None => false end.

Definition GetCategory (e : error) : ErrorCategory :=
  match errors_As_provider e with Some pe => pe_Category pe | None => ErrorInternal end.

(** The domain code an error carries to the transport layer. *)
Definition code_of (e : error) : option Code := fst <$> errors_As e.

(** ** Lemmas *)

Lemma code_of_Wrap e c m :
  code_of (Wrap e c m) = Some (default c (code_of e)).
Proof. unfold code_of, Wrap. by destruct (errors_As e) as [[]|]. Qed.

Lemma HasCode_code_of e c : HasCode e c = bool_decide (code_of e = Some c).
Proof.
  unfold HasCode, code_of. destruct (errors_As e) as [[c' m]|]; simpl.
  - apply bool_decide_ext. naive_solver.
  - done.
Qed.

Lemma errors_Is_Wrap e c m v : errors_Is (Wrap e c m) v = errors_Is e v.
Proof. unfold Wrap. by destruct (errors_As e) as [[]|]. Qed.

Lemma errors_Is_New c m v : errors_Is (New c m) v = false.
Proof. done. Qed.

#[export] Hint Rewrite code_of_Wrap errors_Is_Wrap errors_Is_New : credo.
