(* ===== verification/SqlDb.v ===== *)
(** * The database under the SQL stores
    [database/sql], the driver and PostgreSQL, as far as the stores of the
    repository use them, and the text of the schema in [migrations/]

    A table is the list of its rows.  A statement fails as a whole or has its
    effect; its effect may also happen although the caller sees an error, when the
    connection is lost before the reply.  A transaction keeps the tables as they
    were at its start until it commits.  When failures happen is decided by a
    driver acting on a world [W] that the model does not constrain.  A database
    error is an [ErrNoRows], an error of the server with its SQLSTATE, or an error
    of the driver, and is a plain error in a chain of wrapped ones. *)
From S2P Require Import Prelude Errors.
Open Scope Z_scope.

(** ** Errors and failures *)

Inductive dberr :=
| ErrNoRows
| PgError (sqlstate : string)
| DriverError (msg : string).

#[global] Instance dberr_eq_dec : EqDecision dberr.
Proof. solve_decision. Defined.

Definition db_error (e : dberr) : error :=
  match e with
  | ErrNoRows => EOther "sql: no rows in result set"
  | PgError c => EOther ("ERROR: (SQLSTATE " +:+ c +:+ ")")
  | DriverError m => EOther m
  end.

Definition unique_violation : string := "23505".
Definition foreign_key_violation : string := "23503".
Definition check_violation : string := "23514".
Definition invalid_text : string := "22021".
Definition string_too_long : string := "22001".
Definition cardinality_violation : string := "21000".

(** [isUniqueViolation] of the stores: [errors.As] to a [*pgconn.PgError]. *)
Definition isUniqueViolation (e : dberr) : bool :=
  match e with PgError c => bool_decide (c = unique_violation) | _ => false end.

(** What became of a statement or of a COMMIT: done; not done; done, but the caller
    gets an error. *)
Inductive outcome := Done | NotDone (msg : string) | DoneUnseen (msg : string).

Record Driver (W : Type) := mkDriver {
  drv_begin : W -> option string * W;
  drv_stmt : W -> outcome * W;
  drv_commit : W -> outcome * W;
  (** [NOW()]. *)
  drv_now : W -> time;
}.
Arguments mkDriver {W}.
Arguments drv_begin {W}.
Arguments drv_stmt {W}.
Arguments drv_commit {W}.
Arguments drv_now {W}.

(** The server and the connection work. *)
Definition healthy {W} (drv : Driver W) : Prop :=
  forall w, (drv_begin drv w).1 = None /\ (drv_stmt drv w).1 = Done /\ (drv_commit drv w).1 = Done.

(** ** Column types *)

(** [TIMESTAMPTZ] keeps microseconds; text must be valid UTF-8 without NUL; [JSONB]
    refuses some JSON texts and prints the others in its own way. *)
Class PgTypes := {
  ts : time -> time;
  text_ok : string -> bool;
  jsonb : string -> option string;
  jsonb_array_length : string -> option Z;
}.

(** [json.Marshal] and [json.Unmarshal] on a slice of strings. *)
Class StringsJson := {
  strings_Marshal : list string -> res string;
  strings_Unmarshal : string -> res (list string);
}.

Class PgLaws `{!PgTypes, !StringsJson} : Prop := {
  ts_idem : forall t, ts (ts t) = ts t;
  ts_mono : forall t u, t <= u -> ts t <= ts u;
  strings_Marshal_ok : forall l, exists b, strings_Marshal l = Ok b;
  strings_json : forall l b c, Forall (fun s => text_ok s = true) l ->
    strings_Marshal l = Ok b -> jsonb b = Some c ->
    strings_Unmarshal c = Ok l /\ (l <> [] -> c <> "") /\ jsonb_array_length c = Some (Z.of_nat (length l));
}.

(** The number of characters of a valid UTF-8 text: its bytes that do not continue
    a character. *)
Definition char_length (s : string) : Z :=
  Z.of_nat (length (filter (fun b => ~ (128 <= b < 192)) (bytes_of s))).

(** A value for a column [VARCHAR(n)]: the SQLSTATE of its refusal, if any. *)
Definition varchar `{!PgTypes} (n : Z) (s : string) : option string :=
  if negb (text_ok s) then Some invalid_text
  else if n <? char_length s then Some string_too_long else None.

(** A text parameter of a statement must be valid. *)
Definition with_text `{!PgTypes} {A} (s : string) (x : result dberr A) : result dberr A :=
  if text_ok s then x else Err (PgError invalid_text).

Definition check_that (b : bool) : option string := if b then None else Some check_violation.
Definition refers_to (b : bool) : option string := if b then None else Some foreign_key_violation.
Definition unique_that (b : bool) : option string := if b then None else Some unique_violation.

(** The first refusal of a list of constraints. *)
Fixpoint constraints (l : list (option string)) : option string :=
  match l with
  | [] => None
  | Some c :: _ => Some c
  | None :: l' => constraints l'
  end.

(** ** Tables *)

Section table.
Context {R : Type}.
Implicit Types (t : list R) (P : R -> bool).

Definition select_where P t : list R := filter (fun r => P r = true) t.
Definition delete_where P t : list R := filter (fun r => P r = false) t.
Definition update_where P (f : R -> R) t : list R := (fun r => if P r then f r else r) <$> t.
Definition rows_affected P t : Z := Z.of_nat (length (select_where P t)).

(** The row a query [:one] returns. *)
Definition one_row (l : list R) : result dberr R :=
  match l with [] => Err ErrNoRows | r :: _ => Ok r end.
End table.

Lemma one_row_in {R} P (l : list R) r : one_row (select_where P l) = Ok r -> r ∈ l /\ P r = true.
Proof.
  unfold one_row, select_where. destruct (filter _ l) as [|x l'] eqn:E; [done|]. intros [= ->].
  assert (r ∈ filter (fun r => P r = true) l) as Hin by (rewrite E; by left). by apply list_elem_of_filter in Hin as [? ?].
Qed.

(** ** Statements and transactions *)

Section database.
Context {W T : Type} (drv : Driver W).

Record DB := mkDB { db_tables : T; db_world : W }.

(** Statements report database errors, stores report [error]s. *)
Abbreviation QM A := (ST DB dberr A) (only parsing).
Abbreviation SM A := (ST DB error A) (only parsing).

(** [f] gives the result of the statement and the tables after it, or the error
    of the server, on the time of the statement. *)
Definition stmt {A} (f : time -> T -> result dberr (A * T)) : QM A := fun d =>
  let '(o, w) := drv_stmt drv (db_world d) in
  match o, f (drv_now drv (db_world d)) (db_tables d) with
  | NotDone m, _ => (Err (DriverError m), mkDB (db_tables d) w)
  | _, Err e => (Err e, mkDB (db_tables d) w)
  | Done, Ok (a, t) => (Ok a, mkDB t w)
  | DoneUnseen m, Ok (a, t) => (Err (DriverError m), mkDB t w)
  end.

(** A query changes nothing. *)
Definition query {A} (f : T -> result dberr A) : QM A :=
  stmt (fun _ t => match f t with Ok a => Ok (a, t) | Err e => Err e end).

(** The result of a statement, for the code to inspect. *)
Definition attempt {A} (m : QM A) : SM (result dberr A) := fun d => let '(r, d') := m d in (Ok r, d').

(** [return fmt.Errorf(prefix + ": %w", err)] on every error. *)
Definition wrapped {A} (prefix : string) (m : QM A) : SM A := fun d =>
  match m d with
  | (Ok a, d') => (Ok a, d')
  | (Err e, d') => (Err (EWrap prefix (db_error e)), d')
  end.

(** The same with another error when there is no row. *)
Definition or_not_found {A} (missing : error) (prefix : string) (m : QM A) : SM A := fun d =>
  match m d with
  | (Ok a, d') => (Ok a, d')
  | (Err ErrNoRows, d') => (Err missing, d')
  | (Err e, d') => (Err (EWrap prefix (db_error e)), d')
  end.

(** [BeginTx], the body, and [Commit] unless the body returns early; the deferred
    [Rollback] restores the tables. *)
Inductive txres (A : Type) := TxCommit (a : A) | TxReturn (a : A).
#[global] Arguments TxCommit {A} a.
#[global] Arguments TxReturn {A} a.

Definition rolled_back (t : T) (d : DB) : DB := mkDB t (db_world d).

Definition inTx {A} (begin_err commit_err : string -> error) (body : SM (txres A)) : SM A := fun d =>
  match drv_begin drv (db_world d) with
  | (Some m, w) => (Err (begin_err m), mkDB (db_tables d) w)
  | (None, w) =>
      match body (mkDB (db_tables d) w) with
      | (Err e, d1) => (Err e, rolled_back (db_tables d) d1)
      | (Ok (TxReturn a), d1) => (Ok a, rolled_back (db_tables d) d1)
      | (Ok (TxCommit a), d1) =>
          match drv_commit drv (db_world d1) with
          | (Done, w2) => (Ok a, mkDB (db_tables d1) w2)
          | (NotDone m, w2) => (Err (commit_err m), mkDB (db_tables d) w2)
          | (DoneUnseen m, w2) => (Err (commit_err m), mkDB (db_tables d1) w2)
          end
      end
  end.

(** ** Outcomes of store operations *)

(** An error of the infrastructure: no sentinel and no domain code in its chain,
    so that no caller takes it for an answer. *)
Definition infra (e : error) : Prop := (forall v, errors_Is e v = false) /\ errors_As e = None.

(** The operation failed and changed nothing, or it was done and the reply was
    lost, or it did what [spec] does. *)
Definition agrees {A S} (abs : T -> S) (d : DB) (r : res A) (d' : DB) (spec : res A * S) : Prop :=
  (exists e, r = Err e /\ infra e /\ db_tables d' = db_tables d)
  \/ (exists e, r = Err e /\ infra e /\ is_Ok spec.1 = true /\ abs (db_tables d') = spec.2)
  \/ (r = spec.1 /\ abs (db_tables d') = spec.2).

Lemma infra_wrap p e : infra e -> infra (EWrap p e).
Proof. done. Qed.
Lemma infra_other m : infra (EOther m).
Proof. done. Qed.
Lemma infra_db e : infra (db_error e).
Proof. by destruct e. Qed.

Lemma stmt_cases {A} (f : time -> T -> result dberr (A * T)) d r d' :
  stmt f d = (r, d') ->
  exists now, now = drv_now drv (db_world d) /\
  ((exists m, r = Err (DriverError m) /\ db_tables d' = db_tables d)
   \/ (exists m a t, f now (db_tables d) = Ok (a, t) /\ r = Err (DriverError m) /\ db_tables d' = t)
   \/ (exists e, f now (db_tables d) = Err e /\ r = Err e /\ db_tables d' = db_tables d)
   \/ (exists a t, f now (db_tables d) = Ok (a, t) /\ r = Ok a /\ db_tables d' = t)).
Proof.
  unfold stmt. intros H. eexists. split; [done|]. revert H.
  destruct (drv_stmt drv (db_world d)) as [[|m|m] w]; destruct (f _ _) as [[a t]|e]; intros [= <- <-]; eauto 10.
Qed.

Lemma stmt_world {A} (f : time -> T -> result dberr (A * T)) d : db_world (stmt f d).2 = (drv_stmt drv (db_world d)).2.
Proof. unfold stmt. destruct (drv_stmt drv (db_world d)) as [[ | m | m] w]; simpl; try destruct (f (drv_now drv (db_world d)) (db_tables d)) as [[a t]|e]; done. Qed.

Lemma query_cases {A} (f : T -> result dberr A) d r d' :
  query f d = (r, d') ->
  db_tables d' = db_tables d /\ ((exists m, r = Err (DriverError m)) \/ r = f (db_tables d)).
Proof.
  unfold query. intros (now & _ & H)%stmt_cases. destruct (f (db_tables d)) as [a|e]; naive_solver.
Qed.

Lemma stmt_healthy {A} (f : time -> T -> result dberr (A * T)) d : healthy drv ->
  exists now w, stmt f d =
    match f now (db_tables d) with Ok (a, t) => (Ok a, mkDB t w) | Err e => (Err e, mkDB (db_tables d) w) end.
Proof.
  intros H. destruct (H (db_world d)) as (_ & Hs & _). unfold stmt. destruct (drv_stmt drv (db_world d)) as [o w].
  simpl in Hs. subst o. exists (drv_now drv (db_world d)), w. by destruct (f (drv_now drv (db_world d)) _) as [[]|].
Qed.

Lemma query_healthy {A} (f : T -> result dberr A) d : healthy drv ->
  exists w, query f d = (f (db_tables d), mkDB (db_tables d) w).
Proof.
  intros H. unfold query. destruct (stmt_healthy (fun _ t => match f t with Ok a => Ok (a, t) | Err e => Err e end) d H)
    as (now & w & ->). exists w. by destruct (f (db_tables d)).
Qed.

(** A transaction that fails leaves the tables alone, unless only the reply to
    its COMMIT was lost. *)
Lemma inTx_cases {A} (begin_err commit_err : string -> error) (body : SM (txres A)) d r d' :
  inTx begin_err commit_err body d = (r, d') ->
  (exists m, r = Err (begin_err m) /\ db_tables d' = db_tables d)
  \/ exists w br d1, body (mkDB (db_tables d) w) = (br, d1) /\
     ((exists e, br = Err e /\ r = Err e /\ db_tables d' = db_tables d)
      \/ (exists a, br = Ok (TxReturn a) /\ r = Ok a /\ db_tables d' = db_tables d)
      \/ (exists a m, br = Ok (TxCommit a) /\ r = Err (commit_err m) /\ db_tables d' = db_tables d)
      \/ (exists a m, br = Ok (TxCommit a) /\ r = Err (commit_err m) /\ db_tables d' = db_tables d1)
      \/ (exists a, br = Ok (TxCommit a) /\ r = Ok a /\ db_tables d' = db_tables d1)).
Proof.
  unfold inTx. destruct (drv_begin drv (db_world d)) as [[m|] w]; intros H; [left; naive_solver|right].
  destruct (body _) as [br d1] eqn:Hb. exists w, br, d1. split; [done|].
  destruct br as [[a|a]|e]; [|naive_solver..].
  destruct (drv_commit drv (db_world d1)) as [[|m|m] w2]; simplify_eq; simpl; naive_solver.
Qed.
End database.
Arguments DB : clear implicits.
Arguments mkDB {W T}.
Arguments db_tables {W T}.
Arguments db_world {W T}.

#[export] Hint Resolve infra_wrap infra_other infra_db : credo.
Ltac infra := solve [repeat apply infra_wrap; first [apply infra_other | apply infra_db]].

(** ** Tables as maps *)

Section tmap.
Context {K V R : Type} `{Countable K} (key : R -> K) (val : R -> V).
Implicit Types (t : list R) (P : R -> bool).

(** The table seen as a map from a unique column. *)
Definition tmap t : gmap K V := list_to_map ((fun r => (key r, val r)) <$> t).
Definition keyed t : Prop := NoDup (key <$> t).

Lemma keyed_inj t x y : keyed t -> x ∈ t -> y ∈ t -> key x = key y -> x = y.
Proof.
  unfold keyed. induction t as [|r t IH]; [by intros _ Hx%elem_of_nil|].
  rewrite fmap_cons, NoDup_cons. intros [Hn Hd] [-> |Hx]%elem_of_cons [-> |Hy]%elem_of_cons E; [done| | |by apply IH];
    destruct Hn; apply list_elem_of_fmap; eauto.
Qed.

Lemma tmap_Some t k v : keyed t -> tmap t !! k = Some v <-> exists r, r ∈ t /\ key r = k /\ val r = v.
Proof.
  intros Hk. unfold tmap. rewrite <- elem_of_list_to_map.
  - rewrite list_elem_of_fmap. split; [intros (r & [= -> ->] & ?)|intros (r & ? & <- & <-)]; eauto.
  - by rewrite <- list_fmap_compose.
Qed.

Lemma tmap_None t k : tmap t !! k = None <-> forall r, r ∈ t -> key r <> k.
Proof.
  unfold tmap. rewrite <- not_elem_of_list_to_map, <- list_fmap_compose, list_elem_of_fmap. unfold compose. naive_solver.
Qed.

Lemma tmap_insert t r : keyed t -> (forall x, x ∈ t -> key x <> key r) ->
  keyed (t ++ [r]) /\ tmap (t ++ [r]) = <[key r := val r]> (tmap t).
Proof.
  intros Hk Hn. assert (keyed (t ++ [r])) as Hk'.
  { unfold keyed. rewrite fmap_app. apply NoDup_app. split_and!; [done| |apply NoDup_singleton].
    intros k (x & -> & Hx)%list_elem_of_fmap Hin. apply list_elem_of_singleton in Hin. by apply (Hn x). }
  split; [done|]. apply map_eq. intros k. destruct (<[key r:=val r]> (tmap t) !! k) as [v|] eqn:E.
  - apply tmap_Some; [done|]. apply lookup_insert_Some in E as [[<- <-]|[? E]]; [set_solver|].
    apply tmap_Some in E as (x & ? & ? & ?); set_solver.
  - apply tmap_None. apply lookup_insert_None in E as [E ?]. rewrite tmap_None in E.
    intros x [?| ->%list_elem_of_singleton]%elem_of_app; auto.
Qed.

Lemma keyed_update P f t : (forall r, r ∈ t -> P r = true -> key (f r) = key r) -> keyed t -> keyed (update_where P f t).
Proof.
  intros Hf. unfold keyed, update_where. rewrite <- list_fmap_compose.
  rewrite (list_fmap_ext (key ∘ _) key); [done|]. intros i r Hr%list_elem_of_lookup_2. unfold compose. destruct (P r) eqn:?; auto.
Qed.

(** An UPDATE of the rows with one key. *)
Lemma tmap_update (k : K) (f : R -> R) t : keyed t -> (forall r, r ∈ t -> key r = k -> key (f r) = k) ->
  tmap (update_where (fun r => bool_decide (key r = k)) f t) =
  match find (fun r => bool_decide (key r = k)) t with Some r => <[k := val (f r)]> (tmap t) | None => tmap t end.
Proof.
  intros Hk Hf. assert (keyed (update_where (fun r => bool_decide (key r = k)) f t)) as Hk'.
  { apply keyed_update; [|done]. intros r Hr Hp. bools. by rewrite (Hf r Hr Hp). }
  assert (forall k' v, tmap (update_where (fun r => bool_decide (key r = k)) f t) !! k' = Some v <->
    exists r, r ∈ t /\ key r = k' /\ (if decide (key r = k) then val (f r) else val r) = v) as Hu.
  { intros k' v. rewrite tmap_Some by done. unfold update_where. split.
    - intros (r & (x & -> & Hx)%list_elem_of_fmap & <- & <-). exists x. case_bool_decide as E; rewrite ?decide_True, ?decide_False by done; auto.
      split_and!; [done| |done]. rewrite E. symmetry. by apply Hf.
    - intros (r & Hr & <- & <-). exists (if bool_decide (key r = k) then f r else r). split; [apply list_elem_of_fmap; eauto|].
      case_bool_decide as E; rewrite ?decide_True, ?decide_False by done; auto. split; [|done]. rewrite E. by apply Hf. }
  apply map_eq. intros k'. apply option_eq. intros v. rewrite Hu.
  destruct (find _ t) as [r0|] eqn:E.
  - apply find_some in E as [Hin%list_elem_of_In E]. bools. rewrite lookup_insert_Some, tmap_Some by done. split.
    + intros (r & Hr & <- & <-). case_decide as E2; [left|right; naive_solver]. split; [done|].
      f_equal. f_equal. apply (keyed_inj t); congruence.
    + intros [[<- <-]|[Hne (r & Hr & <- & <-)]]; [exists r0|exists r]; rewrite ?decide_True, ?decide_False by (done || congruence); done.
  - rewrite tmap_Some by done. assert (forall r, r ∈ t -> key r <> k) as Hno.
    { intros r Hr%list_elem_of_In Hk2. pose proof (find_none _ _ E r Hr) as Hb. simpl in Hb. by bools. }
    split; intros (r & Hr & <- & Hv); exists r; [rewrite decide_False in Hv by auto|rewrite decide_False by auto]; done.
Qed.

(** An UPDATE that keeps the keys. *)
Lemma tmap_update_where P f (g : K -> V -> V) t : keyed t -> (forall r, r ∈ t -> key (f r) = key r) ->
  (forall r, r ∈ t -> val (if P r then f r else r) = g (key r) (val r)) ->
  tmap (update_where P f t) = map_imap (fun k v => Some (g k v)) (tmap t).
Proof.
  intros Hk Hf Hg. assert (keyed (update_where P f t)) as Hk' by (apply keyed_update; auto).
  apply map_eq. intros k. apply option_eq. intros v. rewrite tmap_Some, map_lookup_imap by done. unfold update_where. split.
  - intros (r & (x & -> & Hx)%list_elem_of_fmap & <- & <-). rewrite (Hg x Hx).
    assert (tmap t !! key x = Some (val x)) as Hl by (apply tmap_Some; eauto). destruct (P x); rewrite ?Hf by done; by rewrite Hl.
  - destruct (tmap t !! k) as [v0|] eqn:E; [|done]. apply tmap_Some in E as (x & Hx & <- & <-); [|done]. intros [= <-].
    exists (if P x then f x else x). split; [apply list_elem_of_fmap; eauto|]. rewrite (Hg x Hx). by destruct (P x); rewrite ?Hf.
Qed.

(** A DELETE whose condition is about the columns the map keeps. *)
Lemma tmap_delete P (P' : K * V -> bool) t : keyed t -> (forall r, r ∈ t -> P r = P' (key r, val r)) ->
  keyed (delete_where P t) /\ tmap (delete_where P t) = filter (fun kv => P' kv = false) (tmap t).
Proof.
  intros Hk HP. assert (keyed (delete_where P t)) as Hk' by (by apply NoDup_fmap_filter).
  split; [done|]. apply map_eq. intros k. apply option_eq. intros v.
  rewrite map_lookup_filter_Some, !tmap_Some by done. unfold delete_where. setoid_rewrite list_elem_of_filter. split.
  - intros (r & [Hp Hr] & <- & <-). rewrite <- HP by done. eauto.
  - intros [(r & Hr & <- & <-) Hp]. rewrite <- HP in Hp by done. eauto 6.
Qed.

Lemma tmap_size t : keyed t -> size (tmap t) = length t.
Proof.
  intros Hk. unfold tmap. rewrite map_size_list_to_map; [by rewrite length_fmap|]. by rewrite <- list_fmap_compose.
Qed.

Lemma rows_split P t : length t = (length (select_where P t) + length (delete_where P t))%nat.
Proof.
  induction t as [|r t IH]; [done|]. unfold select_where, delete_where in *. rewrite !filter_cons. simpl.
  destruct (P r); repeat case_decide; simpl; first [done|lia].
Qed.

Lemma rows_affected_delete P t : keyed t ->
  rows_affected P t = Z.of_nat (size (tmap t)) - Z.of_nat (size (tmap (delete_where P t))).
Proof.
  intros Hk. rewrite !tmap_size; [|by apply NoDup_fmap_filter|done]. unfold rows_affected. pose proof (rows_split P t). lia.
Qed.

Lemma rows_affected_0 P t : rows_affected P t = 0 <-> forall r, r ∈ t -> P r = false.
Proof.
  unfold rows_affected, select_where. split.
  - intros Hz r Hr. destruct (P r) eqn:E; [|done]. exfalso.
    assert (r ∈ filter (fun r => P r = true) t) as Hin by (by apply list_elem_of_filter).
    destruct (filter _ t); [by apply elem_of_nil in Hin|done].
  - intros Hn. rewrite filter_none; [done|]. apply Forall_forall. intros r Hr. rewrite Hn by done. done.
Qed.

(** Looking for a row in the table and in the map. *)
Lemma rows_exist P (P' : V -> bool) t : keyed t -> (forall r, r ∈ t -> P r = P' (val r)) ->
  existsb (fun kv => P' kv.2) (map_to_list (tmap t)) = negb (rows_affected P t =? 0).
Proof.
  intros Hk HP. apply eq_true_iff_eq. rewrite negb_true_iff, Z.eqb_neq, rows_affected_0, existsb_exists. split.
  - intros ([i v] & Hin%list_elem_of_In & Hb) Hno. apply elem_of_map_to_list, (tmap_Some _ _ _ Hk) in Hin as (r & Hr & _ & <-).
    simpl in Hb. rewrite <- HP in Hb by done. by rewrite Hno in Hb.
  - intros Hsome. destruct (filter (fun r => P r = true) t) as [|r l] eqn:E.
    + destruct Hsome. intros r Hr. destruct (P r) eqn:EP; [|done]. assert (r ∈ filter (fun r => P r = true) t) as Hin
        by (by apply list_elem_of_filter). rewrite E in Hin. by apply elem_of_nil in Hin.
    + assert (r ∈ filter (fun r => P r = true) t) as Hin by (rewrite E; by left). apply list_elem_of_filter in Hin as [HPr Hr].
      exists (key r, val r). split; [|simpl; by rewrite <- HP]. apply list_elem_of_In, elem_of_map_to_list, tmap_Some; eauto.
Qed.

(** The row of a key. *)
Lemma one_row_key t k : keyed t ->
  match one_row (select_where (fun r => bool_decide (key r = k)) t) with
  | Ok r => r ∈ t /\ key r = k /\ tmap t !! k = Some (val r) /\ find (fun r => bool_decide (key r = k)) t = Some r
  | Err e => e = ErrNoRows /\ tmap t !! k = None /\ find (fun r => bool_decide (key r = k)) t = None
  end.
Proof.
  intros Hk. unfold one_row, select_where. destruct (filter _ t) as [|r l] eqn:E.
  - assert (forall r, r ∈ t -> key r <> k) as Hno.
    { intros r Hr Hkr. assert (r ∈ filter (fun r => bool_decide (key r = k) = true) t) as Hin
        by (apply list_elem_of_filter; by rewrite bool_decide_eq_true). rewrite E in Hin. by apply elem_of_nil in Hin. }
    split_and!; [done|by apply tmap_None|]. destruct (find _ t) as [r|] eqn:F; [|done].
    apply find_some in F as [Hin%list_elem_of_In Hb]. bools. by destruct (Hno r).
  - assert (r ∈ t /\ key r = k) as [Hr Hkr].
    { assert (r ∈ filter (fun r => bool_decide (key r = k) = true) t) as Hin by (rewrite E; by left).
      apply list_elem_of_filter in Hin as [Hb ?]. by bools. }
    split_and!; [done|done|apply tmap_Some; eauto|]. destruct (find _ t) as [x|] eqn:F.
    + apply find_some in F as [Hin%list_elem_of_In Hb]. bools. f_equal. apply (keyed_inj t); congruence.
    + apply list_elem_of_In in Hr. pose proof (find_none _ _ F r Hr) as Hb. simpl in Hb. by bools.
Qed.
End tmap.

(** ** Constraints *)

Lemma constraints_None l : constraints l = None <-> Forall (fun c => c = None) l.
Proof.
  induction l as [|[c|] l IH]; simpl; [by split; [constructor|]| |].
  - split; [done|]. intros [? _]%Forall_cons. done.
  - rewrite IH, Forall_cons. naive_solver.
Qed.

#[global] Arguments constraints : simpl never.

Lemma check_that_None b : check_that b = None <-> b = true.
Proof. by destruct b. Qed.
Lemma refers_to_None b : refers_to b = None <-> b = true.
Proof. by destruct b. Qed.
Lemma unique_that_None b : unique_that b = None <-> b = true.
Proof. by destruct b. Qed.

(** Membership tests of constraints. *)
Definition has {A} `{EqDecision A} (l : list A) (x : A) : bool := bool_decide (x ∈ l).

Lemma has_true {A} `{EqDecision A} (l : list A) x : has l x = true <-> x ∈ l.
Proof. apply bool_decide_eq_true. Qed.
Lemma has_false {A} `{EqDecision A} (l : list A) x : has l x = false <-> x ∉ l.
Proof. apply bool_decide_eq_false. Qed.

Lemma keyed_insert {K R} `{EqDecision K} (key : R -> K) (l : list R) r :
  keyed key l -> has (key <$> l) (key r) = false -> keyed key (l ++ [r]).
Proof.
  unfold keyed. rewrite has_false. intros Hk Hn. rewrite fmap_app. apply NoDup_app. split_and!; [done| |apply NoDup_singleton].
  intros k Hin ->%list_elem_of_singleton. done.
Qed.

Lemma keyed_delete {K R} (key : R -> K) P (l : list R) : keyed key l -> keyed key (delete_where P l).
Proof. apply NoDup_fmap_filter. Qed.

(** ** Rows under UPDATE and DELETE *)

Lemma update_keys {K R} (key : R -> K) P (f : R -> R) (l : list R) :
  (forall r, P r = true -> key (f r) = key r) -> key <$> update_where P f l = key <$> l.
Proof.
  intros Hf. unfold update_where. rewrite <- list_fmap_compose. apply list_fmap_ext. intros i r _. unfold compose.
  destruct (P r) eqn:E; [by apply Hf|done].
Qed.

Lemma Forall_update {R} (Q : R -> Prop) P (f : R -> R) (l : list R) :
  Forall Q l -> (forall r, r ∈ l -> Q r -> P r = true -> Q (f r)) -> Forall Q (update_where P f l).
Proof.
  rewrite !Forall_forall. intros HQ Hf x (r & -> & Hr)%list_elem_of_fmap. destruct (P r) eqn:E; auto.
Qed.

Lemma Forall_delete {R} (Q : R -> Prop) P (l : list R) : Forall Q l -> Forall Q (delete_where P l).
Proof. rewrite !Forall_forall. intros HQ x [_ Hx]%list_elem_of_filter. auto. Qed.

Lemma keys_insert_mono {K R} (key : R -> K) (l : list R) r k : k ∈ key <$> l -> k ∈ key <$> (l ++ [r]).
Proof. rewrite fmap_app. set_solver. Qed.

Lemma Forall_keys_mono {K R S} (key : R -> K) (g : S -> K) (l : list R) r (m : list S) :
  Forall (fun x => g x ∈ key <$> l) m -> Forall (fun x => g x ∈ key <$> (l ++ [r])) m.
Proof. intros Hm. eapply Forall_impl; [exact Hm|]. intros x. apply keys_insert_mono. Qed.

Lemma Forall_snoc {R} (Q : R -> Prop) (l : list R) r : Forall Q l -> Q r -> Forall Q (l ++ [r]).
Proof. intros. apply Forall_app. auto. Qed.

(** An UPDATE of one row to a key no other row has. *)
Lemma keyed_update_unique {I K R} `{EqDecision I, EqDecision K} (ident : R -> I) (key : R -> K) (f : R -> R) (i : I) (k : K) (l : list R) :
  keyed ident l -> keyed key l -> (forall r, key (f r) = k) ->
  has (key <$> delete_where (fun r => bool_decide (ident r = i)) l) k = false ->
  keyed key (update_where (fun r => bool_decide (ident r = i)) f l).
Proof.
  unfold keyed. intros Hi Hk Hf Hn. apply has_false in Hn. induction l as [|r l IH]; [constructor|].
  unfold delete_where, update_where in *. rewrite fmap_cons, NoDup_cons in Hi. rewrite fmap_cons, NoDup_cons in Hk.
  destruct Hi as [Hi1 Hi2], Hk as [Hk1 Hk2].
  rewrite filter_cons in Hn. rewrite !fmap_cons. apply NoDup_cons. case_bool_decide as E.
  - rewrite decide_False in Hn by done. split; [|by apply IH].
    assert (filter (fun r => bool_decide (ident r = i) = false) l = l) as Hall.
    { apply filter_all, Forall_forall. intros x Hx. apply bool_decide_eq_false. intros Ex. destruct Hi1. rewrite E, <- Ex.
      apply list_elem_of_fmap. eauto. }
    rewrite Hall in Hn. rewrite Hf. intros (x & Hx & (y & -> & Hy)%list_elem_of_fmap)%list_elem_of_fmap.
    rewrite <- Hall in Hy. apply list_elem_of_filter in Hy as [Hb Hy]. rewrite Hb in Hx. destruct Hn. rewrite Hx.
    apply list_elem_of_fmap. eauto.
  - rewrite decide_True in Hn by done. rewrite fmap_cons in Hn. apply not_elem_of_cons in Hn as [Hne Hn]. split; [|by apply IH].
    intros (x & Hx & (y & -> & Hy)%list_elem_of_fmap)%list_elem_of_fmap. case_bool_decide; [rewrite Hf in Hx; done|].
    destruct Hk1. rewrite Hx. apply list_elem_of_fmap. eauto.
Qed.

(** A key that survives a DELETE. *)
Lemma key_survives {K R} `{EqDecision K} (key : R -> K) P (l : list R) k :
  k ∈ key <$> l -> has (key <$> select_where P l) k = false -> k ∈ key <$> delete_where P l.
Proof.
  rewrite has_false. intros (r & -> & Hr)%list_elem_of_fmap Hn. apply list_elem_of_fmap. exists r. split; [done|].
  apply list_elem_of_filter. split; [|done]. destruct (P r) eqn:E; [|done]. destruct Hn. apply list_elem_of_fmap.
  exists r. split; [done|]. by apply list_elem_of_filter.
Qed.

Lemma Forall_survive {K R S} `{EqDecision K} (key : R -> K) (g : S -> K) P (l : list R) (m : list S) :
  Forall (fun x => g x ∈ key <$> l) m ->
  Forall (fun x => g x ∈ key <$> delete_where P l) (delete_where (fun x => has (key <$> select_where P l) (g x)) m).
Proof.
  rewrite !Forall_forall. intros Hm x [Hn Hx]%list_elem_of_filter. apply key_survives; auto.
Qed.

(** UPDATE of the one row with a key. *)
Lemma tmap_update_row {K R V} `{Countable K} (key : R -> K) (val : R -> V) (f : R -> R) (l : list R) row :
  keyed key l -> row ∈ l -> (forall r, key (f r) = key r) ->
  tmap key val (update_where (fun r => bool_decide (key r = key row)) f l) = <[key row := val (f row)]> (tmap key val l).
Proof.
  intros Hk Hin Hf. rewrite tmap_update; [|done|by intros r _ <-]. destruct (find _ _) as [x|] eqn:E.
  - apply find_some in E as [Hx%list_elem_of_In Hb]. bools. by rewrite (keyed_inj key _ x row Hk Hx Hin).
  - apply list_elem_of_In in Hin. pose proof (find_none _ _ E row Hin) as Hb. simpl in Hb. by bools.
Qed.

(** [INSERT ... ON CONFLICT (key) DO UPDATE] of all other columns. *)
Definition upsert_row {R K} `{EqDecision K} (key : R -> K) (r : R) (l : list R) : list R :=
  if has (key <$> l) (key r) then update_where (fun x => bool_decide (key x = key r)) (fun _ => r) l else l ++ [r].

Lemma upsert_row_spec {R K} `{EqDecision K} (key : R -> K) (r : R) (l : list R) : keyed key l ->
  keyed key (upsert_row key r l) /\ r ∈ upsert_row key r l /\ (forall x, x ∈ upsert_row key r l -> x = r \/ x ∈ l) /\
  (forall x, x ∈ l -> key x <> key r -> x ∈ upsert_row key r l).
Proof.
  intros Hk. unfold upsert_row. destruct (has _ _) eqn:E.
  - apply has_true, list_elem_of_fmap in E as (y & Hy & Hin). split_and!.
    + apply keyed_update; [|done]. intros x _ Hb. by bools.
    + apply list_elem_of_fmap. exists y. by rewrite bool_decide_eq_true_2.
    + intros x (z & -> & Hz)%list_elem_of_fmap. case_bool_decide; auto.
    + intros x Hx Hne. apply list_elem_of_fmap. exists x. by rewrite bool_decide_eq_false_2.
  - split_and!; [by apply keyed_insert|set_solver..].
Qed.

Lemma upsert_row_map {R K V} `{Countable K} (key : R -> K) (val : R -> V) (r : R) (l : list R) : keyed key l ->
  tmap key val (upsert_row key r l) = <[key r := val r]> (tmap key val l).
Proof.
  intros Hk. destruct (upsert_row_spec key r l Hk) as (Hk' & Hr & Hin & Hkeep). apply map_eq. intros k. apply option_eq. intros v.
  rewrite tmap_Some, lookup_insert_Some, tmap_Some by done. split.
  - intros (x & Hx & <- & <-). destruct (decide (key x = key r)) as [E|E].
    + left. rewrite (keyed_inj key _ x r Hk' Hx Hr E). done.
    + right. split; [done|]. destruct (Hin x Hx) as [->|?]; [done|eauto].
  - intros [[<- <-]|[Hne (x & Hx & <- & <-)]]; [by exists r|]. exists x. split; [|done]. by apply Hkeep.
Qed.

(** Split a satisfied list of constraints. *)
Ltac constraints_split :=
  repeat match goal with
  | H : constraints _ = None |- _ => apply constraints_None in H
  | H : Forall _ (_ :: _) |- _ => apply Forall_cons in H as [? H]
  | H : Forall _ [] |- _ => clear H
  | H : check_that _ = None |- _ => apply check_that_None in H
  | H : refers_to _ = None |- _ => apply refers_to_None in H
  | H : unique_that _ = None |- _ => apply unique_that_None in H
  | H : negb _ = true |- _ => apply negb_true_iff in H
  | H : has _ _ = true |- _ => apply has_true in H
  end.

(** ** Invariants of stores *)

Section store_keeps.
Context {W T : Type} (drv : Driver W) (I : T -> Prop).
Abbreviation on_tables := (fun d : DB W T => I (db_tables d)).

Lemma keeps_stmt {A} (f : time -> T -> result dberr (A * T)) :
  (forall now t a t', I t -> f now t = Ok (a, t') -> I t') -> st_keeps on_tables (stmt drv f) (fun _ => True).
Proof.
  intros Hf d r d' HI (now & _ & H)%stmt_cases. split; [|done].
  destruct H as [(m & _ & Ht)|[(m & a & t & Hr & _ & Ht)|[(e & _ & _ & Ht)|(a & t & Hr & _ & Ht)]]]; rewrite Ht; eauto.
Qed.

Lemma keeps_query {A} (f : T -> result dberr A) : st_keeps on_tables (query drv f) (fun _ => True).
Proof. intros d r d' HI [Ht _]%query_cases. by rewrite Ht. Qed.

Lemma keeps_wrapped {A} p (m : ST (DB W T) dberr A) (Q : A -> Prop) : st_keeps on_tables m Q -> st_keeps on_tables (wrapped p m) Q.
Proof.
  intros Hm d r d' HI. unfold wrapped. destruct (m d) as [x d1] eqn:E. destruct (Hm d x d1 HI E) as [? Hr].
  destruct x; intros [= <- <-]; split; try done. intros ? [= <-]. by apply Hr.
Qed.

Lemma keeps_or_not_found {A} e p (m : ST (DB W T) dberr A) (Q : A -> Prop) :
  st_keeps on_tables m Q -> st_keeps on_tables (or_not_found e p m) Q.
Proof.
  intros Hm d r d' HI. unfold or_not_found. destruct (m d) as [x d1] eqn:E. destruct (Hm d x d1 HI E) as [? Hr].
  destruct x as [|[]]; intros [= <- <-]; split; try done. intros ? [= <-]. by apply Hr.
Qed.

Lemma keeps_attempt {A} (m : ST (DB W T) dberr A) (Q : A -> Prop) :
  st_keeps on_tables m Q -> st_keeps on_tables (attempt m) (fun _ => True).
Proof.
  intros Hm d r d' HI. unfold attempt. destruct (m d) as [x d1] eqn:E. destruct (Hm d x d1 HI E) as [? _].
  by intros [= <- <-].
Qed.

Lemma keeps_inTx {A} b c (body : ST (DB W T) error (txres A)) :
  st_keeps on_tables body (fun _ => True) -> st_keeps on_tables (inTx drv b c body) (fun _ => True).
Proof.
  intros Hb d r d' HI H. split; [|done]. simpl.
  apply inTx_cases in H as [(m & _ & ->)|(w & br & d1 & Hbody & H)]; [done|].
  assert (I (db_tables d1)) by (by apply (Hb (mkDB (db_tables d) w) br d1)).
  destruct H as [(? & _ & _ & ->)|[(? & _ & _ & ->)|[(? & ? & _ & _ & ->)|[(? & ? & _ & _ & ->)|(? & _ & _ & ->)]]]]; done.
Qed.
End store_keeps.

(** ** Answers *)

Definition answer {S E A B} (f : A -> B) (m : ST S E A) : ST S E B := a ← m; mret (f a).

Definition rmap {E A B} (f : A -> B) (x : result E A) : result E B := match x with Ok a => Ok (f a) | Err e => Err e end.

Lemma answer_cases {S E A B} (f : A -> B) (m : ST S E A) s r s' :
  answer f m s = (r, s') -> exists x, m s = (x, s') /\ r = rmap f x.
Proof. unfold answer, mbind, st_bind, mret, st_ret. destruct (m s) as [[a|e] s1]; intros [= <- <-]; eexists; done. Qed.

Section agree.
Context {W T : Type}.

(** The three ways to agree. *)
Lemma agrees_refused {A S} (abs : T -> S) d e d' (spec : res A * S) :
  infra e -> db_tables d' = db_tables d -> agrees (W := W) abs d (Err e) d' spec.
Proof. intros. left. eauto. Qed.
Lemma agrees_lost {A S} (abs : T -> S) d e d' (a : A) (m : S) :
  infra e -> abs (db_tables d') = m -> agrees (W := W) abs d (Err e) d' (Ok a, m).
Proof. intros. right. left. eauto. Qed.
Lemma agrees_done {A S} (abs : T -> S) d r d' (m : S) :
  abs (db_tables d') = m -> agrees (W := W) (A := A) abs d r d' (r, m).
Proof. intros. right. by right. Qed.

Lemma agrees_map {A B S} (f : A -> B) (abs : T -> S) d r d' (spec : res A * S) :
  agrees (W := W) abs d r d' spec -> agrees abs d (rmap f r) d' (rmap f spec.1, spec.2).
Proof.
  destruct spec as [x m]. intros [(e & -> & He & Ht)|[(e & -> & He & Ho & Ht)|[-> Ht]]]; [by left; eauto| |by right; right].
  right. left. exists e. split_and!; try done. by destruct x.
Qed.

End agree.

(** ** Computations with one successful run

    [runs H m f]: the computation fails with an error of the infrastructure or has
    the result and the effect of [f]; under [H] it does not fail. *)
Section runs.
Context {W T : Type} (drv : Driver W) (H : Prop).

Definition runs {A} (m : ST (DB W T) error A) (f : T -> A * T) : Prop :=
  forall d r d', m d = (r, d') ->
  ((exists e, r = Err e /\ infra e) \/ (r = Ok (f (db_tables d)).1 /\ db_tables d' = (f (db_tables d)).2)) /\
  (H -> r = Ok (f (db_tables d)).1).

Lemma runs_ret {A} (a : A) : runs (mret a) (fun t => (a, t)).
Proof. intros d r d' [= <- <-]. split; [by right|done]. Qed.

Lemma runs_bind_if {A B} (Q : A -> Prop) (m : ST (DB W T) error A) (k : A -> ST (DB W T) error B) f g :
  runs m f -> (forall t, Q (f t).1) -> (forall a, Q a -> runs (k a) (g a)) -> runs (m ≫= k) (fun t => g (f t).1 (f t).2).
Proof.
  intros Hm HQ Hk d r d'. unfold mbind, st_bind. destruct (m d) as [x d1] eqn:E. destruct (Hm d x d1 E) as [Hx Hh].
  destruct x as [a|e].
  - destruct Hx as [(e & ? & _)|[[= ->] Ht]]; [done|]. intros E2. rewrite <- Ht. apply (Hk _ (HQ _) d1 r d' E2).
  - intros [= <- <-]. split.
    + left. destruct Hx as [(e' & [= ->] & ?)|[? _]]; [by eexists|done].
    + intros HH. by specialize (Hh HH).
Qed.

Lemma runs_bind {A B} (m : ST (DB W T) error A) (k : A -> ST (DB W T) error B) f g :
  runs m f -> (forall a, runs (k a) (g a)) -> runs (m ≫= k) (fun t => g (f t).1 (f t).2).
Proof. intros Hm Hk. apply (runs_bind_if (fun _ => True)); auto. Qed.

Lemma runs_ext {A} (m : ST (DB W T) error A) f g : runs m f -> (forall t, f t = g t) -> runs m g.
Proof. intros Hm Hfg d r d' E. rewrite <- Hfg. by apply Hm. Qed.

Lemma runs_lift {A} (x : res A) a : x = Ok a -> runs (st_lift x) (fun t => (a, t)).
Proof. intros -> d r d' [= <- <-]. split; [by right|done]. Qed.

Lemma runs_query {A} p (f : T -> result dberr A) (g : T -> A) :
  (forall t a, f t = Ok a -> a = g t) -> (H -> healthy drv /\ forall t, f t = Ok (g t)) -> runs (wrapped p (query drv f)) (fun t => (g t, t)).
Proof.
  intros Hf HH d r d'. unfold wrapped. destruct (query drv f d) as [q d1] eqn:Hq. pose proof (query_cases drv f d q d1 Hq) as [Ht Hc].
  assert (H -> q = Ok (g (db_tables d))) as Hh.
  { intros Ha. destruct (HH Ha) as [He Hg]. destruct (query_healthy drv f d He) as (w & E). rewrite Hg in E. congruence. }
  destruct q as [a|e]; intros [= <- <-]; split.
  - right. destruct Hc as [(m & ?)|Hc]; [done|]. symmetry in Hc. by rewrite (Hf _ _ Hc).
  - intros Ha. specialize (Hh Ha). simpl. congruence.
  - left. eexists. split; [done|infra].
  - intros Ha. by specialize (Hh Ha).
Qed.

Lemma runs_stmt {A} p (f : T -> result dberr (A * T)) (g : T -> A * T) :
  (forall t x, f t = Ok x -> x = g t) -> (H -> healthy drv /\ forall t, f t = Ok (g t)) -> runs (wrapped p (stmt drv (fun _ => f))) g.
Proof.
  intros Hf HH d r d'. unfold wrapped. destruct (stmt drv (fun _ => f) d) as [q d1] eqn:Hq.
  assert (H -> q = Ok (g (db_tables d)).1) as Hh.
  { intros Ha. destruct (HH Ha) as [He Hg]. destruct (stmt_healthy drv (fun _ => f) d He) as (n & w & E). rewrite Hg in E.
    destruct (g (db_tables d)). simpl. congruence. }
  apply stmt_cases in Hq as (now & _ & [(m & -> & Ht)|[(m & a & t & Ha & -> & Ht)|[(e & He & -> & Ht)|(a & t & Ha & -> & Ht)]]]);
    intros [= <- <-]; (split; [|intros HA; specialize (Hh HA); congruence]).
  1-3: left; eexists; split; [done|infra].
  right. by rewrite <- (Hf _ _ Ha).
Qed.

(** A transaction whose body always commits. *)
Lemma runs_inTx {A} b c (body : ST (DB W T) error (txres A)) (g : T -> A * T) : (forall m, infra (b m)) -> (forall m, infra (c m)) -> (H -> healthy drv) ->
  runs body (fun t => (TxCommit (g t).1, (g t).2)) ->
  forall d r d', inTx drv b c body d = (r, d') ->
  ((exists e, r = Err e /\ infra e /\ (db_tables d' = db_tables d \/ db_tables d' = (g (db_tables d)).2))
   \/ (r = Ok (g (db_tables d)).1 /\ db_tables d' = (g (db_tables d)).2)) /\
  (H -> r = Ok (g (db_tables d)).1).
Proof.
  intros Hb Hc HH Hbody d r d' E. split.
  - apply inTx_cases in E as [(m & -> & Ht)|(w & br & d1 & E & Htx)]; [left; eauto 6|].
    destruct (Hbody _ _ _ E) as [Hx _]. simpl in Hx.
    destruct Htx as [(e & -> & -> & Ht)|[(a & -> & _ & _)|[(a & m & -> & -> & Ht)|[(a & m & -> & -> & Ht)|(a & -> & -> & Ht)]]]].
    + destruct Hx as [(e' & [= ->] & ?)|[? _]]; [left; eauto 6|done].
    + destruct Hx as [(e' & ? & ?)|[? _]]; done.
    + left. eauto 6.
    + destruct Hx as [(e' & ? & ?)|[[= ->] Hd]]; [done|]. left. eexists. split_and!; [done|done|right; congruence].
    + destruct Hx as [(e' & ? & ?)|[[= ->] Hd]]; [done|]. right. split; [done|congruence].
  - intros HA. destruct (HH HA (db_world d)) as (B1 & _ & _). unfold inTx in E. destruct (drv_begin drv (db_world d)) as [o w]. simpl in B1. subst o.
    destruct (body (mkDB (db_tables d) w)) as [br d1] eqn:Eb. destruct (Hbody _ _ _ Eb) as [_ Hok]. rewrite (Hok HA) in E. simpl in E.
    destruct (HH HA (db_world d1)) as (_ & _ & C1). destruct (drv_commit drv (db_world d1)) as [o w2]. simpl in C1. subst o. by injection E as <- _.
Qed.
End runs.

(** ** [Execute] on one row

    [BeginTx]; [SELECT ... FOR UPDATE]; convert the row; validate; change; UPDATE;
    [Commit]. *)

Section execute_row.
Context {W T K R A : Type} (drv : Driver W) `{Countable K} (rows : T -> list R) (key : R -> K) (val : R -> A) (norm : A -> A).
Context (wf : T -> Prop) (conv : R -> res A) (k : K) (v : A -> res unit) (m : A -> A) (upd : A -> ST (DB W T) error unit).
Context (p1 p2 p3 : string).

Hypothesis wf_keyed : forall t, wf t -> keyed key (rows t).
Hypothesis wf_conv : forall t r, wf t -> r ∈ rows t -> conv r = Ok (val r).
Hypothesis upd_spec : forall row d r d', wf (db_tables d) -> row ∈ rows (db_tables d) -> key row = k -> upd (m (val row)) d = (r, d') ->
  (exists e, r = Err e /\ infra e)
  \/ (r = Ok tt /\ wf (db_tables d') /\ tmap key val (rows (db_tables d')) = <[k := norm (m (val row))]> (tmap key val (rows (db_tables d)))).

Definition execute_row : ST (DB W T) error A :=
  inTx drv (fun e => EWrap p1 (EOther e)) (fun e => EWrap p2 (EOther e))
    (row ← or_not_found (EVal ErrNotFound) p3 (query drv (fun t => one_row (select_where (fun r => bool_decide (key r = k)) (rows t))));
     a ← st_lift (conv row);
     _ ← st_lift (v a);
     upd (m a);; mret (TxCommit (m a))).

Definition execute_spec (t : gmap K A) : res A * gmap K A :=
  match t !! k with
  | None => (Err (EVal ErrNotFound), t)
  | Some a => match v a with Err e => (Err e, t) | Ok _ => (Ok (m a), <[k := norm (m a)]> t) end
  end.

Lemma execute_row_spec d r d' : wf (db_tables d) -> execute_row d = (r, d') ->
  wf (db_tables d') /\ agrees (fun t => tmap key val (rows t)) d r d' (execute_spec (tmap key val (rows (db_tables d)))).
Proof.
  intros Hwf [(e & -> & Ht)|(w & br & d2 & Hbody & Htx)]%inTx_cases.
  { rewrite Ht. split; [done|]. left. eexists. split_and!; [done|infra|done]. }
  pose proof (one_row_key key val (rows (db_tables d)) k (wf_keyed _ Hwf)) as Ho. unfold execute_spec.
  unfold mbind at 1, st_bind, or_not_found in Hbody. destruct (query _ _ _) as [q d3] eqn:Hq.
  apply query_cases in Hq as [Ht3 [(e & ->)| ->]]; simpl in Ht3.
  { injection Hbody as <- <-. destruct Htx as [(? & [= <-] & -> & Ht)|Htx]; [|naive_solver]. rewrite Ht.
    split; [done|]. left. eexists. split_and!; [done|infra|done]. }
  simpl in Hbody. destruct (one_row _) as [row|e] eqn:Hrow.
  2: { destruct Ho as (-> & Hn & _). injection Hbody as <- <-. destruct Htx as [(? & [= <-] & -> & Ht)|Htx]; [|naive_solver].
       rewrite Ht, Hn. split; [done|]. right. right. by rewrite Ht. }
  destruct Ho as (Hin & Hkey & Hl & _). rewrite Hl. unfold mbind at 1, st_bind, st_lift in Hbody.
  rewrite (wf_conv _ _ Hwf Hin) in Hbody. unfold mbind at 1, st_bind in Hbody. destruct (v (val row)) as [[]|e].
  2: { injection Hbody as <- <-. destruct Htx as [(? & [= <-] & -> & Ht)|Htx]; [|naive_solver].
       rewrite Ht. split; [done|]. right. right. by rewrite Ht. }
  unfold mbind at 1, st_bind in Hbody. destruct (upd (m (val row)) d3) as [u d4] eqn:Hu.
  assert (wf (db_tables d3)) as Hwf3 by (by rewrite Ht3). rewrite <- Ht3 in Hin.
  destruct (upd_spec row d3 u d4 Hwf3 Hin Hkey Hu) as [(e & -> & He)|(-> & Hw4 & Hput)]; injection Hbody as <- <-.
  { destruct Htx as [(? & [= <-] & -> & Ht)|Htx]; [|naive_solver]. rewrite Ht. split; [done|]. left. eauto. }
  rewrite Ht3 in Hput.
  destruct Htx as [?|[?|[(a & e & [= <-] & -> & Ht)|[(a & e & [= <-] & -> & Ht)|(a & [= <-] & -> & Ht)]]]]; [naive_solver|naive_solver| | |];
    rewrite Ht; (split; [done|]).
  - left. eexists. split_and!; [done|infra|done].
  - right. left. eexists. split_and!; [done|infra|done|]. by rewrite Ht.
  - right. right. by rewrite Ht.
Qed.
End execute_row.

(** ** Example: a server and a codec that satisfy the laws

    Microseconds, all texts accepted, and a code for lists of strings in which every
    character is preceded by an x and every string ends with a dot. *)
Module PgExample.

Fixpoint encode_string (s : string) : string :=
  match s with
  | EmptyString => "."
  | String c s' => String (Ascii.ascii_of_nat 120) (String c (encode_string s'))
  end.

Fixpoint encode_list (l : list string) : string :=
  match l with [] => "" | s :: l' => encode_string s +:+ encode_list l' end.

Fixpoint decode_list (s : string) : list string :=
  match s with
  | EmptyString => []
  | String a s1 =>
      if Ascii.eqb a (Ascii.ascii_of_nat 46) then "" :: decode_list s1
      else match s1 with
           | EmptyString => []
           | String c s2 => match decode_list s2 with h :: t => String c h :: t | [] => [] end
           end
  end.

Lemma decode_encode_string s rest : decode_list (encode_string s +:+ rest) = s :: decode_list rest.
Proof. induction s as [|c s IH]; simpl; [done|]. by rewrite IH. Qed.

Lemma decode_encode l : decode_list (encode_list l) = l.
Proof. induction l as [|s l IH]; simpl; [done|]. by rewrite decode_encode_string, IH. Qed.

#[global] Instance types : PgTypes := {|
  ts := fun t => t / 1000 * 1000;
  text_ok := fun _ => true;
  jsonb := Some;
  jsonb_array_length := fun c => Some (Z.of_nat (length (decode_list c)));
|}.

#[global] Instance json : StringsJson := {|
  strings_Marshal := fun l => Ok (encode_list l);
  strings_Unmarshal := fun c => Ok (decode_list c);
|}.

#[global] Instance laws : PgLaws.
Proof.
  split; simpl.
  - intros t. by rewrite Z.div_mul.
  - intros t u Htu. apply Z.mul_le_mono_nonneg_r; [lia|]. apply Z.div_le_mono; lia.
  - eauto.
  - intros l b c _ [= <-] [= <-]. rewrite decode_encode. split_and!; [done| |done].
    destruct l as [|s l]; [done|]. intros _. simpl. by destruct s.
Qed.

(** A server that never fails, whose clock stands still. *)
Definition driver (now : time) : Driver unit :=
  mkDriver (fun w => (None, w)) (fun w => (Done, w)) (fun w => (Done, w)) (fun _ => now).

(** A server whose statements, COMMITs and BEGINs follow a script; after its end
    everything works. *)
Definition scripted (now : time) : Driver (list outcome) :=
  let next := fun w => match w with [] => (Done, []) | o :: w' => (o, w') end in
  mkDriver (fun w => (None, w)) next next (fun _ => now).

End PgExample.
