(* ===== verification/Breaker.v ===== *)
(** * Circuit breakers: [pkg/platform/circuit/breaker.go] and
    [internal/ratelimit/middleware/circuitbreaker.go]

    Two implementations of the two-state breaker: the configurable [Breaker] of
    the platform package and the [CircuitBreaker] of the rate-limit middleware
    with fixed thresholds.  Each method is a function of the receiver returning
    its results and the new receiver (the mutex makes a call atomic).  The
    theorems characterise, over whole histories of recorded outcomes, when the
    circuit opens and when it closes, and show the two implementations equal. *)
From S2P Require Import Prelude.
Local Open Scope Z_scope.

(** ** [pkg/platform/circuit] *)

Inductive CState := StateClosed | StateOpen.

#[global] Instance CState_eq_dec : EqDecision CState.
Proof. solve_decision. Defined.

Record StateChange := mkChange { Opened : bool; Closed : bool }.

Definition no_change : StateChange := mkChange false false.

Record Breaker := mkBreaker {
  b_state : CState;
  b_name : string;
  b_failureCount : Z;
  b_successCount : Z;
  b_failureThreshold : Z;
  b_successThreshold : Z;
}.

Inductive BreakerOption :=
| WithFailureThreshold (n : Z)
| WithSuccessThreshold (n : Z).

Definition apply_breaker_option (b : Breaker) (o : BreakerOption) : Breaker :=
  match o with
  | WithFailureThreshold n =>
      if 0 <? n then
        mkBreaker (b_state b) (b_name b) (b_failureCount b) (b_successCount b)
          n (b_successThreshold b)
      else b
  | WithSuccessThreshold n =>
      if 0 <? n then
        mkBreaker (b_state b) (b_name b) (b_failureCount b) (b_successCount b)
          (b_failureThreshold b) n
      else b
  end.

(** [New(name, opts...)]; a nil option is skipped. *)
Definition Breaker_New (name : string) (opts : list (option BreakerOption)) : Breaker :=
  foldl (fun b o => match o with Some o => apply_breaker_option b o | None => b end)
    (mkBreaker StateClosed name 0 0 5 3) opts.

Definition Breaker_Name (b : Breaker) : string := b_name b.
Definition Breaker_IsOpen (b : Breaker) : bool := bool_decide (b_state b = StateOpen).
Definition Breaker_State (b : Breaker) : CState := b_state b.

Definition Breaker_RecordFailure (b : Breaker) : (bool * StateChange) * Breaker :=
  let b1 := mkBreaker (b_state b) (b_name b) (b_failureCount b + 1) 0
              (b_failureThreshold b) (b_successThreshold b) in
  match b_state b1 with
  | StateOpen => ((true, no_change), b1)
  | StateClosed =>
      if b_failureThreshold b1 <=? b_failureCount b1 then
        ((true, mkChange true false),
         mkBreaker StateOpen (b_name b1) (b_failureCount b1) (b_successCount b1)
           (b_failureThreshold b1) (b_successThreshold b1))
      else ((false, no_change), b1)
  end.

Definition Breaker_RecordSuccess (b : Breaker) : (bool * StateChange) * Breaker :=
  match b_state b with
  | StateOpen =>
      let b1 := mkBreaker (b_state b) (b_name b) (b_failureCount b) (b_successCount b + 1)
                  (b_failureThreshold b) (b_successThreshold b) in
      if b_successThreshold b1 <=? b_successCount b1 then
        ((true, mkChange false true),
         mkBreaker StateClosed (b_name b1) 0 0 (b_failureThreshold b1) (b_successThreshold b1))
      else ((false, no_change), b1)
  | StateClosed =>
      ((true, no_change),
       mkBreaker (b_state b) (b_name b) 0 (b_successCount b)
         (b_failureThreshold b) (b_successThreshold b))
  end.

Definition Breaker_Reset (b : Breaker) : Breaker :=
  mkBreaker StateClosed (b_name b) 0 0 (b_failureThreshold b) (b_successThreshold b).

(** ** [internal/ratelimit/middleware] *)

Record CircuitBreaker := mkCB {
  cb_name : string;
  cb_state : CState;
  cb_failureCount : Z;
  cb_successCount : Z;
  cb_failureThreshold : Z;
  cb_successThreshold : Z;
}.

Definition newCircuitBreaker (name : string) : CircuitBreaker :=
  mkCB name StateClosed 0 0 5 3.

Definition CB_IsOpen (c : CircuitBreaker) : bool := bool_decide (cb_state c = StateOpen).
Definition CB_ShouldUsePrimary (c : CircuitBreaker) : bool :=
  bool_decide (cb_state c = StateClosed).

Definition CB_RecordFailure (c : CircuitBreaker) : (bool * StateChange) * CircuitBreaker :=
  let c1 := mkCB (cb_name c) (cb_state c) (cb_failureCount c + 1) 0
              (cb_failureThreshold c) (cb_successThreshold c) in
  if bool_decide (cb_state c1 = StateOpen) then ((true, no_change), c1)
  else if cb_failureThreshold c1 <=? cb_failureCount c1 then
    ((true, mkChange true false),
     mkCB (cb_name c1) StateOpen (cb_failureCount c1) (cb_successCount c1)
       (cb_failureThreshold c1) (cb_successThreshold c1))
  else ((false, no_change), c1).

Definition CB_RecordSuccess (c : CircuitBreaker) : (bool * StateChange) * CircuitBreaker :=
  if bool_decide (cb_state c = StateOpen) then
    let c1 := mkCB (cb_name c) (cb_state c) (cb_failureCount c) (cb_successCount c + 1)
                (cb_failureThreshold c) (cb_successThreshold c) in
    if cb_successThreshold c1 <=? cb_successCount c1 then
      ((true, mkChange false true),
       mkCB (cb_name c1) StateClosed 0 0 (cb_failureThreshold c1) (cb_successThreshold c1))
    else ((false, no_change), c1)
  else
    ((true, no_change),
     mkCB (cb_name c) (cb_state c) 0 (cb_successCount c)
       (cb_failureThreshold c) (cb_successThreshold c)).

(** ** Histories *)

Inductive outcome := Failure | Success.

#[global] Instance outcome_eq_dec : EqDecision outcome.
Proof. solve_decision. Defined.

Definition Breaker_step (b : Breaker) (o : outcome) : (bool * StateChange) * Breaker :=
  match o with
  | Failure => Breaker_RecordFailure b
  | Success => Breaker_RecordSuccess b
  end.

Definition Breaker_run (b : Breaker) (h : list outcome) : Breaker :=
  foldl (fun b o => snd (Breaker_step b o)) b h.

Definition CB_step (c : CircuitBreaker) (o : outcome) : (bool * StateChange) * CircuitBreaker :=
  match o with
  | Failure => CB_RecordFailure c
  | Success => CB_RecordSuccess c
  end.

(** The answers a breaker gives along a history. *)
Fixpoint Breaker_trace (b : Breaker) (h : list outcome) : list (bool * StateChange) :=
  match h with
  | [] => []
  | o :: h' => let '(r, b') := Breaker_step b o in r :: Breaker_trace b' h'
  end.

Fixpoint CB_trace (c : CircuitBreaker) (h : list outcome) : list (bool * StateChange) :=
  match h with
  | [] => []
  | o :: h' => let '(r, c') := CB_step c o in r :: CB_trace c' h'
  end.

(** Length of the run of [o] at the end of a history. *)
Fixpoint lead_run (o : outcome) (h : list outcome) : Z :=
  match h with
  | [] => 0
  | x :: h' => if decide (x = o) then 1 + lead_run o h' else 0
  end.

Definition end_run (o : outcome) (h : list outcome) : Z := lead_run o (reverse h).

(** [n] consecutive occurrences of [o] somewhere in the history. *)
Definition has_run (o : outcome) (n : Z) (h : list outcome) : Prop :=
  exists pre, pre `prefix_of` h /\ n <= end_run o pre.

(** ** Invariant *)

Record breaker_wf (b : Breaker) : Prop := {
  wf_fthr : 0 < b_failureThreshold b;
  wf_sthr : 0 < b_successThreshold b;
  wf_fcount : 0 <= b_failureCount b;
  wf_scount : 0 <= b_successCount b;
  wf_closed : b_state b = StateClosed ->
    b_failureCount b < b_failureThreshold b /\ b_successCount b = 0;
  wf_open : b_state b = StateOpen -> b_successCount b < b_successThreshold b;
}.

Ltac breaker_cases b :=
  destruct b as [st nm fc sc ft st']; destruct st;
  unfold Breaker_step, Breaker_RecordFailure, Breaker_RecordSuccess in *; simpl in *.

Ltac breaker_wf_solve :=
  split; simpl in *; intros; simplify_eq; try split; try done; lia.

Lemma Breaker_New_wf name opts : breaker_wf (Breaker_New name opts).
Proof.
  unfold Breaker_New.
  assert (breaker_wf (mkBreaker StateClosed name 0 0 5 3)) as Hwf by breaker_wf_solve.
  assert (b_state (mkBreaker StateClosed name 0 0 5 3) = StateClosed /\
          b_failureCount (mkBreaker StateClosed name 0 0 5 3) = 0) as Hfresh by done.
  revert Hwf Hfresh. generalize (mkBreaker StateClosed name 0 0 5 3).
  induction opts as [|[o|] opts IH]; intros b Hwf [Hst Hfc]; simpl; [done| |by apply IH].
  destruct Hwf as [? ? ? ? Hc ?]. destruct (Hc Hst) as [? ?].
  destruct b as [st nm fc sc ft st'], o as [n|n]; simpl in *; subst;
    case_match; bools; (apply IH; [breaker_wf_solve|done]).
Qed.

Lemma Breaker_step_wf b o : breaker_wf b -> breaker_wf (Breaker_step b o).2.
Proof.
  intros [? ? ? ? Hc Ho].
  destruct o; breaker_cases b; try specialize (Hc eq_refl); try specialize (Ho eq_refl);
    try case_match; bools; breaker_wf_solve.
Qed.

Lemma Breaker_run_wf b h : breaker_wf b -> breaker_wf (Breaker_run b h).
Proof.
  revert b. induction h as [|o h IH]; intros b Hwf; simpl; [done|].
  by apply IH, Breaker_step_wf.
Qed.

Lemma Breaker_run_snoc b h o :
  Breaker_run b (h ++ [o]) = (Breaker_step (Breaker_run b h) o).2.
Proof. unfold Breaker_run. by rewrite foldl_app. Qed.

Lemma Breaker_step_thresholds b o :
  b_failureThreshold (Breaker_step b o).2 = b_failureThreshold b /\
  b_successThreshold (Breaker_step b o).2 = b_successThreshold b.
Proof. destruct o; breaker_cases b; by try case_match. Qed.

Lemma Breaker_run_thresholds b h :
  b_failureThreshold (Breaker_run b h) = b_failureThreshold b /\
  b_successThreshold (Breaker_run b h) = b_successThreshold b.
Proof.
  revert b. induction h as [|o h IH]; intros b; simpl; [done|].
  destruct (IH (Breaker_step b o).2) as [-> ->]. apply Breaker_step_thresholds.
Qed.

Lemma end_run_snoc o h x :
  end_run o (h ++ [x]) = if decide (x = o) then 1 + end_run o h else 0.
Proof. unfold end_run. by rewrite reverse_app. Qed.

Lemma end_run_nonneg o h : 0 <= end_run o h.
Proof.
  unfold end_run. induction (reverse h) as [|x l IH]; simpl; [lia|case_decide; lia].
Qed.

Lemma prefix_snoc_inv {A} (p h : list A) x :
  p `prefix_of` h ++ [x] -> p = h ++ [x] \/ p `prefix_of` h.
Proof.
  intros [k Hk]. destruct k as [|y k] using rev_ind.
  - left. by rewrite app_nil_r in Hk.
  - right. rewrite app_assoc in Hk. apply app_inj_tail in Hk as [-> _]. by exists k.
Qed.

Lemma has_run_snoc o n h x :
  has_run o n (h ++ [x]) <-> has_run o n h \/ n <= end_run o (h ++ [x]).
Proof.
  unfold has_run. split.
  - intros (pre & Hpre & Hn). apply prefix_snoc_inv in Hpre as [->|Hpre]; [by right|]. left. by exists pre.
  - intros [(pre & Hpre & Hn)|Hn].
    + exists pre. split; [|done]. by apply prefix_app_r.
    + by exists (h ++ [x]).
Qed.

Lemma has_run_em o n h : has_run o n h \/ ~ has_run o n h.
Proof.
  induction h as [|x h IH] using rev_ind.
  - destruct (decide (n <= end_run o [])) as [Hn|Hn].
    + left. by exists [].
    + right. intros (pre & Hpre & Hr). apply prefix_nil_inv in Hpre. by subst.
  - rewrite has_run_snoc. destruct (decide (n <= end_run o (h ++ [x]))); tauto.
Qed.

(** While no run of failures has reached the threshold, the breaker is closed
    and its counter is the current run of failures. *)
Lemma Breaker_no_run name opts h :
  let b := Breaker_New name opts in
  ~ has_run Failure (b_failureThreshold b) h ->
  b_state (Breaker_run b h) = StateClosed /\
  b_failureCount (Breaker_run b h) = end_run Failure h.
Proof.
  intros b Hno. induction h as [|x h IH] using rev_ind.
  - unfold b. clear. unfold Breaker_New, end_run. simpl.
    assert (∀ c, b_state c = StateClosed ∧ b_failureCount c = 0 ->
      b_state (foldl (fun b o => match o with Some o => apply_breaker_option b o | None => b end) c opts) = StateClosed ∧
      b_failureCount (foldl (fun b o => match o with Some o => apply_breaker_option b o | None => b end) c opts) = 0) as Hf.
    { induction opts as [|[[n|n]|] opts IH]; intros c Hc; simpl; [done|..]; apply IH; [| |done];
        simpl; by case_match. }
    by apply Hf.
  - rewrite Breaker_run_snoc. rewrite has_run_snoc in Hno.
    destruct IH as [Hst Hfc]; [tauto|].
    pose proof (Breaker_run_thresholds b h) as [Hft _].
    rewrite end_run_snoc in Hno |- *.
    destruct (Breaker_run b h) as [st nm fc sc ft st']; simpl in *; subst.
    destruct x; unfold Breaker_step, Breaker_RecordFailure, Breaker_RecordSuccess; simpl in *.
    + destruct (Z.leb_spec (b_failureThreshold b) (end_run Failure h + 1)); simpl; [lia|].
      split; [done|lia].
    + done.
Qed.

(** Counters dominate the current runs in every state. *)
Lemma Breaker_run_counts b h :
  breaker_wf b ->
  end_run Failure h <= b_failureCount (Breaker_run b h) /\
  (b_state (Breaker_run b h) = StateOpen ->
   end_run Success h <= b_successCount (Breaker_run b h)).
Proof.
  intros Hwf. induction h as [|x h IH] using rev_ind.
  - destruct Hwf. unfold end_run. simpl. split; [lia|intros; lia].
  - rewrite Breaker_run_snoc, !end_run_snoc. destruct IH as [IHf IHs].
    pose proof (end_run_nonneg Failure h). pose proof (end_run_nonneg Success h).
    destruct (Breaker_run_wf b h Hwf) as [? ? ? ? _ _].
    destruct x; breaker_cases (Breaker_run b h); try specialize (IHs eq_refl);
      try case_match; bools; simpl; (split; intros; simplify_eq; lia).
Qed.

(** A fresh breaker has been open at some point of a history of recorded
    outcomes exactly when that history holds [failureThreshold] consecutive
    failures: it never opens spuriously and never misses a run. *)
Theorem Breaker_opens_iff_run (name : string) (opts : list (option BreakerOption)) (h : list outcome) :
  let b := Breaker_New name opts in
  (exists pre, pre `prefix_of` h /\ Breaker_IsOpen (Breaker_run b pre) = true) <->
  has_run Failure (b_failureThreshold b) h.
Proof.
  intros b. unfold Breaker_IsOpen. split.
  - intros (pre & Hpre & Hopen). bools.
    destruct (decide (b_failureThreshold b <= end_run Failure pre)) as [Hn|Hn].
    { by exists pre. }
    assert (has_run Failure (b_failureThreshold b) pre) as (p & Hp & Hr).
    { destruct (has_run_em Failure (b_failureThreshold b) pre) as [|Hno]; [done|].
      destruct (Breaker_no_run name opts pre Hno) as [Hc _]. unfold b in *. congruence. }
    exists p. split; [|done]. by etrans.
  - intros (pre & Hpre & Hn). exists pre. split; [done|]. apply bool_decide_eq_true.
    pose proof (Breaker_New_wf name opts) as Hwf.
    destruct (Breaker_run_counts b pre Hwf) as [Hf _].
    pose proof (Breaker_run_thresholds b pre) as [Hft _].
    destruct (Breaker_run_wf b pre Hwf) as [_ _ _ _ Hc _].
    destruct (b_state (Breaker_run b pre)); [|done].
    destruct (Hc eq_refl). lia.
Qed.

(** From any reachable state, [failureThreshold] consecutive failures leave the
    breaker open and [successThreshold] consecutive successes leave it closed,
    whatever came before. *)
Theorem Breaker_trips_and_recovers (b : Breaker) (h : list outcome) :
  breaker_wf b ->
  (b_failureThreshold b <= end_run Failure h -> Breaker_State (Breaker_run b h) = StateOpen) /\
  (b_successThreshold b <= end_run Success h -> Breaker_State (Breaker_run b h) = StateClosed).
Proof.
  intros Hwf. unfold Breaker_State.
  destruct (Breaker_run_counts b h Hwf) as [Hf Hs].
  pose proof (Breaker_run_thresholds b h) as [Hft Hst].
  destruct (Breaker_run_wf b h Hwf) as [_ _ _ _ Hc Ho].
  destruct (b_state (Breaker_run b h)); split; intros; try done.
  - destruct (Hc eq_refl). lia.
  - specialize (Hs eq_refl). specialize (Ho eq_refl). lia.
Qed.

Lemma Breaker_trips_and_recovers_witness :
  Breaker_State (Breaker_run (Breaker_New "trl" [Some (WithSuccessThreshold 2)])
    [Failure; Failure; Success; Failure; Failure; Failure; Failure; Failure]) = StateOpen /\
  Breaker_State (Breaker_run (Breaker_New "trl" [Some (WithSuccessThreshold 2)])
    [Failure; Failure; Failure; Failure; Failure; Success; Failure; Success; Success]) = StateClosed.
Proof.
  split.
  - apply (proj1 (Breaker_trips_and_recovers _ _ (Breaker_New_wf _ _))). vm_compute. discriminate.
  - apply (proj2 (Breaker_trips_and_recovers _ _ (Breaker_New_wf _ _))). vm_compute. discriminate.
Defined.

Definition to_breaker (c : CircuitBreaker) : Breaker :=
  mkBreaker (cb_state c) (cb_name c) (cb_failureCount c) (cb_successCount c)
    (cb_failureThreshold c) (cb_successThreshold c).

Lemma CB_step_to_breaker c o :
  Breaker_step (to_breaker c) o = ((CB_step c o).1, to_breaker (CB_step c o).2).
Proof.
  destruct c as [nm st fc sc ft st']; destruct st, o; simpl;
    unfold Breaker_RecordFailure, Breaker_RecordSuccess, CB_RecordFailure, CB_RecordSuccess;
    simpl; try case_match; done.
Qed.

(** C39: The rate-limit middleware's breaker and the platform breaker with its
    default thresholds answer every history of outcomes identically, fallback
    decisions and state-change notifications included. *)
Theorem middleware_breaker_equiv (name : string) (h : list outcome) :
  CB_trace (newCircuitBreaker name) h = Breaker_trace (Breaker_New name []) h.
Proof.
  change (Breaker_New name []) with (to_breaker (newCircuitBreaker name)).
  generalize (newCircuitBreaker name). induction h as [|o h IH]; intros c; simpl; [done|].
  rewrite CB_step_to_breaker. destruct (CB_step c o) as [r c'] eqn:E. simpl. by rewrite IH.
Qed.
