(* ===== verification/Ring.v ===== *)
(** * Circular buffers, and the security audit buffer
    [pkg/platform/audit/publishers/security/buffer.go]

    [ring_end arr wp size] is the logical content of a circular buffer: the
    [size] elements written last, oldest first, where [wp] is the next write
    position.  Its lemmas are shared by the sliding-window rate limiter
    ([SlidingWindow]) and by [RingBuffer], the bounded buffer of security
    events.  The buffer is proved to implement a bounded queue that drops its
    oldest elements. *)
From S2P Require Import Prelude.

(** ** Theory of circular buffers *)

Definition ring_end {A} `{Inhabited A} (arr : list A) (wp size : nat) : list A :=
  (fun i => arr !!! ((wp + length arr - size + i) mod length arr)%nat) <$> seq 0 size.

Section ring.
Context {A : Type} `{Inhabited A}.
Implicit Types arr : list A.

Lemma length_ring_end arr wp size : length (ring_end arr wp size) = size.
Proof. unfold ring_end. by rewrite length_fmap, length_seq. Qed.

Lemma ring_end_lookup arr wp size i :
  (i < size)%nat ->
  ring_end arr wp size !! i = Some (arr !!! ((wp + length arr - size + i) mod length arr)%nat).
Proof. intros. unfold ring_end. rewrite list_lookup_fmap, lookup_seq_lt by lia. done. Qed.

Lemma ring_end_nil arr wp : ring_end arr wp 0 = [].
Proof. done. Qed.

(** Forgetting the oldest entries. *)
Lemma ring_end_shrink arr wp size size' :
  (size' <= size <= length arr)%nat ->
  ring_end arr wp size' = drop (size - size') (ring_end arr wp size).
Proof.
  intros Hs. apply list_eq. intros i. rewrite lookup_drop.
  destruct (decide (i < size')%nat).
  - rewrite !ring_end_lookup by lia. do 3 f_equal. lia.
  - rewrite !lookup_ge_None_2; [done|rewrite length_ring_end; lia..].
Qed.

Lemma mod_wrap_ne (len wp k : nat) :
  (wp < len)%nat -> (0 < k < len)%nat -> ((wp + len - k) mod len)%nat <> wp.
Proof.
  intros Hwp Hk Heq.
  destruct (decide (k <= wp)%nat).
  - replace (wp + len - k)%nat with (wp - k + 1 * len)%nat in Heq by lia.
    rewrite Nat.Div0.mod_add, Nat.mod_small in Heq by lia. lia.
  - rewrite Nat.mod_small in Heq by lia. lia.
Qed.

(** Writing one element into a buffer that is not full appends it; into a full
    buffer it also drops the oldest. *)
Lemma ring_end_write arr wp size x :
  (wp < length arr)%nat -> (size <= length arr)%nat ->
  let size' := if decide (size < length arr)%nat then S size else size in
  ring_end (<[wp:=x]> arr) (S wp mod length arr) size' =
  drop (S size - size') (ring_end arr wp size) ++ [x].
Proof.
  intros Hwp Hsize size'.
  assert (size' <= length arr /\ 0 < size' /\ size' <= S size)%nat as (Hle & Hpos & HS)
    by (subst size'; case_decide; lia).
  apply list_eq. intros i.
  destruct (decide (i < size')%nat) as [Hi|Hi].
  2:{ rewrite !lookup_ge_None_2; [done| |].
      - rewrite length_app, length_drop, length_ring_end. simpl. lia.
      - rewrite length_ring_end. lia. }
  rewrite ring_end_lookup by done. rewrite length_insert.
  set (len := length arr) in *.
  assert (((S wp mod len + len - size' + i) mod len)%nat =
          ((wp + len - (size' - 1 - i)) mod len)%nat) as ->.
  { destruct (decide (S wp = len)) as [E|E].
    - rewrite E, Nat.Div0.mod_same.
      replace (wp + len - (size' - 1 - i))%nat with (0 + len - size' + i + 1 * len)%nat by lia.
      by rewrite Nat.Div0.mod_add.
    - rewrite (Nat.mod_small (S wp)) by lia. f_equal. lia. }
  destruct (decide (i = size' - 1)%nat) as [->|Hlast].
  - replace (wp + len - (size' - 1 - (size' - 1)))%nat with (wp + 1 * len)%nat by lia.
    rewrite Nat.Div0.mod_add, Nat.mod_small by lia.
    rewrite lookup_app_r by (rewrite length_drop, length_ring_end; lia).
    rewrite length_drop, length_ring_end.
    replace (size' - 1 - (size - (S size - size')))%nat with 0%nat by lia. simpl.
    by rewrite list_lookup_total_insert_eq by lia.
  - rewrite lookup_app_l by (rewrite length_drop, length_ring_end; lia).
    rewrite lookup_drop, ring_end_lookup by lia. fold len.
    rewrite list_lookup_total_insert_ne.
    2:{ apply not_eq_sym, mod_wrap_ne; lia. }
    do 3 f_equal. lia.
Qed.

End ring.

(** ** [RingBuffer] *)

Section ringbuffer.
Context {Ev : Type} `{Inhabited Ev}.

(** [head] is the next write position and [tail] the next read position; they
    are never negative, so they are naturals. *)
Record RingBuffer := mkRB {
  rb_events : list Ev;
  rb_head : nat;
  rb_tail : nat;
  rb_count : nat;
  rb_capacity : nat;
  rb_dropped : Z;
}.

Definition NewRingBuffer (capacity : Z) : RingBuffer :=
  let capacity := if (capacity <=? 0)%Z then 10000%Z else capacity in
  mkRB (replicate (Z.to_nat capacity) inhabitant) 0 0 0 (Z.to_nat capacity) 0.

Definition rb_write (b : RingBuffer) (e : Ev) : RingBuffer :=
  mkRB (<[rb_head b := e]> (rb_events b)) ((rb_head b + 1) mod rb_capacity b)
    (rb_tail b) (rb_count b + 1) (rb_capacity b) (rb_dropped b).

Definition rb_drop (b : RingBuffer) : RingBuffer :=
  mkRB (rb_events b) (rb_head b) ((rb_tail b + 1) mod rb_capacity b)
    (rb_count b - 1) (rb_capacity b) (rb_dropped b + 1).

Definition RB_TryEnqueue (b : RingBuffer) (e : Ev) : bool * RingBuffer :=
  if (rb_capacity b <=? rb_count b)%nat then (false, b) else (true, rb_write b e).

Definition RB_Enqueue (b : RingBuffer) (e : Ev) : RingBuffer :=
  let b := if (rb_capacity b <=? rb_count b)%nat then rb_drop b else b in
  rb_write b e.

Definition RB_DropOldest (b : RingBuffer) : bool * RingBuffer :=
  if (rb_count b =? 0)%nat then (false, b) else (true, rb_drop b).

(** The read loop: [n] events from [tail] on. *)
Fixpoint rb_read (b : RingBuffer) (tail n : nat) : list Ev * nat :=
  match n with
  | 0%nat => ([], tail)
  | S n' =>
      let '(l, t) := rb_read b ((tail + 1) mod rb_capacity b) n' in
      (rb_events b !!! tail :: l, t)
  end.

(** [None] is the panic of [make] on a negative length. *)
Definition RB_DequeueBatch (b : RingBuffer) (n : Z) : option (list Ev * RingBuffer) :=
  if (rb_count b =? 0)%nat then Some ([], b)
  else
    let n := if (Z.of_nat (rb_count b) <? n)%Z then Z.of_nat (rb_count b) else n in
    if (n <? 0)%Z then None
    else
      let '(l, t) := rb_read b (rb_tail b) (Z.to_nat n) in
      Some (l, mkRB (rb_events b) (rb_head b) t (rb_count b - Z.to_nat n)
                 (rb_capacity b) (rb_dropped b)).

Definition RB_Len (b : RingBuffer) : Z := Z.of_nat (rb_count b).
Definition RB_Dropped (b : RingBuffer) : Z := rb_dropped b.

(** *** Specification: a bounded queue, oldest first, and a count of drops *)

Record queue_spec := mkQ { q_items : list Ev; q_cap : nat; q_dropped : Z }.

Inductive rb_op := OpTryEnqueue (e : Ev) | OpEnqueue (e : Ev) | OpDropOldest | OpDequeue (n : nat).

(** Result of an operation: the boolean answer and the events handed out. *)
Definition q_step (q : queue_spec) (op : rb_op) : (bool * list Ev) * queue_spec :=
  match op with
  | OpTryEnqueue e =>
      if (q_cap q <=? length (q_items q))%nat then ((false, []), q)
      else ((true, []), mkQ (q_items q ++ [e]) (q_cap q) (q_dropped q))
  | OpEnqueue e =>
      if (q_cap q <=? length (q_items q))%nat
      then ((true, []), mkQ (drop 1 (q_items q) ++ [e]) (q_cap q) (q_dropped q + 1))
      else ((true, []), mkQ (q_items q ++ [e]) (q_cap q) (q_dropped q))
  | OpDropOldest =>
      match q_items q with
      | [] => ((false, []), q)
      | _ :: l => ((true, []), mkQ l (q_cap q) (q_dropped q + 1))
      end
  | OpDequeue n => ((true, take n (q_items q)), mkQ (drop n (q_items q)) (q_cap q) (q_dropped q))
  end.

Definition rb_step (b : RingBuffer) (op : rb_op) : option ((bool * list Ev) * RingBuffer) :=
  match op with
  | OpTryEnqueue e => let '(r, b') := RB_TryEnqueue b e in Some ((r, []), b')
  | OpEnqueue e => Some ((true, []), RB_Enqueue b e)
  | OpDropOldest => let '(r, b') := RB_DropOldest b in Some ((r, []), b')
  | OpDequeue n =>
      match RB_DequeueBatch b (Z.of_nat n) with
      | Some (l, b') => Some ((true, l), b')
      | None => None
      end
  end.

Record rb_wf (b : RingBuffer) : Prop := {
  rbwf_cap : (0 < rb_capacity b)%nat;
  rbwf_len : length (rb_events b) = rb_capacity b;
  rbwf_head : (rb_head b < rb_capacity b)%nat;
  rbwf_count : (rb_count b <= rb_capacity b)%nat;
  rbwf_tail : rb_tail b = ((rb_head b + rb_capacity b - rb_count b) mod rb_capacity b)%nat;
}.

Definition rb_abs (b : RingBuffer) : queue_spec :=
  mkQ (ring_end (rb_events b) (rb_head b) (rb_count b)) (rb_capacity b) (rb_dropped b).

Lemma NewRingBuffer_wf c : rb_wf (NewRingBuffer c).
Proof.
  unfold NewRingBuffer. case_match; bools; split; simpl; rewrite ?length_replicate; try lia;
    rewrite Nat.sub_0_r; by rewrite Nat.Div0.mod_same.
Qed.

(** Moving the read position past [k] entries. *)
Lemma tail_advance (cap head count k : nat) :
  (0 < cap)%nat -> (k <= count <= cap)%nat ->
  (((head + cap - count) mod cap + k) mod cap)%nat = ((head + cap - (count - k)) mod cap)%nat.
Proof.
  intros. rewrite Nat.Div0.add_mod_idemp_l. f_equal. lia.
Qed.

Lemma tail_write (cap head count : nat) :
  (head < cap)%nat -> (count < cap)%nat ->
  ((head + cap - count) mod cap)%nat = (((head + 1) mod cap + cap - (count + 1)) mod cap)%nat.
Proof.
  intros Hh Hc. destruct (decide (head + 1 = cap)%nat) as [E|E].
  - rewrite E, Nat.Div0.mod_same. replace (head + cap - count)%nat with (0 + cap - (count + 1) + 1 * cap)%nat by lia.
    by rewrite Nat.Div0.mod_add.
  - rewrite (Nat.mod_small (head + 1)) by lia. f_equal. lia.
Qed.

Lemma rb_write_refines b e :
  rb_wf b -> (rb_count b < rb_capacity b)%nat ->
  rb_wf (rb_write b e) /\
  q_items (rb_abs (rb_write b e)) = q_items (rb_abs b) ++ [e].
Proof.
  intros [Hcap Hlen Hhead Hcount Htail] Hlt. split.
  - split; simpl; rewrite ?length_insert; try done; try lia.
    + apply Nat.mod_upper_bound. lia.
    + rewrite Htail. by apply tail_write.
  - simpl. pose proof (ring_end_write (rb_events b) (rb_head b) (rb_count b) e) as Hw.
    rewrite Hlen in Hw. specialize (Hw Hhead Hcount). simpl in Hw.
    rewrite decide_True in Hw by done. rewrite Nat.add_1_r.
    replace (rb_count b + 1)%nat with (S (rb_count b)) by lia.
    rewrite Hw. by rewrite Nat.sub_diag.
Qed.

Lemma rb_drop_refines b :
  rb_wf b -> (0 < rb_count b)%nat ->
  rb_wf (rb_drop b) /\ q_items (rb_abs (rb_drop b)) = drop 1 (q_items (rb_abs b)).
Proof.
  intros [Hcap Hlen Hhead Hcount Htail] Hpos. split.
  - split; simpl; try done; try lia. rewrite Htail. apply tail_advance; lia.
  - simpl. rewrite (ring_end_shrink _ _ (rb_count b) (rb_count b - 1)) by lia.
    f_equal. lia.
Qed.

Lemma rb_read_spec b n k :
  rb_wf b -> (n + k <= rb_count b)%nat ->
  rb_read b ((rb_head b + rb_capacity b - rb_count b + k) mod rb_capacity b) n =
  (take n (drop k (q_items (rb_abs b))),
   ((rb_head b + rb_capacity b - rb_count b + k + n) mod rb_capacity b)%nat).
Proof.
  intros Hwf. revert k. induction n as [|n IH]; intros k Hk; simpl.
  - by rewrite take_0, Nat.add_0_r.
  - rewrite Nat.Div0.add_mod_idemp_l.
    replace (rb_head b + rb_capacity b - rb_count b + k + 1)%nat
      with (rb_head b + rb_capacity b - rb_count b + S k)%nat by lia.
    rewrite IH by lia. destruct Hwf as [Hcap Hlen Hhead Hcount Htail].
    assert (q_items (rb_abs b) !! k = Some
      (rb_events b !!! ((rb_head b + rb_capacity b - rb_count b + k) mod rb_capacity b)%nat)) as Hk'.
    { simpl. rewrite ring_end_lookup by lia. by rewrite Hlen. }
    simpl in *. rewrite (drop_S _ _ _ Hk'). simpl. do 2 f_equal. lia.
Qed.

(** Dequeuing up to [n] events takes them from the front of the queue. *)
Lemma rb_dequeue_refines b n :
  rb_wf b ->
  exists b', rb_step b (OpDequeue n) = Some ((q_step (rb_abs b) (OpDequeue n)).1, b') /\
    rb_wf b' /\ rb_abs b' = (q_step (rb_abs b) (OpDequeue n)).2.
Proof.
  intros Hwf. pose proof Hwf as [Hcap Hlen Hhead Hcount Htail].
  assert (length (q_items (rb_abs b)) = rb_count b) as Hitems by apply length_ring_end.
  unfold rb_step, q_step.
  unfold RB_DequeueBatch. destruct (Nat.eqb_spec (rb_count b) 0) as [Hz|Hz].
  - destruct (q_items (rb_abs b)) eqn:E; simpl in *; [|lia].
    exists b. rewrite take_nil, drop_nil. unfold rb_abs. by rewrite E.
  - set (m := if (Z.of_nat (rb_count b) <? Z.of_nat n)%Z then Z.of_nat (rb_count b) else Z.of_nat n).
    assert (m = Z.of_nat (n `min` rb_count b)) as -> by (subst m; case_match; bools; lia).
    destruct (Z.ltb_spec (Z.of_nat (n `min` rb_count b)) 0); [lia|]. rewrite Nat2Z.id.
    assert (rb_tail b = (rb_head b + rb_capacity b - rb_count b + 0) mod rb_capacity b)%nat as ->
      by (rewrite Htail; f_equal; lia).
    rewrite rb_read_spec by (done || lia). rewrite drop_0.
    eexists. split; [|split].
    + do 3 f_equal. simpl.
      destruct (decide (n <= rb_count b)%nat); [by rewrite Nat.min_l by lia|].
      rewrite Nat.min_r by lia. rewrite !take_ge; [done|rewrite length_ring_end; lia..].
    + split; simpl; try done; try lia.
      rewrite Nat.add_0_r. f_equal. lia.
    + unfold rb_abs. simpl. f_equal.
      rewrite (ring_end_shrink _ _ (rb_count b)) by lia.
      replace (rb_count b - (rb_count b - n `min` rb_count b))%nat with (n `min` rb_count b)%nat by lia.
      destruct (decide (n <= rb_count b)%nat); [by rewrite Nat.min_l by lia|].
      rewrite Nat.min_r by lia. rewrite !drop_ge; [done|rewrite length_ring_end; lia..].
Qed.

Lemma rb_step_refines b op :
  rb_wf b ->
  exists b', rb_step b op = Some ((q_step (rb_abs b) op).1, b') /\
    rb_wf b' /\ rb_abs b' = (q_step (rb_abs b) op).2.
Proof.
  intros Hwf. pose proof Hwf as [Hcap Hlen Hhead Hcount Htail].
  assert (length (q_items (rb_abs b)) = rb_count b) as Hitems by apply length_ring_end.
  destruct op as [e|e| |n].
  - unfold rb_step, q_step, RB_TryEnqueue. rewrite Hitems. simpl (q_cap _).
    destruct (Nat.leb_spec (rb_capacity b) (rb_count b)) as [Hf|Hf]; [by exists b|].
    destruct (rb_write_refines b e Hwf Hf) as [Hw Ha].
    exists (rb_write b e). split; [done|]. split; [done|].
    unfold rb_abs in *. simpl in *. by rewrite Ha.
  - unfold rb_step, q_step, RB_Enqueue. rewrite Hitems. simpl (q_cap _).
    destruct (Nat.leb_spec (rb_capacity b) (rb_count b)) as [Hf|Hf].
    + destruct (rb_drop_refines b Hwf) as [Hwd Had]; [lia|].
      destruct (rb_write_refines (rb_drop b) e Hwd) as [Hw Ha]; [simpl; lia|].
      eexists. split; [done|]. split; [done|].
      rewrite Had in Ha. unfold rb_abs in *. simpl in *. by rewrite Ha.
    + destruct (rb_write_refines b e Hwf Hf) as [Hw Ha].
      eexists. split; [done|]. split; [done|]. unfold rb_abs in *. simpl in *. by rewrite Ha.
  - unfold rb_step, q_step, RB_DropOldest. destruct (Nat.eqb_spec (rb_count b) 0) as [Hz|Hz].
    + destruct (q_items (rb_abs b)) eqn:E; simpl in *; [|lia]. by exists b.
    + destruct (rb_drop_refines b Hwf) as [Hwd Had]; [lia|].
      destruct (q_items (rb_abs b)) eqn:E; simpl in *; [lia|].
      eexists. split; [done|]. split; [done|]. unfold rb_abs. simpl in *. by rewrite Had, drop_0.
  - by apply rb_dequeue_refines.
Qed.

Fixpoint rb_run (b : RingBuffer) (ops : list rb_op) : option (list (bool * list Ev) * RingBuffer) :=
  match ops with
  | [] => Some ([], b)
  | op :: ops' =>
      match rb_step b op with
      | None => None
      | Some (r, b') =>
          match rb_run b' ops' with
          | None => None
          | Some (rs, b'') => Some (r :: rs, b'')
          end
      end
  end.

Fixpoint q_run (q : queue_spec) (ops : list rb_op) : list (bool * list Ev) * queue_spec :=
  match ops with
  | [] => ([], q)
  | op :: ops' =>
      let '(r, q') := q_step q op in
      let '(rs, q'') := q_run q' ops' in
      (r :: rs, q'')
  end.

(** The circular buffer of security events implements a bounded queue: on every
    sequence of operations from a new buffer it gives the queue's answers and
    hands out the queue's events in order, it holds the queue's items, and its
    drop counter is the number of items the queue discarded.  No index leaves
    the array. *)
Theorem RingBuffer_refines_queue (capacity : Z) (ops : list rb_op) :
  let cap := rb_capacity (NewRingBuffer capacity) in
  exists b, rb_run (NewRingBuffer capacity) ops = Some ((q_run (mkQ [] cap 0) ops).1, b) /\
    rb_abs b = (q_run (mkQ [] cap 0) ops).2 /\ rb_wf b.
Proof.
  intros cap.
  change (mkQ [] cap 0) with (rb_abs (NewRingBuffer capacity)).
  generalize (NewRingBuffer_wf capacity). generalize (NewRingBuffer capacity). clear cap.
  induction ops as [|op ops IH]; intros b Hwf; simpl.
  - by exists b.
  - destruct (rb_step_refines b op Hwf) as (b' & -> & Hwf' & Ha).
    destruct (IH b' Hwf') as (b'' & -> & Hb'' & ?).
    destruct (q_step (rb_abs b) op) as [r q'] eqn:E. simpl in *. subst.
    destruct (q_run (rb_abs b') ops) eqn:E'. simpl in *. by exists b''.
Qed.

End ringbuffer.
