(* ===== verification/Keys.v ===== *)
(** * Rate-limit keys: [internal/ratelimit/models/keys.go]

    Bucket and lockout keys are colon-separated strings built from
    user-controlled segments.  [sanitizeKeySegment] escapes the delimiter; the
    file proves the escaping reversible and the keys collision-free. *)
From S2P Require Import Prelude.
From Stdlib Require Import Ascii.

Inductive KeyPrefix := KeyPrefixIP | KeyPrefixUser | KeyPrefixAuth | KeyPrefixClient.

#[global] Instance KeyPrefix_eq_dec : EqDecision KeyPrefix.
Proof. solve_decision. Defined.

Definition KeyPrefix_text (p : KeyPrefix) : string :=
  match p with
  | KeyPrefixIP => "ip" | KeyPrefixUser => "user"
  | KeyPrefixAuth => "auth" | KeyPrefixClient => "client"
  end.

(** [EndpointClass] is a string type with five recognised values. *)
Abbreviation EndpointClass := string (only parsing).
Definition ClassAuth : EndpointClass := "auth".
Definition ClassSensitive : EndpointClass := "sensitive".
Definition ClassRead : EndpointClass := "read".
Definition ClassWrite : EndpointClass := "write".
Definition ClassAdmin : EndpointClass := "admin".

Definition EndpointClass_IsValid (c : EndpointClass) : bool :=
  slices_Contains [ClassAuth; ClassSensitive; ClassRead; ClassWrite; ClassAdmin] c.

(** [strings.ReplaceAll] with a one-byte pattern. *)
Fixpoint ReplaceAll (c : ascii) (by_ : string) (s : string) : string :=
  match s with
  | EmptyString => EmptyString
  | String a s' =>
      if bool_decide (a = c) then by_ +:+ ReplaceAll c by_ s' else String a (ReplaceAll c by_ s')
  end.

Definition underscore : ascii := "_"%char.
Definition colon : ascii := ":"%char.

Definition sanitizeKeySegment (s : string) : string :=
  let s := ReplaceAll underscore "__" s in
  ReplaceAll colon "_c" s.

Record RateLimitKey := mkKey {
  key_prefix : KeyPrefix;
  key_identifier : string;
  key_class : EndpointClass;
}.

Definition NewRateLimitKey (prefix : KeyPrefix) (identifier : string) (class : EndpointClass) : RateLimitKey :=
  mkKey prefix (sanitizeKeySegment identifier) class.

Definition NewAuthLockoutKey (identifier ip : string) : RateLimitKey :=
  mkKey KeyPrefixAuth (sanitizeKeySegment identifier +:+ ":" +:+ sanitizeKeySegment ip) "".

Definition RateLimitKey_String (k : RateLimitKey) : string :=
  if str_empty (key_class k)
  then KeyPrefix_text (key_prefix k) +:+ ":" +:+ key_identifier k
  else KeyPrefix_text (key_prefix k) +:+ ":" +:+ key_identifier k +:+ ":" +:+ key_class k.

Definition NewClientRateLimitKey (clientID endpoint : string) : string :=
  KeyPrefix_text KeyPrefixClient +:+ ":" +:+ sanitizeKeySegment clientID +:+ ":" +:+
  sanitizeKeySegment endpoint.

(** ** The decoder *)

Fixpoint unsanitize (s : string) : option string :=
  match s with
  | EmptyString => Some EmptyString
  | String a s' =>
      if bool_decide (a = underscore) then
        match s' with
        | EmptyString => None
        | String b s'' =>
            if bool_decide (b = underscore) then String underscore <$> unsanitize s''
            else if bool_decide (b = "c"%char) then String colon <$> unsanitize s''
            else None
        end
      else String a <$> unsanitize s'
  end.

(** The encoding of one byte. *)
Definition escape (a : ascii) : string :=
  if bool_decide (a = underscore) then "__"
  else if bool_decide (a = colon) then "_c" else String a "".

Lemma sanitize_cons a s : sanitizeKeySegment (String a s) = escape a +:+ sanitizeKeySegment s.
Proof.
  unfold sanitizeKeySegment, escape. simpl.
  case_bool_decide as H1; [by subst|]. simpl. by case_bool_decide.
Qed.

Lemma unsanitize_sanitize s : unsanitize (sanitizeKeySegment s) = Some s.
Proof.
  induction s as [|a s IH]; [done|]. rewrite sanitize_cons. unfold escape.
  case_bool_decide as H1; [|case_bool_decide as H2].
  - change (String underscore <$> unsanitize (sanitizeKeySegment s) = Some (String a s)).
    by rewrite IH, H1.
  - change (String colon <$> unsanitize (sanitizeKeySegment s) = Some (String a s)).
    by rewrite IH, H2.
  - change (unsanitize (String a (sanitizeKeySegment s)) = Some (String a s)).
    cbn [unsanitize]. rewrite bool_decide_eq_false_2 by done. by rewrite IH.
Qed.

Lemma sanitize_inj s t : sanitizeKeySegment s = sanitizeKeySegment t -> s = t.
Proof.
  intros H. apply (f_equal unsanitize) in H. rewrite !unsanitize_sanitize in H. congruence.
Qed.

(** ** Splitting a key at its first delimiter *)

Fixpoint no_colon (s : string) : bool :=
  match s with
  | EmptyString => true
  | String a s' => negb (bool_decide (a = colon)) && no_colon s'
  end.

Lemma no_colon_app s t : no_colon (s +:+ t) = no_colon s && no_colon t.
Proof. induction s as [|a s IH]; simpl; [done|]. by rewrite IH, andb_assoc. Qed.

Lemma sanitize_no_colon s : no_colon (sanitizeKeySegment s) = true.
Proof.
  induction s as [|a s IH]; [done|]. rewrite sanitize_cons, no_colon_app, IH, andb_true_r.
  unfold escape. repeat (case_bool_decide; try done). simpl. by rewrite bool_decide_eq_false_2.
Qed.

Lemma KeyPrefix_no_colon p : no_colon (KeyPrefix_text p) = true.
Proof. by destruct p. Qed.

Lemma EndpointClass_no_colon c : EndpointClass_IsValid c = true -> no_colon c = true.
Proof.
  unfold EndpointClass_IsValid, slices_Contains. rewrite bool_decide_eq_true.
  rewrite !elem_of_cons. intros H. repeat destruct H as [->|H]; try done. by apply elem_of_nil in H.
Qed.

Lemma split_colon s s' t t' :
  no_colon s = true -> no_colon s' = true ->
  s +:+ ":" +:+ t = s' +:+ ":" +:+ t' -> s = s' /\ t = t'.
Proof.
  revert s'. induction s as [|a s IH]; intros [|a' s'] Hs Hs' Heq; simpl in *;
    injection Heq as; subst; bools; try done.
  destruct (IH s') as [-> ->]; done.
Qed.

Lemma no_colon_split s s' t' : no_colon s = true -> s = s' +:+ ":" +:+ t' -> False.
Proof. intros Hs ->. rewrite no_colon_app in Hs. bools. done. Qed.

Lemma KeyPrefix_text_inj p q : KeyPrefix_text p = KeyPrefix_text q -> p = q.
Proof. by destruct p, q. Qed.

(** ** The keys the services build *)

Inductive key_request :=
| KeyWindow (p : KeyPrefix) (identifier : string) (class : EndpointClass)
| KeyLockout (identifier ip : string)
| KeyClient (clientID endpoint : string).

Definition key_of (r : key_request) : string :=
  match r with
  | KeyWindow p i c => RateLimitKey_String (NewRateLimitKey p i c)
  | KeyLockout i ip => RateLimitKey_String (NewAuthLockoutKey i ip)
  | KeyClient c e => NewClientRateLimitKey c e
  end.

(** Window keys are built with the prefixes [ip] and [user] and a recognised class. *)
Definition key_request_ok (r : key_request) : bool :=
  match r with
  | KeyWindow p _ c =>
      (bool_decide (p = KeyPrefixIP) || bool_decide (p = KeyPrefixUser)) && EndpointClass_IsValid c
  | _ => true
  end.

(** Every key is three colon-free segments. *)
Definition key_segments (r : key_request) : KeyPrefix * string * string :=
  match r with
  | KeyWindow p i c => (p, sanitizeKeySegment i, c)
  | KeyLockout i ip => (KeyPrefixAuth, sanitizeKeySegment i, sanitizeKeySegment ip)
  | KeyClient c e => (KeyPrefixClient, sanitizeKeySegment c, sanitizeKeySegment e)
  end.

Lemma key_of_segments r :
  key_request_ok r = true ->
  key_of r = KeyPrefix_text (key_segments r).1.1 +:+ ":" +:+ (key_segments r).1.2 +:+ ":" +:+
    (key_segments r).2.
Proof.
  destruct r as [p i c| |]; simpl; [|done..]. intros H. bools.
  unfold RateLimitKey_String, str_empty. simpl.
  rewrite bool_decide_eq_false_2; [done|]. by intros ->.
Qed.

Lemma key_segments_inj r1 r2 :
  key_request_ok r1 = true -> key_request_ok r2 = true ->
  key_segments r1 = key_segments r2 -> r1 = r2.
Proof.
  destruct r1 as [[]| |], r2 as [[]| |]; simpl; intros ?? [=]; try discriminate;
    repeat match goal with H : sanitizeKeySegment _ = _ |- _ => apply sanitize_inj in H end;
    by subst.
Qed.

Lemma key_of_inj r1 r2 :
  key_request_ok r1 = true -> key_request_ok r2 = true -> key_of r1 = key_of r2 -> r1 = r2.
Proof.
  intros H1 H2. rewrite !key_of_segments by done. intros Heq.
  apply key_segments_inj; [done..|].
  apply split_colon in Heq as [Hp Heq]; [|apply KeyPrefix_no_colon..].
  apply split_colon in Heq as [Hi Hc].
  2,3: destruct r1, r2; simpl; apply sanitize_no_colon.
  apply KeyPrefix_text_inj in Hp.
  destruct (key_segments r1) as [[]], (key_segments r2) as [[]]; simpl in *. by subst.
Qed.

(** Sanitising is reversible, so distinct identifiers get distinct segments,
    and a sanitised segment contains no delimiter. *)
Theorem sanitizeKeySegment_roundtrip (s : string) :
  unsanitize (sanitizeKeySegment s) = Some s /\ no_colon (sanitizeKeySegment s) = true.
Proof. split; [apply unsanitize_sanitize|apply sanitize_no_colon]. Qed.

(** No two different rate-limit requests share a key: whatever the
    identifiers, addresses, client ids and endpoints contain, window keys,
    lockout keys and client keys never collide. *)
Theorem keys_collision_free (r1 r2 : key_request) :
  key_request_ok r1 = true -> key_request_ok r2 = true ->
  key_of r1 = key_of r2 <-> r1 = r2.
Proof. intros H1 H2. split; [by apply key_of_inj | by intros ->]. Qed.

Lemma keys_collision_free_witness :
  key_of (KeyLockout "a:b" "c") = key_of (KeyLockout "a" "b:c") <->
  KeyLockout "a:b" "c" = KeyLockout "a" "b:c".
Proof. apply keys_collision_free; vm_compute; reflexivity. Defined.
