(* ===== verification/SlidingWindow.v ===== *)
(** * Sliding window rate limiter
    [internal/ratelimit/store/bucket/store_memory.go], type [slidingWindow]

    A window keeps request timestamps in a circular buffer of 256 slots.  The
    specification is a log of every accepted request; the buffer is proved to
    give the log's answers for limits up to the buffer size, whatever the
    sequence of requests, when time does not run backwards. *)
From S2P Require Import Prelude Ring.

Definition circularBufferSize : nat := 256.
#[global] Arguments circularBufferSize : simpl never.
Definition maxClockSkewTolerance : duration := 5 * Second.

(** [writePos] and [size] never become negative and are naturals. *)
Record slidingWindow := mkSW {
  sw_timestamps : list Z;
  sw_writePos : nat;
  sw_size : nat;
  sw_windowSize : duration;
}.

(** The zero value of the struct with its window set, as [AllowN] builds it. *)
Definition new_slidingWindow (windowDuration : duration) : slidingWindow :=
  mkSW (replicate circularBufferSize 0%Z) 0 0 windowDuration.

(** [t.UnixNano()] is an [int64]. *)
Definition UnixNano (t : time) : Z := wrap64 t.

Definition bufferIndex (sw : slidingWindow) (position : nat) : nat :=
  ((sw_writePos sw + circularBufferSize - sw_size sw + position) mod circularBufferSize)%nat.

(** One round of the counting loop. *)
Definition count_step (windowStart maxValid : Z) (acc : Z * Z) (ts : Z) : Z * Z :=
  let '(count, oldest) := acc in
  if ((windowStart <? ts) && (ts <=? maxValid))%Z
  then (count + 1, if ts <? oldest then ts else oldest)%Z
  else acc.

Definition countRequestsInWindow (sw : slidingWindow) (windowStart nowNano : Z) : Z * Z :=
  let maxValidTimestamp := wrap64 (nowNano + maxClockSkewTolerance) in
  foldl (count_step windowStart maxValidTimestamp) (0, nowNano)%Z
    ((fun i => sw_timestamps sw !!! bufferIndex sw i) <$> seq 0 (sw_size sw)).

(** One round of the recording loop. *)
Definition record_one (timestamp : Z) (sw : slidingWindow) : slidingWindow :=
  mkSW (<[sw_writePos sw := timestamp]> (sw_timestamps sw))
    ((sw_writePos sw + 1) mod circularBufferSize)
    (if (sw_size sw <? circularBufferSize)%nat then sw_size sw + 1 else sw_size sw)
    (sw_windowSize sw).

Definition recordRequests (sw : slidingWindow) (count timestamp nowNano : Z) : slidingWindow :=
  let maxValidTimestamp := wrap64 (nowNano + maxClockSkewTolerance) in
  let timestamp := if (maxValidTimestamp <? timestamp)%Z then maxValidTimestamp else timestamp in
  Nat.iter (Z.to_nat count) (record_one timestamp) sw.

(** [(allowed, remaining, resetAt)] and the window after the call. *)
Definition tryConsume (sw : slidingWindow) (cost limit : Z) (now : time)
    : (bool * Z * time) * slidingWindow :=
  let nowNano := UnixNano now in
  let windowStart := wrap64 (nowNano - sw_windowSize sw) in
  let '(requestsInWindow, oldestTimestamp) := countRequestsInWindow sw windowStart nowNano in
  let sw := mkSW (sw_timestamps sw) (sw_writePos sw) (Z.to_nat requestsInWindow) (sw_windowSize sw) in
  if (limit <? wrap64 (requestsInWindow + cost))%Z
  then ((false, 0, time_Add oldestTimestamp (sw_windowSize sw))%Z, sw)
  else
    let sw := recordRequests sw cost nowNano nowNano in
    ((true, wrap64 (limit - (requestsInWindow + cost)), time_Add now (sw_windowSize sw)), sw).

Definition currentCount (sw : slidingWindow) (now : time) : Z :=
  let windowStart := wrap64 (UnixNano now - sw_windowSize sw) in
  (countRequestsInWindow sw windowStart (UnixNano now)).1.

(** ** Specification: the log of accepted requests *)

Definition live (w now : Z) (log : list Z) : list Z := filter (fun t => now - w < t)%Z log.

Definition log_consume (w : duration) (log : list Z) (cost limit : Z) (now : time)
    : (bool * Z * time) * list Z :=
  let n := Z.of_nat (length (live w now log)) in
  if (limit <? n + cost)%Z
  then ((false, 0, default now (head (live w now log)) + w)%Z, log)
  else ((true, limit - (n + cost), now + w)%Z, log ++ replicate (Z.to_nat cost) now).

Record request := mkReq { req_cost : Z; req_limit : Z; req_now : time }.

Fixpoint sw_run (sw : slidingWindow) (rs : list request) : list (bool * Z * time) * slidingWindow :=
  match rs with
  | [] => ([], sw)
  | r :: rs' =>
      let '(o, sw') := tryConsume sw (req_cost r) (req_limit r) (req_now r) in
      let '(os, sw'') := sw_run sw' rs' in (o :: os, sw'')
  end.

Fixpoint log_run (w : duration) (log : list Z) (rs : list request)
    : list (bool * Z * time) * list Z :=
  match rs with
  | [] => ([], log)
  | r :: rs' =>
      let '(o, log') := log_consume w log (req_cost r) (req_limit r) (req_now r) in
      let '(os, log'') := log_run w log' rs' in (o :: os, log'')
  end.

(** Times and windows far from the bounds of [int64]: until the year 2115, and
    windows of up to 73 years. *)
Definition sane_time (t : Z) : bool := ((0 <=? t) && (t <=? 2 ^ 62))%Z.
Definition sane_window (w : Z) : bool := ((0 <? w) && (w <=? 2 ^ 61))%Z.

Definition req_ok (r : request) : bool :=
  ((0 <=? req_cost r) && (req_cost r <=? 2 ^ 62) &&
   (0 <=? req_limit r) && (req_limit r <=? Z.of_nat circularBufferSize))%Z && sane_time (req_now r).

(** The clock does not run backwards. *)
Fixpoint clock_ok (last : Z) (rs : list request) : bool :=
  match rs with
  | [] => true
  | r :: rs' => (last <=? req_now r)%Z && req_ok r && clock_ok (req_now r) rs'
  end.

(** ** The counting loop *)

Definition in_window (windowStart maxValid ts : Z) : Prop := (windowStart < ts <= maxValid)%Z.

#[global] Instance in_window_dec a b t : Decision (in_window a b t).
Proof. unfold in_window. apply _. Defined.

Lemma count_fold a b l c o :
  foldl (count_step a b) (c, o) l =
  ((c + Z.of_nat (length (filter (in_window a b) l)))%Z,
   foldl (fun o t => if (t <? o)%Z then t else o) o (filter (in_window a b) l)).
Proof.
  revert c o. induction l as [|t l IH]; intros c o; simpl.
  - f_equal. lia.
  - destruct ((a <? t)%Z && (t <=? b)%Z) eqn:E; rewrite IH.
    + bools. rewrite filter_cons_True by (unfold in_window; lia). simpl. f_equal. lia.
    + rewrite filter_cons_False; [done|]. unfold in_window. intros [H1 H2].
      apply andb_false_iff in E as [E|E]; bools; lia.
Qed.

(** On a sorted list the minimum is the head. *)
Lemma oldest_sorted o l :
  StronglySorted Z.le l -> Forall (fun t => t <= o)%Z l ->
  foldl (fun o t => if (t <? o)%Z then t else o) o l = default o (head l).
Proof.
  intros Hs Hf. destruct l as [|x l]; [done|]. simpl.
  apply StronglySorted_inv in Hs as [_ Hx]. apply Forall_cons in Hf as [Hxo _].
  destruct (Z.ltb_spec x o); [|assert (x = o) as -> by lia].
  - induction l as [|y l IH]; [done|]. apply Forall_cons in Hx as [Hy Hx]. simpl.
    destruct (Z.ltb_spec y x); [lia|]. by apply IH.
  - induction l as [|y l IH]; [done|]. apply Forall_cons in Hx as [Hy Hx]. simpl.
    destruct (Z.ltb_spec y o); [lia|]. by apply IH.
Qed.

(** The live entries of a sorted log are a suffix of it. *)
Lemma live_suffix w now log :
  StronglySorted Z.le log ->
  live w now log = drop (length log - length (live w now log)) log.
Proof.
  induction 1 as [|x l Hs IH Hx]; [done|]. unfold live in *.
  destruct (decide (now - w < x)%Z) as [Hin|Hin].
  - rewrite filter_cons_True by done.
    assert (filter (fun t => now - w < t)%Z l = l) as ->.
    { apply filter_all. eapply Forall_impl; [exact Hx|]. simpl. lia. }
    simpl. by rewrite Nat.sub_diag.
  - rewrite filter_cons_False by done. rewrite IH at 1.
    pose proof (length_filter (fun t => now - w < t)%Z l) as Hl.
    simpl length. by rewrite Nat.sub_succ_l by done.
Qed.

(** The entries before it have expired. *)
Lemma live_split w now log :
  StronglySorted Z.le log ->
  exists pre, log = pre ++ live w now log /\ Forall (fun t => t <= now - w)%Z pre.
Proof.
  induction 1 as [|x l Hs (pre & Hl & Hpre) Hx]; [by exists []|].
  destruct (decide (now - w < x)%Z) as [Hin|Hin].
  - exists []. split; [|done]. unfold live. simpl. rewrite filter_all; [done|].
    constructor; [done|]. eapply Forall_impl; [exact Hx|]. simpl. lia.
  - exists (x :: pre). unfold live in *. rewrite filter_cons_False by done. simpl. split.
    + by f_equal.
    + constructor; [lia|done].
Qed.

(** ** The representation invariant *)

Definition sw_contents (sw : slidingWindow) : list Z :=
  ring_end (sw_timestamps sw) (sw_writePos sw) (sw_size sw).

Record sw_wf (sw : slidingWindow) : Prop := {
  swwf_len : length (sw_timestamps sw) = circularBufferSize;
  swwf_pos : (sw_writePos sw < circularBufferSize)%nat;
  swwf_size : (sw_size sw <= circularBufferSize)%nat;
}.

(** The buffer holds the log, up to entries that had expired at [last]. *)
Record sw_rep (w last : Z) (log : list Z) (sw : slidingWindow) : Prop := {
  rep_wf : sw_wf sw;
  rep_window : sw_windowSize sw = w;
  rep_sorted : StronglySorted Z.le log;
  rep_past : Forall (fun t => t <= last)%Z log;
  rep_suffix : exists pre, log = pre ++ sw_contents sw /\ Forall (fun t => t <= last - w)%Z pre;
}.

Lemma contents_buffer sw :
  sw_wf sw ->
  ((fun i => sw_timestamps sw !!! bufferIndex sw i) <$> seq 0 (sw_size sw)) = sw_contents sw.
Proof. intros [Hl _ _]. unfold sw_contents, ring_end, bufferIndex. by rewrite Hl. Qed.

Lemma record_one_spec t sw :
  sw_wf sw -> (sw_size sw < circularBufferSize)%nat ->
  sw_wf (record_one t sw) /\ sw_contents (record_one t sw) = sw_contents sw ++ [t] /\
  sw_size (record_one t sw) = S (sw_size sw).
Proof.
  intros [Hl Hp Hs] Hlt.
  assert (sw_size (record_one t sw) = S (sw_size sw)) as Hsz.
  { unfold record_one. simpl. destruct (Nat.ltb_spec (sw_size sw) circularBufferSize); lia. }
  split; [split|split; [|done]].
  - simpl. by rewrite length_insert.
  - cbn [record_one sw_writePos]. apply Nat.mod_upper_bound. unfold circularBufferSize. lia.
  - lia.
  - unfold sw_contents. rewrite Hsz.
    pose proof (ring_end_write (sw_timestamps sw) (sw_writePos sw) (sw_size sw) t) as Hw.
    rewrite Hl in Hw. specialize (Hw Hp Hs). cbv zeta in Hw. rewrite decide_True in Hw by done.
    rewrite Nat.sub_diag, drop_0 in Hw. rewrite <- Hw. unfold record_one. cbn [sw_timestamps sw_writePos].
    by rewrite Nat.add_1_r.
Qed.

Lemma record_iter_spec t sw n :
  sw_wf sw -> (sw_size sw + n <= circularBufferSize)%nat ->
  sw_wf (Nat.iter n (record_one t) sw) /\
  sw_contents (Nat.iter n (record_one t) sw) = sw_contents sw ++ replicate n t /\
  sw_size (Nat.iter n (record_one t) sw) = (sw_size sw + n)%nat /\
  sw_windowSize (Nat.iter n (record_one t) sw) = sw_windowSize sw.
Proof.
  intros Hwf. induction n as [|n IH]; intros Hn.
  - simpl. rewrite app_nil_r. split_and!; [done..|lia|done].
  - destruct IH as (Hw & Hc & Hz & Hd); [lia|].
    destruct (record_one_spec t (Nat.iter n (record_one t) sw)) as (Hw' & Hc' & Hz'); [done|lia|].
    rewrite replicate_S_end.
    change (Nat.iter (S n) (record_one t) sw) with (record_one t (Nat.iter n (record_one t) sw)).
    split_and!; [done| | |done].
    + by rewrite Hc', Hc, app_assoc.
    + rewrite Hz', Hz. lia.
Qed.

(** Dropping the expired entries leaves exactly the live ones. *)
Lemma sw_shrink_spec w now log sw :
  sw_rep w now log sw ->
  let n := length (live w now log) in
  let sw' := mkSW (sw_timestamps sw) (sw_writePos sw) n (sw_windowSize sw) in
  sw_wf sw' /\ sw_contents sw' = live w now log.
Proof.
  intros [Hwf Hw Hs Hp (pre & -> & Hpre)] n sw'. subst n sw'.
  assert (live w now (pre ++ sw_contents sw) = live w now (sw_contents sw)) as ->.
  { unfold live. rewrite filter_app, filter_none; [done|].
    eapply Forall_impl; [exact Hpre|]. simpl. lia. }
  apply StronglySorted_app in Hs as (_ & _ & Hs).
  pose proof (live_suffix w now _ Hs) as Hsuf.
  pose proof (length_filter (fun t => now - w < t)%Z (sw_contents sw)) as Hle.
  assert (length (sw_contents sw) = sw_size sw) as Hlc by apply length_ring_end.
  destruct Hwf as [Hl Hpos Hsz]. fold (live w now (sw_contents sw)) in Hle.
  split; [split; simpl; [done..|lia]|].
  unfold sw_contents at 1. simpl.
  rewrite (ring_end_shrink _ _ (sw_size sw)) by lia.
  rewrite Hsuf at 2. by rewrite Hlc.
Qed.

Lemma sw_rep_advance w last now log sw :
  (last <= now)%Z -> sw_rep w last log sw -> sw_rep w now log sw.
Proof.
  intros Hle [Hwf Hw Hs Hp (pre & Hl & Hpre)]. split; try done.
  - eapply Forall_impl; [exact Hp|]. simpl. lia.
  - exists pre. split; [done|]. eapply Forall_impl; [exact Hpre|]. simpl. lia.
Qed.

Lemma new_slidingWindow_rep w last : sw_rep w last [] (new_slidingWindow w).
Proof.
  split; try done.
  - split; simpl; unfold circularBufferSize; [done|lia..].
  - constructor.
  - by exists [].
Qed.

(** The counting loop counts the live entries and finds the oldest. *)
Lemma countRequests_spec w now log sw :
  sane_time now = true -> sane_window w = true -> sw_rep w now log sw ->
  countRequestsInWindow sw (wrap64 (UnixNano now - sw_windowSize sw)) (UnixNano now) =
  (Z.of_nat (length (live w now log)), default now (head (live w now log))).
Proof.
  intros Hn Hw Hrep.
  destruct Hrep as [Hwf Hwin Hs Hp (pre & Hlog & Hpre)].
  unfold sane_time, sane_window in *. bools.
  unfold UnixNano. rewrite Hwin. rewrite (wrap64_id now) by (unfold min_int64, max_int64; lia).
  rewrite (wrap64_id (now - w)) by (unfold min_int64, max_int64; lia).
  unfold countRequestsInWindow, maxClockSkewTolerance, Second.
  rewrite (wrap64_id (now + _)) by (unfold min_int64, max_int64; lia).
  rewrite (contents_buffer sw Hwf), count_fold.
  assert (live w now log = live w now (sw_contents sw)) as Hlive.
  { unfold live. rewrite Hlog, filter_app, filter_none; [done|].
    eapply Forall_impl; [exact Hpre|]. simpl. lia. }
  rewrite Hlog in Hp. apply Forall_app in Hp as [_ Hp].
  assert (filter (in_window (now - w) (now + 5 * 1000000000)) (sw_contents sw) = live w now log) as ->.
  { rewrite Hlive. apply filter_ext_in. intros t Ht. unfold in_window.
    rewrite Forall_forall in Hp. specialize (Hp t Ht). simpl in Hp. lia. }
  f_equal. apply oldest_sorted.
  - rewrite live_suffix by done. rewrite <- (take_drop (length log - length (live w now log)) log) in Hs.
    by apply StronglySorted_app in Hs as (_ & _ & ?).
  - rewrite Hlive. apply Forall_forall. intros t [_ Ht]%list_elem_of_filter.
    rewrite Forall_forall in Hp. by apply Hp.
Qed.

Lemma tryConsume_refines w last log sw cost limit now :
  (last <= now)%Z -> req_ok (mkReq cost limit now) = true -> sane_window w = true ->
  sw_rep w last log sw ->
  (tryConsume sw cost limit now).1 = (log_consume w log cost limit now).1 /\
  sw_rep w now (log_consume w log cost limit now).2 (tryConsume sw cost limit now).2.
Proof.
  intros Hle Hok Hw Hrep. apply (sw_rep_advance _ _ _ _ _ Hle) in Hrep.
  unfold req_ok in Hok. simpl in Hok. bools.
  unfold tryConsume, log_consume.
  rewrite (countRequests_spec w now log) by done.
  destruct (sw_shrink_spec _ _ _ _ Hrep) as [Hwf' Hc'].
  pose proof Hrep as [Hwf Hwin Hs Hp _].
  pose proof (swwf_size _ Hwf') as Hsz. simpl in Hsz. unfold circularBufferSize in Hsz.
  set (n := length (live w now log)) in *. rewrite Nat2Z.id.
  rewrite (wrap64_id (Z.of_nat n + cost)) by (unfold min_int64, max_int64; lia).
  destruct (live_split w now log Hs) as (pre & Hsplit & Hexp).
  destruct (Z.ltb_spec limit (Z.of_nat n + cost)).
  - rewrite Hwin in *. split; [done|]. split; try done. simpl. exists pre. by rewrite Hc'.
  - unfold recordRequests. simpl sw_windowSize.
    unfold sane_time in *. bools. unfold UnixNano.
    rewrite (wrap64_id now) by (unfold min_int64, max_int64; lia).
    unfold maxClockSkewTolerance, Second.
    rewrite (wrap64_id (now + _)) by (unfold min_int64, max_int64; lia).
    destruct (Z.ltb_spec (now + 5 * 1000000000) now); [lia|].
    destruct (record_iter_spec now _ (Z.to_nat cost) Hwf') as (Hw'' & Hc'' & Hz'' & Hd'').
    { simpl. unfold circularBufferSize in *. lia. }
    rewrite wrap64_id by (unfold min_int64, max_int64, circularBufferSize in *; lia).
    rewrite Hd''. simpl. rewrite Hwin in *. split; [done|]. split; try done.
    + apply StronglySorted_app_2; [|done|].
      * intros x y Hx [-> _]%elem_of_replicate. rewrite Forall_forall in Hp. by apply Hp.
      * clear. induction (Z.to_nat cost) as [|k IH]; constructor; [done|].
        apply Forall_replicate. done.
    + apply Forall_app. split; [done|]. apply Forall_replicate. done.
    + rewrite Hc'', Hc'. exists pre. split; [|done].
      rewrite app_assoc. by rewrite <- Hsplit.
Qed.

(** ** Runs *)

Lemma sw_run_refines w last log sw rs :
  clock_ok last rs = true -> sane_window w = true -> sw_rep w last log sw ->
  (sw_run sw rs).1 = (log_run w log rs).1.
Proof.
  intros Hc Hw. revert last log sw Hc.
  induction rs as [|[cost limit now] rs IH]; intros last log sw Hc Hrep; [done|].
  simpl in Hc. apply andb_true_iff in Hc as [Hc Hrs]. apply andb_true_iff in Hc as [Hle Hok].
  bools. destruct (tryConsume_refines w last log sw cost limit now Hle Hok Hw Hrep) as [Ho Hrep'].
  simpl. destruct (tryConsume sw cost limit now) as [o sw'].
  destruct (log_consume w log cost limit now) as [o' log']. simpl in *. subst o'.
  specialize (IH now log' sw' Hrs Hrep').
  destruct (sw_run sw' rs), (log_run w log' rs). simpl in *. by subst.
Qed.

(** The requests a run let through, one entry per unit of cost. *)
Fixpoint accepted (rs : list request) (os : list (bool * Z * time)) : list Z :=
  match rs, os with
  | r :: rs', o :: os' =>
      (if o.1.1 then replicate (Z.to_nat (req_cost r)) (req_now r) else []) ++ accepted rs' os'
  | _, _ => []
  end.

Lemma log_run_accepted w log rs :
  (log_run w log rs).2 = log ++ accepted rs (log_run w log rs).1.
Proof.
  revert log. induction rs as [|[cost limit now] rs IH]; intros log; simpl; [by rewrite app_nil_r|].
  destruct (log_consume w log cost limit now) as [o log'] eqn:E.
  specialize (IH log'). destruct (log_run w log' rs) as [os log'']. simpl in *. rewrite IH.
  unfold log_consume in E. case_match; simplify_eq/=; [done|]. by rewrite app_assoc.
Qed.

(** Requests accepted in the window of length [w] that ends at [t]. *)
Definition in_period (w t : Z) (log : list Z) : list Z := filter (fun x => t - w < x <= t)%Z log.

Definition log_bounded (w limit : Z) (log : list Z) : Prop :=
  forall t, (Z.of_nat (length (in_period w t log)) <= limit)%Z.

Lemma log_consume_bounded w L last log cost limit now :
  (0 <= cost)%Z -> (limit <= L)%Z -> (last <= now)%Z -> Forall (fun t => t <= last)%Z log ->
  log_bounded w L log ->
  log_bounded w L (log_consume w log cost limit now).2 /\
  Forall (fun t => t <= now)%Z (log_consume w log cost limit now).2.
Proof.
  intros Hcost HL Hle Hp Hb. unfold log_consume.
  assert (Forall (fun t => t <= now)%Z log) as Hp'.
  { eapply Forall_impl; [exact Hp|]. simpl. lia. }
  destruct (Z.ltb_spec limit (Z.of_nat (length (live w now log)) + cost)); simpl; [done|].
  split; [|apply Forall_app; split; [done|by apply Forall_replicate]].
  intros t. unfold in_period. rewrite filter_app, length_app.
  destruct (decide (now <= t)%Z) as [Ht|Ht].
  - pose proof (length_filter (fun x => t - w < x <= t)%Z (replicate (Z.to_nat cost) now)) as H1.
    rewrite length_replicate in H1.
    assert (length (filter (fun x => t - w < x <= t)%Z log) <= length (live w now log))%nat.
    { unfold live. clear -Ht. induction log as [|x l IH]; [done|].
      rewrite !filter_cons. repeat case_decide; simpl; lia. }
    lia.
  - assert (filter (fun x => t - w < x <= t)%Z (replicate (Z.to_nat cost) now) = []) as ->.
    { apply filter_none, Forall_replicate. lia. }
    specialize (Hb t). unfold in_period in Hb. simpl. lia.
Qed.

Lemma log_run_bounded w L last log rs :
  clock_ok last rs = true -> Forall (fun r => req_limit r <= L)%Z rs ->
  Forall (fun t => t <= last)%Z log -> log_bounded w L log ->
  log_bounded w L (log_run w log rs).2.
Proof.
  revert last log. induction rs as [|[cost limit now] rs IH]; intros last log Hc HL Hp Hb; [done|].
  apply Forall_cons in HL as [HL0 HL]. simpl in Hc, HL0.
  apply andb_true_iff in Hc as [Hc Hrs]. apply andb_true_iff in Hc as [Hle Hok].
  unfold req_ok in Hok. simpl in Hok. bools.
  destruct (log_consume_bounded w L last log cost limit now) as [Hb' Hp']; [done..|].
  simpl. destruct (log_consume w log cost limit now) as [o log'].
  specialize (IH now log' Hrs HL Hp' Hb').
  by destruct (log_run w log' rs).
Qed.

(** ** Buffers in an arbitrary state *)

Lemma record_one_wf t sw : sw_wf sw -> sw_wf (record_one t sw).
Proof.
  intros [Hl Hp Hs]. split; cbn [record_one sw_timestamps sw_writePos sw_size].
  - by rewrite length_insert.
  - apply Nat.mod_upper_bound. unfold circularBufferSize. lia.
  - destruct (Nat.ltb_spec (sw_size sw) circularBufferSize); lia.
Qed.

Lemma count_le_size sw a b :
  (0 <= (countRequestsInWindow sw a b).1 <= Z.of_nat (sw_size sw))%Z.
Proof.
  unfold countRequestsInWindow. rewrite count_fold. simpl.
  match goal with |- context [filter ?P ?l] => pose proof (length_filter P l) as Hl end.
  rewrite length_fmap, length_seq in Hl. lia.
Qed.

Lemma tryConsume_wf sw cost limit now : sw_wf sw -> sw_wf (tryConsume sw cost limit now).2.
Proof.
  intros Hwf. unfold tryConsume.
  pose proof (count_le_size sw (wrap64 (UnixNano now - sw_windowSize sw)) (UnixNano now)) as Hc.
  destruct (countRequestsInWindow _ _ _) as [n o]. simpl in Hc.
  assert (sw_wf (mkSW (sw_timestamps sw) (sw_writePos sw) (Z.to_nat n) (sw_windowSize sw))) as Hwf'.
  { destruct Hwf. split; simpl; [done..|lia]. }
  case_match; simpl; [done|]. unfold recordRequests.
  induction (Z.to_nat cost) as [|k IH]; [done|]. by apply record_one_wf.
Qed.

(** ** Properties *)

(** C7: The sliding window implements the log of accepted requests: on every
    sequence of requests with non-decreasing times and limits of at most 256,
    each call gives the verdict, the remaining allowance and the reset time
    computed from the complete log, although the buffer forgets entries. *)
Theorem slidingWindow_refines_log (w : duration) (rs : list request) :
  sane_window w = true -> clock_ok 0 rs = true ->
  (sw_run (new_slidingWindow w) rs).1 = (log_run w [] rs).1.
Proof. intros Hw Hc. apply (sw_run_refines w 0); [done..|apply new_slidingWindow_rep]. Qed.

Lemma slidingWindow_refines_log_witness :
  let rs := [mkReq 1 2 10; mkReq 1 2 20; mkReq 1 2 30; mkReq 1 2 111] in
  (sw_run (new_slidingWindow 100) rs).1 = (log_run 100 [] rs).1 /\
  (log_run 100 [] rs).1.*1.*1 = [true; true; false; true].
Proof.
  split; [|reflexivity]. apply slidingWindow_refines_log; reflexivity.
Defined.

(** No window ever lets through more than the limit: whatever the requests
    (with limits of at most [L], itself at most 256), every period of the window's length contains at most [L]
    accepted units of cost. *)
Theorem slidingWindow_never_exceeds_limit (w : duration) (L : Z) (rs : list request) (t : time) :
  sane_window w = true -> clock_ok 0 rs = true -> (0 <= L)%Z ->
  Forall (fun r => req_limit r <= L)%Z rs ->
  (Z.of_nat (length (in_period w t (accepted rs (sw_run (new_slidingWindow w) rs).1))) <= L)%Z.
Proof.
  intros Hw Hc HL0 HL.
  rewrite (sw_run_refines w 0 []) by (done || apply new_slidingWindow_rep).
  pose proof (log_run_accepted w [] rs) as Ha. simpl in Ha. rewrite <- Ha.
  apply (log_run_bounded w L 0); [done..|]. intros u. simpl. lia.
Qed.

Lemma slidingWindow_never_exceeds_limit_witness :
  let rs := [mkReq 1 2 10; mkReq 1 2 20; mkReq 1 2 30] in
  (Z.of_nat (length (in_period 100 30 (accepted rs (sw_run (new_slidingWindow 100) rs).1))) <= 2)%Z.
Proof.
  apply slidingWindow_never_exceeds_limit;
    [reflexivity|reflexivity|lia|repeat constructor; simpl; lia].
Defined.

(** A limit above the buffer size is not enforced: with a limit of more than
    256 a request of cost one is allowed in every state the buffer can be in,
    because at most 256 timestamps are remembered. *)
Theorem limit_above_buffer_never_denies (w : duration) (before : list request) (limit now : Z) :
  (Z.of_nat circularBufferSize < limit)%Z ->
  (tryConsume (sw_run (new_slidingWindow w) before).2 1 limit now).1.1.1 = true.
Proof.
  intros Hl. assert (sw_wf (sw_run (new_slidingWindow w) before).2) as Hwf.
  { assert (sw_wf (new_slidingWindow w)) as Hn by apply (new_slidingWindow_rep w 0).
    revert Hn. generalize (new_slidingWindow w).
    induction before as [|[c l n] rs IH]; intros sw Hn; simpl; [done|].
    pose proof (tryConsume_wf sw c l n Hn) as Hwf'.
    destruct (tryConsume sw c l n) as [o sw']. specialize (IH sw' Hwf').
    by destruct (sw_run sw' rs). }
  revert Hwf. generalize (sw_run (new_slidingWindow w) before).2. intros sw [_ _ Hs].
  unfold tryConsume.
  pose proof (count_le_size sw (wrap64 (UnixNano now - sw_windowSize sw)) (UnixNano now)) as Hc.
  destruct (countRequestsInWindow _ _ _) as [n o]. simpl in Hc. unfold circularBufferSize in *.
  rewrite wrap64_id by (unfold min_int64, max_int64; lia).
  destruct (Z.ltb_spec limit (n + 1)); [lia|done].
Qed.

Lemma limit_above_buffer_never_denies_witness :
  (tryConsume (sw_run (new_slidingWindow 1000) (replicate 300 (mkReq 1 257 5))).2 1 257 5).1.1.1 = true.
Proof. apply limit_above_buffer_never_denies. vm_compute. reflexivity. Defined.
