(* ===== verification/BucketStore.v ===== *)
(** * The sharded LRU bucket store
    [internal/ratelimit/store/bucket/store_memory.go]

    Each shard maps keys to elements of a doubly linked list ordered by last
    use.  An element is a heap object: the map holds its address and the list
    holds the same address, so the model keeps element identities and proves
    map and list consistent.  The interface the services use is the class
    [BucketStore] at the end of the file. *)
From S2P Require Import Prelude Errors Ring SlidingWindow.

(** ** Results *)

Record RateLimitResult := mkRLR {
  rl_Allowed : bool;
  rl_Bypassed : bool;
  rl_Limit : Z;
  rl_Remaining : Z;
  rl_ResetAt : time;
  rl_RetryAfter : Z;
}.

Definition retryAfterSeconds (allowed : bool) (resetAt now : time) : Z :=
  if allowed then 0%Z
  else
    let seconds := int_Seconds (time_Sub resetAt now) in
    if (seconds <? 0)%Z then 0%Z else seconds.

(** ** [container/list] as a sequence of elements with identities *)

Record lruEntry := mkEntry { le_key : string; le_window : slidingWindow }.

Abbreviation element := (nat * lruEntry)%type (only parsing).

Definition list_MoveToFront (e : nat) (l : list element) : list element :=
  filter (fun x => x.1 = e) l ++ filter (fun x => x.1 <> e) l.
Definition list_Remove (e : nat) (l : list element) : list element :=
  filter (fun x => x.1 <> e) l.
Definition elem_Value (e : nat) (l : list element) : option lruEntry :=
  snd <$> head (filter (fun x => x.1 = e) l).
(** Assign the [window] field of the entry an element holds. *)
Definition elem_set_window (e : nat) (w : slidingWindow) (l : list element) : list element :=
  (fun x => if bool_decide (x.1 = e) then (x.1, mkEntry (le_key x.2) w) else x) <$> l.

(** ** Shards *)

Record shard := mkShard {
  sh_buckets : gmap string nat;
  sh_lruList : list element;
  sh_next : nat;  (* the next fresh element address *)
  sh_maxSize : Z;
}.

Definition newShard (maxSize : Z) : shard := mkShard ∅ [] 0 maxSize.

Definition shard_get (s : shard) (key : string) : option slidingWindow * shard :=
  match sh_buckets s !! key with
  | None => (None, s)
  | Some e =>
      let l := list_MoveToFront e (sh_lruList s) in
      (le_window <$> elem_Value e l, mkShard (sh_buckets s) l (sh_next s) (sh_maxSize s))
  end.

(** Eviction of the element at the back of the list. *)
Definition shard_evict (s : shard) : shard :=
  if (sh_maxSize s <=? Z.of_nat (length (sh_lruList s)))%Z then
    match last (sh_lruList s) with
    | None => s
    | Some oldest =>
        mkShard (delete (le_key oldest.2) (sh_buckets s)) (list_Remove oldest.1 (sh_lruList s))
          (sh_next s) (sh_maxSize s)
    end
  else s.

Definition shard_set (s : shard) (key : string) (window : slidingWindow) : shard :=
  match sh_buckets s !! key with
  | Some e =>
      mkShard (sh_buckets s) (elem_set_window e window (list_MoveToFront e (sh_lruList s)))
        (sh_next s) (sh_maxSize s)
  | None =>
      let s := shard_evict s in
      mkShard (<[key := sh_next s]> (sh_buckets s))
        ((sh_next s, mkEntry key window) :: sh_lruList s) (S (sh_next s)) (sh_maxSize s)
  end.

Definition shard_delete (s : shard) (key : string) : shard :=
  match sh_buckets s !! key with
  | Some e =>
      mkShard (delete key (sh_buckets s)) (list_Remove e (sh_lruList s)) (sh_next s) (sh_maxSize s)
  | None => s
  end.

(** The window a key's element holds, and the effect of mutating it in place. *)
Definition shard_window (s : shard) (key : string) : option slidingWindow :=
  e ← sh_buckets s !! key; le_window <$> elem_Value e (sh_lruList s).
Definition shard_mutate (s : shard) (key : string) (w : slidingWindow) : shard :=
  match sh_buckets s !! key with
  | Some e => mkShard (sh_buckets s) (elem_set_window e w (sh_lruList s)) (sh_next s) (sh_maxSize s)
  | None => s
  end.

(** The body of [AllowN] under the shard's lock. *)
Definition shard_AllowN (s : shard) (key : string) (cost limit : Z) (windowDuration : duration)
    (now : time) : RateLimitResult * shard :=
  let '(found, s) := shard_get s key in
  let '(sw, s) :=
    match found with
    | Some sw => (sw, s)
    | None => let sw := new_slidingWindow windowDuration in (sw, shard_set s key sw)
    end in
  let '(allowed, remaining, resetAt, sw') := tryConsume sw cost limit now in
  (mkRLR allowed false limit remaining resetAt (retryAfterSeconds allowed resetAt now),
   shard_mutate s key sw').

Definition shard_GetCurrentCount (s : shard) (key : string) (now : time) : Z :=
  match shard_window s key with None => 0%Z | Some w => currentCount w now end.

(** ** The store *)

Definition defaultShardCount : Z := 32.
Definition defaultMaxBuckets : Z := 100000.

Record InMemoryBucketStore := mkBS { bs_shards : list shard; bs_shardCount : Z }.

Inductive BucketOption := WithShardCount (count : Z) | WithMaxBucketsPerShard (max : Z).

(** The conversion to [uint32] truncates. *)
Definition apply_bucket_option (s : InMemoryBucketStore) (o : BucketOption) : InMemoryBucketStore :=
  match o with
  | WithShardCount count =>
      if (0 <? count)%Z then mkBS (bs_shards s) (count `mod` 2 ^ 32)%Z else s
  | WithMaxBucketsPerShard max =>
      mkBS ((fun sh => mkShard (sh_buckets sh) (sh_lruList sh) (sh_next sh) max) <$> bs_shards s)
        (bs_shardCount s)
  end.

Definition Bucket_New (opts : list BucketOption) : InMemoryBucketStore :=
  let store := foldl apply_bucket_option (mkBS [] defaultShardCount) opts in
  let store := mkBS (replicate (Z.to_nat (bs_shardCount store)) (newShard defaultMaxBuckets))
                 (bs_shardCount store) in
  foldl apply_bucket_option store opts.

(** FNV-1a, 32 bits ([hash/fnv]). *)
Definition fnv32a (s : string) : Z :=
  foldl (fun h b => (Z.lxor h b * 16777619) `mod` 2 ^ 32)%Z 2166136261%Z (bytes_of s).

Definition shard_index (s : InMemoryBucketStore) (key : string) : nat :=
  Z.to_nat (fnv32a key `mod` bs_shardCount s).

(** [None] is the panic of an index out of range. *)
Definition getShard (s : InMemoryBucketStore) (key : string) : option shard :=
  bs_shards s !! shard_index s key.

Definition with_shard (s : InMemoryBucketStore) (key : string) (sh : shard) : InMemoryBucketStore :=
  mkBS (<[shard_index s key := sh]> (bs_shards s)) (bs_shardCount s).

Definition Bucket_AllowN (s : InMemoryBucketStore) (key : string) (cost limit : Z)
    (windowDuration : duration) (now : time) : option (RateLimitResult * InMemoryBucketStore) :=
  sh ← getShard s key;
  let '(r, sh') := shard_AllowN sh key cost limit windowDuration now in
  Some (r, with_shard s key sh').

Definition Bucket_Allow (s : InMemoryBucketStore) (key : string) (limit : Z)
    (window : duration) (now : time) : option (RateLimitResult * InMemoryBucketStore) :=
  Bucket_AllowN s key 1 limit window now.

Definition Bucket_Reset (s : InMemoryBucketStore) (key : string) : option InMemoryBucketStore :=
  sh ← getShard s key; Some (with_shard s key (shard_delete sh key)).

Definition Bucket_GetCurrentCount (s : InMemoryBucketStore) (key : string) (now : time) : option Z :=
  sh ← getShard s key; Some (shard_GetCurrentCount sh key now).

Definition Bucket_Stats (s : InMemoryBucketStore) : nat * list nat :=
  let per := (fun sh => size (sh_buckets sh)) <$> bs_shards s in
  (sum_list per, per).

(** ** The shard invariant: map and list agree *)

Definition entry_index (x : element) : string * nat := (le_key x.2, x.1).
Abbreviation index l := (entry_index <$> l) (only parsing).

Record shard_wf (s : shard) : Prop := {
  shwf_keys : NoDup (index (sh_lruList s)).*1;
  shwf_ids : NoDup (index (sh_lruList s)).*2;
  shwf_map : forall k e, sh_buckets s !! k = Some e <-> (k, e) ∈ index (sh_lruList s);
  shwf_fresh : Forall (fun e => e < sh_next s)%nat (index (sh_lruList s)).*2;
}.

Lemma newShard_wf m : shard_wf (newShard m).
Proof.
  split; simpl; try constructor.
  - by rewrite lookup_empty.
  - intros H. by apply elem_of_nil in H.
Qed.

Lemma NoDup_snd_inj {A B} (l : list (A * B)) a a' b :
  NoDup l.*2 -> (a, b) ∈ l -> (a', b) ∈ l -> a = a'.
Proof.
  induction l as [|[x y] l IH]; simpl; intros Hnd H1 H2; [by apply elem_of_nil in H1|].
  apply NoDup_cons in Hnd as [Hy Hnd].
  apply elem_of_cons in H1 as [H1|H1], H2 as [H2|H2]; simplify_eq; try done; try by apply IH.
  - destruct Hy. apply list_elem_of_fmap. by exists (a', y).
  - destruct Hy. apply list_elem_of_fmap. by exists (a, y).
Qed.

(** Within a shard, an element and its key determine each other. *)
Lemma shard_elem_key s k e x :
  shard_wf s -> sh_buckets s !! k = Some e -> x ∈ sh_lruList s -> x.1 = e <-> le_key x.2 = k.
Proof.
  intros [_ Hids Hmap _] Hk Hx.
  assert (entry_index x ∈ index (sh_lruList s)) as Hix by (by apply list_elem_of_fmap_2).
  pose proof Hk as Hk'. apply Hmap in Hk'. split; intros <-.
  - eapply NoDup_snd_inj; [exact Hids| |exact Hk']. done.
  - unfold entry_index in Hix. apply Hmap in Hix. congruence.
Qed.

Lemma elem_Value_Some e l v :
  elem_Value e l = Some v -> (e, v) ∈ l.
Proof.
  unfold elem_Value. destruct (filter (fun x => x.1 = e) l) as [|x l'] eqn:E; [done|].
  intros [= <-]. assert (x ∈ filter (fun x => x.1 = e) l) as Hx by (rewrite E; by constructor).
  apply list_elem_of_filter in Hx as [<- Hx]. by destruct x.
Qed.

Lemma elem_Value_in e l v :
  NoDup (index l).*2 -> (e, v) ∈ l -> elem_Value e l = Some v.
Proof.
  intros Hnd Hin. unfold elem_Value.
  induction l as [|x l IH]; [by apply elem_of_nil in Hin|]. simpl in Hnd.
  apply NoDup_cons in Hnd as [Hx Hnd]. rewrite filter_cons.
  apply elem_of_cons in Hin as [<-|Hin]; [by rewrite decide_True|].
  rewrite decide_False; [by apply IH|]. intros He. destruct Hx. rewrite He.
  apply list_elem_of_fmap. exists (le_key v, e). split; [done|].
  apply list_elem_of_fmap. by exists (e, v).
Qed.

Lemma shard_window_Some s k w :
  shard_wf s -> shard_window s k = Some w <-> exists e, (e, mkEntry k w) ∈ sh_lruList s.
Proof.
  intros Hwf. unfold shard_window. split.
  - destruct (sh_buckets s !! k) as [e|] eqn:Hk; [|done]. simpl.
    intros ([k' w'] & Hv & Hw)%fmap_Some. simpl in Hw. subst w'.
    apply elem_Value_Some in Hv. exists e. pose proof (shard_elem_key s k e (e, mkEntry k' w)) as H.
    simpl in H. by rewrite <- (proj1 (H Hwf Hk Hv) eq_refl).
  - intros [e He]. destruct Hwf as [_ Hids Hmap _].
    assert (sh_buckets s !! k = Some e) as ->.
    { apply Hmap. apply list_elem_of_fmap. by exists (e, mkEntry k w). }
    simpl. by rewrite (elem_Value_in _ _ _ Hids He).
Qed.

Lemma shard_window_None s k :
  shard_wf s -> shard_window s k = None <-> sh_buckets s !! k = None.
Proof.
  intros Hwf. unfold shard_window. destruct (sh_buckets s !! k) as [e|] eqn:Hk; [|done].
  simpl. apply (shwf_map _ Hwf) in Hk as ([e' [k' w]] & [= <- ->] & Hin)%list_elem_of_fmap.
  by rewrite (elem_Value_in _ _ _ (shwf_ids _ Hwf) Hin).
Qed.

(** Two shards whose lists have the same entries give the same windows. *)
Lemma shard_window_perm s s' k :
  shard_wf s -> shard_wf s' -> sh_lruList s ≡ₚ sh_lruList s' -> shard_window s k = shard_window s' k.
Proof.
  intros H1 H2 Hp. apply option_eq. intros w. rewrite !shard_window_Some by done. by setoid_rewrite Hp.
Qed.

(** ** List operations on the index *)

Lemma MoveToFront_perm e l : list_MoveToFront e l ≡ₚ l.
Proof. unfold list_MoveToFront. apply filter_app_complement. Qed.

Lemma length_MoveToFront e l : length (list_MoveToFront e l) = length l.
Proof. apply Permutation_length, MoveToFront_perm. Qed.

Lemma index_set_window e w l : index (elem_set_window e w l) = index l.
Proof.
  unfold elem_set_window. rewrite <- list_fmap_compose. apply list_fmap_ext.
  intros i x _. unfold entry_index. simpl. by case_bool_decide.
Qed.

Lemma index_Remove e l : index (list_Remove e l) = filter (fun p => p.2 <> e) (index l).
Proof.
  unfold list_Remove. induction l as [|x l IH]; [done|].
  rewrite fmap_cons, !filter_cons. simpl. repeat case_decide; try done. rewrite fmap_cons. by f_equal.
Qed.

Lemma shard_wf_perm s l :
  shard_wf s -> l ≡ₚ sh_lruList s -> shard_wf (mkShard (sh_buckets s) l (sh_next s) (sh_maxSize s)).
Proof.
  intros [Hk Hi Hm Hf] Hp. split; simpl.
  - by rewrite Hp.
  - by rewrite Hp.
  - intros. by rewrite Hp.
  - by rewrite Hp.
Qed.

Lemma shard_wf_set_window s e w :
  shard_wf s ->
  shard_wf (mkShard (sh_buckets s) (elem_set_window e w (sh_lruList s)) (sh_next s) (sh_maxSize s)).
Proof. intros [Hk Hi Hm Hf]. split; simpl; rewrite ?index_set_window; try done. Qed.

Lemma shard_wf_Remove s k e :
  shard_wf s -> sh_buckets s !! k = Some e ->
  shard_wf (mkShard (delete k (sh_buckets s)) (list_Remove e (sh_lruList s)) (sh_next s) (sh_maxSize s)).
Proof.
  intros Hwf Hke. pose proof Hwf as [Hk Hi Hm Hf].
  assert (index (list_Remove e (sh_lruList s)) `sublist_of` index (sh_lruList s)) as Hsub
    by (rewrite index_Remove; apply sublist_filter).
  split; simpl.
  - eapply sublist_NoDup; [exact Hk|by apply fmap_sublist].
  - eapply sublist_NoDup; [exact Hi|by apply fmap_sublist].
  - intros k' e'. rewrite lookup_delete_Some, index_Remove, list_elem_of_filter, <- Hm. simpl.
    split; intros [Hne He']; (split; [|done]).
    + intros ->. destruct Hne. apply Hm in He', Hke. by eapply NoDup_snd_inj.
    + intros ->. congruence.
  - rewrite index_Remove. rewrite Forall_fmap, Forall_forall in *.
    intros x [_ Hx]%list_elem_of_filter. by apply Hf.
Qed.

Lemma shard_wf_push s k w :
  shard_wf s -> sh_buckets s !! k = None ->
  shard_wf (mkShard (<[k := sh_next s]> (sh_buckets s))
              ((sh_next s, mkEntry k w) :: sh_lruList s) (S (sh_next s)) (sh_maxSize s)).
Proof.
  intros [Hk Hi Hm Hf] Hnone. split; simpl.
  - constructor; [|done]. intros ([k' e] & -> & Hin)%list_elem_of_fmap.
    apply Hm in Hin. simpl in *. congruence.
  - constructor; [|done]. intros Hin. rewrite Forall_forall in Hf. apply Hf in Hin. lia.
  - intros k' e'. rewrite elem_of_cons, <- Hm, lookup_insert_Some. unfold entry_index. simpl.
    split; [intros [[-> ->]|[? ?]]; [by left|by right]|]. intros [[= -> ->]|Hin]; [by left|]. right. split; [|done].
    intros ->. congruence.
  - constructor; [lia|]. eapply Forall_impl; [exact Hf|]. simpl. lia.
Qed.

(** ** Operations on a shard *)

(** The keys, most recently used first. *)
Definition shard_keys (s : shard) : list string := (fun x : element => le_key x.2) <$> sh_lruList s.

(** The key a miss evicts: the least recently used one of a full shard. *)
Definition lru_victim (s : shard) : option string :=
  if (sh_maxSize s <=? Z.of_nat (length (sh_lruList s)))%Z
  then (fun x : element => le_key x.2) <$> last (sh_lruList s) else None.

Definition shard_bounded (s : shard) : Prop :=
  (Z.of_nat (length (sh_lruList s)) <= Z.max 1 (sh_maxSize s))%Z.

Lemma shard_keys_filter s k e :
  shard_wf s -> sh_buckets s !! k = Some e ->
  (fun x : element => le_key x.2) <$> list_Remove e (sh_lruList s) = filter (fun k' => k' <> k) (shard_keys s).
Proof.
  intros Hwf Hk. unfold list_Remove, shard_keys.
  rewrite (filter_ext_in (fun x => x.1 <> e) (fun x => le_key x.2 <> k)).
  2:{ intros x Hx. by rewrite (shard_elem_key s k e x Hwf Hk Hx). }
  induction (sh_lruList s) as [|x l IH]; [done|].
  rewrite fmap_cons, !filter_cons. repeat case_decide; try done. rewrite fmap_cons. by f_equal.
Qed.

Lemma shard_keys_at s k e :
  shard_wf s -> sh_buckets s !! k = Some e ->
  (fun x : element => le_key x.2) <$> filter (fun x => x.1 = e) (sh_lruList s) = [k].
Proof.
  intros Hwf Hk. pose proof Hwf as [_ Hi Hm _]. pose proof Hk as Hk'.
  apply Hm in Hk' as ([e' [k' w]] & [= <- ->] & Hin)%list_elem_of_fmap.
  revert Hi Hin. generalize (sh_lruList s). intros l Hi Hin.
  induction l as [|x l IH]; [by apply elem_of_nil in Hin|]. simpl in Hi.
  apply NoDup_cons in Hi as [Hx Hi].
  assert (forall y, y ∈ l -> y.1 <> x.1) as Hne.
  { intros y Hy Heq. destruct Hx. rewrite <- Heq. apply list_elem_of_fmap.
    exists (entry_index y). split; [done|]. by apply list_elem_of_fmap_2. }
  apply elem_of_cons in Hin as [<-|Hin].
  - rewrite filter_cons_True by done. simpl. f_equal.
    rewrite filter_none; [done|]. apply Forall_forall. intros y Hy. by apply Hne.
  - rewrite filter_cons_False; [by apply IH|]. intros He. by apply (Hne _ Hin).
Qed.

Lemma shard_get_spec s k :
  shard_wf s ->
  let '(found, s') := shard_get s k in
  found = shard_window s k /\ shard_wf s' /\ (forall k', shard_window s' k' = shard_window s k') /\
  sh_buckets s' = sh_buckets s /\ length (sh_lruList s') = length (sh_lruList s) /\
  sh_maxSize s' = sh_maxSize s /\
  (is_Some found -> shard_keys s' = k :: filter (fun k' => k' <> k) (shard_keys s)) /\
  (found = None -> s' = s).
Proof.
  intros Hwf. unfold shard_get. destruct (sh_buckets s !! k) as [e|] eqn:Hk.
  - pose proof (MoveToFront_perm e (sh_lruList s)) as Hp.
    pose proof (shard_wf_perm s _ Hwf Hp) as Hwf'.
    assert (shard_window s k = le_window <$> elem_Value e (list_MoveToFront e (sh_lruList s))) as Hfound.
    { rewrite (shard_window_perm s _ k Hwf Hwf'); [|done]. unfold shard_window. simpl. by rewrite Hk. }
    split_and!; try done.
    + intros k'. by apply shard_window_perm.
    + simpl. apply length_MoveToFront.
    + intros _. unfold shard_keys at 1. simpl. unfold list_MoveToFront. rewrite fmap_app.
      fold (list_Remove e (sh_lruList s)).
      by rewrite (shard_keys_at s k e Hwf Hk), (shard_keys_filter s k e Hwf Hk).
    + rewrite <- Hfound. intros Hn. apply shard_window_None in Hn; [congruence|done].
  - assert (shard_window s k = None) as Hn by (by apply shard_window_None).
    by split_and!.
Qed.

Lemma last_elem {A} (l : list A) x : last l = Some x -> x ∈ l.
Proof. intros (l' & ->)%last_Some. set_solver. Qed.

Lemma shard_evict_spec s :
  shard_wf s -> shard_bounded s ->
  let s' := shard_evict s in
  shard_wf s' /\
  (forall k, shard_window s' k = if bool_decide (lru_victim s = Some k) then None else shard_window s k) /\
  shard_keys s' = filter (fun k => lru_victim s <> Some k) (shard_keys s) /\
  (Z.of_nat (length (sh_lruList s')) < Z.max 1 (sh_maxSize s))%Z /\ sh_maxSize s' = sh_maxSize s.
Proof.
  intros Hwf Hb. unfold shard_evict, lru_victim.
  destruct (Z.leb_spec (sh_maxSize s) (Z.of_nat (length (sh_lruList s)))).
  2:{ split_and!; try done; [symmetry; by apply filter_all, Forall_forall|lia]. }
  destruct (last (sh_lruList s)) as [[e [kv w]]|] eqn:Hlast.
  2:{ apply last_None in Hlast. split_and!; try done.
      - symmetry. by apply filter_all, Forall_forall.
      - rewrite Hlast. simpl. lia. }
  apply last_elem in Hlast. simpl.
  assert (sh_buckets s !! kv = Some e) as Hkv.
  { apply (shwf_map _ Hwf), list_elem_of_fmap. by exists (e, mkEntry kv w). }
  pose proof (shard_wf_Remove s kv e Hwf Hkv) as Hwf'. split_and!; try done.
  - intros k. apply option_eq. intros w'. case_bool_decide as Hv.
    + simplify_eq. split; [|done]. intros Hw. exfalso.
      assert (shard_window (mkShard (delete k (sh_buckets s)) (list_Remove e (sh_lruList s))
        (sh_next s) (sh_maxSize s)) k = None) as Hn.
      { apply shard_window_None; [done|]. simpl. by rewrite lookup_delete_eq. }
      congruence.
    + rewrite !shard_window_Some by done. simpl. unfold list_Remove.
      split; intros [e' He']; exists e'.
      * by apply list_elem_of_filter in He' as [_ ?].
      * apply list_elem_of_filter. split; [|done]. intros Heq.
        apply (shard_elem_key s kv e _ Hwf Hkv He') in Heq. simpl in Heq. congruence.
  - unfold shard_keys at 1. simpl. rewrite (shard_keys_filter s kv e Hwf Hkv).
    apply filter_ext_in. intros k _. split; [intros ? [= ->]|intros ? ->]; done.
  - pose proof (length_filter_lt (fun x => x.1 <> e) (sh_lruList s) _ Hlast) as Hlt.
    specialize (Hlt ltac:(simpl; tauto)). unfold list_Remove. unfold shard_bounded in Hb. lia.
Qed.

Lemma shard_push_window s k w k' :
  shard_wf s -> sh_buckets s !! k = None ->
  shard_window (mkShard (<[k := sh_next s]> (sh_buckets s))
     ((sh_next s, mkEntry k w) :: sh_lruList s) (S (sh_next s)) (sh_maxSize s)) k' =
  if bool_decide (k' = k) then Some w else shard_window s k'.
Proof.
  intros Hwf Hn. pose proof (shard_wf_push s k w Hwf Hn) as Hwf'.
  apply option_eq. intros w'. rewrite shard_window_Some by done. simpl.
  case_bool_decide as Hk.
  - subst k'. split.
    + intros [e [He|He]%elem_of_cons]; [congruence|]. exfalso.
      assert (shard_window s k = Some w') as Hw by (apply shard_window_Some; eauto).
      apply shard_window_None in Hn; [congruence|done].
    + intros [= ->]. exists (sh_next s). by constructor.
  - rewrite shard_window_Some by done. split; intros [e He]; exists e.
    + apply elem_of_cons in He as [He|He]; [congruence|done].
    + by constructor.
Qed.

Lemma shard_mutate_spec s k w :
  shard_wf s -> is_Some (sh_buckets s !! k) ->
  shard_wf (shard_mutate s k w) /\
  (forall k', shard_window (shard_mutate s k w) k' =
     if bool_decide (k' = k) then Some w else shard_window s k') /\
  shard_keys (shard_mutate s k w) = shard_keys s.
Proof.
  intros Hwf [e He]. unfold shard_mutate. rewrite He.
  pose proof (shard_wf_set_window s e w Hwf) as Hwf'. split_and!; [done| |].
  - intros k'. apply option_eq. intros w'. rewrite shard_window_Some by done. simpl.
    unfold elem_set_window. setoid_rewrite list_elem_of_fmap.
    case_bool_decide as Hk; [subst k'|rewrite shard_window_Some by done]; split.
    + intros (e' & [e2 [k2 w2]] & Heq & Hin). simpl in Heq.
      case_bool_decide as Hd; [congruence|]. injection Heq as _ <- _.
      destruct Hd. by apply (shard_elem_key s k e _ Hwf He Hin).
    + intros [= ->]. pose proof He as He'.
      apply (shwf_map _ Hwf) in He' as ([e2 [k2 w2]] & [= <- ->] & Hin)%list_elem_of_fmap.
      simpl in *. eexists _, _. split; [|exact Hin]. simpl. by rewrite bool_decide_eq_true_2.
    + intros (e' & [e2 [k2 w2]] & Heq & Hin). simpl in Heq.
      case_bool_decide as Hd; [|injection Heq as <- <- <-; by exists e'].
      injection Heq as _ <- _. destruct Hk. by apply (shard_elem_key s k e _ Hwf He Hin).
    + intros [e' Hin]. exists e', (e', mkEntry k' w'). split; [|done]. simpl.
      rewrite bool_decide_eq_false_2; [done|]. intros ->.
      by apply Hk, (shard_elem_key s k e _ Hwf He Hin).
  - unfold shard_keys, elem_set_window. simpl. rewrite <- list_fmap_compose.
    apply list_fmap_ext. intros i x _. simpl. by case_bool_decide.
Qed.

Definition result_of (o : bool * Z * time) (limit : Z) (now : time) : RateLimitResult :=
  mkRLR o.1.1 false limit o.1.2 o.2 (retryAfterSeconds o.1.1 o.2 now).

(** Windows of the other keys after a request for [k]. *)
Definition others_after (s : shard) (k k' : string) : option slidingWindow :=
  if bool_decide (shard_window s k = None /\ lru_victim s = Some k') then None else shard_window s k'.

(** The keys after a request for [k], most recently used first: [k] moves to the
    front, the others keep their order, and a miss in a full shard drops the
    least recently used one. *)
Definition keys_after (s : shard) (k : string) : list string :=
  k :: match shard_window s k with
       | Some _ => filter (fun k' => k' <> k) (shard_keys s)
       | None => filter (fun k' => lru_victim s <> Some k') (shard_keys s)
       end.

Lemma shard_set_miss_spec s k w :
  shard_wf s -> shard_bounded s -> shard_window s k = None ->
  shard_wf (shard_set s k w) /\ shard_bounded (shard_set s k w) /\
  (forall k', shard_window (shard_set s k w) k' =
     if bool_decide (k' = k) then Some w else others_after s k k') /\
  shard_keys (shard_set s k w) = k :: filter (fun k' => lru_victim s <> Some k') (shard_keys s).
Proof.
  intros Hwf Hb Hmiss. unfold shard_set.
  pose proof (proj1 (shard_window_None s k Hwf) Hmiss) as Hk. rewrite Hk.
  destruct (shard_evict_spec s Hwf Hb) as (Hwe & Hwin & Hkeys & Hlen & Hmax).
  assert (sh_buckets (shard_evict s) !! k = None) as Hke.
  { apply shard_window_None; [done|]. rewrite Hwin, Hmiss. by case_bool_decide. }
  split_and!.
  - by apply shard_wf_push.
  - unfold shard_bounded. simpl. lia.
  - intros k'. rewrite shard_push_window by done. case_bool_decide; [done|].
    rewrite Hwin. unfold others_after. repeat case_bool_decide; first [done|tauto].
  - unfold shard_keys at 1. simpl. f_equal. done.
Qed.

Lemma shard_set_size s k w :
  (length (sh_lruList (shard_set s k w)) <= S (length (sh_lruList s)))%nat /\
  sh_maxSize (shard_set s k w) = sh_maxSize s.
Proof.
  unfold shard_set, shard_evict, list_Remove. repeat case_match; simpl;
    unfold elem_set_window; rewrite ?length_fmap, ?length_MoveToFront; split; try done; try lia.
  match goal with |- context [filter ?P ?l] => pose proof (length_filter P l) end. lia.
Qed.

Lemma shard_mutate_size s k w :
  length (sh_lruList (shard_mutate s k w)) = length (sh_lruList s) /\
  sh_maxSize (shard_mutate s k w) = sh_maxSize s.
Proof. unfold shard_mutate. case_match; simpl; [unfold elem_set_window; by rewrite length_fmap|done]. Qed.

Lemma shard_AllowN_spec s k cost limit d now :
  shard_wf s -> shard_bounded s ->
  let w0 := default (new_slidingWindow d) (shard_window s k) in
  let '(o, w1) := tryConsume w0 cost limit now in
  let '(r, s') := shard_AllowN s k cost limit d now in
  r = result_of o limit now /\ shard_wf s' /\ shard_bounded s' /\ shard_window s' k = Some w1 /\
  (forall k', k' <> k -> shard_window s' k' = others_after s k k') /\ shard_keys s' = keys_after s k /\
  (length (sh_lruList s') <= S (length (sh_lruList s)))%nat /\ sh_maxSize s' = sh_maxSize s.
Proof.
  intros Hwf Hb. unfold shard_AllowN.
  pose proof (shard_get_spec s k Hwf) as Hget.
  destruct (shard_get s k) as [found s1].
  destruct Hget as (-> & Hwf1 & Hwin1 & Hbk & Hlen & Hmax & Hhit & Hmiss).
  assert (forall w, shard_window s k = w -> exists s2,
    match w with Some sw => (sw, s1) | None => (new_slidingWindow d, shard_set s1 k (new_slidingWindow d)) end
    = (default (new_slidingWindow d) w, s2) /\ shard_wf s2 /\ shard_bounded s2 /\
    is_Some (sh_buckets s2 !! k) /\ (forall k', k' <> k -> shard_window s2 k' = others_after s k k') /\
    shard_keys s2 = keys_after s k /\ (length (sh_lruList s2) <= S (length (sh_lruList s)))%nat /\
    sh_maxSize s2 = sh_maxSize s) as Hs2.
  { intros [w|] Hw; eexists; (split; [done|]).
    - split_and!; [done|unfold shard_bounded in *; lia| | | |lia|done].
      + rewrite Hbk. apply not_eq_None_Some. rewrite <- shard_window_None by done. congruence.
      + intros k' _. rewrite Hwin1. unfold others_after. rewrite bool_decide_eq_false_2; [done|].
        rewrite Hw. by intros [? _].
      + unfold keys_after. rewrite Hw. apply Hhit. rewrite Hw. eauto.
    - rewrite (Hmiss Hw). destruct (shard_set_miss_spec s k (new_slidingWindow d)) as (H1 & H2 & H3 & H4); [done..|].
      destruct (shard_set_size s k (new_slidingWindow d)) as [H5 H6].
      split_and!; [done..| | |unfold keys_after; by rewrite Hw, H4|done|done].
      + apply not_eq_None_Some. rewrite <- shard_window_None by done. rewrite H3.
        by rewrite bool_decide_eq_true_2.
      + intros k' Hne. rewrite H3. by rewrite bool_decide_eq_false_2. }
  destruct (Hs2 _ eq_refl) as (s2 & -> & Hwf2 & Hb2 & Hk2 & Hwin2 & Hh2 & Hg2 & Hx2).
  destruct (tryConsume _ cost limit now) as [[[allowed remaining] resetAt] sw'].
  destruct (shard_mutate_spec s2 k sw' Hwf2 Hk2) as (Hm1 & Hm2 & Hm3).
  destruct (shard_mutate_size s2 k sw') as [Hm4 Hm5].
  split_and!; try done.
  - unfold shard_bounded. by rewrite Hm4, Hm5.
  - rewrite Hm2. by rewrite bool_decide_eq_true_2.
  - intros k' Hne. rewrite Hm2. rewrite bool_decide_eq_false_2 by done. by apply Hwin2.
  - by rewrite Hm3.
  - by rewrite Hm4.
  - by rewrite Hm5.
Qed.

(** ** The store *)

Record store_wf (st : InMemoryBucketStore) : Prop := {
  stwf_len : Z.of_nat (length (bs_shards st)) = bs_shardCount st;
  stwf_pos : (0 < bs_shardCount st)%Z;
  stwf_shards : Forall (fun sh => shard_wf sh /\ shard_bounded sh) (bs_shards st);
}.

Definition store_window (st : InMemoryBucketStore) (k : string) : option slidingWindow :=
  sh ← getShard st k; shard_window sh k.

Lemma getShard_wf st k :
  store_wf st -> exists sh, getShard st k = Some sh /\ shard_wf sh /\ shard_bounded sh.
Proof.
  intros [Hlen Hpos Hsh]. unfold getShard.
  pose proof (Z.mod_pos_bound (fnv32a k) (bs_shardCount st) Hpos) as Hm.
  destruct (lookup_lt_is_Some_2 (bs_shards st) (shard_index st k)) as [sh Hl].
  { unfold shard_index. lia. }
  rewrite Hl. exists sh. split; [done|]. by eapply Forall_lookup_1 in Hsh.
Qed.

Lemma with_shard_wf st k sh :
  store_wf st -> shard_wf sh -> shard_bounded sh -> store_wf (with_shard st k sh).
Proof.
  intros [Hlen Hpos Hsh] H1 H2. split; simpl; [by rewrite length_insert|done|].
  by apply Forall_insert.
Qed.

Lemma getShard_with_shard st k sh k' :
  store_wf st ->
  getShard (with_shard st k sh) k' =
  if bool_decide (shard_index st k' = shard_index st k) then Some sh else getShard st k'.
Proof.
  intros Hwf. destruct (getShard_wf st k Hwf) as (sh0 & Hg & _).
  unfold getShard in *. change (shard_index (with_shard st k sh) k') with (shard_index st k').
  simpl. case_bool_decide as Hi.
  - rewrite Hi. apply list_lookup_insert_eq. by eapply lookup_lt_Some.
  - by rewrite list_lookup_insert_ne.
Qed.

Lemma apply_options_count st opts :
  bs_shardCount (foldl apply_bucket_option st opts) =
  bs_shardCount (foldl apply_bucket_option (mkBS [] (bs_shardCount st)) opts).
Proof.
  revert st. induction opts as [|o opts IH]; intros st; [done|]. simpl.
  rewrite IH. symmetry. rewrite IH. symmetry. f_equal. f_equal. f_equal.
  destruct o; simpl; [|done]. by case_match.
Qed.

Lemma apply_options_idem c opts :
  let f c := bs_shardCount (foldl apply_bucket_option (mkBS [] c) opts) in f (f c) = f c.
Proof.
  simpl. assert (forall c c', bs_shardCount (foldl apply_bucket_option (mkBS [] c) opts) =
      bs_shardCount (foldl apply_bucket_option (mkBS [] c') opts) \/
      forall c, bs_shardCount (foldl apply_bucket_option (mkBS [] c) opts) = c) as H.
  { induction opts as [|o opts IH]; [by right|]. intros a b. simpl. destruct o as [n|m]; simpl.
    - destruct (0 <? n)%Z eqn:E; [by left|].
      destruct (IH a b) as [?|Hr]; [by left|]. by right.
    - destruct (IH a b) as [?|Hr]; [by left|]. by right. }
  destruct (H c (bs_shardCount (foldl apply_bucket_option (mkBS [] c) opts))) as [Heq|Hr]; [done|].
  by rewrite !Hr.
Qed.

Lemma apply_options_shards st opts :
  Forall (fun sh => sh = newShard (sh_maxSize sh)) (bs_shards st) ->
  Forall (fun sh => sh = newShard (sh_maxSize sh)) (bs_shards (foldl apply_bucket_option st opts)) /\
  length (bs_shards (foldl apply_bucket_option st opts)) = length (bs_shards st).
Proof.
  revert st. induction opts as [|o opts IH]; intros st Hst; [done|]. simpl.
  destruct o as [n|m].
  - destruct (IH (apply_bucket_option st (WithShardCount n))) as [H1 H2].
    { simpl. by case_match. }
    split; [done|]. rewrite H2. simpl. by case_match.
  - destruct (IH (apply_bucket_option st (WithMaxBucketsPerShard m))) as [H1 H2].
    { simpl. apply Forall_fmap. eapply Forall_impl; [exact Hst|].
      intros sh Heq. rewrite Heq. done. }
    split; [done|]. rewrite H2. simpl. by rewrite length_fmap.
Qed.

Lemma Bucket_New_wf opts :
  (0 < bs_shardCount (Bucket_New opts))%Z -> store_wf (Bucket_New opts).
Proof.
  unfold Bucket_New.
  set (c := bs_shardCount (foldl apply_bucket_option (mkBS [] defaultShardCount) opts)).
  intros Hpos.
  assert (bs_shardCount (foldl apply_bucket_option
    (mkBS (replicate (Z.to_nat c) (newShard defaultMaxBuckets)) c) opts) = c) as Hc.
  { rewrite apply_options_count. simpl. apply apply_options_idem. }
  destruct (apply_options_shards (mkBS (replicate (Z.to_nat c) (newShard defaultMaxBuckets)) c) opts)
    as [Hsh Hlen]; [by apply Forall_replicate|].
  simpl in Hlen. rewrite length_replicate in Hlen. rewrite Hc in Hpos.
  split; [rewrite Hc, Hlen; lia|by rewrite Hc|].
  eapply Forall_impl; [exact Hsh|]. intros sh ->. split; [apply newShard_wf|].
  unfold shard_bounded. simpl. lia.
Qed.

Lemma Bucket_AllowN_step st k cost limit d now :
  store_wf st ->
  let c := tryConsume (default (new_slidingWindow d) (store_window st k)) cost limit now in
  exists sh sh', getShard st k = Some sh /\
    Bucket_AllowN st k cost limit d now = Some (result_of c.1 limit now, with_shard st k sh') /\
    store_wf (with_shard st k sh') /\
    store_window (with_shard st k sh') k = Some c.2 /\
    (forall k', k' <> k -> store_window (with_shard st k sh') k' = store_window st k' \/
      (store_window (with_shard st k sh') k' = None /\ store_window st k = None /\ lru_victim sh = Some k')) /\
    getShard (with_shard st k sh') k = Some sh' /\ shard_keys sh' = keys_after sh k /\
    sh_maxSize sh' = sh_maxSize sh.
Proof.
  intros Hwf c. destruct (getShard_wf st k Hwf) as (sh & Hsh & Hw & Hb).
  pose proof (shard_AllowN_spec sh k cost limit d now Hw Hb) as Hspec. cbv zeta in Hspec.
  assert (store_window st k = shard_window sh k) as Hwin by (unfold store_window; by rewrite Hsh).
  exists sh. subst c. unfold Bucket_AllowN. rewrite Hsh, Hwin. simpl.
  destruct (tryConsume _ cost limit now) as [o w1].
  destruct (shard_AllowN sh k cost limit d now) as [r sh'].
  destruct Hspec as (-> & Hw' & Hb' & Hk & Ho & Hks & _ & Hm).
  exists sh'. split_and!; try done.
  - by apply with_shard_wf.
  - unfold store_window. rewrite getShard_with_shard by done. by rewrite bool_decide_eq_true_2.
  - intros k' Hne. unfold store_window. rewrite getShard_with_shard by done.
    case_bool_decide as Hi; [|by left]. simpl. rewrite Ho by done. unfold others_after.
    assert (getShard st k' = Some sh) as ->.
    { unfold getShard in *. by rewrite Hi. }
    simpl. case_bool_decide as Hd; [|by left]. destruct Hd. right. done.
  - rewrite getShard_with_shard by done. by rewrite bool_decide_eq_true_2.
Qed.

(** ** Properties *)

(** C8: A request for a key consults and updates exactly that key's window: the
    store answers with the sliding window's verdict, keeps the new window under
    the key, leaves every other key's window untouched except that a miss in a
    full shard evicts the least recently used key, never panics, and keeps each
    shard's map and list consistent and within its maximum size.  Recency is
    kept: the key moves to the front of its shard's list, the other keys keep
    their order, and only the victim of a miss leaves the list. *)
Theorem Bucket_AllowN_spec (st : InMemoryBucketStore) (k : string) (cost limit : Z)
    (d : duration) (now : time) :
  store_wf st ->
  let c := tryConsume (default (new_slidingWindow d) (store_window st k)) cost limit now in
  exists sh sh' st', getShard st k = Some sh /\ getShard st' k = Some sh' /\
    Bucket_AllowN st k cost limit d now = Some (result_of c.1 limit now, st') /\ store_wf st' /\
    store_window st' k = Some c.2 /\
    (forall k', k' <> k -> store_window st' k' = store_window st k' \/
      (store_window st' k' = None /\ store_window st k = None /\ lru_victim sh = Some k')) /\
    shard_keys sh' = k :: match store_window st k with
                          | Some _ => filter (fun k' => k' <> k) (shard_keys sh)
                          | None => filter (fun k' => lru_victim sh <> Some k') (shard_keys sh)
                          end.
Proof.
  intros Hwf c. destruct (Bucket_AllowN_step st k cost limit d now Hwf)
    as (sh & sh' & H1 & H2 & H3 & H4 & H5 & H6 & H7 & _). exists sh, sh', (with_shard st k sh').
  split_and!; try done. rewrite H7. unfold keys_after, store_window. by rewrite H1.
Qed.

Lemma Bucket_AllowN_spec_witness :
  let st := Bucket_New [WithShardCount 4; WithMaxBucketsPerShard 2] in
  exists sh' st', getShard st' "a" = Some sh' /\ shard_keys sh' = ["a"] /\
    Bucket_AllowN st "a" 1 5 60 7 = Some (result_of (tryConsume (new_slidingWindow 60) 1 5 7).1 5 7, st').
Proof.
  destruct (Bucket_AllowN_spec (Bucket_New [WithShardCount 4; WithMaxBucketsPerShard 2]) "a" 1 5 60 7)
    as (sh & sh' & st' & H1 & H2 & H3 & _ & _ & _ & H4).
  - apply Bucket_New_wf. vm_compute. reflexivity.
  - exists sh', st'. split; [exact H2|]. split; [|exact H3]. rewrite H4.
    vm_compute in H1. injection H1 as <-. vm_compute. reflexivity.
Defined.

(** ** The interface of the bucket stores ([ports.BucketStore])

    What the request limiters rely on: an answer echoes the limit and never
    claims a bypass; a denial leaves nothing and an admission asks for no
    waiting. *)
Class BucketStore (St : Type) := {
  bucket_Allow : string -> Z -> duration -> time -> ST St error RateLimitResult;
}.

Class BucketStoreLaws (St : Type) `{BucketStore St} (inv : St -> Prop) : Prop := {
  bucket_inv : forall k l d now st, inv st -> inv (bucket_Allow k l d now st).2;
  bucket_result : forall k l d now st r, inv st -> (bucket_Allow k l d now st).1 = Ok r ->
    rl_Limit r = l /\ rl_Bypassed r = false /\
    (rl_Allowed r = true -> rl_RetryAfter r = 0%Z) /\ (0 <= rl_RetryAfter r)%Z /\
    (rl_Allowed r = false -> rl_Remaining r = 0%Z);
}.

(** The in-memory store returns no errors; the index panic does not occur in a
    well-formed store. *)
#[global] Instance memory_bucket_store : BucketStore InMemoryBucketStore := {|
  bucket_Allow := fun k l d now st =>
    match Bucket_Allow st k l d now with
    | Some (r, st') => (Ok r, st')
    | None => (Err (EOther "index out of range"), st)
    end;
|}.

Lemma tryConsume_denied sw cost limit now :
  (tryConsume sw cost limit now).1.1.1 = false -> (tryConsume sw cost limit now).1.1.2 = 0%Z.
Proof.
  unfold tryConsume. destruct (countRequestsInWindow _ _ _). by case_match.
Qed.

#[global] Instance memory_bucket_laws : BucketStoreLaws InMemoryBucketStore store_wf.
Proof.
  split; intros k l d now st; unfold bucket_Allow, memory_bucket_store, Bucket_Allow.
  - intros Hwf. by destruct (Bucket_AllowN_step st k 1 l d now Hwf) as (? & ? & _ & -> & ? & _).
  - intros r Hwf. destruct (Bucket_AllowN_step st k 1 l d now Hwf) as (? & ? & _ & -> & ? & _).
    intros [= <-]. unfold result_of, retryAfterSeconds. simpl. split_and!; try done.
    + by intros ->.
    + repeat case_match; bools; lia.
    + apply tryConsume_denied.
Qed.

(** ** Many keys in one store *)

Record bucket_op := mkBOp { bo_key : string; bo_limit : Z; bo_window : duration; bo_now : time }.

Fixpoint store_run (st : InMemoryBucketStore) (ops : list bucket_op)
    : option (list bool * InMemoryBucketStore) :=
  match ops with
  | [] => Some ([], st)
  | op :: ops' =>
      '(r, st') ← Bucket_Allow st (bo_key op) (bo_limit op) (bo_window op) (bo_now op);
      '(oks, st'') ← store_run st' ops';
      Some (rl_Allowed r :: oks, st'')
  end.

(** The requests made for a key, and those of them that were admitted. *)
Definition requests_for (k : string) (ops : list bucket_op) : list request :=
  (fun op => mkReq 1 (bo_limit op) (bo_now op)) <$> filter (fun op => bo_key op = k) ops.

Fixpoint admitted_for (k : string) (ops : list bucket_op) (oks : list bool) : list Z :=
  match ops, oks with
  | op :: ops', ok :: oks' =>
      (if bool_decide (bo_key op = k) && ok then [bo_now op] else []) ++ admitted_for k ops' oks'
  | _, _ => []
  end.

(** The clock does not run backwards and the limits fit the window's buffer. *)
Fixpoint ops_ok (last : Z) (ops : list bucket_op) : bool :=
  match ops with
  | [] => true
  | op :: ops' => (last <=? bo_now op)%Z && req_ok (mkReq 1 (bo_limit op) (bo_now op)) && ops_ok (bo_now op) ops'
  end.

(** Traffic of at most [M] requests in every period of length [w]. *)
Definition traffic_within (w : duration) (M : Z) (times : list Z) : Prop :=
  forall t, (Z.of_nat (length (in_period w t times)) <= M)%Z.

(** The number of requests at or after [t0]. *)
Definition count_since (t0 : Z) (times : list Z) : nat := length (filter (fun t => t0 <= t)%Z times).

Lemma in_period_since w t t0 times :
  (t - w < t0)%Z -> Forall (fun x => x <= t)%Z times -> (count_since t0 times <= length (in_period w t times))%nat.
Proof.
  intros Ht Hp. unfold count_since, in_period. induction Hp as [|x l Hx Hp IH]; [done|].
  rewrite !filter_cons. repeat case_decide; simpl; lia.
Qed.

(** A key that survives a filter moves towards the front. *)
Lemma lookup_filter_le {A} (P : A -> Prop) `{forall x, Decision (P x)} (l : list A) i x :
  l !! i = Some x -> P x -> exists j, (j <= i)%nat /\ filter P l !! j = Some x.
Proof.
  intros Hi Hx. revert i Hi. induction l as [|y l IH]; intros [|i] Hi; simplify_eq/=.
  - exists 0%nat. rewrite filter_cons_True by done. done.
  - destruct (IH i Hi) as (j & Hj & Hf). rewrite filter_cons. case_decide.
    + exists (S j). split; [lia|done].
    + exists j. split; [lia|done].
Qed.

(** How far a key of the store has aged: it is held at a position of its shard's
    list below the number of requests since its own last one. *)
Definition key_age (st : InMemoryBucketStore) (k : string) (n : nat) : Prop :=
  exists sh i, getShard st k = Some sh /\ shard_keys sh !! i = Some k /\ (i < n)%nat.

Lemma victim_age sh k i M :
  shard_wf sh -> (M <= sh_maxSize sh)%Z -> lru_victim sh = Some k -> shard_keys sh !! i = Some k ->
  (M <= Z.of_nat (S i))%Z.
Proof.
  intros Hwf HM Hv Hi. unfold lru_victim in Hv.
  destruct (Z.leb_spec (sh_maxSize sh) (Z.of_nat (length (sh_lruList sh)))); [|done].
  assert (NoDup (shard_keys sh)) as Hnd.
  { pose proof (shwf_keys _ Hwf) as Hk. unfold shard_keys. by rewrite <- list_fmap_compose in Hk. }
  assert (shard_keys sh !! pred (length (shard_keys sh)) = Some k) as Hl.
  { rewrite <- last_lookup. unfold shard_keys. by rewrite fmap_last. }
  pose proof (NoDup_lookup _ _ _ _ Hnd Hi Hl) as ->. unfold shard_keys. rewrite length_fmap. lia.
Qed.
(** Every shard may hold [M] keys. *)
Definition store_capacity (st : InMemoryBucketStore) (M : Z) : Prop :=
  Forall (fun sh => M <= sh_maxSize sh)%Z (bs_shards st).

Lemma key_age_other st k sh' k' n sh :
  store_wf st -> k' <> k -> getShard st k' = Some sh ->
  getShard (with_shard st k' sh') k' = Some sh' -> shard_keys sh' = keys_after sh k' ->
  key_age st k n ->
  key_age (with_shard st k' sh') k (S n) \/
  (getShard st k = Some sh /\ lru_victim sh = Some k /\ shard_window sh k' = None).
Proof.
  intros Hwf Hne Hg Hg' Hks (sh0 & i & Hk & Hi & Hn).
  destruct (decide (shard_index st k = shard_index st k')) as [Heq|Hd].
  - assert (sh0 = sh) as -> by (unfold getShard in *; rewrite Heq in Hk; congruence).
    assert (forall P `{forall x, Decision (P x)}, P k -> keys_after sh k' = k' :: filter P (shard_keys sh) ->
      key_age (with_shard st k' sh') k (S n)) as Hstep.
    { intros P HP Hpk Hf. destruct (lookup_filter_le P (shard_keys sh) i k Hi Hpk) as (j & Hj & Hl).
      exists sh', (S j). rewrite getShard_with_shard, bool_decide_eq_true_2 by done.
      rewrite Hks, Hf. split_and!; [done..|lia]. }
    unfold keys_after in Hstep. destruct (shard_window sh k') eqn:Hw.
    + left. eapply (Hstep (fun x => x <> k')); done.
    + destruct (decide (lru_victim sh = Some k)); [by right|].
      left. eapply (Hstep (fun x => lru_victim sh <> Some x)); done.
  - left. exists sh0, i. rewrite getShard_with_shard, bool_decide_eq_false_2 by done.
    split_and!; [done..|lia].
Qed.

Lemma count_since_pos t0 hist last :
  Forall (fun t => t <= last)%Z hist -> (0 < count_since t0 hist)%nat -> (t0 <= last)%Z.
Proof.
  unfold count_since. induction 1 as [|x l Hx Hl IH]; simpl; [lia|].
  rewrite filter_cons. case_decide; [lia|]. apply IH.
Qed.

(** A window all of whose entries have expired is as good as a new one. *)
Lemma expired_rep w now log sw :
  sw_rep w now log sw -> Forall (fun t => t <= now - w)%Z log -> sw_rep w now log (new_slidingWindow w).
Proof.
  intros [_ _ Hs Hp _] Hexp. destruct (new_slidingWindow_rep w now) as [Hwf Hw _ _ _].
  split; try done. exists log. by rewrite app_nil_r.
Qed.

(** The window a store keeps for [k] represents the log of the requests it
    admitted, also after an eviction: by then all of them have left the window. *)
Record key_inv (w M last : Z) (k : string) (log hist : list Z) (st : InMemoryBucketStore) : Prop := {
  ki_wf : store_wf st;
  ki_cap : store_capacity st M;
  ki_rep : sw_rep w last log (default (new_slidingWindow w) (store_window st k));
  ki_hist : Forall (fun t => t <= last)%Z hist;
  ki_age : Forall (fun t => t <= last - w)%Z log \/
    exists t0, Forall (fun t => t <= t0)%Z log /\ key_age st k (count_since t0 hist);
}.

Lemma count_since_snoc t0 hist t :
  (t0 <= t)%Z -> count_since t0 (hist ++ [t]) = S (count_since t0 hist).
Proof.
  intros Ht. unfold count_since. rewrite filter_app, length_app, filter_cons_True by done. simpl. lia.
Qed.

Lemma key_age_window st k n : store_wf st -> key_age st k n -> store_window st k <> None.
Proof.
  intros Hwf (sh & i & Hk & Hi & _). destruct (getShard_wf st k Hwf) as (sh1 & Hk1 & Hw1 & _).
  simplify_eq. unfold store_window. rewrite Hk. simpl. rewrite shard_window_None by done.
  apply list_elem_of_lookup_2 in Hi. apply list_elem_of_fmap in Hi as ([e x] & -> & Hx).
  simpl. assert (sh_buckets sh !! le_key x = Some e) as ->; [|done].
  apply (shwf_map _ Hw1), list_elem_of_fmap. by exists (e, x).
Qed.

Lemma traffic_prefix w M l l' : traffic_within w M (l ++ l') -> traffic_within w M l.
Proof.
  intros Htr t. specialize (Htr t). unfold in_period in *. rewrite filter_app, length_app in Htr. lia.
Qed.

(** After a request for another key: either all of the log has expired, or the
    key is still held and one request older. *)
Lemma key_age_step w M last k log hist st k' now sh sh' :
  Forall (fun t => t <= last - w)%Z log \/
    (exists t0, Forall (fun t => t <= t0)%Z log /\ key_age st k (count_since t0 hist)) ->
  store_wf st -> (M <= sh_maxSize sh)%Z -> k' <> k -> (last <= now)%Z ->
  Forall (fun t => t <= last)%Z hist -> traffic_within w M (hist ++ [now]) ->
  getShard st k' = Some sh -> getShard (with_shard st k' sh') k' = Some sh' ->
  shard_keys sh' = keys_after sh k' ->
  Forall (fun t => t <= now - w)%Z log \/
    (exists t0, Forall (fun t => t <= t0)%Z log /\
       key_age (with_shard st k' sh') k (count_since t0 (hist ++ [now]))).
Proof.
  intros [Hexp|(t0 & Hlog & Hage)] Hwf HM Hne Hle Hhist Htr Hg Hg' Hks.
  { left. eapply Forall_impl; [exact Hexp|]. simpl. lia. }
  assert (t0 <= last)%Z as Ht0.
  { destruct Hage as (_ & i & _ & _ & Hi). eapply count_since_pos; [done|lia]. }
  destruct (key_age_other st k sh' k' _ sh Hwf Hne Hg Hg' Hks Hage) as [Ha|(Hk & Hv & _)].
  { right. exists t0. rewrite count_since_snoc by lia. done. }
  left. destruct (getShard_wf st k Hwf) as (sh1 & Hk1 & Hw1 & _). destruct Hage as (sh2 & i & Hk2 & Hi & Hlt).
  simplify_eq. pose proof (victim_age _ _ _ _ Hw1 HM Hv Hi) as Hi'. specialize (Htr now).
  destruct (decide (now - w < t0)%Z) as [Hin|Hout].
  - assert (Forall (fun x => x <= now)%Z (hist ++ [now])) as Hp.
    { apply Forall_app. split; [|by repeat constructor]. eapply Forall_impl; [exact Hhist|]. simpl. lia. }
    pose proof (in_period_since w now t0 _ Hin Hp) as Hc. rewrite count_since_snoc in Hc by lia. lia.
  - eapply Forall_impl; [exact Hlog|]. simpl. lia.
Qed.

Lemma key_inv_step w M last k log hist st k' l d now :
  key_inv w M last k log hist st -> sane_window w = true -> (last <= now)%Z ->
  req_ok (mkReq 1 l now) = true -> (k' = k -> d = w) -> traffic_within w M (hist ++ [now]) ->
  exists r st', Bucket_Allow st k' l d now = Some (r, st') /\
    let c := log_consume w log 1 l now in
    (k' = k -> rl_Allowed r = c.1.1.1) /\
    key_inv w M now k (if bool_decide (k' = k) then c.2 else log) (hist ++ [now]) st'.
Proof.
  intros [Hwf Hcap Hrep Hhist Hage] Hw Hle Hok Hd Htr.
  destruct (Bucket_AllowN_step st k' 1 l d now Hwf) as (sh & sh' & Hg & Hal & Hwf' & Hk' & Ho & Hg' & Hks & Hmax).
  assert (M <= sh_maxSize sh)%Z as HM by (by eapply Forall_lookup_1 in Hcap; [|exact Hg]).
  assert (store_capacity (with_shard st k' sh') M) as Hcap'.
  { apply Forall_insert; [done|]. simpl. lia. }
  assert (Forall (fun t => t <= now)%Z (hist ++ [now])) as Hhist'.
  { apply Forall_app. split; [|by repeat constructor]. eapply Forall_impl; [exact Hhist|]. simpl. lia. }
  eexists _, _. split; [exact Hal|]. cbv zeta.
  case_bool_decide as Heq.
  - subst k'. rewrite (Hd eq_refl) in *.
    destruct (tryConsume_refines w last log _ 1 l now Hle Hok Hw Hrep) as [Hc Hrep'].
    split; [intros _; by rewrite <- Hc|]. split; try done; [by rewrite Hk'|].
    right. exists now. split; [apply (rep_past _ _ _ _ Hrep')|].
    exists sh', 0%nat. split_and!; [done|by rewrite Hks|]. rewrite count_since_snoc by lia. lia.
  - split; [done|]. apply (sw_rep_advance _ _ _ _ _ Hle) in Hrep.
    destruct (key_age_step w M last k log hist st k' now sh sh' Hage) as [Hexp|Ha]; try done.
    + split; try done; [|by left].
      destruct (Ho k) as [->|[-> _]]; [done..|]. by eapply expired_rep.
    + split; try done; [|by right].
      destruct (Ho k) as [->|[Hn _]]; [done..|].
      destruct Ha as (t0 & _ & Ha). by destruct (key_age_window _ _ _ Hwf' Ha).
Qed.

Lemma store_run_key w M last k log hist st ops :
  key_inv w M last k log hist st -> sane_window w = true -> ops_ok last ops = true ->
  Forall (fun op => bo_key op = k -> bo_window op = w) ops ->
  traffic_within w M (hist ++ (bo_now <$> ops)) ->
  exists oks st', store_run st ops = Some (oks, st') /\
    admitted_for k ops oks = accepted (requests_for k ops) (log_run w log (requests_for k ops)).1.
Proof.
  intros Hinv Hs. revert last log hist st Hinv.
  induction ops as [|[k' l d now] ops IH]; intros last log hist st Hinv Hok Hw Htr.
  { by exists [], st. }
  apply Forall_cons in Hw as [Hw0 Hw]. cbn [ops_ok bo_key bo_limit bo_window bo_now] in *.
  rewrite !andb_true_iff in Hok. destruct Hok as [[Hle Hr] Hok]. bools.
  rewrite fmap_cons, cons_middle, app_assoc in Htr. cbn [bo_now] in Htr.
  destruct (key_inv_step w M last k log hist st k' l d now Hinv Hs Hle Hr Hw0)
    as (r & st1 & Hal & Hallow & Hinv').
  { by eapply traffic_prefix. }
  destruct (IH _ _ _ _ Hinv' Hok Hw Htr) as (oks & st' & Hrun & Hacc).
  cbn [store_run bo_key bo_limit bo_window bo_now]. rewrite Hal. simpl. rewrite Hrun. simpl.
  eexists _, _. split; [done|]. cbn [admitted_for bo_key bo_now]. rewrite Hacc. clear IH Hrun Hacc.
  unfold requests_for. rewrite filter_cons. simpl.
  case_bool_decide as Hk; [|by rewrite decide_False]. rewrite decide_True by done.
  rewrite (Hallow Hk). simpl. destruct (log_consume w log 1 l now) as [o log'] eqn:E. simpl.
  destruct (log_run w log' _) as [os sw'']. simpl. by destruct (o.1.1).
Qed.

Lemma ops_ok_clock k last ops : ops_ok last ops = true -> clock_ok last (requests_for k ops) = true.
Proof.
  revert last. induction ops as [|op ops IH]; intros last; [done|]. cbn [ops_ok].
  rewrite !andb_true_iff. intros [[Hle Hr] Hok]. bools. specialize (IH _ Hok).
  unfold requests_for in *. rewrite filter_cons. case_decide.
  - rewrite fmap_cons. cbn [clock_ok req_now]. rewrite Hr, IH, andb_true_r. simpl. lia.
  - destruct (_ <$> filter _ ops) as [|r rs]; [done|]. cbn [clock_ok] in *.
    rewrite !andb_true_iff in *. destruct IH as [[H1 H2] H3]. bools. split_and!; [|done..]. lia.
Qed.

Lemma Bucket_New_window opts k :
  (0 < bs_shardCount (Bucket_New opts))%Z -> store_window (Bucket_New opts) k = None.
Proof.
  intros Hpos. pose proof (Bucket_New_wf opts Hpos) as Hwf.
  unfold store_window. destruct (getShard_wf _ k Hwf) as (sh & Hg & _). rewrite Hg. simpl.
  unfold getShard, Bucket_New in Hg. unfold shard_window.
  destruct (apply_options_shards (mkBS (replicate (Z.to_nat (bs_shardCount (foldl apply_bucket_option
    (mkBS [] defaultShardCount) opts))) (newShard defaultMaxBuckets)) (bs_shardCount
    (foldl apply_bucket_option (mkBS [] defaultShardCount) opts))) opts) as [Hnew _];
    [by apply Forall_replicate|].
  eapply Forall_lookup_1 in Hnew; [|exact Hg]. simpl in Hnew. rewrite Hnew. done.
Qed.

Lemma store_key_bounded (opts : list BucketOption) (ops : list bucket_op)
    (k : string) (w : duration) (L M : Z) (t : time) :
  (0 < bs_shardCount (Bucket_New opts))%Z -> store_capacity (Bucket_New opts) M ->
  sane_window w = true -> (0 <= L)%Z -> ops_ok 0 ops = true ->
  traffic_within w M (bo_now <$> ops) ->
  Forall (fun op => bo_key op = k -> bo_window op = w /\ (bo_limit op <= L)%Z) ops ->
  exists oks st', store_run (Bucket_New opts) ops = Some (oks, st') /\
    (Z.of_nat (length (in_period w t (admitted_for k ops oks))) <= L)%Z.
Proof.
  intros Hpos Hcap Hw HL Hc Htr Hops. pose proof (Bucket_New_wf opts Hpos) as Hwf.
  destruct (store_run_key w M 0 k [] [] (Bucket_New opts) ops) as (oks & st' & Hrun & Hacc); try done.
  { split; try done; [rewrite Bucket_New_window by done; apply new_slidingWindow_rep|by left]. }
  { eapply Forall_impl; [exact Hops|]. simpl. intuition. }
  exists oks, st'. split; [done|]. rewrite Hacc.
  pose proof (log_run_accepted w [] (requests_for k ops)) as Ha. simpl in Ha. rewrite <- Ha.
  apply (log_run_bounded w L 0); [by apply ops_ok_clock| |done|].
  - unfold requests_for. apply Forall_fmap, Forall_forall. intros op [Hk Hin]%list_elem_of_filter.
    rewrite Forall_forall in Hops. by apply (Hops op Hin).
  - intros u. simpl. lia.
Qed.

(** Limits hold for every key of the store at once: however the requests for
    different keys interleave, and although the shards evict, every period of a
    key's window contains at most [L] admitted requests for that key, provided no
    period of that length sees more than [M] requests for all the keys together,
    where [M] is at most a shard's capacity. *)
Theorem store_never_exceeds_limit (opts : list BucketOption) (ops : list bucket_op)
    (k : string) (w : duration) (L M : Z) (t : time) :
  (0 < bs_shardCount (Bucket_New opts))%Z -> store_capacity (Bucket_New opts) M ->
  sane_window w = true -> (0 <= L)%Z -> ops_ok 0 ops = true ->
  traffic_within w M (bo_now <$> ops) ->
  Forall (fun op => bo_key op = k -> bo_window op = w /\ (bo_limit op <= L)%Z) ops ->
  exists oks st', store_run (Bucket_New opts) ops = Some (oks, st') /\
    (Z.of_nat (length (in_period w t (admitted_for k ops oks))) <= L)%Z.
Proof. apply store_key_bounded. Qed.

(** A short history is within any larger traffic. *)
Lemma traffic_short w M times : (Z.of_nat (length times) <= M)%Z -> traffic_within w M times.
Proof. intros Hl t. unfold in_period. pose proof (length_filter (fun x => t - w < x <= t)%Z times). lia. Qed.

Lemma store_never_exceeds_limit_witness :
  let ops := [mkBOp "a" 1 100 5; mkBOp "b" 1 100 6; mkBOp "a" 1 100 7] in
  exists oks st', store_run (Bucket_New [WithShardCount 2]) ops = Some (oks, st') /\
    (Z.of_nat (length (in_period 100 7 (admitted_for "a" ops oks))) <= 1)%Z.
Proof.
  apply (store_never_exceeds_limit _ _ _ _ _ 3).
  - vm_compute. reflexivity.
  - repeat constructor; vm_compute; congruence.
  - reflexivity.
  - lia.
  - reflexivity.
  - apply traffic_short. simpl. lia.
  - repeat constructor; simpl; intros; congruence || lia.
Defined.
