(* ===== verification/Lockout.v ===== *)
(** * Authentication lockout
    [internal/ratelimit/models/models.go] ([AuthLockout], [BackoffPolicy]),
    [internal/ratelimit/config/config.go], the in-memory store
    [internal/ratelimit/store/authlockout/store_memory.go] and the service
    [internal/ratelimit/service/authlockout/service.go]

    Failures are counted per identity and address.  The specification of the
    service is a counter of the failures since the last successful login. *)
From S2P Require Import Prelude Errors Keys BucketStore.
Open Scope Z_scope.

(** ** Domain *)

Record AuthLockout := mkLockout {
  al_Identifier : string;
  al_FailureCount : Z;
  al_DailyFailures : Z;
  al_LockedUntil : option time;
  al_LastFailureAt : time;
  al_RequiresCaptcha : bool;
}.

(** [&models.AuthLockout{}]. *)
Definition zero_lockout : AuthLockout := mkLockout "" 0 0 None zero_time false.

Record BackoffPolicy := mkBackoff {
  bp_Base : duration;
  bp_Cap : duration;
  bp_WindowDuration : duration;
}.

Definition NewBackoffPolicy (base cap windowDuration : duration) : BackoffPolicy :=
  mkBackoff base cap windowDuration.

Definition DefaultBackoffPolicy : BackoffPolicy :=
  mkBackoff (250 * Millisecond) Second (15 * Minute).

(** The shift and the product are 64-bit and wrap around. *)
Definition CalculateBackoff (p : BackoffPolicy) (failureCount : Z) : duration :=
  if (failureCount <=? 0) || (bp_Base p =? 0) then 0
  else
    let delay := wrap64 (bp_Base p * wrap64 (Z.shiftl 1 (failureCount - 1))) in
    if bp_Cap p <? delay then bp_Cap p else delay.

Definition ResetTime (p : BackoffPolicy) (lastFailureAt : time) : time :=
  time_Add lastFailureAt (bp_WindowDuration p).

Definition NewAuthLockout (identifier : string) (now : time) : res AuthLockout :=
  if str_empty identifier then Err (New CodeInvariantViolation "identifier cannot be empty")
  else Ok (mkLockout identifier 0 0 None now false).

Definition AuthLockout_IsLockedAt (l : AuthLockout) (now : time) : bool :=
  match al_LockedUntil l with None => false | Some u => time_Before now u end.

Definition AuthLockout_RecordFailure (l : AuthLockout) (now : time) : AuthLockout :=
  mkLockout (al_Identifier l) (al_FailureCount l + 1) (al_DailyFailures l + 1)
    (al_LockedUntil l) now (al_RequiresCaptcha l).

Definition AuthLockout_ShouldHardLock (l : AuthLockout) (threshold : Z) : bool :=
  threshold <=? al_FailureCount l.

Definition AuthLockout_ApplyHardLock (l : AuthLockout) (d : duration) (now : time) : AuthLockout :=
  mkLockout (al_Identifier l) (al_FailureCount l) (al_DailyFailures l)
    (Some (time_Add now d)) (al_LastFailureAt l) (al_RequiresCaptcha l).

Definition AuthLockout_ShouldRequireCaptcha (l : AuthLockout) (threshold : Z) : bool :=
  threshold <=? al_DailyFailures l.

Definition AuthLockout_MarkRequiresCaptcha (l : AuthLockout) : AuthLockout :=
  mkLockout (al_Identifier l) (al_FailureCount l) (al_DailyFailures l)
    (al_LockedUntil l) (al_LastFailureAt l) true.

Definition AuthLockout_Clear (l : AuthLockout) : AuthLockout :=
  mkLockout (al_Identifier l) 0 (al_DailyFailures l) None (al_LastFailureAt l) (al_RequiresCaptcha l).

Definition AuthLockout_RemainingAttempts (l : AuthLockout) (limit : Z) : Z :=
  let remaining := limit - al_FailureCount l in
  if remaining <? 0 then 0 else remaining.

Definition AuthLockout_IsAttemptLimitReached (l : AuthLockout) (limit : Z) : bool :=
  limit <=? al_FailureCount l.

(** ** Configuration *)

Record AuthLockoutConfig := mkLockoutCfg {
  lc_AttemptsPerWindow : Z;
  lc_WindowDuration : duration;
  lc_HardLockThreshold : Z;
  lc_HardLockDuration : duration;
  lc_CaptchaAfterLockouts : Z;
  lc_ProgressiveBackoffBase : duration;
}.

Definition DefaultAuthLockoutConfig : AuthLockoutConfig :=
  mkLockoutCfg 5 (15 * Minute) 10 (15 * Minute) 3 (250 * Millisecond).

Definition config_BackoffPolicy (c : AuthLockoutConfig) : BackoffPolicy :=
  let base := lc_ProgressiveBackoffBase c in
  let base := if base =? 0 then 250 * Millisecond else base in
  NewBackoffPolicy base Second (lc_WindowDuration c).

Definition config_CalculateBackoff (c : AuthLockoutConfig) (failureCount : Z) : duration :=
  CalculateBackoff (config_BackoffPolicy c) failureCount.

(** ** The in-memory store

    The map holds pointers and the service mutates the record it got; the
    record is therefore written back at every assignment. *)

Record LockState := mkLS {
  lk_records : gmap string AuthLockout;
  lk_audit : list (string * string);  (* event and identifier, oldest first *)
}.

Abbreviation LK A := (ST LockState error A) (only parsing).

Definition lk_put (key : string) (r : AuthLockout) : LK unit :=
  st_modify (fun s => mkLS (<[key := r]> (lk_records s)) (lk_audit s)).
Definition lk_LogAudit (event identifier : string) : LK unit :=
  st_modify (fun s => mkLS (lk_records s) (lk_audit s ++ [(event, identifier)])).

Definition lockstore_Get (key : string) : LK (option AuthLockout) :=
  st_gets (fun s => lk_records s !! key).

Definition lockstore_GetOrCreate (key : string) (now : time) : LK AuthLockout :=
  existing ← st_gets (fun s => lk_records s !! key);
  match existing with
  | Some r => mret r
  | None =>
      let record := mkLockout key 0 0 None now false in
      lk_put key record;; mret record
  end.

Definition lockstore_Clear (key : string) : LK unit :=
  st_modify (fun s => mkLS (delete key (lk_records s)) (lk_audit s)).

Definition lockstore_Update (r : AuthLockout) : LK unit := lk_put (al_Identifier r) r.

(** The clean-up loops: every record last touched before the cut-off is reset;
    the result is the number of failures forgotten. *)
Definition reset_failures (cutoff : time) (r : AuthLockout) : AuthLockout :=
  if time_Before (al_LastFailureAt r) cutoff
  then mkLockout (al_Identifier r) 0 (al_DailyFailures r) (al_LockedUntil r)
         (al_LastFailureAt r) (al_RequiresCaptcha r)
  else r.

Definition reset_daily (cutoff : time) (r : AuthLockout) : AuthLockout :=
  if time_Before (al_LastFailureAt r) cutoff
  then mkLockout (al_Identifier r) (al_FailureCount r) 0 (al_LockedUntil r)
         (al_LastFailureAt r) (al_RequiresCaptcha r)
  else r.

Definition lockstore_ResetFailureCount (cutoff : time) : LK Z :=
  n ← st_gets (fun s => map_fold (fun _ r n =>
    if time_Before (al_LastFailureAt r) cutoff then n + al_FailureCount r else n) 0 (lk_records s));
  st_modify (fun s => mkLS (reset_failures cutoff <$> lk_records s) (lk_audit s));;
  mret n.

Definition lockstore_ResetDailyFailures (cutoff : time) : LK Z :=
  n ← st_gets (fun s => map_fold (fun _ r n =>
    if time_Before (al_LastFailureAt r) cutoff then n + al_DailyFailures r else n) 0 (lk_records s));
  st_modify (fun s => mkLS (reset_daily cutoff <$> lk_records s) (lk_audit s));;
  mret n.

(** ** The service *)

Record AuthRateLimitResult := mkARL {
  arl_Result : RateLimitResult;
  arl_RequiresCaptcha : bool;
  arl_FailureCount : Z;
}.

Definition buildAuthResult (allowed : bool) (limit remaining retryAfter : Z) (resetAt : time)
    (record : AuthLockout) : AuthRateLimitResult :=
  mkARL (mkRLR allowed false limit remaining resetAt retryAfter)
    (al_RequiresCaptcha record) (al_FailureCount record).

Definition lockout_key (identifier ip : string) : string :=
  RateLimitKey_String (NewAuthLockoutKey identifier ip).

Section service.
Variable cfg : AuthLockoutConfig.

Definition GetProgressiveBackoff (failureCount : Z) : duration :=
  config_CalculateBackoff cfg failureCount.

Definition Lockout_Check (identifier ip : string) (now : time) : LK AuthRateLimitResult :=
  failureRecord ← lockstore_Get (lockout_key identifier ip);
  let record := default zero_lockout failureRecord in
  if AuthLockout_IsLockedAt record now then
    let until := default zero_time (al_LockedUntil record) in
    let retryAfter := Z.max (int_Seconds (time_Sub until now)) 0 in
    lk_LogAudit "auth_lockout_triggered" identifier;;
    mret (buildAuthResult false 0 0 retryAfter until record)
  else if AuthLockout_IsAttemptLimitReached record (lc_AttemptsPerWindow cfg) then
    let resetAt := ResetTime (config_BackoffPolicy cfg) (al_LastFailureAt record) in
    let retryAfter := Z.max (int_Seconds (time_Sub resetAt now)) 0 in
    mret (buildAuthResult false 0 0 retryAfter resetAt record)
  else
    let delay := GetProgressiveBackoff (al_FailureCount record) in
    let remaining := Z.min (AuthLockout_RemainingAttempts record (lc_AttemptsPerWindow cfg))
                       (lc_AttemptsPerWindow cfg) in
    mret (buildAuthResult true (lc_AttemptsPerWindow cfg) remaining (int_Milliseconds delay)
            (time_Add now (lc_WindowDuration cfg)) record).

Definition recordFailureNonAtomic (key identifier : string) (now : time) : LK AuthLockout :=
  current ← lockstore_GetOrCreate key now;
  let current := AuthLockout_RecordFailure current now in
  let shouldHardLock := AuthLockout_ShouldHardLock current (lc_HardLockThreshold cfg) in
  let shouldRequireCaptcha :=
    AuthLockout_ShouldRequireCaptcha current (lc_CaptchaAfterLockouts cfg) &&
    negb (al_RequiresCaptcha current) in
  let current := if shouldHardLock
    then AuthLockout_ApplyHardLock current (lc_HardLockDuration cfg) now else current in
  let current := if shouldRequireCaptcha then AuthLockout_MarkRequiresCaptcha current else current in
  lockstore_Update current;;
  (if shouldHardLock then lk_LogAudit "auth_lockout_triggered" identifier else mret tt);;
  mret current.

Definition Lockout_RecordFailure (identifier ip : string) (now : time) : LK AuthLockout :=
  recordFailureNonAtomic (lockout_key identifier ip) identifier now.

Definition Lockout_Clear (identifier ip : string) : LK unit :=
  lockstore_Clear (lockout_key identifier ip);;
  lk_LogAudit "auth_lockout_cleared" identifier.

(** ** Histories *)

Inductive lock_op :=
| OpFail (identifier ip : string) (now : time)
| OpCheck (identifier ip : string) (now : time)
| OpClear (identifier ip : string)
| OpResetFailures (cutoff : time)
| OpResetDaily (cutoff : time).

Definition lock_step (s : LockState) (op : lock_op) : LockState :=
  match op with
  | OpFail i ip now => (Lockout_RecordFailure i ip now s).2
  | OpCheck i ip now => (Lockout_Check i ip now s).2
  | OpClear i ip => (Lockout_Clear i ip s).2
  | OpResetFailures c => (lockstore_ResetFailureCount c s).2
  | OpResetDaily c => (lockstore_ResetDailyFailures c s).2
  end.

Definition lock_run (ops : list lock_op) : LockState := foldl lock_step (mkLS ∅ []) ops.

(** ** Specification: one counter per identity and address

    The failures since the last login or clean-up, the time of the last one,
    and the end of the hard lock. *)

Record lock_spec := mkSpec { sp_count : Z; sp_last : time; sp_lock : option time }.

Definition spec_step (i ip : string) (c : option lock_spec) (op : lock_op) : option lock_spec :=
  match op with
  | OpFail i' ip' now =>
      if bool_decide (i' = i /\ ip' = ip) then
        let n := default 0 (sp_count <$> c) + 1 in
        Some (mkSpec n now
          (if lc_HardLockThreshold cfg <=? n then Some (now + lc_HardLockDuration cfg)
           else c ≫= sp_lock))
      else c
  | OpClear i' ip' => if bool_decide (i' = i /\ ip' = ip) then None else c
  | OpResetFailures cutoff =>
      (fun c => mkSpec (if sp_last c <? cutoff then 0 else sp_count c) (sp_last c) (sp_lock c)) <$> c
  | OpCheck _ _ _ | OpResetDaily _ => c
  end.

Definition spec_run (i ip : string) (ops : list lock_op) : option lock_spec :=
  foldl (spec_step i ip) None ops.

Definition spec_failures (i ip : string) (ops : list lock_op) : Z :=
  default 0 (sp_count <$> spec_run i ip ops).

Definition spec_locked (i ip : string) (ops : list lock_op) (now : time) : bool :=
  match spec_run i ip ops ≫= sp_lock with Some u => now <? u | None => false end.

(** ** Proofs *)

Definition lock_abs (r : AuthLockout) : lock_spec :=
  mkSpec (al_FailureCount r) (al_LastFailureAt r) (al_LockedUntil r).

Lemma lockout_key_inj i ip i' ip' : lockout_key i ip = lockout_key i' ip' -> i = i' /\ ip = ip'.
Proof.
  intros H. unfold lockout_key, NewAuthLockoutKey, RateLimitKey_String in H. simpl in H.
  injection H as H. apply split_colon in H as [H1 H2]; [|apply sanitize_no_colon..].
  split; by apply sanitize_inj.
Qed.

(** Every record is stored under its own identifier. *)
Definition lock_wf (s : LockState) : Prop :=
  map_Forall (fun k r => al_Identifier r = k) (lk_records s).

Lemma recordFailure_records key i now s :
  lock_wf s ->
  exists r', (recordFailureNonAtomic key i now s).1 = Ok r' /\
  lk_records (recordFailureNonAtomic key i now s).2 = <[key := r']> (lk_records s) /\
  al_Identifier r' = key /\
  lock_abs r' =
    let c := lock_abs <$> lk_records s !! key in
    let n := default 0 (sp_count <$> c) + 1 in
    mkSpec n now (if lc_HardLockThreshold cfg <=? n then Some (now + lc_HardLockDuration cfg)
                  else c ≫= sp_lock).
Proof.
  intros Hwf. unfold recordFailureNonAtomic, lockstore_GetOrCreate, lockstore_Update, lk_put, lk_LogAudit.
  st_unfold. destruct (lk_records s !! key) as [r|] eqn:Hr.
  - specialize (Hwf _ _ Hr). simpl in Hwf.
    destruct r as [ident fc df lu lf rc]. simpl in *. subst ident.
    unfold AuthLockout_ShouldHardLock, AuthLockout_ShouldRequireCaptcha. simpl.
    destruct (lc_HardLockThreshold cfg <=? fc + 1), (lc_CaptchaAfterLockouts cfg <=? df + 1), rc;
      simpl; eexists; split_and!; done.
  - unfold AuthLockout_ShouldHardLock, AuthLockout_ShouldRequireCaptcha. simpl.
    destruct (lc_HardLockThreshold cfg <=? 0 + 1), (lc_CaptchaAfterLockouts cfg <=? 0 + 1);
      simpl; rewrite ?insert_insert_eq; eexists; split_and!; done.
Qed.

Lemma Check_records i ip now s : lk_records (Lockout_Check i ip now s).2 = lk_records s.
Proof. unfold Lockout_Check, lockstore_Get, lk_LogAudit. st_unfold. by repeat case_match. Qed.

Lemma lock_step_spec s op i ip :
  lock_wf s ->
  lock_wf (lock_step s op) /\
  lock_abs <$> lk_records (lock_step s op) !! lockout_key i ip =
  spec_step i ip (lock_abs <$> lk_records s !! lockout_key i ip) op.
Proof.
  intros Hwf. destruct op as [i' ip' now|i' ip' now|i' ip'|c|c]; simpl.
  - destruct (recordFailure_records (lockout_key i' ip') i' now s Hwf) as (r' & _ & Hrec & Hid & Habs).
    unfold Lockout_RecordFailure, lock_wf. rewrite Hrec. split.
    + by apply map_Forall_insert_2.
    + case_bool_decide as Hk.
      * destruct Hk as [-> ->]. rewrite lookup_insert_eq. simpl. by rewrite Habs.
      * rewrite lookup_insert_ne; [done|]. intros [-> ->]%lockout_key_inj. by destruct Hk.
  - unfold lock_wf. by rewrite Check_records.
  - unfold Lockout_Clear, lockstore_Clear, lk_LogAudit. st_unfold. split.
    + unfold lock_wf. simpl. by apply map_Forall_delete.
    + case_bool_decide as Hk.
      * destruct Hk as [-> ->]. by rewrite lookup_delete_eq.
      * rewrite lookup_delete_ne; [done|]. intros [-> ->]%lockout_key_inj. by destruct Hk.
  - unfold lockstore_ResetFailureCount. st_unfold. split.
    + intros k r. simpl. rewrite lookup_fmap. intros (r0 & Hr0 & ->)%fmap_Some.
      unfold reset_failures. specialize (Hwf _ _ Hr0). by case_match.
    + rewrite lookup_fmap. destruct (lk_records s !! lockout_key i ip) as [r|]; [|done]. simpl.
      unfold reset_failures, time_Before. f_equal. by case_match.
  - unfold lockstore_ResetDailyFailures. st_unfold. split.
    + intros k r. simpl. rewrite lookup_fmap. intros (r0 & Hr0 & ->)%fmap_Some.
      unfold reset_daily. specialize (Hwf _ _ Hr0). by case_match.
    + rewrite lookup_fmap. destruct (lk_records s !! lockout_key i ip) as [r|]; [|done]. simpl.
      unfold reset_daily. f_equal. by case_match.
Qed.

Lemma lock_run_spec ops i ip :
  lock_wf (lock_run ops) /\
  lock_abs <$> lk_records (lock_run ops) !! lockout_key i ip = spec_run i ip ops.
Proof.
  unfold lock_run, spec_run. induction ops as [|op ops [IH1 IH2]] using rev_ind.
  - split; [apply map_Forall_empty|done].
  - rewrite !foldl_app. simpl. destruct (lock_step_spec (foldl lock_step (mkLS ∅ []) ops) op i ip IH1)
      as [H1 H2]. split; [done|]. by rewrite H2, IH2.
Qed.

(** [Check] as a function of the abstract record. *)
Lemma Check_result i ip now s :
  exists r, (Lockout_Check i ip now s).1 = Ok r /\
    let c := lock_abs <$> lk_records s !! lockout_key i ip in
    let locked := match c ≫= sp_lock with Some u => now <? u | None => false end in
    let n := default 0 (sp_count <$> c) in
    rl_Allowed (arl_Result r) = negb locked && (n <? lc_AttemptsPerWindow cfg) /\
    arl_FailureCount r = n /\
    (locked = true -> rl_RetryAfter (arl_Result r) =
       Z.max (int_Seconds (time_Sub (default zero_time (c ≫= sp_lock)) now)) 0) /\
    (rl_Allowed (arl_Result r) = true ->
       rl_Remaining (arl_Result r) = Z.min (lc_AttemptsPerWindow cfg - n) (lc_AttemptsPerWindow cfg) /\
       rl_RetryAfter (arl_Result r) = int_Milliseconds (GetProgressiveBackoff n)).
Proof.
  set (rec := lk_records s !! lockout_key i ip). cbv zeta.
  assert (AuthLockout_IsLockedAt (default zero_lockout rec) now =
    match (lock_abs <$> rec) ≫= sp_lock with Some u => now <? u | None => false end) as Hl
    by (by destruct rec as [[? ? ? []]|]).
  assert (al_FailureCount (default zero_lockout rec) = default 0 (sp_count <$> (lock_abs <$> rec))) as Hn
    by (by destruct rec).
  assert (default zero_time (al_LockedUntil (default zero_lockout rec)) =
    default zero_time ((lock_abs <$> rec) ≫= sp_lock)) as Hu by (by destruct rec as [[]|]).
  revert Hl Hn Hu. generalize ((lock_abs <$> rec) ≫= sp_lock).
  generalize (default 0 (sp_count <$> (lock_abs <$> rec))). intros n u Hl Hn Hu.
  unfold Lockout_Check, lockstore_Get, lk_LogAudit. st_unfold. fold rec. rewrite Hl.
  unfold AuthLockout_IsAttemptLimitReached, AuthLockout_RemainingAttempts. rewrite Hn, Hu.
  destruct (match u with Some u => now <? u | None => false end).
  - eexists. split; [done|]. simpl. rewrite Hn. by split_and!.
  - destruct (Z.leb_spec (lc_AttemptsPerWindow cfg) n);
      (eexists; split; [done|]); simpl; rewrite Hn.
    + split_and!; try done. symmetry. by apply Z.ltb_ge.
    + split_and!; try done; [symmetry; by apply Z.ltb_lt|]. intros _. split; [|done].
      f_equal. destruct (Z.ltb_spec (lc_AttemptsPerWindow cfg - n) 0); lia.
Qed.

(** Whatever the failures, checks, logins and clean-ups of all users, an
    attempt is allowed exactly when this identity has fewer failures than
    [AttemptsPerWindow] from this address since its last login or clean-up and is
    not hard-locked; the remaining attempts and the backoff are computed from
    that count.  Other identities and addresses never influence the answer. *)
Theorem Lockout_Check_exact (ops : list lock_op) (i ip : string) (now : time) :
  exists r, (Lockout_Check i ip now (lock_run ops)).1 = Ok r /\
    let n := spec_failures i ip ops in
    rl_Allowed (arl_Result r) =
      negb (spec_locked i ip ops now) && (n <? lc_AttemptsPerWindow cfg) /\
    arl_FailureCount r = n /\
    (rl_Allowed (arl_Result r) = true ->
       rl_Remaining (arl_Result r) = Z.min (lc_AttemptsPerWindow cfg - n) (lc_AttemptsPerWindow cfg) /\
       rl_RetryAfter (arl_Result r) = int_Milliseconds (GetProgressiveBackoff n)).
Proof.
  destruct (Check_result i ip now (lock_run ops)) as (r & Hr & H).
  destruct (lock_run_spec ops i ip) as [_ Hs]. rewrite Hs in H. cbv zeta in H.
  destruct H as (H1 & H2 & H3 & H4). exists r. split; [done|]. unfold spec_failures, spec_locked.
  done.
Qed.

Lemma spec_step_lock_kept i ip c op u :
  (forall i' ip', op <> OpClear i' ip') -> (forall i' ip' n, op <> OpFail i' ip' n) ->
  c ≫= sp_lock = Some u -> spec_step i ip c op ≫= sp_lock = Some u.
Proof.
  intros H1 H2 Hc. destruct op; simpl; try done.
  - by edestruct H2.
  - by edestruct H1.
  - by destruct c.
Qed.

(** The failure that reaches the hard-lock threshold locks the identity out
    until [HardLockDuration] after it: every check before that time is refused
    with the time left, whatever checks and clean-ups run in between; the
    clean-up of failure counts does not lift the lock. *)
Theorem hard_lock_holds (ops later : list lock_op) (i ip : string) (t now : time) :
  lc_HardLockThreshold cfg <= spec_failures i ip ops + 1 ->
  Forall (fun op => (forall i' ip', op <> OpClear i' ip') /\ (forall i' ip' n, op <> OpFail i' ip' n)) later ->
  now < t + lc_HardLockDuration cfg ->
  exists r, (Lockout_Check i ip now (lock_run (ops ++ OpFail i ip t :: later))).1 = Ok r /\
    rl_Allowed (arl_Result r) = false /\
    rl_RetryAfter (arl_Result r) = Z.max (int_Seconds (time_Sub (t + lc_HardLockDuration cfg) now)) 0.
Proof.
  intros Hn Hlater Hnow.
  assert (spec_run i ip (ops ++ OpFail i ip t :: later) ≫= sp_lock = Some (t + lc_HardLockDuration cfg)) as Hl.
  { unfold spec_run. rewrite foldl_app. simpl. rewrite bool_decide_eq_true_2 by done.
    match goal with |- context [foldl _ ?c later] => assert (c ≫= sp_lock = Some (t + lc_HardLockDuration cfg)) as Hc end.
    { simpl. fold (spec_run i ip ops). fold (spec_failures i ip ops).
      by destruct (Z.leb_spec (lc_HardLockThreshold cfg) (spec_failures i ip ops + 1)); [|lia]. }
    revert Hc. match goal with |- ?c ≫= sp_lock = _ -> _ => generalize c end.
    induction Hlater as [|op later [H1 H2] _ IH]; intros c Hc; simpl; [done|].
    apply IH. by apply spec_step_lock_kept. }
  destruct (Check_result i ip now (lock_run (ops ++ OpFail i ip t :: later))) as (r & Hr & H).
  destruct (lock_run_spec (ops ++ OpFail i ip t :: later) i ip) as [_ Hs]. rewrite Hs in H.
  cbv zeta in H. rewrite Hl in H.
  destruct H as (H1 & _ & H3 & _). exists r. split; [done|].
  assert ((now <? t + lc_HardLockDuration cfg) = true) as E by (by apply Z.ltb_lt).
  rewrite E in H1, H3. split; [done|]. by apply H3.
Qed.

End service.

Lemma hard_lock_holds_witness :
  let ops := replicate 9 (OpFail "bob" "10.0.0.1" 0) in
  exists r, (Lockout_Check DefaultAuthLockoutConfig "bob" "10.0.0.1" (5 * Minute)
    (lock_run DefaultAuthLockoutConfig
       (ops ++ OpFail "bob" "10.0.0.1" 0 :: [OpResetFailures (3 * Minute)]))).1 = Ok r /\
    rl_Allowed (arl_Result r) = false.
Proof.
  destruct (hard_lock_holds DefaultAuthLockoutConfig (replicate 9 (OpFail "bob" "10.0.0.1" 0))
    [OpResetFailures (3 * Minute)] "bob" "10.0.0.1" 0 (5 * Minute)) as (r & H1 & H2 & _).
  - vm_compute. discriminate.
  - repeat constructor; intros; discriminate.
  - vm_compute. reflexivity.
  - exists r. exact (conj H1 H2).
Defined.

(** ** Backoff *)

Lemma shiftl_1 n : 1 <= n -> Z.shiftl 1 (n - 1) = 2 ^ (n - 1).
Proof. intros. rewrite Z.shiftl_1_l. done. Qed.

(** The progressive backoff doubles from the base with every failure and is
    capped: as long as the product fits in a [time.Duration] the delay is
    [min Cap (Base * 2^(n-1))], and it is never negative and never above the cap. *)
Theorem CalculateBackoff_spec (p : BackoffPolicy) (n : Z) :
  0 < bp_Base p -> 0 <= bp_Cap p -> 1 <= n -> bp_Base p * 2 ^ (n - 1) <= max_int64 ->
  CalculateBackoff p n = Z.min (bp_Cap p) (bp_Base p * 2 ^ (n - 1)) /\
  0 <= CalculateBackoff p n <= bp_Cap p.
Proof.
  intros Hb Hc Hn Hfit.
  assert (0 < 2 ^ (n - 1)) as Hpos by (apply Z.pow_pos_nonneg; lia).
  assert (CalculateBackoff p n = Z.min (bp_Cap p) (bp_Base p * 2 ^ (n - 1))) as Heq.
  { unfold CalculateBackoff. rewrite shiftl_1 by done.
    destruct (Z.leb_spec n 0); [lia|]. destruct (Z.eqb_spec (bp_Base p) 0); [lia|]. simpl.
    rewrite (wrap64_id (2 ^ (n - 1))) by (unfold min_int64, max_int64 in *; nia).
    rewrite wrap64_id by (unfold min_int64, max_int64 in *; nia).
    destruct (Z.ltb_spec (bp_Cap p) (bp_Base p * 2 ^ (n - 1))); lia. }
  rewrite Heq. split; [done|]. nia.
Qed.

Lemma CalculateBackoff_spec_witness :
  CalculateBackoff DefaultBackoffPolicy 2 = Z.min Second (250 * Millisecond * 2 ^ (2 - 1)).
Proof. apply (CalculateBackoff_spec DefaultBackoffPolicy 2); vm_compute; congruence. Defined.

(** Without that bound the delay is wrong: for the default policy the 37th
    failure gives a negative delay, and from the 65th on the delay is zero. *)
Theorem CalculateBackoff_overflow :
  CalculateBackoff DefaultBackoffPolicy 37 < 0 /\
  CalculateBackoff DefaultBackoffPolicy 65 = 0.
Proof. split; vm_compute; reflexivity. Qed.
