(* ===== verification/Throttle.v ===== *)
(** * The global throttle
    [internal/ratelimit/store/globalthrottle/store_memory.go] and
    [internal/ratelimit/service/globalthrottle/service.go]

    [IncrementGlobal] is lock-free: it reads and updates four atomic counters
    with loads, stores and compare-and-swap.  Each atomic access is one step of
    a thread, and the theorems quantify over every interleaving of any number
    of threads. *)
From S2P Require Import Prelude.
Open Scope Z_scope.

(** The atomic variables and the limits. *)
Record GlobalThrottle := mkGT {
  gt_secondCount : Z;
  gt_secondBucket : Z;
  gt_perSecondLimit : Z;
  gt_hourCount : Z;
  gt_hourBucket : Z;
  gt_perHourLimit : Z;
}.

Inductive ThrottleOption := WithPerSecondLimit (limit : Z) | WithPerHourLimit (limit : Z).

Definition apply_throttle_option (s : GlobalThrottle) (o : ThrottleOption) : GlobalThrottle :=
  match o with
  | WithPerSecondLimit l =>
      mkGT (gt_secondCount s) (gt_secondBucket s) l (gt_hourCount s) (gt_hourBucket s) (gt_perHourLimit s)
  | WithPerHourLimit l =>
      mkGT (gt_secondCount s) (gt_secondBucket s) (gt_perSecondLimit s) (gt_hourCount s) (gt_hourBucket s) l
  end.

Definition Throttle_New (opts : list ThrottleOption) : GlobalThrottle :=
  foldl apply_throttle_option (mkGT 0 0 1000 0 0 100000) opts.

Definition set_secondCount (s : GlobalThrottle) (v : Z) : GlobalThrottle :=
  mkGT v (gt_secondBucket s) (gt_perSecondLimit s) (gt_hourCount s) (gt_hourBucket s) (gt_perHourLimit s).
Definition set_secondBucket (s : GlobalThrottle) (v : Z) : GlobalThrottle :=
  mkGT (gt_secondCount s) v (gt_perSecondLimit s) (gt_hourCount s) (gt_hourBucket s) (gt_perHourLimit s).
Definition set_hourCount (s : GlobalThrottle) (v : Z) : GlobalThrottle :=
  mkGT (gt_secondCount s) (gt_secondBucket s) (gt_perSecondLimit s) v (gt_hourBucket s) (gt_perHourLimit s).
Definition set_hourBucket (s : GlobalThrottle) (v : Z) : GlobalThrottle :=
  mkGT (gt_secondCount s) (gt_secondBucket s) (gt_perSecondLimit s) (gt_hourCount s) v (gt_perHourLimit s).

(** [now.Unix()] and [now.Truncate(time.Hour).Unix()]; the zero time that
    [Truncate] counts from is a whole number of hours before the epoch. *)
Definition time_Unix (now : time) : Z := now / Second.
Definition hour_Unix (now : time) : Z := now / Hour * 3600.

#[global] Arguments time_Unix : simpl never.
#[global] Arguments hour_Unix : simpl never.

(** Program counter of a call of [IncrementGlobal]. *)
Inductive pc :=
| LoadSecond
| CasSecond (lastSecond : Z)
| StoreSecond
| LoadHour
| CasHour (lastHour : Z)
| StoreHour
| LoadSecCount
| CasSecCount (current : Z)
| LoadHourCount (secCount : Z)
| CasHourCount (secCount current : Z)
| Rollback (hourCount : Z)
| Done (count : Z) (blocked : bool).

(** One atomic access by a call made at time [now]. *)
Definition throttle_step (now : time) (s : GlobalThrottle) (p : pc) : GlobalThrottle * pc :=
  match p with
  | LoadSecond =>
      let lastSecond := gt_secondBucket s in
      (s, if time_Unix now =? lastSecond then LoadHour else CasSecond lastSecond)
  | CasSecond lastSecond =>
      if gt_secondBucket s =? lastSecond
      then (set_secondBucket s (time_Unix now), StoreSecond) else (s, LoadHour)
  | StoreSecond => (set_secondCount s 0, LoadHour)
  | LoadHour =>
      let lastHour := gt_hourBucket s in
      (s, if hour_Unix now =? lastHour then LoadSecCount else CasHour lastHour)
  | CasHour lastHour =>
      if gt_hourBucket s =? lastHour
      then (set_hourBucket s (hour_Unix now), StoreHour) else (s, LoadSecCount)
  | StoreHour => (set_hourCount s 0, LoadSecCount)
  | LoadSecCount =>
      let current := gt_secondCount s in
      (s, if gt_perSecondLimit s <=? current then Done current true else CasSecCount current)
  | CasSecCount current =>
      if gt_secondCount s =? current
      then (set_secondCount s (current + 1), LoadHourCount (current + 1)) else (s, LoadSecCount)
  | LoadHourCount secCount =>
      let current := gt_hourCount s in
      (s, if gt_perHourLimit s <=? current then Rollback current else CasHourCount secCount current)
  | CasHourCount secCount current =>
      if gt_hourCount s =? current
      then (set_hourCount s (current + 1), Done secCount false) else (s, LoadHourCount secCount)
  | Rollback hourCount => (set_secondCount s (gt_secondCount s - 1), Done hourCount true)
  | Done _ _ => (s, p)
  end.

Definition GetGlobalCount (s : GlobalThrottle) (now : time) : Z :=
  if negb (time_Unix now =? gt_secondBucket s) then 0 else gt_secondCount s.

Definition Throttle_Stats (s : GlobalThrottle) : Z * Z * Z * Z :=
  (gt_secondCount s, gt_hourCount s, gt_secondBucket s, gt_hourBucket s).

(** ** Concurrent executions *)

(** Threads: the time of the call and its program counter. *)
Record throttle_sys := mkTS { ts_shared : GlobalThrottle; ts_threads : list (time * pc) }.

Inductive sys_step : throttle_sys -> throttle_sys -> Prop :=
| sys_spawn s ths now : sys_step (mkTS s ths) (mkTS s (ths ++ [(now, LoadSecond)]))
| sys_access s ths i now p s' p' :
    ths !! i = Some (now, p) -> throttle_step now s p = (s', p') ->
    sys_step (mkTS s ths) (mkTS s' (<[i := (now, p')]> ths)).

Definition sys_reachable (opts : list ThrottleOption) : throttle_sys -> Prop :=
  rtc sys_step (mkTS (Throttle_New opts) []).

(** The invariant: counters within limits, and so are the values about to be
    written. *)
Definition pc_ok (s : GlobalThrottle) (p : pc) : Prop :=
  match p with
  | CasSecCount c => c < gt_perSecondLimit s
  | CasHourCount _ c => c < gt_perHourLimit s
  | _ => True
  end.

Definition throttle_inv (psl phl : Z) (st : throttle_sys) : Prop :=
  let s := ts_shared st in
  gt_perSecondLimit s = psl /\ gt_perHourLimit s = phl /\
  gt_secondCount s <= Z.max 0 psl /\ gt_hourCount s <= Z.max 0 phl /\
  Forall (fun t => pc_ok s t.2) (ts_threads st).

Lemma throttle_step_limits now s p :
  gt_perSecondLimit (throttle_step now s p).1 = gt_perSecondLimit s /\
  gt_perHourLimit (throttle_step now s p).1 = gt_perHourLimit s.
Proof. destruct p; simpl; repeat case_match; done. Qed.

Lemma pc_ok_limits s s' p :
  gt_perSecondLimit s' = gt_perSecondLimit s -> gt_perHourLimit s' = gt_perHourLimit s ->
  pc_ok s p -> pc_ok s' p.
Proof. intros H1 H2. destruct p; simpl; try done; lia. Qed.

Lemma throttle_step_counts now s p :
  pc_ok s p ->
  gt_secondCount s <= Z.max 0 (gt_perSecondLimit s) -> gt_hourCount s <= Z.max 0 (gt_perHourLimit s) ->
  let '(s', p') := throttle_step now s p in
  gt_secondCount s' <= Z.max 0 (gt_perSecondLimit s) /\
  gt_hourCount s' <= Z.max 0 (gt_perHourLimit s) /\ pc_ok s' p'.
Proof. destruct p; simpl; intros; repeat case_match; bools; simplify_eq/=; lia. Qed.

Lemma throttle_inv_step psl phl st st' :
  throttle_inv psl phl st -> sys_step st st' -> throttle_inv psl phl st'.
Proof.
  intros (H1 & H2 & H3 & H4 & H5) Hstep. inversion Hstep as [s ths now|s ths i now p s' p' Hi Hst]; subst.
  - simpl in *. split_and!; try done. apply Forall_app. split; [done|]. by repeat constructor.
  - simpl in *. pose proof (throttle_step_limits now s p) as [Hl1 Hl2].
    pose proof (Forall_lookup_1 _ _ _ _ H5 Hi) as Hp. simpl in Hp.
    pose proof (throttle_step_counts now s p Hp) as Hc. rewrite Hst in *. simpl in *.
    destruct Hc as (Hc1 & Hc2 & Hc3); [by rewrite ?H1, ?H2..|].
    unfold throttle_inv. simpl. split_and!; try congruence.
    apply Forall_insert; [|done]. eapply Forall_impl; [exact H5|].
    intros t. by apply pc_ok_limits.
Qed.

Lemma throttle_inv_reachable opts st :
  sys_reachable opts st ->
  throttle_inv (gt_perSecondLimit (Throttle_New opts)) (gt_perHourLimit (Throttle_New opts)) st.
Proof.
  assert (forall st0, throttle_inv (gt_perSecondLimit (Throttle_New opts))
    (gt_perHourLimit (Throttle_New opts)) st0 -> forall st, rtc sys_step st0 st ->
    throttle_inv (gt_perSecondLimit (Throttle_New opts)) (gt_perHourLimit (Throttle_New opts)) st) as H.
  { intros st0 H0 st1 Hr. induction Hr; [done|]. eauto using throttle_inv_step. }
  intros Hr. apply (H (mkTS (Throttle_New opts) [])); [|done].
  assert (forall s, gt_secondCount s = 0 -> gt_hourCount s = 0 ->
    gt_secondCount (foldl apply_throttle_option s opts) = 0 /\
    gt_hourCount (foldl apply_throttle_option s opts) = 0) as Hz.
  { clear. induction opts as [|[] opts IH]; intros s H1 H2; simpl; [done|by apply IH..]. }
  destruct (Hz (mkGT 0 0 1000 0 0 100000) eq_refl eq_refl) as [Hz1 Hz2].
  unfold throttle_inv. simpl. unfold Throttle_New in *. rewrite Hz1, Hz2. split_and!; try done; lia.
Qed.

(** ** Sequential executions *)

(** The atomic specification of a call. *)
Definition increment_spec (now : time) (s : GlobalThrottle) : GlobalThrottle * (Z * bool) :=
  let s := if time_Unix now =? gt_secondBucket s then s
           else set_secondCount (set_secondBucket s (time_Unix now)) 0 in
  let s := if hour_Unix now =? gt_hourBucket s then s
           else set_hourCount (set_hourBucket s (hour_Unix now)) 0 in
  if gt_perSecondLimit s <=? gt_secondCount s then (s, (gt_secondCount s, true))
  else if gt_perHourLimit s <=? gt_hourCount s then (s, (gt_hourCount s, true))
  else (set_hourCount (set_secondCount s (gt_secondCount s + 1)) (gt_hourCount s + 1),
        (gt_secondCount s + 1, false)).

(** A call that runs alone, with [fuel] atomic accesses. *)
Fixpoint run_alone (fuel : nat) (now : time) (s : GlobalThrottle) (p : pc)
    : option (GlobalThrottle * (Z * bool)) :=
  match p, fuel with
  | Done c b, _ => Some (s, (c, b))
  | _, O => None
  | _, S fuel' => let '(s', p') := throttle_step now s p in run_alone fuel' now s' p'
  end.

Definition IncrementGlobal (now : time) (s : GlobalThrottle) : option (GlobalThrottle * (Z * bool)) :=
  run_alone 10 now s LoadSecond.

(** [Service.Check]: allowed unless blocked. *)
Definition Throttle_Check (now : time) (s : GlobalThrottle) : option (GlobalThrottle * bool) :=
  '(s', (_, blocked)) ← IncrementGlobal now s; Some (s', negb blocked).

Lemma run_alone_done fuel now s c b : run_alone fuel now s (Done c b) = Some (s, (c, b)).
Proof. by destruct fuel. Qed.

Lemma run_alone_step fuel now s p s' p' r :
  throttle_step now s p = (s', p') -> run_alone fuel now s' p' = Some r ->
  run_alone (S fuel) now s p = Some r.
Proof. intros H1 H2. destruct p; cbn [run_alone]; rewrite ?H1; try done. simpl in H1. simplify_eq. by rewrite run_alone_done in H2. Qed.

(** Run the calls of a thread that is alone, deciding each test by the hypotheses. *)
Ltac step_alone :=
  eapply run_alone_step; [
    cbn [throttle_step gt_secondCount gt_secondBucket gt_perSecondLimit gt_hourCount gt_hourBucket
         gt_perHourLimit set_secondCount set_secondBucket set_hourCount set_hourBucket];
    repeat match goal with H : _ = true |- _ => rewrite H | H : _ = false |- _ => rewrite H end;
    rewrite ?Z.eqb_refl; reflexivity |].

Lemma IncrementGlobal_alone now s : IncrementGlobal now s = Some (increment_spec now s).
Proof.
  unfold IncrementGlobal. destruct s as [sc sb psl hc hb phl].
  destruct (time_Unix now =? sb) eqn:E1, (hour_Unix now =? hb) eqn:E2;
    unfold increment_spec; simpl (gt_secondBucket _); rewrite E1;
    simpl (gt_hourBucket _); rewrite E2;
    cbn [gt_secondCount gt_secondBucket gt_perSecondLimit gt_hourCount gt_hourBucket
         gt_perHourLimit set_secondCount set_secondBucket set_hourCount set_hourBucket];
    match goal with |- context [psl <=? ?x] => destruct (psl <=? x) eqn:E3 end;
    try match goal with |- context [phl <=? ?x] => destruct (phl <=? x) eqn:E4 end;
    repeat step_alone; rewrite run_alone_done;
    unfold set_secondCount, set_hourCount, set_secondBucket, set_hourBucket; simpl; repeat f_equal; lia.
Qed.

(** Sequential calls, and how many of those made in a given second were admitted. *)
Fixpoint throttle_run (s : GlobalThrottle) (nows : list time) : option (GlobalThrottle * list bool) :=
  match nows with
  | [] => Some (s, [])
  | now :: nows' =>
      '(s', ok) ← Throttle_Check now s;
      '(s'', oks) ← throttle_run s' nows';
      Some (s'', ok :: oks)
  end.

Fixpoint admitted_in (sec : Z) (nows : list time) (oks : list bool) : Z :=
  match nows, oks with
  | now :: nows', ok :: oks' =>
      (if ok && (time_Unix now =? sec) then 1 else 0) + admitted_in sec nows' oks'
  | _, _ => 0
  end.

Fixpoint clock_mono (last : time) (nows : list time) : bool :=
  match nows with [] => true | now :: nows' => (last <=? now) && clock_mono now nows' end.

(** Requests left in second [sec]: all of them when the bucket is not there yet. *)
Definition room (s : GlobalThrottle) (sec : Z) : Z :=
  Z.max 0 (if gt_secondBucket s =? sec then gt_perSecondLimit s - gt_secondCount s
           else gt_perSecondLimit s).

Lemma throttle_run_room s nows last sec :
  clock_mono last nows = true -> gt_secondBucket s <= time_Unix last ->
  0 <= gt_secondCount s ->
  exists s' oks, throttle_run s nows = Some (s', oks) /\
    (gt_secondBucket s <= sec -> admitted_in sec nows oks <= room s sec) /\
    (sec < gt_secondBucket s -> admitted_in sec nows oks = 0).
Proof.
  revert s last. induction nows as [|now nows IH]; intros s last Hc Hb Hpos.
  { eexists _, _. split; [done|]. simpl. split; [unfold room; lia|done]. }
  simpl in Hc. apply andb_true_iff in Hc as [Hle Hc]. bools.
  assert (time_Unix last <= time_Unix now) as Hu by (apply Z.div_le_mono; unfold Second; lia).
  unfold throttle_run; fold throttle_run. unfold Throttle_Check. rewrite IncrementGlobal_alone.
  destruct (increment_spec now s) as [s1 [c blocked]] eqn:E. simpl.
  assert (gt_secondBucket s1 = time_Unix now /\ 0 <= gt_secondCount s1 /\
    gt_perSecondLimit s1 = gt_perSecondLimit s /\
    let base := if time_Unix now =? gt_secondBucket s then gt_secondCount s else 0 in
    gt_secondCount s1 = (if blocked then base else base + 1) /\
    (blocked = false -> base < gt_perSecondLimit s)) as (H1 & H2 & H3 & H4 & H5).
  { unfold increment_spec in E. destruct s as [sc sb psl hc hb phl]. simpl in *.
    destruct (time_Unix now =? sb) eqn:E1, (hour_Unix now =? hb) eqn:E2; simpl in E;
      repeat case_match; bools; simplify_eq/=; split_and!; try done; intros; lia. }
  destruct (IH s1 now Hc) as (s2 & oks & Hrun & Hge & Hlt); [lia|done|].
  rewrite Hrun. simpl. eexists _, _. split; [done|]. unfold room in *. rewrite H1, H3 in *.
  split; intros Hs.
  - destruct (Z.eqb_spec (time_Unix now) sec) as [<-|Hne].
    + specialize (Hge ltac:(lia)). rewrite H4 in Hge. simpl in Hge.
      rewrite (Z.eqb_sym (gt_secondBucket s)).
      destruct (time_Unix now =? gt_secondBucket s), blocked; simpl in *; try lia;
        specialize (H5 eq_refl); lia.
    + rewrite andb_false_r. destruct (decide (time_Unix now <= sec)) as [Hd|Hd].
      * specialize (Hge Hd). destruct (Z.eqb_spec (gt_secondBucket s) sec); [|lia].
        simpl in *. lia.
      * rewrite Hlt by lia. lia.
  - rewrite Hlt by lia. destruct (Z.eqb_spec (time_Unix now) sec); [lia|]. by rewrite andb_false_r.
Qed.

(** ** Properties *)

(** In every interleaving of any number of concurrent calls the counters
    never exceed their limits, not even momentarily. *)
Theorem throttle_counters_bounded (opts : list ThrottleOption) (st : throttle_sys) :
  sys_reachable opts st ->
  gt_secondCount (ts_shared st) <= Z.max 0 (gt_perSecondLimit (Throttle_New opts)) /\
  gt_hourCount (ts_shared st) <= Z.max 0 (gt_perHourLimit (Throttle_New opts)).
Proof. intros Hr. destruct (throttle_inv_reachable opts st Hr) as (_ & _ & H3 & H4 & _). done. Qed.

Lemma throttle_counters_bounded_witness :
  gt_secondCount (Throttle_New [WithPerSecondLimit 3]) <= Z.max 0 3.
Proof.
  apply (throttle_counters_bounded [WithPerSecondLimit 3]
    (mkTS (Throttle_New [WithPerSecondLimit 3]) [(0, LoadSecond)])).
  apply rtc_once. apply (sys_spawn _ [] 0).
Defined.

(** A call that is not interleaved with others returns after at most ten
    atomic accesses with the result of the tumbling-window specification, and
    calls made one after the other with a clock that does not run backwards
    admit at most [perSecondLimit] requests in every second. *)
Theorem throttle_sequential (opts : list ThrottleOption) (nows : list time) (sec : Z) :
  clock_mono 0 nows = true ->
  (forall now s, IncrementGlobal now s = Some (increment_spec now s)) /\
  exists s' oks, throttle_run (Throttle_New opts) nows = Some (s', oks) /\
    admitted_in sec nows oks <= Z.max 0 (gt_perSecondLimit (Throttle_New opts)).
Proof.
  intros Hc. split; [exact IncrementGlobal_alone|].
  assert (gt_secondBucket (Throttle_New opts) = 0 /\ gt_secondCount (Throttle_New opts) = 0) as [Hb Hn].
  { unfold Throttle_New. assert (forall s, gt_secondBucket s = 0 /\ gt_secondCount s = 0 ->
      gt_secondBucket (foldl apply_throttle_option s opts) = 0 /\
      gt_secondCount (foldl apply_throttle_option s opts) = 0) as H; [|by apply H].
    induction opts as [|[] opts IH]; intros s Hs; simpl; [done|by apply IH..]. }
  destruct (throttle_run_room (Throttle_New opts) nows 0 sec Hc) as (s' & oks & Hr & H1 & H2);
    [rewrite Hb; done|lia|].
  exists s', oks. split; [done|]. unfold room in H1. rewrite Hb, Hn in *.
  destruct (decide (0 <= sec)) as [Hs|Hs]; [specialize (H1 Hs)|specialize (H2 ltac:(lia)); lia].
  destruct (0 =? sec); lia.
Qed.

Lemma throttle_sequential_witness :
  exists s' oks, throttle_run (Throttle_New [WithPerSecondLimit 1]) [0; 5; 1000000000] = Some (s', oks) /\
    admitted_in 0 [0; 5; 1000000000] oks <= 1.
Proof. apply (throttle_sequential [WithPerSecondLimit 1] [0; 5; 1000000000] 0). reflexivity. Defined.

(** ** The reset race *)

(** Run a schedule: the index of the thread that makes each access. *)
Fixpoint run_schedule (sched : list nat) (st : throttle_sys) : throttle_sys :=
  match sched with
  | [] => st
  | i :: sched' =>
      match ts_threads st !! i with
      | None => run_schedule sched' st
      | Some (now, p) =>
          let '(s', p') := throttle_step now (ts_shared st) p in
          run_schedule sched' (mkTS s' (<[i := (now, p')]> (ts_threads st)))
      end
  end.

Lemma run_schedule_steps sched st : rtc sys_step st (run_schedule sched st).
Proof.
  revert st. induction sched as [|i sched IH]; intros [s ths]; [done|]. simpl.
  destruct (ths !! i) as [[now p]|] eqn:Hi; [|done].
  destruct (throttle_step now s p) as [s' p'] eqn:Hp.
  eapply rtc_l; [by eapply sys_access|apply IH].
Qed.

(** The first thread claims the bucket of the new second; the second thread is
    admitted before the first resets the counter, and the reset forgets it. *)
Definition race_schedule : list nat :=
  [0%nat; 0%nat] ++ replicate 7 1%nat ++ replicate 8 0%nat.

(** The limit on the counter is not a limit on the requests admitted: with
    [perSecondLimit = 1] two concurrent calls in the same second are both
    admitted, because the reset of the counter is not atomic with the claim of
    the bucket. *)
Theorem throttle_reset_race :
  exists st, sys_reachable [WithPerSecondLimit 1] st /\
    ts_threads st = [(5000000000, Done 1 false); (5000000000, Done 1 false)].
Proof.
  exists (run_schedule race_schedule
    (mkTS (Throttle_New [WithPerSecondLimit 1]) [(5000000000, LoadSecond); (5000000000, LoadSecond)])).
  split; [|vm_compute; reflexivity].
  unfold sys_reachable. etrans; [|apply run_schedule_steps].
  eapply rtc_l; [apply (sys_spawn _ [] 5000000000)|]. apply rtc_once.
  apply (sys_spawn _ [(5000000000, LoadSecond)] 5000000000).
Qed.
