(* ===== verification/RequestLimit.v ===== *)
(** * Request limiters and the allowlist
    [internal/ratelimit/service/requestlimit/service.go],
    [internal/ratelimit/service/clientlimit/service.go],
    [internal/ratelimit/store/allowlist/store_memory.go] and
    [internal/ratelimit/config/config.go]

    The services are written against the interfaces [BucketStore] and
    [AllowlistStore]; the theorems hold for every implementation and are
    instantiated with the in-memory stores. *)
From S2P Require Import Prelude Errors Keys Ring SlidingWindow BucketStore.
Open Scope Z_scope.

(** ** Configuration *)

Record Limit := mkLimit { lim_RequestsPerWindow : Z; lim_Window : duration }.

Record RateConfig := mkRateConfig {
  rc_IPLimits : gmap string Limit;
  rc_UserLimits : gmap string Limit;
  rc_ConfidentialLimit : Limit;
  rc_PublicLimit : Limit;
}.

Definition DefaultRateConfig : RateConfig := mkRateConfig
  (list_to_map [(ClassAuth, mkLimit 10 Minute); (ClassSensitive, mkLimit 30 Minute);
                (ClassRead, mkLimit 100 Minute); (ClassWrite, mkLimit 50 Minute);
                (ClassAdmin, mkLimit 10 Minute)])
  (list_to_map [(ClassAuth, mkLimit 50 Hour); (ClassSensitive, mkLimit 20 Hour);
                (ClassRead, mkLimit 200 Hour); (ClassWrite, mkLimit 100 Hour);
                (ClassAdmin, mkLimit 20 Hour)])
  (mkLimit 100 Minute) (mkLimit 30 Minute).

Definition GetIPLimit (c : RateConfig) (class : EndpointClass) : option (Z * duration) :=
  l ← rc_IPLimits c !! class; Some (lim_RequestsPerWindow l, lim_Window l).

Definition GetUserLimit (c : RateConfig) (class : EndpointClass) : option (Z * duration) :=
  l ← rc_UserLimits c !! class; Some (lim_RequestsPerWindow l, lim_Window l).

(** ** The allowlist *)

Inductive AllowlistEntryType := AllowlistTypeIP | AllowlistTypeUserID.

#[global] Instance AllowlistEntryType_eq_dec : EqDecision AllowlistEntryType.
Proof. solve_decision. Defined.

Definition AllowlistEntryType_text (t : AllowlistEntryType) : string :=
  match t with AllowlistTypeIP => "ip" | AllowlistTypeUserID => "user_id" end.

Definition ParseAllowlistEntryType (s : string) : res AllowlistEntryType :=
  if str_empty s then Err (New CodeInvalidInput "allowlist entry type cannot be empty")
  else if bool_decide (s = "ip") then Ok AllowlistTypeIP
  else if bool_decide (s = "user_id") then Ok AllowlistTypeUserID
  else Err (New CodeInvalidInput "invalid allowlist entry type: must be 'ip' or 'user_id'").

Record AllowlistEntry := mkAllow {
  ale_ID : string;
  ale_Type : AllowlistEntryType;
  ale_Identifier : string;
  ale_Reason : string;
  ale_ExpiresAt : option time;
  ale_CreatedAt : time;
}.

Definition AllowlistEntry_IsExpiredAt (e : AllowlistEntry) (now : time) : bool :=
  match ale_ExpiresAt e with None => false | Some t => time_After now t end.

(** [net.ParseIP] and [id.ParseUserID], as predicates on the text. *)
Section allowlist.
Context (valid_ip valid_user_id : string -> bool).

Definition ParseAllowlistIdentifier (t : AllowlistEntryType) (identifier : string) : res string :=
  if str_empty identifier then Err (New CodeInvalidInput "identifier cannot be empty")
  else
    match t with
    | AllowlistTypeIP =>
        if negb (valid_ip identifier)
        then Err (New CodeInvalidInput "identifier must be a valid IP address") else Ok identifier
    | AllowlistTypeUserID =>
        if negb (valid_user_id identifier)
        then Err (New CodeInvalidInput "identifier must be a valid user_id") else Ok identifier
    end.

Definition NewAllowlistEntry (id : string) (t : AllowlistEntryType) (identifier reason : string)
    (expiresAt : option time) (now : time) : res AllowlistEntry :=
  if str_empty id then Err (New CodeInvariantViolation "id cannot be empty")
  else if str_empty reason then Err (New CodeInvariantViolation "reason cannot be empty")
  else
    match ParseAllowlistIdentifier t identifier with
    | Err e => Err (New CodeInvariantViolation (Error_text e))
    | Ok parsed => Ok (mkAllow id t parsed reason expiresAt now)
    end.
End allowlist.

Abbreviation InMemoryAllowlistStore := (gmap string AllowlistEntry) (only parsing).

Definition Allowlist_buildKey (t : AllowlistEntryType) (identifier : string) : string :=
  AllowlistEntryType_text t +:+ ":" +:+ identifier.

Definition Allowlist_Add (s : InMemoryAllowlistStore) (e : AllowlistEntry) : InMemoryAllowlistStore :=
  <[Allowlist_buildKey (ale_Type e) (ale_Identifier e) := e]> s.

Definition Allowlist_Remove (s : InMemoryAllowlistStore) (t : AllowlistEntryType) (identifier : string)
    : InMemoryAllowlistStore := delete (Allowlist_buildKey t identifier) s.

Definition Allowlist_IsAllowlisted (s : InMemoryAllowlistStore) (identifier : string) (now : time) : bool :=
  if str_empty identifier then false
  else existsb (fun t =>
         match s !! Allowlist_buildKey t identifier with
         | Some e => negb (AllowlistEntry_IsExpiredAt e now)
         | None => false
         end) [AllowlistTypeIP; AllowlistTypeUserID].

(** The order of the listing is that of a Go map and is not specified. *)
Definition Allowlist_List (s : InMemoryAllowlistStore) (now : time) : list AllowlistEntry :=
  filter (fun e => negb (AllowlistEntry_IsExpiredAt e now) = true) ((map_to_list s).*2).

Definition Allowlist_RemoveExpiredAt (s : InMemoryAllowlistStore) (now : time) : InMemoryAllowlistStore :=
  filter (fun kv => AllowlistEntry_IsExpiredAt kv.2 now = false) s.

Class AllowlistStore (AL : Type) := {
  allow_IsAllowlisted : AL -> string -> time -> res bool;
}.

#[global] Instance memory_allowlist : AllowlistStore InMemoryAllowlistStore := {|
  allow_IsAllowlisted := fun s i now => Ok (Allowlist_IsAllowlisted s i now);
|}.

(** ** The request limiter *)

Section requestlimit.
Context {St AL : Type} `{!BucketStore St, !AllowlistStore AL}.
Variable cfg : RateConfig.
Variable allowlist : AL.

(** The buckets and the audit events emitted, oldest first. *)
Record RLState := mkRLState { rls_buckets : St; rls_audit : list string }.

Abbreviation RL A := (ST RLState error A) (only parsing).

Definition rl_LogAudit (event : string) : RL unit :=
  st_modify (fun s => mkRLState (rls_buckets s) (rls_audit s ++ [event])).

(** [s.buckets.Allow], its error wrapped by the caller. *)
Definition rl_Allow (key : string) (limit : Z) (window : duration) (now : time) (msg : string)
    : RL RateLimitResult := fun s =>
  let '(r, b) := bucket_Allow key limit window now (rls_buckets s) in
  (match r with Ok r => Ok r | Err e => Err (Wrap e CodeInternal msg) end,
   mkRLState b (rls_audit s)).

Definition missing_config (now : time) : RateLimitResult := mkRLR false false 0 0 now 60.

Definition checkRateLimit (identifier : string) (class : EndpointClass) (keyPrefix : KeyPrefix)
    (requestsPerWindow : Z) (window : duration) (now : time) : RL RateLimitResult :=
  match allow_IsAllowlisted allowlist identifier now with
  | Err e => st_fail (Wrap e CodeInternal "failed to check allowlist")
  | Ok allowlisted =>
      result ← rl_Allow (RateLimitKey_String (NewRateLimitKey keyPrefix identifier class))
                 requestsPerWindow window now "failed to check rate limit";
      if allowlisted : bool then
        rl_LogAudit "allowlist_bypass";;
        mret (mkRLR true true requestsPerWindow requestsPerWindow (time_Add now window) 0)
      else
        (if negb (rl_Allowed result)
         then rl_LogAudit (KeyPrefix_text keyPrefix +:+ "_rate_limit_exceeded") else mret tt);;
        mret result
  end.

Definition CheckIP (ip : string) (class : EndpointClass) (now : time) : RL RateLimitResult :=
  match GetIPLimit cfg class with
  | None => rl_LogAudit "rate_limit_config_missing";; mret (missing_config now)
  | Some (n, window) => checkRateLimit ip class KeyPrefixIP n window now
  end.

Definition CheckUser (userID : string) (class : EndpointClass) (now : time) : RL RateLimitResult :=
  match GetUserLimit cfg class with
  | None => rl_LogAudit "rate_limit_config_missing";; mret (missing_config now)
  | Some (n, window) => checkRateLimit userID class KeyPrefixUser n window now
  end.

Record limitParams := mkLP {
  lp_identifier : string; lp_prefix : KeyPrefix; lp_limit : Z; lp_window : duration;
}.

Definition checkSingleLimit (p : limitParams) (class : EndpointClass) (now : time) : RL RateLimitResult :=
  r ← rl_Allow (RateLimitKey_String (NewRateLimitKey (lp_prefix p) (lp_identifier p) class))
        (lp_limit p) (lp_window p) now
        ("failed to check " +:+ KeyPrefix_text (lp_prefix p) +:+ " rate limit");
  (if negb (rl_Allowed r)
   then rl_LogAudit (KeyPrefix_text (lp_prefix p) +:+ "_rate_limit_exceeded") else mret tt);;
  mret r.

(** Both limits, or the denial returned when one is not configured. *)
Definition getBothLimits (ip userID : string) (class : EndpointClass) (now : time)
    : RL (limitParams * limitParams + RateLimitResult) :=
  match GetIPLimit cfg class with
  | None => rl_LogAudit "rate_limit_config_missing";; mret (inr (missing_config now))
  | Some (ipN, ipW) =>
      match GetUserLimit cfg class with
      | None => rl_LogAudit "rate_limit_config_missing";; mret (inr (missing_config now))
      | Some (userN, userW) =>
          mret (inl (mkLP ip KeyPrefixIP ipN ipW, mkLP userID KeyPrefixUser userN userW))
      end
  end.

(** Errors are treated as not allowlisted. *)
Definition allowlisted_or_false (identifier : string) (now : time) : bool :=
  match allow_IsAllowlisted allowlist identifier now with Ok b => b | Err _ => false end.

Definition checkAllowlistStatus (ip userID : string) (now : time) : bool * bool :=
  (allowlisted_or_false ip now, allowlisted_or_false userID now).

Definition buildBypassResult (ipLimit userLimit : limitParams) (now : time) : RL RateLimitResult :=
  rl_LogAudit "allowlist_bypass";;
  let '(limit, window) :=
    if lp_limit userLimit <? lp_limit ipLimit
    then (lp_limit userLimit, lp_window userLimit) else (lp_limit ipLimit, lp_window ipLimit) in
  mret (mkRLR true true limit limit (time_Add now window) 0).

Definition moreRestrictiveResult (a b : RateLimitResult) : RateLimitResult :=
  if rl_Remaining a <? rl_Remaining b then a
  else if rl_Remaining b <? rl_Remaining a then b
  else if time_Before (rl_ResetAt a) (rl_ResetAt b) then a else b.

Definition CheckBoth (ip userID : string) (class : EndpointClass) (now : time) : RL RateLimitResult :=
  limits ← getBothLimits ip userID class now;
  match limits with
  | inr denial => mret denial
  | inl (ipLimit, userLimit) =>
      let '(ipAllowlisted, userAllowlisted) := checkAllowlistStatus ip userID now in
      ipRes ← checkSingleLimit ipLimit class now;
      userRes ← checkSingleLimit userLimit class now;
      if ipAllowlisted || userAllowlisted then buildBypassResult ipLimit userLimit now
      else if negb (rl_Allowed ipRes) then mret ipRes
      else if negb (rl_Allowed userRes) then mret userRes
      else mret (moreRestrictiveResult ipRes userRes)
  end.

(** *** The per-client limiter *)

(** [s.clientLookup.IsConfidentialClient]. *)
Variable isConfidentialClient : string -> res bool.

Definition Client_Check (clientID endpoint : string) (now : time) : RL RateLimitResult :=
  if str_empty clientID then mret (mkRLR true false 0 0 now 0)
  else
    let isConfidential := match isConfidentialClient clientID with Ok b => b | Err _ => false end in
    let limit := if isConfidential then rc_ConfidentialLimit cfg else rc_PublicLimit cfg in
    r ← rl_Allow (NewClientRateLimitKey clientID endpoint) (lim_RequestsPerWindow limit)
          (lim_Window limit) now "failed to check client rate limit";
    (if negb (rl_Allowed r) then rl_LogAudit "client_rate_limit_exceeded" else mret tt);;
    mret r.

(** ** Lemmas *)

Lemma rl_Allow_Ok key n w now msg s r b :
  bucket_Allow key n w now (rls_buckets s) = (Ok r, b) ->
  rl_Allow key n w now msg s = (Ok r, mkRLState b (rls_audit s)).
Proof. intros H. unfold rl_Allow. by rewrite H. Qed.

(** Logging does not touch the buckets. *)
Lemma maybe_log_buckets (c : bool) e (s : RLState) :
  exists a, (if c then rl_LogAudit e else mret tt) s = (Ok tt, mkRLState (rls_buckets s) a).
Proof. destruct c; [by eexists|]. exists (rls_audit s). by destruct s. Qed.

Lemma checkSingleLimit_run p class now s r b :
  bucket_Allow (RateLimitKey_String (NewRateLimitKey (lp_prefix p) (lp_identifier p) class))
    (lp_limit p) (lp_window p) now (rls_buckets s) = (Ok r, b) ->
  exists a, checkSingleLimit p class now s = (Ok r, mkRLState b a).
Proof.
  intros H. unfold checkSingleLimit, mbind, st_bind. rewrite (rl_Allow_Ok _ _ _ _ _ _ _ _ H).
  destruct (maybe_log_buckets (negb (rl_Allowed r))
    (KeyPrefix_text (lp_prefix p) +:+ "_rate_limit_exceeded") (mkRLState b (rls_audit s))) as [a ->].
  by exists a.
Qed.

Lemma moreRestrictive_spec a b :
  rl_Remaining (moreRestrictiveResult a b) = Z.min (rl_Remaining a) (rl_Remaining b) /\
  (moreRestrictiveResult a b = a \/ moreRestrictiveResult a b = b).
Proof. unfold moreRestrictiveResult. repeat case_match; bools; split; try tauto; lia. Qed.

Definition ip_key (ip : string) (class : EndpointClass) : string :=
  RateLimitKey_String (NewRateLimitKey KeyPrefixIP ip class).
Definition user_key (userID : string) (class : EndpointClass) : string :=
  RateLimitKey_String (NewRateLimitKey KeyPrefixUser userID class).

(** For an authenticated request both buckets are consumed, the address's
    first, whatever the allowlist says; the request is admitted exactly when the
    address or the user is allowlisted or both buckets admit it; a bypass is
    reported exactly for allowlisted requests; and an admission that is not a
    bypass reports the smaller remaining allowance. *)
Theorem CheckBoth_decision (inv : St -> Prop) `{!BucketStoreLaws St inv}
    (ip userID : string) (class : EndpointClass) (now : time) (s : RLState)
    (n1 n2 : Z) (w1 w2 : duration) (r1 r2 : RateLimitResult) (b1 b2 : St) :
  inv (rls_buckets s) ->
  GetIPLimit cfg class = Some (n1, w1) -> GetUserLimit cfg class = Some (n2, w2) ->
  bucket_Allow (ip_key ip class) n1 w1 now (rls_buckets s) = (Ok r1, b1) ->
  bucket_Allow (user_key userID class) n2 w2 now b1 = (Ok r2, b2) ->
  let bypass := allowlisted_or_false ip now || allowlisted_or_false userID now in
  exists r a, CheckBoth ip userID class now s = (Ok r, mkRLState b2 a) /\
    rl_Allowed r = bypass || (rl_Allowed r1 && rl_Allowed r2) /\
    rl_Bypassed r = bypass /\
    (bypass = false -> rl_Allowed r = true ->
       rl_Remaining r = Z.min (rl_Remaining r1) (rl_Remaining r2)) /\
    (rl_Allowed r = false -> rl_Remaining r = 0).
Proof.
  intros Hinv Hl1 Hl2 Ha1 Ha2 bypass.
  pose proof (bucket_result (ip_key ip class) n1 w1 now (rls_buckets s) r1 Hinv) as L1.
  rewrite Ha1 in L1. destruct (L1 eq_refl) as (_ & Hb1 & _ & _ & Hd1).
  pose proof (bucket_inv (ip_key ip class) n1 w1 now (rls_buckets s) Hinv) as Hinv1.
  rewrite Ha1 in Hinv1. simpl in Hinv1.
  pose proof (bucket_result (user_key userID class) n2 w2 now b1 r2 Hinv1) as L2.
  rewrite Ha2 in L2. destruct (L2 eq_refl) as (_ & Hb2 & _ & _ & Hd2).
  unfold CheckBoth, getBothLimits. rewrite Hl1, Hl2. unfold mbind, st_bind, mret, st_ret. simpl.
  destruct (checkSingleLimit_run (mkLP ip KeyPrefixIP n1 w1) class now s r1 b1 Ha1) as [a1 ->].
  destruct (checkSingleLimit_run (mkLP userID KeyPrefixUser n2 w2) class now (mkRLState b1 a1) r2 b2 Ha2)
    as [a2 ->].
  fold bypass. destruct bypass.
  - unfold buildBypassResult. st_unfold. destruct (n2 <? n1); eexists _, _; by split_and!.
  - destruct (rl_Allowed r1) eqn:E1; [destruct (rl_Allowed r2) eqn:E2|]; simpl.
    + destruct (moreRestrictive_spec r1 r2) as [Hm [Heq|Heq]]; eexists _, _;
        split_and!; try done; rewrite Heq in *; congruence.
    + eexists _, _. split_and!; try done; try congruence. intros _. by apply Hd2.
    + eexists _, _. split_and!; try done; try congruence. intros _. by apply Hd1.
Qed.

(** No request is admitted without a reason: an admission by [CheckIP] or
    [CheckUser] means that the class has a configured limit and that the
    identifier is allowlisted or the bucket store admitted the request; store
    errors and missing configuration never admit. *)
Theorem admission_justified (identifier : string) (class : EndpointClass) (now : time)
    (s s' : RLState) (r : RateLimitResult) (user : bool) :
  (if user then CheckUser identifier class now s else CheckIP identifier class now s) = (Ok r, s') ->
  rl_Allowed r = true ->
  exists n w r', (if user then GetUserLimit cfg class else GetIPLimit cfg class) = Some (n, w) /\
    (bucket_Allow ((if user then user_key else ip_key) identifier class) n w now (rls_buckets s)).1 = Ok r' /\
    rls_buckets s' =
      (bucket_Allow ((if user then user_key else ip_key) identifier class) n w now (rls_buckets s)).2 /\
    (allow_IsAllowlisted allowlist identifier now = Ok true \/ rl_Allowed r' = true).
Proof.
  assert (forall p n w, checkRateLimit identifier class p n w now s = (Ok r, s') -> rl_Allowed r = true ->
    exists r', (bucket_Allow (RateLimitKey_String (NewRateLimitKey p identifier class)) n w now
       (rls_buckets s)).1 = Ok r' /\
     rls_buckets s' = (bucket_Allow (RateLimitKey_String (NewRateLimitKey p identifier class)) n w now
       (rls_buckets s)).2 /\
     (allow_IsAllowlisted allowlist identifier now = Ok true \/ rl_Allowed r' = true)) as Hgen.
  { intros p n w. unfold checkRateLimit.
    destruct (allow_IsAllowlisted allowlist identifier now) as [al|e]; [|done].
    unfold rl_Allow. st_unfold.
    destruct (bucket_Allow _ n w now (rls_buckets s)) as [[r'|e] b]; [|done]. simpl.
    intros Hr Ha. exists r'. destruct al; simpl in *; [simplify_eq/=; split_and!; auto|].
    destruct (rl_Allowed r') eqn:E; simpl in *; simplify_eq/=; split_and!; auto; congruence. }
  destruct user; [unfold CheckUser|unfold CheckIP]; intros H Ha.
  - destruct (GetUserLimit cfg class) as [[n w]|]; [|st_unfold; simplify_eq/=; done].
    destruct (Hgen _ _ _ H Ha) as (r' & ?). by exists n, w, r'.
  - destruct (GetIPLimit cfg class) as [[n w]|]; [|st_unfold; simplify_eq/=; done].
    destruct (Hgen _ _ _ H Ha) as (r' & ?). by exists n, w, r'.
Qed.

End requestlimit.

(** A store and a state for the examples. *)
Definition demo_store : InMemoryBucketStore := Bucket_New [WithShardCount 2].
Definition demo_state : RLState := mkRLState demo_store [].

Lemma demo_store_wf : store_wf demo_store.
Proof. apply Bucket_New_wf. vm_compute. reflexivity. Qed.

Lemma CheckBoth_decision_witness :
  exists r s', CheckBoth DefaultRateConfig (∅ : InMemoryAllowlistStore) "10.0.0.1" "u1" ClassAuth 5 demo_state
    = (Ok r, s') /\ rl_Allowed r = true /\ rl_Remaining r = 9.
Proof.
  destruct (CheckBoth_decision DefaultRateConfig (∅ : InMemoryAllowlistStore) store_wf
    "10.0.0.1" "u1" ClassAuth 5 demo_state 10 50 Minute Hour
    (mkRLR true false 10 9 (5 + Minute) 0) (mkRLR true false 50 49 (5 + Hour) 0)
    (bucket_Allow (ip_key "10.0.0.1" ClassAuth) 10 Minute 5 demo_store).2
    (bucket_Allow (user_key "u1" ClassAuth) 50 Hour 5
       (bucket_Allow (ip_key "10.0.0.1" ClassAuth) 10 Minute 5 demo_store).2).2)
    as (r & a & H1 & H2 & H3 & H4 & _).
  - exact demo_store_wf.
  - reflexivity.
  - reflexivity.
  - vm_compute. reflexivity.
  - vm_compute. reflexivity.
  - eexists r, _. split; [exact H1|]. split; [exact H2|]. apply H4; [reflexivity|exact H2].
Defined.

Lemma admission_justified_witness :
  exists n w r', GetIPLimit DefaultRateConfig ClassRead = Some (n, w) /\
    (bucket_Allow (ip_key "10.0.0.1" ClassRead) n w 5 demo_store).1 = Ok r' /\ rl_Allowed r' = true.
Proof.
  destruct (admission_justified DefaultRateConfig (∅ : InMemoryAllowlistStore) "10.0.0.1" ClassRead 5
    demo_state (CheckIP DefaultRateConfig (∅ : InMemoryAllowlistStore) "10.0.0.1" ClassRead 5 demo_state).2
    (mkRLR true false 100 99 (5 + Minute) 0) false) as (n & w & r' & H1 & H2 & _ & H4).
  - vm_compute. reflexivity.
  - reflexivity.
  - exists n, w, r'. split; [exact H1|]. split; [exact H2|].
    destruct H4 as [H4|H4]; [discriminate H4|exact H4].
Defined.

(** ** The limiter on the in-memory stores *)

Record ip_request := mkIPReq { ipr_ip : string; ipr_class : EndpointClass; ipr_now : time }.

Fixpoint ip_run (cfg : RateConfig) (al : InMemoryAllowlistStore) (s : RLState) (reqs : list ip_request)
    : list bool :=
  match reqs with
  | [] => []
  | q :: reqs' =>
      let '(r, s') := CheckIP cfg al (ipr_ip q) (ipr_class q) (ipr_now q) s in
      match r with Ok r => rl_Allowed r | Err _ => false end :: ip_run cfg al s' reqs'
  end.

(** Times of the admitted requests of one address for one class. *)
Fixpoint ip_admitted (ip : string) (class : EndpointClass) (reqs : list ip_request) (oks : list bool)
    : list Z :=
  match reqs, oks with
  | q :: reqs', ok :: oks' =>
      (if bool_decide (ipr_ip q = ip /\ ipr_class q = class) && ok then [ipr_now q] else [])
      ++ ip_admitted ip class reqs' oks'
  | _, _ => []
  end.

Fixpoint ip_clock_ok (last : Z) (reqs : list ip_request) : bool :=
  match reqs with
  | [] => true
  | q :: reqs' => (last <=? ipr_now q) && sane_time (ipr_now q) && ip_clock_ok (ipr_now q) reqs'
  end.

(** The operation a request performs on the buckets. *)
Definition ip_bucket_op (cfg : RateConfig) (q : ip_request) : option bucket_op :=
  '(n, w) ← GetIPLimit cfg (ipr_class q);
  Some (mkBOp (ip_key (ipr_ip q) (ipr_class q)) n w (ipr_now q)).

(** Every configured class is a recognised one. *)
Definition cfg_classes_ok (cfg : RateConfig) : Prop :=
  forall class, is_Some (GetIPLimit cfg class) -> EndpointClass_IsValid class = true.

Lemma ip_key_inj ip class ip' class' :
  EndpointClass_IsValid class = true -> EndpointClass_IsValid class' = true ->
  ip_key ip class = ip_key ip' class' -> ip = ip' /\ class = class'.
Proof.
  intros H1 H2 Heq.
  assert (KeyWindow KeyPrefixIP ip class = KeyWindow KeyPrefixIP ip' class') as [= -> ->]; [|done].
  by apply key_of_inj; simpl; rewrite ?H1, ?H2.
Qed.

Lemma CheckIP_bucket cfg al ip class now st a n w r st' :
  GetIPLimit cfg class = Some (n, w) ->
  Bucket_Allow st (ip_key ip class) n w now = Some (r, st') ->
  exists r' a', CheckIP cfg (al : InMemoryAllowlistStore) ip class now (mkRLState st a) = (Ok r', mkRLState st' a') /\
    rl_Allowed r' = Allowlist_IsAllowlisted al ip now || rl_Allowed r.
Proof.
  intros Hl Ha. unfold CheckIP. rewrite Hl. unfold checkRateLimit, rl_Allow. simpl. st_unfold.
  fold (ip_key ip class). rewrite Ha. simpl.
  destruct (Allowlist_IsAllowlisted al ip now); simpl; [by eexists _, _|].
  destruct (rl_Allowed r) eqn:E; simpl; by eexists _, _.
Qed.

Lemma ip_run_store cfg al st a reqs oks st' ip class :
  cfg_classes_ok cfg -> EndpointClass_IsValid class = true ->
  Forall (fun q => ipr_ip q = ip -> Allowlist_IsAllowlisted al ip (ipr_now q) = false) reqs ->
  store_run st (omap (ip_bucket_op cfg) reqs) = Some (oks, st') ->
  ip_admitted ip class reqs (ip_run cfg al (mkRLState st a) reqs) =
  admitted_for (ip_key ip class) (omap (ip_bucket_op cfg) reqs) oks.
Proof.
  intros Hcfg Hclass. revert st a oks. induction reqs as [|[ip' class' now] reqs IH]; intros st a oks Hal Hrun.
  { simpl in *. by simplify_eq. }
  apply Forall_cons in Hal as [Hal0 Hal]. simpl in Hal0.
  cbn [omap list_omap] in *. unfold ip_bucket_op at 1 3 in Hrun. unfold ip_bucket_op at 1 3.
  cbn [ipr_ip ipr_class ipr_now] in *.
  destruct (GetIPLimit cfg class') as [[n w]|] eqn:Hl; simpl in Hrun |- *.
  - cbn [store_run] in Hrun. cbn [bo_key bo_limit bo_window bo_now] in Hrun.
    destruct (Bucket_Allow st (ip_key ip' class') n w now) as [[r st1]|] eqn:Hb; [|done].
    simpl in Hrun. destruct (store_run st1 _) as [[oks1 st2]|] eqn:Hr1; [|done]. simpl in Hrun.
    simplify_eq. destruct (CheckIP_bucket cfg al ip' class' now st a n w r st1 Hl Hb) as (r' & a' & -> & Hr').
    rewrite (IH st1 a' oks1 Hal Hr1). simpl. f_equal.
    destruct (decide (ip' = ip /\ class' = class)) as [[-> ->]|Hne].
    + rewrite !bool_decide_eq_true_2 by done. rewrite Hr', (Hal0 eq_refl). done.
    + rewrite !bool_decide_eq_false_2; [done| |done].
      intros [-> ->]%ip_key_inj; [by destruct Hne|by apply Hcfg; rewrite Hl|done].
  - unfold CheckIP. rewrite Hl. st_unfold.
    rewrite andb_false_r. simpl. by apply IH.
Qed.

Lemma ip_ops_ok cfg last reqs :
  ip_clock_ok last reqs = true ->
  (forall c n w, GetIPLimit cfg c = Some (n, w) -> 0 <= n <= Z.of_nat circularBufferSize) ->
  ops_ok last (omap (ip_bucket_op cfg) reqs) = true.
Proof.
  intros Hc Hlim. revert last Hc. induction reqs as [|[ip' class' now] reqs IH]; intros last Hc; [done|].
  simpl in Hc. apply andb_true_iff in Hc as [Hc Hrs]. apply andb_true_iff in Hc as [Hle Hsane]. bools.
  specialize (IH now Hrs). cbn [omap list_omap]. unfold ip_bucket_op at 1. cbn [ipr_ip ipr_class ipr_now].
  destruct (GetIPLimit cfg class') as [[n w]|] eqn:Hl; simpl.
  - change (list_omap ip_request bucket_op (ip_bucket_op cfg) reqs) with (omap (ip_bucket_op cfg) reqs).
    destruct (Hlim _ _ _ Hl) as [H1 H2]. rewrite IH. unfold req_ok. simpl. rewrite Hsane, !andb_true_r.
    rewrite !andb_true_iff. split_and!; try done; apply Z.leb_le; lia.
  - change (list_omap ip_request bucket_op (ip_bucket_op cfg) reqs) with (omap (ip_bucket_op cfg) reqs).
    destruct (omap (ip_bucket_op cfg) reqs) as [|op ops]; [done|]. cbn [ops_ok] in *.
    rewrite !andb_true_iff in *. destruct IH as [[H1 H2] H3]. bools. split_and!; [|done..]. lia.
Qed.

Lemma ip_ops_traffic cfg w M reqs :
  traffic_within w M (ipr_now <$> reqs) -> traffic_within w M (bo_now <$> omap (ip_bucket_op cfg) reqs).
Proof.
  intros Htr t. specialize (Htr t). enough (length (in_period w t (bo_now <$> omap (ip_bucket_op cfg) reqs)) <=
    length (in_period w t (ipr_now <$> reqs)))%nat by lia. clear Htr. unfold in_period.
  induction reqs as [|q reqs IH]; [done|]. cbn [omap list_omap].
  change (list_omap ip_request bucket_op (ip_bucket_op cfg) reqs) with (omap (ip_bucket_op cfg) reqs).
  assert (forall op, ip_bucket_op cfg q = Some op -> bo_now op = ipr_now q) as Hn.
  { intros op. unfold ip_bucket_op. destruct (GetIPLimit cfg (ipr_class q)) as [[n' w']|]; [|done].
    simpl. by intros [= <-]. }
  rewrite fmap_cons. destruct (ip_bucket_op cfg q) as [op|].
  - rewrite fmap_cons, !filter_cons, (Hn op eq_refl). case_decide; simpl; lia.
  - rewrite (filter_cons _ (ipr_now q)). case_decide; simpl; lia.
Qed.

Lemma default_ip_limits c n w :
  GetIPLimit DefaultRateConfig c = Some (n, w) ->
  EndpointClass_IsValid c = true /\ (0 <= n <= Z.of_nat circularBufferSize)%Z /\ w = Minute.
Proof.
  unfold GetIPLimit. destruct (rc_IPLimits DefaultRateConfig !! c) as [l|] eqn:E; [|done].
  simpl. intros [= <- <-]. unfold DefaultRateConfig in E. simpl in E. unfold circularBufferSize.
  repeat (apply lookup_insert_Some in E as [[<- <-]|[_ E]]; [split_and!; simpl; (done || lia)|]).
  by rewrite lookup_empty in E.
Qed.

Lemma default_store_capacity : store_capacity (Bucket_New []) defaultMaxBuckets.
Proof.
  unfold store_capacity. change (bs_shards (Bucket_New [])) with (replicate 32 (newShard defaultMaxBuckets)).
  by apply Forall_replicate.
Qed.

(** C9: End to end, with the default configuration and the default in-memory
    store: however the requests of all addresses and classes interleave, an
    address that is not allowlisted gets at most the configured number of
    requests of a class through in every period of the configured window.  The
    history may be of any length and may make the shards evict; two conditions
    are needed.  No window's length sees more than 100,000 requests from all
    addresses together (the capacity of one shard), so that an evicted window
    holds nothing but expired requests; and the clock does not run backwards
    (nor leaves the years 1970 to 2115). *)
Theorem ip_limit_end_to_end (al : InMemoryAllowlistStore) (reqs : list ip_request)
    (ip : string) (class : EndpointClass) (n : Z) (w : duration) (t : time) :
  GetIPLimit DefaultRateConfig class = Some (n, w) ->
  Forall (fun q => ipr_ip q = ip -> Allowlist_IsAllowlisted al ip (ipr_now q) = false) reqs ->
  ip_clock_ok 0 reqs = true -> traffic_within w defaultMaxBuckets (ipr_now <$> reqs) ->
  (Z.of_nat (length (in_period w t (ip_admitted ip class reqs
    (ip_run DefaultRateConfig al (mkRLState (Bucket_New []) []) reqs)))) <= n)%Z.
Proof.
  intros Hl Hal Hc Htr. destruct (default_ip_limits _ _ _ Hl) as (Hv & [Hn1 Hn2] & ->).
  set (ops := omap (ip_bucket_op DefaultRateConfig) reqs).
  assert (ops_ok 0 ops = true) as Hclk.
  { apply ip_ops_ok; [done|]. intros c n' w' Hx. by destruct (default_ip_limits _ _ _ Hx) as (_ & ? & _). }
  assert (Forall (fun op => bo_key op = ip_key ip class -> bo_window op = Minute /\ (bo_limit op <= n)%Z) ops) as Hw.
  { apply Forall_forall. intros op (q & _ & Hq)%list_elem_of_omap Hk. unfold ip_bucket_op in Hq.
    destruct (GetIPLimit DefaultRateConfig (ipr_class q)) as [[n' w']|] eqn:Hq'; [|done].
    simpl in Hq. simplify_eq/=. destruct (default_ip_limits _ _ _ Hq') as (Hv' & _ & ->).
    apply ip_key_inj in Hk as [_ Hcl]; [|done..]. rewrite Hcl in Hq'. simplify_eq. split; [done|lia]. }
  destruct (store_key_bounded [] ops (ip_key ip class) Minute n defaultMaxBuckets t)
    as (oks & st' & Hrun & Hb); try done.
  { apply default_store_capacity. }
  { by apply ip_ops_traffic. }
  rewrite (ip_run_store DefaultRateConfig al (Bucket_New []) [] reqs oks st' ip class); try done.
  intros c [[n' w'] Hx]. by destruct (default_ip_limits _ _ _ Hx).
Qed.

(** Eleven requests in one minute against the limit of ten. *)
Lemma ip_limit_end_to_end_witness :
  let reqs := mkIPReq "9.9.9.9" ClassRead 4 :: ((fun i => mkIPReq "1.2.3.4" ClassAuth i) <$> seqZ 5 11) in
  let oks := ip_run DefaultRateConfig ∅ (mkRLState (Bucket_New []) []) reqs in
  (Z.of_nat (length (in_period Minute 20 (ip_admitted "1.2.3.4" ClassAuth reqs oks))) <= 10)%Z /\
  oks = replicate 11 true ++ [false].
Proof.
  split; [|vm_compute; reflexivity]. apply ip_limit_end_to_end.
  - reflexivity.
  - repeat constructor.
  - reflexivity.
  - apply traffic_short. vm_compute. discriminate.
Defined.
