(* ===== verification/RateAdmin.v ===== *)
(** * Rate-limit administration and partner quotas
    [internal/ratelimit/admin/admin.go], [internal/ratelimit/models/requests.go],
    [internal/ratelimit/service/quota/service.go],
    [internal/ratelimit/store/quota/store_memory.go]

    The operations an administrator has on the allowlist and the buckets, and the
    monthly quotas of API keys, on the in-memory stores.  [strings.ToLower],
    [net.ParseIP], [id.ParseUserID] and the calendar month of [time.AddDate] are
    arguments. *)
From S2P Require Import Prelude Errors Keys Ring SlidingWindow BucketStore RequestLimit.
Local Open Scope Z_scope.

(** ** Requests *)

Section requests.
Context (ToLower : string -> string) (valid_ip valid_user_id : string -> bool).

(** The type of an entry as it arrives: any text. *)
Definition entry_type (t : string) : option AllowlistEntryType :=
  if bool_decide (t = "ip") then Some AllowlistTypeIP
  else if bool_decide (t = "user_id") then Some AllowlistTypeUserID else None.

Definition validateAllowlistEntry (t identifier : string) : res unit :=
  if (255 <? String.length identifier)%nat
  then Err (New CodeValidation "identifier must be 255 characters or less")
  else if str_empty t then Err (New CodeValidation "type is required")
  else if str_empty identifier then Err (New CodeValidation "identifier is required")
  else
    match entry_type t with
    | None => Err (New CodeValidation "type must be 'ip' or 'user_id'")
    | Some AllowlistTypeIP =>
        if negb (valid_ip identifier) then Err (New CodeValidation "identifier must be a valid IP address") else Ok tt
    | Some AllowlistTypeUserID => Ok tt
    end.

Record AddAllowlistRequest := mkAddReq {
  aar_Type : string; aar_Identifier : string; aar_Reason : string; aar_ExpiresAt : option time;
}.

Definition AddAllowlistRequest_Normalize (r : AddAllowlistRequest) : AddAllowlistRequest :=
  mkAddReq (TrimSpace (ToLower (aar_Type r))) (TrimSpace (aar_Identifier r)) (TrimSpace (aar_Reason r)) (aar_ExpiresAt r).

Definition AddAllowlistRequest_ValidateAt (r : AddAllowlistRequest) (now : time) : res unit :=
  match validateAllowlistEntry (aar_Type r) (aar_Identifier r) with
  | Err e => Err e
  | Ok _ =>
      if (500 <? String.length (aar_Reason r))%nat then Err (New CodeValidation "reason must be 500 characters or less")
      else if str_empty (aar_Reason r) then Err (New CodeValidation "reason is required")
      else
        match aar_ExpiresAt r with
        | Some t => if time_Before t now then Err (New CodeValidation "expires_at must be in the future") else Ok tt
        | None => Ok tt
        end
  end.

Record RemoveAllowlistRequest := mkRemReq { rar_Type : string; rar_Identifier : string }.

Definition RemoveAllowlistRequest_Validate (r : RemoveAllowlistRequest) : res unit :=
  validateAllowlistEntry (rar_Type r) (rar_Identifier r).

Record ResetRateLimitRequest := mkResetReq { rrr_Type : string; rrr_Identifier : string; rrr_Class : EndpointClass }.

Definition ResetRateLimitRequest_Normalize (r : ResetRateLimitRequest) : ResetRateLimitRequest :=
  mkResetReq (TrimSpace (ToLower (rrr_Type r))) (TrimSpace (rrr_Identifier r)) (TrimSpace (ToLower (rrr_Class r))).

Definition ResetRateLimitRequest_Validate (r : ResetRateLimitRequest) : res unit :=
  match validateAllowlistEntry (rrr_Type r) (rrr_Identifier r) with
  | Err e => Err e
  | Ok _ =>
      if negb (str_empty (rrr_Class r)) && negb (EndpointClass_IsValid (rrr_Class r))
      then Err (New CodeValidation "class must be 'auth', 'sensitive', 'read', or 'write'") else Ok tt
  end.

(** ** The administration service *)

Record AdminState := mkAdmin {
  ad_allowlist : InMemoryAllowlistStore;
  ad_buckets : InMemoryBucketStore;
  ad_audit : list string;
}.

Abbreviation AD A := (ST AdminState error A) (only parsing).

Definition ad_LogAudit (event : string) : AD unit :=
  st_modify (fun s => mkAdmin (ad_allowlist s) (ad_buckets s) (ad_audit s ++ [event])).

(** [newID] is [uuid.NewString()] and [wall] the clock of [Validate]. *)
Definition AddToAllowlist (newID : string) (now wall : time) (req : AddAllowlistRequest) : AD AllowlistEntry :=
  let req := AddAllowlistRequest_Normalize req in
  match AddAllowlistRequest_ValidateAt req wall with
  | Err e => st_fail (EWrap "invalid add allowlist request" e)
  | Ok _ =>
      match entry_type (aar_Type req) with
      | None => st_fail (EWrap "failed to create allowlist entry" (New CodeInvariantViolation "invalid allowlist entry type"))
      | Some t =>
          match NewAllowlistEntry valid_ip valid_user_id newID t (aar_Identifier req) (aar_Reason req)
                  (aar_ExpiresAt req) now with
          | Err e => st_fail (EWrap "failed to create allowlist entry" e)
          | Ok entry =>
              st_modify (fun s => mkAdmin (Allowlist_Add (ad_allowlist s) entry) (ad_buckets s) (ad_audit s));;
              ad_LogAudit "rate_limit_allowlist_added";;
              mret entry
          end
      end
  end.

(** A valid request has one of the two types, so the second case does not arise. *)
Definition RemoveFromAllowlist (req : RemoveAllowlistRequest) : AD unit :=
  match RemoveAllowlistRequest_Validate req, entry_type (rar_Type req) with
  | Err e, _ => st_fail (EWrap "invalid remove allowlist request" e)
  | Ok _, None => mret tt
  | Ok _, Some t =>
      st_modify (fun s => mkAdmin (Allowlist_Remove (ad_allowlist s) t (rar_Identifier req)) (ad_buckets s) (ad_audit s));;
      ad_LogAudit "rate_limit_allowlist_removed"
  end.

Definition ListAllowlist (now : time) : AD (list AllowlistEntry) :=
  st_gets (fun s => Allowlist_List (ad_allowlist s) now).

Definition reset_classes (class : EndpointClass) : list EndpointClass :=
  if str_empty class then [ClassAuth; ClassSensitive; ClassRead; ClassWrite] else [class].

Definition type_prefix (t : AllowlistEntryType) : KeyPrefix :=
  match t with AllowlistTypeIP => KeyPrefixIP | AllowlistTypeUserID => KeyPrefixUser end.

Fixpoint reset_keys (keys : list string) : AD unit :=
  match keys with
  | [] => mret tt
  | key :: rest =>
      s ← st_get;
      match Bucket_Reset (ad_buckets s) key with
      | None => st_fail (EWrap ("failed to reset rate limit for key " +:+ key) (EOther "index out of range"))
      | Some b => st_modify (fun s => mkAdmin (ad_allowlist s) b (ad_audit s));; reset_keys rest
      end
  end.

Definition ResetRateLimit (req : ResetRateLimitRequest) : AD unit :=
  let req := ResetRateLimitRequest_Normalize req in
  match ResetRateLimitRequest_Validate req with
  | Err e => st_fail (EWrap "invalid reset rate limit request" e)
  | Ok _ =>
      match entry_type (rrr_Type req) with
      | None => st_fail (EOther ("unknown identifier type: " +:+ rrr_Type req))
      | Some t =>
          reset_keys ((fun class => RateLimitKey_String (NewRateLimitKey (type_prefix t) (rrr_Identifier req) class))
                        <$> reset_classes (rrr_Class req));;
          ad_LogAudit "rate_limit_reset"
      end
  end.
End requests.

(** ** Quotas *)

Abbreviation QuotaTier := string (only parsing).
Definition QuotaTierFree : QuotaTier := "free".
Definition QuotaTierStarter : QuotaTier := "starter".
Definition QuotaTierBusiness : QuotaTier := "business".
Definition QuotaTierEnterprise : QuotaTier := "enterprise".
Definition QuotaTier_IsValid (t : QuotaTier) : bool :=
  slices_Contains [QuotaTierFree; QuotaTierStarter; QuotaTierBusiness; QuotaTierEnterprise] t.

Record QuotaLimit := mkQuotaLimit { ql_MonthlyRequests : Z; ql_OverageAllowed : bool }.

Definition DefaultQuotaTiers : gmap string QuotaLimit := list_to_map
  [(QuotaTierFree, mkQuotaLimit 1000 false); (QuotaTierStarter, mkQuotaLimit 10000 true);
   (QuotaTierBusiness, mkQuotaLimit 100000 true); (QuotaTierEnterprise, mkQuotaLimit (-1) true)].

Record APIKeyQuota := mkQuota {
  q_APIKeyID : string;
  q_Tier : QuotaTier;
  q_MonthlyLimit : Z;
  q_CurrentUsage : Z;
  q_OverageAllowed : bool;
  q_PeriodStart : time;
  q_PeriodEnd : time;
}.

Definition IsOverQuota (q : APIKeyQuota) : bool := q_MonthlyLimit q <=? q_CurrentUsage q.

Abbreviation InMemoryQuotaStore := (gmap string APIKeyQuota) (only parsing).

Section quotas.
(** [config.QuotaTiers], an absent tier being the zero value; [AddDate(0, 1, 0)]. *)
Context (tiers : gmap string QuotaLimit) (AddMonth : time -> time).

Definition tier_limits (t : QuotaTier) : QuotaLimit := default (mkQuotaLimit 0 false) (tiers !! t).

Definition new_quota (apiKeyID : string) (tier : QuotaTier) (now : time) : APIKeyQuota :=
  let limits := tier_limits tier in
  mkQuota apiKeyID tier (ql_MonthlyRequests limits) 0 (ql_OverageAllowed limits) now (AddMonth now).

Definition GetQuota (s : InMemoryQuotaStore) (apiKeyID : string) : option APIKeyQuota := s !! apiKeyID.

Definition IncrementUsage (s : InMemoryQuotaStore) (apiKeyID : string) (count : Z) (now : time)
    : APIKeyQuota * InMemoryQuotaStore :=
  let quota := match s !! apiKeyID with Some q => q | None => new_quota apiKeyID QuotaTierFree now end in
  let quota := mkQuota (q_APIKeyID quota) (q_Tier quota) (q_MonthlyLimit quota) (wrap64 (q_CurrentUsage quota + count))
                 (q_OverageAllowed quota) (q_PeriodStart quota) (q_PeriodEnd quota) in
  (quota, <[apiKeyID := quota]> s).

Definition ResetQuota (s : InMemoryQuotaStore) (apiKeyID : string) (now : time) : InMemoryQuotaStore :=
  match s !! apiKeyID with
  | None => s
  | Some q =>
      <[apiKeyID := mkQuota (q_APIKeyID q) (q_Tier q) (q_MonthlyLimit q) 0 (q_OverageAllowed q) now (AddMonth now)]> s
  end.

(** The order of the listing is that of a Go map and is not specified. *)
Definition ListQuotas (s : InMemoryQuotaStore) : list APIKeyQuota := (map_to_list s).*2.

Definition Store_UpdateTier (s : InMemoryQuotaStore) (apiKeyID : string) (tier : QuotaTier) (now : time)
    : InMemoryQuotaStore :=
  match s !! apiKeyID with
  | None => <[apiKeyID := new_quota apiKeyID tier now]> s
  | Some q =>
      let limits := tier_limits tier in
      <[apiKeyID := mkQuota (q_APIKeyID q) tier (ql_MonthlyRequests limits) (q_CurrentUsage q)
                      (ql_OverageAllowed limits) (q_PeriodStart q) (q_PeriodEnd q)]> s
  end.

(** *** The service: the store and the audit events *)

Record QuotaState := mkQS { qs_quotas : InMemoryQuotaStore; qs_audit : list string }.
Abbreviation QS A := (ST QuotaState error A) (only parsing).

Definition qs_LogAudit (event : string) : QS unit := st_modify (fun s => mkQS (qs_quotas s) (qs_audit s ++ [event])).

Definition Quota_Check (apiKeyID : string) : QS APIKeyQuota :=
  s ← st_get;
  match GetQuota (qs_quotas s) apiKeyID with
  | None => st_fail (Wrap (EOther ("quota not found for API key " +:+ apiKeyID)) CodeNotFound "quota not found")
  | Some q => mret q
  end.

Definition Quota_Increment (apiKeyID : string) (count : Z) (now : time) : QS APIKeyQuota :=
  s ← st_get;
  let '(q, store) := IncrementUsage (qs_quotas s) apiKeyID count now in
  st_modify (fun s => mkQS store (qs_audit s));;
  (if (q_MonthlyLimit q <? q_CurrentUsage q) && (0 <? q_MonthlyLimit q)
   then qs_LogAudit "api_key_quota_exceeded" else mret tt);;
  mret q.

Definition Quota_Reset (apiKeyID : string) (now : time) : QS unit :=
  if str_empty apiKeyID then st_fail (New CodeBadRequest "api_key_id is required")
  else
    st_modify (fun s => mkQS (ResetQuota (qs_quotas s) apiKeyID now) (qs_audit s));;
    qs_LogAudit "api_key_quota_reset".

Definition Quota_List : QS (list APIKeyQuota) := st_gets (fun s => ListQuotas (qs_quotas s)).

Definition Quota_UpdateTier (apiKeyID : string) (tier : QuotaTier) (now : time) : QS unit :=
  if str_empty apiKeyID then st_fail (New CodeBadRequest "api_key_id is required")
  else if negb (QuotaTier_IsValid tier) then st_fail (New CodeBadRequest "invalid tier")
  else
    st_modify (fun s => mkQS (Store_UpdateTier (qs_quotas s) apiKeyID tier now) (qs_audit s));;
    qs_LogAudit "api_key_tier_updated".
End quotas.

(** ** Resetting buckets *)

Lemma shard_delete_spec s k :
  shard_wf s -> shard_bounded s ->
  shard_wf (shard_delete s k) /\ shard_bounded (shard_delete s k) /\
  forall k', shard_window (shard_delete s k) k' = if bool_decide (k' = k) then None else shard_window s k'.
Proof.
  intros Hwf Hb. unfold shard_delete. destruct (sh_buckets s !! k) as [e|] eqn:Hk.
  - pose proof (shard_wf_Remove s k e Hwf Hk) as Hwf'. split; [done|]. split.
    + unfold shard_bounded in *. simpl. unfold list_Remove.
      pose proof (length_filter (fun x => x.1 <> e) (sh_lruList s)). lia.
    + intros k'. case_bool_decide as E; [subst; apply shard_window_None; [done|]; apply lookup_delete_eq|].
      apply option_eq. intros w. rewrite !shard_window_Some by done. simpl. unfold list_Remove.
      split; intros [e' He']; exists e'; [by apply list_elem_of_filter in He' as [_ ?]|].
      apply list_elem_of_filter. split; [|done]. intros Heq.
      apply (shard_elem_key s k e _ Hwf Hk He') in Heq. simpl in Heq. congruence.
  - split; [done|]. split; [done|]. intros k'. case_bool_decide; [subst|done]. by apply shard_window_None.
Qed.

Lemma Bucket_Reset_spec st k :
  store_wf st -> exists st', Bucket_Reset st k = Some st' /\ store_wf st' /\
    forall k', store_window st' k' = if bool_decide (k' = k) then None else store_window st k'.
Proof.
  intros Hwf. destruct (getShard_wf st k Hwf) as (sh & Hg & Hsh & Hb). unfold Bucket_Reset. rewrite Hg.
  destruct (shard_delete_spec sh k Hsh Hb) as (H1 & H2 & H3). eexists. split; [done|].
  split; [by apply with_shard_wf|]. intros k'. unfold store_window. rewrite getShard_with_shard by done.
  case_bool_decide as Hi.
  - simpl. rewrite H3. unfold getShard in *. by rewrite Hi, Hg.
  - case_bool_decide; [by subst|done].
Qed.

Lemma reset_keys_spec keys s :
  store_wf (ad_buckets s) -> exists b, reset_keys keys s = (Ok tt, mkAdmin (ad_allowlist s) b (ad_audit s)) /\
    store_wf b /\ forall k, store_window b k = if bool_decide (k ∈ keys) then None else store_window (ad_buckets s) k.
Proof.
  revert s. induction keys as [|key keys IH]; intros s Hwf.
  - exists (ad_buckets s). split; [by destruct s|]. split; [done|]. intros k. by rewrite bool_decide_false by set_solver.
  - destruct (Bucket_Reset_spec _ key Hwf) as (b & Hb & Hwf' & Hw).
    destruct (IH (mkAdmin (ad_allowlist s) b (ad_audit s)) Hwf') as (b' & Hr & Hwf'' & Hw').
    exists b'. split; [cbn [reset_keys]; unfold mbind, st_bind, st_get; rewrite Hb; exact Hr|].
    split; [done|]. intros k. rewrite Hw'. cbn [ad_buckets]. rewrite Hw.
    destruct (decide (k ∈ keys)); [rewrite !bool_decide_true by set_solver; done|].
    rewrite (bool_decide_false (k ∈ keys)) by done.
    destruct (decide (k = key)); [rewrite !bool_decide_true by set_solver; done|].
    by rewrite !bool_decide_false by set_solver.
Qed.

(** An administrator's reset clears exactly what it names: it succeeds on every valid
    request and leaves the buckets of the identifier's named class, or of the classes
    [auth], [sensitive], [read] and [write] when none is named, empty; every other
    bucket, of another identifier, type or class, keeps its window; and the reset is
    audited. *)
Theorem reset_clears_exactly (ToLower : string -> string) (valid_ip : string -> bool) (req : ResetRateLimitRequest)
    (t : AllowlistEntryType) (s : AdminState) :
  store_wf (ad_buckets s) ->
  let n := ResetRateLimitRequest_Normalize ToLower req in
  ResetRateLimitRequest_Validate valid_ip n = Ok tt -> entry_type (rrr_Type n) = Some t ->
  exists s', ResetRateLimit ToLower valid_ip req s = (Ok tt, s') /\
    ad_allowlist s' = ad_allowlist s /\ ad_audit s' = ad_audit s ++ ["rate_limit_reset"] /\ store_wf (ad_buckets s') /\
    let key class := RateLimitKey_String (NewRateLimitKey (type_prefix t) (rrr_Identifier n) class) in
    (forall class, class ∈ reset_classes (rrr_Class n) -> store_window (ad_buckets s') (key class) = None) /\
    (forall k, (forall class, class ∈ reset_classes (rrr_Class n) -> k <> key class) ->
       store_window (ad_buckets s') k = store_window (ad_buckets s) k).
Proof.
  intros Hwf n Hv Ht.
  destruct (reset_keys_spec ((fun class => RateLimitKey_String (NewRateLimitKey (type_prefix t) (rrr_Identifier n) class))
    <$> reset_classes (rrr_Class n)) s Hwf) as (b & Hr & Hwf' & Hw).
  eexists. split.
  { unfold ResetRateLimit. fold n. rewrite Hv, Ht. unfold mbind, st_bind. rewrite Hr. reflexivity. }
  split; [done|]. split; [done|]. split; [done|]. cbn zeta. cbn [ad_buckets]. split.
  - intros class Hc. rewrite Hw, bool_decide_true; [done|]. apply list_elem_of_fmap. by exists class.
  - intros k Hk. rewrite Hw, bool_decide_false; [done|]. intros (class & -> & Hc)%list_elem_of_fmap. by apply (Hk class).
Qed.

(** The class [admin] is valid and limited like the others, but a reset of all classes
    leaves it out. *)
Theorem reset_leaves_admin_bucket :
  EndpointClass_IsValid ClassAdmin = true /\ is_Some (GetIPLimit DefaultRateConfig ClassAdmin) /\
  ClassAdmin ∉ reset_classes "".
Proof.
  split; [done|]. split; [by eexists|]. by apply (bool_decide_unpack _).
Qed.

(** ** The allowlist *)

Lemma buildKey_inj t1 i1 t2 i2 : Allowlist_buildKey t1 i1 = Allowlist_buildKey t2 i2 -> t1 = t2 /\ i1 = i2.
Proof. unfold Allowlist_buildKey. destruct t1, t2; cbn; intros [=]; by subst. Qed.

(** An entry of the given type exempts the identifier at this time. *)
Definition exempts (s : InMemoryAllowlistStore) (t : AllowlistEntryType) (i : string) (now : time) : bool :=
  match s !! Allowlist_buildKey t i with Some e => negb (AllowlistEntry_IsExpiredAt e now) | None => false end.

Lemma IsAllowlisted_exempts s i now :
  i <> "" -> Allowlist_IsAllowlisted s i now = exempts s AllowlistTypeIP i now || exempts s AllowlistTypeUserID i now.
Proof.
  intros Hi. unfold Allowlist_IsAllowlisted, str_empty. rewrite bool_decide_false by done.
  cbn [existsb]. by rewrite orb_false_r.
Qed.

Lemma exempts_insert s t i e t' i' now :
  exempts (<[Allowlist_buildKey t i := e]> s) t' i' now =
  if bool_decide (t' = t /\ i' = i) then negb (AllowlistEntry_IsExpiredAt e now) else exempts s t' i' now.
Proof.
  unfold exempts. case_bool_decide as E.
  - destruct E as [-> ->]. by rewrite lookup_insert_eq.
  - rewrite lookup_insert_ne; [done|]. intros H. apply buildKey_inj in H as [-> ->]. by apply E.
Qed.

Lemma exempts_delete s t i t' i' now :
  exempts (delete (Allowlist_buildKey t i) s) t' i' now =
  if bool_decide (t' = t /\ i' = i) then false else exempts s t' i' now.
Proof.
  unfold exempts. case_bool_decide as E.
  - destruct E as [-> ->]. by rewrite lookup_delete_eq.
  - rewrite lookup_delete_ne; [done|]. intros H. apply buildKey_inj in H as [-> ->]. by apply E.
Qed.

Ltac same_entry :=
  repeat case_bool_decide; destruct_and?; rewrite ?orb_true_r, ?orb_false_r; first [done|exfalso; naive_solver].

(** The allowlist does what the administrator was told: once an entry is added, its
    identifier is exempt from limits at every time up to the entry's expiry, for ever
    when it has none, and from then on only by an entry of the other type; once it is removed, the identifier is exempt only by an entry of
    the other type; and neither operation changes what holds of any other identifier,
    or any bucket. *)
Theorem allowlist_life_cycle (ToLower : string -> string) (valid_ip valid_user_id : string -> bool) (newID : string)
    (now wall : time) (req : AddAllowlistRequest) (s s1 s2 : AdminState) (e : AllowlistEntry) (i : string) (later : time) :
  AddToAllowlist ToLower valid_ip valid_user_id newID now wall req s = (Ok e, s1) ->
  RemoveFromAllowlist valid_ip (mkRemReq (AllowlistEntryType_text (ale_Type e)) (ale_Identifier e)) s1 = (Ok tt, s2) ->
  i <> "" ->
  let listed st := Allowlist_IsAllowlisted (ad_allowlist st) i later in
  let other := match ale_Type e with AllowlistTypeIP => AllowlistTypeUserID | AllowlistTypeUserID => AllowlistTypeIP end in
  (i = ale_Identifier e ->
     (match ale_ExpiresAt e with Some x => later <= x | None => True end -> listed s1 = true) /\
     (match ale_ExpiresAt e with Some x => x < later | None => False end ->
        listed s1 = exempts (ad_allowlist s) other i later) /\
     listed s2 = exempts (ad_allowlist s) other i later) /\
  (i <> ale_Identifier e -> listed s1 = listed s /\ listed s2 = listed s) /\
  ad_buckets s2 = ad_buckets s.
Proof.
  intros Ha Hr Hi listed other.
  assert (ad_allowlist s1 = Allowlist_Add (ad_allowlist s) e /\ ad_buckets s1 = ad_buckets s) as [H1 Hb1].
  { revert Ha. unfold AddToAllowlist. case_match; [|done]. case_match; [|done]. case_match; [|done].
    st_unfold. by intros [= <- <-]. }
  assert (ad_allowlist s2 = Allowlist_Remove (ad_allowlist s1) (ale_Type e) (ale_Identifier e) /\ ad_buckets s2 = ad_buckets s1) as [H2 Hb2].
  { revert Hr. unfold RemoveFromAllowlist. case_match; [|done]. cbn [rar_Type rar_Identifier].
    assert (entry_type (AllowlistEntryType_text (ale_Type e)) = Some (ale_Type e)) as -> by (by destruct (ale_Type e)).
    st_unfold. by intros [= <-]. }
  unfold listed. rewrite H2, H1, !IsAllowlisted_exempts by done. unfold Allowlist_Remove, Allowlist_Add.
  rewrite !exempts_delete, !exempts_insert. split_and!; [| |congruence].
  - intros ->. split_and!.
    + intros Hx. assert (AllowlistEntry_IsExpiredAt e later = false) as ->.
      { unfold AllowlistEntry_IsExpiredAt. destruct (ale_ExpiresAt e) as [x|]; [|done]. times. lia. }
      destruct (ale_Type e); same_entry.
    + intros Hx. assert (AllowlistEntry_IsExpiredAt e later = true) as ->.
      { unfold AllowlistEntry_IsExpiredAt. destruct (ale_ExpiresAt e) as [x|]; [|done]. times. lia. }
      unfold other. destruct (ale_Type e); same_entry.
    + unfold other. destruct (ale_Type e); same_entry.
  - intros Hne. by rewrite !(bool_decide_false (_ /\ _)) by naive_solver.
Qed.

(** ** Quotas count the usage since the last reset *)

Inductive quota_op :=
| QIncrement (apiKeyID : string) (count : Z) (now : time)
| QReset (apiKeyID : string) (now : time)
| QUpdateTier (apiKeyID : string) (tier : QuotaTier) (now : time).

Section quota_history.
Context (tiers : gmap string QuotaLimit) (AddMonth : time -> time).

Definition quota_step (s : QuotaState) (o : quota_op) : QuotaState :=
  match o with
  | QIncrement k c now => (Quota_Increment tiers AddMonth k c now s).2
  | QReset k now => (Quota_Reset AddMonth k now s).2
  | QUpdateTier k t now => (Quota_UpdateTier tiers AddMonth k t now s).2
  end.

Definition quota_run (ops : list quota_op) : QuotaState := foldl quota_step (mkQS ∅ []) ops.

(** What the history says of one key: its tier, once it is known, and its usage. *)
Definition key_step (k : string) (h : option (QuotaTier * Z)) (o : quota_op) : option (QuotaTier * Z) :=
  match o with
  | QIncrement k' c _ =>
      if bool_decide (k' = k) then let '(t, u) := default (QuotaTierFree, 0) h in Some (t, u + c) else h
  | QReset k' _ => if bool_decide (k' = k /\ k <> "") then '(t, _) ← h; Some (t, 0) else h
  | QUpdateTier k' t _ =>
      if bool_decide (k' = k /\ k <> "" /\ QuotaTier_IsValid t = true) then Some (t, from_option snd 0 h) else h
  end.

Definition key_history (k : string) (ops : list quota_op) : option (QuotaTier * Z) := foldl (key_step k) None ops.

Definition quota_matches (q : option APIKeyQuota) (h : option (QuotaTier * Z)) : Prop :=
  match q, h with
  | Some q, Some (t, u) =>
      q_Tier q = t /\ q_CurrentUsage q = wrap64 u /\
      q_MonthlyLimit q = ql_MonthlyRequests (tier_limits tiers t) /\
      q_OverageAllowed q = ql_OverageAllowed (tier_limits tiers t)
  | None, None => True
  | _, _ => False
  end.

Lemma wrap64_add a b : wrap64 (wrap64 a + b) = wrap64 (a + b).
Proof.
  unfold wrap64. f_equal.
  replace ((a + 2 ^ 63) `mod` 2 ^ 64 - 2 ^ 63 + b + 2 ^ 63) with ((a + 2 ^ 63) `mod` 2 ^ 64 + b) by lia.
  rewrite Zplus_mod_idemp_l. f_equal. lia.
Qed.

Lemma quota_step_matches k s o h :
  quota_matches (qs_quotas s !! k) h -> quota_matches (qs_quotas (quota_step s o) !! k) (key_step k h o).
Proof.
  intros Hm. destruct o as [k' c now|k' now|k' t now]; cbn [quota_step key_step].
  - assert (qs_quotas (Quota_Increment tiers AddMonth k' c now s).2 = (IncrementUsage tiers AddMonth (qs_quotas s) k' c now).2) as ->.
    { unfold Quota_Increment, mbind, st_bind, st_get. destruct (IncrementUsage _ _ _ _ _ _) as [q st].
      unfold st_modify. by destruct (_ && _). }
    unfold IncrementUsage. cbn [snd]. case_bool_decide as E; [subst k'|by rewrite lookup_insert_ne].
    rewrite lookup_insert_eq. destruct (qs_quotas s !! k) as [q|], h as [[t u]|]; [|done|done|by split_and!].
    destruct Hm as (Ht & Hu & Hl & Ho). cbn -[wrap64]. rewrite Hu. split_and!; try done. apply wrap64_add.
  - assert (qs_quotas (Quota_Reset AddMonth k' now s).2 =
      if str_empty k' then qs_quotas s else ResetQuota AddMonth (qs_quotas s) k' now) as ->.
    { unfold Quota_Reset. by destruct (str_empty k'). }
    unfold str_empty, ResetQuota. destruct (decide (k' = k /\ k <> "")) as [[-> Hk]|Hn].
    + rewrite (bool_decide_false (k = "")), bool_decide_true by done. destruct (qs_quotas s !! k) as [q|] eqn:Hq.
      * rewrite lookup_insert_eq. destruct h as [[t u]|]; [|done]. by destruct Hm as (Ht & Hu & Hl & Ho).
      * rewrite Hq. by destruct h as [[t u]|].
    + rewrite (bool_decide_false (k' = k /\ _)) by done. case_bool_decide; [done|].
      case_match; [rewrite lookup_insert_ne by naive_solver|]; done.
  - assert (qs_quotas (Quota_UpdateTier tiers AddMonth k' t now s).2 =
      if str_empty k' || negb (QuotaTier_IsValid t) then qs_quotas s
      else Store_UpdateTier tiers AddMonth (qs_quotas s) k' t now) as ->.
    { unfold Quota_UpdateTier. by destruct (str_empty k'), (QuotaTier_IsValid t). }
    unfold str_empty, Store_UpdateTier.
    destruct (decide (k' = k /\ k <> "" /\ QuotaTier_IsValid t = true)) as [(-> & Hk & Ht)|Hn].
    + rewrite (bool_decide_false (k = "")), bool_decide_true, Ht by done.
      destruct (qs_quotas s !! k) as [q|] eqn:Hq; cbn [orb negb]; rewrite lookup_insert_eq;
        destruct h as [[t' u]|]; try done. by destruct Hm as (_ & Hu & _ & _).
    + rewrite (bool_decide_false (k' = k /\ _)) by done. destruct (bool_decide (k' = "")) eqn:E; [done|].
      destruct (QuotaTier_IsValid t) eqn:Ht; [|done]. bools. cbn [orb negb].
      case_match; rewrite lookup_insert_ne by naive_solver; done.
Qed.

(** A key's quota record says exactly what happened to the key: on every history of
    calls of the service, over any number of keys, its usage is the sum of the
    increments since its last reset (modulo the width of the counter), its tier is the
    last valid one set, [free] by default, and its limit and overage right are those of
    the tier; a key that was never counted or given a tier has no record. *)
Theorem quota_counts_since_reset (ops : list quota_op) (k : string) :
  quota_matches (qs_quotas (quota_run ops) !! k) (key_history k ops).
Proof.
  unfold quota_run, key_history.
  assert (quota_matches (qs_quotas (mkQS ∅ []) !! k) None) as H0 by (cbn; by rewrite lookup_empty).
  revert H0. generalize (mkQS ∅ []), (None : option (QuotaTier * Z)).
  induction ops as [|o ops IH]; intros s h Hm; [done|]. cbn [foldl]. by apply IH, quota_step_matches.
Qed.
End quota_history.

(** The unlimited tier is written as the limit -1, and [IsOverQuota] compares with it: an
    enterprise key is over its quota before its first request. *)
Theorem enterprise_is_over_quota (AddMonth : time -> time) (k : string) (now : time) :
  IsOverQuota (new_quota DefaultQuotaTiers AddMonth k QuotaTierEnterprise now) = true.
Proof. reflexivity. Qed.

(** Nothing ends a quota period: an increment after [PeriodEnd] adds to the old usage. *)
Theorem quota_period_never_ends (tiers : gmap string QuotaLimit) (AddMonth : time -> time) (s : InMemoryQuotaStore)
    (k : string) (q : APIKeyQuota) (c : Z) (now : time) :
  s !! k = Some q -> q_PeriodEnd q < now ->
  q_CurrentUsage (IncrementUsage tiers AddMonth s k c now).1 = wrap64 (q_CurrentUsage q + c) /\
  q_PeriodEnd (IncrementUsage tiers AddMonth s k c now).1 = q_PeriodEnd q.
Proof. intros Hq _. unfold IncrementUsage. by rewrite Hq. Qed.

(** ** Witnesses *)

Module AdminExample.
Definition state : AdminState := mkAdmin ∅ demo_store [].
Definition add : AddAllowlistRequest := mkAddReq "ip" " 10.0.0.1" "partner" (Some 100).
Definition added : AdminState * AllowlistEntry :=
  match AddToAllowlist (fun s => s) (fun _ => true) (fun _ => true) "id" 5 5 add state with
  | (Ok e, s) => (s, e)
  | (Err _, s) => (s, mkAllow "" AllowlistTypeIP "" "" None 0)
  end.
End AdminExample.

Lemma reset_clears_exactly_witness :
  exists s', ResetRateLimit (fun s => s) (fun _ => true) (mkResetReq "ip" "10.0.0.1" "") AdminExample.state = (Ok tt, s') /\
    ad_audit s' = ["rate_limit_reset"].
Proof.
  destruct (reset_clears_exactly (fun s => s) (fun _ => true) (mkResetReq "ip" "10.0.0.1" "") AllowlistTypeIP AdminExample.state)
    as (s' & H1 & _ & H2 & _).
  - exact demo_store_wf.
  - vm_compute. reflexivity.
  - vm_compute. reflexivity.
  - by exists s'.
Defined.

Lemma allowlist_life_cycle_witness :
  Allowlist_IsAllowlisted (ad_allowlist AdminExample.added.1) "10.0.0.1" 99 = true.
Proof.
  refine (proj1 (proj1 (allowlist_life_cycle (fun s => s) (fun _ => true) (fun _ => true) "id" 5 5 AdminExample.add
    AdminExample.state AdminExample.added.1
    (RemoveFromAllowlist (fun _ => true) (mkRemReq "ip" "10.0.0.1") AdminExample.added.1).2 AdminExample.added.2 "10.0.0.1" 99
    _ _ _) _) _).
  - vm_compute. reflexivity.
  - vm_compute. reflexivity.
  - discriminate.
  - vm_compute. reflexivity.
  - vm_compute. discriminate.
Defined.
