(* ===== verification/AuthModels.v ===== *)
(** * The auth domain model
    [internal/auth/models/models.go], [internal/auth/models/value_objects.go]

    Sessions, authorization codes, refresh tokens and users, with the guards
    and state changes the services call.  A method that assigns fields of its
    receiver is a function from record to record. *)
From S2P Require Import Prelude Errors.
Open Scope Z_scope.

(** ** Value objects *)

(** A string type with three recognised values. *)
Inductive SessionStatus :=
| SessionStatusPendingConsent
| SessionStatusActive
| SessionStatusRevoked
| SessionStatusOther (s : string).

#[global] Instance SessionStatus_eq_dec : EqDecision SessionStatus.
Proof. solve_decision. Defined.

Definition SessionStatus_IsValid (s : SessionStatus) : bool :=
  match s with SessionStatusOther _ => false | _ => true end.

Definition SessionStatus_text (s : SessionStatus) : string :=
  match s with
  | SessionStatusPendingConsent => "pending_consent"
  | SessionStatusActive => "active"
  | SessionStatusRevoked => "revoked"
  | SessionStatusOther s => s
  end.

Definition CanTransitionTo (s target : SessionStatus) : bool :=
  match s with
  | SessionStatusPendingConsent =>
      bool_decide (target = SessionStatusActive) || bool_decide (target = SessionStatusRevoked)
  | SessionStatusActive => bool_decide (target = SessionStatusRevoked)
  | SessionStatusRevoked | SessionStatusOther _ => false
  end.

Inductive UserStatus := UserStatusActive | UserStatusInactive.

#[global] Instance UserStatus_eq_dec : EqDecision UserStatus.
Proof. solve_decision. Defined.

Inductive RevocationReason :=
| RevocationReasonUserInitiated | RevocationReasonExpired | RevocationReasonUserDeleted
| RevocationReasonAdminRevoked | RevocationReasonSecurityEvent | RevocationReasonReplayDetected
| RevocationReasonTokenRotation.

Definition RevocationReason_text (r : RevocationReason) : string :=
  match r with
  | RevocationReasonUserInitiated => "user_initiated"
  | RevocationReasonExpired => "expired"
  | RevocationReasonUserDeleted => "user_deleted"
  | RevocationReasonAdminRevoked => "admin_revoked"
  | RevocationReasonSecurityEvent => "security_event"
  | RevocationReasonReplayDetected => "replay_detected"
  | RevocationReasonTokenRotation => "token_rotation"
  end.

Definition validRevocationReasons : list RevocationReason :=
  [RevocationReasonUserInitiated; RevocationReasonExpired; RevocationReasonUserDeleted;
   RevocationReasonAdminRevoked; RevocationReasonSecurityEvent; RevocationReasonReplayDetected;
   RevocationReasonTokenRotation].

Definition ParseRevocationReason (s : string) : res RevocationReason :=
  match list_find (fun r => RevocationReason_text r = s) validRevocationReasons with
  | Some (_, r) => Ok r
  | None => Err (EOther ("invalid revocation reason: " +:+ s))
  end.

Record DeviceBinding := mkBinding {
  db_DeviceID : string;
  db_FingerprintHash : string;
  db_DisplayName : string;
  db_ApproximateLocation : string;
}.

#[global] Instance DeviceBinding_eq_dec : EqDecision DeviceBinding.
Proof. solve_decision. Defined.

Definition DeviceBinding_IsEmpty (d : DeviceBinding) : bool :=
  str_empty (db_DeviceID d) && str_empty (db_FingerprintHash d) && str_empty (db_DisplayName d)
  && str_empty (db_ApproximateLocation d).
Definition DeviceBinding_HasDeviceID (d : DeviceBinding) : bool := negb (str_empty (db_DeviceID d)).
Definition DeviceBinding_HasFingerprint (d : DeviceBinding) : bool := negb (str_empty (db_FingerprintHash d)).
Definition DisplayNameOrDefault (d : DeviceBinding) : string :=
  if str_empty (db_DisplayName d) then "Unknown device" else db_DisplayName d.
Definition NewDeviceBinding (deviceID fingerprintHash displayName location : string) : DeviceBinding :=
  mkBinding (TrimSpace deviceID) (TrimSpace fingerprintHash) (TrimSpace displayName) (TrimSpace location).

(** ** Users *)

Record User := mkUser {
  u_ID : uuid;
  u_TenantID : uuid;
  u_Email : string;
  u_FirstName : string;
  u_LastName : string;
  u_Verified : bool;
  u_Status : UserStatus;
}.

Definition User_IsActive (u : User) : bool := bool_decide (u_Status u = UserStatusActive).

Definition NewUser (id tenantID : uuid) (email firstName lastName : string) (verified : bool) : res User :=
  if str_empty email then Err (New CodeInvariantViolation "user email cannot be empty")
  else Ok (mkUser id tenantID email firstName lastName verified UserStatusActive).

(** ** Sessions *)

Record Session := mkSession {
  s_ID : uuid;
  s_UserID : uuid;
  s_ClientID : uuid;
  s_TenantID : uuid;
  s_RequestedScope : list string;
  s_Status : SessionStatus;
  s_LastRefreshedAt : option time;
  s_LastAccessTokenJTI : string;
  s_Binding : DeviceBinding;
  s_CreatedAt : time;
  s_ExpiresAt : time;
  s_LastSeenAt : time;
  s_RevokedAt : option time;
}.

#[global] Instance Session_eq_dec : EqDecision Session.
Proof. solve_decision. Defined.

Definition set_Status (s : Session) (v : SessionStatus) : Session :=
  mkSession (s_ID s) (s_UserID s) (s_ClientID s) (s_TenantID s) (s_RequestedScope s) v
    (s_LastRefreshedAt s) (s_LastAccessTokenJTI s) (s_Binding s) (s_CreatedAt s) (s_ExpiresAt s)
    (s_LastSeenAt s) (s_RevokedAt s).
Definition set_LastRefreshedAt (s : Session) (v : option time) : Session :=
  mkSession (s_ID s) (s_UserID s) (s_ClientID s) (s_TenantID s) (s_RequestedScope s) (s_Status s)
    v (s_LastAccessTokenJTI s) (s_Binding s) (s_CreatedAt s) (s_ExpiresAt s)
    (s_LastSeenAt s) (s_RevokedAt s).
Definition set_LastAccessTokenJTI (s : Session) (v : string) : Session :=
  mkSession (s_ID s) (s_UserID s) (s_ClientID s) (s_TenantID s) (s_RequestedScope s) (s_Status s)
    (s_LastRefreshedAt s) v (s_Binding s) (s_CreatedAt s) (s_ExpiresAt s)
    (s_LastSeenAt s) (s_RevokedAt s).
Definition set_Binding (s : Session) (v : DeviceBinding) : Session :=
  mkSession (s_ID s) (s_UserID s) (s_ClientID s) (s_TenantID s) (s_RequestedScope s) (s_Status s)
    (s_LastRefreshedAt s) (s_LastAccessTokenJTI s) v (s_CreatedAt s) (s_ExpiresAt s)
    (s_LastSeenAt s) (s_RevokedAt s).
Definition set_LastSeenAt (s : Session) (v : time) : Session :=
  mkSession (s_ID s) (s_UserID s) (s_ClientID s) (s_TenantID s) (s_RequestedScope s) (s_Status s)
    (s_LastRefreshedAt s) (s_LastAccessTokenJTI s) (s_Binding s) (s_CreatedAt s) (s_ExpiresAt s)
    v (s_RevokedAt s).
Definition set_RevokedAt (s : Session) (v : option time) : Session :=
  mkSession (s_ID s) (s_UserID s) (s_ClientID s) (s_TenantID s) (s_RequestedScope s) (s_Status s)
    (s_LastRefreshedAt s) (s_LastAccessTokenJTI s) (s_Binding s) (s_CreatedAt s) (s_ExpiresAt s)
    (s_LastSeenAt s) v.

Definition Session_IsActive (s : Session) : bool := bool_decide (s_Status s = SessionStatusActive).
Definition Session_IsPendingConsent (s : Session) : bool :=
  bool_decide (s_Status s = SessionStatusPendingConsent).
Definition Session_IsRevoked (s : Session) : bool := bool_decide (s_Status s = SessionStatusRevoked).

Definition Session_CanActivate (s : Session) : res unit :=
  if negb (Session_IsPendingConsent s)
  then Err (New CodeInvariantViolation "session is not pending consent") else Ok tt.
Definition Session_ApplyActivation (s : Session) : Session := set_Status s SessionStatusActive.
Definition Session_Activate (s : Session) : res Session :=
  _ ← Session_CanActivate s; Ok (Session_ApplyActivation s).

Definition Session_CanAdvance (s : Session) (allowPending : bool) : bool :=
  if Session_IsActive s then true else allowPending && Session_IsPendingConsent s.

Definition Session_CanRevoke (s : Session) : res unit :=
  if Session_IsRevoked s
  then Err (New CodeInvariantViolation "session is already revoked") else Ok tt.
Definition Session_ApplyRevocation (s : Session) (at_ : time) : Session :=
  let s := set_Status s SessionStatusRevoked in
  if nil_or_After at_ (s_RevokedAt s) then set_RevokedAt s (Some at_) else s.
Definition Session_Revoke (s : Session) (at_ : time) : res Session :=
  _ ← Session_CanRevoke s; Ok (Session_ApplyRevocation s at_).

Definition Session_RecordActivity (s : Session) (at_ : time) : Session :=
  if time_After at_ (s_LastSeenAt s) then set_LastSeenAt s at_ else s.
Definition Session_RecordRefresh (s : Session) (at_ : time) : Session :=
  let s := if nil_or_After at_ (s_LastRefreshedAt s) then set_LastRefreshedAt s (Some at_) else s in
  Session_RecordActivity s at_.
Definition Session_ApplyTokenJTI (s : Session) (jti : string) : Session :=
  if negb (str_empty jti) then set_LastAccessTokenJTI s jti else s.

Definition Session_GetDeviceBinding (s : Session) : DeviceBinding := s_Binding s.
Definition Session_SetDeviceBinding (s : Session) (b : DeviceBinding) : Session := set_Binding s b.

Definition set_DeviceID (s : Session) (v : string) : Session :=
  let b := s_Binding s in
  set_Binding s (mkBinding v (db_FingerprintHash b) (db_DisplayName b) (db_ApproximateLocation b)).
Definition set_FingerprintHash (s : Session) (v : string) : Session :=
  let b := s_Binding s in
  set_Binding s (mkBinding (db_DeviceID b) v (db_DisplayName b) (db_ApproximateLocation b)).

Definition Session_ApplyDeviceInfo (s : Session) (deviceID fingerprintHash : string) : Session :=
  let s := if negb (str_empty deviceID) then set_DeviceID s deviceID else s in
  if negb (str_empty fingerprintHash) then set_FingerprintHash s fingerprintHash else s.

Definition Session_ValidateForAdvance (s : Session) (clientID : uuid) (at_ : time) (allowPending : bool)
    : res unit :=
  if negb (bool_decide (s_ClientID s = clientID)) then Err (New CodeUnauthorized "client_id mismatch")
  else if Session_IsRevoked s then Err (New CodeUnauthorized "session has been revoked")
  else if negb (Session_CanAdvance s allowPending) then Err (New CodeUnauthorized "session in invalid state")
  else if time_After at_ (s_ExpiresAt s) then Err (New CodeUnauthorized "session expired")
  else Ok tt.

Definition NewSession (id userID clientID tenantID : uuid) (scopes : list string)
    (status : SessionStatus) (createdAt expiresAt lastSeenAt : time) : res Session :=
  if (length scopes =? 0)%nat then Err (New CodeInvariantViolation "scopes cannot be empty")
  else if negb (SessionStatus_IsValid status)
  then Err (New CodeInvariantViolation ("invalid session status: " +:+ SessionStatus_text status))
  else if time_Before expiresAt createdAt
  then Err (New CodeInvariantViolation "session expiry must be after creation")
  else Ok (mkSession id userID clientID tenantID scopes status None "" (mkBinding "" "" "" "")
             createdAt expiresAt lastSeenAt None).

(** ** Authorization codes *)

Record AuthorizationCodeRecord := mkCode {
  ac_ID : uuid;
  ac_Code : string;
  ac_SessionID : uuid;
  ac_RedirectURI : string;
  ac_ExpiresAt : time;
  ac_Used : bool;
  ac_CreatedAt : time;
}.

Definition AuthCode_IsValid (a : AuthorizationCodeRecord) (now : time) : bool :=
  negb (ac_Used a) && time_After (ac_ExpiresAt a) now.
Definition AuthCode_IsExpired (a : AuthorizationCodeRecord) (now : time) : bool :=
  time_After now (ac_ExpiresAt a).
(** The boolean says whether this call marked the code. *)
Definition AuthCode_MarkUsed (a : AuthorizationCodeRecord) : bool * AuthorizationCodeRecord :=
  if ac_Used a then (false, a)
  else (true, mkCode (ac_ID a) (ac_Code a) (ac_SessionID a) (ac_RedirectURI a) (ac_ExpiresAt a) true
                (ac_CreatedAt a)).
Definition AuthCode_ValidateForConsume (a : AuthorizationCodeRecord) (redirectURI : string) (now : time)
    : res unit :=
  if negb (bool_decide (ac_RedirectURI a = redirectURI))
  then Err (New CodeBadRequest "redirect_uri mismatch")
  else if AuthCode_IsExpired a now then Err (New CodeUnauthorized "authorization code expired")
  else if ac_Used a then Err (New CodeUnauthorized "authorization code already used")
  else Ok tt.

Definition authorizationCodePrefix : string := "authz_".

(** [strings.TrimPrefix]. *)
Definition TrimPrefix (s pre : string) : string :=
  if String.prefix pre s then String.substring (String.length pre) (String.length s - String.length pre) s
  else s.

(** [expiresAt] is printed into the message of the last check. *)
Definition NewAuthorizationCode (id : uuid) (code : string) (sessionID : uuid) (redirectURI : string)
    (createdAt expiresAt now : time) : res AuthorizationCodeRecord :=
  if str_empty code then Err (New CodeInvariantViolation "authorization code cannot be empty")
  else
    let code := TrimPrefix code authorizationCodePrefix in
    if str_empty code then Err (New CodeInvariantViolation "authorization code cannot be empty")
    else if str_empty redirectURI then Err (New CodeInvariantViolation "redirect URI cannot be empty")
    else if time_Before expiresAt createdAt
    then Err (New CodeInvariantViolation "authorization code expiry must be after creation")
    else if time_Before expiresAt now
    then Err (New CodeInvariantViolation ("authorization code already expired at " +:+ pretty expiresAt))
    else Ok (mkCode id (authorizationCodePrefix +:+ code) sessionID redirectURI expiresAt false createdAt).

(** ** Refresh tokens *)

Record RefreshTokenRecord := mkRT {
  rt_ID : uuid;
  rt_Token : string;
  rt_SessionID : uuid;
  rt_ExpiresAt : time;
  rt_Used : bool;
  rt_LastRefreshedAt : option time;
  rt_CreatedAt : time;
}.

Definition RefreshToken_IsValid (r : RefreshTokenRecord) (now : time) : bool :=
  negb (rt_Used r) && time_After (rt_ExpiresAt r) now.
Definition RefreshToken_IsExpired (r : RefreshTokenRecord) (now : time) : bool :=
  time_After now (rt_ExpiresAt r).
Definition RefreshToken_MarkUsed (r : RefreshTokenRecord) (at_ : time) : bool * RefreshTokenRecord :=
  if rt_Used r then (false, r)
  else (true, mkRT (rt_ID r) (rt_Token r) (rt_SessionID r) (rt_ExpiresAt r) true
                (if nil_or_After at_ (rt_LastRefreshedAt r) then Some at_ else rt_LastRefreshedAt r)
                (rt_CreatedAt r)).
Definition RefreshToken_ValidateForConsume (r : RefreshTokenRecord) (now : time) : res unit :=
  if RefreshToken_IsExpired r now then Err (New CodeUnauthorized "refresh token expired")
  else if rt_Used r then Err (New CodeUnauthorized "refresh token already used")
  else Ok tt.

Definition NewRefreshToken (id : uuid) (token : string) (sessionID : uuid)
    (createdAt expiresAt now : time) : res RefreshTokenRecord :=
  if str_empty token then Err (New CodeInvariantViolation "refresh token cannot be empty")
  else if time_Before expiresAt createdAt
  then Err (New CodeInvariantViolation "refresh token expiry must be after creation")
  else if time_Before expiresAt now
  then Err (New CodeInvariantViolation ("refresh token already expired at " +:+ pretty expiresAt))
  else Ok (mkRT id token sessionID expiresAt false None createdAt).

(** ** Facts about sessions *)

(** Fields no operation changes. *)
Definition session_identity (s : Session) : uuid * uuid * uuid * uuid * list string * time * time :=
  (s_ID s, s_UserID s, s_ClientID s, s_TenantID s, s_RequestedScope s, s_CreatedAt s, s_ExpiresAt s).

(** The state changes a token flow applies, in the order of the mutation
    callback. *)
Definition session_advance (activate : bool) (now : time) (jti deviceID fingerprint : string)
    (s : Session) : Session :=
  let s := if activate
    then
      let s := Session_RecordActivity s now in
      if Session_IsPendingConsent s then Session_ApplyActivation s else s
    else Session_RecordRefresh s now in
  let s := Session_ApplyTokenJTI s jti in
  Session_ApplyDeviceInfo s deviceID fingerprint.

Lemma session_advance_identity activate now jti d f s :
  session_identity (session_advance activate now jti d f s) = session_identity s.
Proof.
  unfold session_advance, Session_RecordRefresh, Session_RecordActivity, Session_ApplyTokenJTI,
    Session_ApplyDeviceInfo. by repeat case_match.
Qed.

Lemma session_advance_status activate now jti d f s :
  s_Status (session_advance activate now jti d f s) =
  if activate && Session_IsPendingConsent s then SessionStatusActive else s_Status s.
Proof.
  unfold session_advance, Session_RecordRefresh, Session_RecordActivity, Session_ApplyTokenJTI,
    Session_ApplyDeviceInfo, Session_IsPendingConsent.
  destruct activate; repeat (case_match; simpl in *; try done); congruence.
Qed.

Lemma session_advance_JTI activate now jti d f s :
  s_LastAccessTokenJTI (session_advance activate now jti d f s) =
  if str_empty jti then s_LastAccessTokenJTI s else jti.
Proof.
  unfold session_advance, Session_RecordRefresh, Session_RecordActivity, Session_ApplyTokenJTI,
    Session_ApplyDeviceInfo. destruct (str_empty jti); by repeat case_match.
Qed.

Lemma ApplyRevocation_identity s t : session_identity (Session_ApplyRevocation s t) = session_identity s.
Proof. unfold Session_ApplyRevocation. by case_match. Qed.

Lemma ApplyRevocation_status s t : s_Status (Session_ApplyRevocation s t) = SessionStatusRevoked.
Proof. unfold Session_ApplyRevocation. by case_match. Qed.

Lemma ApplyRevocation_JTI s t :
  s_LastAccessTokenJTI (Session_ApplyRevocation s t) = s_LastAccessTokenJTI s.
Proof. unfold Session_ApplyRevocation. by case_match. Qed.

#[export] Hint Rewrite session_advance_identity ApplyRevocation_identity ApplyRevocation_status : credo.

Lemma ValidateForAdvance_Ok s c t p :
  Session_ValidateForAdvance s c t p = Ok tt <->
  s_ClientID s = c /\ (s_Status s = SessionStatusActive \/ (p = true /\ s_Status s = SessionStatusPendingConsent))
  /\ t <= s_ExpiresAt s.
Proof.
  unfold Session_ValidateForAdvance, Session_CanAdvance, Session_IsRevoked, Session_IsActive,
    Session_IsPendingConsent, time_After.
  destruct (bool_decide_reflect (s_ClientID s = c)); simpl; [|split; [done|intros [? _]; done]].
  destruct (Z.ltb_spec (s_ExpiresAt s) t); destruct (s_Status s), p; simpl;
    (split; [intros [=]; split_and!; auto
            |intros (_ & [?|[? ?]] & ?); first [done|discriminate|lia]]).
Qed.
