(* ===== verification/TRL.v ===== *)
(** * The token revocation list
    [internal/auth/store/revocation/revocation.go], [ttl.go]

    A bounded map from token identifiers to expiry times, with a slice that
    remembers insertion order for first-in first-out eviction.  The clock is an
    argument of each operation. *)
From S2P Require Import Prelude Errors.
Open Scope Z_scope.

Definition DefaultMaxSize : Z := 10000.

Record InMemoryTRL := mkTRL {
  trl_revoked : gmap string time;
  trl_order : list string;
  trl_maxSize : Z;
}.

Inductive TRLOption := WithMaxSize (maxSize : Z).

Definition NewInMemoryTRL (opts : list TRLOption) : InMemoryTRL :=
  foldl (fun t '(WithMaxSize m) => if 0 <=? m then mkTRL (trl_revoked t) (trl_order t) m else t)
    (mkTRL ∅ [] DefaultMaxSize) opts.

Definition validateTTL (ttl : duration) : res unit :=
  if ttl <=? 0 then Err (EWrap "ttl must be positive" (EVal ErrInvalidState)) else Ok tt.

(** The eviction loop takes the oldest entry while there is no room. *)
Fixpoint evict (max : Z) (n : nat) (revoked : gmap string time) (order : list string)
    : gmap string time * list string :=
  match order with
  | [] => (revoked, [])
  | oldest :: rest =>
      if max <? Z.of_nat (size revoked + n) then evict max n (delete oldest revoked) rest
      else (revoked, order)
  end.

Definition evictIfNeeded (t : InMemoryTRL) (n : nat) : InMemoryTRL :=
  if trl_maxSize t =? 0 then t
  else
    let '(revoked, order) := evict (trl_maxSize t) n (trl_revoked t) (trl_order t) in
    mkTRL revoked order (trl_maxSize t).

Definition TRL_RevokeToken (now : time) (t : InMemoryTRL) (jti : string) (ttl : duration)
    : res unit * InMemoryTRL :=
  match validateTTL ttl with
  | Err e => (Err e, t)
  | Ok _ =>
      match trl_revoked t !! jti with
      | Some _ => (Ok tt, mkTRL (<[jti := time_Add now ttl]> (trl_revoked t)) (trl_order t) (trl_maxSize t))
      | None =>
          let t := evictIfNeeded t 1 in
          (Ok tt, mkTRL (<[jti := time_Add now ttl]> (trl_revoked t)) (trl_order t ++ [jti]) (trl_maxSize t))
      end
  end.

Definition TRL_IsRevoked (now : time) (t : InMemoryTRL) (jti : string) : bool :=
  match trl_revoked t !! jti with
  | None => false
  | Some expiry => negb (time_After now expiry)
  end.

(** The first loop: refresh the known entries and collect the others. *)
Fixpoint split_jtis (expiry : time) (revoked : gmap string time) (jtis : list string)
    : gmap string time * list string :=
  match jtis with
  | [] => (revoked, [])
  | jti :: rest =>
      match revoked !! jti with
      | None => let '(m, new) := split_jtis expiry revoked rest in (m, jti :: new)
      | Some _ => split_jtis expiry (<[jti := expiry]> revoked) rest
      end
  end.

Definition TRL_RevokeSessionTokens (now : time) (t : InMemoryTRL) (jtis : list string) (ttl : duration)
    : res unit * InMemoryTRL :=
  match validateTTL ttl with
  | Err e => (Err e, t)
  | Ok _ =>
      let expiry := time_Add now ttl in
      let '(revoked, newJTIs) := split_jtis expiry (trl_revoked t) jtis in
      let t := evictIfNeeded (mkTRL revoked (trl_order t) (trl_maxSize t)) (length newJTIs) in
      (Ok tt, mkTRL (foldl (fun m jti => <[jti := expiry]> m) (trl_revoked t) newJTIs)
                (trl_order t ++ newJTIs) (trl_maxSize t))
  end.

Definition compactOrder (t : InMemoryTRL) : InMemoryTRL :=
  if (length (trl_order t) =? 0)%nat then t
  else mkTRL (trl_revoked t) (filter (fun jti => is_Some (trl_revoked t !! jti)) (trl_order t)) (trl_maxSize t).

(** One tick of the background clean-up. *)
Definition TRL_cleanup (now : time) (t : InMemoryTRL) : InMemoryTRL :=
  compactOrder (mkTRL (filter (fun kv => time_After now kv.2 = false) (trl_revoked t))
                  (trl_order t) (trl_maxSize t)).

(** ** Histories *)

Inductive trl_op :=
| TRLRevoke (now : time) (jti : string) (ttl : duration)
| TRLRevokeSession (now : time) (jtis : list string) (ttl : duration)
| TRLCleanup (now : time).

Definition trl_step (t : InMemoryTRL) (op : trl_op) : InMemoryTRL :=
  match op with
  | TRLRevoke now jti ttl => (TRL_RevokeToken now t jti ttl).2
  | TRLRevokeSession now jtis ttl => (TRL_RevokeSessionTokens now t jtis ttl).2
  | TRLCleanup now => TRL_cleanup now t
  end.

Definition trl_run (t : InMemoryTRL) (ops : list trl_op) : InMemoryTRL := foldl trl_step t ops.

(** Entries an operation may add, and the revocations it makes. *)
Definition trl_weight (op : trl_op) : Z :=
  match op with TRLRevoke _ _ _ => 1 | TRLRevokeSession _ l _ => Z.of_nat (length l) | TRLCleanup _ => 0 end.

Definition trl_revokes (op : trl_op) (jti : string) (expiry : time) : Prop :=
  match op with
  | TRLRevoke now j ttl => j = jti /\ 0 < ttl /\ expiry = now + ttl
  | TRLRevokeSession now l ttl => jti ∈ l /\ 0 < ttl /\ expiry = now + ttl
  | TRLCleanup _ => False
  end.

(** ** The invariant: the slice lists the keys of the map once each *)

Record trl_wf (t : InMemoryTRL) : Prop := {
  trlwf_nodup : NoDup (trl_order t);
  trlwf_dom : forall j, j ∈ trl_order t <-> is_Some (trl_revoked t !! j);
}.

Lemma trl_size t : trl_wf t -> size (trl_revoked t) = length (trl_order t).
Proof.
  intros [Hnd Hdom]. rewrite <- size_dom.
  rewrite <- (size_list_to_set (C:=gset string) (trl_order t)) by done.
  f_equal. apply set_eq. intros j. by rewrite elem_of_list_to_set, elem_of_dom, Hdom.
Qed.

(** Eviction drops a prefix of the slice, and no more of it than needed. *)
Lemma evict_spec max n m order :
  NoDup order -> (forall j, j ∈ order <-> is_Some (m !! j)) ->
  exists k, (evict max n m order).2 = drop k order /\
    (forall j, (evict max n m order).1 !! j = if decide (j ∈ take k order) then None else m !! j) /\
    (k <= length order)%nat /\
    (forall i, (i < k)%nat -> max < Z.of_nat (length order - i + n)).
Proof.
  revert m. induction order as [|o rest IH]; intros m Hnd Hdom.
  { exists 0%nat. simpl. split_and!; try done. intros; lia. }
  assert (size m = length (o :: rest)) as Hsize by (apply (trl_size (mkTRL m (o :: rest) 0)); by split).
  simpl. destruct (Z.ltb_spec max (Z.of_nat (size m + n))) as [Hlt|Hge].
  - apply NoDup_cons in Hnd as [Ho Hnd].
    destruct (IH (delete o m) Hnd) as (k & H1 & H2 & H3 & H4).
    { intros j. destruct (decide (j = o)) as [->|Hne].
      - rewrite lookup_delete_eq. split; [done|by intros [? ?]].
      - rewrite lookup_delete_ne by done. rewrite <- Hdom, elem_of_cons. tauto. }
    exists (S k). simpl. split_and!; [done| |lia|].
    + intros j. rewrite H2. destruct (decide (j = o)) as [->|Hne].
      * rewrite lookup_delete_eq. rewrite (decide_True (P := o ∈ o :: take k rest)) by constructor.
        by case_decide.
      * rewrite lookup_delete_ne by done. destruct (decide (j ∈ take k rest)) as [Hj|Hj].
        -- by rewrite decide_True by (by constructor).
        -- rewrite decide_False; [done|]. by intros [?|?]%elem_of_cons.
    + intros [|i] Hi; [simpl in Hsize; lia|]. specialize (H4 i ltac:(lia)). lia.
  - exists 0%nat. simpl. split_and!; try done; [lia|intros; lia].
Qed.

Lemma evictIfNeeded_wf t n : trl_wf t -> trl_wf (evictIfNeeded t n).
Proof.
  intros [Hnd Hdom]. unfold evictIfNeeded. case_match; [done|].
  destruct (evict_spec (trl_maxSize t) n _ _ Hnd Hdom) as (k & H1 & H2 & _).
  destruct (evict _ _ _ _) as [m o]. simpl in *. subst o.
  rewrite <- (take_drop k (trl_order t)) in Hnd. apply NoDup_app in Hnd as (Hn1 & Hn2 & Hn3).
  split; simpl; [done|]. intros j. rewrite H2.
  rewrite <- (take_drop k (trl_order t)) in Hdom. case_decide as Hd.
  - split; [by intros ?%Hn2|by intros [? ?]].
  - rewrite <- Hdom. rewrite elem_of_app. tauto.
Qed.

Lemma if_elem_cons_ne {A} (j k : string) l (x y : A) :
  j <> k -> (if decide (j ∈ k :: l) then x else y) = if decide (j ∈ l) then x else y.
Proof. intros Hne. destruct (decide (j ∈ k :: l)) as [H|H], (decide (j ∈ l)); rewrite elem_of_cons in H; tauto || done. Qed.

Lemma if_elem_here {A} (k : string) l (x y : A) : (if decide (k ∈ k :: l) then x else y) = x.
Proof. by rewrite decide_True by constructor. Qed.

Lemma split_jtis_new e m jtis : (split_jtis e m jtis).2 = filter (fun j => m !! j = None) jtis.
Proof.
  revert m. induction jtis as [|j jtis IH]; intros m; [done|]. simpl.
  destruct (m !! j) eqn:E.
  - rewrite IH, filter_cons_False by congruence. apply filter_ext_in. intros k _.
    destruct (decide (k = j)) as [->|]; [by rewrite lookup_insert_eq, E|by rewrite lookup_insert_ne].
  - rewrite filter_cons_True by done. specialize (IH m). destruct (split_jtis e m jtis). simpl in *. by f_equal.
Qed.

Lemma split_jtis_lookup e m jtis j :
  (split_jtis e m jtis).1 !! j = if decide (j ∈ jtis) then (fun _ => e) <$> m !! j else m !! j.
Proof.
  revert m. induction jtis as [|k jtis IH]; intros m; simpl; [done|].
  destruct (m !! k) eqn:E.
  - rewrite IH. destruct (decide (j = k)) as [->|Hne].
    + rewrite lookup_insert_eq, E, if_elem_here. by case_decide.
    + by rewrite lookup_insert_ne, if_elem_cons_ne.
  - specialize (IH m). destruct (split_jtis e m jtis) as [m' new]. simpl in *. rewrite IH.
    destruct (decide (j = k)) as [->|Hne]; [|by rewrite if_elem_cons_ne].
    rewrite if_elem_here, E. by case_decide.
Qed.

Lemma foldl_insert_lookup (e : time) (m : gmap string time) (l : list string) j :
  foldl (fun m jti => <[jti := e]> m) m l !! j = if decide (j ∈ l) then Some e else m !! j.
Proof.
  revert m. induction l as [|k l IH]; intros m; simpl; [done|].
  rewrite IH. destruct (decide (j = k)) as [->|Hne].
  - rewrite lookup_insert_eq, if_elem_here. by case_decide.
  - by rewrite lookup_insert_ne, if_elem_cons_ne.
Qed.

Lemma evictIfNeeded_sub t n j : trl_wf t ->
  is_Some (trl_revoked (evictIfNeeded t n) !! j) -> trl_revoked (evictIfNeeded t n) !! j = trl_revoked t !! j.
Proof.
  intros [Hnd Hdom]. unfold evictIfNeeded. case_match; [done|].
  destruct (evict_spec (trl_maxSize t) n _ _ Hnd Hdom) as (k & _ & H2 & _).
  destruct (evict _ _ _ _) as [m o]. simpl in *. rewrite H2. case_decide; [by intros [? ?]|done].
Qed.

(** Adding fresh entries after an eviction keeps the invariant. *)
Lemma trl_add_wf t new e :
  trl_wf t -> NoDup new -> (forall j, j ∈ new -> trl_revoked t !! j = None) ->
  trl_wf (mkTRL (foldl (fun m jti => <[jti := e]> m) (trl_revoked t) new) (trl_order t ++ new) (trl_maxSize t)).
Proof.
  intros [Hnd Hdom] Hn Hfresh. split; simpl.
  - apply NoDup_app. split_and!; [done| |done].
    intros j Hj Hin. apply Hdom in Hj. rewrite (Hfresh j Hin) in Hj. by destruct Hj.
  - intros j. rewrite elem_of_app, foldl_insert_lookup, Hdom. case_decide; [|tauto].
    split; [eauto|auto].
Qed.

Lemma trl_step_wf t op :
  (match op with TRLRevokeSession _ l _ => NoDup l | _ => True end) -> trl_wf t -> trl_wf (trl_step t op).
Proof.
  intros Hop Hwf. destruct op as [now jti ttl|now jtis ttl|now]; simpl.
  - unfold TRL_RevokeToken. destruct (validateTTL ttl); [|done].
    destruct (trl_revoked t !! jti) eqn:E; simpl.
    + destruct Hwf as [Hnd Hdom]. split; [done|]. intros j. simpl. rewrite Hdom.
      destruct (decide (j = jti)) as [->|]; [by rewrite lookup_insert_eq, E|by rewrite lookup_insert_ne].
    + apply (trl_add_wf (evictIfNeeded t 1) [jti] (time_Add now ttl)).
      * by apply evictIfNeeded_wf.
      * apply NoDup_singleton.
      * intros j ->%list_elem_of_singleton. destruct (trl_revoked (evictIfNeeded t 1) !! jti) eqn:E'; [|done].
        rewrite evictIfNeeded_sub in E' by (done || rewrite E'; eauto). congruence.
  - unfold TRL_RevokeSessionTokens. destruct (validateTTL ttl); [|done].
    pose proof (split_jtis_new (time_Add now ttl) (trl_revoked t) jtis) as Hnew.
    pose proof (split_jtis_lookup (time_Add now ttl) (trl_revoked t) jtis) as Hlk.
    destruct (split_jtis _ _ _) as [m new]. simpl in *. subst new.
    assert (trl_wf (mkTRL m (trl_order t) (trl_maxSize t))) as Hwf'.
    { destruct Hwf as [Hnd Hdom]. split; [done|]. intros j. simpl. rewrite Hlk, Hdom.
      case_decide; [|done]. by rewrite fmap_is_Some. }
    apply (trl_add_wf (evictIfNeeded (mkTRL m (trl_order t) (trl_maxSize t)) _)).
    + by apply evictIfNeeded_wf.
    + by apply NoDup_filter.
    + intros j [Hj Hin]%list_elem_of_filter.
      match goal with |- trl_revoked ?x !! j = None => destruct (trl_revoked x !! j) eqn:E'; [|done] end.
      rewrite evictIfNeeded_sub in E' by (done || rewrite E'; eauto). simpl in E'.
      rewrite Hlk, Hj in E'. by case_decide.
  - unfold TRL_cleanup, compactOrder. simpl. destruct Hwf as [Hnd Hdom].
    destruct (Nat.eqb_spec (length (trl_order t)) 0) as [Hz|Hz].
    + apply nil_length_inv in Hz. split; simpl; [done|]. intros j. rewrite Hz.
      split; [by intros ?%elem_of_nil|]. intros [e [He _]%map_lookup_filter_Some].
      assert (j ∈ trl_order t) as Hj by (apply Hdom; eauto). rewrite Hz in Hj. by apply elem_of_nil in Hj.
    + split; simpl; [by apply NoDup_filter|]. intros j. rewrite list_elem_of_filter, Hdom.
      split; [tauto|]. intros He. split; [done|]. destruct He as [e [He _]%map_lookup_filter_Some]. eauto.
Qed.

(** ** Retention *)

(** [jti] is listed, at most [c] entries are younger, and its revocation
    reaches [t]. *)
Definition retained (jti : string) (t : time) (c : Z) (s : InMemoryTRL) : Prop :=
  exists pre post e, trl_order s = pre ++ jti :: post /\ Z.of_nat (length post) <= c /\
    trl_revoked s !! jti = Some e /\ t <= e.

Lemma evict_retained jti t c s n :
  trl_wf s -> retained jti t c s -> trl_maxSize s = 0 \/ 1 + c + Z.of_nat n <= trl_maxSize s ->
  retained jti t c (evictIfNeeded s n).
Proof.
  intros [Hnd Hdom] (pre & post & e & Ho & Hlen & He & Ht) Hroom. unfold evictIfNeeded.
  destruct (Z.eqb_spec (trl_maxSize s) 0) as [|Hne]; [by exists pre, post, e|].
  destruct Hroom as [|Hroom]; [done|].
  destruct (evict_spec (trl_maxSize s) n _ _ Hnd Hdom) as (k & H1 & H2 & _ & H4).
  destruct (evict _ _ _ _) as [m o]. simpl in *. subst o.
  assert (k <= length pre)%nat as Hk.
  { destruct (decide (k <= length pre)%nat); [done|].
    specialize (H4 (length pre) ltac:(lia)). rewrite Ho, length_app in H4. simpl in H4. lia. }
  rewrite Ho in *. apply NoDup_app in Hnd as (_ & Hdis & _).
  exists (drop k pre), post, e. simpl. split_and!; try done.
  - by rewrite drop_app_le.
  - rewrite H2, decide_False; [done|]. rewrite take_app_le by done. intros Hin%elem_of_take.
    destruct Hin as (i & Hi & _). apply list_elem_of_lookup_2 in Hi. apply (Hdis _ Hi). by constructor.
Qed.

Lemma add_retained jti t c s new e n :
  retained jti t c s -> jti ∉ new -> Z.of_nat (length new) <= n ->
  retained jti t (c + n) (mkTRL (foldl (fun m j => <[j := e]> m) (trl_revoked s) new) (trl_order s ++ new) (trl_maxSize s)).
Proof.
  intros (pre & post & e0 & Ho & Hlen & He & Ht) Hnin Hn. exists pre, (post ++ new), e0. simpl. split_and!; try done.
  - rewrite Ho. by rewrite <- app_assoc.
  - rewrite length_app. lia.
  - by rewrite foldl_insert_lookup, decide_False.
Qed.

(** Operations that may follow: clean-ups not later than [t], and revocations of
    the same token that do not shorten it below [t]. *)
Definition op_keeps (jti : string) (t : time) (op : trl_op) : Prop :=
  match op with
  | TRLRevoke now j ttl => j = jti -> t <= now + ttl
  | TRLRevokeSession now l ttl => NoDup l /\ (jti ∈ l -> t <= now + ttl)
  | TRLCleanup now => now <= t
  end.

Lemma retained_refresh jti t c s j e :
  retained jti t c s -> (j = jti -> t <= e) ->
  retained jti t c (mkTRL (<[j := e]> (trl_revoked s)) (trl_order s) (trl_maxSize s)).
Proof.
  intros (pre & post & e0 & Ho & Hlen & He & Ht) Hj.
  destruct (decide (j = jti)) as [->|Hne]; [exists pre, post, e|exists pre, post, e0]; simpl.
  - rewrite lookup_insert_eq. split_and!; auto.
  - by rewrite lookup_insert_ne.
Qed.

Lemma retained_mono jti t c c' s : retained jti t c s -> c <= c' -> retained jti t c' s.
Proof. intros (pre & post & e0 & Ho & Hlen & He & Ht) Hc. exists pre, post, e0. split_and!; try done. lia. Qed.

Lemma trl_step_maxSize s op : trl_maxSize (trl_step s op) = trl_maxSize s.
Proof.
  destruct op; simpl; unfold TRL_RevokeToken, TRL_RevokeSessionTokens, TRL_cleanup, compactOrder, evictIfNeeded;
    repeat (case_match; simplify_eq/=; try done).
Qed.

Lemma trl_step_retained jti t c s op :
  trl_wf s -> 0 <= c -> retained jti t c s -> op_keeps jti t op ->
  trl_maxSize s = 0 \/ 1 + c + trl_weight op <= trl_maxSize s ->
  retained jti t (c + trl_weight op) (trl_step s op).
Proof.
  intros Hwf Hc Hret Hop Hroom. destruct op as [now j ttl|now l ttl|now]; simpl in *.
  - unfold TRL_RevokeToken. destruct (validateTTL ttl); [|by apply (retained_mono _ _ c); [|lia]].
    destruct (trl_revoked s !! j) eqn:E.
    + apply (retained_mono _ _ c); [|lia]. by apply retained_refresh.
    + apply (add_retained jti t c (evictIfNeeded s 1) [j] (time_Add now ttl) 1).
      * by apply evict_retained.
      * intros ->%list_elem_of_singleton. destruct Hret as (? & ? & ? & _ & _ & ? & _). congruence.
      * done.
  - unfold TRL_RevokeSessionTokens. destruct (validateTTL ttl); [|by apply (retained_mono _ _ c); [|lia]].
    pose proof (split_jtis_new (time_Add now ttl) (trl_revoked s) l) as Hnew.
    pose proof (split_jtis_lookup (time_Add now ttl) (trl_revoked s) l) as Hlk.
    destruct (split_jtis _ _ _) as [m new]. simpl in *.
    assert (length new <= length l)%nat as Hln by (rewrite Hnew; apply length_filter).
    assert (retained jti t c (mkTRL m (trl_order s) (trl_maxSize s))) as Hret'.
    { destruct Hret as (pre & post & e0 & Ho & Hlen & He & Ht).
      destruct (decide (jti ∈ l)) as [Hin|Hin].
      - exists pre, post, (now + ttl). simpl. rewrite Hlk, decide_True, He by done.
        destruct Hop as [_ Hop]. split_and!; auto.
      - exists pre, post, e0. simpl. by rewrite Hlk, decide_False. }
    assert (trl_wf (mkTRL m (trl_order s) (trl_maxSize s))) as Hwf'.
    { destruct Hwf as [Hnd Hdom]. split; [done|]. intros k. simpl. rewrite Hlk, Hdom.
      case_decide; [|done]. by rewrite fmap_is_Some. }
    apply (add_retained jti t c (evictIfNeeded (mkTRL m (trl_order s) (trl_maxSize s)) (length new)) new
      (time_Add now ttl)).
    + apply evict_retained; [done..|]. simpl. lia.
    + subst new. intros [Hn _]%list_elem_of_filter. destruct Hret as (? & ? & ? & _ & _ & ? & _). congruence.
    + lia.
  - apply (retained_mono _ _ c); [|lia]. unfold TRL_cleanup, compactOrder. simpl.
    destruct Hret as (pre & post & e & Ho & Hlen & He & Ht).
    assert (filter (fun kv => time_After now kv.2 = false) (trl_revoked s) !! jti = Some e) as He'.
    { apply map_lookup_filter_Some. split; [done|]. simpl. apply Z.ltb_ge. lia. }
    destruct (Nat.eqb_spec (length (trl_order s)) 0) as [Hz|_]; [rewrite Ho, length_app in Hz; simpl in Hz; lia|].
    rewrite Ho, filter_app, filter_cons_True by (rewrite He'; eauto).
    match goal with |- context [?a ++ jti :: ?b] => exists a, b, e end. simpl. split_and!; try done.
    pose proof (length_filter (fun j => is_Some (filter (fun kv => time_After now kv.2 = false) (trl_revoked s) !! j)) post). lia.
Qed.

Definition total_weight (ops : list trl_op) : Z := foldr (fun op n => trl_weight op + n) 0 ops.

Lemma trl_weight_nonneg op : 0 <= trl_weight op.
Proof. destruct op; simpl; lia. Qed.

Lemma total_weight_nonneg ops : 0 <= total_weight ops.
Proof. induction ops as [|op ops IH]; simpl; [done|]. pose proof (trl_weight_nonneg op). lia. Qed.

Lemma trl_run_retained jti t c s ops :
  trl_wf s -> 0 <= c -> retained jti t c s -> Forall (op_keeps jti t) ops ->
  trl_maxSize s = 0 \/ c + total_weight ops < trl_maxSize s ->
  exists c', retained jti t c' (trl_run s ops).
Proof.
  revert c s. induction ops as [|op ops IH]; intros c s Hwf Hc Hret Hops Hroom; [by exists c|].
  apply Forall_cons in Hops as [Hop Hops]. simpl in Hroom.
  pose proof (trl_weight_nonneg op). pose proof (total_weight_nonneg ops).
  apply (IH (c + trl_weight op) (trl_step s op)).
  - apply trl_step_wf; [|done]. destruct op; simpl in *; [done|by destruct Hop|done].
  - lia.
  - apply trl_step_retained; try done. lia.
  - done.
  - rewrite trl_step_maxSize. lia.
Qed.

Lemma RevokeToken_retained now s jti ttl :
  0 < ttl -> trl_revoked s !! jti = None -> retained jti (now + ttl) 0 (TRL_RevokeToken now s jti ttl).2.
Proof.
  intros Httl E. unfold TRL_RevokeToken, validateTTL. destruct (Z.leb_spec ttl 0); [lia|]. rewrite E. simpl.
  exists (trl_order (evictIfNeeded s 1)), [], (now + ttl). simpl. rewrite lookup_insert_eq. by split_and!.
Qed.

Definition sessions_nodup (op : trl_op) : Prop :=
  match op with TRLRevokeSession _ l _ => NoDup l | _ => True end.

Lemma trl_run_wf opts ops :
  Forall sessions_nodup ops -> trl_wf (trl_run (NewInMemoryTRL opts) ops).
Proof.
  intros Hops. assert (trl_wf (NewInMemoryTRL opts)) as Hwf.
  { unfold NewInMemoryTRL. assert (trl_wf (mkTRL ∅ [] DefaultMaxSize)) as H0.
    { split; simpl; [constructor|]. intros j. rewrite lookup_empty. split; [by intros ?%elem_of_nil|by intros [? ?]]. }
    revert H0. generalize (mkTRL ∅ [] DefaultMaxSize). induction opts as [|[m] opts IH]; intros t Ht; simpl; [done|].
    apply IH. case_match; [|done]. by destruct Ht. }
  revert Hwf. generalize (NewInMemoryTRL opts). induction Hops as [|op ops Hop _ IH]; intros t Ht; [done|].
  apply IH. by apply trl_step_wf.
Qed.

Lemma evict_sub max n m order j e : (evict max n m order).1 !! j = Some e -> m !! j = Some e.
Proof.
  revert m. induction order as [|o rest IH]; intros m; simpl; [done|]. case_match; [|done].
  intros H1%IH. by apply lookup_delete_Some in H1 as [_ ?].
Qed.

Lemma evictIfNeeded_lookup s n j e :
  trl_revoked (evictIfNeeded s n) !! j = Some e -> trl_revoked s !! j = Some e.
Proof.
  unfold evictIfNeeded. case_match; [done|]. pose proof (evict_sub (trl_maxSize s) n (trl_revoked s) (trl_order s) j e) as He.
  destruct (evict _ _ _ _). done.
Qed.

Lemma trl_step_source s op j e :
  trl_revoked (trl_step s op) !! j = Some e -> trl_revoked s !! j = Some e \/ trl_revokes op j e.
Proof.
  destruct op as [now jti ttl|now l ttl|now]; simpl.
  - unfold TRL_RevokeToken, validateTTL. destruct (Z.leb_spec ttl 0); simpl; [by left|].
    destruct (trl_revoked s !! jti); simpl; intros [[<- <-]|[_ Hj]]%lookup_insert_Some; auto.
    left. by apply evictIfNeeded_lookup in Hj.
  - unfold TRL_RevokeSessionTokens, validateTTL. destruct (Z.leb_spec ttl 0); simpl; [by left|].
    pose proof (split_jtis_new (time_Add now ttl) (trl_revoked s) l) as Hnew.
    pose proof (split_jtis_lookup (time_Add now ttl) (trl_revoked s) l) as Hlk.
    destruct (split_jtis _ _ _) as [m new]. simpl in *. rewrite foldl_insert_lookup. case_decide as Hd.
    + intros [= <-]. right. subst new. by apply list_elem_of_filter in Hd as [_ ?].
    + intros Hj%evictIfNeeded_lookup. simpl in Hj. rewrite Hlk in Hj. case_decide; [|by left].
      apply fmap_Some in Hj as (? & _ & ->). by right.
  - unfold TRL_cleanup, compactOrder. case_match; simpl; intros [? _]%map_lookup_filter_Some; by left.
Qed.

(** ** Properties *)

(** A revoked token stays revoked: after a token's first revocation it is
    reported as revoked at every time up to the end of its lifetime, whatever
    other tokens are revoked and whatever clean-ups run in between, as long as
    fewer than [maxSize] entries are added after it (without limit if [maxSize]
    is zero). *)
Theorem TRL_revocation_lasts (opts : list TRLOption) (before later : list trl_op)
    (jti : string) (now t : time) (ttl : duration) :
  let s := trl_run (NewInMemoryTRL opts) before in
  Forall sessions_nodup before -> 0 < ttl -> t <= now + ttl ->
  trl_revoked s !! jti = None -> Forall (op_keeps jti t) later ->
  trl_maxSize s = 0 \/ total_weight later < trl_maxSize s ->
  (TRL_RevokeToken now s jti ttl).1 = Ok tt /\
  TRL_IsRevoked t (trl_run (TRL_RevokeToken now s jti ttl).2 later) jti = true.
Proof.
  intros s Hb Httl Ht Hfresh Hlater Hroom. pose proof (trl_run_wf opts before Hb) as Hwf. fold s in Hwf. split.
  { unfold TRL_RevokeToken, validateTTL. destruct (Z.leb_spec ttl 0); [lia|]. by destruct (trl_revoked s !! jti). }
  destruct (RevokeToken_retained now s jti ttl Httl Hfresh) as (pre & post & e & Ho & Hp & He & Hte).
  destruct (trl_run_retained jti t 0 (TRL_RevokeToken now s jti ttl).2 later) as (c' & _ & _ & e' & _ & _ & He' & Ht').
  - apply (trl_step_wf s (TRLRevoke now jti ttl)); done.
  - done.
  - exists pre, post, e. split_and!; try done. lia.
  - done.
  - pose proof (trl_step_maxSize s (TRLRevoke now jti ttl)) as Hm. simpl in Hm. rewrite Hm. lia.
  - unfold TRL_IsRevoked. rewrite He'. apply negb_true_iff, Z.ltb_ge. done.
Qed.

Lemma TRL_revocation_lasts_witness :
  TRL_IsRevoked 50 (trl_run (TRL_RevokeToken 10 (NewInMemoryTRL [WithMaxSize 3]) "a" 100).2
    [TRLRevoke 20 "b" 100; TRLCleanup 40; TRLRevoke 45 "c" 5]) "a" = true.
Proof.
  apply (TRL_revocation_lasts [WithMaxSize 3] []
    [TRLRevoke 20 "b" 100; TRLCleanup 40; TRLRevoke 45 "c" 5] "a" 10 50 100).
  - constructor.
  - lia.
  - lia.
  - reflexivity.
  - repeat constructor; simpl; intros; congruence || lia.
  - right. vm_compute. reflexivity.
Defined.

(** No false alarms: a token reported as revoked was revoked by an earlier
    operation whose lifetime reaches the time of the query. *)
Theorem TRL_no_false_positives (opts : list TRLOption) (ops : list trl_op) (jti : string) (t : time) :
  TRL_IsRevoked t (trl_run (NewInMemoryTRL opts) ops) jti = true ->
  exists op e, op ∈ ops /\ trl_revokes op jti e /\ t <= e.
Proof.
  unfold TRL_IsRevoked. destruct (trl_revoked _ !! jti) as [e|] eqn:E; [|done].
  intros Ht%negb_true_iff%Z.ltb_ge. cut (exists op, op ∈ ops /\ trl_revokes op jti e).
  { intros (op & ? & ?). by exists op, e. }
  revert E. unfold trl_run. induction ops as [|op ops IH] using rev_ind; simpl.
  - assert (trl_revoked (NewInMemoryTRL opts) = ∅) as ->; [|by rewrite lookup_empty].
    unfold NewInMemoryTRL. assert (forall s, trl_revoked s = ∅ -> trl_revoked (foldl (fun t '(WithMaxSize m) =>
      if 0 <=? m then mkTRL (trl_revoked t) (trl_order t) m else t) s opts) = ∅) as H; [|by apply H].
    induction opts as [|[m] opts IH]; intros s Hs; simpl; [done|]. apply IH. by case_match.
  - rewrite foldl_app. simpl. intros [Hin|Hr]%trl_step_source.
    + destruct (IH Hin) as (op' & ? & ?). exists op'. set_solver.
    + exists op. set_solver.
Qed.

Lemma TRL_no_false_positives_witness :
  exists op e, op ∈ [TRLRevoke 10 "a" 100] /\ trl_revokes op "a" e /\ 50 <= e.
Proof. apply (TRL_no_false_positives [] [TRLRevoke 10 "a" 100] "a" 50). reflexivity. Defined.
