(* ===== verification/AuthStores.v ===== *)
(** * The in-memory stores of the auth module
    [internal/auth/store/session/store_memory.go],
    [internal/auth/store/authorization-code/store_memory.go],
    [internal/auth/store/refresh-token/store_memory.go],
    [internal/auth/store/user/store_memory.go]

    The stores hold pointers, and the records handed out by [Find] are the
    stored objects.  The services mutate them only inside [Execute], so a store
    is a map of records; where the code relies on the aliasing, the service
    model reads the store again. *)
From S2P Require Import Prelude Errors AuthModels TRL.
Open Scope Z_scope.

Record AuthState := mkAuth {
  as_users : gmap uuid User;
  as_sessions : gmap uuid Session;
  as_codes : gmap string AuthorizationCodeRecord;
  as_tokens : gmap string RefreshTokenRecord;
  as_trl : InMemoryTRL;
  as_audit : list string;
}.

Abbreviation AU A := (ST AuthState error A) (only parsing).

Definition put_users (m : gmap uuid User) : AU unit := st_modify (fun s =>
  mkAuth m (as_sessions s) (as_codes s) (as_tokens s) (as_trl s) (as_audit s)).
Definition put_sessions (m : gmap uuid Session) : AU unit := st_modify (fun s =>
  mkAuth (as_users s) m (as_codes s) (as_tokens s) (as_trl s) (as_audit s)).
Definition put_codes (m : gmap string AuthorizationCodeRecord) : AU unit := st_modify (fun s =>
  mkAuth (as_users s) (as_sessions s) m (as_tokens s) (as_trl s) (as_audit s)).
Definition put_tokens (m : gmap string RefreshTokenRecord) : AU unit := st_modify (fun s =>
  mkAuth (as_users s) (as_sessions s) (as_codes s) m (as_trl s) (as_audit s)).
Definition put_trl (t : InMemoryTRL) : AU unit := st_modify (fun s =>
  mkAuth (as_users s) (as_sessions s) (as_codes s) (as_tokens s) t (as_audit s)).
Definition logAudit (event : string) : AU unit := st_modify (fun s =>
  mkAuth (as_users s) (as_sessions s) (as_codes s) (as_tokens s) (as_trl s) (as_audit s ++ [event])).

(** ** Sessions *)

Definition SessionStore_Create (session : Session) : AU unit :=
  m ← st_gets as_sessions; put_sessions (<[s_ID session := session]> m).

Definition SessionStore_FindByID (id : uuid) : AU Session :=
  m ← st_gets as_sessions;
  match m !! id with
  | Some s => mret s
  | None => st_fail (EWrap "session not found" (EVal ErrNotFound))
  end.

(** In the iteration order of a Go map, which is not specified. *)
Definition SessionStore_ListByUser (userID : uuid) : AU (list Session) :=
  st_gets (fun s => filter (fun x => s_UserID x = userID) ((map_to_list (as_sessions s)).*2)).

Definition SessionStore_UpdateSession (session : Session) : AU unit :=
  m ← st_gets as_sessions;
  match m !! s_ID session with
  | None => st_fail (EWrap "session not found" (EVal ErrNotFound))
  | Some _ => put_sessions (<[s_ID session := session]> m)
  end.

Definition SessionStore_DeleteSessionsByUser (userID : uuid) : AU unit :=
  m ← st_gets as_sessions;
  let found := existsb (fun kv => bool_decide (s_UserID kv.2 = userID)) (map_to_list m) in
  put_sessions (filter (fun kv => s_UserID kv.2 <> userID) m);;
  if negb found then st_fail (EWrap "session not found" (EVal ErrNotFound)) else mret tt.

Definition SessionStore_RevokeSessionIfActive (id : uuid) (now : time) : AU unit :=
  m ← st_gets as_sessions;
  match m !! id with
  | None => st_fail (EVal ErrNotFound)
  | Some session =>
      match Session_CanRevoke session with
      | Err _ => st_fail (EVal ErrSessionRevoked)
      | Ok _ => put_sessions (<[id := Session_ApplyRevocation session now]> m)
      end
  end.

Definition SessionStore_DeleteExpiredSessions (now : time) : AU Z :=
  m ← st_gets as_sessions;
  let kept := filter (fun kv => time_Before (s_ExpiresAt kv.2) now = false) m in
  put_sessions kept;; mret (Z.of_nat (size m) - Z.of_nat (size kept)).

Definition SessionStore_ListAll : AU (gmap uuid Session) := st_gets as_sessions.

Definition SessionStore_Execute (id : uuid) (validate : Session -> res unit) (mutate : Session -> Session)
    : AU Session :=
  m ← st_gets as_sessions;
  match m !! id with
  | None => st_fail (EVal ErrNotFound)
  | Some session =>
      match validate session with
      | Err e => st_fail e
      | Ok _ => let session := mutate session in put_sessions (<[id := session]> m);; mret session
      end
  end.

(** ** Authorization codes *)

Definition CodeStore_Create (c : AuthorizationCodeRecord) : AU unit :=
  m ← st_gets as_codes; put_codes (<[ac_Code c := c]> m).

Definition CodeStore_FindByCode (code : string) : AU AuthorizationCodeRecord :=
  m ← st_gets as_codes;
  match m !! code with
  | Some c => mret c
  | None => st_fail (EWrap "authorization code not found" (EVal ErrNotFound))
  end.

Definition CodeStore_MarkUsed (code : string) : AU unit :=
  m ← st_gets as_codes;
  match m !! code with
  | None => st_fail (EWrap "authorization code not found" (EVal ErrNotFound))
  | Some c => put_codes (<[code := (AuthCode_MarkUsed c).2]> m)
  end.

Definition CodeStore_DeleteExpiredCodes (now : time) : AU Z :=
  m ← st_gets as_codes;
  let kept := filter (fun kv => time_Before (ac_ExpiresAt kv.2) now = false) m in
  put_codes kept;; mret (Z.of_nat (size m) - Z.of_nat (size kept)).

(** [Execute] hands out the record on a validation error too: the result is the
    record and, on failure, the error. *)
Definition CodeStore_Execute (code : string) (validate : AuthorizationCodeRecord -> res unit)
    (mutate : AuthorizationCodeRecord -> AuthorizationCodeRecord)
    : AU (option AuthorizationCodeRecord * option error) :=
  m ← st_gets as_codes;
  match m !! code with
  | None => mret (None, Some (EVal ErrNotFound))
  | Some record =>
      match validate record with
      | Err e => mret (Some record, Some e)
      | Ok _ => let record := mutate record in put_codes (<[code := record]> m);; mret (Some record, None)
      end
  end.

(** ** Refresh tokens *)

Definition TokenStore_Create (t : RefreshTokenRecord) : AU unit :=
  m ← st_gets as_tokens; put_tokens (<[rt_Token t := t]> m).

Definition TokenStore_Find (token : string) : AU RefreshTokenRecord :=
  m ← st_gets as_tokens;
  match m !! token with
  | Some t => mret t
  | None => st_fail (EWrap "refresh token not found" (EVal ErrNotFound))
  end.

(** The youngest usable token of a session; ties are broken by iteration order. *)
Definition TokenStore_FindBySessionID (sessionID : uuid) (now : time) : AU RefreshTokenRecord :=
  m ← st_gets as_tokens;
  let best := foldl (fun best t =>
    if negb (bool_decide (rt_SessionID t = sessionID)) then best
    else if rt_Used t then best
    else if negb (time_IsZero (rt_ExpiresAt t)) && time_Before (rt_ExpiresAt t) now then best
    else match best with
         | None => Some t
         | Some b => if time_After (rt_CreatedAt t) (rt_CreatedAt b) then Some t else best
         end) None ((map_to_list m).*2) in
  match best with
  | None => st_fail (EWrap "refresh token not found" (EVal ErrNotFound))
  | Some t => mret t
  end.

Definition TokenStore_DeleteBySessionID (sessionID : uuid) : AU unit :=
  m ← st_gets as_tokens;
  let found := existsb (fun kv => bool_decide (rt_SessionID kv.2 = sessionID)) (map_to_list m) in
  put_tokens (filter (fun kv => rt_SessionID kv.2 <> sessionID) m);;
  if negb found then st_fail (EVal ErrNotFound) else mret tt.

Definition TokenStore_DeleteExpiredTokens (now : time) : AU Z :=
  m ← st_gets as_tokens;
  let kept := filter (fun kv => time_Before (rt_ExpiresAt kv.2) now = false) m in
  put_tokens kept;; mret (Z.of_nat (size m) - Z.of_nat (size kept)).

Definition TokenStore_DeleteUsedTokens : AU Z :=
  m ← st_gets as_tokens;
  let kept := filter (fun kv => rt_Used kv.2 = false) m in
  put_tokens kept;; mret (Z.of_nat (size m) - Z.of_nat (size kept)).

Definition TokenStore_Execute (token : string) (validate : RefreshTokenRecord -> res unit)
    (mutate : RefreshTokenRecord -> RefreshTokenRecord)
    : AU (option RefreshTokenRecord * option error) :=
  m ← st_gets as_tokens;
  match m !! token with
  | None => mret (None, Some (EVal ErrNotFound))
  | Some record =>
      match validate record with
      | Err e => mret (Some record, Some e)
      | Ok _ => let record := mutate record in put_tokens (<[token := record]> m);; mret (Some record, None)
      end
  end.

(** ** Users *)

Definition UserStore_Save (u : User) : AU unit :=
  m ← st_gets as_users; put_users (<[u_ID u := u]> m).

Definition UserStore_FindByID (id : uuid) : AU User :=
  m ← st_gets as_users;
  match m !! id with
  | Some u => mret u
  | None => st_fail (EWrap "user not found" (EVal ErrNotFound))
  end.

Definition UserStore_FindByEmail (email : string) : AU User :=
  m ← st_gets as_users;
  match list_find (fun u => u_Email u = email) ((map_to_list m).*2) with
  | Some (_, u) => mret u
  | None => st_fail (EWrap "user not found" (EVal ErrNotFound))
  end.

Definition UserStore_FindOrCreateByTenantAndEmail (tenantID : uuid) (email : string) (user : User) : AU User :=
  m ← st_gets as_users;
  match list_find (fun u => u_Email u = email /\ u_TenantID u = tenantID) ((map_to_list m).*2) with
  | Some (_, u) => mret u
  | None => put_users (<[u_ID user := user]> m);; mret user
  end.

Definition UserStore_Delete (id : uuid) : AU unit :=
  m ← st_gets as_users;
  match m !! id with
  | Some _ => put_users (delete id m)
  | None => st_fail (EWrap "user not found" (EVal ErrNotFound))
  end.

(** ** One user per tenant and email *)

Definition users_unique (m : gmap uuid User) : Prop :=
  forall i j u v, m !! i = Some u -> m !! j = Some v ->
    u_TenantID u = u_TenantID v -> u_Email u = u_Email v -> i = j.

Definition users_keyed (m : gmap uuid User) : Prop := map_Forall (fun i u => u_ID u = i) m.

Lemma FindOrCreate_spec tenantID email user s :
  users_unique (as_users s) -> users_keyed (as_users s) ->
  u_TenantID user = tenantID -> u_Email user = email -> as_users s !! u_ID user = None ->
  exists u s', UserStore_FindOrCreateByTenantAndEmail tenantID email user s = (Ok u, s') /\
    u_TenantID u = tenantID /\ u_Email u = email /\ as_users s' !! u_ID u = Some u /\
    users_unique (as_users s') /\ users_keyed (as_users s') /\
    (u = user \/ as_users s' = as_users s).
Proof.
  intros Hu Hk Ht He Hn. unfold UserStore_FindOrCreateByTenantAndEmail. st_unfold.
  destruct (list_find _ _) as [[n u]|] eqn:E.
  - apply list_find_Some in E as (Hl & [H1 H2] & _). exists u, s. split_and!; try done; [|by right].
    apply list_elem_of_lookup_2, list_elem_of_fmap in Hl as ([i u'] & Hu' & Hin). simpl in Hu'. subst u'.
    apply elem_of_map_to_list in Hin. by rewrite (Hk _ _ Hin).
  - apply list_find_None in E. exists user. eexists. split; [done|]. simpl. rewrite lookup_insert_eq.
    split_and!; try done; [| |by left].
    + assert (forall i v, as_users s !! i = Some v -> u_TenantID v = tenantID -> u_Email v = email -> False) as Hno.
      { intros i v Hv H1 H2. rewrite Forall_forall in E. apply (E v); [|done].
        apply list_elem_of_fmap. exists (i, v). split; [done|]. by apply elem_of_map_to_list. }
      intros i j u v. rewrite !lookup_insert_Some.
      intros [[<- <-]|[Hi Hu1]] [[<- <-]|[Hj Hv1]] Heq1 Heq2; try done.
      * exfalso. apply (Hno j v Hv1); congruence.
      * exfalso. apply (Hno i u Hu1); congruence.
      * by eapply Hu.
    + by apply map_Forall_insert_2.
Qed.
