(* ===== verification/AuthService.v ===== *)
(** * The auth service
    [internal/auth/service/]: [service.go], [token.go], [token_exchange.go],
    [token_refresh.go], [token_flow.go], [token_revocation.go],
    [session_revoke.go], [sessions_list.go], [userinfo.go],
    [admin_delete_user.go], [authorize.go], [device_binding.go], [errors.go]

    Operations are error-state computations on [AuthState].  The JWT generator,
    [uuid.New], the client resolver and the request context are arguments.
    Logging and metrics are not modelled; audit events are recorded by name. *)
From S2P Require Import Prelude Errors AuthModels TRL AuthStores.
From Stdlib Require Import Ascii.
Open Scope Z_scope.

(** ** Configuration and context *)

Inductive TRLFailure := TRLFailureModeWarn | TRLFailureModeFail | TRLFailureModeUnset.

Record AuthConfig := mkAuthConfig {
  cfg_SessionTTL : duration;
  cfg_TokenTTL : duration;
  cfg_RefreshTokenTTL : duration;
  cfg_AllowedRedirectSchemes : list string;
  cfg_DeviceBindingEnabled : bool;
  cfg_TRLFailureMode : TRLFailure;
}.

Definition applyDefaults (c : AuthConfig) : AuthConfig :=
  mkAuthConfig
    (if cfg_SessionTTL c <=? 0 then 24 * Hour else cfg_SessionTTL c)
    (if cfg_TokenTTL c <=? 0 then 15 * Minute else cfg_TokenTTL c)
    (if cfg_RefreshTokenTTL c <=? 0 then 30 * 24 * Hour else cfg_RefreshTokenTTL c)
    (if (length (cfg_AllowedRedirectSchemes c) =? 0)%nat then ["https"] else cfg_AllowedRedirectSchemes c)
    (cfg_DeviceBindingEnabled c)
    (match cfg_TRLFailureMode c with TRLFailureModeUnset => TRLFailureModeWarn | m => m end).

(** [cx_Err] is [ctx.Err()] on entry to a transaction and [cx_ErrLocked] after
    the mutex was acquired; [cx_wall] is the wall clock the revocation list
    reads. *)
Record Ctx := mkCtx {
  cx_Now : time;
  cx_Err : option error;
  cx_ErrLocked : option error;
  cx_DeviceID : string;
  cx_Fingerprint : string;
  cx_wall : time;
}.

Record ResolvedClient := mkRClient {
  rcl_ID : uuid;
  rcl_TenantID : uuid;
  rcl_OAuthClientID : string;
  rcl_RedirectURIs : list string;
  rcl_AllowedScopes : list string;
  rcl_Active : bool;
}.
Record ResolvedTenant := mkRTenant { rtn_ID : uuid; rtn_Active : bool }.

(** What the token generator and [uuid.New] return during a request. *)
Record TokenGen := mkGen {
  tg_Access : Session -> res (string * string);  (* token and JTI *)
  tg_ID : Session -> res string;
  tg_Refresh : res string;
  tg_RefreshID : uuid;
}.

Record tokenArtifacts := mkArtifacts {
  ta_accessToken : string;
  ta_accessTokenJTI : string;
  ta_idToken : string;
  ta_refreshToken : string;
  ta_refreshRecord : RefreshTokenRecord;
}.

Record TokenResult := mkTokenResult {
  tr_AccessToken : string;
  tr_IDToken : string;
  tr_RefreshToken : string;
  tr_ExpiresIn : Z;
  tr_Scope : string;
}.

Definition RunInTx {A} (ctx : Ctx) (fn : AU A) : AU A :=
  match cx_Err ctx with
  | Some e => st_fail (Wrap e CodeTimeout "transaction aborted: context cancelled")
  | None =>
      match cx_ErrLocked ctx with
      | Some e => st_fail (Wrap e CodeTimeout "transaction aborted: context cancelled")
      | None => fn
      end
  end.

(** ** Error translation *)

Inductive TokenFlow := TokenFlowCode | TokenFlowRefresh.

Record tokenErrorMapping := mkMapping {
  tm_sentinel : errval; tm_code : Code; tm_codeMsg : string; tm_refreshMsg : string; tm_logReason : string;
}.

Definition tokenErrorMappings : list tokenErrorMapping :=
  [mkMapping ErrNotFound CodeInvalidGrant "invalid authorization code" "invalid refresh token" "not_found";
   mkMapping ErrExpired CodeInvalidGrant "authorization code expired" "refresh token expired" "expired";
   mkMapping ErrAlreadyUsed CodeInvalidGrant "authorization code already used" "invalid refresh token" "already_used";
   mkMapping ErrSessionRevoked CodeInvalidGrant "session has been revoked" "session has been revoked" "session_revoked";
   mkMapping ErrInvalidState CodeInvalidGrant "session not active" "session not active" "invalid_state"].

(** The translated error and the reason of the failure event. *)
Definition translateTokenError (err : error) (flow : TokenFlow) : error * string :=
  match errors_As err with
  | Some (c, msg) =>
      if bool_decide (c = CodeUnauthorized) then (New CodeInvalidGrant msg, "session_validation_failed")
      else (err, Code_string c)
  | None =>
      match list_find (fun m => errors_Is err (tm_sentinel m) = true) tokenErrorMappings with
      | Some (_, m) =>
          let msg := match flow with TokenFlowCode => tm_codeMsg m | TokenFlowRefresh => tm_refreshMsg m end in
          let msg := if str_empty msg then Error_text err else msg in
          (Wrap err (tm_code m) msg, tm_logReason m)
      | None => (Wrap err CodeInternal "token handling failed", "internal_error")
      end
  end.

Definition authFailure (reason : string) : AU unit := logAudit ("auth_failed:" +:+ reason).

(** The caller's [return nil, s.handleTokenError(...)]. *)
Definition handleTokenError {A} (err : error) (flow : TokenFlow) : AU A :=
  let '(e, reason) := translateTokenError err flow in authFailure reason;; st_fail e.

(** Run a computation and pass its error to a handler. *)
Definition catch {A} (m : AU A) (h : error -> AU A) : AU A := fun s =>
  match m s with
  | (Ok a, s') => (Ok a, s')
  | (Err e, s') => h e s'
  end.

(** [strings.Contains]. *)
Definition str_Contains (s sub : string) : bool :=
  match String.index 0 sub s with Some _ => true | None => false end.

Definition isAlreadyUsedError (err : error) : bool :=
  if errors_Is err ErrAlreadyUsed then true
  else match errors_As err with Some (_, msg) => str_Contains msg "already used" | None => false end.

Section service.
Variable cfg : AuthConfig.
Variable resolveClient : string -> res (ResolvedClient * ResolvedTenant).

(** ** Device binding *)

Inductive deviceBindingState := deviceStateOK | deviceStateAttached | deviceStateMissing | deviceStateMismatch.

Definition classifyDeviceState (sessionDeviceID cookieDeviceID : string) : deviceBindingState :=
  if str_empty sessionDeviceID && negb (str_empty cookieDeviceID) then deviceStateAttached
  else if negb (str_empty sessionDeviceID) && str_empty cookieDeviceID then deviceStateMissing
  else if negb (str_empty sessionDeviceID) && negb (str_empty cookieDeviceID)
          && negb (bool_decide (sessionDeviceID = cookieDeviceID)) then deviceStateMismatch
  else deviceStateOK.

Definition applyDeviceID (ctx : Ctx) (session : Session) : Session :=
  match classifyDeviceState (db_DeviceID (s_Binding session)) (cx_DeviceID ctx) with
  | deviceStateAttached => set_DeviceID session (cx_DeviceID ctx)
  | _ => session
  end.

(** [device.Service.CompareFingerprints]: matched and drift detected. *)
Definition CompareFingerprints (enabled : bool) (stored current : string) : bool * bool :=
  if negb enabled then (true, false)
  else let matched := bool_decide (stored = current) in (matched, negb matched).

Definition applyFingerprint (ctx : Ctx) (session : Session) : Session :=
  if str_empty (cx_Fingerprint ctx) then session
  else if str_empty (db_FingerprintHash (s_Binding session))
  then set_FingerprintHash session (cx_Fingerprint ctx)
  else if (CompareFingerprints (cfg_DeviceBindingEnabled cfg) (db_FingerprintHash (s_Binding session))
             (cx_Fingerprint ctx)).2
  then set_FingerprintHash session (cx_Fingerprint ctx) else session.

Definition applyDeviceBinding (ctx : Ctx) (session : Session) : Session :=
  if negb (cfg_DeviceBindingEnabled cfg) then session
  else applyFingerprint ctx (applyDeviceID ctx session).

(** ** Token issuance *)

Definition generateTokenArtifacts (ctx : Ctx) (gen : TokenGen) (session : Session) : res tokenArtifacts :=
  match tg_Access gen session with
  | Err e => Err (Wrap e CodeInternal "failed to generate access token")
  | Ok (accessToken, jti) =>
      match tg_ID gen session with
      | Err e => Err (Wrap e CodeInternal "failed to generate ID token")
      | Ok idToken =>
          match tg_Refresh gen with
          | Err e => Err (Wrap e CodeInternal "failed to create refresh token")
          | Ok refreshToken =>
              let now := cx_Now ctx in
              match NewRefreshToken (tg_RefreshID gen) refreshToken (s_ID session) now
                      (time_Add now (cfg_RefreshTokenTTL cfg)) now with
              | Err e => Err (Wrap e CodeInternal "failed to create refresh token record")
              | Ok record => Ok (mkArtifacts accessToken jti idToken refreshToken record)
              end
          end
      end
  end.

Definition buildTokenResult (a : tokenArtifacts) (scope : list string) : TokenResult :=
  mkTokenResult (ta_accessToken a) (ta_idToken a) (ta_refreshToken a)
    (int_Seconds (cfg_TokenTTL cfg)) (String.concat " " scope).

Record tokenContext := mkTC { tc_Client : ResolvedClient; tc_Tenant : ResolvedTenant; tc_User : User }.

Definition resolveTokenContext (session : Session) (clientID : string) : AU tokenContext :=
  '(client, tenant) ← st_lift (resolveClient clientID);
  if negb (bool_decide (rcl_ID client = s_ClientID session))
  then st_fail (New CodeInvalidGrant "client mismatch")
  else if negb (bool_decide (rtn_ID tenant = s_TenantID session))
  then st_fail (New CodeInvalidGrant "tenant mismatch")
  else
    user ← UserStore_FindByID (s_UserID session);
    if negb (User_IsActive user) then st_fail (New CodeForbidden "user inactive")
    else mret (mkTC client tenant user).

Definition prepareTokenFlow (ctx : Ctx) (gen : TokenGen) (session : Session) (clientID : string)
    (flow : TokenFlow) : AU (tokenContext * tokenArtifacts) :=
  tc ← catch (resolveTokenContext session clientID) (fun e => handleTokenError e flow);
  if negb (rcl_Active (tc_Client tc)) then st_fail (New CodeForbidden "client is not active")
  else
    match generateTokenArtifacts ctx gen session with
    | Err e => handleTokenError (Wrap e CodeInternal "failed to generate tokens") flow
    | Ok artifacts => mret (tc, artifacts)
    end.

(** The pre-fetched session is the stored object, so its device fields are those
    of the store at this point. *)
Definition executeTokenFlowTx (ctx : Ctx) (prefetched : Session) (clientID : uuid) (activate : bool)
    (artifacts : tokenArtifacts) : AU Session :=
  m ← st_gets as_sessions;
  let deviceState := applyDeviceBinding ctx (default prefetched (m !! s_ID prefetched)) in
  session ← SessionStore_Execute (s_ID prefetched)
    (fun sess => Session_ValidateForAdvance sess clientID (cx_Now ctx) activate)
    (session_advance activate (cx_Now ctx) (ta_accessTokenJTI artifacts)
       (db_DeviceID (s_Binding deviceState)) (db_FingerprintHash (s_Binding deviceState)));
  TokenStore_Create (ta_refreshRecord artifacts);;
  mret session.

Definition revokeSessionOnReplay (err : error) (sessionID : uuid) (now : time) : AU unit :=
  if negb (isAlreadyUsedError err) then mret tt
  else catch (SessionStore_RevokeSessionIfActive sessionID now)
         (fun e => st_fail (Wrap e CodeInternal "failed to revoke session")).

Definition consumeCodeWithReplayProtection (code redirectURI : string) (now : time)
    : AU AuthorizationCodeRecord :=
  '(record, err) ← CodeStore_Execute code
    (fun rec => AuthCode_ValidateForConsume rec redirectURI now)
    (fun rec => (AuthCode_MarkUsed rec).2);
  match err, record with
  | None, Some rec => mret rec
  | None, None => st_fail (EOther "nil record")
  | Some e, None => st_fail (EWrap "consume authorization code" e)
  | Some e, Some rec =>
      revokeSessionOnReplay e (ac_SessionID rec) now;;
      st_fail (EWrap "consume authorization code" e)
  end.

Definition consumeRefreshTokenWithReplayProtection (token : string) (now : time) : AU RefreshTokenRecord :=
  '(record, err) ← TokenStore_Execute token
    (fun rec => RefreshToken_ValidateForConsume rec now)
    (fun rec => (RefreshToken_MarkUsed rec now).2);
  match err, record with
  | None, Some rec => mret rec
  | None, None => st_fail (EOther "nil record")
  | Some e, None => st_fail (EWrap "consume refresh token" e)
  | Some e, Some rec =>
      revokeSessionOnReplay e (rt_SessionID rec) now;;
      st_fail (EWrap "consume refresh token" e)
  end.

Record TokenRequest := mkTokenRequest {
  tq_GrantType : string;
  tq_ClientID : string;
  tq_Code : string;
  tq_RedirectURI : string;
  tq_RefreshToken : string;
}.

Definition TokenRequest_Normalize (r : TokenRequest) : TokenRequest :=
  mkTokenRequest (TrimSpace (tq_GrantType r)) (TrimSpace (tq_ClientID r)) (TrimSpace (tq_Code r))
    (TrimSpace (tq_RedirectURI r)) (TrimSpace (tq_RefreshToken r)).

Definition GrantAuthorizationCode : string := "authorization_code".
Definition GrantRefreshToken : string := "refresh_token".

Definition TokenRequest_Validate (r : TokenRequest) : res unit :=
  if (100 <? String.length (tq_ClientID r))%nat
  then Err (New CodeValidation "client_id must be 100 characters or less")
  else if (256 <? String.length (tq_Code r))%nat
  then Err (New CodeValidation "code must be 256 characters or less")
  else if (2048 <? String.length (tq_RedirectURI r))%nat
  then Err (New CodeValidation "redirect_uri must be 2048 characters or less")
  else if (256 <? String.length (tq_RefreshToken r))%nat
  then Err (New CodeValidation "refresh_token must be 256 characters or less")
  else if str_empty (tq_GrantType r) then Err (New CodeValidation "grant_type is required")
  else if str_empty (tq_ClientID r) then Err (New CodeValidation "client_id is required")
  else if negb (bool_decide (tq_GrantType r = GrantAuthorizationCode))
          && negb (bool_decide (tq_GrantType r = GrantRefreshToken))
  then Err (New CodeBadRequest "unsupported grant_type")
  else if bool_decide (tq_GrantType r = GrantAuthorizationCode) then
    if str_empty (tq_Code r) then Err (New CodeValidation "code is required for authorization_code grant")
    else if str_empty (tq_RedirectURI r) then Err (New CodeValidation "redirect_uri is required")
    else Ok tt
  else if bool_decide (tq_GrantType r = GrantRefreshToken) then
    if str_empty (tq_RefreshToken r)
    then Err (New CodeValidation "refresh_token is required for refresh_token grant") else Ok tt
  else Ok tt.

(** The transaction of the code exchange: consume the code, then advance the
    session it belongs to.  (Assigning the tenant to the pre-fetched session has
    no effect: the tenants were compared before.) *)
Definition exchange_tx (ctx : Ctx) (code redirectURI : string) (prefetched : Session) (clientID : uuid)
    (artifacts : tokenArtifacts) : AU Session :=
  _ ← consumeCodeWithReplayProtection code redirectURI (cx_Now ctx);
  executeTokenFlowTx ctx prefetched clientID true artifacts.

Definition exchangeAuthorizationCode (ctx : Ctx) (gen : TokenGen) (req : TokenRequest) : AU TokenResult :=
  code ← catch (CodeStore_FindByCode (tq_Code req)) (fun e => handleTokenError e TokenFlowCode);
  session ← catch (SessionStore_FindByID (ac_SessionID code)) (fun e => handleTokenError e TokenFlowCode);
  '(tc, artifacts) ← prepareTokenFlow ctx gen session (tq_ClientID req) TokenFlowCode;
  session ← catch (RunInTx ctx (exchange_tx ctx (tq_Code req) (tq_RedirectURI req) session
                                  (rcl_ID (tc_Client tc)) artifacts))
              (fun e => handleTokenError e TokenFlowCode);
  logAudit "token_issued";;
  mret (buildTokenResult artifacts (s_RequestedScope session)).

Definition refresh_tx (ctx : Ctx) (token : string) (prefetched : Session) (clientID : uuid)
    (artifacts : tokenArtifacts) : AU Session :=
  _ ← consumeRefreshTokenWithReplayProtection token (cx_Now ctx);
  executeTokenFlowTx ctx prefetched clientID false artifacts.

Definition refreshWithRefreshToken (ctx : Ctx) (gen : TokenGen) (req : TokenRequest) : AU TokenResult :=
  record ← catch (TokenStore_Find (tq_RefreshToken req)) (fun e => handleTokenError e TokenFlowRefresh);
  session ← catch (SessionStore_FindByID (rt_SessionID record)) (fun e => handleTokenError e TokenFlowRefresh);
  '(tc, artifacts) ← prepareTokenFlow ctx gen session (tq_ClientID req) TokenFlowRefresh;
  session ← catch (RunInTx ctx (refresh_tx ctx (tq_RefreshToken req) session
                                  (rcl_ID (tc_Client tc)) artifacts))
              (fun e => handleTokenError e TokenFlowRefresh);
  logAudit "token_refreshed";;
  mret (buildTokenResult artifacts (s_RequestedScope session)).

(** [Token]; a nil request is [None]. *)
Definition Token (ctx : Ctx) (gen : TokenGen) (req : option TokenRequest) : AU TokenResult :=
  match req with
  | None => st_fail (New CodeBadRequest "request is required")
  | Some req =>
      let req := TokenRequest_Normalize req in
      _ ← st_lift (TokenRequest_Validate req);
      if bool_decide (tq_GrantType req = GrantAuthorizationCode) then exchangeAuthorizationCode ctx gen req
      else if bool_decide (tq_GrantType req = GrantRefreshToken) then refreshWithRefreshToken ctx gen req
      else st_fail (New CodeBadRequest "unsupported grant_type")
  end.

(** ** Revocation *)

Inductive revokeSessionOutcome := revokeSessionOutcomeRevoked | revokeSessionOutcomeAlreadyRevoked.

(** Add a token to the revocation list; an error is reported only in mode [fail]. *)
Definition trl_revoke (ctx : Ctx) (jti : string) (wrap : error -> error) : AU unit :=
  t ← st_gets as_trl;
  let '(r, t') := TRL_RevokeToken (cx_wall ctx) t jti (cfg_TokenTTL cfg) in
  put_trl t';;
  match r with
  | Ok _ => mret tt
  | Err e => match cfg_TRLFailureMode cfg with TRLFailureModeFail => st_fail (wrap e) | _ => mret tt end
  end.

Definition revokeSessionInternal (ctx : Ctx) (session : Session) (jti : string) : AU revokeSessionOutcome :=
  r ← st_try (SessionStore_RevokeSessionIfActive (s_ID session) (cx_Now ctx));
  match r with
  | Err e =>
      if errors_Is e ErrSessionRevoked then mret revokeSessionOutcomeAlreadyRevoked
      else st_fail (EWrap "failed to revoke session" e)
  | Ok _ =>
      let jtiToRevoke := if str_empty jti then s_LastAccessTokenJTI session else jti in
      (if negb (str_empty jtiToRevoke)
       then trl_revoke ctx jtiToRevoke (EWrap "failed to add token to revocation list")
       else mret tt);;
      catch (TokenStore_DeleteBySessionID (s_ID session)) (fun _ => mret tt);;
      mret revokeSessionOutcomeRevoked
  end.

(** [jwt.ParseTokenSkipClaimsValidation] (JTI and session id) and [uuid.Parse]. *)
Variable jwt_Parse : string -> res (string * string).
Variable uuid_Parse : string -> res uuid.

Definition TokenHintRefreshToken : string := "refresh_token".
Definition TokenHintAccessToken : string := "access_token".

Definition validateRevokeInput (token hint : string) : res unit :=
  if str_empty token then Err (New CodeValidation "token is required")
  else if negb (str_empty hint) && negb (bool_decide (hint = TokenHintAccessToken))
          && negb (bool_decide (hint = TokenHintRefreshToken))
  then Err (New CodeValidation "token_type_hint must be 'access_token' or 'refresh_token'")
  else Ok tt.

Definition extractSessionFromAccessToken (token : string) : AU (string * Session) :=
  '(jti, sid) ← st_lift (jwt_Parse token);
  sessionID ← st_lift (uuid_Parse sid);
  session ← SessionStore_FindByID sessionID;
  mret (jti, session).

Definition findSessionByRefreshToken (token : string) : AU Session :=
  refreshToken ← TokenStore_Find token;
  SessionStore_FindByID (rt_SessionID refreshToken).

Definition resolveTokenToSession (token hint : string) : AU (string * Session) :=
  let try_access := bool_decide (hint = TokenHintAccessToken) || str_empty hint in
  let try_refresh := bool_decide (hint = TokenHintRefreshToken) || str_empty hint in
  let refresh : AU (string * Session) :=
    if try_refresh
    then catch (session ← findSessionByRefreshToken token; mret ("", session))
           (fun _ => st_fail (EOther "token not found"))
    else st_fail (EOther "token not found") in
  if try_access then catch (extractSessionFromAccessToken token) (fun _ => refresh) else refresh.

Definition revokeAndAudit (ctx : Ctx) (jti : string) (session : Session) : AU unit :=
  outcome ← catch (revokeSessionInternal ctx session jti)
    (fun e => st_fail (Wrap e CodeInternal "failed to revoke session"));
  match outcome with
  | revokeSessionOutcomeAlreadyRevoked => logAudit "token_revocation_noop"
  | revokeSessionOutcomeRevoked => logAudit "token_revoked"
  end.

Definition RevokeToken (ctx : Ctx) (token hint : string) : AU unit :=
  let token := TrimSpace token in
  let hint := TrimSpace hint in
  _ ← st_lift (validateRevokeInput token hint);
  resolution ← st_try (resolveTokenToSession token hint);
  match resolution with
  | Err _ => logAudit "token_revocation_noop"
  | Ok (jti, session) => revokeAndAudit ctx jti session
  end.

(** The validation callback records whether the session was already revoked and
    the mutation callback skips the revocation in that case. *)
Definition RevokeSession (ctx : Ctx) (userID sessionID : uuid) : AU unit :=
  if IsNil userID then st_fail (New CodeUnauthorized "user ID required")
  else if IsNil sessionID then st_fail (New CodeBadRequest "session ID required")
  else
    m ← st_gets as_sessions;
    let alreadyRevoked := match m !! sessionID with Some s => Session_IsRevoked s | None => false end in
    session ← catch
      (SessionStore_Execute sessionID
         (fun sess => if negb (bool_decide (s_UserID sess = userID))
                      then Err (New CodeForbidden "forbidden") else Ok tt)
         (fun sess => if alreadyRevoked then sess else Session_ApplyRevocation sess (cx_Now ctx)))
      (fun e =>
         if HasCode e CodeForbidden then authFailure "session_owner_mismatch";; st_fail e
         else if errors_Is e ErrNotFound then st_fail (New CodeNotFound "session not found")
         else st_fail (Wrap e CodeInternal "failed to revoke session"));
    if alreadyRevoked then mret tt
    else
      (if negb (str_empty (s_LastAccessTokenJTI session))
       then trl_revoke ctx (s_LastAccessTokenJTI session)
              (fun e => Wrap e CodeInternal "failed to add token to revocation list")
       else mret tt);;
      catch (TokenStore_DeleteBySessionID (s_ID session)) (fun _ => mret tt);;
      logAudit "session_revoked".

Record LogoutAllResult := mkLogout { la_RevokedCount : Z; la_FailedCount : Z }.

(** The loop of [LogoutAll]: an error counts as a failure and does not stop it. *)
Fixpoint logout_loop (ctx : Ctx) (currentSessionID : uuid) (exceptCurrent : bool)
    (sessions : list Session) (acc : LogoutAllResult) : AU LogoutAllResult :=
  match sessions with
  | [] => mret acc
  | session :: rest =>
      if exceptCurrent && bool_decide (s_ID session = currentSessionID)
      then logout_loop ctx currentSessionID exceptCurrent rest acc
      else
        outcome ← st_try (revokeSessionInternal ctx session "");
        match outcome with
        | Err _ =>
            logout_loop ctx currentSessionID exceptCurrent rest
              (mkLogout (la_RevokedCount acc) (la_FailedCount acc + 1))
        | Ok revokeSessionOutcomeRevoked =>
            logAudit "session_revoked";;
            logout_loop ctx currentSessionID exceptCurrent rest
              (mkLogout (la_RevokedCount acc + 1) (la_FailedCount acc))
        | Ok revokeSessionOutcomeAlreadyRevoked =>
            logout_loop ctx currentSessionID exceptCurrent rest acc
        end
  end.

Definition LogoutAll (ctx : Ctx) (userID currentSessionID : uuid) (exceptCurrent : bool) : AU LogoutAllResult :=
  if IsNil userID then st_fail (New CodeUnauthorized "user ID required")
  else
    sessions ← SessionStore_ListByUser userID;
    logout_loop ctx currentSessionID exceptCurrent sessions (mkLogout 0 0).

Definition IsTokenRevoked (ctx : Ctx) (jti : string) : AU bool :=
  st_gets (fun s => TRL_IsRevoked (cx_wall ctx) (as_trl s) jti).

(** ** Sessions of a user, user info, deletion *)

Record SessionSummary := mkSummary {
  ss_SessionID : uuid; ss_Device : string; ss_Location : string; ss_CreatedAt : time;
  ss_LastActivity : time; ss_IsCurrent : bool; ss_Status : string;
}.

Definition session_summary (currentSessionID : uuid) (s : Session) : SessionSummary :=
  let binding := Session_GetDeviceBinding s in
  mkSummary (s_ID s) (DisplayNameOrDefault binding) (db_ApproximateLocation binding) (s_CreatedAt s)
    (s_LastSeenAt s) (bool_decide (s_ID s = currentSessionID)) (SessionStatus_text (s_Status s)).

(** The comparison of the sort: more recent activity first. *)
Definition more_recent (a b : Session) : Prop := s_LastSeenAt b <= s_LastSeenAt a.

#[global] Instance more_recent_dec a b : Decision (more_recent a b).
Proof. unfold more_recent. apply _. Defined.

Definition ListSessions (ctx : Ctx) (userID currentSessionID : uuid) : AU (list SessionSummary) :=
  if IsNil userID then st_fail (New CodeUnauthorized "user ID required")
  else
    sessions ← SessionStore_ListByUser userID;
    let active := filter (fun s => Session_IsActive s && negb (time_Before (s_ExpiresAt s) (cx_Now ctx)) = true)
                    sessions in
    mret (session_summary currentSessionID <$> merge_sort more_recent active).

Record UserInfoResult := mkUserInfo {
  ui_Sub : uuid; ui_Email : string; ui_EmailVerified : bool; ui_GivenName : string;
  ui_FamilyName : string; ui_Name : string;
}.

Definition handleLookupError {A} (err : error) (entity : string) : AU A :=
  if errors_Is err ErrNotFound
  then authFailure (entity +:+ "_not_found");; st_fail (New CodeUnauthorized (entity +:+ " not found"))
  else authFailure (entity +:+ "_lookup_failed");;
       st_fail (Wrap err CodeInternal ("failed to find " +:+ entity)).

Definition UserInfo (sessionID : string) : AU UserInfoResult :=
  if str_empty sessionID
  then authFailure "missing_session_id";; st_fail (New CodeUnauthorized "missing or invalid session")
  else
    match uuid_Parse sessionID with
    | Err _ => authFailure "invalid_session_id_format";; st_fail (New CodeUnauthorized "invalid session ID")
    | Ok parsed =>
        session ← catch (SessionStore_FindByID parsed) (fun e => handleLookupError e "session");
        if negb (Session_IsActive session)
        then authFailure "session_not_active";; st_fail (New CodeUnauthorized "session not active")
        else
          user ← catch (UserStore_FindByID (s_UserID session)) (fun e => handleLookupError e "user");
          logAudit "userinfo_accessed";;
          mret (mkUserInfo (u_ID user) (u_Email user) (u_Verified user) (u_FirstName user)
                  (u_LastName user) (u_FirstName user +:+ " " +:+ u_LastName user))
    end.

Definition DeleteUser (ctx : Ctx) (userID : uuid) : AU unit :=
  if IsNil userID then st_fail (New CodeBadRequest "user ID required")
  else
    _ ← catch (UserStore_FindByID userID) (fun e =>
      if errors_Is e ErrNotFound then st_fail (New CodeNotFound "user not found")
      else st_fail (Wrap e CodeInternal "failed to lookup user"));
    RunInTx ctx (
      catch (SessionStore_DeleteSessionsByUser userID) (fun e =>
        if negb (errors_Is e ErrNotFound)
        then st_fail (Wrap e CodeInternal "failed to delete user sessions") else mret tt);;
      catch (UserStore_Delete userID) (fun e =>
        if errors_Is e ErrNotFound then st_fail (New CodeNotFound "user not found")
        else st_fail (Wrap e CodeInternal "failed to delete user")));;
    logAudit "sessions_revoked";;
    logAudit "user_deleted".

(** ** Authorization *)

Record ParsedURL := mkURL {
  url_Scheme : string;
  url_Host : string;
  url_Text : string;                          (* [u.String()] *)
  url_WithQuery : string -> string -> string; (* with [code] and [state] set *)
}.

(** [url.Parse], [strings.ToLower], [unicode.ToUpper] of the first rune and
    [device.ParseUserAgent] of the request's user agent. *)
Variable url_Parse : string -> res ParsedURL.
Variable ToLower : string -> string.
Variable capitalize : string -> string.

Record AuthorizationRequest := mkAuthReq {
  aq_Email : string;
  aq_ClientID : string;
  aq_Scopes : list string;
  aq_RedirectURI : string;
  aq_State : string;
}.

(** [strutil.DedupeAndTrim]. *)
Fixpoint dedupe (seen values : list string) : list string :=
  match values with
  | [] => []
  | v :: rest =>
      let trimmed := TrimSpace v in
      if str_empty trimmed then dedupe seen rest
      else if slices_Contains seen trimmed then dedupe seen rest
      else trimmed :: dedupe (trimmed :: seen) rest
  end.
Definition DedupeAndTrim (values : list string) : list string := dedupe [] values.

Definition AuthorizationRequest_Normalize (r : AuthorizationRequest) : AuthorizationRequest :=
  let scopes := if (length (aq_Scopes r) =? 0)%nat then ["openid"] else aq_Scopes r in
  mkAuthReq (TrimSpace (ToLower (aq_Email r))) (TrimSpace (aq_ClientID r)) (DedupeAndTrim scopes)
    (TrimSpace (aq_RedirectURI r)) (TrimSpace (aq_State r)).

(** [strings.Split] on one byte. *)
Fixpoint str_split (sep : Ascii.ascii) (s cur : string) : list string :=
  match s with
  | EmptyString => [cur]
  | String a s' =>
      if bool_decide (a = sep) then cur :: str_split sep s' ""
      else str_split sep s' (cur +:+ String a "")
  end.

Definition IsValidEmail (email : string) : bool :=
  if str_empty email then false
  else
    match str_split "@"%char email "" with
    | [local; host] => negb (str_empty local || str_empty host) && str_Contains host "."
    | _ => false
    end.

Definition AuthorizationRequest_Validate (r : AuthorizationRequest) : res unit :=
  if (255 <? String.length (aq_Email r))%nat then Err (New CodeValidation "email must be 255 characters or less")
  else if (100 <? String.length (aq_ClientID r))%nat
  then Err (New CodeValidation "client_id must be 100 characters or less")
  else if (2048 <? String.length (aq_RedirectURI r))%nat
  then Err (New CodeValidation "redirect_uri must be 2048 characters or less")
  else if (500 <? String.length (aq_State r))%nat then Err (New CodeValidation "state must be 500 characters or less")
  else if (20 <? length (aq_Scopes r))%nat then Err (New CodeValidation "too many scopes: max 20 allowed")
  else if existsb (fun s => 100 <? String.length s)%nat (aq_Scopes r)
  then Err (New CodeValidation "scope exceeds max length of 100")
  else if str_empty (aq_Email r) then Err (New CodeValidation "email is required")
  else if str_empty (aq_ClientID r) then Err (New CodeValidation "client_id is required")
  else if (String.length (aq_ClientID r) <? 3)%nat
  then Err (New CodeValidation "client_id must be at least 3 characters")
  else if str_empty (aq_RedirectURI r) then Err (New CodeValidation "redirect_uri is required")
  else if negb (IsValidEmail (aq_Email r)) then Err (New CodeValidation "email must be valid")
  else
    match url_Parse (aq_RedirectURI r) with
    | Err _ => Err (New CodeValidation "redirect_uri must be a valid URL")
    | Ok u =>
        if str_empty (url_Scheme u) || str_empty (url_Host u)
        then Err (New CodeValidation "redirect_uri must be a valid URL")
        else if (0 <? length (aq_Scopes r))%nat && slices_Contains (aq_Scopes r) ""
        then Err (New CodeValidation "scopes cannot contain empty strings")
        else Ok tt
    end.

(** [strings.FieldsFunc] with the separators of [DeriveNameFromEmail]. *)
Definition name_sep (a : Ascii.ascii) : bool :=
  bool_decide (a ∈ ["."%char; "_"%char; "-"%char; "+"%char]).
Fixpoint name_fields (s cur : string) : list string :=
  match s with
  | EmptyString => if str_empty cur then [] else [cur]
  | String a s' =>
      if name_sep a then (if str_empty cur then [] else [cur]) ++ name_fields s' ""
      else name_fields s' (cur +:+ String a "")
  end.

Definition DeriveNameFromEmail (email : string) : string * string :=
  let localPart :=
    match String.index 0 "@" email with
    | Some (S n) => String.substring 0 (S n) email
    | _ => email
    end in
  match name_fields localPart "" with
  | [] => ("User", "User")
  | p0 :: rest =>
      (capitalize p0, match last rest with Some p => capitalize p | None => "User" end)
  end.

(** [strings.EqualFold] on URL schemes, which are ASCII. *)
Definition ascii_lower (a : Ascii.ascii) : Ascii.ascii :=
  let n := Ascii.N_of_ascii a in
  if ((65 <=? n) && (n <=? 90))%N then Ascii.ascii_of_N (n + 32) else a.
Fixpoint string_lower (s : string) : string :=
  match s with EmptyString => EmptyString | String a s' => String (ascii_lower a) (string_lower s') end.
Definition EqualFold (a b : string) : bool := bool_decide (string_lower a = string_lower b).

Definition isRedirectSchemeAllowed (u : ParsedURL) : bool :=
  existsb (fun scheme => EqualFold (url_Scheme u) scheme) (cfg_AllowedRedirectSchemes cfg).

Definition allowedRedirectURI (redirectURI : string) (clientRedirectURIs : list string) : bool :=
  if str_empty redirectURI || (length clientRedirectURIs =? 0)%nat then false
  else slices_Contains clientRedirectURIs redirectURI.

Fixpoint check_scopes (requested allowed : list string) : res unit :=
  match requested with
  | [] => Ok tt
  | scope :: rest =>
      if negb (slices_Contains allowed scope)
      then Err (New CodeBadRequest ("requested scope '" +:+ scope +:+ "' not allowed for client"))
      else check_scopes rest allowed
  end.
Definition validateRequestedScopes (requested allowed : list string) : res unit :=
  if (length allowed =? 0)%nat then Ok tt else check_scopes requested allowed.

(** The identifiers [uuid.New] returns during the request, and the display name
    of the device. *)
Record AuthorizeFresh := mkFresh {
  af_UserID : uuid;
  af_SessionID : uuid;
  af_CodeID : uuid;
  af_Code : string;
  af_DeviceID : string;
  af_DisplayName : string;
}.

Definition resolveDeviceID (ctx : Ctx) (fresh : AuthorizeFresh) : string * string :=
  if negb (str_empty (cx_DeviceID ctx)) then (cx_DeviceID ctx, "")
  else (af_DeviceID fresh, af_DeviceID fresh).

Definition findOrCreateUser (fresh : AuthorizeFresh) (tenantID : uuid) (userEmail : string) : AU (User * bool) :=
  let '(firstName, lastName) := DeriveNameFromEmail userEmail in
  match NewUser (af_UserID fresh) tenantID userEmail firstName lastName false with
  | Err e => st_fail (Wrap e CodeInternal "failed to create user")
  | Ok newUser =>
      user ← UserStore_FindOrCreateByTenantAndEmail tenantID userEmail newUser;
      if negb (User_IsActive user) then st_fail (New CodeForbidden "user is inactive")
      else mret (user, bool_decide (u_ID user = u_ID newUser))
  end.

Record authorizeResult := mkAuthorize {
  ar_User : User; ar_Session : Session; ar_AuthCode : AuthorizationCodeRecord; ar_UserWasCreated : bool;
}.

Definition authorizeInTx (ctx : Ctx) (fresh : AuthorizeFresh) (client : ResolvedClient) (tenant : ResolvedTenant)
    (email redirectURI deviceID : string) (scopes : list string) : AU authorizeResult :=
  RunInTx ctx (
    let now := cx_Now ctx in
    '(user, wasCreated) ← findOrCreateUser fresh (rtn_ID tenant) email;
    match NewSession (af_SessionID fresh) (u_ID user) (rcl_ID client) (rtn_ID tenant) scopes
            SessionStatusPendingConsent now (time_Add now (cfg_SessionTTL cfg)) now with
    | Err e => st_fail (Wrap e CodeInternal "failed to create session")
    | Ok session =>
        let session := Session_SetDeviceBinding session
          (mkBinding deviceID (cx_Fingerprint ctx) (af_DisplayName fresh) "") in
        SessionStore_Create session;;
        match NewAuthorizationCode (af_CodeID fresh) (af_Code fresh) (af_SessionID fresh) redirectURI now
                (time_Add now (10 * Minute)) now with
        | Err e => st_fail (Wrap e CodeInternal "failed to create authorization code")
        | Ok authCode =>
            CodeStore_Create authCode;;
            mret (mkAuthorize user session authCode wasCreated)
        end
    end).

Record AuthorizationResult := mkAuthResult { az_Code : string; az_RedirectURI : string; az_DeviceID : string }.

Definition Authorize (ctx : Ctx) (fresh : AuthorizeFresh) (req : option AuthorizationRequest)
    : AU AuthorizationResult :=
  match req with
  | None => st_fail (New CodeBadRequest "request is required")
  | Some req =>
      let req := AuthorizationRequest_Normalize req in
      _ ← st_lift (AuthorizationRequest_Validate req);
      match url_Parse (aq_RedirectURI req) with
      | Err _ => st_fail (New CodeBadRequest "invalid redirect_uri")
      | Ok parsedURI =>
          if negb (isRedirectSchemeAllowed parsedURI)
          then st_fail (New CodeBadRequest
                 ("redirect_uri scheme '" +:+ url_Scheme parsedURI +:+ "' not allowed"))
          else
            match resolveClient (aq_ClientID req) with
            | Err e =>
                if HasCode e CodeNotFound then st_fail (New CodeBadRequest "invalid client_id")
                else st_fail (Wrap e CodeBadRequest "failed to resolve client")
            | Ok (client, tnt) =>
                if negb (allowedRedirectURI (url_Text parsedURI) (rcl_RedirectURIs client))
                then st_fail (New CodeBadRequest "redirect_uri not allowed for client")
                else
                  let '(deviceID, deviceIDToSet) := resolveDeviceID ctx fresh in
                  _ ← st_lift (validateRequestedScopes (aq_Scopes req) (rcl_AllowedScopes client));
                  result ← authorizeInTx ctx fresh client tnt (aq_Email req) (aq_RedirectURI req)
                             deviceID (aq_Scopes req);
                  (if ar_UserWasCreated result then logAudit "user_created" else mret tt);;
                  logAudit "session_created";;
                  let code := ac_Code (ar_AuthCode result) in
                  mret (mkAuthResult code (url_WithQuery parsedURI code (aq_State req)) deviceIDToSet)
            end
      end
  end.

End service.
