(* ===== verification/AuthSafety.v ===== *)
(** * Safety of the token flows

    Codes and refresh tokens are used at most once, replays revoke the session,
    and a revoked session stays revoked and issues no tokens, in every
    interleaving of the transactions and store operations of concurrent
    requests. *)
From S2P Require Import Prelude Errors AuthModels TRL AuthStores AuthService.
Open Scope Z_scope.

(** Unfold the store operations. *)
Ltac auth_unfold :=
  unfold SessionStore_Create, SessionStore_FindByID, SessionStore_ListByUser, SessionStore_RevokeSessionIfActive,
    SessionStore_Execute, SessionStore_DeleteExpiredSessions, SessionStore_DeleteSessionsByUser,
    CodeStore_Create, CodeStore_FindByCode, CodeStore_Execute, CodeStore_DeleteExpiredCodes,
    TokenStore_Create, TokenStore_Find, TokenStore_Execute, TokenStore_DeleteBySessionID,
    TokenStore_DeleteExpiredTokens, TokenStore_DeleteUsedTokens, UserStore_FindByID, UserStore_Delete,
    UserStore_FindOrCreateByTenantAndEmail, put_users, put_sessions, put_codes, put_tokens, put_trl,
    logAudit, authFailure, catch in *; st_unfold.

Section safety.
Context (cfg : AuthConfig) (capitalize : string -> string).

(** ** Atomic steps of concurrent requests

    A request reads outside the transaction and then runs one or more atomic
    steps; what it read is an arbitrary argument of the step. *)
Inductive auth_op :=
| OpAuthorizeTx (ctx : Ctx) (fresh : AuthorizeFresh) (client : ResolvedClient) (tenant : ResolvedTenant)
    (email redirectURI deviceID : string) (scopes : list string)
| OpExchangeTx (ctx : Ctx) (code redirectURI : string) (prefetched : Session) (clientID : uuid)
    (artifacts : tokenArtifacts)
| OpRefreshTx (ctx : Ctx) (token : string) (prefetched : Session) (clientID : uuid) (artifacts : tokenArtifacts)
| OpRevokeIfActive (sessionID : uuid) (now : time)
| OpRevokeOwn (ctx : Ctx) (userID sessionID : uuid)
| OpDeleteTokensOf (sessionID : uuid)
| OpDeleteUser (ctx : Ctx) (userID : uuid)
| OpDeleteExpiredSessions (now : time)
| OpDeleteExpiredCodes (now : time)
| OpDeleteExpiredTokens (now : time)
| OpDeleteUsedTokens.

Definition auth_step (op : auth_op) (s : AuthState) : AuthState :=
  match op with
  | OpAuthorizeTx ctx fresh client tenant email redirectURI deviceID scopes =>
      (authorizeInTx cfg capitalize ctx fresh client tenant email redirectURI deviceID scopes s).2
  | OpExchangeTx ctx code redirectURI p c a => (RunInTx ctx (exchange_tx cfg ctx code redirectURI p c a) s).2
  | OpRefreshTx ctx token p c a => (RunInTx ctx (refresh_tx cfg ctx token p c a) s).2
  | OpRevokeIfActive sid now => (SessionStore_RevokeSessionIfActive sid now s).2
  | OpRevokeOwn ctx uid sid => (RevokeSession cfg ctx uid sid s).2
  | OpDeleteTokensOf sid => (TokenStore_DeleteBySessionID sid s).2
  | OpDeleteUser ctx uid => (DeleteUser ctx uid s).2
  | OpDeleteExpiredSessions now => (SessionStore_DeleteExpiredSessions now s).2
  | OpDeleteExpiredCodes now => (CodeStore_DeleteExpiredCodes now s).2
  | OpDeleteExpiredTokens now => (TokenStore_DeleteExpiredTokens now s).2
  | OpDeleteUsedTokens => (TokenStore_DeleteUsedTokens s).2
  end.

Definition auth_run (ops : list auth_op) (s : AuthState) : AuthState := foldl (fun s op => auth_step op s) s ops.

(** The code, refresh token or session a step brings into existence. *)
Definition creates_code (op : auth_op) (c : string) : Prop :=
  match op with
  | OpAuthorizeTx _ fresh _ _ _ _ _ _ => authorizationCodePrefix +:+ TrimPrefix (af_Code fresh) authorizationCodePrefix = c
  | _ => False
  end.
Definition creates_token (op : auth_op) (t : string) : Prop :=
  match op with
  | OpExchangeTx _ _ _ _ _ a | OpRefreshTx _ _ _ _ a => rt_Token (ta_refreshRecord a) = t
  | _ => False
  end.
Definition creates_session (op : auth_op) (sid : uuid) : Prop :=
  match op with OpAuthorizeTx _ fresh _ _ _ _ _ _ => af_SessionID fresh = sid | _ => False end.

(** ** What each transaction does to the maps *)

Lemma NewAuthorizationCode_code id code sid uri t1 t2 t3 c :
  NewAuthorizationCode id code sid uri t1 t2 t3 = Ok c ->
  ac_Code c = authorizationCodePrefix +:+ TrimPrefix code authorizationCodePrefix.
Proof. unfold NewAuthorizationCode. repeat case_match; try done. by intros [= <-]. Qed.

Lemma NewSession_ID id u c t sc st t1 t2 t3 s :
  NewSession id u c t sc st t1 t2 t3 = Ok s -> s_ID s = id.
Proof. unfold NewSession. repeat case_match; try done. by intros [= <-]. Qed.

Lemma authorizeInTx_effect ctx fresh client tenant email uri dev scopes s :
  let s' := (authorizeInTx cfg capitalize ctx fresh client tenant email uri dev scopes s).2 in
  (forall c, c <> authorizationCodePrefix +:+ TrimPrefix (af_Code fresh) authorizationCodePrefix ->
     as_codes s' !! c = as_codes s !! c) /\
  (forall i, i <> af_SessionID fresh -> as_sessions s' !! i = as_sessions s !! i) /\
  as_tokens s' = as_tokens s /\
  (forall x, as_sessions s' !! af_SessionID fresh = Some x ->
     as_sessions s !! af_SessionID fresh = Some x \/ s_ID x = af_SessionID fresh).
Proof.
  cbv zeta. unfold authorizeInTx, RunInTx, findOrCreateUser, Session_SetDeviceBinding. auth_unfold.
  destruct (cx_Err ctx); [by auto|]. destruct (cx_ErrLocked ctx); [by auto|].
  destruct (DeriveNameFromEmail capitalize email) as [fn ln].
  destruct (NewUser _ _ _ _ _ _) as [newUser|e]; simpl; [|by auto].
  match goal with |- context [list_find ?P ?l] => destruct (list_find P l) as [[? u]|] end; simpl;
  (destruct (User_IsActive _); simpl; [|by auto]);
  (match goal with |- context [NewSession ?a ?b ?c ?d ?e ?f ?g ?h ?i] =>
     destruct (NewSession a b c d e f g h i) as [sess|] eqn:Hs end; simpl; [|by auto]);
  apply NewSession_ID in Hs;
  (match goal with |- context [NewAuthorizationCode ?a ?b ?c ?d ?e ?f ?g] =>
     destruct (NewAuthorizationCode a b c d e f g) as [code|] eqn:Hc end; simpl;
   [apply NewAuthorizationCode_code in Hc; rewrite Hc|]);
  rewrite Hs; split_and!; intros; simplify_map_eq; auto.
Qed.

Definition set_codes (m : gmap string AuthorizationCodeRecord) (s : AuthState) : AuthState :=
  mkAuth (as_users s) (as_sessions s) m (as_tokens s) (as_trl s) (as_audit s).
Definition set_tokens (m : gmap string RefreshTokenRecord) (s : AuthState) : AuthState :=
  mkAuth (as_users s) (as_sessions s) (as_codes s) m (as_trl s) (as_audit s).
Definition set_sessions (m : gmap uuid Session) (s : AuthState) : AuthState :=
  mkAuth (as_users s) m (as_codes s) (as_tokens s) (as_trl s) (as_audit s).

(** The failure of a consumption: replay handling, then the wrapped error. *)
Definition consume_failure {A} (label : string) (e : error) (sid : uuid) (now : time) (s : AuthState)
    : res A * AuthState :=
  match revokeSessionOnReplay e sid now s with
  | (Ok _, s') => (Err (EWrap label e), s')
  | (Err e', s') => (Err e', s')
  end.

Lemma exchange_tx_run ctx code uri p c a s :
  exchange_tx cfg ctx code uri p c a s =
  match as_codes s !! code with
  | None => (Err (EWrap "consume authorization code" (EVal ErrNotFound)), s)
  | Some r =>
      match AuthCode_ValidateForConsume r uri (cx_Now ctx) with
      | Err e => consume_failure "consume authorization code" e (ac_SessionID r) (cx_Now ctx) s
      | Ok _ => executeTokenFlowTx cfg ctx p c true a
                  (set_codes (<[code := (AuthCode_MarkUsed r).2]> (as_codes s)) s)
      end
  end.
Proof.
  unfold exchange_tx, consumeCodeWithReplayProtection, consume_failure.
  unfold mbind at 1, st_bind at 1. unfold mbind at 1, st_bind at 1. unfold CodeStore_Execute at 1.
  unfold mbind at 1, st_bind at 1. simpl.
  destruct (as_codes s !! code) as [r|]; simpl; [|done].
  destruct (AuthCode_ValidateForConsume r uri (cx_Now ctx)) as [u|e]; simpl; [done|].
  unfold mbind, st_bind. destruct (revokeSessionOnReplay e (ac_SessionID r) (cx_Now ctx) s) as [[]]; done.
Qed.

Lemma refresh_tx_run ctx token p c a s :
  refresh_tx cfg ctx token p c a s =
  match as_tokens s !! token with
  | None => (Err (EWrap "consume refresh token" (EVal ErrNotFound)), s)
  | Some r =>
      match RefreshToken_ValidateForConsume r (cx_Now ctx) with
      | Err e => consume_failure "consume refresh token" e (rt_SessionID r) (cx_Now ctx) s
      | Ok _ => executeTokenFlowTx cfg ctx p c false a
                  (set_tokens (<[token := (RefreshToken_MarkUsed r (cx_Now ctx)).2]> (as_tokens s)) s)
      end
  end.
Proof.
  unfold refresh_tx, consumeRefreshTokenWithReplayProtection, consume_failure.
  unfold mbind at 1, st_bind at 1. unfold mbind at 1, st_bind at 1. unfold TokenStore_Execute at 1.
  unfold mbind at 1, st_bind at 1. simpl.
  destruct (as_tokens s !! token) as [r|]; simpl; [|done].
  destruct (RefreshToken_ValidateForConsume r (cx_Now ctx)) as [u|e]; simpl; [done|].
  unfold mbind, st_bind. destruct (revokeSessionOnReplay e (rt_SessionID r) (cx_Now ctx) s) as [[]]; done.
Qed.

(** The session after a token flow. *)
Definition advanced (ctx : Ctx) (activate : bool) (a : tokenArtifacts) (sess : Session) : Session :=
  let d := applyDeviceBinding cfg ctx sess in
  session_advance activate (cx_Now ctx) (ta_accessTokenJTI a) (db_DeviceID (s_Binding d))
    (db_FingerprintHash (s_Binding d)) sess.

Lemma executeTokenFlowTx_run ctx p c activate a s :
  executeTokenFlowTx cfg ctx p c activate a s =
  match as_sessions s !! s_ID p with
  | None => (Err (EVal ErrNotFound), s)
  | Some sess =>
      match Session_ValidateForAdvance sess c (cx_Now ctx) activate with
      | Err e => (Err e, s)
      | Ok _ =>
          let sess' := advanced ctx activate a sess in
          (Ok sess', set_tokens (<[rt_Token (ta_refreshRecord a) := ta_refreshRecord a]> (as_tokens s))
                       (set_sessions (<[s_ID p := sess']> (as_sessions s)) s))
      end
  end.
Proof.
  unfold executeTokenFlowTx. auth_unfold. destruct (as_sessions s !! s_ID p) as [sess|]; simpl; [|done].
  by destruct (Session_ValidateForAdvance sess c (cx_Now ctx) activate).
Qed.

(** Replay handling touches the session map only, and only by revoking. *)
Lemma consume_failure_effect {A} label e sid now s :
  let r := @consume_failure A label e sid now s in
  (exists e', r.1 = Err e') /\ as_codes r.2 = as_codes s /\ as_tokens r.2 = as_tokens s /\
  as_users r.2 = as_users s /\
  (as_sessions r.2 = as_sessions s \/
   exists x, as_sessions s !! sid = Some x /\ s_Status x <> SessionStatusRevoked /\
     as_sessions r.2 = <[sid := Session_ApplyRevocation x now]> (as_sessions s)).
Proof.
  cbv zeta. unfold consume_failure, revokeSessionOnReplay. auth_unfold.
  destruct (isAlreadyUsedError e); simpl; [|eauto 10].
  destruct (as_sessions s !! sid) as [x|] eqn:Hx; simpl; [|eauto 10].
  unfold Session_CanRevoke, Session_IsRevoked. case_bool_decide; simpl; [eauto 10|].
  split_and!; eauto 10.
Qed.

Lemma consume_failure_Err {A} label e sid now s :
  exists e', (@consume_failure A label e sid now s).1 = Err e'.
Proof. apply consume_failure_effect. Qed.

(** ** Dead codes, tokens and sessions *)

Definition code_dead (c : string) (s : AuthState) : Prop :=
  forall r, as_codes s !! c = Some r -> ac_Used r = true.
Definition token_dead (t : string) (s : AuthState) : Prop :=
  forall r, as_tokens s !! t = Some r -> rt_Used r = true.
Definition session_dead (sid : uuid) (s : AuthState) : Prop :=
  forall x, as_sessions s !! sid = Some x -> s_Status x = SessionStatusRevoked.

Lemma code_dead_fails ctx c uri p cid a s :
  code_dead c s -> exists e, (exchange_tx cfg ctx c uri p cid a s).1 = Err e.
Proof.
  intros Hd. rewrite exchange_tx_run. destruct (as_codes s !! c) as [r|] eqn:Hr; [|by eexists].
  unfold AuthCode_ValidateForConsume. rewrite (Hd r Hr).
  destruct (bool_decide _); cbn [negb]; [destruct (AuthCode_IsExpired _ _)|];
    apply consume_failure_Err.
Qed.

Lemma token_dead_fails ctx t p cid a s :
  token_dead t s -> exists e, (refresh_tx cfg ctx t p cid a s).1 = Err e.
Proof.
  intros Hd. rewrite refresh_tx_run. destruct (as_tokens s !! t) as [r|] eqn:Hr; [|by eexists].
  unfold RefreshToken_ValidateForConsume. rewrite (Hd r Hr).
  destruct (RefreshToken_IsExpired _ _); apply consume_failure_Err.
Qed.

Lemma session_dead_flow_fails ctx p cid activate a s :
  session_dead (s_ID p) s ->
  exists e, executeTokenFlowTx cfg ctx p cid activate a s = (Err e, s).
Proof.
  intros Hd. rewrite executeTokenFlowTx_run. destruct (as_sessions s !! s_ID p) as [x|] eqn:Hx; [|by eexists].
  destruct (Session_ValidateForAdvance x cid (cx_Now ctx) activate) as [[]|e] eqn:Hv; [|by eexists].
  apply ValidateForAdvance_Ok in Hv as (_ & Hs & _). rewrite (Hd x Hx) in Hs.
  destruct Hs as [?|[_ ?]]; done.
Qed.

(** ** One step of any request *)

Record evolves (op : auth_op) (s s' : AuthState) : Prop := {
  ev_codes : forall c r, as_codes s' !! c = Some r ->
    as_codes s !! c = Some r \/ ac_Used r = true \/ creates_code op c;
  ev_tokens : forall t r, as_tokens s' !! t = Some r ->
    as_tokens s !! t = Some r \/ rt_Used r = true \/ creates_token op t;
  ev_sessions : forall i x, as_sessions s' !! i = Some x ->
    as_sessions s !! i = Some x \/ s_Status x = SessionStatusRevoked \/ creates_session op i \/
    exists y, as_sessions s !! i = Some y /\ s_Status y <> SessionStatusRevoked;
}.

Lemma evolves_refl op s : evolves op s s.
Proof. split; auto. Qed.

Lemma RunInTx_evolves {A} op ctx (fn : AU A) s :
  evolves op s (fn s).2 -> evolves op s (RunInTx ctx fn s).2.
Proof. intros H. unfold RunInTx. repeat case_match; auto using evolves_refl. Qed.

Lemma revoked_session_evolves op s sid x now :
  as_sessions s !! sid = Some x ->
  forall i y, <[sid := Session_ApplyRevocation x now]> (as_sessions s) !! i = Some y ->
  as_sessions s !! i = Some y \/ s_Status y = SessionStatusRevoked \/ creates_session op i \/
  exists z, as_sessions s !! i = Some z /\ s_Status z <> SessionStatusRevoked.
Proof. intros Hx i y [[<- <-]|[_ Hy]]%lookup_insert_Some; [rewrite ApplyRevocation_status|]; auto. Qed.

Lemma consume_failure_evolves {A} op label e sid now s :
  evolves op s (@consume_failure A label e sid now s).2.
Proof.
  destruct (@consume_failure_effect A label e sid now s) as (_ & Hc & Ht & _ & Hs).
  split; [rewrite Hc; auto|rewrite Ht; auto|].
  destruct Hs as [->|(x & Hx & _ & ->)]; [auto|]. by apply revoked_session_evolves.
Qed.

(** The token flow adds the new refresh token and advances a live session. *)
Lemma executeTokenFlowTx_evolves op ctx p c activate a s0 s :
  (forall c r, as_codes s !! c = Some r -> as_codes s0 !! c = Some r \/ ac_Used r = true) ->
  (forall t r, as_tokens s !! t = Some r -> as_tokens s0 !! t = Some r \/ rt_Used r = true) ->
  as_sessions s = as_sessions s0 -> creates_token op (rt_Token (ta_refreshRecord a)) ->
  evolves op s0 (executeTokenFlowTx cfg ctx p c activate a s).2.
Proof.
  intros Hc Ht Hs Hop. rewrite executeTokenFlowTx_run, Hs.
  assert (evolves op s0 s) as Hsame.
  { split; [intros ? ? ?%Hc; tauto|intros ? ? ?%Ht; tauto|rewrite Hs; auto]. }
  destruct (as_sessions s0 !! s_ID p) as [x|] eqn:Hx; [|done].
  destruct (Session_ValidateForAdvance x c (cx_Now ctx) activate) as [[]|] eqn:Hv; [|done].
  apply ValidateForAdvance_Ok in Hv as (_ & Hst & _). split; simpl.
  - intros c' r Hr%Hc. tauto.
  - intros t r [[<- <-]|[_ Hr%Ht]]%lookup_insert_Some; tauto.
  - intros i y [[<- <-]|[_ Hy]]%lookup_insert_Some; [|auto].
    right; right; right. exists x. split; [done|]. destruct Hst as [->|[_ ->]]; done.
Qed.

Lemma MarkUsed_code r : ac_Used (AuthCode_MarkUsed r).2 = true.
Proof. unfold AuthCode_MarkUsed. by case_match. Qed.
Lemma MarkUsed_token r t : rt_Used (RefreshToken_MarkUsed r t).2 = true.
Proof. unfold RefreshToken_MarkUsed. by case_match. Qed.

Lemma exchange_tx_evolves ctx code uri p c a s :
  evolves (OpExchangeTx ctx code uri p c a) s (exchange_tx cfg ctx code uri p c a s).2.
Proof.
  rewrite exchange_tx_run. destruct (as_codes s !! code) as [r|] eqn:Hr; [|apply evolves_refl].
  destruct (AuthCode_ValidateForConsume r uri (cx_Now ctx)); [|apply consume_failure_evolves].
  apply executeTokenFlowTx_evolves; simpl; auto.
  intros c' r' [[<- <-]|[_ ?]]%lookup_insert_Some; [right; apply MarkUsed_code|auto].
Qed.

Lemma refresh_tx_evolves ctx token p c a s :
  evolves (OpRefreshTx ctx token p c a) s (refresh_tx cfg ctx token p c a s).2.
Proof.
  rewrite refresh_tx_run. destruct (as_tokens s !! token) as [r|] eqn:Hr; [|apply evolves_refl].
  destruct (RefreshToken_ValidateForConsume r (cx_Now ctx)); [|apply consume_failure_evolves].
  apply executeTokenFlowTx_evolves; simpl; auto.
  intros t' r' [[<- <-]|[_ ?]]%lookup_insert_Some; [right; apply MarkUsed_token|auto].
Qed.

(** What [RevokeSession] changes: the owner's session is revoked and its refresh
    tokens deleted. *)
Lemma trl_revoke_frame ctx jti w s :
  exists r t, trl_revoke cfg ctx jti w s =
    (r, mkAuth (as_users s) (as_sessions s) (as_codes s) (as_tokens s) t (as_audit s)).
Proof.
  unfold trl_revoke. auth_unfold. destruct (TRL_RevokeToken _ _ _ _) as [[]]; simpl; [by eexists _, _|].
  destruct (cfg_TRLFailureMode cfg); by eexists _, _.
Qed.

Lemma delete_tokens_frame sid s :
  exists r, TokenStore_DeleteBySessionID sid s =
    (r, set_tokens (filter (fun kv => rt_SessionID kv.2 <> sid) (as_tokens s)) s).
Proof. auth_unfold. case_match; by eexists. Qed.

Lemma RevokeSession_evolves ctx uid sid s :
  evolves (OpRevokeOwn ctx uid sid) s (RevokeSession cfg ctx uid sid s).2.
Proof.
  unfold RevokeSession. destruct (IsNil uid); [apply evolves_refl|]. destruct (IsNil sid); [apply evolves_refl|].
  unfold mbind at 1, st_bind at 1, st_gets at 1. cbv beta iota.
  unfold mbind at 1, st_bind at 1. unfold catch at 1, SessionStore_Execute. auth_unfold.
  destruct (as_sessions s !! sid) as [x|] eqn:Hx; simpl; [|apply evolves_refl].
  case_bool_decide as Hu; simpl; [|by split; auto].
  destruct (Session_IsRevoked x) eqn:Hrev; simpl.
  { rewrite insert_id by done. by split; auto. }
  set (s1 := mkAuth _ _ _ _ _ _).
  assert (evolves (OpRevokeOwn ctx uid sid) s s1) as H1.
  { split; [auto|auto|]. by apply revoked_session_evolves. }
  assert (forall s2, as_codes s2 = as_codes s1 -> as_sessions s2 = as_sessions s1 ->
    (forall t r, as_tokens s2 !! t = Some r -> as_tokens s1 !! t = Some r) ->
    evolves (OpRevokeOwn ctx uid sid) s s2) as H2.
  { intros s2 Hc Hs Ht. destruct H1 as [E1 E2 E3]. split; [rewrite Hc; auto| |rewrite Hs; auto].
    intros t r Hr%Ht. auto. }
  destruct (negb (str_empty (s_LastAccessTokenJTI (Session_ApplyRevocation x (cx_Now ctx)))));
    [destruct (trl_revoke_frame ctx (s_LastAccessTokenJTI (Session_ApplyRevocation x (cx_Now ctx)))
       (fun e => Wrap e CodeInternal "failed to add token to revocation list") s1) as ([[]|] & t & ->)|];
    simpl; repeat (case_match; simplify_eq/=); apply H2; simpl; try done;
    intros ? ? [? _]%map_lookup_filter_Some; done.
Qed.

Lemma auth_step_evolves op s : evolves op s (auth_step op s).
Proof.
  destruct op; simpl.
  - destruct (authorizeInTx_effect ctx fresh client tenant email redirectURI deviceID scopes s) as (H1 & H2 & H3 & _).
    split; simpl.
    + intros c r Hr. destruct (decide (authorizationCodePrefix +:+ TrimPrefix (af_Code fresh) authorizationCodePrefix = c)); [auto|].
      rewrite H1 in Hr by done. auto.
    + rewrite H3. auto.
    + intros i x Hi. destruct (decide (af_SessionID fresh = i)); [auto|]. rewrite H2 in Hi by done. auto.
  - apply RunInTx_evolves, exchange_tx_evolves.
  - apply RunInTx_evolves, refresh_tx_evolves.
  - auth_unfold. destruct (as_sessions s !! sessionID) as [x|] eqn:Hx; [|apply evolves_refl].
    destruct (Session_CanRevoke x); [|apply evolves_refl]. split; [auto|auto|]. by apply revoked_session_evolves.
  - apply RevokeSession_evolves.
  - destruct (delete_tokens_frame sessionID s) as [r ->]. split; simpl; [auto| |auto].
    intros ? ? [? _]%map_lookup_filter_Some. auto.
  - unfold DeleteUser, RunInTx. destruct (IsNil userID); [apply evolves_refl|]. auth_unfold.
    destruct (as_users s !! userID) eqn:Hu; simpl; [|apply evolves_refl].
    destruct (cx_Err ctx); [apply evolves_refl|]. destruct (cx_ErrLocked ctx); [apply evolves_refl|].
    destruct (existsb _ _); simpl; rewrite Hu; simpl; split; simpl; auto;
      intros ? ? [? _]%map_lookup_filter_Some; auto.
  - auth_unfold. split; simpl; auto. intros ? ? [? _]%map_lookup_filter_Some. auto.
  - auth_unfold. split; simpl; auto. intros ? ? [? _]%map_lookup_filter_Some. auto.
  - auth_unfold. split; simpl; auto. intros ? ? [? _]%map_lookup_filter_Some. auto.
  - auth_unfold. split; simpl; auto. intros ? ? [? _]%map_lookup_filter_Some. auto.
Qed.

Lemma auth_run_code_dead c ops s :
  code_dead c s -> Forall (fun op => ~ creates_code op c) ops -> code_dead c (auth_run ops s).
Proof.
  intros Hd Hops. revert s Hd. induction Hops as [|op ops Hop _ IH]; intros s Hd; [done|]. apply IH.
  intros r Hr. destruct (ev_codes _ _ _ (auth_step_evolves op s) c r Hr) as [H|[H|H]]; [by apply Hd|done|done].
Qed.

Lemma auth_run_token_dead t ops s :
  token_dead t s -> Forall (fun op => ~ creates_token op t) ops -> token_dead t (auth_run ops s).
Proof.
  intros Hd Hops. revert s Hd. induction Hops as [|op ops Hop _ IH]; intros s Hd; [done|]. apply IH.
  intros r Hr. destruct (ev_tokens _ _ _ (auth_step_evolves op s) t r Hr) as [H|[H|H]]; [by apply Hd|done|done].
Qed.

Lemma auth_run_session_dead sid ops s :
  session_dead sid s -> Forall (fun op => ~ creates_session op sid) ops -> session_dead sid (auth_run ops s).
Proof.
  intros Hd Hops. revert s Hd. induction Hops as [|op ops Hop _ IH]; intros s Hd; [done|]. apply IH.
  intros x Hx. destruct (ev_sessions _ _ _ (auth_step_evolves op s) sid x Hx) as [H|[H|[H|(y & Hy & Hn)]]];
    [by apply Hd|done|done|]. by apply Hd in Hy.
Qed.

(** A successful exchange, taken apart. *)
Lemma exchange_tx_Ok ctx code uri p c a s sess s' :
  exchange_tx cfg ctx code uri p c a s = (Ok sess, s') ->
  exists r x, as_codes s !! code = Some r /\ ac_Used r = false /\ ac_RedirectURI r = uri /\
    cx_Now ctx <= ac_ExpiresAt r /\
    as_sessions s !! s_ID p = Some x /\ s_ClientID x = c /\
    (s_Status x = SessionStatusActive \/ s_Status x = SessionStatusPendingConsent) /\
    cx_Now ctx <= s_ExpiresAt x /\ sess = advanced ctx true a x /\
    as_codes s' !! code = Some (AuthCode_MarkUsed r).2 /\
    as_sessions s' !! s_ID p = Some sess /\
    as_tokens s' !! rt_Token (ta_refreshRecord a) = Some (ta_refreshRecord a).
Proof.
  rewrite exchange_tx_run. destruct (as_codes s !! code) as [r|] eqn:Hr; [|done].
  destruct (AuthCode_ValidateForConsume r uri (cx_Now ctx)) as [[]|e] eqn:Hv.
  2:{ intros H. destruct (@consume_failure_Err Session "consume authorization code" e (ac_SessionID r) (cx_Now ctx) s)
        as [e' He']. rewrite H in He'. done. }
  rewrite executeTokenFlowTx_run. simpl. destruct (as_sessions s !! s_ID p) as [x|] eqn:Hx; [|done].
  destruct (Session_ValidateForAdvance x c (cx_Now ctx) true) as [[]|] eqn:Ha; [|done].
  intros [= <- <-]. apply ValidateForAdvance_Ok in Ha as (H1 & H2 & H3).
  unfold AuthCode_ValidateForConsume, AuthCode_IsExpired, time_After in Hv.
  destruct (bool_decide_reflect (ac_RedirectURI r = uri)); [|done]. simpl in Hv.
  destruct (Z.ltb_spec (ac_ExpiresAt r) (cx_Now ctx)); [done|]. destruct (ac_Used r) eqn:Hu; [done|].
  exists r, x. simpl. rewrite !lookup_insert_eq. split_and!; try done; tauto.
Qed.

Lemma refresh_tx_Ok ctx token p c a s sess s' :
  refresh_tx cfg ctx token p c a s = (Ok sess, s') -> rt_Token (ta_refreshRecord a) <> token ->
  exists r x, as_tokens s !! token = Some r /\ rt_Used r = false /\ cx_Now ctx <= rt_ExpiresAt r /\
    as_sessions s !! s_ID p = Some x /\ s_ClientID x = c /\ s_Status x = SessionStatusActive /\
    cx_Now ctx <= s_ExpiresAt x /\ sess = advanced ctx false a x /\
    as_tokens s' !! token = Some (RefreshToken_MarkUsed r (cx_Now ctx)).2.
Proof.
  rewrite refresh_tx_run. destruct (as_tokens s !! token) as [r|] eqn:Hr; [|done].
  destruct (RefreshToken_ValidateForConsume r (cx_Now ctx)) as [[]|e] eqn:Hv.
  2:{ intros H. destruct (@consume_failure_Err Session "consume refresh token" e (rt_SessionID r) (cx_Now ctx) s)
        as [e' He']. rewrite H in He'. done. }
  rewrite executeTokenFlowTx_run. simpl. destruct (as_sessions s !! s_ID p) as [x|] eqn:Hx; [|done].
  destruct (Session_ValidateForAdvance x c (cx_Now ctx) false) as [[]|] eqn:Ha; [|done].
  intros [= <- <-] Hne. apply ValidateForAdvance_Ok in Ha as (H1 & H2 & H3).
  unfold RefreshToken_ValidateForConsume, RefreshToken_IsExpired, time_After in Hv.
  destruct (Z.ltb_spec (rt_ExpiresAt r) (cx_Now ctx)); [done|]. destruct (rt_Used r) eqn:Hu; [done|].
  exists r, x. simpl. rewrite lookup_insert_ne, lookup_insert_eq by done. split_and!; try done.
  destruct H2 as [?|[? _]]; done.
Qed.

(** A dead session issues nothing, in either flow. *)
Lemma session_dead_exchange_fails ctx code uri p c a s :
  session_dead (s_ID p) s -> exists e, (exchange_tx cfg ctx code uri p c a s).1 = Err e.
Proof.
  intros Hd. rewrite exchange_tx_run. destruct (as_codes s !! code) as [r|]; [|by eexists].
  destruct (AuthCode_ValidateForConsume r uri (cx_Now ctx)); [|apply consume_failure_Err].
  edestruct session_dead_flow_fails as [e ->]; [exact Hd|by eexists].
Qed.

Lemma session_dead_refresh_fails ctx token p c a s :
  session_dead (s_ID p) s -> exists e, (refresh_tx cfg ctx token p c a s).1 = Err e.
Proof.
  intros Hd. rewrite refresh_tx_run. destruct (as_tokens s !! token) as [r|]; [|by eexists].
  destruct (RefreshToken_ValidateForConsume r (cx_Now ctx)); [|apply consume_failure_Err].
  edestruct session_dead_flow_fails as [e ->]; [exact Hd|by eexists].
Qed.

(** The failure of a replay on a live session. *)
Lemma consume_failure_replay {A} label e sid now x s :
  isAlreadyUsedError e = true -> as_sessions s !! sid = Some x -> s_Status x <> SessionStatusRevoked ->
  @consume_failure A label e sid now s =
    (Err (EWrap label e), set_sessions (<[sid := Session_ApplyRevocation x now]> (as_sessions s)) s).
Proof.
  intros He Hx Hn. unfold consume_failure, revokeSessionOnReplay. rewrite He. auth_unfold. rewrite Hx.
  unfold Session_CanRevoke, Session_IsRevoked. by rewrite bool_decide_false.
Qed.

(** Validation of a used code or token fails with the error the replay check
    recognises. *)
Lemma used_code_error r uri now :
  ac_Used r = true -> ac_RedirectURI r = uri -> now <= ac_ExpiresAt r ->
  AuthCode_ValidateForConsume r uri now = Err (New CodeUnauthorized "authorization code already used").
Proof.
  intros Hu <- Hn. unfold AuthCode_ValidateForConsume, AuthCode_IsExpired. times.
  rewrite bool_decide_true, Hu by done. simpl. by destruct (Z.ltb_spec (ac_ExpiresAt r) now); [lia|].
Qed.

Lemma used_token_error r now :
  rt_Used r = true -> now <= rt_ExpiresAt r ->
  RefreshToken_ValidateForConsume r now = Err (New CodeUnauthorized "refresh token already used").
Proof.
  intros Hu Hn. unfold RefreshToken_ValidateForConsume, RefreshToken_IsExpired. times.
  rewrite Hu. by destruct (Z.ltb_spec (rt_ExpiresAt r) now); [lia|].
Qed.

(** ** Single use *)

(** C1: an authorization code is exchanged at most once.  After a successful
    exchange, whatever transactions and cleanups of other requests run, every
    exchange of the same code fails, with any redirect URI, session and client,
    unless [Authorize] issues the same code string anew. *)
Theorem code_single_use ctx code uri p c a s sess s' ops ctx2 uri2 p2 c2 a2 :
  exchange_tx cfg ctx code uri p c a s = (Ok sess, s') ->
  Forall (fun op => ~ creates_code op code) ops ->
  exists e, (exchange_tx cfg ctx2 code uri2 p2 c2 a2 (auth_run ops s')).1 = Err e.
Proof.
  intros (r & x & _ & _ & _ & _ & _ & _ & _ & _ & _ & Hc & _)%exchange_tx_Ok Hops.
  apply code_dead_fails, auth_run_code_dead; [|done].
  intros r' Hr'. simplify_eq. apply MarkUsed_code.
Qed.

(** C2: refresh tokens rotate.  After a successful refresh the presented token
    never refreshes again, whatever runs in between, unless a token flow issues
    the same string anew. *)
Theorem refresh_token_single_use ctx token p c a s sess s' ops ctx2 p2 c2 a2 :
  refresh_tx cfg ctx token p c a s = (Ok sess, s') ->
  rt_Token (ta_refreshRecord a) <> token ->
  Forall (fun op => ~ creates_token op token) ops ->
  exists e, (refresh_tx cfg ctx2 token p2 c2 a2 (auth_run ops s')).1 = Err e.
Proof.
  intros H Hne Hops. eapply refresh_tx_Ok in H as (r & x & _ & _ & _ & _ & _ & _ & _ & _ & Hc); [|done].
  apply token_dead_fails, auth_run_token_dead; [|done].
  intros r' Hr'. simplify_eq. apply MarkUsed_token.
Qed.

(** ** Replay *)

(** Presenting a used refresh token again before its expiry fails with
    [invalid_grant] and revokes its session, so that the tokens descending from
    it stop refreshing too. *)
Theorem refresh_replay_revokes_session ctx token p c a s r x :
  as_tokens s !! token = Some r -> rt_Used r = true -> cx_Now ctx <= rt_ExpiresAt r ->
  as_sessions s !! rt_SessionID r = Some x -> s_Status x <> SessionStatusRevoked ->
  exists e s', refresh_tx cfg ctx token p c a s = (Err e, s') /\
    code_of (translateTokenError e TokenFlowRefresh).1 = Some CodeInvalidGrant /\
    as_sessions s' !! rt_SessionID r = Some (Session_ApplyRevocation x (cx_Now ctx)) /\
    forall ops p2 ctx2 t c2 a2, s_ID p2 = rt_SessionID r ->
      Forall (fun op => ~ creates_session op (rt_SessionID r)) ops ->
      exists e2, (refresh_tx cfg ctx2 t p2 c2 a2 (auth_run ops s')).1 = Err e2.
Proof.
  intros Hr Hu Hexp Hx Hn. rewrite refresh_tx_run, Hr, used_token_error by done.
  erewrite consume_failure_replay; [|done|exact Hx|done]. eexists _, _. split; [done|]. split; [done|].
  simpl. rewrite lookup_insert_eq. split; [done|]. intros ops p2 ctx2 t c2 a2 Hp Hops.
  apply session_dead_refresh_fails. rewrite Hp. apply auth_run_session_dead; [|done].
  intros y. simpl. rewrite lookup_insert_eq. intros [= <-]. apply ApplyRevocation_status.
Qed.

(** A second replay is answered with [internal_error]: once the session is
    revoked, [RevokeSessionIfActive] fails and its error replaces the
    [invalid_grant] a client is owed. *)
Theorem replay_on_revoked_session_is_internal ctx code uri p c a s r x :
  as_codes s !! code = Some r -> ac_Used r = true -> ac_RedirectURI r = uri ->
  cx_Now ctx <= ac_ExpiresAt r ->
  as_sessions s !! ac_SessionID r = Some x -> s_Status x = SessionStatusRevoked ->
  exists e, exchange_tx cfg ctx code uri p c a s = (Err e, s) /\
    code_of (translateTokenError e TokenFlowCode).1 = Some CodeInternal.
Proof.
  intros Hr Hu Huri Hexp Hx Hn. rewrite exchange_tx_run, Hr, used_code_error by done.
  unfold consume_failure, revokeSessionOnReplay. auth_unfold. rewrite Hx.
  unfold Session_CanRevoke, Session_IsRevoked. rewrite bool_decide_true by done. simpl. by eexists.
Qed.

(** ** What a successful request means *)

Lemma catch_Ok {A} (m : AU A) h s a s' :
  (forall e s1 b s2, h e s1 <> (Ok b, s2)) -> catch m h s = (Ok a, s') -> m s = (Ok a, s').
Proof. intros Hh. unfold catch. destruct (m s) as [[b|e] s1]; [done|]. intros H. by apply Hh in H. Qed.

Lemma handleTokenError_not_Ok {A} flow err s1 (b : A) s2 : handleTokenError err flow s1 <> (Ok b, s2).
Proof. unfold handleTokenError. destruct (translateTokenError _ _). auth_unfold. done. Qed.

Lemma catch_handleTokenError_Ok {A} (m : AU A) flow s a s' :
  catch m (fun e => handleTokenError e flow) s = (Ok a, s') -> m s = (Ok a, s').
Proof. apply catch_Ok. intros e s1 b s2. apply handleTokenError_not_Ok. Qed.

Lemma resolveTokenContext_Ok resolveClient session cid s tc s' :
  resolveTokenContext resolveClient session cid s = (Ok tc, s') ->
  s' = s /\ resolveClient cid = Ok (tc_Client tc, tc_Tenant tc) /\
  rcl_ID (tc_Client tc) = s_ClientID session /\ rtn_ID (tc_Tenant tc) = s_TenantID session /\
  as_users s !! s_UserID session = Some (tc_User tc) /\ u_Status (tc_User tc) = UserStatusActive.
Proof.
  unfold resolveTokenContext, User_IsActive. auth_unfold.
  destruct (resolveClient cid) as [[cl tn]|]; [|done].
  destruct (bool_decide_reflect (rcl_ID cl = s_ClientID session)); simpl; [|done].
  destruct (bool_decide_reflect (rtn_ID tn = s_TenantID session)); simpl; [|done].
  destruct (as_users s !! s_UserID session) as [u|] eqn:Hu; [|done].
  destruct (bool_decide_reflect (u_Status u = UserStatusActive)); [|done]. by intros [= <- <-].
Qed.

Lemma prepareTokenFlow_Ok resolveClient ctx gen session cid flow s tc a s' :
  prepareTokenFlow cfg resolveClient ctx gen session cid flow s = (Ok (tc, a), s') ->
  s' = s /\ resolveClient cid = Ok (tc_Client tc, tc_Tenant tc) /\ rcl_Active (tc_Client tc) = true /\
  rcl_ID (tc_Client tc) = s_ClientID session /\ rtn_ID (tc_Tenant tc) = s_TenantID session /\
  as_users s !! s_UserID session = Some (tc_User tc) /\ u_Status (tc_User tc) = UserStatusActive /\
  generateTokenArtifacts cfg ctx gen session = Ok a.
Proof.
  unfold prepareTokenFlow. intros (tc' & s1 & H1 & H2)%st_bind_Ok.
  apply catch_handleTokenError_Ok in H1.
  apply resolveTokenContext_Ok in H1 as (-> & Hc & H). revert H2.
  destruct (rcl_Active (tc_Client tc')) eqn:Ha; [|done]. simpl.
  destruct (generateTokenArtifacts cfg ctx gen session) as [a'|] eqn:Hg.
  - intros [= <- <- <-]. split_and!; try done; apply H.
  - intros H2. by apply handleTokenError_not_Ok in H2.
Qed.

Lemma RunInTx_Ok {A} ctx (fn : AU A) s a s' : RunInTx ctx fn s = (Ok a, s') -> fn s = (Ok a, s').
Proof. unfold RunInTx. by repeat case_match. Qed.
Lemma CodeStore_FindByCode_Ok code s r s' :
  CodeStore_FindByCode code s = (Ok r, s') -> s' = s /\ as_codes s !! code = Some r.
Proof. auth_unfold. case_match; [|done]. by intros [= <- <-]. Qed.
Lemma SessionStore_FindByID_Ok i s x s' :
  SessionStore_FindByID i s = (Ok x, s') -> s' = s /\ as_sessions s !! i = Some x.
Proof. auth_unfold. case_match; [|done]. by intros [= <- <-]. Qed.
Lemma TokenStore_Find_Ok token s r s' :
  TokenStore_Find token s = (Ok r, s') -> s' = s /\ as_tokens s !! token = Some r.
Proof. auth_unfold. case_match; [|done]. by intros [= <- <-]. Qed.

(** Stored sessions are keyed by their identifier. *)
Definition sessions_keyed (s : AuthState) : Prop := map_Forall (fun i x => s_ID x = i) (as_sessions s).

Lemma generateTokenArtifacts_Ok ctx gen session a :
  generateTokenArtifacts cfg ctx gen session = Ok a ->
  tg_Access gen session = Ok (ta_accessToken a, ta_accessTokenJTI a) /\ tg_ID gen session = Ok (ta_idToken a) /\
  tg_Refresh gen = Ok (ta_refreshToken a) /\ rt_Token (ta_refreshRecord a) = ta_refreshToken a /\
  rt_SessionID (ta_refreshRecord a) = s_ID session /\ rt_Used (ta_refreshRecord a) = false /\
  rt_ExpiresAt (ta_refreshRecord a) = time_Add (cx_Now ctx) (cfg_RefreshTokenTTL cfg).
Proof.
  unfold generateTokenArtifacts, NewRefreshToken. intros H. by repeat (case_match; simplify_eq/=).
Qed.

(** ** Replay through the whole exchange *)

(** What a refused request leaves alone: everything but the audit trail. *)
Definition only_audited (s s' : AuthState) : Prop :=
  as_users s' = as_users s /\ as_sessions s' = as_sessions s /\ as_codes s' = as_codes s /\
  as_tokens s' = as_tokens s /\ as_trl s' = as_trl s.

Lemma handleTokenError_run {A} err flow s :
  exists s', @handleTokenError A err flow s = (Err (translateTokenError err flow).1, s') /\ only_audited s s'.
Proof. unfold handleTokenError. destruct (translateTokenError err flow). auth_unfold. by eexists. Qed.

Lemma resolveTokenContext_state resolveClient session cid s :
  (resolveTokenContext resolveClient session cid s).2 = s.
Proof. unfold resolveTokenContext. auth_unfold. by repeat case_match; simplify_eq/=. Qed.

Lemma prepareTokenFlow_Err resolveClient ctx gen session cid flow s e s' :
  prepareTokenFlow cfg resolveClient ctx gen session cid flow s = (Err e, s') -> only_audited s s'.
Proof.
  unfold prepareTokenFlow, catch. st_unfold.
  pose proof (resolveTokenContext_state resolveClient session cid s) as Hs.
  destruct (resolveTokenContext resolveClient session cid s) as [[tc|e0] s0]; simpl in Hs; subst s0.
  - destruct (rcl_Active (tc_Client tc)); simpl; [|by intros [= _ <-]].
    destruct (generateTokenArtifacts cfg ctx gen session) as [a|e1]; [done|].
    edestruct @handleTokenError_run as (s1 & -> & Ho). by intros [= _ <-].
  - edestruct @handleTokenError_run as (s1 & -> & Ho). by intros [= _ <-].
Qed.

(** The exchange after its preparation. *)
Lemma exchange_prepared_run resolveClient ctx gen req s r x tc a :
  as_codes s !! tq_Code req = Some r -> as_sessions s !! ac_SessionID r = Some x ->
  prepareTokenFlow cfg resolveClient ctx gen x (tq_ClientID req) TokenFlowCode s = (Ok (tc, a), s) ->
  cx_Err ctx = None -> cx_ErrLocked ctx = None ->
  forall e s1, exchange_tx cfg ctx (tq_Code req) (tq_RedirectURI req) x (rcl_ID (tc_Client tc)) a s = (Err e, s1) ->
  exists s', exchangeAuthorizationCode cfg resolveClient ctx gen req s
    = (Err (translateTokenError e TokenFlowCode).1, s') /\ only_audited s1 s'.
Proof.
  intros Hr Hx Hp H1 H2 e s1 He. unfold exchangeAuthorizationCode, catch at 1 2 3.
  unfold CodeStore_FindByCode, SessionStore_FindByID, RunInTx. st_unfold. rewrite Hr. simpl. rewrite Hx. simpl.
  rewrite Hp. simpl. rewrite H1, H2, He.
  destruct (@handleTokenError_run Session e TokenFlowCode s1) as (s2 & -> & Ho). by exists s2.
Qed.

Lemma used_code_tx_fails ctx code uri p c a s r :
  as_codes s !! code = Some r -> ac_Used r = true ->
  exists e s1, RunInTx ctx (exchange_tx cfg ctx code uri p c a) s = (Err e, s1) /\
    as_codes s1 = as_codes s /\ as_tokens s1 = as_tokens s.
Proof.
  intros Hr Hu. unfold RunInTx. st_unfold.
  destruct (cx_Err ctx); [by eexists _, _|]. destruct (cx_ErrLocked ctx); [by eexists _, _|].
  rewrite exchange_tx_run, Hr. unfold AuthCode_ValidateForConsume. rewrite Hu.
  assert (forall e, exists e' s1,
    @consume_failure Session "consume authorization code" e (ac_SessionID r) (cx_Now ctx) s = (Err e', s1) /\
    as_codes s1 = as_codes s /\ as_tokens s1 = as_tokens s) as Hf.
  { intros e. pose proof (@consume_failure_effect Session "consume authorization code" e (ac_SessionID r)
      (cx_Now ctx) s) as ([e' He] & Hc & Ht & _).
    destruct (consume_failure _ _ _ _ s) as [x s1]. simpl in *. subst. by exists e', s1. }
  destruct (bool_decide _); cbn [negb]; [destruct (AuthCode_IsExpired _ _)|]; apply Hf.
Qed.

(** The transaction of a replay revokes the session of the code. *)
Lemma replay_tx_revokes ctx code p c a s r x :
  as_codes s !! code = Some r -> ac_Used r = true -> cx_Now ctx <= ac_ExpiresAt r ->
  as_sessions s !! ac_SessionID r = Some x ->
  exists e s1, exchange_tx cfg ctx code (ac_RedirectURI r) p c a s = (Err e, s1) /\
    (s_Status x <> SessionStatusRevoked ->
       code_of (translateTokenError e TokenFlowCode).1 = Some CodeInvalidGrant) /\
    exists x', as_sessions s1 !! ac_SessionID r = Some x' /\ s_Status x' = SessionStatusRevoked.
Proof.
  intros Hr Hu Hexp Hx. rewrite exchange_tx_run, Hr, used_code_error by done.
  destruct (decide (s_Status x = SessionStatusRevoked)) as [Hs|Hs].
  - unfold consume_failure, revokeSessionOnReplay. auth_unfold. rewrite Hx.
    unfold Session_CanRevoke, Session_IsRevoked. rewrite bool_decide_true by done. simpl.
    eexists _, _. split; [done|]. split; [done|]. by exists x.
  - erewrite consume_failure_replay; [|done|exact Hx|done]. eexists _, _. split; [done|].
    split; [done|]. simpl. rewrite lookup_insert_eq. eexists. split; [done|]. apply ApplyRevocation_status.
Qed.

(** A used code issues nothing, whoever presents it and in whatever state. *)
Lemma used_code_exchange_fails resolveClient ctx gen req s r :
  as_codes s !! tq_Code req = Some r -> ac_Used r = true ->
  let '(res, s') := exchangeAuthorizationCode cfg resolveClient ctx gen req s in
  (exists e, res = Err e) /\ as_codes s' = as_codes s /\ as_tokens s' = as_tokens s.
Proof.
  intros Hr Hu.
  assert (forall A e flow s1, as_codes s1 = as_codes s -> as_tokens s1 = as_tokens s ->
    let '(res, s') := @handleTokenError A e flow s1 in
    (exists e, res = Err e) /\ as_codes s' = as_codes s /\ as_tokens s' = as_tokens s) as Hh.
  { intros A e flow s1 Hc Ht. destruct (@handleTokenError_run A e flow s1) as (s2 & -> & _ & _ & H3 & H4 & _).
    split; [by eexists|]. by rewrite H3, H4. }
  unfold exchangeAuthorizationCode, catch at 1 2 3. unfold CodeStore_FindByCode, SessionStore_FindByID. st_unfold.
  rewrite Hr. simpl. destruct (as_sessions s !! ac_SessionID r) as [x|] eqn:Hx; simpl.
  2:{ specialize (Hh Session (EVal ErrNotFound) TokenFlowCode s eq_refl eq_refl).
      destruct (handleTokenError _ _ s) as [[y|e] s1]; [|naive_solver]. by destruct Hh as [[? [=]] _]. }
  destruct (prepareTokenFlow _ _ _ _ _ _ _ s) as [[[tc a]|e] s1] eqn:Hp.
  2:{ apply prepareTokenFlow_Err in Hp as (_ & _ & H3 & H4 & _). split; [by eexists|done]. }
  apply prepareTokenFlow_Ok in Hp as [-> _].
  destruct (used_code_tx_fails ctx (tq_Code req) (tq_RedirectURI req) x (rcl_ID (tc_Client tc)) a s r Hr Hu)
    as (e & s1 & -> & H1 & H2).
  specialize (Hh Session e TokenFlowCode s1 H1 H2).
  destruct (handleTokenError e TokenFlowCode s1) as [[y|e'] s2]; [|naive_solver]. by destruct Hh as [[? [=]] _].
Qed.

(** C3: presenting a used authorization code again never issues tokens: whoever
    presents it and whatever the state, the exchange fails and neither a code nor
    a refresh token is stored or changed.  When the presenter passes the checks
    of a first exchange (the code's own client and tenant, an active user, the
    same redirect URI, before the code's expiry, the request not cancelled), the
    replay also ends the session the code belongs to: the session is revoked
    afterwards, whatever its status was before, and from then on none of its
    refresh tokens and codes issues a token, whatever else runs, unless a session
    is created anew under the same identifier.  The answer is [invalid_grant] when
    the session was not revoked already. *)
Theorem code_replay_revokes_session resolveClient ctx gen req s r :
  as_codes s !! tq_Code req = Some r -> ac_Used r = true ->
  exists e s', exchangeAuthorizationCode cfg resolveClient ctx gen req s = (Err e, s') /\
    as_codes s' = as_codes s /\ as_tokens s' = as_tokens s /\
    forall x tc a,
      as_sessions s !! ac_SessionID r = Some x ->
      prepareTokenFlow cfg resolveClient ctx gen x (tq_ClientID req) TokenFlowCode s = (Ok (tc, a), s) ->
      tq_RedirectURI req = ac_RedirectURI r -> cx_Now ctx <= ac_ExpiresAt r ->
      cx_Err ctx = None -> cx_ErrLocked ctx = None ->
      (s_Status x <> SessionStatusRevoked -> code_of e = Some CodeInvalidGrant) /\
      (exists x', as_sessions s' !! ac_SessionID r = Some x' /\ s_Status x' = SessionStatusRevoked) /\
      forall ops p2 ctx2 t u c2 a2, s_ID p2 = ac_SessionID r ->
        Forall (fun op => ~ creates_session op (ac_SessionID r)) ops ->
        (exists e2, (refresh_tx cfg ctx2 t p2 c2 a2 (auth_run ops s')).1 = Err e2) /\
        (exists e2, (exchange_tx cfg ctx2 t u p2 c2 a2 (auth_run ops s')).1 = Err e2).
Proof.
  intros Hr Hu. pose proof (used_code_exchange_fails resolveClient ctx gen req s r Hr Hu) as Hf.
  destruct (exchangeAuthorizationCode cfg resolveClient ctx gen req s) as [res s'] eqn:He.
  destruct Hf as ([e ->] & Hc & Ht). exists e, s'. split_and!; [done..|].
  intros x tc a Hx Hp Huri Hexp H1 H2.
  destruct (replay_tx_revokes ctx (tq_Code req) x (rcl_ID (tc_Client tc)) a s r x Hr Hu Hexp Hx)
    as (e1 & s1 & Htx & Hinv & x' & Hx' & Hst).
  rewrite <- Huri in Htx.
  destruct (exchange_prepared_run resolveClient ctx gen req s r x tc a Hr Hx Hp H1 H2 e1 s1 Htx)
    as (s2 & He' & _ & Hs & _). rewrite He in He'. simplify_eq.
  rewrite <- Hs in Hx'. split_and!; [exact Hinv|by exists x'|].
  intros ops p2 ctx2 t u c2 a2 Hp2 Hops.
  assert (session_dead (s_ID p2) (auth_run ops s2)) as Hd.
  { rewrite Hp2. apply auth_run_session_dead; [|done]. intros y. rewrite Hx'. by intros [= <-]. }
  split; [by apply session_dead_refresh_fails|by apply session_dead_exchange_fails].
Qed.

(** C10: tokens for an authorization code are issued only for a stored code that
    is unused, unexpired and was issued for the same redirect URI; the requesting
    client is active and is the one the session was authorized for, in the
    session's tenant; the user is active; and the session is live.  The new state
    has the code used, the session active with the new access token's identifier,
    and the new refresh token stored, usable and bound to that session. *)
Theorem exchange_sound resolveClient ctx gen req s tr s' :
  sessions_keyed s ->
  exchangeAuthorizationCode cfg resolveClient ctx gen req s = (Ok tr, s') ->
  exists r x cl tn u x' jti rt,
    (as_codes s !! tq_Code req = Some r /\ ac_Used r = false /\ ac_RedirectURI r = tq_RedirectURI req /\
     cx_Now ctx <= ac_ExpiresAt r) /\
    (as_sessions s !! ac_SessionID r = Some x /\ cx_Now ctx <= s_ExpiresAt x /\
     (s_Status x = SessionStatusActive \/ s_Status x = SessionStatusPendingConsent)) /\
    (resolveClient (tq_ClientID req) = Ok (cl, tn) /\ rcl_Active cl = true /\ rcl_ID cl = s_ClientID x /\
     rtn_ID tn = s_TenantID x) /\
    (as_users s !! s_UserID x = Some u /\ u_Status u = UserStatusActive) /\
    tg_Access gen x = Ok (tr_AccessToken tr, jti) /\
    as_codes s' !! tq_Code req = Some (AuthCode_MarkUsed r).2 /\
    (as_sessions s' !! ac_SessionID r = Some x' /\ session_identity x' = session_identity x /\
     s_Status x' = SessionStatusActive /\
     s_LastAccessTokenJTI x' = if str_empty jti then s_LastAccessTokenJTI x else jti) /\
    (as_tokens s' !! tr_RefreshToken tr = Some rt /\ rt_SessionID rt = ac_SessionID r /\ rt_Used rt = false).
Proof.
  intros Hk. unfold exchangeAuthorizationCode.
  intros (r & s1 & H1 & (x & s2 & H2 & ([tc a] & s3 & H3 & H4)%st_bind_Ok)%st_bind_Ok)%st_bind_Ok.
  apply catch_handleTokenError_Ok in H1.
  apply CodeStore_FindByCode_Ok in H1 as [-> Hr].
  apply catch_handleTokenError_Ok in H2.
  apply SessionStore_FindByID_Ok in H2 as [-> Hx].
  apply prepareTokenFlow_Ok in H3 as (-> & Hcl & Hca & Hcid & Htid & Hu & Hua & Hg).
  apply st_bind_Ok in H4 as (x' & s4 & H4 & H5).
  apply catch_handleTokenError_Ok in H4.
  apply RunInTx_Ok, exchange_tx_Ok in H4
    as (r' & y & Hr' & Hu' & Huri & Hexp & Hy & Hyc & Hst & Hye & -> & Hc' & Hs' & Ht').
  auth_unfold. injection H5 as <- <-. simplify_eq. pose proof (Hk _ _ Hx) as Hid. simpl in Hid.
  rewrite Hid in *. simplify_eq.
  apply generateTokenArtifacts_Ok in Hg as (Ga & _ & _ & Gt & Gs & Gu & _).
  exists r, x, (tc_Client tc), (tc_Tenant tc), (tc_User tc), (advanced ctx true a x), (ta_accessTokenJTI a),
    (ta_refreshRecord a). simpl. rewrite <- Gt. unfold advanced at 2 3 4.
  rewrite session_advance_identity, session_advance_status, session_advance_JTI.
  split_and!; try done; [|by rewrite Gs].
  unfold Session_IsPendingConsent. destruct Hst as [-> | ->]; done.
Qed.

(** ** Revocation by the user *)

(** With a positive token lifetime the revocation list accepts every token. *)
Lemma trl_revoke_Ok ctx jti w s :
  0 < cfg_TokenTTL cfg ->
  exists t, trl_revoke cfg ctx jti w s =
      (Ok tt, mkAuth (as_users s) (as_sessions s) (as_codes s) (as_tokens s) t (as_audit s)) /\
    forall now, now <= cx_wall ctx + cfg_TokenTTL cfg -> TRL_IsRevoked now t jti = true.
Proof.
  intros Httl. unfold trl_revoke, TRL_RevokeToken, validateTTL, TRL_IsRevoked. auth_unfold. times.
  destruct (Z.leb_spec (cfg_TokenTTL cfg) 0); [lia|].
  destruct (trl_revoked (as_trl s) !! jti); simpl; eexists; (split; [done|]); intros now Hn; simpl;
    rewrite lookup_insert_eq; (destruct (Z.ltb_spec (cx_wall ctx + cfg_TokenTTL cfg) now); [lia|done]).
Qed.

(** Revoking a session removes its refresh tokens and puts its last access token
    on the revocation list. *)
Definition revokes_all (ctx : Ctx) (sid : uuid) (x : Session) (s s' : AuthState) : Prop :=
  as_sessions s' = <[sid := Session_ApplyRevocation x (cx_Now ctx)]> (as_sessions s) /\
  as_tokens s' = filter (fun kv => rt_SessionID kv.2 <> sid) (as_tokens s) /\
  as_users s' = as_users s /\ as_codes s' = as_codes s /\
  (s_LastAccessTokenJTI x <> "" -> forall now, now <= cx_wall ctx + cfg_TokenTTL cfg ->
     TRL_IsRevoked now (as_trl s') (s_LastAccessTokenJTI x) = true).

Lemma catch_delete_tokens sid s :
  catch (TokenStore_DeleteBySessionID sid) (fun _ => mret tt) s =
    (Ok tt, set_tokens (filter (fun kv => rt_SessionID kv.2 <> sid) (as_tokens s)) s).
Proof. unfold catch. destruct (delete_tokens_frame sid s) as [[[]|] ->]; done. Qed.

Lemma str_empty_false x : str_empty x = false <-> x <> "".
Proof. unfold str_empty. by rewrite bool_decide_eq_false. Qed.

Lemma RevokeSession_live ctx uid sid x s :
  IsNil uid = false -> IsNil sid = false -> 0 < cfg_TokenTTL cfg ->
  as_sessions s !! sid = Some x -> s_ID x = sid -> s_UserID x = uid -> Session_IsRevoked x = false ->
  exists s', RevokeSession cfg ctx uid sid s = (Ok tt, s') /\ revokes_all ctx sid x s s'.
Proof.
  intros Hu Hs Httl Hx Hid Huid Hr. unfold RevokeSession. rewrite Hu, Hs.
  unfold mbind at 1, st_bind at 1, st_gets at 1. cbv beta iota. rewrite Hx, Hr.
  unfold mbind at 1, st_bind at 1, catch at 1, SessionStore_Execute. auth_unfold. rewrite Hx, bool_decide_true by done.
  simpl. rewrite ApplyRevocation_JTI.
  assert (s_ID (Session_ApplyRevocation x (cx_Now ctx)) = sid) as Hid'.
  { pose proof (ApplyRevocation_identity x (cx_Now ctx)) as H. unfold session_identity in H. congruence. }
  rewrite Hid'.
  unfold revokes_all. destruct (str_empty (s_LastAccessTokenJTI x)) eqn:Hj; simpl.
  - apply bool_decide_eq_true in Hj. destruct (existsb _ _); simpl; eexists; (split; [done|]); simpl;
      rewrite Hj; split_and!; done.
  - match goal with |- context [trl_revoke cfg ctx ?j ?w ?st] =>
      destruct (trl_revoke_Ok ctx j w st Httl) as (t & -> & Ht) end.
    simpl. destruct (existsb _ _); simpl; eexists; (split; [done|]); simpl; split_and!; auto.
Qed.

(** [RevokeSession], on every branch.  An unknown session is [not_found]; a
    session of another user is [forbidden] and nothing but the audit trail
    changes; revoking a revoked session succeeds without effect; otherwise the
    session is revoked, all its refresh tokens are gone and its last access token
    is on the revocation list until the token's lifetime is over. *)
Theorem RevokeSession_spec ctx uid sid s :
  sessions_keyed s -> IsNil uid = false -> IsNil sid = false -> 0 < cfg_TokenTTL cfg ->
  let '(r, s') := RevokeSession cfg ctx uid sid s in
  match as_sessions s !! sid with
  | None => r = Err (New CodeNotFound "session not found") /\ s' = s
  | Some x =>
      if decide (s_UserID x = uid) then
        r = Ok tt /\ if Session_IsRevoked x then s' = s else revokes_all ctx sid x s s'
      else r = Err (New CodeForbidden "forbidden") /\
           s' = mkAuth (as_users s) (as_sessions s) (as_codes s) (as_tokens s) (as_trl s)
                  (as_audit s ++ ["auth_failed:session_owner_mismatch"])
  end.
Proof.
  intros Hk Hu Hs Httl. destruct (as_sessions s !! sid) as [x|] eqn:Hx.
  - pose proof (Hk _ _ Hx) as Hid. simpl in Hid.
    destruct (decide (s_UserID x = uid)) as [Huid|Huid]; [destruct (Session_IsRevoked x) eqn:Hr|].
    + unfold RevokeSession. rewrite Hu, Hs. auth_unfold. rewrite Hx, Hr, bool_decide_true by done. simpl.
      rewrite insert_id by done. by destruct s.
    + destruct (RevokeSession_live ctx uid sid x s) as (s' & -> & ?); done.
    + unfold RevokeSession. rewrite Hu, Hs. auth_unfold. rewrite Hx, bool_decide_false by done. done.
  - unfold RevokeSession. rewrite Hu, Hs. auth_unfold. by rewrite Hx.
Qed.

Lemma revokeSessionInternal_spec ctx x s :
  0 < cfg_TokenTTL cfg -> as_sessions s !! s_ID x = Some x ->
  if Session_IsRevoked x then revokeSessionInternal cfg ctx x "" s = (Ok revokeSessionOutcomeAlreadyRevoked, s)
  else exists s', revokeSessionInternal cfg ctx x "" s = (Ok revokeSessionOutcomeRevoked, s') /\
       revokes_all ctx (s_ID x) x s s'.
Proof.
  intros Httl Hx. unfold revokeSessionInternal, revokes_all.
  unfold mbind at 1, st_bind at 1, st_try, SessionStore_RevokeSessionIfActive, Session_CanRevoke. auth_unfold.
  rewrite Hx. destruct (Session_IsRevoked x); [done|]. simpl.
  destruct (str_empty (s_LastAccessTokenJTI x)) eqn:Hj; simpl.
  - apply bool_decide_eq_true in Hj. destruct (existsb _ _); simpl; eexists; (split; [done|]); simpl;
      rewrite Hj; split_and!; done.
  - match goal with |- context [trl_revoke cfg ctx ?j ?w ?st] =>
      destruct (trl_revoke_Ok ctx j w st Httl) as (t & -> & Ht) end.
    simpl. destruct (existsb _ _); simpl; eexists; (split; [done|]); simpl; split_and!; auto.
Qed.

(** The sessions [LogoutAll] revokes. *)
Definition logout_target (currentSessionID : uuid) (exceptCurrent : bool) (x : Session) : bool :=
  negb (exceptCurrent && bool_decide (s_ID x = currentSessionID)) && negb (Session_IsRevoked x).

(** The state after the sessions of [l] that are targets were revoked. *)
Record logged_out (ctx : Ctx) (cur : uuid) (exc : bool) (l : list Session) (s s' : AuthState) : Prop := {
  lo_sessions : forall i, as_sessions s' !! i =
    (fun x => if decide (x ∈ l /\ logout_target cur exc x = true)
              then Session_ApplyRevocation x (cx_Now ctx) else x) <$> as_sessions s !! i;
  lo_tokens : forall t r, as_tokens s' !! t = Some r <-> as_tokens s !! t = Some r /\
    ~ (exists x, x ∈ l /\ logout_target cur exc x = true /\ rt_SessionID r = s_ID x);
}.

Lemma logged_out_skip ctx cur exc x l s s' :
  logout_target cur exc x = false -> logged_out ctx cur exc l s s' -> logged_out ctx cur exc (x :: l) s s'.
Proof.
  intros Hx [H1 H2]. split.
  - intros i. rewrite H1. destruct (as_sessions s !! i) as [y|]; [|done]. simpl. f_equal.
    destruct (decide (y ∈ x :: l /\ _)) as [[Hin Ht]|Hn], (decide (y ∈ l /\ _)) as [|Hn']; try done.
    + apply elem_of_cons in Hin as [->|Hin]; [congruence|]. by destruct Hn'.
    + destruct Hn. rewrite elem_of_cons. naive_solver.
  - intros t r. rewrite H2. setoid_rewrite elem_of_cons. naive_solver congruence.
Qed.

Lemma logged_out_audit ctx cur exc l s s1 s' :
  as_sessions s1 = as_sessions s -> as_tokens s1 = as_tokens s ->
  logged_out ctx cur exc l s1 s' -> logged_out ctx cur exc l s s'.
Proof. intros H1 H2 [A B]. split; [by setoid_rewrite <- H1|by setoid_rewrite <- H2]. Qed.

Lemma logged_out_step ctx cur exc x l s s1 s' :
  as_sessions s !! s_ID x = Some x -> s_ID x ∉ (s_ID <$> l) ->
  (forall i y, as_sessions s !! i = Some y -> s_ID y = i) ->
  logout_target cur exc x = true -> revokes_all ctx (s_ID x) x s s1 ->
  logged_out ctx cur exc l s1 s' -> logged_out ctx cur exc (x :: l) s s'.
Proof.
  intros Hx Hnin Hk Ht (R1 & R2 & _) [H1 H2]. split.
  - intros i. rewrite H1, R1. destruct (decide (i = s_ID x)) as [->|Hne].
    + rewrite lookup_insert_eq, Hx. simpl. f_equal. rewrite (decide_True (P := x ∈ x :: l /\ _)) by (by split; [constructor|]).
      rewrite decide_False; [done|]. intros [Hin _]. destruct Hnin. apply list_elem_of_fmap.
      exists (Session_ApplyRevocation x (cx_Now ctx)). split; [|done].
      pose proof (ApplyRevocation_identity x (cx_Now ctx)) as H. unfold session_identity in H. congruence.
    + rewrite lookup_insert_ne by done. destruct (as_sessions s !! i) as [y|] eqn:Hy; [|done]. simpl. f_equal.
      assert (y <> x) as Hyx by (intros ->; by rewrite (Hk _ _ Hy) in Hne).
      destruct (decide (y ∈ x :: l /\ _)) as [[Hin ?]|Hn], (decide (y ∈ l /\ _)) as [|Hn']; try done.
      * apply elem_of_cons in Hin as [->|?]; [done|]. by destruct Hn'.
      * destruct Hn. rewrite elem_of_cons. naive_solver.
  - intros t r. rewrite H2, R2, map_lookup_filter_Some. simpl. setoid_rewrite elem_of_cons. naive_solver.
Qed.

Lemma logged_out_nil ctx cur exc s : logged_out ctx cur exc [] s s.
Proof.
  split.
  - intros i. destruct (as_sessions s !! i); [|done]. cbn [fmap option_fmap option_map].
    rewrite decide_False; [done|]. by intros [?%elem_of_nil _].
  - intros t r. split; [|tauto]. intros H. split; [done|]. by intros (? & ?%elem_of_nil & _).
Qed.

Lemma logout_loop_spec ctx cur exc l acc s :
  0 < cfg_TokenTTL cfg -> NoDup (s_ID <$> l) -> Forall (fun x => as_sessions s !! s_ID x = Some x) l ->
  sessions_keyed s ->
  exists s', logout_loop cfg ctx cur exc l acc s =
      (Ok (mkLogout (la_RevokedCount acc + Z.of_nat (length (filter (fun x => logout_target cur exc x = true) l)))
             (la_FailedCount acc)), s') /\
    logged_out ctx cur exc l s s'.
Proof.
  intros Httl. revert acc s. induction l as [|x l IH]; intros [nr nf] s Hnd Hl Hk.
  { exists s. simpl. rewrite Z.add_0_r. split; [done|apply logged_out_nil]. }
  apply NoDup_cons in Hnd as [Hnin Hnd]. apply Forall_cons in Hl as [Hx Hl]. rewrite filter_cons.
  cbn [logout_loop].
  destruct (exc && bool_decide (s_ID x = cur)) eqn:Hskip.
  { assert (logout_target cur exc x = false) as Ht by (unfold logout_target; by rewrite Hskip).
    rewrite decide_False by congruence. destruct (IH (mkLogout nr nf) s) as (s' & -> & Hs'); try done.
    exists s'. split; [done|]. by apply logged_out_skip. }
  pose proof (revokeSessionInternal_spec ctx x s Httl Hx) as Hrev.
  unfold mbind at 1, st_bind at 1, st_try.
  destruct (Session_IsRevoked x) eqn:Hr.
  { rewrite Hrev. assert (logout_target cur exc x = false) as Ht by (unfold logout_target; by rewrite Hskip, Hr).
    rewrite decide_False by congruence. destruct (IH (mkLogout nr nf) s) as (s' & -> & Hs'); try done.
    exists s'. split; [done|]. by apply logged_out_skip. }
  destruct Hrev as (s1 & -> & Hall). assert (logout_target cur exc x = true) as Ht
    by (unfold logout_target; by rewrite Hskip, Hr).
  rewrite decide_True by done. pose proof Hall as (R1 & R2 & _). unfold mbind, st_bind, logAudit, st_modify. cbv beta iota.
  match goal with |- context [logout_loop cfg ctx cur exc l ?a ?st] =>
    destruct (IH a st) as (s' & -> & Hs') end; simpl; try done.
  - rewrite Forall_forall in Hl |- *. intros y Hy. rewrite R1, lookup_insert_ne; [by apply Hl|].
    intros Heq. apply Hnin. rewrite Heq. by apply list_elem_of_fmap_2.
  - unfold sessions_keyed. simpl. rewrite R1. apply map_Forall_insert_2; [|done].
    pose proof (ApplyRevocation_identity x (cx_Now ctx)) as H. unfold session_identity in H. congruence.
  - exists s'. split; [f_equal; do 2 f_equal; lia|].
    apply (logged_out_step _ _ _ _ _ _ s1); try done. by eapply logged_out_audit; [| |exact Hs'].
Qed.

(** [LogoutAll] succeeds with no failure and revokes exactly the user's
    sessions that were not revoked yet, the current one excepted when asked; it
    deletes exactly the refresh tokens of those sessions; every other session,
    and every session of another user, is untouched.  [RevokedCount] is the
    number of sessions it revoked. *)
Theorem LogoutAll_spec ctx uid cur exc s :
  0 < cfg_TokenTTL cfg -> sessions_keyed s -> IsNil uid = false ->
  exists s' sessions, LogoutAll cfg ctx uid cur exc s =
      (Ok (mkLogout (Z.of_nat (length (filter (fun x => logout_target cur exc x = true) sessions))) 0), s') /\
    NoDup sessions /\
    (forall x, x ∈ sessions <-> as_sessions s !! s_ID x = Some x /\ s_UserID x = uid) /\
    (forall i, as_sessions s' !! i =
       (fun x => if decide (s_UserID x = uid /\ logout_target cur exc x = true)
                 then Session_ApplyRevocation x (cx_Now ctx) else x) <$> as_sessions s !! i) /\
    (forall t r, as_tokens s' !! t = Some r <-> as_tokens s !! t = Some r /\
       ~ (exists x, as_sessions s !! rt_SessionID r = Some x /\ s_UserID x = uid /\ logout_target cur exc x = true)).
Proof.
  intros Httl Hk Hu. unfold LogoutAll. rewrite Hu. unfold SessionStore_ListByUser.
  unfold mbind, st_bind, st_gets. cbv beta iota.
  set (l := filter (fun x => s_UserID x = uid) (map_to_list (as_sessions s)).*2).
  assert (forall x, x ∈ l <-> as_sessions s !! s_ID x = Some x /\ s_UserID x = uid) as Hl.
  { intros x. unfold l. rewrite list_elem_of_filter, list_elem_of_fmap. split.
    - intros [Hux ([i y] & -> & Hi%elem_of_map_to_list)]. simpl. by rewrite (Hk _ _ Hi).
    - intros [Hx Hux]. split; [done|]. exists (s_ID x, x). split; [done|]. by apply elem_of_map_to_list. }
  assert (NoDup (s_ID <$> l)) as Hnd.
  { assert (s_ID <$> (map_to_list (as_sessions s)).*2 = (map_to_list (as_sessions s)).*1) as Heq.
    { rewrite <- list_fmap_compose. apply list_fmap_ext. intros n [i x] Hn%list_elem_of_lookup_2.
      apply elem_of_map_to_list in Hn. by apply (Hk _ _ Hn). }
    apply (sublist_NoDup _ (s_ID <$> (map_to_list (as_sessions s)).*2));
      [rewrite Heq; apply NoDup_fst_map_to_list|]. apply fmap_sublist, sublist_filter. }
  destruct (logout_loop_spec ctx cur exc l (mkLogout 0 0) s) as (s' & -> & [H1 H2]); try done.
  { apply Forall_forall. intros x [? _]%Hl. done. }
  exists s', l. split_and!; [done|by eapply NoDup_fmap_1|done| |].
  - intros i. rewrite H1. destruct (as_sessions s !! i) as [x|] eqn:Hx; [|done]. simpl. f_equal.
    assert (x ∈ l <-> s_UserID x = uid) as Hxl. { rewrite Hl, (Hk _ _ Hx). tauto. }
    destruct (decide (x ∈ l /\ _)), (decide (s_UserID x = uid /\ _)); tauto || done.
  - intros t r. rewrite H2. setoid_rewrite Hl. split; intros [Ht Hn]; (split; [done|]).
    + intros (x & Hx & Hux & Htg). apply Hn. exists x. rewrite (Hk _ _ Hx). by split_and!.
    + intros (x & [Hx Hux] & Htg & Heq). apply Hn. exists x. by rewrite Heq.
Qed.

(** ** Identity of a session *)

Lemma RevokeSession_sessions ctx uid sid s :
  let s' := (RevokeSession cfg ctx uid sid s).2 in
  as_sessions s' = as_sessions s \/
  exists x, as_sessions s !! sid = Some x /\
    as_sessions s' = <[sid := Session_ApplyRevocation x (cx_Now ctx)]> (as_sessions s).
Proof.
  cbv zeta. unfold RevokeSession. destruct (IsNil uid); [by left|]. destruct (IsNil sid); [by left|].
  auth_unfold. destruct (as_sessions s !! sid) as [x|] eqn:Hx; simpl; [|by left].
  case_bool_decide; simpl; [|by left]. destruct (Session_IsRevoked x); simpl; [left; by apply insert_id|].
  right. exists x. split; [done|].
  destruct (negb (str_empty (s_LastAccessTokenJTI (Session_ApplyRevocation x (cx_Now ctx)))));
    [match goal with |- context [trl_revoke cfg ctx ?j ?w ?st] =>
       destruct (trl_revoke_frame ctx j w st) as ([[]|] & t & ->) end|];
    simpl; repeat (case_match; simplify_eq/=); done.
Qed.

Lemma ApplyRevocation_insert_identity i sid x now m y :
  m !! sid = Some x -> <[sid := Session_ApplyRevocation x now]> m !! i = Some y ->
  exists z, (m : gmap uuid Session) !! i = Some z /\ session_identity y = session_identity z.
Proof.
  intros Hx [[<- <-]|[_ Hy]]%lookup_insert_Some; [exists x|by exists y].
  by rewrite ApplyRevocation_identity.
Qed.

Lemma consume_failure_identity {A} label e sid now s i y :
  as_sessions (@consume_failure A label e sid now s).2 !! i = Some y ->
  exists z, as_sessions s !! i = Some z /\ session_identity y = session_identity z.
Proof.
  destruct (@consume_failure_effect A label e sid now s) as (_ & _ & _ & _ & [->|(x & Hx & _ & ->)]);
    [by exists y|]. by apply ApplyRevocation_insert_identity.
Qed.

Lemma executeTokenFlowTx_identity ctx p c activate a s i y :
  as_sessions (executeTokenFlowTx cfg ctx p c activate a s).2 !! i = Some y ->
  exists z, as_sessions s !! i = Some z /\ session_identity y = session_identity z.
Proof.
  rewrite executeTokenFlowTx_run. destruct (as_sessions s !! s_ID p) as [x|] eqn:Hx; [|by exists y].
  destruct (Session_ValidateForAdvance _ _ _ _); simpl; [|by exists y].
  intros [[<- <-]|[_ Hy]]%lookup_insert_Some; [exists x|by exists y].
  unfold advanced. by rewrite session_advance_identity.
Qed.

Lemma RunInTx_state {A} (P : AuthState -> Prop) ctx (fn : AU A) s :
  P (RunInTx ctx fn s).2 -> P s \/ P (fn s).2.
Proof. unfold RunInTx. repeat case_match; auto. Qed.

Lemma auth_step_identity op s i y :
  as_sessions (auth_step op s) !! i = Some y ->
  (creates_session op i /\ s_ID y = i) \/
  exists z, as_sessions s !! i = Some z /\ session_identity y = session_identity z.
Proof.
  destruct op; simpl.
  - destruct (authorizeInTx_effect ctx fresh client tenant email redirectURI deviceID scopes s) as (_ & H2 & _ & H4).
    destruct (decide (i = af_SessionID fresh)) as [->|Hne]; [|rewrite H2 by done; eauto].
    intros [?|?]%H4; eauto.
  - intros [H|H]%(RunInTx_state (fun s => as_sessions s !! i = Some y)); [by eauto|right; revert H].
    rewrite exchange_tx_run. destruct (as_codes s !! code); [|by eauto].
    case_match; [by intros ?%executeTokenFlowTx_identity|apply consume_failure_identity].
  - intros [H|H]%(RunInTx_state (fun s => as_sessions s !! i = Some y)); [by eauto|right; revert H].
    rewrite refresh_tx_run. destruct (as_tokens s !! token); [|by eauto].
    case_match; [by intros ?%executeTokenFlowTx_identity|apply consume_failure_identity].
  - auth_unfold. destruct (as_sessions s !! sessionID) as [x|] eqn:Hx; [|by eauto].
    destruct (Session_CanRevoke x); [|by eauto]. simpl. intros H. right. by eapply ApplyRevocation_insert_identity.
  - destruct (RevokeSession_sessions ctx userID sessionID s) as [->|(x & Hx & ->)]; [by eauto|].
    intros H. right. by eapply ApplyRevocation_insert_identity.
  - destruct (delete_tokens_frame sessionID s) as [r ->]. simpl. eauto.
  - unfold DeleteUser. destruct (IsNil userID); [by eauto|]. auth_unfold.
    destruct (as_users s !! userID) eqn:Hu; simpl; [|by eauto]. unfold RunInTx.
    destruct (cx_Err ctx); [by eauto|]. destruct (cx_ErrLocked ctx); [by eauto|].
    destruct (existsb _ _); simpl; rewrite Hu; simpl; intros [? _]%map_lookup_filter_Some; eauto.
  - auth_unfold. intros [? _]%map_lookup_filter_Some. eauto.
  - auth_unfold. eauto.
  - auth_unfold. eauto.
  - auth_unfold. eauto.
Qed.

(** No request changes who a session belongs to.  Whatever steps run, a
    session found under an identifier that no [Authorize] created meanwhile has
    the owner, client, tenant, scope, creation time and expiry it had before, and
    the store keeps sessions under their own identifiers. *)
Theorem session_identity_stable ops s :
  sessions_keyed s ->
  sessions_keyed (auth_run ops s) /\
  forall i y, Forall (fun op => ~ creates_session op i) ops -> as_sessions (auth_run ops s) !! i = Some y ->
    exists z, as_sessions s !! i = Some z /\ session_identity y = session_identity z.
Proof.
  revert s. induction ops as [|op ops IH]; intros s Hk; [split; [done|by eauto]|].
  destruct (IH (auth_step op s)) as [IH1 IH2].
  { intros i y Hy. apply auth_step_identity in Hy as [[_ ?]|(z & Hz & Hid)]; [done|].
    apply Hk in Hz. unfold session_identity in Hid. congruence. }
  split; [done|]. intros i y [Hop Hops]%Forall_cons Hy.
  apply IH2 in Hy as (z & Hz & Hid); [|done].
  apply auth_step_identity in Hz as [[? _]|(w & Hw & Hid')]; [done|]. exists w. split; [done|congruence].
Qed.

End safety.

(** ** Witnesses *)

Module AuthExample.
Definition cfg : AuthConfig := mkAuthConfig (24 * Hour) (15 * Minute) (24 * Hour) ["https"] true TRLFailureModeFail.
Definition cap (s : string) : string := s.
Definition ctx (now : time) : Ctx := mkCtx now None None "" "fp" now.
Definition session : Session :=
  mkSession 10 1 2 3 ["openid"] SessionStatusPendingConsent None "" (mkBinding "dev" "fp" "" "") 0 1000 0 None.
Definition other : Session :=
  mkSession 11 1 2 3 ["openid"] SessionStatusActive None "jti9" (mkBinding "" "" "" "") 0 1000 0 None.
Definition code : AuthorizationCodeRecord := mkCode 20 "authz_a" 10 "https://c/cb" 500 false 0.
Definition user : User := mkUser 1 3 "ann@example.com" "Ann" "User" true UserStatusActive.
Definition refresh (name : string) : RefreshTokenRecord := mkRT 30 name 10 900 false None 0.
Definition artifacts (name : string) : tokenArtifacts := mkArtifacts "at" "jti1" "idt" name (refresh name).
Definition s0 : AuthState :=
  mkAuth {[1%N := user]} {[10%N := session; 11%N := other]} {["authz_a" := code]}
    {["rt9" := mkRT 31 "rt9" 11 900 false None 0]} (NewInMemoryTRL []) [].
Definition exchange (now : time) (name : string) (s : AuthState) : res Session * AuthState :=
  exchange_tx cfg (ctx now) "authz_a" "https://c/cb" session 2 (artifacts name) s.
Definition s1 : AuthState := (exchange 100 "r1" s0).2.
Definition refresh_run (now : time) (old name : string) (s : AuthState) : res Session * AuthState :=
  refresh_tx cfg (ctx now) old session 2 (artifacts name) s.
Definition s2 : AuthState := (refresh_run 200 "r1" "r2" s1).2.
Definition s3 : AuthState := (exchange 210 "r3" s1).2.
Definition sess_of (r : res Session) : Session := match r with Ok x => x | Err _ => session end.
Definition gen : TokenGen := mkGen (fun _ => Ok ("at", "jti1")) (fun _ => Ok "idt") (Ok "r1") 30.
Definition client : ResolvedClient := mkRClient 2 3 "web" ["https://c/cb"] ["openid"] true.
Definition resolveClient (_ : string) : res (ResolvedClient * ResolvedTenant) := Ok (client, mkRTenant 3 true).
Definition request : TokenRequest := mkTokenRequest "authorization_code" "web" "authz_a" "https://c/cb" "".
End AuthExample.

Lemma keyed_s0 : sessions_keyed AuthExample.s0.
Proof.
  unfold sessions_keyed. simpl. apply map_Forall_insert_2; [done|].
  apply map_Forall_singleton. done.
Qed.

(** The code is exchanged at time 100, the clean-up of used tokens runs, and the
    second exchange fails. *)
Lemma code_single_use_witness :
  exists e, (AuthExample.exchange 120 "r2"
    (auth_run AuthExample.cfg AuthExample.cap [OpDeleteUsedTokens] AuthExample.s1)).1 = Err e.
Proof.
  apply (code_single_use AuthExample.cfg AuthExample.cap (AuthExample.ctx 100) "authz_a" "https://c/cb"
    AuthExample.session 2 (AuthExample.artifacts "r1") AuthExample.s0
    (AuthExample.sess_of (AuthExample.exchange 100 "r1" AuthExample.s0).1) AuthExample.s1 [OpDeleteUsedTokens]).
  - vm_compute. reflexivity.
  - constructor; [intros []|constructor].
Defined.

Lemma refresh_token_single_use_witness :
  exists e, (AuthExample.refresh_run 230 "r1" "r3"
    (auth_run AuthExample.cfg AuthExample.cap [OpDeleteExpiredCodes 220] AuthExample.s2)).1 = Err e.
Proof.
  apply (refresh_token_single_use AuthExample.cfg AuthExample.cap (AuthExample.ctx 200) "r1"
    AuthExample.session 2 (AuthExample.artifacts "r2") AuthExample.s1
    (AuthExample.sess_of (AuthExample.refresh_run 200 "r1" "r2" AuthExample.s1).1) AuthExample.s2
    [OpDeleteExpiredCodes 220]).
  - vm_compute. reflexivity.
  - discriminate.
  - constructor; [intros []|constructor].
Defined.

(** The code of the example is exchanged at time 100 and presented again at 210. *)
Lemma code_replay_revokes_session_witness :
  exists e s', exchangeAuthorizationCode AuthExample.cfg AuthExample.resolveClient (AuthExample.ctx 210)
      AuthExample.gen AuthExample.request AuthExample.s1 = (Err e, s') /\
    code_of e = Some CodeInvalidGrant /\
    exists x', as_sessions s' !! 10%N = Some x' /\ s_Status x' = SessionStatusRevoked.
Proof.
  destruct (code_replay_revokes_session AuthExample.cfg AuthExample.cap AuthExample.resolveClient
    (AuthExample.ctx 210) AuthExample.gen AuthExample.request AuthExample.s1 (AuthCode_MarkUsed AuthExample.code).2)
    as (e & s' & H1 & _ & _ & H2); [vm_compute; reflexivity|reflexivity|].
  exists e, s'. split; [exact H1|].
  destruct (H2 (AuthExample.sess_of (AuthExample.exchange 100 "r1" AuthExample.s0).1)
    (mkTC AuthExample.client (mkRTenant 3 true) AuthExample.user)
    (match generateTokenArtifacts AuthExample.cfg (AuthExample.ctx 210) AuthExample.gen
       (AuthExample.sess_of (AuthExample.exchange 100 "r1" AuthExample.s0).1) with
     | Ok a => a | Err _ => AuthExample.artifacts "r3" end)) as (H3 & H4 & _);
    [vm_compute; reflexivity|vm_compute; reflexivity|reflexivity|vm_compute; discriminate|reflexivity|reflexivity|].
  split; [|exact H4]. apply H3. vm_compute. discriminate.
Defined.

Lemma refresh_replay_revokes_session_witness :
  exists e s', AuthExample.refresh_run 210 "r1" "r3" AuthExample.s2 = (Err e, s') /\
    code_of (translateTokenError e TokenFlowRefresh).1 = Some CodeInvalidGrant.
Proof.
  destruct (refresh_replay_revokes_session AuthExample.cfg AuthExample.cap (AuthExample.ctx 210) "r1"
    AuthExample.session 2 (AuthExample.artifacts "r3") AuthExample.s2
    (RefreshToken_MarkUsed (AuthExample.refresh "r1") 200).2
    (AuthExample.sess_of (AuthExample.refresh_run 200 "r1" "r2" AuthExample.s1).1)) as (e & s' & H1 & H2 & _);
    [vm_compute; reflexivity|reflexivity|vm_compute; discriminate|vm_compute; reflexivity
    |vm_compute; discriminate|].
  exists e, s'. split; [exact H1|exact H2].
Defined.

Lemma replay_on_revoked_session_is_internal_witness :
  exists e, AuthExample.exchange 220 "r4" AuthExample.s3 = (Err e, AuthExample.s3) /\
    code_of (translateTokenError e TokenFlowCode).1 = Some CodeInternal.
Proof.
  apply (replay_on_revoked_session_is_internal AuthExample.cfg (AuthExample.ctx 220) "authz_a" "https://c/cb"
    AuthExample.session 2 (AuthExample.artifacts "r4") AuthExample.s3
    (AuthCode_MarkUsed AuthExample.code).2
    (Session_ApplyRevocation (AuthExample.sess_of (AuthExample.exchange 100 "r1" AuthExample.s0).1) 210));
    [vm_compute; reflexivity|reflexivity|reflexivity|vm_compute; discriminate|vm_compute; reflexivity|reflexivity].
Defined.

Lemma exchange_sound_witness :
  exists r x, as_codes AuthExample.s0 !! "authz_a" = Some r /\ ac_Used r = false /\
    as_sessions AuthExample.s0 !! ac_SessionID r = Some x.
Proof.
  destruct (exchange_sound AuthExample.cfg AuthExample.cap AuthExample.resolveClient (AuthExample.ctx 100) AuthExample.gen
    AuthExample.request AuthExample.s0 (mkTokenResult "at" "idt" "r1" 900 "openid")
    (exchangeAuthorizationCode AuthExample.cfg AuthExample.resolveClient (AuthExample.ctx 100) AuthExample.gen
      AuthExample.request AuthExample.s0).2)
    as (r & x & cl & tn & u & x' & jti & rt & (H1 & H2 & _) & (H3 & _) & _);
    [exact keyed_s0|vm_compute; reflexivity|].
  exists r, x. split; [exact H1|]. split; [exact H2|exact H3].
Defined.

Lemma RevokeSession_spec_witness :
  (RevokeSession AuthExample.cfg (AuthExample.ctx 100) 1 11 AuthExample.s0).1 = Ok tt /\
  revokes_all AuthExample.cfg (AuthExample.ctx 100) 11 AuthExample.other AuthExample.s0
    (RevokeSession AuthExample.cfg (AuthExample.ctx 100) 1 11 AuthExample.s0).2.
Proof.
  exact (RevokeSession_spec AuthExample.cfg (AuthExample.ctx 100) 1 11 AuthExample.s0 keyed_s0 eq_refl eq_refl eq_refl).
Defined.

Lemma LogoutAll_spec_witness :
  exists s' sessions, LogoutAll AuthExample.cfg (AuthExample.ctx 100) 1 10 true AuthExample.s0 =
    (Ok (mkLogout (Z.of_nat (length (filter (fun x => logout_target 10 true x = true) sessions))) 0), s').
Proof.
  destruct (LogoutAll_spec AuthExample.cfg AuthExample.cap (AuthExample.ctx 100) 1 10 true AuthExample.s0 eq_refl keyed_s0 eq_refl)
    as (s' & l & H & _). exists s', l. exact H.
Defined.

Lemma session_identity_stable_witness :
  sessions_keyed (auth_run AuthExample.cfg AuthExample.cap [OpRevokeIfActive 11 50] AuthExample.s0).
Proof.
  apply (session_identity_stable AuthExample.cfg AuthExample.cap [OpRevokeIfActive 11 50] AuthExample.s0 keyed_s0).
Defined.
