(* ===== verification/Consent.v ===== *)
(** * Consent
    [pkg/domain/consent_purpose.go], [internal/consent/models/models.go],
    [internal/consent/models/value_objects.go], [internal/consent/store/store_memory.go],
    [internal/consent/service/service.go], [internal/consent/service/tx.go]

    The consent records with their rules, the in-memory store (a map of maps, as
    in the code), and the service.  A callback that assigns captured variables
    returns them; [uuid.New] is a stream of identifiers with a cursor in the
    state; the audit publisher is a predicate telling which events it accepts. *)
From S2P Require Import Prelude Errors.
Open Scope Z_scope.

(** ** Purposes *)

(** A string type: a cast may produce any value, [IsValid] recognises four. *)
Abbreviation Purpose := string (only parsing).
Definition PurposeLogin : Purpose := "login".
Definition PurposeRegistryCheck : Purpose := "registry_check".
Definition PurposeVCIssuance : Purpose := "vc_issuance".
Definition PurposeDecision : Purpose := "decision_evaluation".

Definition validConsentPurposes : list Purpose :=
  [PurposeLogin; PurposeRegistryCheck; PurposeVCIssuance; PurposeDecision].
Definition Purpose_IsValid (p : Purpose) : bool := slices_Contains validConsentPurposes p.

Definition ParseConsentPurpose (s : string) : res Purpose :=
  if str_empty s then Err (New CodeInvalidInput "purpose cannot be empty")
  else if negb (Purpose_IsValid s) then Err (New CodeInvalidInput "invalid purpose") else Ok s.

Inductive ConsentStatus := StatusActive | StatusExpired | StatusRevoked.

#[global] Instance ConsentStatus_eq_dec : EqDecision ConsentStatus.
Proof. solve_decision. Defined.

Definition ParseStatus (s : string) : res ConsentStatus :=
  if str_empty s then Err (New CodeInvalidInput "status cannot be empty")
  else if bool_decide (s = "active") then Ok StatusActive
  else if bool_decide (s = "expired") then Ok StatusExpired
  else if bool_decide (s = "revoked") then Ok StatusRevoked
  else Err (New CodeInvalidInput "invalid status").

Record ConsentScope := mkScope { sc_UserID : uuid; sc_Purpose : Purpose }.

Definition NewConsentScope (userID : uuid) (purpose : Purpose) : res ConsentScope :=
  if IsNil userID then Err (New CodeInvariantViolation "user ID required")
  else if negb (Purpose_IsValid purpose) then Err (New CodeInvariantViolation "invalid consent purpose")
  else Ok (mkScope userID purpose).

(** ** Records *)

Record ConsentRecord := mkConsent {
  cr_ID : uuid;
  cr_UserID : uuid;
  cr_Purpose : Purpose;
  cr_GrantedAt : time;
  cr_ExpiresAt : option time;
  cr_RevokedAt : option time;
}.

Definition NewRecord (consentID userID : uuid) (purpose : Purpose) (grantedAt : time) (expiresAt : option time)
    : res ConsentRecord :=
  if IsNil consentID then Err (New CodeInvariantViolation "consent ID required")
  else if IsNil userID then Err (New CodeInvariantViolation "user ID required")
  else if negb (Purpose_IsValid purpose) then Err (New CodeInvariantViolation "invalid consent purpose")
  else if time_IsZero grantedAt then Err (New CodeInvariantViolation "grant time required")
  else if match expiresAt with Some e => time_Before e grantedAt | None => false end
  then Err (New CodeInvariantViolation "expiry must be after grant time")
  else Ok (mkConsent consentID userID purpose grantedAt expiresAt None).

Definition expired_at (c : ConsentRecord) (now : time) : bool :=
  match cr_ExpiresAt c with Some e => time_Before e now | None => false end.

Definition Consent_IsActive (c : ConsentRecord) (now : time) : bool :=
  match cr_RevokedAt c with
  | Some _ => false
  | None => if expired_at c now then false else true
  end.

Definition Consent_CanRevoke (c : ConsentRecord) (now : time) : bool :=
  match cr_RevokedAt c with
  | Some _ => false
  | None => if expired_at c now then false else true
  end.

Definition DefaultReGrantCooldown : duration := 5 * Minute.

Definition CanReGrant (c : ConsentRecord) (now : time) (cooldown : duration) : bool :=
  match cr_RevokedAt c with
  | None => true
  | Some r => cooldown <=? time_Sub now r
  end.

Definition RenewAt (c : ConsentRecord) (now : time) (ttl : duration) : res ConsentRecord :=
  if time_IsZero now then Err (New CodeInvariantViolation "grant time required")
  else if ttl <=? 0 then Err (New CodeInvariantViolation "consent TTL must be positive")
  else Ok (mkConsent (cr_ID c) (cr_UserID c) (cr_Purpose c) now (Some (time_Add now ttl)) None).

Definition RevokeAt (c : ConsentRecord) (now : time) : res ConsentRecord :=
  if time_IsZero now then Err (New CodeInvariantViolation "revocation time required")
  else Ok (mkConsent (cr_ID c) (cr_UserID c) (cr_Purpose c) (cr_GrantedAt c) (cr_ExpiresAt c) (Some now)).

(** [ge_Updated] is meaningful only when [ge_Changed]. *)
Record GrantEvaluation := mkEval { ge_Updated : option ConsentRecord; ge_Changed : bool; ge_WasActive : bool }.

Definition EvaluateGrant (c : ConsentRecord) (now : time) (idempotencyWindow reGrantCooldown ttl : duration)
    : res GrantEvaluation :=
  let wasActive := Consent_IsActive c now in
  if wasActive && (time_Sub now (cr_GrantedAt c) <? idempotencyWindow) then Ok (mkEval None false wasActive)
  else if negb (CanReGrant c now reGrantCooldown)
  then Err (New CodeBadRequest ("consent was recently revoked; please wait before re-granting (cooldown: "
              +:+ pretty reGrantCooldown +:+ ")"))
  else
    updated ← RenewAt c now ttl;
    Ok (mkEval (Some updated) true wasActive).

Definition ComputeStatus (c : ConsentRecord) (now : time) : ConsentStatus :=
  match cr_RevokedAt c with
  | Some _ => StatusRevoked
  | None => if expired_at c now then StatusExpired else StatusActive
  end.

Definition Ensure (consents : list ConsentRecord) (purpose : Purpose) (now : time) : res unit :=
  if existsb (fun c => bool_decide (cr_Purpose c = purpose) && Consent_IsActive c now) consents then Ok tt
  else Err (New CodeMissingConsent "consent not granted for required purpose").

(** ** The in-memory store *)

Record ConsentEvent := mkConsentEvent {
  ce_UserID : uuid; ce_Purpose : string; ce_Action : string; ce_Decision : string; ce_Timestamp : time;
}.

Abbreviation consent_map := (gmap uuid (gmap string ConsentRecord)) (only parsing).

Record ConsentState := mkCS {
  cs_consents : consent_map;
  cs_uuids : nat;
  cs_audit : list ConsentEvent;
}.

Abbreviation CM A := (ST ConsentState error A) (only parsing).

Definition put_consents (m : consent_map) : CM unit := st_modify (fun s => mkCS m (cs_uuids s) (cs_audit s)).

(** The records of a user; indexing a nil map finds nothing. *)
Definition records_of (m : consent_map) (userID : uuid) : gmap string ConsentRecord := default ∅ (m !! userID).

Definition Consent_Save (consent : ConsentRecord) : CM unit :=
  m ← st_gets cs_consents;
  let records := records_of m (cr_UserID consent) in
  put_consents (<[cr_UserID consent := records]> m);;
  match records !! cr_Purpose consent with
  | Some _ => st_fail (EVal ErrConflict)
  | None => put_consents (<[cr_UserID consent := <[cr_Purpose consent := consent]> records]> m)
  end.

Definition Consent_FindByScope (scope : ConsentScope) : CM ConsentRecord :=
  m ← st_gets cs_consents;
  match records_of m (sc_UserID scope) !! sc_Purpose scope with
  | None => st_fail (EVal ErrNotFound)
  | Some r => mret r
  end.

Record RecordFilter := mkFilter { rf_Purpose : option Purpose; rf_Status : option ConsentStatus }.

Definition purpose_kept (f : option RecordFilter) (r : ConsentRecord) : Prop :=
  match f with
  | Some (mkFilter (Some p) _) => cr_Purpose r = p
  | _ => True
  end.

#[global] Instance purpose_kept_dec f r : Decision (purpose_kept f r).
Proof. destruct f as [[[p|] st]|]; simpl; apply _. Defined.

(** In the unspecified order of a Go map. *)
Definition Consent_ListByUser (userID : uuid) (f : option RecordFilter) : CM (list ConsentRecord) :=
  m ← st_gets cs_consents;
  mret (filter (purpose_kept f) ((map_to_list (records_of m userID)).*2)).

Definition Consent_Update (consent : ConsentRecord) : CM unit :=
  m ← st_gets cs_consents;
  let records := records_of m (cr_UserID consent) in
  match records !! cr_Purpose consent with
  | None => st_fail (EVal ErrNotFound)
  | Some r =>
      if negb (bool_decide (cr_ID r = cr_ID consent)) then st_fail (EVal ErrNotFound)
      else put_consents (<[cr_UserID consent := <[cr_Purpose consent := consent]> records]> m)
  end.

Definition revoke_record (now : time) (r : ConsentRecord) : ConsentRecord :=
  if Consent_CanRevoke r now
  then mkConsent (cr_ID r) (cr_UserID r) (cr_Purpose r) (cr_GrantedAt r) (cr_ExpiresAt r) (Some now) else r.

Definition Consent_RevokeAllByUser (userID : uuid) (now : time) : CM Z :=
  m ← st_gets cs_consents;
  match m !! userID with
  | None => mret 0
  | Some records =>
      put_consents (<[userID := revoke_record now <$> records]> m);;
      mret (Z.of_nat (size (filter (fun kv => Consent_CanRevoke kv.2 now = true) records)))
  end.

Definition Consent_DeleteByUser (userID : uuid) : CM unit :=
  m ← st_gets cs_consents; put_consents (delete userID m).

(** The validation callback hands its captured variables to the mutation
    callback, which says whether it changed the copy. *)
Definition Consent_Execute {A} (scope : ConsentScope) (validate : ConsentRecord -> res A)
    (mutate : A -> ConsentRecord -> bool * ConsentRecord) : CM (ConsentRecord * A) :=
  m ← st_gets cs_consents;
  let records := records_of m (sc_UserID scope) in
  match records !! sc_Purpose scope with
  | None => st_fail (EVal ErrNotFound)
  | Some r =>
      match validate r with
      | Err e => st_fail e
      | Ok a =>
          let '(changed, r') := mutate a r in
          (if (changed : bool) then put_consents (<[sc_UserID scope := <[sc_Purpose scope := r']> records]> m)
           else mret tt);;
          mret (r', a)
      end
  end.

(** ** The service *)

Record ConsentConfig := mkConsentConfig {
  cc_consentTTL : duration;
  cc_grantIdempotencyWindow : duration;
  cc_reGrantCooldown : duration;
}.

Inductive ConsentOption :=
| WithConsentTTL (ttl : duration)
| WithGrantWindow (window : duration)
| WithReGrantCooldown (cooldown : duration).

Definition defaultConsentTTL : duration := 365 * 24 * Hour.
Definition defaultGrantIdempotencyWindow : duration := 5 * Minute.

Definition apply_consent_option (c : ConsentConfig) (o : ConsentOption) : ConsentConfig :=
  match o with
  | WithConsentTTL d =>
      if 0 <? d then mkConsentConfig d (cc_grantIdempotencyWindow c) (cc_reGrantCooldown c) else c
  | WithGrantWindow d => if 0 <? d then mkConsentConfig (cc_consentTTL c) d (cc_reGrantCooldown c) else c
  | WithReGrantCooldown d =>
      if 0 <? d then mkConsentConfig (cc_consentTTL c) (cc_grantIdempotencyWindow c) d else c
  end.

Definition Consent_New (opts : list ConsentOption) : ConsentConfig :=
  let c := foldl apply_consent_option
    (mkConsentConfig defaultConsentTTL defaultGrantIdempotencyWindow DefaultReGrantCooldown) opts in
  mkConsentConfig
    (if cc_consentTTL c <=? 0 then defaultConsentTTL else cc_consentTTL c)
    (if cc_grantIdempotencyWindow c <=? 0 then defaultGrantIdempotencyWindow else cc_grantIdempotencyWindow c)
    (if cc_reGrantCooldown c <=? 0 then DefaultReGrantCooldown else cc_reGrantCooldown c).

(** The request context: its clock, and its error on entry to the transaction
    and after the lock was taken. *)
Record ConsentCtx := mkConsentCtx { cx_now : time; cx_err : option error; cx_err_locked : option error }.

Definition Consent_RunInTx {A} (ctx : ConsentCtx) (fn : CM A) : CM A :=
  match cx_err ctx with
  | Some e => st_fail (Wrap e CodeTimeout "transaction aborted: context cancelled")
  | None =>
      match cx_err_locked ctx with
      | Some e => st_fail (Wrap e CodeTimeout "transaction aborted: context cancelled")
      | None => fn
      end
  end.

Section service.
Context (cfg : ConsentConfig) (newID : nat -> uuid) (accepts : ConsentEvent -> bool).

(** A publisher that is absent or refuses an event: the operation goes on. *)
Definition emitAudit (e : ConsentEvent) : CM unit :=
  st_modify (fun s => if accepts e then mkCS (cs_consents s) (cs_uuids s) (cs_audit s ++ [e]) else s).

Fixpoint validatePurposes (purposes : list Purpose) : res unit :=
  match purposes with
  | [] => Ok tt
  | p :: rest =>
      if negb (Purpose_IsValid p) then Err (New CodeBadRequest "invalid purpose") else validatePurposes rest
  end.

Definition scopeForPurpose (userID : uuid) (purpose : Purpose) : res ConsentScope :=
  match NewConsentScope userID purpose with
  | Err _ => Err (New CodeBadRequest "invalid consent scope")
  | Ok s => Ok s
  end.

(** The loop of [forEachScope], collecting the results of the callback. *)
Fixpoint each_scope {A} (userID : uuid) (purposes : list Purpose) (fn : ConsentScope -> CM A) : CM (list A) :=
  match purposes with
  | [] => mret []
  | p :: rest =>
      scope ← st_lift (scopeForPurpose userID p);
      a ← fn scope;
      l ← each_scope userID rest fn;
      mret (a :: l)
  end.

Definition forEachScope {A} (ctx : ConsentCtx) (userID : uuid) (purposes : list Purpose)
    (fn : ConsentScope -> CM A) : CM (list A) :=
  Consent_RunInTx ctx (each_scope userID purposes fn).

Record grantEffect := mkEffect { gf_record : ConsentRecord; gf_wasActive : bool; gf_timestamp : time }.

Definition uuid_New : CM uuid := fun s =>
  (Ok (newID (cs_uuids s)), mkCS (cs_consents s) (S (cs_uuids s)) (cs_audit s)).

Definition createGrantTx (scope : ConsentScope) (now : time) : CM ConsentRecord :=
  consentID ← uuid_New;
  match NewRecord consentID (sc_UserID scope) (sc_Purpose scope) now (Some (time_Add now (cc_consentTTL cfg))) with
  | Err e => st_fail (Wrap e CodeInternal "failed to create consent record")
  | Ok r =>
      saved ← st_try (Consent_Save r);
      match saved with
      | Ok _ => mret r
      | Err e =>
          if errors_Is e ErrConflict then st_fail e else st_fail (Wrap e CodeInternal "failed to save consent")
      end
  end.

(** The retry loop, with the number of attempts left. *)
Fixpoint upsert_attempts (attempts : nat) (scope : ConsentScope) (now : time)
    : CM (ConsentRecord * option grantEffect) :=
  match attempts with
  | O => st_fail (New CodeConflict "consent grant conflict")
  | S attempts' =>
      executed ← st_try (Consent_Execute scope
        (fun existing => EvaluateGrant existing now (cc_grantIdempotencyWindow cfg)
                           (cc_reGrantCooldown cfg) (cc_consentTTL cfg))
        (fun eval existing =>
           if negb (ge_Changed eval) then (false, existing)
           else (true, default existing (ge_Updated eval))));
      match executed with
      | Ok (r, eval) =>
          if negb (ge_Changed eval) then mret (r, None)
          else mret (r, Some (mkEffect r (ge_WasActive eval) now))
      | Err e =>
          if errors_Is e ErrNotFound then
            created ← st_try (createGrantTx scope now);
            match created with
            | Ok r => mret (r, Some (mkEffect r false now))
            | Err e2 => if errors_Is e2 ErrConflict then upsert_attempts attempts' scope now else st_fail e2
            end
          else
            match errors_As e with
            | Some _ => st_fail e
            | None => st_fail (Wrap e CodeInternal "failed to update consent")
            end
      end
  end.

Definition upsertGrantTx (ctx : ConsentCtx) (scope : ConsentScope) : CM (ConsentRecord * option grantEffect) :=
  upsert_attempts 2 scope (cx_now ctx).

Definition AuditActionConsentGranted : string := "consent_granted".
Definition AuditActionConsentRevoked : string := "consent_revoked".
Definition AuditActionConsentDeleted : string := "consent_deleted".
Definition AuditActionConsentCheckPassed : string := "consent_check_passed".
Definition AuditActionConsentCheckFailed : string := "consent_check_failed".

Fixpoint emit_grants (l : list (ConsentRecord * option grantEffect)) : CM unit :=
  match l with
  | [] => mret tt
  | (_, Some f) :: rest =>
      emitAudit (mkConsentEvent (cr_UserID (gf_record f)) (cr_Purpose (gf_record f))
                   AuditActionConsentGranted "granted" (gf_timestamp f));;
      emit_grants rest
  | (_, None) :: rest => emit_grants rest
  end.

Definition Grant (ctx : ConsentCtx) (userID : uuid) (purposes : list Purpose) : CM (list ConsentRecord) :=
  if IsNil userID then st_fail (New CodeUnauthorized "user ID required")
  else if (length purposes =? 0)%nat then st_fail (New CodeBadRequest "purposes array must not be empty")
  else
    _ ← st_lift (validatePurposes purposes);
    granted ← forEachScope ctx userID purposes (upsertGrantTx ctx);
    emit_grants granted;;
    mret (granted.*1).

(** The record and whether it changed; [None] for a missing record. *)
Definition tryRevokeScopeTx (scope : ConsentScope) (now : time) : CM (option ConsentRecord * bool) :=
  executed ← st_try (Consent_Execute scope
    (fun existing =>
       if negb (Consent_CanRevoke existing now) then Ok None
       else updated ← RevokeAt existing now; Ok (Some updated))
    (fun updated existing =>
       match updated with None => (false, existing) | Some u => (true, u) end));
  match executed with
  | Ok (r, updated) => mret (Some r, match updated with Some _ => true | None => false end)
  | Err e =>
      if errors_Is e ErrNotFound then mret (None, false)
      else
        match errors_As e with
        | Some _ => st_fail e
        | None => st_fail (Wrap e CodeInternal "failed to revoke consent")
        end
  end.

Definition revoked_records (l : list (option ConsentRecord * bool)) : list ConsentRecord :=
  omap (fun '(r, changed) => if (changed : bool) then r else None) l.

Fixpoint emit_revokes (userID : uuid) (now : time) (l : list ConsentRecord) : CM unit :=
  match l with
  | [] => mret tt
  | r :: rest =>
      emitAudit (mkConsentEvent userID (cr_Purpose r) AuditActionConsentRevoked "revoked" now);;
      emit_revokes userID now rest
  end.

Definition Revoke (ctx : ConsentCtx) (userID : uuid) (purposes : list Purpose) : CM (list ConsentRecord) :=
  if IsNil userID then st_fail (New CodeUnauthorized "user ID required")
  else
    _ ← st_lift (validatePurposes purposes);
    results ← forEachScope ctx userID purposes (fun scope => tryRevokeScopeTx scope (cx_now ctx));
    let revoked := revoked_records results in
    emit_revokes userID (cx_now ctx) revoked;;
    mret revoked.

Definition RevokeAll (ctx : ConsentCtx) (userID : uuid) : CM Z :=
  if IsNil userID then st_fail (New CodeBadRequest "user ID required")
  else
    revokedCount ← Consent_RunInTx ctx (Consent_RevokeAllByUser userID (cx_now ctx));
    (if 0 <? revokedCount
     then emitAudit (mkConsentEvent userID "" AuditActionConsentRevoked "revoked" (cx_now ctx)) else mret tt);;
    mret revokedCount.

Definition DeleteAll (ctx : ConsentCtx) (userID : uuid) : CM unit :=
  if IsNil userID then st_fail (New CodeBadRequest "user ID required")
  else
    Consent_RunInTx ctx (Consent_DeleteByUser userID);;
    emitAudit (mkConsentEvent userID "" AuditActionConsentDeleted "deleted" (cx_now ctx)).

Definition status_kept (f : RecordFilter) (now : time) (r : ConsentRecord) : Prop :=
  match rf_Status f with Some st => ComputeStatus r now = st | None => True end.

#[global] Instance status_kept_dec f now r : Decision (status_kept f now r).
Proof. unfold status_kept. destruct (rf_Status f); apply _. Defined.

Definition filterRecords (records : list ConsentRecord) (f : option RecordFilter) (now : time)
    : list ConsentRecord :=
  match f with
  | None => records
  | Some f => filter (fun r => purpose_kept (Some f) r /\ status_kept f now r) records
  end.

Definition Consent_List (ctx : ConsentCtx) (userID : uuid) (f : option RecordFilter) : CM (list ConsentRecord) :=
  if IsNil userID then st_fail (New CodeUnauthorized "user ID required")
  else
    let storeFilter :=
      match f with Some (mkFilter p (Some _)) => Some (mkFilter p None) | _ => f end in
    records ← Consent_ListByUser userID storeFilter;
    match f with
    | Some (mkFilter None None) | None => mret records
    | Some _ => mret (filterRecords records f (cx_now ctx))
    end.

Definition recordConsentCheckOutcome (ctx : ConsentCtx) (userID : uuid) (purpose : Purpose) (passed : bool)
    : CM unit :=
  emitAudit (mkConsentEvent userID purpose
    (if passed then AuditActionConsentCheckPassed else AuditActionConsentCheckFailed)
    (if passed then "granted" else "denied") (cx_now ctx)).

Definition Require (ctx : ConsentCtx) (userID : uuid) (purpose : Purpose) : CM unit :=
  if IsNil userID then st_fail (New CodeUnauthorized "user ID required")
  else if negb (Purpose_IsValid purpose) then st_fail (New CodeBadRequest "invalid purpose")
  else
    match NewConsentScope userID purpose with
    | Err _ => st_fail (New CodeBadRequest "invalid consent scope")
    | Ok scope =>
        found ← st_try (Consent_FindByScope scope);
        match found with
        | Err e =>
            if errors_Is e ErrNotFound
            then recordConsentCheckOutcome ctx userID purpose false;;
                 st_fail (New CodeMissingConsent "consent not granted for required purpose")
            else st_fail (Wrap e CodeInternal "failed to read consent")
        | Ok r =>
            match ComputeStatus r (cx_now ctx) with
            | StatusRevoked =>
                recordConsentCheckOutcome ctx userID purpose false;;
                st_fail (New CodeInvalidConsent "consent revoked")
            | StatusExpired =>
                recordConsentCheckOutcome ctx userID purpose false;;
                st_fail (New CodeInvalidConsent "consent expired")
            | StatusActive => recordConsentCheckOutcome ctx userID purpose true
            end
        end
    end.

(** ** The contract

    A consent is a grant time and, when it was withdrawn, a revocation time.  The
    lifecycle of every user and purpose is independent of the others, except that
    a grant of several purposes is atomic, as [service.go] and the module's README
    document it: when one of them is still in its cooldown, none is granted. *)

Definition entry : Type := time * option time.
Definition lifecycle : Type := uuid -> string -> option entry.
Definition upd (u : uuid) (p : string) (e : option entry) (m : lifecycle) : lifecycle :=
  fun u' p' => if decide (u' = u /\ p' = p) then e else m u' p'.

(** [None]: refused. *)
Definition spec_grant1 (now : time) (e : option entry) : option entry :=
  match e with
  | None => Some (now, None)
  | Some (g, None) =>
      if (now <=? g + cc_consentTTL cfg) && (now - g <? cc_grantIdempotencyWindow cfg) then Some (g, None)
      else Some (now, None)
  | Some (g, Some r) => if now - r <? cc_reGrantCooldown cfg then None else Some (now, None)
  end.

Definition spec_grant (now : time) (u : uuid) (ps : list Purpose) (m : lifecycle) : lifecycle :=
  if forallb (fun p => bool_decide (is_Some (spec_grant1 now (m u p)))) ps
  then fun u' p' => if decide (u' = u /\ p' ∈ ps) then spec_grant1 now (m u' p') else m u' p'
  else m.

Definition spec_revoke1 (now : time) (e : option entry) : option entry :=
  match e with
  | Some (g, None) => if now <=? g + cc_consentTTL cfg then Some (g, Some now) else e
  | _ => e
  end.

Definition spec_revoke (now : time) (u : uuid) (ps : list Purpose) (m : lifecycle) : lifecycle :=
  foldl (fun m p => upd u p (spec_revoke1 now (m u p)) m) m ps.

Inductive verdict := VMissing | VRevoked | VExpired | VGranted.

Definition spec_require (now : time) (e : option entry) : verdict :=
  match e with
  | None => VMissing
  | Some (_, Some _) => VRevoked
  | Some (g, None) => if now <=? g + cc_consentTTL cfg then VGranted else VExpired
  end.

Definition verdict_result (v : verdict) : res unit :=
  match v with
  | VMissing => Err (New CodeMissingConsent "consent not granted for required purpose")
  | VRevoked => Err (New CodeInvalidConsent "consent revoked")
  | VExpired => Err (New CodeInvalidConsent "consent expired")
  | VGranted => Ok tt
  end.

(** Histories of requests, by any users, each with its own clock. *)
Inductive consent_op :=
| OGrant (ctx : ConsentCtx) (u : uuid) (ps : list Purpose)
| ORevoke (ctx : ConsentCtx) (u : uuid) (ps : list Purpose)
| ORevokeAll (ctx : ConsentCtx) (u : uuid)
| ODeleteAll (ctx : ConsentCtx) (u : uuid)
| ORequire (ctx : ConsentCtx) (u : uuid) (p : Purpose).

Definition op_ctx (op : consent_op) : ConsentCtx :=
  match op with
  | OGrant c _ _ | ORevoke c _ _ | ORevokeAll c _ | ODeleteAll c _ | ORequire c _ _ => c
  end.

Definition consent_step (op : consent_op) (s : ConsentState) : ConsentState :=
  match op with
  | OGrant ctx u ps => (Grant ctx u ps s).2
  | ORevoke ctx u ps => (Revoke ctx u ps s).2
  | ORevokeAll ctx u => (RevokeAll ctx u s).2
  | ODeleteAll ctx u => (DeleteAll ctx u s).2
  | ORequire ctx u p => (Require ctx u p s).2
  end.
Definition consent_run (ops : list consent_op) (s : ConsentState) : ConsentState :=
  foldl (fun s op => consent_step op s) s ops.

Definition cancelled (ctx : ConsentCtx) : bool :=
  match cx_err ctx, cx_err_locked ctx with None, None => false | _, _ => true end.

Definition spec_step (op : consent_op) (m : lifecycle) : lifecycle :=
  match op with
  | OGrant ctx u ps =>
      if IsNil u || cancelled ctx || negb (forallb Purpose_IsValid ps) then m else spec_grant (cx_now ctx) u ps m
  | ORevoke ctx u ps =>
      if IsNil u || cancelled ctx || negb (forallb Purpose_IsValid ps) then m else spec_revoke (cx_now ctx) u ps m
  | ORevokeAll ctx u =>
      if IsNil u || cancelled ctx then m
      else fun u' p => if decide (u' = u) then spec_revoke1 (cx_now ctx) (m u' p) else m u' p
  | ODeleteAll ctx u =>
      if IsNil u || cancelled ctx then m else fun u' p => if decide (u' = u) then None else m u' p
  | ORequire _ _ _ => m
  end.
Definition spec_run (ops : list consent_op) (m : lifecycle) : lifecycle :=
  foldl (fun m op => spec_step op m) m ops.

(** ** The order of a grant

    The loop of [Grant] works on one purpose after the other and keeps the
    earlier ones when it stops at one in its cooldown ([grant_not_atomic]); this
    is the lifecycle it really follows. *)
Fixpoint grant_in_order (now : time) (u : uuid) (ps : list Purpose) (m : lifecycle) : lifecycle :=
  match ps with
  | [] => m
  | p :: rest =>
      match spec_grant1 now (m u p) with
      | None => m
      | Some e => grant_in_order now u rest (upd u p (Some e) m)
      end
  end.

Definition step_in_order (op : consent_op) (m : lifecycle) : lifecycle :=
  match op with
  | OGrant ctx u ps =>
      if IsNil u || cancelled ctx || negb (forallb Purpose_IsValid ps) then m
      else grant_in_order (cx_now ctx) u ps m
  | _ => spec_step op m
  end.
Definition run_in_order (ops : list consent_op) (m : lifecycle) : lifecycle :=
  foldl (fun m op => step_in_order op m) m ops.

(** A grant that stops at its first purpose or not at all; every grant of one
    purpose is such. *)
Definition grant_whole (now : time) (u : uuid) (ps : list Purpose) (m : lifecycle) : bool :=
  match ps with
  | [] => true
  | p :: _ => bool_decide (spec_grant1 now (m u p) = None) ||
              forallb (fun p => bool_decide (is_Some (spec_grant1 now (m u p)))) ps
  end.

(** Histories whose grants are all such. *)
Fixpoint grants_whole (ops : list consent_op) (m : lifecycle) : bool :=
  match ops with
  | [] => true
  | op :: rest =>
      match op with OGrant ctx u ps => grant_whole (cx_now ctx) u ps m | _ => true end
      && grants_whole rest (spec_step op m)
  end.

(** ** The simulation *)

Definition consent_cfg_ok : Prop :=
  0 < cc_consentTTL cfg /\ 0 < cc_grantIdempotencyWindow cfg <= max_int64 /\
  0 < cc_reGrantCooldown cfg <= max_int64.

Definition entry_of (r : ConsentRecord) : entry := (cr_GrantedAt r, cr_RevokedAt r).

(** A record is stored under its own user and purpose, and expires after the
    configured time. *)
Definition record_ok (u : uuid) (p : string) (r : ConsentRecord) : Prop :=
  cr_UserID r = u /\ cr_Purpose r = p /\ cr_ExpiresAt r = Some (cr_GrantedAt r + cc_consentTTL cfg).

Definition consent_rel (s : ConsentState) (m : lifecycle) : Prop :=
  forall u p, m u p = entry_of <$> records_of (cs_consents s) u !! p /\
    forall r, records_of (cs_consents s) u !! p = Some r -> record_ok u p r.

Lemma records_of_insert cm u x u' :
  records_of (<[u := x]> cm) u' = if decide (u' = u) then x else records_of cm u'.
Proof.
  unfold records_of. case_decide as H; [subst; by rewrite lookup_insert_eq|by rewrite lookup_insert_ne].
Qed.

Lemma consent_rel_put s m u p r n a :
  consent_rel s m -> record_ok u p r ->
  consent_rel (mkCS (<[u := <[p := r]> (records_of (cs_consents s) u)]> (cs_consents s)) n a)
    (upd u p (Some (entry_of r)) m).
Proof.
  intros Hrel Hr u' p'. simpl. rewrite records_of_insert. unfold upd.
  destruct (decide (u' = u)) as [->|Hu].
  - destruct (decide (p' = p)) as [->|Hp].
    + rewrite lookup_insert_eq, decide_True by done. split; [done|]. by intros ? [= <-].
    + rewrite lookup_insert_ne, decide_False by (done || tauto). apply Hrel.
  - rewrite decide_False by tauto. apply Hrel.
Qed.

Lemma consent_rel_same s s' m m' :
  consent_rel s m -> cs_consents s' = cs_consents s -> (forall u p, m' u p = m u p) -> consent_rel s' m'.
Proof. intros Hrel Hs Hm u p. rewrite Hs, Hm. apply Hrel. Qed.

Lemma upd_same u p m u' p' : upd u p (m u p) m u' p' = m u' p'.
Proof. unfold upd. case_decide as H; [by destruct H as [-> ->]|done]. Qed.

Lemma expired_at_spec u p r now : record_ok u p r -> expired_at r now = negb (now <=? cr_GrantedAt r + cc_consentTTL cfg).
Proof. intros (_ & _ & He). unfold expired_at. rewrite He. times. by rewrite Z.leb_antisym, negb_involutive. Qed.

(** The saturating difference compares like the exact one. *)
Lemma time_Sub_ltb t u d : 0 < d <= max_int64 -> (time_Sub t u <? d) = (t - u <? d).
Proof.
  intros Hd. unfold time_Sub, min_int64, max_int64 in *. apply Bool.eq_iff_eq_true. rewrite !Z.ltb_lt. lia.
Qed.

Lemma EvaluateGrant_spec u p r now :
  consent_cfg_ok -> record_ok u p r -> time_IsZero now = false ->
  match spec_grant1 now (Some (entry_of r)) with
  | None => exists e, EvaluateGrant r now (cc_grantIdempotencyWindow cfg) (cc_reGrantCooldown cfg)
                        (cc_consentTTL cfg) = Err e /\ errors_Is e ErrNotFound = false /\ code_of e = Some CodeBadRequest
  | Some x => exists ev, EvaluateGrant r now (cc_grantIdempotencyWindow cfg) (cc_reGrantCooldown cfg)
                        (cc_consentTTL cfg) = Ok ev /\
      if ge_Changed ev then exists r', ge_Updated ev = Some r' /\ record_ok u p r' /\ entry_of r' = x
      else x = entry_of r
  end.
Proof.
  intros (H1 & H2 & H3) Hr Hz. unfold EvaluateGrant, Consent_IsActive, CanReGrant, RenewAt.
  rewrite (expired_at_spec u p r now Hr), Hz, time_Sub_ltb by done.
  destruct (Z.leb_spec (cc_consentTTL cfg) 0) as [|_]; [lia|]. destruct Hr as (Hu & Hp & He).
  unfold spec_grant1, entry_of. destruct (cr_RevokedAt r) as [v|] eqn:Hv; simpl.
  - rewrite Z.leb_antisym, time_Sub_ltb by done.
    destruct (now - v <? cc_reGrantCooldown cfg); simpl; [by eexists|].
    eexists. split; [done|]. simpl. eexists. split; [done|]. by split_and!.
  - destruct (now <=? cr_GrantedAt r + cc_consentTTL cfg); simpl;
      [destruct (now - cr_GrantedAt r <? cc_grantIdempotencyWindow cfg); simpl|];
      eexists; (split; [done|]); simpl; try done; eexists; (split; [done|]); by split_and!.
Qed.

Lemma spec_grant1_missing now : spec_grant1 now None = Some (now, None).
Proof. done. Qed.

(** One purpose of a grant. *)
Lemma upsertGrantTx_sim ctx u p s m :
  consent_cfg_ok -> (forall n, newID n <> 0%N) -> consent_rel s m ->
  IsNil u = false -> Purpose_IsValid p = true -> time_IsZero (cx_now ctx) = false ->
  let '(r, s') := upsertGrantTx ctx (mkScope u p) s in
  match spec_grant1 (cx_now ctx) (m u p) with
  | Some e => is_Ok r = true /\ consent_rel s' (upd u p (Some e) m)
  | None => is_Ok r = false /\ consent_rel s' m
  end.
Proof.
  intros Hcfg Hid Hrel Hu Hp Hz. destruct (Hrel u p) as [Hm Hok].
  remember (spec_grant1 (cx_now ctx) (m u p)) as sg eqn:Hsg. rewrite Hm in Hsg.
  unfold upsertGrantTx. cbn [upsert_attempts]. unfold Consent_Execute, put_consents. st_unfold.
  destruct (records_of (cs_consents s) u !! p) as [r|] eqn:Hr.
  - pose proof (EvaluateGrant_spec u p r (cx_now ctx) Hcfg (Hok r eq_refl) Hz) as He.
    change (entry_of <$> Some r) with (Some (entry_of r)) in *. rewrite <- Hsg in He. clear Hsg.
    destruct sg as [x|].
    + destruct He as (ev & -> & Hch). destruct (ge_Changed ev) eqn:Hc; simpl; rewrite ?Hc; simpl.
      * destruct Hch as (r' & -> & Hr' & <-). split; [done|]. by apply consent_rel_put.
      * subst x. split; [done|]. eapply consent_rel_same; [exact Hrel|done|].
        intros u' p'. pose proof (upd_same u p m u' p') as Hs. by rewrite Hm in Hs.
    + destruct He as (e & -> & Hn & Hd). simpl. rewrite Hn. unfold code_of in Hd.
      destruct (errors_As e); done.
  - subst sg. unfold createGrantTx, uuid_New, NewRecord, Consent_Save, put_consents. st_unfold.
    assert (IsNil (newID (cs_uuids s)) = false) as -> by (apply N.eqb_neq; apply Hid).
    rewrite Hu, Hp, Hz. simpl. times.
    destruct (Z.ltb_spec (cx_now ctx + cc_consentTTL cfg) (cx_now ctx)) as [Hlt|_]; [destruct Hcfg as [? _]; lia|].
    simpl. rewrite Hr. simpl. split; [done|].
    apply (consent_rel_put s m u p (mkConsent (newID (cs_uuids s)) u p (cx_now ctx)
      (Some (cx_now ctx + cc_consentTTL cfg)) None)); done.
Qed.

Lemma scopeForPurpose_valid u p :
  IsNil u = false -> Purpose_IsValid p = true -> scopeForPurpose u p = Ok (mkScope u p).
Proof. intros Hu Hp. unfold scopeForPurpose, NewConsentScope. by rewrite Hu, Hp. Qed.

Lemma grant_loop_sim ctx u ps s m :
  consent_cfg_ok -> (forall n, newID n <> 0%N) -> consent_rel s m ->
  IsNil u = false -> forallb Purpose_IsValid ps = true -> time_IsZero (cx_now ctx) = false ->
  consent_rel (each_scope u ps (upsertGrantTx ctx) s).2 (grant_in_order (cx_now ctx) u ps m).
Proof.
  intros Hcfg Hid Hrel Hu Hps Hz. revert s m Hrel. induction ps as [|p ps IH]; intros s m Hrel; [done|].
  simpl in Hps. apply andb_true_iff in Hps as [Hp Hps]. simpl. rewrite (scopeForPurpose_valid u p) by done.
  unfold mbind, st_bind, st_lift. cbv beta iota.
  pose proof (upsertGrantTx_sim ctx u p s m Hcfg Hid Hrel Hu Hp Hz) as Hsim.
  destruct (upsertGrantTx ctx (mkScope u p) s) as [[a|e] s1]; destruct (spec_grant1 (cx_now ctx) (m u p)) as [x|];
    destruct Hsim as [Hr Hs1]; try done.
  specialize (IH Hps s1 _ Hs1). by destruct (each_scope u ps (upsertGrantTx ctx) s1) as [[|] s2].
Qed.

Lemma validatePurposes_spec ps :
  validatePurposes ps = if forallb Purpose_IsValid ps then Ok tt else Err (New CodeBadRequest "invalid purpose").
Proof. induction ps as [|p ps IH]; [done|]. simpl. destruct (Purpose_IsValid p); [by rewrite IH|done]. Qed.

Lemma emitAudit_consents e s : (emitAudit e s).1 = Ok tt /\ cs_consents (emitAudit e s).2 = cs_consents s.
Proof. unfold emitAudit, st_modify. simpl. by destruct (accepts e). Qed.

Lemma emit_grants_consents l s : (emit_grants l s).1 = Ok tt /\ cs_consents (emit_grants l s).2 = cs_consents s.
Proof.
  revert s. induction l as [|[r [f|]] l IH]; intros s; [done| |by apply IH].
  simpl. unfold mbind, st_bind.
  match goal with |- context [emitAudit ?e s] => destruct (emitAudit_consents e s) as [H1 H2]; destruct (emitAudit e s) as [[[]|] s1] end;
    [|done]. simpl in *. destruct (IH s1) as [-> ->]. done.
Qed.

Lemma emit_revokes_consents u now l s :
  (emit_revokes u now l s).1 = Ok tt /\ cs_consents (emit_revokes u now l s).2 = cs_consents s.
Proof.
  revert s. induction l as [|r l IH]; intros s; [done|].
  simpl. unfold mbind, st_bind.
  match goal with |- context [emitAudit ?e s] => destruct (emitAudit_consents e s) as [H1 H2]; destruct (emitAudit e s) as [[[]|] s1] end;
    [|done]. simpl in *. destruct (IH s1) as [-> ->]. done.
Qed.

(** Emitting events after a transaction keeps the relation. *)
Lemma rel_after {A B} (m1 : CM A) (f : A -> CM B) s m :
  consent_rel (m1 s).2 m -> (forall a s1, cs_consents (f a s1).2 = cs_consents s1) ->
  consent_rel ((m1 ≫= f) s).2 m.
Proof.
  intros H Hf. unfold mbind, st_bind. destruct (m1 s) as [[a|e] s1]; [|done].
  eapply consent_rel_same; [exact H|apply Hf|done].
Qed.

Lemma Consent_RunInTx_run {A} ctx (fn : CM A) s :
  if cancelled ctx then (Consent_RunInTx ctx fn s).2 = s else Consent_RunInTx ctx fn s = fn s.
Proof. unfold cancelled, Consent_RunInTx. destruct (cx_err ctx), (cx_err_locked ctx); done. Qed.

Lemma Grant_sim ctx u ps s m :
  consent_cfg_ok -> (forall n, newID n <> 0%N) -> consent_rel s m -> time_IsZero (cx_now ctx) = false ->
  consent_rel (Grant ctx u ps s).2 (step_in_order (OGrant ctx u ps) m).
Proof.
  intros Hcfg Hid Hrel Hz. unfold Grant. simpl. destruct (IsNil u) eqn:Hu; [done|]. simpl.
  destruct ps as [|p0 ps0]; [simpl; by case_match|]. set (ps := p0 :: ps0). cbn [length Nat.eqb ps].
  rewrite validatePurposes_spec. fold ps. destruct (forallb Purpose_IsValid ps) eqn:Hps;
    [|rewrite orb_true_r; done]. rewrite orb_false_r.
  unfold mbind at 1, st_bind at 1, st_lift at 1. cbv beta iota. apply rel_after.
  - unfold forEachScope. pose proof (Consent_RunInTx_run ctx (each_scope u ps (upsertGrantTx ctx)) s) as Htx.
    destruct (cancelled ctx); rewrite Htx; [done|]. by apply grant_loop_sim.
  - intros l s1. unfold mbind, st_bind. destruct (emit_grants_consents l s1) as [H1 H2].
    by destruct (emit_grants l s1) as [[[]|] s2].
Qed.

Lemma Consent_CanRevoke_spec u p r now : record_ok u p r ->
  spec_revoke1 now (Some (entry_of r)) =
  if Consent_CanRevoke r now then Some (cr_GrantedAt r, Some now) else Some (entry_of r).
Proof.
  intros Hr. unfold Consent_CanRevoke, spec_revoke1, entry_of. rewrite (expired_at_spec u p r now Hr).
  destruct (cr_RevokedAt r); [done|]. by destruct (now <=? _).
Qed.

Lemma tryRevokeScopeTx_sim now u p s m :
  consent_rel s m -> time_IsZero now = false ->
  let '(r, s') := tryRevokeScopeTx (mkScope u p) now s in
  is_Ok r = true /\ consent_rel s' (upd u p (spec_revoke1 now (m u p)) m).
Proof.
  intros Hrel Hz. destruct (Hrel u p) as [Hm Hok].
  remember (spec_revoke1 now (m u p)) as sr eqn:Hsr. rewrite Hm in Hsr.
  unfold tryRevokeScopeTx, Consent_Execute, put_consents, RevokeAt. rewrite Hz. st_unfold.
  destruct (records_of (cs_consents s) u !! p) as [r|] eqn:Hr.
  - change (entry_of <$> Some r) with (Some (entry_of r)) in *.
    rewrite (Consent_CanRevoke_spec u p r now (Hok r eq_refl)) in Hsr.
    destruct (Consent_CanRevoke r now); simpl; subst sr; (split; [done|]).
    + apply (consent_rel_put s m u p (mkConsent (cr_ID r) (cr_UserID r) (cr_Purpose r) (cr_GrantedAt r)
        (cr_ExpiresAt r) (Some now))); [done|]. by apply (Hok r).
    + eapply consent_rel_same; [exact Hrel|done|]. intros u' p'. rewrite <- Hm. apply upd_same.
  - subst sr. simpl. split; [done|]. eapply consent_rel_same; [exact Hrel|done|].
    intros u' p'. pose proof (upd_same u p m u' p') as Hs. by rewrite Hm in Hs.
Qed.

Lemma revoke_loop_sim now u ps s m :
  consent_rel s m -> IsNil u = false -> forallb Purpose_IsValid ps = true -> time_IsZero now = false ->
  consent_rel (each_scope u ps (fun scope => tryRevokeScopeTx scope now) s).2 (spec_revoke now u ps m).
Proof.
  intros Hrel Hu Hps Hz. revert s m Hrel. induction ps as [|p ps IH]; intros s m Hrel; [done|].
  simpl in Hps. apply andb_true_iff in Hps as [Hp Hps]. simpl. rewrite (scopeForPurpose_valid u p) by done.
  unfold mbind, st_bind, st_lift. cbv beta iota.
  pose proof (tryRevokeScopeTx_sim now u p s m Hrel Hz) as Hsim.
  destruct (tryRevokeScopeTx (mkScope u p) now s) as [[a|e] s1]; destruct Hsim as [Hr Hs1]; [|done].
  specialize (IH Hps s1 _ Hs1). by destruct (each_scope _ _ _ s1) as [[|] s2].
Qed.

Lemma Revoke_sim ctx u ps s m :
  consent_rel s m -> time_IsZero (cx_now ctx) = false ->
  consent_rel (Revoke ctx u ps s).2 (step_in_order (ORevoke ctx u ps) m).
Proof.
  intros Hrel Hz. unfold Revoke. cbn [step_in_order spec_step]. destruct (IsNil u) eqn:Hu; [done|]. cbn [orb].
  rewrite validatePurposes_spec. destruct (forallb Purpose_IsValid ps) eqn:Hps; [|rewrite orb_true_r; done].
  rewrite orb_false_r. unfold mbind at 1, st_bind at 1, st_lift at 1. cbv beta iota. apply rel_after.
  - unfold forEachScope.
    pose proof (Consent_RunInTx_run ctx (each_scope u ps (fun scope => tryRevokeScopeTx scope (cx_now ctx))) s) as Htx.
    destruct (cancelled ctx); rewrite Htx; [done|]. by apply revoke_loop_sim.
  - intros l s1. unfold mbind, st_bind. destruct (emit_revokes_consents u (cx_now ctx) (revoked_records l) s1) as [H1 H2].
    by destruct (emit_revokes u (cx_now ctx) (revoked_records l) s1) as [[[]|] s2].
Qed.

Lemma RevokeAll_sim ctx u s m :
  consent_rel s m -> consent_rel (RevokeAll ctx u s).2 (step_in_order (ORevokeAll ctx u) m).
Proof.
  intros Hrel. unfold RevokeAll. cbn [step_in_order spec_step]. destruct (IsNil u) eqn:Hu; [done|]. cbn [orb]. apply rel_after.
  - pose proof (Consent_RunInTx_run ctx (Consent_RevokeAllByUser u (cx_now ctx)) s) as Htx.
    destruct (cancelled ctx); rewrite Htx; [done|]. unfold Consent_RevokeAllByUser, put_consents. st_unfold.
    assert (forall u' p, u' = u -> cs_consents s !! u = None -> m u' p = None) as Hno.
    { intros u' p -> Hn. destruct (Hrel u p) as [-> _]. unfold records_of. rewrite Hn. simpl. by rewrite lookup_empty. }
    destruct (cs_consents s !! u) as [records|] eqn:Hc; simpl.
    + intros u' p. simpl. rewrite records_of_insert. destruct (decide (u' = u)) as [->|Hne]; [|apply Hrel].
      destruct (Hrel u p) as [Hm Hok]. unfold records_of in Hm, Hok. rewrite Hc in Hm, Hok. simpl in Hm, Hok.
      rewrite lookup_fmap, Hm. destruct (records !! p) as [r|] eqn:Hr; [|done].
      change (entry_of <$> Some r) with (Some (entry_of r)). rewrite (Consent_CanRevoke_spec u p r) by auto.
      simpl. unfold revoke_record. destruct (Consent_CanRevoke r (cx_now ctx)); simpl; (split; [done|]);
        intros ? [= <-]; exact (Hok r eq_refl).
    + eapply consent_rel_same; [exact Hrel|done|]. intros u' p. destruct (decide (u' = u)) as [Heq|]; [|done].
      by rewrite Hno.
  - intros n s1. unfold mbind, st_bind. destruct (0 <? n); [|done].
    match goal with |- context [emitAudit ?e s1] => destruct (emitAudit_consents e s1) as [H1 H2];
      destruct (emitAudit e s1) as [[[]|] s2] end; done.
Qed.

Lemma DeleteAll_sim ctx u s m :
  consent_rel s m -> consent_rel (DeleteAll ctx u s).2 (step_in_order (ODeleteAll ctx u) m).
Proof.
  intros Hrel. unfold DeleteAll. cbn [step_in_order spec_step]. destruct (IsNil u) eqn:Hu; [done|]. cbn [orb]. apply rel_after.
  - pose proof (Consent_RunInTx_run ctx (Consent_DeleteByUser u) s) as Htx.
    destruct (cancelled ctx); rewrite Htx; [done|]. unfold Consent_DeleteByUser, put_consents. st_unfold.
    intros u' p. unfold records_of. simpl. destruct (decide (u' = u)) as [->|Hne].
    + rewrite lookup_delete_eq. simpl. rewrite lookup_empty. done.
    + rewrite lookup_delete_ne by done. apply Hrel.
  - intros [] s1. apply emitAudit_consents.
Qed.

Lemma Require_sim ctx u p s m :
  consent_rel s m ->
  cs_consents (Require ctx u p s).2 = cs_consents s /\
  (IsNil u = false -> Purpose_IsValid p = true ->
   (Require ctx u p s).1 = verdict_result (spec_require (cx_now ctx) (m u p))).
Proof.
  intros Hrel. unfold Require. destruct (IsNil u) eqn:Hu; [done|]. destruct (Purpose_IsValid p) eqn:Hp; [|done].
  simpl. unfold NewConsentScope. rewrite Hu, Hp. simpl. unfold Consent_FindByScope. st_unfold.
  destruct (Hrel u p) as [-> Hok]. unfold recordConsentCheckOutcome, emitAudit.
  destruct (records_of (cs_consents s) u !! p) as [r|]; simpl; [|by case_match].
  unfold ComputeStatus. rewrite (expired_at_spec u p r) by auto.
  destruct (cr_RevokedAt r); [|destruct (cx_now ctx <=? _)]; simpl; by case_match.
Qed.

Lemma consent_step_sim op s m :
  consent_cfg_ok -> (forall n, newID n <> 0%N) -> time_IsZero (cx_now (op_ctx op)) = false ->
  consent_rel s m -> consent_rel (consent_step op s) (step_in_order op m).
Proof.
  intros Hcfg Hid Hz Hrel. destruct op; simpl consent_step.
  - by apply Grant_sim.
  - by apply Revoke_sim.
  - by apply RevokeAll_sim.
  - by apply DeleteAll_sim.
  - eapply consent_rel_same; [exact Hrel|by eapply Require_sim|done].
Qed.

Lemma consent_run_sim ops s m :
  consent_cfg_ok -> (forall n, newID n <> 0%N) -> Forall (fun op => time_IsZero (cx_now (op_ctx op)) = false) ops ->
  consent_rel s m -> consent_rel (consent_run ops s) (run_in_order ops m).
Proof.
  intros Hcfg Hid Hops. revert s m. induction Hops as [|op ops Hop _ IH]; intros s m Hrel; [done|].
  apply IH. by apply consent_step_sim.
Qed.

Definition empty_store : ConsentState := mkCS ∅ 0 [].
Definition no_consent : lifecycle := fun _ _ => None.

Lemma empty_store_rel : consent_rel empty_store no_consent.
Proof. intros u p. unfold records_of. simpl. rewrite lookup_empty. simpl. by rewrite lookup_empty. Qed.

(** *** Atomic grants *)

Lemma grant1_idem now e e' :
  consent_cfg_ok -> spec_grant1 now e = Some e' -> spec_grant1 now (Some e') = Some e'.
Proof.
  intros (H1 & H2 & _). destruct e as [[g [r|]]|]; simpl.
  - destruct (now - r <? _); [done|]. intros [= <-]. simpl.
    assert ((now <=? now + cc_consentTTL cfg) = true) as -> by lia.
    assert ((now - now <? cc_grantIdempotencyWindow cfg) = true) as -> by lia. done.
  - destruct (_ && _) eqn:E; intros [= <-]; simpl; [by rewrite E|].
    assert ((now <=? now + cc_consentTTL cfg) = true) as -> by lia.
    assert ((now - now <? cc_grantIdempotencyWindow cfg) = true) as -> by lia. done.
  - intros [= <-]. simpl. assert ((now <=? now + cc_consentTTL cfg) = true) as -> by lia.
    assert ((now - now <? cc_grantIdempotencyWindow cfg) = true) as -> by lia. done.
Qed.

(** A grant none of whose purposes is refused grants exactly them. *)
Lemma grant_in_order_all now u ps m u' p' :
  consent_cfg_ok -> forallb (fun p => bool_decide (is_Some (spec_grant1 now (m u p)))) ps = true ->
  grant_in_order now u ps m u' p' =
  if decide (u' = u /\ p' ∈ ps) then spec_grant1 now (m u' p') else m u' p'.
Proof.
  intros Hcfg. revert m. induction ps as [|p ps IH]; intros m Hall; simpl.
  { rewrite decide_False; [done|]. by intros [_ ?%elem_of_nil]. }
  simpl in Hall. apply andb_true_iff in Hall as [[e He]%bool_decide_eq_true_1 Hall]. rewrite He.
  assert (forall q, spec_grant1 now (upd u p (Some e) m u q) = spec_grant1 now (m u q)) as Hq.
  { intros q. unfold upd. destruct (decide (u = u /\ q = p)) as [[_ ->]|Hd]; [|done].
    rewrite He. by eapply grant1_idem. }
  rewrite IH.
  2:{ rewrite forallb_forall in *. intros q Hin. rewrite Hq. by apply Hall. }
  destruct (decide (u' = u)) as [->|Hu].
  - rewrite Hq. destruct (decide (p' = p)) as [->|Hp].
    + rewrite (decide_True (P := u = u /\ p ∈ p :: ps)) by (split; [done|by constructor]).
      case_decide; [done|]. unfold upd. by rewrite decide_True.
    + unfold upd. rewrite (decide_False (P := u = u /\ p' = p)) by tauto.
      destruct (decide (u = u /\ p' ∈ ps)) as [[_ Hin]|Hn].
      * rewrite decide_True; [done|]. split; [done|by constructor].
      * rewrite decide_False; [done|]. intros [_ [?|?]%elem_of_cons]; tauto.
  - rewrite !decide_False by tauto. unfold upd. by rewrite decide_False by tauto.
Qed.

Lemma grant_in_order_whole now u ps m u' p' :
  consent_cfg_ok -> grant_whole now u ps m = true ->
  grant_in_order now u ps m u' p' = spec_grant now u ps m u' p'.
Proof.
  intros Hcfg. unfold spec_grant. destruct ps as [|p ps].
  { intros _. simpl. rewrite decide_False; [done|]. by intros [_ ?%elem_of_nil]. }
  unfold grant_whole. intros [Hn|Hall]%orb_true_iff.
  - apply bool_decide_eq_true_1 in Hn. simpl. by rewrite Hn.
  - rewrite Hall. by apply grant_in_order_all.
Qed.

Lemma consent_step_whole op s m :
  consent_cfg_ok -> (forall n, newID n <> 0%N) -> time_IsZero (cx_now (op_ctx op)) = false ->
  match op with OGrant ctx u ps => grant_whole (cx_now ctx) u ps m | _ => true end = true ->
  consent_rel s m -> consent_rel (consent_step op s) (spec_step op m).
Proof.
  intros Hcfg Hid Hz Hw Hrel. pose proof (consent_step_sim op s m Hcfg Hid Hz Hrel) as Hs.
  eapply consent_rel_same; [exact Hs|done|]. intros u p. destruct op as [ctx u' ps| | | |]; try done.
  simpl. case_match; [done|]. symmetry. by apply grant_in_order_whole.
Qed.

Lemma consent_run_whole ops s m :
  consent_cfg_ok -> (forall n, newID n <> 0%N) -> Forall (fun op => time_IsZero (cx_now (op_ctx op)) = false) ops ->
  grants_whole ops m = true -> consent_rel s m -> consent_rel (consent_run ops s) (spec_run ops m).
Proof.
  intros Hcfg Hid Hops. revert s m. induction Hops as [|op ops Hop _ IH]; intros s m Hw Hrel; [done|].
  simpl in Hw. apply andb_true_iff in Hw as [Hw Hws]. apply IH; [done|]. by apply consent_step_whole.
Qed.

(** C5: the consent service over the in-memory store implements the documented
    contract, in which a grant of several purposes is atomic, on every history of
    requests whose multi-purpose grants are refused at their first purpose or not
    at all (so on every history of single-purpose grants): after any such history
    of grants, revocations and erasures by any users, [Require] answers for a user
    and purpose exactly what that user's own grant and revocation times say
    (missing, revoked, expired after the configured lifetime, or granted), and it
    changes no record.  Clocks are arbitrary but not the zero time.  (A grant
    refused at a later purpose keeps the earlier ones, against the documentation:
    [grant_not_atomic].) *)
Theorem consent_refines_lifecycle ops ctx u p :
  consent_cfg_ok -> (forall n, newID n <> 0%N) ->
  Forall (fun op => time_IsZero (cx_now (op_ctx op)) = false) ops ->
  grants_whole ops no_consent = true -> IsNil u = false -> Purpose_IsValid p = true ->
  let s := consent_run ops empty_store in
  (Require ctx u p s).1 = verdict_result (spec_require (cx_now ctx) (spec_run ops no_consent u p)) /\
  cs_consents (Require ctx u p s).2 = cs_consents s.
Proof.
  intros Hcfg Hid Hops Hw Hu Hp s.
  pose proof (consent_run_whole ops empty_store no_consent Hcfg Hid Hops Hw empty_store_rel) as Hrel.
  destruct (Require_sim ctx u p s _ Hrel) as [H1 H2]. split; [by apply H2|done].
Qed.

(** ** Revocation and cooldown *)

Lemma grant_in_order_other now u ps m u' p' : u' <> u -> grant_in_order now u ps m u' p' = m u' p'.
Proof.
  intros Hne. revert m. induction ps as [|p ps IH]; intros m; [done|]. simpl. case_match; [|done].
  rewrite IH. unfold upd. rewrite decide_False by tauto. done.
Qed.

Lemma grant_in_order_cooldown now u ps m p g r :
  m u p = Some (g, Some r) -> now - r < cc_reGrantCooldown cfg -> grant_in_order now u ps m u p = Some (g, Some r).
Proof.
  intros Hm Hc. revert m Hm. induction ps as [|q ps IH]; intros m Hm; [done|]. simpl.
  destruct (decide (q = p)) as [->|Hne].
  - rewrite Hm. simpl. destruct (Z.ltb_spec (now - r) (cc_reGrantCooldown cfg)); [done|lia].
  - case_match; [|done]. apply IH. unfold upd. rewrite decide_False by (intros [_ ?]; congruence). done.
Qed.

Lemma spec_revoke_at now u ps m u' p' :
  spec_revoke now u ps m u' p' =
  if decide (u' = u /\ p' ∈ ps) then spec_revoke1 now (m u' p') else m u' p'.
Proof.
  unfold spec_revoke. revert m. induction ps as [|p ps IH]; intros m; simpl.
  { rewrite decide_False; [done|]. by intros [_ ?%elem_of_nil]. }
  rewrite IH. unfold upd. assert (forall e, spec_revoke1 now (spec_revoke1 now e) = spec_revoke1 now e) as Hidem.
  { intros [[g [r|]]|]; simpl; [done| |done]. destruct (now <=? g + cc_consentTTL cfg) eqn:E; simpl; [done|by rewrite E]. }
  destruct (decide (u' = u /\ p' ∈ ps)) as [[-> Hin]|Hn].
  - rewrite (decide_True (P := u = u /\ p' ∈ p :: ps)) by (split; [done|by constructor]).
    case_decide as Hd; [|done]. destruct Hd as [_ ->]. apply Hidem.
  - destruct (decide (u' = u /\ p' = p)) as [[-> ->]|Hd].
    + by rewrite decide_True by (split; [done|by constructor]).
    + rewrite decide_False; [done|]. intros [-> [->|?]%elem_of_cons]; tauto.
Qed.

(** Steps that neither erase the user's records nor grant after the cooldown. *)
Definition keeps_revoked (u : uuid) (t : time) (op : consent_op) : Prop :=
  match op with
  | OGrant ctx u' _ => u' = u -> cx_now ctx - t < cc_reGrantCooldown cfg
  | ODeleteAll _ u' => u' <> u
  | _ => True
  end.

Lemma step_in_order_revoked op m u p g t :
  keeps_revoked u t op -> m u p = Some (g, Some t) -> step_in_order op m u p = Some (g, Some t).
Proof.
  destruct op as [ctx u' ps|ctx u' ps|ctx u'|ctx u'|]; simpl; intros Hk Hm; try case_match; try done.
  - destruct (decide (u' = u)) as [->|Hne]; [|by rewrite grant_in_order_other].
    apply grant_in_order_cooldown; auto.
  - rewrite spec_revoke_at. case_decide; [|done]. by rewrite Hm.
  - case_decide; [|done]. by rewrite Hm.
  - by rewrite decide_False.
Qed.

(** A revocation takes effect at once and cannot be undone quickly: after a
    granted consent is revoked at time [t], every [Require] fails with "consent
    revoked", whatever requests of any users follow, until the user's records are
    erased or the user grants again at least the cooldown later. *)
Theorem consent_revocation_sticks before later u p ps t t' :
  consent_cfg_ok -> (forall n, newID n <> 0%N) ->
  Forall (fun op => time_IsZero (cx_now (op_ctx op)) = false) (before ++ later) -> time_IsZero t = false ->
  (Require (mkConsentCtx t None None) u p (consent_run before empty_store)).1 = Ok tt ->
  p ∈ ps -> forallb Purpose_IsValid ps = true -> Forall (keeps_revoked u t) later ->
  (Require (mkConsentCtx t' None None) u p
     (consent_run (before ++ ORevoke (mkConsentCtx t None None) u ps :: later) empty_store)).1 =
  Err (New CodeInvalidConsent "consent revoked").
Proof.
  intros Hcfg Hid [Hb Hl]%Forall_app Ht Hreq Hin Hps Hk.
  assert (IsNil u = false) as Hu by (unfold Require in Hreq; by destruct (IsNil u)).
  assert (Purpose_IsValid p = true) as Hp.
  { rewrite forallb_forall in Hps. apply Hps. by apply list_elem_of_In. }
  pose proof (consent_run_sim before _ _ Hcfg Hid Hb empty_store_rel) as Hr1.
  rewrite (proj2 (Require_sim (mkConsentCtx t None None) u p _ _ Hr1) Hu Hp) in Hreq. simpl in Hreq.
  set (op := ORevoke _ u ps).
  assert (Forall (fun op => time_IsZero (cx_now (op_ctx op)) = false) (before ++ op :: later)) as Hall
    by (apply Forall_app; split; [done|by constructor]).
  pose proof (consent_run_sim _ _ _ Hcfg Hid Hall empty_store_rel) as Hr2.
  rewrite (proj2 (Require_sim (mkConsentCtx t' None None) u p _ _ Hr2) Hu Hp).
  unfold run_in_order in *. rewrite foldl_app. cbn [foldl].
  set (m := foldl _ no_consent before) in *.
  destruct (m u p) as [[g [r|]]|] eqn:Hm; try done. simpl in Hreq.
  destruct (t <=? g + cc_consentTTL cfg) eqn:Hexp; [|done].
  assert (step_in_order op m u p = Some (g, Some t)) as H0.
  { simpl. rewrite Hu, Hps. simpl. rewrite spec_revoke_at, decide_True by done. rewrite Hm. simpl. by rewrite Hexp. }
  assert (foldl (fun m op => step_in_order op m) (step_in_order op m) later u p = Some (g, Some t)) as ->; [|done].
  clear -Hk H0. revert H0. generalize (step_in_order op m). induction Hk as [|o later Ho _ IH]; intros m' H0; [done|].
  simpl. apply IH. by apply step_in_order_revoked.
Qed.

(** A grant of several purposes is not atomic over the in-memory store: when
    a later purpose is still in its cooldown, the request fails, yet the earlier
    purpose is granted, and no audit event records it. *)
Theorem grant_not_atomic ctx u p1 p2 s r v :
  consent_cfg_ok -> (forall n, newID n <> 0%N) -> cancelled ctx = false ->
  IsNil u = false -> Purpose_IsValid p1 = true -> Purpose_IsValid p2 = true -> p1 <> p2 ->
  time_IsZero (cx_now ctx) = false ->
  records_of (cs_consents s) u !! p1 = None ->
  records_of (cs_consents s) u !! p2 = Some r -> cr_RevokedAt r = Some v ->
  cx_now ctx - v < cc_reGrantCooldown cfg ->
  exists e s', Grant ctx u [p1; p2] s = (Err e, s') /\ code_of e = Some CodeBadRequest /\
    (Require ctx u p1 s').1 = Ok tt /\ cs_audit s' = cs_audit s.
Proof.
  intros (C1 & C2 & C3) Hid Hcx Hu Hp1 Hp2 Hne Hz H1 H2 Hv Hcool.
  assert (IsNil (newID (cs_uuids s)) = false) as Hn by (apply N.eqb_neq; apply Hid).
  assert ((cc_reGrantCooldown cfg <=? time_Sub (cx_now ctx) v) = false) as Hc.
  { rewrite Z.leb_antisym, time_Sub_ltb by done. apply negb_false_iff, Z.ltb_lt. lia. }
  assert ((cx_now ctx + cc_consentTTL cfg <? cx_now ctx) = false) as Hexp by (apply Z.ltb_ge; lia).
  unfold Grant. rewrite Hu, validatePurposes_spec. simpl. rewrite Hp1, Hp2. unfold forEachScope.
  pose proof (Consent_RunInTx_run ctx (each_scope u [p1; p2] (upsertGrantTx ctx)) s) as Htx. rewrite Hcx in Htx.
  unfold mbind at 1, st_bind at 1, st_lift at 1. cbn [fst snd]. unfold mbind at 1, st_bind at 1. rewrite Htx.
  cbn [each_scope]. rewrite !scopeForPurpose_valid by done. unfold upsertGrantTx. cbn [upsert_attempts].
  unfold Consent_Execute, createGrantTx, uuid_New, NewRecord, Consent_Save, put_consents. st_unfold.
  rewrite H1. simpl. rewrite Hn, Hu, Hp1, Hz. simpl. times. rewrite Hexp. simpl. rewrite H1. simpl.
  rewrite records_of_insert, decide_True by done. rewrite lookup_insert_ne, H2 by done.
  unfold EvaluateGrant, Consent_IsActive, CanReGrant. rewrite Hv, Hc. simpl.
  eexists _, _. split; [done|]. split; [done|]. split; [|done].
  unfold Require. rewrite Hu, Hp1. simpl. unfold NewConsentScope. rewrite Hu, Hp1. simpl.
  unfold Consent_FindByScope. st_unfold. rewrite records_of_insert, decide_True by done.
  rewrite lookup_insert_eq. unfold ComputeStatus, expired_at. simpl. times. by rewrite Hexp.
Qed.

End service.

Definition option_ok (o : ConsentOption) : Prop :=
  match o with WithConsentTTL d | WithGrantWindow d | WithReGrantCooldown d => d <= max_int64 end.

(** Every configuration [New] builds satisfies the hypothesis of the theorems. *)
Lemma Consent_New_ok opts : Forall option_ok opts -> consent_cfg_ok (Consent_New opts).
Proof.
  intros Hopts. unfold Consent_New.
  set (ok := fun c => 0 < cc_consentTTL c /\ 0 < cc_grantIdempotencyWindow c <= max_int64 /\
                      0 < cc_reGrantCooldown c <= max_int64).
  set (c0 := mkConsentConfig defaultConsentTTL defaultGrantIdempotencyWindow DefaultReGrantCooldown).
  assert (ok c0) as H0.
  { unfold ok, c0. cbn [cc_consentTTL cc_grantIdempotencyWindow cc_reGrantCooldown].
    unfold defaultConsentTTL, defaultGrantIdempotencyWindow, DefaultReGrantCooldown, Hour, Minute, max_int64. lia. }
  assert (ok (foldl apply_consent_option c0 opts)) as (H1 & H2 & H3).
  { revert H0. generalize c0. clear c0. induction Hopts as [|o opts Ho _ IH]; intros c Hc; [done|]. simpl. apply IH.
    unfold ok in *. destruct o; simpl in *; (case_match; bools; simpl; lia). }
  unfold consent_cfg_ok. simpl. repeat (case_match; bools; try lia).
Qed.

Module ConsentExample.
Definition cfg : ConsentConfig := Consent_New [].
Definition newID (n : nat) : uuid := N.of_nat (S n).
Definition accepts (_ : ConsentEvent) : bool := true.
Definition at_ (t : time) : ConsentCtx := mkConsentCtx t None None.
Definition history : list consent_op :=
  [OGrant (at_ 10) 7 [PurposeLogin; PurposeDecision]; ORevoke (at_ 20) 7 [PurposeDecision]].
Definition s : ConsentState := consent_run cfg newID accepts history empty_store.
End ConsentExample.

Lemma newID_not_nil n : ConsentExample.newID n <> 0%N.
Proof. unfold ConsentExample.newID. lia. Qed.

Lemma consent_refines_lifecycle_witness :
  (Require ConsentExample.accepts (ConsentExample.at_ 30) 7 PurposeLogin ConsentExample.s).1 = Ok tt.
Proof.
  apply (consent_refines_lifecycle ConsentExample.cfg ConsentExample.newID ConsentExample.accepts
    ConsentExample.history (ConsentExample.at_ 30) 7 PurposeLogin).
  - apply Consent_New_ok. constructor.
  - exact newID_not_nil.
  - repeat constructor.
  - vm_compute. reflexivity.
  - reflexivity.
  - reflexivity.
Defined.

Lemma consent_revocation_sticks_witness :
  (Require ConsentExample.accepts (ConsentExample.at_ 50) 7 PurposeLogin
     (consent_run ConsentExample.cfg ConsentExample.newID ConsentExample.accepts
        [OGrant (ConsentExample.at_ 10) 7 [PurposeLogin]; ORevoke (ConsentExample.at_ 20) 7 [PurposeLogin];
         OGrant (ConsentExample.at_ 40) 7 [PurposeLogin]] empty_store)).1 =
  Err (New CodeInvalidConsent "consent revoked").
Proof.
  apply (consent_revocation_sticks ConsentExample.cfg ConsentExample.newID ConsentExample.accepts
    [OGrant (ConsentExample.at_ 10) 7 [PurposeLogin]] [OGrant (ConsentExample.at_ 40) 7 [PurposeLogin]]
    7 PurposeLogin [PurposeLogin] 20 50).
  - apply Consent_New_ok. constructor.
  - exact newID_not_nil.
  - repeat constructor.
  - reflexivity.
  - vm_compute. reflexivity.
  - constructor.
  - reflexivity.
  - repeat constructor.
Defined.

Lemma grant_not_atomic_witness :
  exists e s', Grant ConsentExample.cfg ConsentExample.newID ConsentExample.accepts (ConsentExample.at_ 30) 7
      [PurposeVCIssuance; PurposeDecision] ConsentExample.s = (Err e, s') /\ code_of e = Some CodeBadRequest /\
    (Require ConsentExample.accepts (ConsentExample.at_ 30) 7 PurposeVCIssuance s').1 = Ok tt /\
    cs_audit s' = cs_audit ConsentExample.s.
Proof.
  apply (grant_not_atomic ConsentExample.cfg ConsentExample.newID ConsentExample.accepts (ConsentExample.at_ 30) 7
    PurposeVCIssuance PurposeDecision ConsentExample.s
    (mkConsent 2 7 PurposeDecision 10 (Some (10 + 365 * 24 * Hour)) (Some 20)) 20);
    try (vm_compute; reflexivity); try discriminate.
  apply Consent_New_ok. constructor.
Defined.
