(* ===== verification/Tenant.v ===== *)
(** * Tenants and OAuth clients
    [internal/tenant/models/], [internal/tenant/store/tenant/memory.go],
    [internal/tenant/store/client/memory.go], [internal/tenant/service/],
    [internal/tenant/secrets/secrets.go], [pkg/domain/oauth.go]

    The client store keeps two indexes of pointers to the same objects; the model
    keeps a heap of clients and maps of pointers into it.  [uuid.New], the random
    source and bcrypt are arguments.  Metrics and text logs are not modelled. *)
From S2P Require Import Prelude Errors.
Open Scope Z_scope.

(** ** Value objects *)

Inductive LifeStatus := LifeActive | LifeInactive | LifeOther (s : string).

#[global] Instance LifeStatus_eq_dec : EqDecision LifeStatus.
Proof. solve_decision. Defined.

(** [TenantStatus] and [ClientStatus] have the same two values and transitions. *)
Definition LifeStatus_IsValid (s : LifeStatus) : bool :=
  match s with LifeOther _ => false | _ => true end.
Definition TenantStatus_CanTransitionTo (s target : LifeStatus) : bool :=
  match s with
  | LifeActive => bool_decide (target = LifeInactive)
  | LifeInactive => bool_decide (target = LifeActive)
  | LifeOther _ => false
  end.
Definition ClientStatus_CanTransitionTo (s target : LifeStatus) : bool :=
  match s with
  | LifeActive => bool_decide (target = LifeInactive)
  | LifeInactive => bool_decide (target = LifeActive)
  | LifeOther _ => false
  end.

(** A string type with three recognised values. *)
Abbreviation GrantType := string (only parsing).
Definition GrantTypeAuthorizationCode : GrantType := "authorization_code".
Definition GrantTypeRefreshToken : GrantType := "refresh_token".
Definition GrantTypeClientCredentials : GrantType := "client_credentials".
Definition GrantType_IsValid (g : GrantType) : bool :=
  slices_Contains [GrantTypeAuthorizationCode; GrantTypeRefreshToken; GrantTypeClientCredentials] g.
Definition RequiresConfidentialClient (g : GrantType) : bool := bool_decide (g = GrantTypeClientCredentials).

(** ** Tenants *)

Record Tenant := mkTenant {
  tn_ID : uuid; tn_Name : string; tn_Status : LifeStatus; tn_CreatedAt : time; tn_UpdatedAt : time;
}.

Definition Tenant_IsActive (t : Tenant) : bool := bool_decide (tn_Status t = LifeActive).
Definition Tenant_CanDeactivate (t : Tenant) : res unit :=
  if negb (TenantStatus_CanTransitionTo (tn_Status t) LifeInactive)
  then Err (New CodeInvariantViolation "tenant is already inactive") else Ok tt.
Definition Tenant_ApplyDeactivation (now : time) (t : Tenant) : Tenant :=
  mkTenant (tn_ID t) (tn_Name t) LifeInactive (tn_CreatedAt t) now.
Definition Tenant_Deactivate (t : Tenant) (now : time) : res Tenant :=
  _ ← Tenant_CanDeactivate t; Ok (Tenant_ApplyDeactivation now t).
Definition Tenant_CanReactivate (t : Tenant) : res unit :=
  if negb (TenantStatus_CanTransitionTo (tn_Status t) LifeActive)
  then Err (New CodeInvariantViolation "tenant is already active") else Ok tt.
Definition Tenant_ApplyReactivation (now : time) (t : Tenant) : Tenant :=
  mkTenant (tn_ID t) (tn_Name t) LifeActive (tn_CreatedAt t) now.
Definition Tenant_Reactivate (t : Tenant) (now : time) : res Tenant :=
  _ ← Tenant_CanReactivate t; Ok (Tenant_ApplyReactivation now t).

Definition NewTenant (tenantID : uuid) (name : string) (now : time) : res Tenant :=
  if str_empty name then Err (New CodeInvariantViolation "tenant name cannot be empty")
  else if (128 <? String.length name)%nat
  then Err (New CodeInvariantViolation "tenant name must be 128 characters or less")
  else Ok (mkTenant tenantID name LifeActive now now).

(** ** Clients *)

Record Client := mkClient {
  cl_ID : uuid; cl_TenantID : uuid; cl_Name : string; cl_OAuthClientID : string; cl_ClientSecretHash : string;
  cl_RedirectURIs : list string; cl_AllowedGrants : list GrantType; cl_AllowedScopes : list string;
  cl_Status : LifeStatus; cl_CreatedAt : time; cl_UpdatedAt : time;
}.

Definition NewClient (clientID tenantID : uuid) (name oauthClientID clientSecretHash : string)
    (redirectURIs : list string) (allowedGrants : list GrantType) (allowedScopes : list string) (now : time)
    : res Client :=
  if str_empty name then Err (New CodeInvariantViolation "client name cannot be empty")
  else if (128 <? String.length name)%nat
  then Err (New CodeInvariantViolation "client name must be 128 characters or less")
  else if str_empty oauthClientID then Err (New CodeInvariantViolation "client_id cannot be empty")
  else if (length redirectURIs =? 0)%nat then Err (New CodeInvariantViolation "redirect_uris cannot be empty")
  else if (length allowedGrants =? 0)%nat then Err (New CodeInvariantViolation "allowed_grants cannot be empty")
  else if existsb (fun g => negb (GrantType_IsValid g)) allowedGrants
  then Err (New CodeInvariantViolation "invalid allowed_grant")
  else if (length allowedScopes =? 0)%nat then Err (New CodeInvariantViolation "allowed_scopes cannot be empty")
  else Ok (mkClient clientID tenantID name oauthClientID clientSecretHash redirectURIs allowedGrants allowedScopes
             LifeActive now now).

Definition set_client_status (st : LifeStatus) (now : time) (c : Client) : Client :=
  mkClient (cl_ID c) (cl_TenantID c) (cl_Name c) (cl_OAuthClientID c) (cl_ClientSecretHash c) (cl_RedirectURIs c)
    (cl_AllowedGrants c) (cl_AllowedScopes c) st (cl_CreatedAt c) now.

Definition Client_IsActive (c : Client) : bool := bool_decide (cl_Status c = LifeActive).
Definition Client_CanDeactivate (c : Client) : res unit :=
  if negb (ClientStatus_CanTransitionTo (cl_Status c) LifeInactive)
  then Err (New CodeInvariantViolation "client is already inactive") else Ok tt.
Definition Client_ApplyDeactivation (now : time) (c : Client) : Client := set_client_status LifeInactive now c.
Definition Client_Deactivate (c : Client) (now : time) : res Client :=
  _ ← Client_CanDeactivate c; Ok (Client_ApplyDeactivation now c).
Definition Client_CanReactivate (c : Client) : res unit :=
  if negb (ClientStatus_CanTransitionTo (cl_Status c) LifeActive)
  then Err (New CodeInvariantViolation "client is already active") else Ok tt.
Definition Client_ApplyReactivation (now : time) (c : Client) : Client := set_client_status LifeActive now c.
Definition Client_Reactivate (c : Client) (now : time) : res Client :=
  _ ← Client_CanReactivate c; Ok (Client_ApplyReactivation now c).
Definition Client_IsConfidential (c : Client) : bool := negb (str_empty (cl_ClientSecretHash c)).
Definition Client_CanUseGrant (c : Client) (grant : GrantType) : bool :=
  if RequiresConfidentialClient grant && negb (Client_IsConfidential c) then false else true.

(** ** The stores *)

Record TenantState := mkTS {
  ts_tenants : gmap uuid Tenant;
  ts_nameIdx : gmap string uuid;
  ts_heap : gmap nat Client;          (* the client objects *)
  ts_clients : gmap uuid nat;         (* pointers by client id *)
  ts_byCode : gmap string nat;        (* pointers by OAuth client_id *)
  ts_tenantCount : gmap uuid Z;
  ts_next : nat;                      (* the next fresh pointer *)
  (** The events and the tenant each is about; what of it reaches the publisher is in [Observability]. *)
  ts_audit : list (string * uuid);
}.

Abbreviation TM A := (ST TenantState error A) (only parsing).

Definition put_tenants (m : gmap uuid Tenant) (idx : gmap string uuid) : TM unit := st_modify (fun s =>
  mkTS m idx (ts_heap s) (ts_clients s) (ts_byCode s) (ts_tenantCount s) (ts_next s) (ts_audit s)).
Definition put_client_maps (heap : gmap nat Client) (clients : gmap uuid nat) (byCode : gmap string nat)
    (count : gmap uuid Z) (next : nat) : TM unit := st_modify (fun s =>
  mkTS (ts_tenants s) (ts_nameIdx s) heap clients byCode count next (ts_audit s)).

Section stores.
(** [strings.ToLower]. *)
Context (ToLower : string -> string).

Definition TenantStore_CreateIfNameAvailable (t : Tenant) : TM unit :=
  s ← st_get;
  let lower := ToLower (tn_Name t) in
  match ts_nameIdx s !! lower with
  | Some _ => st_fail (EWrap "tenant name must be unique" (EVal ErrAlreadyUsed))
  | None => put_tenants (<[tn_ID t := t]> (ts_tenants s)) (<[lower := tn_ID t]> (ts_nameIdx s))
  end.

Definition TenantStore_FindByID (tenantID : uuid) : TM Tenant :=
  s ← st_get;
  match ts_tenants s !! tenantID with Some t => mret t | None => st_fail (EVal ErrNotFound) end.

(** The second lookup yields a nil tenant, here [None], if the index points nowhere. *)
Definition TenantStore_FindByName (name : string) : TM (option Tenant) :=
  s ← st_get;
  match ts_nameIdx s !! ToLower name with
  | Some tenantID => mret (ts_tenants s !! tenantID)
  | None => st_fail (EVal ErrNotFound)
  end.

Definition TenantStore_Count : TM Z := st_gets (fun s => Z.of_nat (size (ts_tenants s))).

Definition TenantStore_Update (t : Tenant) : TM unit :=
  s ← st_get;
  match ts_tenants s !! tn_ID t with
  | None => st_fail (EVal ErrNotFound)
  | Some _ => put_tenants (<[tn_ID t := t]> (ts_tenants s)) (ts_nameIdx s)
  end.

Definition TenantStore_Execute (tenantID : uuid) (validate : Tenant -> res unit) (mutate : Tenant -> Tenant)
    : TM Tenant :=
  s ← st_get;
  match ts_tenants s !! tenantID with
  | None => st_fail (EVal ErrNotFound)
  | Some t =>
      _ ← st_lift (validate t);
      let t' := mutate t in
      put_tenants (<[tenantID := t']> (ts_tenants s)) (ts_nameIdx s);;
      mret t'
  end.
End stores.

Definition ClientStore_Create (c : Client) : TM unit :=
  s ← st_get;
  let p := ts_next s in
  put_client_maps (<[p := c]> (ts_heap s)) (<[cl_ID c := p]> (ts_clients s))
    (<[cl_OAuthClientID c := p]> (ts_byCode s))
    (<[cl_TenantID c := default 0 (ts_tenantCount s !! cl_TenantID c) + 1]> (ts_tenantCount s)) (S p).

(** [Update] stores the caller's object. *)
Definition ClientStore_Update (c : Client) : TM unit :=
  s ← st_get;
  let p := ts_next s in
  put_client_maps (<[p := c]> (ts_heap s)) (<[cl_ID c := p]> (ts_clients s))
    (<[cl_OAuthClientID c := p]> (ts_byCode s)) (ts_tenantCount s) (S p).

(** Following a pointer; stored pointers are never dangling. *)
Definition deref (p : nat) : TM Client :=
  s ← st_get;
  match ts_heap s !! p with Some c => mret c | None => st_fail (EOther "nil pointer dereference") end.

Definition ClientStore_FindByID (clientID : uuid) : TM Client :=
  s ← st_get;
  match ts_clients s !! clientID with Some p => deref p | None => st_fail (EVal ErrNotFound) end.

Definition ClientStore_FindByTenantAndID (tenantID clientID : uuid) : TM Client :=
  s ← st_get;
  match ts_clients s !! clientID with
  | Some p =>
      c ← deref p;
      if bool_decide (cl_TenantID c = tenantID) then mret c else st_fail (EVal ErrNotFound)
  | None => st_fail (EVal ErrNotFound)
  end.

Definition ClientStore_FindByOAuthClientID (oauthClientID : string) : TM Client :=
  s ← st_get;
  match ts_byCode s !! oauthClientID with Some p => deref p | None => st_fail (EVal ErrNotFound) end.

Definition ClientStore_CountByTenant (tenantID : uuid) : TM Z :=
  st_gets (fun s => default 0 (ts_tenantCount s !! tenantID)).

Definition ClientStore_Execute (clientID : uuid) (validate : Client -> res unit) (mutate : Client -> Client)
    : TM Client :=
  s ← st_get;
  match ts_clients s !! clientID with
  | None => st_fail (EVal ErrNotFound)
  | Some p =>
      c ← deref p;
      _ ← st_lift (validate c);
      let c' := mutate c in
      put_client_maps (<[p := c']> (ts_heap s)) (<[clientID := p]> (ts_clients s))
        (<[cl_OAuthClientID c' := p]> (ts_byCode s)) (ts_tenantCount s) (ts_next s);;
      mret c'
  end.

(** ** Commands *)

Section commands.
(** [url.Parse]: scheme and host. *)
Context (url_Parse : string -> option (string * string)).

Definition isLocalhost (host : string) : bool :=
  bool_decide (host = "localhost") || String.prefix "localhost:" host.

Definition isAllowedScheme (scheme host : string) : bool :=
  if bool_decide (scheme = "https") then true else bool_decide (scheme = "http") && isLocalhost host.

Definition validateRedirectURI (uri : string) : res unit :=
  match url_Parse uri with
  | None => Err (New CodeValidation "invalid redirect_uri")
  | Some (scheme, host) =>
      if str_empty scheme then Err (New CodeValidation "invalid redirect_uri")
      else if str_empty host then Err (New CodeValidation "redirect_uri must include host")
      else if negb (isAllowedScheme scheme host)
      then Err (New CodeValidation "redirect_uri must be https or localhost for development")
      else Ok tt
  end.

Definition allowedScopes : list string := ["openid"; "profile"; "email"; "offline"].
Definition validateScope (scope : string) : res unit :=
  if slices_Contains allowedScopes scope then Ok tt else Err (New CodeValidation "unsupported scope").
Definition validateGrant (g : GrantType) : res unit :=
  if GrantType_IsValid g then Ok tt else Err (New CodeValidation "unsupported grant type").

(** The first error of a list. *)
Fixpoint validateEach {A} (f : A -> res unit) (l : list A) : res unit :=
  match l with
  | [] => Ok tt
  | x :: rest => match f x with Err e => Err e | Ok _ => validateEach f rest end
  end.

Definition validateOptionalName (name : option string) : res unit :=
  match name with
  | None => Ok tt
  | Some n =>
      let trimmed := TrimSpace n in
      if str_empty trimmed then Err (New CodeValidation "name cannot be empty")
      else if (128 <? String.length trimmed)%nat then Err (New CodeValidation "name must be 128 characters or less")
      else Ok tt
  end.

Record CreateClientCommand := mkCreate {
  cc_TenantID : uuid; cc_Name : string; cc_RedirectURIs : list string; cc_AllowedGrants : list GrantType;
  cc_AllowedScopes : list string; cc_Public : bool;
}.

Definition CreateClientCommand_Validate (c : CreateClientCommand) : res unit :=
  if str_empty (cc_Name c) then Err (New CodeValidation "name is required")
  else if (128 <? String.length (cc_Name c))%nat then Err (New CodeValidation "name must be 128 characters or less")
  else if (length (cc_RedirectURIs c) =? 0)%nat then Err (New CodeValidation "redirect_uris are required")
  else
    _ ← validateEach validateRedirectURI (cc_RedirectURIs c);
    if (length (cc_AllowedGrants c) =? 0)%nat then Err (New CodeValidation "allowed_grants are required")
    else
      _ ← validateEach validateGrant (cc_AllowedGrants c);
      if cc_Public c && slices_Contains (cc_AllowedGrants c) GrantTypeClientCredentials
      then Err (New CodeValidation "client_credentials grant requires a confidential client")
      else if (length (cc_AllowedScopes c) =? 0)%nat then Err (New CodeValidation "allowed_scopes are required")
      else validateEach validateScope (cc_AllowedScopes c).

(** A field set through its setter is [Some]. *)
Record UpdateClientCommand := mkUpdate {
  uc_Name : option string; uc_RedirectURIs : option (list string); uc_AllowedGrants : option (list GrantType);
  uc_AllowedScopes : option (list string); uc_RotateSecret : bool;
}.

Definition validate_optional {A} (f : A -> res unit) (empty_msg : string) (l : option (list A)) : res unit :=
  match l with
  | None => Ok tt
  | Some l => if (length l =? 0)%nat then Err (New CodeValidation empty_msg) else validateEach f l
  end.

Definition UpdateClientCommand_Validate (c : UpdateClientCommand) : res unit :=
  _ ← validateOptionalName (uc_Name c);
  _ ← validate_optional validateRedirectURI "redirect_uris cannot be empty" (uc_RedirectURIs c);
  _ ← validate_optional validateGrant "allowed_grants cannot be empty" (uc_AllowedGrants c);
  validate_optional validateScope "allowed_scopes cannot be empty" (uc_AllowedScopes c).

Definition UpdateClientCommand_IsEmpty (c : UpdateClientCommand) : bool :=
  match uc_Name c, uc_RedirectURIs c, uc_AllowedGrants c, uc_AllowedScopes c with
  | None, None, None, None => negb (uc_RotateSecret c)
  | _, _, _, _ => false
  end.
End commands.

Definition validateGrantChanges (client : Client) (cmd : UpdateClientCommand) : res unit :=
  match uc_AllowedGrants cmd with
  | None => Ok tt
  | Some grants =>
      validateEach (fun g =>
        if negb (Client_CanUseGrant client g)
        then Err (New CodeValidation "client_credentials grant requires a confidential client") else Ok tt) grants
  end.

Definition applyFieldUpdates (cmd : UpdateClientCommand) (c : Client) : Client :=
  mkClient (cl_ID c) (cl_TenantID c)
    (match uc_Name cmd with Some n => TrimSpace n | None => cl_Name c end)
    (cl_OAuthClientID c) (cl_ClientSecretHash c)
    (default (cl_RedirectURIs c) (uc_RedirectURIs cmd))
    (default (cl_AllowedGrants c) (uc_AllowedGrants cmd))
    (default (cl_AllowedScopes c) (uc_AllowedScopes cmd))
    (cl_Status c) (cl_CreatedAt c) (cl_UpdatedAt c).

Definition set_UpdatedAt (now : time) (c : Client) : Client :=
  mkClient (cl_ID c) (cl_TenantID c) (cl_Name c) (cl_OAuthClientID c) (cl_ClientSecretHash c) (cl_RedirectURIs c)
    (cl_AllowedGrants c) (cl_AllowedScopes c) (cl_Status c) (cl_CreatedAt c) now.
Definition set_ClientSecretHash (hash : string) (c : Client) : Client :=
  mkClient (cl_ID c) (cl_TenantID c) (cl_Name c) (cl_OAuthClientID c) hash (cl_RedirectURIs c)
    (cl_AllowedGrants c) (cl_AllowedScopes c) (cl_Status c) (cl_CreatedAt c) (cl_UpdatedAt c).

(** ** The services *)

(** Request clock and cancellation, and what [uuid.New], [uuid.NewString] and
    [secrets.Generate] return during the request. *)
Record TenantCtx := mkTenantCtx {
  tx_Now : time; tx_Err : option error; tx_ErrLocked : option error;
  tx_ID : uuid; tx_OAuthID : string; tx_Secret : res string;
}.

Definition Tenant_RunInTx {A} (ctx : TenantCtx) (fn : TM A) : TM A :=
  match tx_Err ctx with
  | Some e => st_fail (Wrap e CodeTimeout "transaction aborted: context cancelled")
  | None =>
      match tx_ErrLocked ctx with
      | Some e => st_fail (Wrap e CodeTimeout "transaction aborted: context cancelled")
      | None => fn
      end
  end.

Definition requireClientID (clientID : uuid) : res unit :=
  if IsNil clientID then Err (New CodeBadRequest "client ID required") else Ok tt.
Definition requireTenantID (tenantID : uuid) : res unit :=
  if IsNil tenantID then Err (New CodeBadRequest "tenant ID required") else Ok tt.

Record storeErrorMapping := mkStoreMapping {
  sm_sentinel : errval; sm_code : Code; sm_clientMsg : string; sm_tenantMsg : string;
}.
Definition storeErrorMappings : list storeErrorMapping :=
  [mkStoreMapping ErrNotFound CodeNotFound "client not found" "tenant not found";
   mkStoreMapping ErrAlreadyUsed CodeConflict "client already exists" "tenant name already exists";
   mkStoreMapping ErrInvalidState CodeConflict "invalid client state" "invalid tenant state"].

Definition wrapStoreErr (err : error) (action : string) (msgSelector : storeErrorMapping -> string) : error :=
  match errors_As err with
  | Some _ => err
  | None =>
      match list_find (fun m => errors_Is err (sm_sentinel m) = true) storeErrorMappings with
      | Some (_, m) => Wrap err (sm_code m) (msgSelector m)
      | None => Wrap err CodeInternal action
      end
  end.
Definition wrapClientErr (err : error) (action : string) : error := wrapStoreErr err action sm_clientMsg.
Definition wrapTenantErr (err : error) : error := wrapStoreErr err "failed to load tenant" sm_tenantMsg.

Definition map_err {A} (f : error -> error) (m : TM A) : TM A := fun s =>
  match m s with (Ok a, s') => (Ok a, s') | (Err e, s') => (Err (f e), s') end.

Definition invalidClientCredentials : error := New CodeInvalidClient "invalid client credentials".

Section services.
Context (ToLower : string -> string) (url_Parse : string -> option (string * string)).
(** [bcrypt.GenerateFromPassword] and [bcrypt.CompareHashAndPassword]. *)
Context (bcrypt : string -> res string) (bcrypt_compare : string -> string -> res unit).
(** Whether an audit publisher is configured. *)
Context (publisher : bool).

Definition emitToAudit (event : string) (tenantID : uuid) : TM unit :=
  if negb publisher then st_fail (New CodeInternal "audit publisher is required")
  else st_modify (fun s => mkTS (ts_tenants s) (ts_nameIdx s) (ts_heap s) (ts_clients s) (ts_byCode s)
                             (ts_tenantCount s) (ts_next s) (ts_audit s ++ [(event, tenantID)])).

Definition CreateTenant (ctx : TenantCtx) (name : string) : TM Tenant :=
  let name := TrimSpace name in
  Tenant_RunInTx ctx (
    t ← st_lift (NewTenant (tx_ID ctx) name (tx_Now ctx));
    map_err (fun e => if errors_Is e ErrAlreadyUsed || HasCode e CodeConflict
                      then New CodeConflict "tenant name must be unique"
                      else Wrap e CodeInternal "failed to create tenant")
      (TenantStore_CreateIfNameAvailable ToLower t);;
    emitToAudit "tenant_created" (tn_ID t);;
    mret t).

Definition GetTenant (tenantID : uuid) : TM Tenant :=
  _ ← st_lift (requireTenantID tenantID);
  map_err wrapTenantErr (TenantStore_FindByID tenantID).

Definition GetTenantByName (name : string) : TM (option Tenant) :=
  let name := TrimSpace name in
  if str_empty name then st_fail (New CodeBadRequest "tenant name is required")
  else map_err wrapTenantErr (TenantStore_FindByName ToLower name).

(** The validation callbacks turn an invariant violation into a conflict. *)
Definition conflict_if_violation (r : res unit) (msg : string) : res unit :=
  match r with
  | Err e => if HasCode e CodeInvariantViolation then Err (New CodeConflict msg) else Err e
  | Ok _ => Ok tt
  end.

Definition DeactivateTenant (ctx : TenantCtx) (tenantID : uuid) : TM Tenant :=
  _ ← st_lift (requireTenantID tenantID);
  t ← map_err wrapTenantErr (TenantStore_Execute tenantID
        (fun t => conflict_if_violation (Tenant_CanDeactivate t) "tenant is already inactive")
        (Tenant_ApplyDeactivation (tx_Now ctx)));
  emitToAudit "tenant_deactivated" (tn_ID t);;
  mret t.

Definition ReactivateTenant (ctx : TenantCtx) (tenantID : uuid) : TM Tenant :=
  _ ← st_lift (requireTenantID tenantID);
  t ← map_err wrapTenantErr (TenantStore_Execute tenantID
        (fun t => conflict_if_violation (Tenant_CanReactivate t) "tenant is already active")
        (Tenant_ApplyReactivation (tx_Now ctx)));
  emitToAudit "tenant_reactivated" (tn_ID t);;
  mret t.

(** [secrets.Hash]. *)
Definition secrets_Hash (secret : string) : res string :=
  if str_empty secret then Err (New CodeInvalidInput "secret cannot be empty")
  else bcrypt secret.

Definition generateSecret (ctx : TenantCtx) (isPublic : bool) : res (string * string) :=
  if isPublic then Ok ("", "")
  else
    match tx_Secret ctx with
    | Err e => Err (Wrap e CodeInternal "failed to generate secret")
    | Ok secret =>
        match secrets_Hash secret with
        | Err e => Err (Wrap e CodeInternal "failed to hash secret")
        | Ok hash => Ok (secret, hash)
        end
    end.

Definition CreateClient (ctx : TenantCtx) (cmd : CreateClientCommand) : TM (Client * string) :=
  match CreateClientCommand_Validate url_Parse cmd with
  | Err e => st_fail (Wrap e CodeValidation "invalid client request")
  | Ok _ =>
      Tenant_RunInTx ctx (
        tenant ← map_err wrapTenantErr (TenantStore_FindByID (cc_TenantID cmd));
        if negb (Tenant_IsActive tenant)
        then st_fail (New CodeValidation "cannot create client under inactive tenant")
        else
          '(secretValue, secretHash) ← st_lift (generateSecret ctx (cc_Public cmd));
          newClient ← st_lift (NewClient (tx_ID ctx) (cc_TenantID cmd) (cc_Name cmd) (tx_OAuthID ctx) secretHash
                                 (cc_RedirectURIs cmd) (cc_AllowedGrants cmd) (cc_AllowedScopes cmd) (tx_Now ctx));
          ClientStore_Create newClient;;
          emitToAudit "client_created" (cl_TenantID newClient);;
          mret (newClient, secretValue))
  end.

Definition GetClient (clientID : uuid) : TM Client :=
  _ ← st_lift (requireClientID clientID);
  map_err (fun e => wrapClientErr e "failed to get client") (ClientStore_FindByID clientID).

Definition GetClientForTenant (tenantID clientID : uuid) : TM Client :=
  _ ← st_lift (requireTenantID tenantID);
  _ ← st_lift (requireClientID clientID);
  map_err (fun e => wrapClientErr e "failed to get client") (ClientStore_FindByTenantAndID tenantID clientID).

Definition rotation_secret (ctx : TenantCtx) (cmd : UpdateClientCommand) : res (string * string) :=
  if uc_RotateSecret cmd then generateSecret ctx false else Ok ("", "").

Definition validate_update (cmd : UpdateClientCommand) (c : Client) : res unit :=
  if uc_RotateSecret cmd && negb (Client_IsConfidential c)
  then Err (New CodeValidation "cannot rotate secret for public client")
  else validateGrantChanges c cmd.

Definition apply_update (cmd : UpdateClientCommand) (hash : string) (now : time) (c : Client) : Client :=
  let c := if uc_RotateSecret cmd then set_ClientSecretHash hash c else c in
  set_UpdatedAt now (applyFieldUpdates cmd c).

Definition audit_rotation (cmd : UpdateClientCommand) (client : Client) : TM unit :=
  if uc_RotateSecret cmd then emitToAudit "client_secret_rotated" (cl_TenantID client) else mret tt.

Definition UpdateClient (ctx : TenantCtx) (clientID : uuid) (cmd : UpdateClientCommand) : TM (Client * string) :=
  _ ← st_lift (requireClientID clientID);
  match UpdateClientCommand_Validate url_Parse cmd with
  | Err e => st_fail (Wrap e CodeValidation "invalid update request")
  | Ok _ =>
      '(secret, hash) ← st_lift (rotation_secret ctx cmd);
      client ← map_err (fun e => wrapClientErr e "failed to update client")
        (ClientStore_Execute clientID (validate_update cmd) (apply_update cmd hash (tx_Now ctx)));
      audit_rotation cmd client;;
      mret (client, secret)
  end.

(** Another tenant's client is reported as missing. *)
Definition owned_by (tenantID : uuid) (validate : Client -> res unit) (c : Client) : res unit :=
  if negb (bool_decide (cl_TenantID c = tenantID)) then Err (EVal ErrNotFound) else validate c.

Definition UpdateClientForTenant (ctx : TenantCtx) (tenantID clientID : uuid) (cmd : UpdateClientCommand)
    : TM (Client * string) :=
  _ ← st_lift (requireTenantID tenantID);
  _ ← st_lift (requireClientID clientID);
  match UpdateClientCommand_Validate url_Parse cmd with
  | Err e => st_fail (Wrap e CodeValidation "invalid update request")
  | Ok _ =>
      '(secret, hash) ← st_lift (rotation_secret ctx cmd);
      client ← map_err (fun e => wrapClientErr e "failed to update client")
        (ClientStore_Execute clientID (owned_by tenantID (validate_update cmd)) (apply_update cmd hash (tx_Now ctx)));
      audit_rotation cmd client;;
      mret (client, secret)
  end.

Definition DeactivateClient (ctx : TenantCtx) (clientID : uuid) : TM Client :=
  _ ← st_lift (requireClientID clientID);
  c ← map_err (fun e => wrapClientErr e "failed to deactivate client") (ClientStore_Execute clientID
        (fun c => conflict_if_violation (Client_CanDeactivate c) "client is already inactive")
        (Client_ApplyDeactivation (tx_Now ctx)));
  emitToAudit "client_deactivated" (cl_TenantID c);;
  mret c.

Definition ReactivateClient (ctx : TenantCtx) (clientID : uuid) : TM Client :=
  _ ← st_lift (requireClientID clientID);
  c ← map_err (fun e => wrapClientErr e "failed to reactivate client") (ClientStore_Execute clientID
        (fun c => conflict_if_violation (Client_CanReactivate c) "client is already active")
        (Client_ApplyReactivation (tx_Now ctx)));
  emitToAudit "client_reactivated" (cl_TenantID c);;
  mret c.

Definition validate_rotation (c : Client) : res unit :=
  if negb (Client_IsConfidential c) then Err (New CodeValidation "cannot rotate secret for public client") else Ok tt.
Definition apply_rotation (hash : string) (now : time) (c : Client) : Client :=
  set_UpdatedAt now (set_ClientSecretHash hash c).

Definition RotateClientSecret (ctx : TenantCtx) (clientID : uuid) : TM (Client * string) :=
  _ ← st_lift (requireClientID clientID);
  '(secret, hash) ← st_lift (generateSecret ctx false);
  client ← map_err (fun e => wrapClientErr e "failed to rotate client secret")
    (ClientStore_Execute clientID validate_rotation (apply_rotation hash (tx_Now ctx)));
  emitToAudit "client_secret_rotated" (cl_TenantID client);;
  mret (client, secret).

Definition RotateClientSecretForTenant (ctx : TenantCtx) (tenantID clientID : uuid) : TM (Client * string) :=
  _ ← st_lift (requireTenantID tenantID);
  _ ← st_lift (requireClientID clientID);
  '(secret, hash) ← st_lift (generateSecret ctx false);
  client ← map_err (fun e => wrapClientErr e "failed to rotate client secret")
    (ClientStore_Execute clientID (owned_by tenantID validate_rotation) (apply_rotation hash (tx_Now ctx)));
  emitToAudit "client_secret_rotated" (cl_TenantID client);;
  mret (client, secret).

(** The common end of the two verifications; every failure looks the same. *)
Definition verify_found (found : res Client) (providedSecret : string) : res unit :=
  match found with
  | Err _ => Err invalidClientCredentials
  | Ok client =>
      if negb (Client_IsConfidential client) then Err invalidClientCredentials
      else match bcrypt_compare (cl_ClientSecretHash client) providedSecret with
           | Err _ => Err invalidClientCredentials
           | Ok _ => Ok tt
           end
  end.

Definition VerifyClientSecret (clientID : uuid) (providedSecret : string) : TM unit :=
  _ ← st_lift (requireClientID clientID);
  found ← st_try (ClientStore_FindByID clientID);
  st_lift (verify_found found providedSecret).

Definition VerifyClientSecretByOAuthID (oauthClientID providedSecret : string) : TM unit :=
  let oauthClientID := TrimSpace oauthClientID in
  if str_empty oauthClientID then st_fail (New CodeInvalidClient "client_id is required")
  else
    found ← st_try (ClientStore_FindByOAuthClientID oauthClientID);
    st_lift (verify_found found providedSecret).

Definition ResolveClient (clientID : string) : TM (Client * Tenant) :=
  let clientID := TrimSpace clientID in
  if str_empty clientID then st_fail (New CodeValidation "client_id is required")
  else
    client ← map_err (fun e => if errors_Is e ErrNotFound then invalidClientCredentials
                               else Wrap e CodeInternal "failed to resolve client")
               (ClientStore_FindByOAuthClientID clientID);
    if negb (Client_IsActive client) then st_fail invalidClientCredentials
    else
      tenant ← map_err (fun e => if errors_Is e ErrNotFound then invalidClientCredentials
                                 else Wrap e CodeInternal "failed to load tenant for client")
                 (TenantStore_FindByID (cl_TenantID client));
      if negb (Tenant_IsActive tenant) then st_fail invalidClientCredentials
      else mret (client, tenant).

(** [GetTenantDetails]; a counter of users is optional and may fail. *)
Record TenantDetails := mkDetails { td_Tenant : Tenant; td_UserCount : Z; td_ClientCount : Z }.

Definition GetTenantDetails (userCounter : option (uuid -> res Z)) (tenantID : uuid) : TM TenantDetails :=
  tenant ← GetTenant tenantID;
  clientCount ← ClientStore_CountByTenant tenantID;
  userCount ← match userCounter with
              | None => mret 0
              | Some f => map_err (fun e => Wrap e CodeInternal "failed to count users") (st_lift (f tenantID))
              end;
  mret (mkDetails tenant userCount clientCount).
End services.
