(* ===== verification/TenantSafety.v ===== *)
(** * Invariants of tenants and clients

    In every reachable state the indexes of both stores agree with the objects
    they index, names are unique up to case, every client is well formed and no
    public client holds the client_credentials grant; no resolution
    answers with a suspended tenant; tenant-scoped operations do not reach other tenants. *)
From S2P Require Import Prelude Errors AuthModels TRL AuthStores AuthService AuthSafety Tenant.
Open Scope Z_scope.

Section tenants.
Context (ToLower : string -> string) (url_Parse : string -> option (string * string)).
Context (bcrypt : string -> res string) (publisher : bool).

(** ** Histories *)

Inductive tenant_op :=
| OpCreateTenant (ctx : TenantCtx) (name : string)
| OpDeactivateTenant (ctx : TenantCtx) (tenantID : uuid)
| OpReactivateTenant (ctx : TenantCtx) (tenantID : uuid)
| OpCreateClient (ctx : TenantCtx) (cmd : CreateClientCommand)
| OpUpdateClient (ctx : TenantCtx) (clientID : uuid) (cmd : UpdateClientCommand)
| OpUpdateClientForTenant (ctx : TenantCtx) (tenantID clientID : uuid) (cmd : UpdateClientCommand)
| OpDeactivateClient (ctx : TenantCtx) (clientID : uuid)
| OpReactivateClient (ctx : TenantCtx) (clientID : uuid)
| OpRotateClientSecret (ctx : TenantCtx) (clientID : uuid)
| OpRotateClientSecretForTenant (ctx : TenantCtx) (tenantID clientID : uuid).

Definition tenant_step (op : tenant_op) (s : TenantState) : TenantState :=
  match op with
  | OpCreateTenant ctx name => (CreateTenant ToLower publisher ctx name s).2
  | OpDeactivateTenant ctx t => (DeactivateTenant publisher ctx t s).2
  | OpReactivateTenant ctx t => (ReactivateTenant publisher ctx t s).2
  | OpCreateClient ctx cmd => (CreateClient url_Parse bcrypt publisher ctx cmd s).2
  | OpUpdateClient ctx c cmd => (UpdateClient url_Parse bcrypt publisher ctx c cmd s).2
  | OpUpdateClientForTenant ctx t c cmd => (UpdateClientForTenant url_Parse bcrypt publisher ctx t c cmd s).2
  | OpDeactivateClient ctx c => (DeactivateClient publisher ctx c s).2
  | OpReactivateClient ctx c => (ReactivateClient publisher ctx c s).2
  | OpRotateClientSecret ctx c => (RotateClientSecret bcrypt publisher ctx c s).2
  | OpRotateClientSecretForTenant ctx t c => (RotateClientSecretForTenant bcrypt publisher ctx t c s).2
  end.

(** [uuid.New] returns identifiers that are not in use. *)
Definition op_fresh (op : tenant_op) (s : TenantState) : Prop :=
  match op with
  | OpCreateTenant ctx _ => ts_tenants s !! tx_ID ctx = None
  | OpCreateClient ctx _ =>
      ts_clients s !! tx_ID ctx = None /\ ts_byCode s !! tx_OAuthID ctx = None /\ tx_OAuthID ctx <> ""
  | _ => True
  end.

Fixpoint ops_fresh (ops : list tenant_op) (s : TenantState) : Prop :=
  match ops with [] => True | op :: rest => op_fresh op s /\ ops_fresh rest (tenant_step op s) end.

Definition tenant_run (ops : list tenant_op) (s : TenantState) : TenantState :=
  foldl (fun s op => tenant_step op s) s ops.

Definition empty_tenants : TenantState := mkTS ∅ ∅ ∅ ∅ ∅ ∅ 0 [].

(** ** The invariant *)

Record client_ok (c : Client) : Prop := {
  co_name : cl_Name c <> "" /\ (String.length (cl_Name c) <= 128)%nat;
  co_oauth : cl_OAuthClientID c <> "";
  co_uris : cl_RedirectURIs c <> [];
  co_grants : cl_AllowedGrants c <> [] /\ Forall (fun g => GrantType_IsValid g = true) (cl_AllowedGrants c);
  co_scopes : cl_AllowedScopes c <> [] /\ Forall (fun x => x ∈ allowedScopes) (cl_AllowedScopes c);
  co_confidential : GrantTypeClientCredentials ∈ cl_AllowedGrants c -> Client_IsConfidential c = true;
}.

(** The clients of a tenant. *)
Definition tenant_clients (s : TenantState) (t : uuid) : gmap uuid nat :=
  filter (fun kv => cl_TenantID <$> ts_heap s !! kv.2 = Some t) (ts_clients s).

Record tenant_wf (s : TenantState) : Prop := {
  tw_tenants : forall i t, ts_tenants s !! i = Some t ->
    tn_ID t = i /\ ts_nameIdx s !! ToLower (tn_Name t) = Some i /\
    tn_Name t <> "" /\ (String.length (tn_Name t) <= 128)%nat;
  tw_names : forall n i, ts_nameIdx s !! n = Some i -> exists t, ts_tenants s !! i = Some t /\ ToLower (tn_Name t) = n;
  tw_clients : forall i p, ts_clients s !! i = Some p ->
    exists c, ts_heap s !! p = Some c /\ cl_ID c = i /\ ts_byCode s !! cl_OAuthClientID c = Some p /\
      client_ok c /\ is_Some (ts_tenants s !! cl_TenantID c);
  tw_codes : forall code p, ts_byCode s !! code = Some p ->
    exists c, ts_heap s !! p = Some c /\ cl_OAuthClientID c = code /\ ts_clients s !! cl_ID c = Some p;
  tw_next : forall p c, ts_heap s !! p = Some c -> (p < ts_next s)%nat;
  tw_count : forall t, default 0 (ts_tenantCount s !! t) = Z.of_nat (size (tenant_clients s t));
}.

Lemma tenant_wf_empty : tenant_wf empty_tenants.
Proof.
  split; simpl; try (intros ? ?; by rewrite lookup_empty).
  intros t. unfold tenant_clients. simpl. by rewrite lookup_empty, map_filter_empty, map_size_empty.
Qed.

(** ** What the operations do to the maps *)

(** Unfold the monad without computing. *)
Ltac tn_unfold :=
  unfold put_tenants, put_client_maps, deref, map_err, st_get, st_gets, st_modify, st_fail, st_lift, st_try,
    mbind, mret, st_bind, st_ret, result_bind, result_ret in *; cbv beta iota in *.

(** Only the audit trail differs. *)
Definition same_maps (s s' : TenantState) : Prop := exists a,
  s' = mkTS (ts_tenants s) (ts_nameIdx s) (ts_heap s) (ts_clients s) (ts_byCode s) (ts_tenantCount s) (ts_next s) a.

Lemma same_maps_refl s : same_maps s s.
Proof. exists (ts_audit s). by destruct s. Qed.

Lemma same_maps_wf s s' : same_maps s s' -> tenant_wf s -> tenant_wf s'.
Proof. intros [a ->] [H1 H2 H3 H4 H5 H6]. split; simpl; try done. Qed.

Definition with_tenant (i : uuid) (t : Tenant) (s : TenantState) : TenantState :=
  mkTS (<[i := t]> (ts_tenants s)) (ts_nameIdx s) (ts_heap s) (ts_clients s) (ts_byCode s) (ts_tenantCount s)
    (ts_next s) (ts_audit s).

Definition with_client (i : uuid) (p : nat) (c : Client) (s : TenantState) : TenantState :=
  mkTS (ts_tenants s) (ts_nameIdx s) (<[p := c]> (ts_heap s)) (<[i := p]> (ts_clients s))
    (<[cl_OAuthClientID c := p]> (ts_byCode s)) (ts_tenantCount s) (ts_next s) (ts_audit s).

Lemma emitToAudit_maps e t s : same_maps s (emitToAudit publisher e t s).2.
Proof.
  unfold emitToAudit. destruct publisher; cbn; [by exists (ts_audit s ++ [(e, t)])|apply same_maps_refl].
Qed.

Lemma bind_emit_maps {A} (x : A) e t s :
  same_maps s (((_ ← emitToAudit publisher e t; mret x) : TM A) s).2.
Proof.
  pose proof (emitToAudit_maps e t s) as H. unfold mbind, st_bind.
  by destruct (emitToAudit publisher e t s) as [[[]|] s'].
Qed.

Lemma TenantStore_Execute_run i v f s :
  TenantStore_Execute i v f s =
  match ts_tenants s !! i with
  | None => (Err (EVal ErrNotFound), s)
  | Some t => match v t with Err e => (Err e, s) | Ok _ => (Ok (f t), with_tenant i (f t) s) end
  end.
Proof. unfold TenantStore_Execute. tn_unfold. destruct (ts_tenants s !! i) as [t|]; [|done]. by destruct (v t). Qed.

Lemma ClientStore_Execute_run i v f s :
  ClientStore_Execute i v f s =
  match ts_clients s !! i with
  | None => (Err (EVal ErrNotFound), s)
  | Some p =>
      match ts_heap s !! p with
      | None => (Err (EOther "nil pointer dereference"), s)
      | Some c => match v c with Err e => (Err e, s) | Ok _ => (Ok (f c), with_client i p (f c) s) end
      end
  end.
Proof.
  unfold ClientStore_Execute. tn_unfold. destruct (ts_clients s !! i) as [p|]; [|done].
  destruct (ts_heap s !! p) as [c|]; [|done]. by destruct (v c).
Qed.

(** Deactivating, reactivating and updating clients and tenants, up to audit; [F]
    tells which changes to tenants are possible. *)
Inductive tenant_effect (F : uuid -> Tenant -> Prop) (s : TenantState) : TenantState -> Prop :=
| te_same s' : same_maps s s' -> tenant_effect F s s'
| te_tenant i t t' s' : ts_tenants s !! i = Some t -> tn_ID t' = tn_ID t -> tn_Name t' = tn_Name t -> F i t' ->
    same_maps (with_tenant i t' s) s' -> tenant_effect F s s'
| te_client i p c c' s' : ts_clients s !! i = Some p -> ts_heap s !! p = Some c ->
    cl_ID c' = cl_ID c -> cl_TenantID c' = cl_TenantID c -> cl_OAuthClientID c' = cl_OAuthClientID c ->
    (client_ok c -> client_ok c') -> same_maps (with_client i p c' s) s' -> tenant_effect F s s'.

Lemma same_maps_trans s1 s2 s3 : same_maps s1 s2 -> same_maps s2 s3 -> same_maps s1 s3.
Proof. intros [a ->] [b ->]. by exists b. Qed.

Lemma tenant_lifecycle_effect (F : uuid -> Tenant -> Prop) i v f e s :
  (forall t, tn_ID (f t) = tn_ID t /\ tn_Name (f t) = tn_Name t /\ F i (f t)) ->
  tenant_effect F s (((_ ← st_lift (requireTenantID i);
    t ← map_err wrapTenantErr (TenantStore_Execute i v f);
    emitToAudit publisher e (tn_ID t);; mret t) : TM Tenant) s).2.
Proof.
  intros Hf. unfold mbind at 1, st_bind at 1, st_lift at 1. destruct (requireTenantID i); [|apply te_same, same_maps_refl].
  unfold mbind at 1, st_bind at 1, map_err at 1. rewrite TenantStore_Execute_run.
  destruct (ts_tenants s !! i) as [t|] eqn:Ht; [|apply te_same, same_maps_refl].
  destruct (v t); [|apply te_same, same_maps_refl].
  destruct (Hf t) as (H1 & H2 & H3). eapply te_tenant; [exact Ht|exact H1|exact H2|exact H3|apply bind_emit_maps].
Qed.

Lemma client_effect {B} F i v f (k : Client -> TM B) g s :
  (forall c, v c = Ok tt -> cl_ID (f c) = cl_ID c /\ cl_TenantID (f c) = cl_TenantID c /\
     cl_OAuthClientID (f c) = cl_OAuthClientID c /\ (client_ok c -> client_ok (f c))) ->
  (forall c s1, same_maps s1 (k c s1).2) ->
  tenant_effect F s (((c ← map_err g (ClientStore_Execute i v f); k c) : TM B) s).2.
Proof.
  intros Hf Hk. unfold mbind, st_bind, map_err. rewrite ClientStore_Execute_run.
  destruct (ts_clients s !! i) as [p|] eqn:Hp; [|apply te_same, same_maps_refl].
  destruct (ts_heap s !! p) as [c|] eqn:Hc; [|apply te_same, same_maps_refl].
  destruct (v c) as [[]|] eqn:Hv; [|apply te_same, same_maps_refl].
  destruct (Hf c Hv) as (H1 & H2 & H3 & H4). eapply te_client; eauto.
Qed.

Lemma set_status_ok st now c : client_ok c -> client_ok (set_client_status st now c).
Proof. intros []. by split. Qed.

Lemma validateEach_Forall {A} (f : A -> res unit) l :
  validateEach f l = Ok tt <-> Forall (fun x => f x = Ok tt) l.
Proof.
  induction l as [|x l IH]; simpl; [split; [constructor|done]|]. rewrite Forall_cons, <- IH.
  destruct (f x) as [[]|]; split; [auto|by intros [_ ?]|done|by intros [? _]].
Qed.

(** bcrypt hashes are never empty. *)
Context (bcrypt_nonempty : forall x h, bcrypt x = Ok h -> h <> "").

Lemma generateSecret_nonempty ctx x h : generateSecret bcrypt ctx false = Ok (x, h) -> h <> "".
Proof.
  unfold generateSecret, secrets_Hash. destruct (tx_Secret ctx) as [sec|]; [|done].
  destruct (str_empty sec); [done|]. destruct (bcrypt sec) as [h'|] eqn:Hb; [|done].
  intros [= <- <-]. by apply bcrypt_nonempty in Hb.
Qed.

Lemma rotation_ok ctx x h now c :
  generateSecret bcrypt ctx false = Ok (x, h) -> client_ok c -> client_ok (apply_rotation h now c).
Proof.
  intros Hh%generateSecret_nonempty []. split; simpl; try done. intros _.
  unfold Client_IsConfidential. simpl. apply negb_true_iff. by apply str_empty_false.
Qed.

Lemma confidential_hash x c h :
  Client_IsConfidential c = true -> h <> "" -> x = h \/ x = cl_ClientSecretHash c -> x <> "".
Proof. unfold Client_IsConfidential. intros Hc Hh. apply negb_true_iff, str_empty_false in Hc. intros [-> | ->]; done. Qed.

Lemma validate_optional_Ok {A} (f : A -> res unit) msg (l : option (list A)) d :
  validate_optional f msg l = Ok tt -> d <> [] /\ Forall (fun x => f x = Ok tt) d \/ l <> None ->
  default d l <> [] /\ Forall (fun x => f x = Ok tt) (default d l).
Proof.
  unfold validate_optional. destruct l as [l|]; simpl.
  - destruct l as [|x l]; [done|]. simpl. intros Hv _. split; [done|]. by apply (validateEach_Forall f (x :: l)).
  - intros _ [?|?]; done.
Qed.

(** Length and validity of an updated list field. *)
Lemma validate_field {A} (f : A -> res unit) (P : A -> Prop) msg (l : option (list A)) d :
  (forall x, f x = Ok tt -> P x) -> validate_optional f msg l = Ok tt -> d <> [] /\ Forall P d ->
  default d l <> [] /\ Forall P (default d l).
Proof.
  intros HP Hv Hd. destruct l as [l|]; [|done].
  destruct (validate_optional_Ok f msg (Some l) d Hv) as [H1 H2]; [by right|]. split; [done|].
  eapply Forall_impl; [exact H2|]. apply HP.
Qed.

Lemma validateGrant_valid g : validateGrant g = Ok tt -> GrantType_IsValid g = true.
Proof. unfold validateGrant. by case_match. Qed.
Lemma validateScope_valid x : validateScope x = Ok tt -> x ∈ allowedScopes.
Proof. unfold validateScope, slices_Contains. by case_bool_decide. Qed.

Lemma apply_update_ok ctx cmd x h now c :
  UpdateClientCommand_Validate url_Parse cmd = Ok tt -> rotation_secret bcrypt ctx cmd = Ok (x, h) ->
  validate_update cmd c = Ok tt -> client_ok c -> client_ok (apply_update cmd h now c).
Proof.
  unfold UpdateClientCommand_Validate, rotation_secret, validate_update, apply_update.
  intros Hcmd Hrot Hval [Hn Ho Hu Hg Hs Hc]. unfold mbind, result_bind in Hcmd.
  destruct (validateOptionalName (uc_Name cmd)) as [[]|] eqn:Vn; [|done].
  destruct (validate_optional (validateRedirectURI url_Parse) _ _) as [[]|] eqn:Vu; [|done].
  destruct (validate_optional validateGrant _ _) as [[]|] eqn:Vg; [|done].
  set (c' := if uc_RotateSecret cmd then set_ClientSecretHash h c else c).
  assert (cl_Name c' = cl_Name c /\ cl_OAuthClientID c' = cl_OAuthClientID c /\ cl_RedirectURIs c' = cl_RedirectURIs c /\
    cl_AllowedGrants c' = cl_AllowedGrants c /\ cl_AllowedScopes c' = cl_AllowedScopes c) as (E1 & E2 & E3 & E4 & E5)
    by (unfold c'; by destruct (uc_RotateSecret cmd)).
  assert (Client_IsConfidential c = true -> Client_IsConfidential c' = true) as Hconf.
  { unfold c'. destruct (uc_RotateSecret cmd); [|done]. intros _. apply generateSecret_nonempty in Hrot.
    unfold Client_IsConfidential. simpl. by apply negb_true_iff, str_empty_false. }
  split; simpl; rewrite ?E1, ?E2, ?E3, ?E4, ?E5.
  - unfold validateOptionalName in Vn. destruct (uc_Name cmd) as [n|]; [|done].
    destruct (str_empty (TrimSpace n)) eqn:Vn1; [done|]. destruct (Nat.ltb_spec 128 (String.length (TrimSpace n))); [done|].
    split; [by apply str_empty_false|done].
  - done.
  - eapply (validate_field _ (fun _ => True)); [done|exact Vu|]. split; [done|]. by apply Forall_true.
  - by eapply validate_field; [apply validateGrant_valid|exact Vg|].
  - by eapply validate_field; [apply validateScope_valid|exact Hcmd|].
  - intros Hin. change (Client_IsConfidential c' = true). apply Hconf.
    destruct (uc_RotateSecret cmd && negb (Client_IsConfidential c)); [done|].
    unfold validateGrantChanges in Hval. destruct (uc_AllowedGrants cmd) as [l|]; [|by apply Hc].
    apply validateEach_Forall in Hval. rewrite Forall_forall in Hval. apply Hval in Hin.
    unfold Client_CanUseGrant, RequiresConfidentialClient in Hin. rewrite bool_decide_true in Hin by done.
    by destruct (Client_IsConfidential c).
Qed.

Lemma update_effect F ctx i v cmd s :
  (forall c, v c = Ok tt -> validate_update cmd c = Ok tt) ->
  tenant_effect F s ((match UpdateClientCommand_Validate url_Parse cmd with
    | Err e => st_fail (Wrap e CodeValidation "invalid update request")
    | Ok _ =>
        '(secret, hash) ← st_lift (rotation_secret bcrypt ctx cmd);
        client ← map_err (fun e => wrapClientErr e "failed to update client")
          (ClientStore_Execute i v (apply_update cmd hash (tx_Now ctx)));
        audit_rotation publisher cmd client;;
        mret (client, secret)
    end : TM (Client * string)) s).2.
Proof.
  intros Hv. destruct (UpdateClientCommand_Validate url_Parse cmd) as [[]|] eqn:Hcmd; [|apply te_same, same_maps_refl].
  unfold mbind at 1, st_bind at 1, st_lift at 1.
  destruct (rotation_secret bcrypt ctx cmd) as [[x h]|] eqn:Hrot; [|apply te_same, same_maps_refl].
  apply (client_effect F i v (apply_update cmd h (tx_Now ctx))).
  - intros c Hc%Hv. unfold apply_update. split_and!; try (by destruct (uc_RotateSecret cmd)).
    by eapply apply_update_ok.
  - intros c s1. unfold audit_rotation. destruct (uc_RotateSecret cmd); [apply bind_emit_maps|apply same_maps_refl].
Qed.

Lemma rotate_effect F ctx i v s :
  tenant_effect F s (('(secret, hash) ← st_lift (generateSecret bcrypt ctx false);
    client ← map_err (fun e => wrapClientErr e "failed to rotate client secret")
      (ClientStore_Execute i v (apply_rotation hash (tx_Now ctx)));
    emitToAudit publisher "client_secret_rotated" (cl_TenantID client);;
    mret (client, secret) : TM (Client * string)) s).2.
Proof.
  unfold mbind at 1, st_bind at 1, st_lift at 1.
  destruct (generateSecret bcrypt ctx false) as [[x h]|] eqn:Hrot; [|apply te_same, same_maps_refl].
  apply (client_effect F i v (apply_rotation h (tx_Now ctx))).
  - intros c _. split_and!; try done. by eapply rotation_ok.
  - intros c s1. apply bind_emit_maps.
Qed.

(** Passing the checks of the identifiers first. *)
Lemma effect_after {A} F (r : res unit) (m : TM A) s :
  tenant_effect F s (m s).2 -> tenant_effect F s (((_ ← st_lift r; m) : TM A) s).2.
Proof. intros H. unfold mbind, st_bind, st_lift. destruct r; [done|apply te_same, same_maps_refl]. Qed.

Lemma client_lifecycle_effect F i v st now e g s :
  tenant_effect F s (((c ← map_err g (ClientStore_Execute i v (set_client_status st now));
    emitToAudit publisher e (cl_TenantID c);; mret c) : TM Client) s).2.
Proof.
  apply (client_effect F i v (set_client_status st now)); [|intros; apply bind_emit_maps].
  intros c _. split_and!; try done. apply set_status_ok.
Qed.

Definition is_create (op : tenant_op) : Prop :=
  match op with OpCreateTenant _ _ | OpCreateClient _ _ => True | _ => False end.

#[global] Instance is_create_dec op : Decision (is_create op).
Proof. destruct op; simpl; apply _. Defined.

(** The changes to tenants an operation can make. *)
Definition op_changes (op : tenant_op) (i : uuid) (t' : Tenant) : Prop :=
  match op with
  | OpDeactivateTenant _ _ => tn_Status t' = LifeInactive
  | OpReactivateTenant _ j => i = j
  | _ => False
  end.

Lemma tenant_step_effect op s : ~ is_create op -> tenant_effect (op_changes op) s (tenant_step op s).
Proof.
  destruct op; intros Hop; simpl in *; try tauto.
  - by apply tenant_lifecycle_effect.
  - by apply tenant_lifecycle_effect.
  - apply effect_after. by apply update_effect.
  - apply effect_after, effect_after. apply update_effect. intros c. unfold owned_by. by case_match.
  - apply effect_after, client_lifecycle_effect.
  - apply effect_after, client_lifecycle_effect.
  - apply effect_after, rotate_effect.
  - apply effect_after, effect_after, rotate_effect.
Qed.

(** ** Preservation *)

Lemma with_tenant_wf i t t' s :
  tenant_wf s -> ts_tenants s !! i = Some t -> tn_ID t' = tn_ID t -> tn_Name t' = tn_Name t ->
  tenant_wf (with_tenant i t' s).
Proof.
  intros [H1 H2 H3 H4 H5 H6] Ht Hid Hname. split; simpl.
  - intros j u [[<- <-]|[_ Hu]]%lookup_insert_Some; [|by apply H1]. rewrite Hid, Hname. by apply H1.
  - intros n j Hj. apply H2 in Hj as (u & Hu & Hn). destruct (decide (j = i)) as [->|Hne].
    + exists t'. rewrite lookup_insert_eq. split; [done|]. simplify_eq. by rewrite Hname.
    + exists u. by rewrite lookup_insert_ne.
  - intros j p Hp. apply H3 in Hp as (c & ? & ? & ? & ? & Hown). exists c. split_and!; try done.
    destruct (decide (cl_TenantID c = i)) as [->|]; [by rewrite lookup_insert_eq|by rewrite lookup_insert_ne].
  - done.
  - done.
  - done.
Qed.

Lemma with_client_wf i p c c' s :
  tenant_wf s -> ts_clients s !! i = Some p -> ts_heap s !! p = Some c ->
  cl_ID c' = cl_ID c -> cl_TenantID c' = cl_TenantID c -> cl_OAuthClientID c' = cl_OAuthClientID c ->
  (client_ok c -> client_ok c') -> tenant_wf (with_client i p c' s).
Proof.
  intros [H1 H2 H3 H4 H5 H6] Hi Hp Hid Htn Hoa Hok.
  destruct (H3 i p Hi) as (c0 & Hc0 & Hci & Hcode & Hcok & Hown). simplify_eq.
  unfold with_client. rewrite Hoa, (insert_id (ts_clients s)), (insert_id (ts_byCode s)) by done.
  split; simpl; try done.
  - intros j q Hq. destruct (decide (q = p)) as [->|Hne].
    + exists c'. rewrite lookup_insert_eq. destruct (H3 j p Hq) as (c1 & Hc1 & <- & ? & ? & ?). simplify_eq.
      rewrite Hid, Hoa, Htn. split_and!; auto.
    + destruct (H3 j q Hq) as (c1 & ? & ? & ? & ? & ?). exists c1. by rewrite lookup_insert_ne.
  - intros code q Hq. destruct (H4 code q Hq) as (c1 & Hc1 & ? & ?). destruct (decide (q = p)) as [->|Hne].
    + exists c'. rewrite lookup_insert_eq. simplify_eq. by rewrite Hid, Hoa.
    + exists c1. by rewrite lookup_insert_ne.
  - intros q c1 [[<- <-]|[_ Hq]]%lookup_insert_Some; eauto.
  - intros t. rewrite H6. f_equal. f_equal. unfold tenant_clients. simpl. apply map_filter_ext.
    intros j q _. simpl. destruct (decide (q = p)) as [->|Hne]; [|by rewrite lookup_insert_ne].
    rewrite lookup_insert_eq, Hp. simpl. by rewrite Htn.
Qed.

Lemma tenant_effect_wf F s s' : tenant_effect F s s' -> tenant_wf s -> tenant_wf s'.
Proof.
  intros [s1 Hs|i t t' s1 Ht Hid Hn _ Hs|i p c c' s1 Hi Hp H1 H2 H3 H4 Hs] Hwf; (eapply same_maps_wf; [exact Hs|]).
  - done.
  - by eapply with_tenant_wf.
  - by eapply with_client_wf.
Qed.

(** The state after a tenant was created. *)
Definition with_new_tenant (t : Tenant) (s : TenantState) : TenantState :=
  mkTS (<[tn_ID t := t]> (ts_tenants s)) (<[ToLower (tn_Name t) := tn_ID t]> (ts_nameIdx s)) (ts_heap s)
    (ts_clients s) (ts_byCode s) (ts_tenantCount s) (ts_next s) (ts_audit s).

Lemma CreateTenant_effect ctx name s :
  let s' := (CreateTenant ToLower publisher ctx name s).2 in
  same_maps s s' \/ exists t, NewTenant (tx_ID ctx) (TrimSpace name) (tx_Now ctx) = Ok t /\
    ts_nameIdx s !! ToLower (tn_Name t) = None /\ same_maps (with_new_tenant t s) s'.
Proof.
  cbv zeta. unfold CreateTenant, Tenant_RunInTx. destruct (tx_Err ctx); [left; apply same_maps_refl|].
  destruct (tx_ErrLocked ctx); [left; apply same_maps_refl|].
  unfold mbind at 1, st_bind at 1, st_lift at 1.
  destruct (NewTenant _ _ _) as [t|]; [|left; apply same_maps_refl].
  unfold mbind at 1, st_bind at 1. unfold TenantStore_CreateIfNameAvailable. tn_unfold.
  destruct (ts_nameIdx s !! ToLower (tn_Name t)) eqn:Hn; [left; apply same_maps_refl|].
  right. exists t. split; [done|]. split; [done|]. apply (bind_emit_maps t "tenant_created" (tn_ID t)).
Qed.

Lemma NewTenant_Ok i n now t : NewTenant i n now = Ok t ->
  tn_ID t = i /\ tn_Name t = n /\ n <> "" /\ (String.length n <= 128)%nat /\ tn_Status t = LifeActive.
Proof.
  unfold NewTenant. destruct (str_empty n) eqn:Hn; [done|]. destruct (Nat.ltb_spec 128 (String.length n)); [done|].
  intros [= <-]. split_and!; try done. by apply str_empty_false.
Qed.

Lemma CreateTenant_wf ctx name s :
  tenant_wf s -> ts_tenants s !! tx_ID ctx = None -> tenant_wf (CreateTenant ToLower publisher ctx name s).2.
Proof.
  intros Hwf Hfresh. destruct (CreateTenant_effect ctx name s) as [Hs|(t & Ht & Hn & Hs)];
    (eapply same_maps_wf; [exact Hs|]); [done|].
  apply NewTenant_Ok in Ht as (Hid & Hname & Hne & Hlen & _). rewrite <- Hid in Hfresh. rewrite <- Hname in Hne, Hlen.
  destruct Hwf as [H1 H2 H3 H4 H5 H6]. split; simpl; try done.
  - intros j u [[<- <-]|[Hj Hu]]%lookup_insert_Some; [by rewrite lookup_insert_eq|].
    destruct (H1 j u Hu) as (? & Hidx & ?). rewrite lookup_insert_ne; [done|]. intros Heq. by rewrite <- Heq, Hn in Hidx.
  - intros n j [[<- <-]|[Hnn Hj]]%lookup_insert_Some; [exists t; by rewrite lookup_insert_eq|].
    destruct (H2 n j Hj) as (u & Hu & ?). exists u. rewrite lookup_insert_ne; [done|]. intros Heq. by rewrite <- Heq, Hfresh in Hu.
  - intros j p Hp. destruct (H3 j p Hp) as (c & ? & ? & ? & ? & [u Hu]). exists c. split_and!; try done.
    rewrite lookup_insert_ne; [by eexists|]. intros Heq. by rewrite <- Heq, Hfresh in Hu.
Qed.

(** The state after a client was registered. *)
Definition with_new_client (c : Client) (s : TenantState) : TenantState :=
  mkTS (ts_tenants s) (ts_nameIdx s) (<[ts_next s := c]> (ts_heap s)) (<[cl_ID c := ts_next s]> (ts_clients s))
    (<[cl_OAuthClientID c := ts_next s]> (ts_byCode s))
    (<[cl_TenantID c := default 0 (ts_tenantCount s !! cl_TenantID c) + 1]> (ts_tenantCount s)) (S (ts_next s)) (ts_audit s).

Lemma CreateClient_effect ctx cmd s :
  let s' := (CreateClient url_Parse bcrypt publisher ctx cmd s).2 in
  same_maps s s' \/ exists c t x h, CreateClientCommand_Validate url_Parse cmd = Ok tt /\
    ts_tenants s !! cc_TenantID cmd = Some t /\ Tenant_IsActive t = true /\
    generateSecret bcrypt ctx (cc_Public cmd) = Ok (x, h) /\
    NewClient (tx_ID ctx) (cc_TenantID cmd) (cc_Name cmd) (tx_OAuthID ctx) h (cc_RedirectURIs cmd)
      (cc_AllowedGrants cmd) (cc_AllowedScopes cmd) (tx_Now ctx) = Ok c /\
    same_maps (with_new_client c s) s'.
Proof.
  cbv zeta. unfold CreateClient, Tenant_RunInTx.
  destruct (CreateClientCommand_Validate url_Parse cmd) as [[]|] eqn:Hv; [|left; apply same_maps_refl].
  destruct (tx_Err ctx); [left; apply same_maps_refl|]. destruct (tx_ErrLocked ctx); [left; apply same_maps_refl|].
  unfold mbind at 1, st_bind at 1. unfold TenantStore_FindByID. tn_unfold.
  destruct (ts_tenants s !! cc_TenantID cmd) as [t|] eqn:Ht; [|left; apply same_maps_refl].
  destruct (Tenant_IsActive t) eqn:Ha; [|left; apply same_maps_refl].
  destruct (generateSecret bcrypt ctx (cc_Public cmd)) as [[x h]|] eqn:Hg; [|left; apply same_maps_refl].
  cbn [negb]. destruct (NewClient _ _ _ _ _ _ _ _ _) as [c|] eqn:Hc; [|left; apply same_maps_refl].
  right. exists c, t, x, h. split_and!; try done.
  apply (bind_emit_maps (c, x) "client_created" (cl_TenantID c) (with_new_client c s)).
Qed.

Lemma CreateClientCommand_Ok cmd : CreateClientCommand_Validate url_Parse cmd = Ok tt ->
  Forall (fun x => x ∈ allowedScopes) (cc_AllowedScopes cmd) /\
  (cc_Public cmd = true -> GrantTypeClientCredentials ∉ cc_AllowedGrants cmd).
Proof.
  unfold CreateClientCommand_Validate, mbind, result_bind, slices_Contains. intros H.
  repeat match type of H with context [if ?b then _ else _] => destruct b eqn:?; try done
    | context [match ?x with Ok _ => _ | Err _ => _ end] => destruct x eqn:?; try done end.
  split.
  - apply validateEach_Forall in H. eapply Forall_impl; [exact H|]. apply validateScope_valid.
  - intros Hp. match goal with HH : _ && _ = false |- _ => rewrite Hp in HH; simpl in HH; by apply bool_decide_eq_false in HH end.
Qed.

Lemma NewClient_Ok i t n o h u g sc now c :
  NewClient i t n o h u g sc now = Ok c ->
  c = mkClient i t n o h u g sc LifeActive now now /\ n <> "" /\ (String.length n <= 128)%nat /\ o <> "" /\
  u <> [] /\ g <> [] /\ Forall (fun g => GrantType_IsValid g = true) g /\ sc <> [].
Proof.
  unfold NewClient. destruct (str_empty n) eqn:E1; [done|]. destruct (Nat.ltb_spec 128 (String.length n)); [done|].
  destruct (str_empty o) eqn:E2; [done|]. destruct u as [|u0 u]; [done|]. destruct g as [|g0 g]; [done|].
  destruct (existsb _ (g0 :: g)) eqn:E3; [done|]. destruct sc as [|sc0 sc]; [done|].
  intros [= <-]. apply str_empty_false in E1, E2. split_and!; try done.
  apply Forall_forall. intros x Hx. apply list_elem_of_In in Hx.
  destruct (GrantType_IsValid x) eqn:Hg; [done|]. exfalso. apply not_true_iff_false in E3. apply E3, existsb_exists.
  exists x. by rewrite Hg.
Qed.

Lemma new_client_ok ctx cmd x h c :
  CreateClientCommand_Validate url_Parse cmd = Ok tt -> generateSecret bcrypt ctx (cc_Public cmd) = Ok (x, h) ->
  NewClient (tx_ID ctx) (cc_TenantID cmd) (cc_Name cmd) (tx_OAuthID ctx) h (cc_RedirectURIs cmd)
    (cc_AllowedGrants cmd) (cc_AllowedScopes cmd) (tx_Now ctx) = Ok c ->
  client_ok c.
Proof.
  intros (Hs & Hp)%CreateClientCommand_Ok Hg (-> & ? & ? & ? & ? & ? & ? & ?)%NewClient_Ok. split; simpl; try done.
  intros Hin. destruct (cc_Public cmd) eqn:E; [by apply Hp in Hin|]. apply generateSecret_nonempty in Hg.
  unfold Client_IsConfidential. simpl. by apply negb_true_iff, str_empty_false.
Qed.

Lemma with_new_client_wf c s :
  tenant_wf s -> client_ok c -> is_Some (ts_tenants s !! cl_TenantID c) ->
  ts_clients s !! cl_ID c = None -> ts_byCode s !! cl_OAuthClientID c = None -> tenant_wf (with_new_client c s).
Proof.
  intros [H1 H2 H3 H4 H5 H6] Hok Hown Hfi Hfo.
  assert (forall q x, ts_heap s !! q = Some x -> q <> ts_next s) as Hq by (intros q x Hx%H5; lia).
  split; simpl; try done.
  - intros j q [[<- <-]|[Hj Hjq]]%lookup_insert_Some.
    + exists c. by rewrite !lookup_insert_eq.
    + destruct (H3 j q Hjq) as (x & Hx & ? & Hc & ? & ?). exists x. rewrite !lookup_insert_ne; [done| |].
      * intros Heq. by rewrite <- Heq, Hfo in Hc.
      * intros Heq. by apply (Hq q x).
  - intros code q [[<- <-]|[Hne Hcq]]%lookup_insert_Some.
    + exists c. by rewrite !lookup_insert_eq.
    + destruct (H4 code q Hcq) as (x & Hx & ? & Hc). exists x. rewrite !lookup_insert_ne; [done| |].
      * intros Heq. by rewrite <- Heq, Hfi in Hc.
      * intros Heq. by apply (Hq q x).
  - intros q x [[<- <-]|[_ Hx%H5]]%lookup_insert_Some; lia.
  - intros t. assert (tenant_clients (with_new_client c s) t =
      if decide (cl_TenantID c = t) then <[cl_ID c := ts_next s]> (tenant_clients s t) else tenant_clients s t) as Htc.
    { unfold tenant_clients. simpl.
      assert (filter (fun kv => cl_TenantID <$> <[ts_next s:=c]> (ts_heap s) !! kv.2 = Some t) (ts_clients s) =
              filter (fun kv => cl_TenantID <$> ts_heap s !! kv.2 = Some t) (ts_clients s)) as Hsame.
      { apply map_filter_ext. intros j q Hjq. simpl. destruct (H3 j q Hjq) as (x & Hx & _).
        rewrite lookup_insert_ne; [done|]. intros Heq. by apply (Hq q x). }
      destruct (decide (cl_TenantID c = t)) as [Heq|Hne].
      - rewrite map_filter_insert_True; [by rewrite Hsame|]. simpl. rewrite lookup_insert_eq. simpl. congruence.
      - rewrite map_filter_insert_False; [|simpl; rewrite lookup_insert_eq; simpl; congruence].
        by rewrite delete_id by done. }
    change (default 0 (<[cl_TenantID c:=default 0 (ts_tenantCount s !! cl_TenantID c) + 1]> (ts_tenantCount s) !! t) =
      Z.of_nat (size (tenant_clients (with_new_client c s) t))).
    rewrite Htc. destruct (decide (cl_TenantID c = t)) as [<-|Hne].
    + rewrite lookup_insert_eq. simpl. rewrite map_size_insert_None, H6; [lia|].
      unfold tenant_clients. by apply map_lookup_filter_None_2; left.
    + rewrite lookup_insert_ne by done. apply H6.
Qed.

Lemma tenant_step_wf op s : tenant_wf s -> op_fresh op s -> tenant_wf (tenant_step op s).
Proof.
  intros Hwf Hfresh. destruct (decide (is_create op)) as [Hc|Hc];
    [|by eapply tenant_effect_wf; [apply tenant_step_effect|]].
  destruct op as [ctx name| | |ctx cmd| | | | | |]; try done; simpl in *; [by apply CreateTenant_wf|].
  destruct Hfresh as (Hfi & Hfo & Hne).
  destruct (CreateClient_effect ctx cmd s) as [Hs|(c & t & x & h & Hv & Ht & Ha & Hg & Hc' & Hs)];
    (eapply same_maps_wf; [exact Hs|]); [done|].
  pose proof (new_client_ok ctx cmd x h c Hv Hg Hc') as Hok. apply NewClient_Ok in Hc' as (-> & _).
  by apply with_new_client_wf.
Qed.

Lemma tenant_run_wf ops s : tenant_wf s -> ops_fresh ops s -> tenant_wf (tenant_run ops s).
Proof.
  revert s. induction ops as [|op ops IH]; intros s Hwf Hops; [done|].
  destruct Hops as [Hop Hops]. apply (IH (tenant_step op s)); [by apply tenant_step_wf|done].
Qed.

(** C38: whatever sequence of tenant and client operations runs, the stores stay
    consistent: tenant names are unique up to case and the name index finds every
    tenant; the two client indexes lead to the same objects; the client count of a
    tenant is the number of its clients; every client belongs to an existing
    tenant and satisfies the documented invariants, in particular a client that
    may use client_credentials has a secret. *)
Theorem tenant_invariants_hold ops :
  ops_fresh ops empty_tenants -> tenant_wf (tenant_run ops empty_tenants).
Proof. apply tenant_run_wf, tenant_wf_empty. Qed.

(** ** Suspended tenants *)

(** [ResolveClientContract] behind the adapter of the auth module, in a given
    state of the tenant stores.  (The adapter prints and parses the identifiers.) *)
Definition ResolveClientContract (ts : TenantState) (clientID : string) : res (ResolvedClient * ResolvedTenant) :=
  match (ResolveClient clientID ts).1 with
  | Err e => Err e
  | Ok (c, t) =>
      Ok (mkRClient (cl_ID c) (cl_TenantID c) (cl_OAuthClientID c) (cl_RedirectURIs c) (cl_AllowedScopes c)
            (Client_IsActive c),
          mkRTenant (tn_ID t) (Tenant_IsActive t))
  end.

Definition suspended (i : uuid) (s : TenantState) : Prop :=
  exists t, ts_tenants s !! i = Some t /\ tn_Status t = LifeInactive.

Definition reactivates (op : tenant_op) (i : uuid) : Prop :=
  match op with OpReactivateTenant _ j => i = j | _ => False end.

Lemma suspended_step op i s :
  op_fresh op s -> ~ reactivates op i -> suspended i s -> suspended i (tenant_step op s).
Proof.
  intros Hf Hr (t & Ht & Hst). destruct (decide (is_create op)) as [Hc|Hc].
  - destruct op as [ctx name| | |ctx cmd| | | | | |]; try done; simpl in *.
    + destruct (CreateTenant_effect ctx name s) as [[a ->]|(u & Hu & _ & [a ->])]; [by exists t|].
      apply NewTenant_Ok in Hu as (Hid & _). exists t. simpl. rewrite lookup_insert_ne; [done|].
      intros Heq. rewrite <- Hid, Heq in Hf. congruence.
    + destruct (CreateClient_effect ctx cmd s) as [[a ->]|(c & u & x & h & _ & _ & _ & _ & _ & [a ->])]; by exists t.
  - destruct (tenant_step_effect op s Hc) as [s1 [a ->]|j u u' s1 Hu Hid Hn HF [a ->]|j p c c' s1 _ _ _ _ _ _ [a ->]];
      [by exists t| |by exists t].
    destruct (decide (i = j)) as [->|Hne]; [|exists t; simpl; by rewrite lookup_insert_ne].
    exists u'. simpl. rewrite lookup_insert_eq. split; [done|]. destruct op; simpl in *; done.
Qed.

Lemma suspended_run ops i s :
  ops_fresh ops s -> Forall (fun op => ~ reactivates op i) ops -> suspended i s -> suspended i (tenant_run ops s).
Proof.
  revert s. induction ops as [|op ops IH]; intros s; [done|]. intros [Hf Hfs] [Hr Hrs]%Forall_cons Hs.
  apply IH; [done..|]. by apply suspended_step.
Qed.

Lemma ResolveClient_run cid s :
  (ResolveClient cid s).1 =
  if str_empty (TrimSpace cid) then Err (New CodeValidation "client_id is required")
  else match ts_byCode s !! TrimSpace cid with
  | None => Err invalidClientCredentials
  | Some p =>
      match ts_heap s !! p with
      | None => Err (Wrap (EOther "nil pointer dereference") CodeInternal "failed to resolve client")
      | Some c =>
          if Client_IsActive c then
            match ts_tenants s !! cl_TenantID c with
            | None => Err invalidClientCredentials
            | Some t => if Tenant_IsActive t then Ok (c, t) else Err invalidClientCredentials
            end
          else Err invalidClientCredentials
      end
  end.
Proof.
  unfold ResolveClient, ClientStore_FindByOAuthClientID, TenantStore_FindByID. tn_unfold.
  destruct (str_empty (TrimSpace cid)); [done|]. destruct (ts_byCode s !! TrimSpace cid) as [p|]; [|done].
  destruct (ts_heap s !! p) as [c|]; [|done]. destruct (Client_IsActive c); [|done]. cbn [negb].
  destruct (ts_tenants s !! cl_TenantID c) as [t|]; [|done]. by destruct (Tenant_IsActive t).
Qed.

(** While a tenant is suspended, no resolution answers with it or with a client
    registered under it. *)
Lemma suspended_unresolved i s cid cl tn :
  tenant_wf s -> suspended i s -> ResolveClientContract s cid = Ok (cl, tn) ->
  rtn_ID tn <> i /\ rcl_TenantID cl <> i.
Proof.
  intros Hwf (u & Hu & Hst). unfold ResolveClientContract. rewrite ResolveClient_run.
  destruct (str_empty (TrimSpace cid)); [done|]. destruct (ts_byCode s !! TrimSpace cid) as [p|]; [|done].
  destruct (ts_heap s !! p) as [c|]; [|done]. destruct (Client_IsActive c); [|done].
  destruct (ts_tenants s !! cl_TenantID c) as [t|] eqn:Ht; [|done].
  destruct (Tenant_IsActive t) eqn:Ha; [|done]. intros [= <- <-]. simpl.
  destruct (tw_tenants s Hwf _ _ Ht) as [Hid _]. rewrite Hid.
  assert (cl_TenantID c <> i); [|done]. intros Heq. rewrite Heq, Hu in Ht. simplify_eq.
  unfold Tenant_IsActive in Ha. by rewrite Hst in Ha.
Qed.

Lemma DeactivateTenant_Ok ctx i s t s' :
  DeactivateTenant publisher ctx i s = (Ok t, s') -> suspended i s'.
Proof.
  unfold DeactivateTenant. intros ([] & s1 & H1 & (u & s2 & H2 & H3)%st_bind_Ok)%st_bind_Ok.
  unfold st_lift in H1. injection H1 as _ ->. unfold map_err in H2. rewrite TenantStore_Execute_run in H2.
  destruct (ts_tenants s1 !! i) as [t0|]; [|done]. destruct (conflict_if_violation _ _); [|done].
  injection H2 as <- <-. pose proof (bind_emit_maps (Tenant_ApplyDeactivation (tx_Now ctx) t0) "tenant_deactivated"
    (tn_ID (Tenant_ApplyDeactivation (tx_Now ctx) t0)) (with_tenant i (Tenant_ApplyDeactivation (tx_Now ctx) t0) s1)) as Hm.
  rewrite H3 in Hm. simpl in Hm. destruct Hm as [a' ->]. eexists. simpl. by rewrite lookup_insert_eq.
Qed.

(** Tenant-scoped operations cannot touch another tenant's client, nor tell
    it from a missing one: reading, updating or rotating the secret of a client
    that belongs to a different tenant fails, leaves every map as it was, and
    answers exactly as if there were no such client. *)
Theorem tenant_isolation ctx t i cmd s p c :
  IsNil t = false -> IsNil i = false -> ts_clients s !! i = Some p -> ts_heap s !! p = Some c -> cl_TenantID c <> t ->
  let missing := mkTS (ts_tenants s) (ts_nameIdx s) (ts_heap s) (delete i (ts_clients s)) (ts_byCode s)
                   (ts_tenantCount s) (ts_next s) (ts_audit s) in
  (exists e, GetClientForTenant t i s = (Err e, s) /\ code_of e = Some CodeNotFound /\
     GetClientForTenant t i missing = (Err e, missing)) /\
  (exists e, UpdateClientForTenant url_Parse bcrypt publisher ctx t i cmd s = (Err e, s) /\
     UpdateClientForTenant url_Parse bcrypt publisher ctx t i cmd missing = (Err e, missing)) /\
  (exists e, RotateClientSecretForTenant bcrypt publisher ctx t i s = (Err e, s) /\
     RotateClientSecretForTenant bcrypt publisher ctx t i missing = (Err e, missing)).
Proof.
  intros Ht Hi Hp Hc Hne missing. assert (ts_clients missing !! i = None) as Hm by apply lookup_delete_eq.
  unfold GetClientForTenant, UpdateClientForTenant, RotateClientSecretForTenant, requireTenantID, requireClientID.
  rewrite Ht, Hi. split; [|split].
  - unfold ClientStore_FindByTenantAndID. tn_unfold. rewrite Hp, Hm, Hc, bool_decide_false by done. by eexists.
  - destruct (UpdateClientCommand_Validate url_Parse cmd); [|by eexists].
    unfold mbind, st_bind, st_lift, map_err. destruct (rotation_secret bcrypt ctx cmd) as [[x h]|]; [|by eexists].
    rewrite !ClientStore_Execute_run, Hp, Hm, Hc. unfold owned_by. rewrite bool_decide_false by done. by eexists.
  - unfold mbind, st_bind, st_lift, map_err. destruct (generateSecret bcrypt ctx false) as [[x h]|]; [|by eexists].
    rewrite !ClientStore_Execute_run, Hp, Hm, Hc. unfold owned_by. rewrite bool_decide_false by done. by eexists.
Qed.

End tenants.

(** ** Witnesses *)

Module TenantExample.
Definition lower (s : string) : string := s.
Definition url (_ : string) : option (string * string) := Some ("https", "app.example").
Definition bcrypt (s : string) : res string := Ok ("$2a$10$" +:+ s).
Definition ctx (i : uuid) (code : string) : TenantCtx := mkTenantCtx 5 None None i code (Ok "secret").
Definition create : CreateClientCommand :=
  mkCreate 1 "web" ["https://app.example/cb"] ["authorization_code"; "client_credentials"] ["openid"] false.
Definition ops : list tenant_op := [OpCreateTenant (ctx 1 "") "Acme"; OpCreateClient (ctx 2 "web-id") create].
Definition run (l : list tenant_op) : TenantState -> TenantState := tenant_run lower url bcrypt true l.
Definition s : TenantState := run ops empty_tenants.
Definition client : Client :=
  mkClient 2 1 "web" "web-id" "$2a$10$secret" ["https://app.example/cb"]
    ["authorization_code"; "client_credentials"] ["openid"] LifeActive 5 5.
Definition deactivated : TenantState := (DeactivateTenant true (ctx 0 "") 1 s).2.
End TenantExample.

Lemma example_bcrypt_nonempty x h : TenantExample.bcrypt x = Ok h -> h <> "".
Proof. intros [= <-]. discriminate. Qed.

Lemma tenant_invariants_hold_witness :
  tenant_wf TenantExample.lower TenantExample.s.
Proof.
  apply (tenant_invariants_hold TenantExample.lower TenantExample.url TenantExample.bcrypt true
    example_bcrypt_nonempty TenantExample.ops).
  repeat split; first [reflexivity|discriminate].
Defined.

Lemma tenant_isolation_witness :
  exists e, GetClientForTenant 9 2 TenantExample.s = (Err e, TenantExample.s) /\ code_of e = Some CodeNotFound.
Proof.
  destruct (tenant_isolation TenantExample.url TenantExample.bcrypt true (TenantExample.ctx 0 "") 9 2
    (mkUpdate None None None None true) TenantExample.s 0 TenantExample.client) as ((e & H1 & H2 & _) & _);
    [reflexivity|reflexivity|vm_compute; reflexivity|vm_compute; reflexivity|discriminate|].
  exists e. split; [exact H1|exact H2].
Defined.
