(* ===== verification/ClientResolver.v ===== *)
(** * The resilient client resolver: [internal/auth/adapters]

    [client_cache.go], [resilient_client_resolver.go] and [tenant_adapter.go]: the
    auth module looks a client up through a circuit breaker with a cache of earlier
    answers.  The wrapped resolver is a computation on the state of the tenant
    module; [time.Now()] is read at up to four points of a call, which are the fields
    of [Clocks]; the order in which the cache is swept is that of a Go map and an
    argument.  The file ends with the resolver as [cmd/server/main.go] wires it and what
    the suspension of a tenant means for the token flows. *)
From S2P Require Import Prelude Errors Breaker AuthModels TRL AuthStores AuthService AuthSafety Tenant TenantSafety.
Local Open Scope Z_scope.

Abbreviation Resolved := (ResolvedClient * ResolvedTenant)%type (only parsing).

(** ** [client_cache.go] *)

Record clientCacheEntry := mkCCE { cce_value : Resolved; cce_expiresAt : time }.

Record clientCache := mkCC { cc_entries : gmap string clientCacheEntry; cc_ttl : duration }.

Definition newClientCache (ttl : duration) : clientCache := mkCC ∅ ttl.

Definition Cache_Get (now : time) (c : clientCache) (clientID : string) : option Resolved :=
  match cc_entries c !! clientID with
  | None => None
  | Some e => if time_After now (cce_expiresAt e) then None else Some (cce_value e)
  end.

(** The loop over the keys in the given order; [left] is what remains of the quota. *)
Fixpoint cleanup_loop (now : time) (order : list string) (left : nat) (m : gmap string clientCacheEntry)
    : gmap string clientCacheEntry :=
  match order, left with
  | [], _ | _, O => m
  | key :: rest, S left' =>
      match m !! key with
      | Some e =>
          if time_After now (cce_expiresAt e) then cleanup_loop now rest left' (delete key m)
          else cleanup_loop now rest left m
      | None => cleanup_loop now rest left m
      end
  end.

Definition cleanupExpiredLocked (now : time) (order : list string) (maxCleanup : nat) (c : clientCache) : clientCache :=
  mkCC (cleanup_loop now order maxCleanup (cc_entries c)) (cc_ttl c).

Definition Cache_Set (now now' : time) (order : list string) (c : clientCache) (clientID : string) (v : Resolved)
    : clientCache :=
  cleanupExpiredLocked now' order 10
    (mkCC (<[clientID := mkCCE v (time_Add now (cc_ttl c))]> (cc_entries c)) (cc_ttl c)).

(** ** [resilient_client_resolver.go] *)

Record resolverConfig := mkResolverConfig {
  rcf_failureThreshold : Z; rcf_successThreshold : Z; rcf_cacheTTL : duration;
}.

Inductive ResolverOption :=
| RWithFailureThreshold (n : Z)
| RWithSuccessThreshold (n : Z)
| RWithCacheTTL (ttl : duration).

Definition apply_resolver_option (c : resolverConfig) (o : ResolverOption) : resolverConfig :=
  match o with
  | RWithFailureThreshold n => mkResolverConfig n (rcf_successThreshold c) (rcf_cacheTTL c)
  | RWithSuccessThreshold n => mkResolverConfig (rcf_failureThreshold c) n (rcf_cacheTTL c)
  | RWithCacheTTL ttl => mkResolverConfig (rcf_failureThreshold c) (rcf_successThreshold c) ttl
  end.

Record Resolver (D : Type) := mkResolver { rs_delegate : D; rs_cb : Breaker; rs_cache : clientCache }.
Arguments mkResolver {D}.
Arguments rs_delegate {D}.
Arguments rs_cb {D}.
Arguments rs_cache {D}.

Definition NewResilientClientResolver {D} (delegate : D) (opts : list ResolverOption) : Resolver D :=
  let cfg := foldl apply_resolver_option (mkResolverConfig 5 3 (5 * Minute)) opts in
  let cbOpts := (if 0 <? rcf_failureThreshold cfg then [Some (WithFailureThreshold (rcf_failureThreshold cfg))] else [])
             ++ (if 0 <? rcf_successThreshold cfg then [Some (WithSuccessThreshold (rcf_successThreshold cfg))] else []) in
  mkResolver delegate (Breaker_New "client_resolver" cbOpts) (newClientCache (rcf_cacheTTL cfg)).

(** The clock at the first cache lookup, at the lookup after a failure, when the answer
    is cached and when the cache is swept. *)
Record Clocks := mkClocks { ck_open : time; ck_fail : time; ck_set : time; ck_clean : time }.

Section resolver.
Context {D : Type} (delegate : string -> ST D error Resolved).

(** The part of the call after the first lookup. *)
Definition resolve_through (ck : Clocks) (order : list string) (clientID : string) (r : Resolver D)
    : res Resolved * Resolver D :=
  match delegate clientID (rs_delegate r) with
  | (Err e, d) =>
      let '((useFallback, _), cb) := Breaker_RecordFailure (rs_cb r) in
      let r' := mkResolver d cb (rs_cache r) in
      if useFallback : bool then
        match Cache_Get (ck_fail ck) (rs_cache r) clientID with
        | Some v => (Ok v, r')
        | None => (Err e, r')
        end
      else (Err e, r')
  | (Ok v, d) =>
      let '(_, cb) := Breaker_RecordSuccess (rs_cb r) in
      (Ok v, mkResolver d cb (Cache_Set (ck_set ck) (ck_clean ck) order (rs_cache r) clientID v))
  end.

Definition Resolver_ResolveClient (ck : Clocks) (order : list string) (clientID : string) (r : Resolver D)
    : res Resolved * Resolver D :=
  if Breaker_IsOpen (rs_cb r) then
    match Cache_Get (ck_open ck) (rs_cache r) clientID with
    | Some v => (Ok v, r)
    | None => resolve_through ck order clientID r
    end
  else resolve_through ck order clientID r.

(** ** Staleness *)

(** A call, after the rest of the program has changed the delegate's state. *)
Record call := mkCall { ca_env : D -> D; ca_clientID : string; ca_clocks : Clocks; ca_order : list string }.

Definition before_call (c : call) (r : Resolver D) : Resolver D :=
  mkResolver (ca_env c (rs_delegate r)) (rs_cb r) (rs_cache r).

Definition call_step (r : Resolver D) (c : call) : Resolver D :=
  (Resolver_ResolveClient (ca_clocks c) (ca_order c) (ca_clientID c) (before_call c r)).2.

(** The resolver as the call number [n] finds it. *)
Definition at_call (r : Resolver D) (calls : list call) (n : nat) : Resolver D := foldl call_step r (take n calls).

(** Asked at call number [j] for this client, the delegate answers [v]. *)
Definition delegate_says (r : Resolver D) (calls : list call) (j : nat) (k : string) (v : Resolved) (ck : Clocks) : Prop :=
  exists c, calls !! j = Some c /\ ca_clientID c = k /\ ca_clocks c = ck /\
    (delegate k (rs_delegate (before_call c (at_call r calls j)))).1 = Ok v.

Lemma at_call_S r calls n c :
  calls !! n = Some c -> at_call r calls (S n) = call_step (at_call r calls n) c.
Proof. intros Hc. unfold at_call. by rewrite (take_S_r _ _ _ Hc), foldl_app. Qed.

Lemma cleanup_loop_lookup now order left m k e :
  cleanup_loop now order left m !! k = Some e -> m !! k = Some e.
Proof.
  revert left m. induction order as [|key order IH]; intros left m; [done|]. destruct left as [|left]; [done|]. simpl.
  destruct (m !! key) as [e'|]; [|apply IH]. destruct (time_After _ _); [|apply IH].
  intros H%IH. by apply lookup_delete_Some in H as [_ ?].
Qed.

(** The cache after a call: an entry is an old one, or the call's own answer. *)
Lemma call_step_cache r c k e :
  cc_entries (rs_cache (call_step r c)) !! k = Some e ->
  cc_entries (rs_cache r) !! k = Some e \/
  k = ca_clientID c /\ cce_expiresAt e = ck_set (ca_clocks c) + cc_ttl (rs_cache r) /\
  (delegate k (rs_delegate (before_call c r))).1 = Ok (cce_value e).
Proof.
  unfold call_step, Resolver_ResolveClient, resolve_through. cbn [rs_cb rs_cache before_call].
  assert (forall x, cc_entries (rs_cache (x : Resolver D)) = cc_entries (rs_cache r) ->
    cc_entries (rs_cache x) !! k = Some e -> cc_entries (rs_cache r) !! k = Some e) as Hsame by (by intros x ->).
  destruct (Breaker_IsOpen (rs_cb r)); [destruct (Cache_Get _ _ _) as [v|]; [by left|]|].
  all: destruct (delegate _ _) as [[v|err] d] eqn:Hd.
  1, 3: destruct (Breaker_RecordSuccess _) as [x cb]; cbn; intros H%cleanup_loop_lookup;
    apply lookup_insert_Some in H as [[<- <-]|[_ H]]; [right; cbn in Hd; by rewrite Hd|by left].
  all: destruct (Breaker_RecordFailure _) as [[u x] cb]; destruct u; try case_match; cbn; by left.
Qed.

Lemma call_step_ttl r c : cc_ttl (rs_cache (call_step r c)) = cc_ttl (rs_cache r).
Proof.
  unfold call_step, Resolver_ResolveClient, resolve_through. cbn [rs_cb rs_cache before_call].
  destruct (Breaker_IsOpen (rs_cb r)); [destruct (Cache_Get _ _ _) as [v|]; [done|]|].
  all: destruct (delegate _ _) as [[v|err] d].
  1, 3: by destruct (Breaker_RecordSuccess _) as [x cb].
  all: destruct (Breaker_RecordFailure _) as [[u x] cb]; destruct u; by try case_match.
Qed.

Lemma at_call_ttl r calls n : cc_ttl (rs_cache (at_call r calls n)) = cc_ttl (rs_cache r).
Proof.
  unfold at_call. generalize (take n calls). intros l. revert r.
  induction l as [|c l IH]; intros r; [done|]. cbn [foldl]. by rewrite IH, call_step_ttl.
Qed.

(** Every cached answer was the delegate's, at the call that stored it. *)
Lemma cache_provenance r calls n k e :
  cc_entries (rs_cache r) = ∅ -> (n <= length calls)%nat ->
  cc_entries (rs_cache (at_call r calls n)) !! k = Some e ->
  exists j ck, (j < n)%nat /\ delegate_says r calls j k (cce_value e) ck /\
    cce_expiresAt e = ck_set ck + cc_ttl (rs_cache r).
Proof.
  intros H0. induction n as [|n IH]; intros Hn He.
  { change (at_call r calls 0) with r in He. by rewrite H0 in He. }
  destruct (lookup_lt_is_Some_2 calls n) as [c Hc]; [lia|]. rewrite (at_call_S _ _ _ _ Hc) in He.
  apply call_step_cache in He as [He|(-> & Hx & Hd)].
  - destruct IH as (j & ck & Hj & Hs & Hx); [lia|done|]. exists j, ck. split; [lia|done].
  - exists n, (ca_clocks c). split; [lia|]. split; [by exists c|]. by rewrite Hx, at_call_ttl.
Qed.

(** Where an answer comes from. *)
Lemma resolver_answers (d : D) (opts : list ResolverOption) (calls : list call) (i : nat) (c : call) :
  let r := NewResilientClientResolver d opts in
  let ri := before_call c (at_call r calls i) in
  calls !! i = Some c ->
  let '(out, r') := Resolver_ResolveClient (ca_clocks c) (ca_order c) (ca_clientID c) ri in
  match out with
  | Err e => (delegate (ca_clientID c) (rs_delegate ri)).1 = Err e
  | Ok v =>
      (delegate (ca_clientID c) (rs_delegate ri)).1 = Ok v \/
      exists j ck, (j < i)%nat /\ delegate_says r calls j (ca_clientID c) v ck /\ Breaker_IsOpen (rs_cb r') = true /\
        exists used, (used = ck_open (ca_clocks c) \/ used = ck_fail (ca_clocks c)) /\
          used <= ck_set ck + cc_ttl (rs_cache r)
  end.
Proof.
  intros r ri Hc.
  assert (forall now v, Cache_Get now (rs_cache ri) (ca_clientID c) = Some v ->
    exists j ck, (j < i)%nat /\ delegate_says r calls j (ca_clientID c) v ck /\ now <= ck_set ck + cc_ttl (rs_cache r)) as Hget.
  { intros now v. unfold Cache_Get. destruct (cc_entries (rs_cache ri) !! ca_clientID c) as [e|] eqn:He; [|done].
    destruct (time_After now (cce_expiresAt e)) eqn:Ht; [done|]. intros [= <-].
    destruct (cache_provenance r calls i (ca_clientID c) e) as (j & ck & Hj & Hs & Hx); [done| |done|].
    { apply lookup_lt_Some in Hc. lia. }
    exists j, ck. split; [done|]. split; [done|]. revert Ht. rewrite Hx. times. intros Ht. bools. lia. }
  assert (let '(out, r') := resolve_through (ca_clocks c) (ca_order c) (ca_clientID c) ri in
    match out with
    | Err e => (delegate (ca_clientID c) (rs_delegate ri)).1 = Err e
    | Ok v => (delegate (ca_clientID c) (rs_delegate ri)).1 = Ok v \/
        exists j ck, (j < i)%nat /\ delegate_says r calls j (ca_clientID c) v ck /\ Breaker_IsOpen (rs_cb r') = true /\
          exists used, (used = ck_open (ca_clocks c) \/ used = ck_fail (ca_clocks c)) /\
            used <= ck_set ck + cc_ttl (rs_cache r)
    end) as Hthrough.
  { unfold resolve_through. destruct (delegate (ca_clientID c) (rs_delegate ri)) as [[v|e] d'].
    - destruct (Breaker_RecordSuccess _) as [x cb]. by left.
    - assert ((Breaker_RecordFailure (rs_cb ri)).1.1 = Breaker_IsOpen (Breaker_RecordFailure (rs_cb ri)).2) as Hu.
      { breaker_cases (rs_cb ri); by try case_match. }
      destruct (Breaker_RecordFailure (rs_cb ri)) as [[u x] cb]; cbn in Hu; subst u.
      destruct (Breaker_IsOpen cb) eqn:Ho; [|done]. destruct (Cache_Get _ _ _) as [v|] eqn:Hg; [|done].
      right. destruct (Hget _ _ Hg) as (j & ck & Hj & Hs & Hle). exists j, ck. split; [done|]. split; [done|].
      split; [done|]. exists (ck_fail (ca_clocks c)). auto. }
  unfold Resolver_ResolveClient. destruct (Breaker_IsOpen (rs_cb ri)) eqn:Ho; [|exact Hthrough].
  destruct (Cache_Get _ _ _) as [v|] eqn:Hg; [|exact Hthrough].
  right. destruct (Hget _ _ Hg) as (j & ck & Hj & Hs & Hle). exists j, ck. split; [done|]. split; [done|].
  split; [done|]. exists (ck_open (ca_clocks c)). auto.
Qed.

(** C37: The resolver never makes an answer up, and its answers age at most by the cache's
    lifetime: on every history of calls, whatever happens to the tenant module between
    them, a resolved client is the wrapped resolver's answer for the same identifier,
    given at that very call or at an earlier one; in the second case the circuit is open
    and the answer is used no later than the lifetime after it was stored.  An error is
    always the wrapped resolver's own. *)
Theorem resolver_staleness_bounded (d : D) (opts : list ResolverOption) (calls : list call) (i : nat) (c : call) :
  let r := NewResilientClientResolver d opts in
  let ri := before_call c (at_call r calls i) in
  calls !! i = Some c ->
  let '(out, r') := Resolver_ResolveClient (ca_clocks c) (ca_order c) (ca_clientID c) ri in
  match out with
  | Err e => (delegate (ca_clientID c) (rs_delegate ri)).1 = Err e
  | Ok v =>
      (delegate (ca_clientID c) (rs_delegate ri)).1 = Ok v \/
      exists j ck, (j < i)%nat /\ delegate_says r calls j (ca_clientID c) v ck /\ Breaker_IsOpen (rs_cb r') = true /\
        exists used, (used = ck_open (ca_clocks c) \/ used = ck_fail (ca_clocks c)) /\
          used <= ck_set ck + cc_ttl (rs_cache r)
  end.
Proof. apply resolver_answers. Qed.
End resolver.

(** ** [tenant_adapter.go]: the tenant service as the wrapped resolver *)

Definition TenantClientResolver (clientID : string) : ST TenantState error Resolved := fun ts =>
  (ResolveClientContract ts clientID, ts).

(** The resolver [main.go] gives to the auth service. *)
Definition wired_resolver (ts : TenantState) : Resolver TenantState :=
  NewResilientClientResolver ts [RWithFailureThreshold 5; RWithCacheTTL (5 * Minute)].

(** ** Suspended tenants *)

(** What the auth service's requests need of the resolver: the session's tenant. *)
Lemma exchange_needs_tenant cfg resolve ctx gen req s r x :
  as_codes s !! tq_Code req = Some r -> as_sessions s !! ac_SessionID r = Some x ->
  (forall cl tn, resolve (tq_ClientID req) = Ok (cl, tn) -> rtn_ID tn <> s_TenantID x) ->
  is_Ok (exchangeAuthorizationCode cfg resolve ctx gen req s).1 = false.
Proof.
  intros Hr Hx Hno. destruct (exchangeAuthorizationCode cfg resolve ctx gen req s) as [[tr|e] s'] eqn:He; [|done].
  unfold exchangeAuthorizationCode in He.
  apply st_bind_Ok in He as (r' & s1 & H1 & (x' & s2 & H2 & ([tc a] & s3 & H3 & _)%st_bind_Ok)%st_bind_Ok).
  apply catch_handleTokenError_Ok, CodeStore_FindByCode_Ok in H1 as [-> H1].
  apply catch_handleTokenError_Ok, SessionStore_FindByID_Ok in H2 as [-> H2]. simplify_eq.
  apply prepareTokenFlow_Ok in H3 as (_ & H3 & _ & _ & H4 & _). by destruct (Hno _ _ H3).
Qed.

Lemma refresh_needs_tenant cfg resolve ctx gen req s r x :
  as_tokens s !! tq_RefreshToken req = Some r -> as_sessions s !! rt_SessionID r = Some x ->
  (forall cl tn, resolve (tq_ClientID req) = Ok (cl, tn) -> rtn_ID tn <> s_TenantID x) ->
  is_Ok (refreshWithRefreshToken cfg resolve ctx gen req s).1 = false.
Proof.
  intros Hr Hx Hno. destruct (refreshWithRefreshToken cfg resolve ctx gen req s) as [[tr|e] s'] eqn:He; [|done].
  unfold refreshWithRefreshToken in He.
  apply st_bind_Ok in He as (r' & s1 & H1 & (x' & s2 & H2 & ([tc a] & s3 & H3 & _)%st_bind_Ok)%st_bind_Ok).
  apply catch_handleTokenError_Ok, TokenStore_Find_Ok in H1 as [-> H1].
  apply catch_handleTokenError_Ok, SessionStore_FindByID_Ok in H2 as [-> H2]. simplify_eq.
  apply prepareTokenFlow_Ok in H3 as (_ & H3 & _ & _ & H4 & _). by destruct (Hno _ _ H3).
Qed.

Lemma NewSession_tenant id u c t sc st t1 t2 t3 s :
  NewSession id u c t sc st t1 t2 t3 = Ok s -> s_TenantID s = t.
Proof. unfold NewSession. repeat case_match; try done. by intros [= <-]. Qed.

Lemma authorizeInTx_tenant cfg capitalize ctx fresh client tenant email uri dev scopes s i x :
  as_sessions (authorizeInTx cfg capitalize ctx fresh client tenant email uri dev scopes s).2 !! i = Some x ->
  as_sessions s !! i = Some x \/ s_TenantID x = rtn_ID tenant.
Proof.
  unfold authorizeInTx, RunInTx, findOrCreateUser. auth_unfold.
  destruct (cx_Err ctx); [by left|]. destruct (cx_ErrLocked ctx); [by left|].
  destruct (DeriveNameFromEmail _ _) as [fn ln]. destruct (NewUser _ _ _ _ _ _) as [nu|]; simpl; [|by left].
  match goal with |- context [list_find ?P ?l] => destruct (list_find P l) as [[? u]|] end; simpl;
  (destruct (User_IsActive _); simpl; [|by left]);
  (match goal with |- context [NewSession ?a ?b ?c ?d ?e ?f ?g ?h ?i] =>
     destruct (NewSession a b c d e f g h i) as [sess|] eqn:Hs end; simpl; [|by left]);
  apply NewSession_tenant in Hs;
  (match goal with |- context [NewAuthorizationCode ?a ?b ?c ?d ?e ?f ?g] =>
     destruct (NewAuthorizationCode a b c d e f g) as [code|] end; simpl);
  intros [[_ <-]|[_ Hx]]%lookup_insert_Some; auto.
Qed.

Lemma Authorize_tenant cfg resolve url_Parse ToLower capitalize ctx fresh req s i x :
  as_sessions (Authorize cfg resolve url_Parse ToLower capitalize ctx fresh (Some req) s).2 !! i = Some x ->
  as_sessions s !! i = Some x \/
  exists cl tn, resolve (TrimSpace (aq_ClientID req)) = Ok (cl, tn) /\ s_TenantID x = rtn_ID tn.
Proof.
  unfold Authorize. auth_unfold. cbn [AuthorizationRequest_Normalize aq_ClientID aq_RedirectURI aq_Email aq_Scopes aq_State].
  destruct (AuthorizationRequest_Validate _ _) as [[]|]; [|by left].
  destruct (url_Parse _) as [u|]; [|by left]. destruct (isRedirectSchemeAllowed _ _); simpl; [|by left].
  destruct (resolve _) as [[cl tn]|e] eqn:Hr; [|destruct (HasCode _ _); by left].
  destruct (allowedRedirectURI _ _); simpl; [|by left]. destruct (resolveDeviceID _ _) as [dev set].
  destruct (validateRequestedScopes _ _) as [[]|]; simpl; [|by left].
  match goal with |- context [authorizeInTx ?a ?b ?c ?d ?e ?f ?g ?h ?i ?j ?k] =>
    pose proof (authorizeInTx_tenant a b c d e f g h i j k) as Ht;
    destruct (authorizeInTx a b c d e f g h i j k) as [[r|e'] s1] end; simpl in *.
  - intros Hx. destruct (Ht i x) as [?|?]; [by destruct (ar_UserWasCreated r)|by left|]. right. by exists cl, tn.
  - intros Hx. destruct (Ht i x Hx) as [?|?]; [by left|]. right. by exists cl, tn.
Qed.

Section suspension.
Context (ToLower : string -> string) (url_Parse : string -> option (string * string)).
Context (bcrypt : string -> res string) (publisher : bool).
Context (bcrypt_nonempty : forall x h, bcrypt x = Ok h -> h <> "").

(** States of the tenant module after the suspension of tenant [i] left it in
    [ts'], as long as nobody reactivates it. *)
Definition since_suspension (i : uuid) (ts' ts : TenantState) : Prop :=
  exists ops, ops_fresh ToLower url_Parse bcrypt publisher ops ts' /\
    Forall (fun op => ~ reactivates op i) ops /\ ts = tenant_run ToLower url_Parse bcrypt publisher ops ts'.

End suspension.

Module ResolverExample.
Definition at_time (t : time) : Clocks := mkClocks t t t t.
Definition wired : Resolver TenantState := wired_resolver TenantExample.s.
Definition ask (env : TenantState -> TenantState) (k : string) (t : time) : call :=
  mkCall env k (at_time t) [].
Definition suspend (_ : TenantState) : TenantState := TenantExample.deactivated.
(** The client is resolved once; its tenant is suspended; five unknown clients are tried. *)
Definition history : list call :=
  [ask id "web-id" 0; ask suspend "nobody" Second; ask id "nobody" Second; ask id "nobody" Second;
   ask id "nobody" Second; ask id "nobody" Second].
Definition answer (calls : list call) (t : time) : bool :=
  is_Ok (Resolver_ResolveClient TenantClientResolver (at_time t) [] "web-id"
           (at_call TenantClientResolver wired calls (length calls))).1.
End ResolverExample.

Lemma resolver_staleness_bounded_witness :
  let c := ResolverExample.ask id "web-id" (2 * Second) in
  let calls := ResolverExample.history ++ [c] in
  match (Resolver_ResolveClient TenantClientResolver (ca_clocks c) [] "web-id"
           (before_call c (at_call TenantClientResolver ResolverExample.wired calls 6))).1 with
  | Err _ => False
  | Ok v => exists j ck, (j < 6)%nat /\ delegate_says TenantClientResolver ResolverExample.wired calls j "web-id" v ck /\
      2 * Second <= ck_set ck + 5 * Minute
  end.
Proof.
  pose proof (resolver_staleness_bounded TenantClientResolver TenantExample.s
    [RWithFailureThreshold 5; RWithCacheTTL (5 * Minute)]
    (ResolverExample.history ++ [ResolverExample.ask id "web-id" (2 * Second)]) 6
    (ResolverExample.ask id "web-id" (2 * Second)) eq_refl) as H.
  cbn zeta. fold ResolverExample.wired in H.
  set (out := Resolver_ResolveClient TenantClientResolver _ _ _ _) in H |- *.
  destruct out as [[v|e] r'] eqn:E; unfold out in E; clear out.
  - destruct H as [H|(j & ck & Hj & Hs & _ & used & Hu & Hle)].
    + exfalso. revert H. vm_compute. discriminate.
    + exists j, ck. split; [exact Hj|]. split; [exact Hs|]. destruct Hu; subst used; exact Hle.
  - exfalso. revert E. vm_compute. discriminate.
Defined.

(** In the same history the answer cached before the suspension is not used
    after six minutes, although the circuit is open: the user's code is refused. *)
Module SuspensionExample.
Definition late : call := ResolverExample.ask id "web-id" (6 * Minute).
Definition calls : list call := ResolverExample.history ++ [late].
Definition session : Session :=
  mkSession 10 1 2 1 ["openid"] SessionStatusPendingConsent None "" (mkBinding "dev" "fp" "" "") 0 1000 0 None.
Definition s : AuthState :=
  mkAuth {[1%N := AuthExample.user]} {[10%N := session]} {["authz_a" := AuthExample.code]} ∅ (NewInMemoryTRL []) [].
Definition request : TokenRequest := mkTokenRequest "authorization_code" "web-id" "authz_a" "https://c/cb" "".
Definition resolve (k : string) : res Resolved :=
  (Resolver_ResolveClient TenantClientResolver (ca_clocks late) [] k
     (before_call late (at_call TenantClientResolver ResolverExample.wired calls 6))).1.
End SuspensionExample.


(** Unknown clients count as failures of the tenant module: five lookups of identifiers
    that do not exist, which anybody can ask for, open the circuit, and a client of a
    suspended tenant then resolves from the cache for five minutes, although the tenant
    service refuses it and, without those lookups, so does the resolver. *)
Theorem unknown_clients_revive_suspended_tenant :
  is_Ok (ResolveClientContract TenantExample.deactivated "web-id") = false /\
  ResolverExample.answer (take 2 ResolverExample.history) (2 * Second) = false /\
  ResolverExample.answer ResolverExample.history (2 * Second) = true /\
  ResolverExample.answer ResolverExample.history (5 * Minute) = true.
Proof. vm_compute. repeat split. Qed.
