(* ===== verification/Decision.v ===== *)
(** * The decision engine
    [internal/decision/models.go], [internal/decision/rules.go],
    [internal/decision/evidence.go], [internal/decision/service.go],
    [pkg/domain/age.go]

    The ports (registry, credentials, consent, audit publisher) are arguments.
    The evidence fetches run concurrently; the order in which they complete and
    whether they were started after the group was cancelled are arguments too, so
    the theorems hold for every schedule.  Metrics and logs are not modelled. *)
From S2P Require Import Prelude Errors Consent.
From Stdlib Require Import Ascii.
Open Scope Z_scope.

(** ** Dates *)

Definition isLeap (y : Z) : bool := (y mod 4 =? 0) && (negb (y mod 100 =? 0) || (y mod 400 =? 0)).

Definition daysIn (m y : Z) : Z :=
  if m =? 2 then (if isLeap y then 29 else 28)
  else if (m =? 4) || (m =? 6) || (m =? 9) || (m =? 11) then 30 else 31.

(** Days from 1 January of year 0 to 1 January of year [y]. *)
Definition daysBeforeYear (y : Z) : Z :=
  365 * y + (y + 3) / 4 - (y + 99) / 100 + (y + 399) / 400.

Fixpoint daysBeforeMonth (m : nat) (y : Z) : Z :=
  match m with
  | O => 0
  | S m' => daysBeforeMonth m' y + daysIn (Z.of_nat m) y
  end.

(** [time.Date(y, m, d, 0, 0, 0, 0, time.UTC)]: a day beyond the end of the month
    runs into the next one. *)
Definition time_Date (y m d : Z) : time :=
  (daysBeforeYear y + daysBeforeMonth (Z.to_nat (m - 1)) y + d - 1 - daysBeforeYear 1970) * (24 * Hour).

Definition digit (a : ascii) : option Z :=
  let n := Z.of_N (N_of_ascii a) in if (48 <=? n) && (n <=? 57) then Some (n - 48) else None.

(** [time.Parse("2006-01-02", s)]: year, month and day, with exactly four, two and
    two digits, in range. *)
Definition parse_date (s : string) : option (Z * Z * Z) :=
  match s with
  | String y1 (String y2 (String y3 (String y4 (String s1 (String m1 (String m2 (String s2
      (String d1 (String d2 EmptyString))))))))) =>
      y1 ← digit y1; y2 ← digit y2; y3 ← digit y3; y4 ← digit y4;
      m1 ← digit m1; m2 ← digit m2; d1 ← digit d1; d2 ← digit d2;
      let y := 1000 * y1 + 100 * y2 + 10 * y3 + y4 in
      let m := 10 * m1 + m2 in
      let d := 10 * d1 + d2 in
      if bool_decide (s1 = "-"%char) && bool_decide (s2 = "-"%char)
         && (1 <=? m) && (m <=? 12) && (1 <=? d) && (d <=? daysIn m y)
      then Some (y, m, d) else None
  | _ => None
  end.

(** The birth date is at midnight UTC, so [AddDate(18, 0, 0)] is [time.Date] with
    the year moved. *)
Definition IsOver18 (birth : Z * Z * Z) (now : time) : bool :=
  let '(y, m, d) := birth in negb (time_Before now (time_Date (y + 18) m d)).

Definition deriveIsOver18 (dob : string) (now : time) : bool :=
  if str_empty dob then false
  else match parse_date dob with None => false | Some b => IsOver18 b now end.

(** ** Models *)

Inductive DecisionOutcome := DecisionPass | DecisionPassWithConditions | DecisionFail.

#[global] Instance DecisionOutcome_eq_dec : EqDecision DecisionOutcome.
Proof. solve_decision. Defined.

Definition DecisionOutcome_text (o : DecisionOutcome) : string :=
  match o with DecisionPass => "pass" | DecisionPassWithConditions => "pass_with_conditions" | DecisionFail => "fail" end.

(** Contract records; the values of credential claims are opaque. *)
Record CitizenRecord := mkCitizen { ci_DateOfBirth : string; ci_Valid : bool }.
Record SanctionsRecord := mkSanctions { sr_Listed : bool }.
Record CredentialPresence := mkPresence { cp_Exists : bool; cp_Claims : gmap string string }.

Record DerivedIdentity := mkDerived { di_PseudonymousID : uuid; di_IsOver18 : bool; di_CitizenValid : bool }.
Record DecisionInput := mkInput {
  in_Identity : DerivedIdentity; in_Sanctions : SanctionsRecord; in_Credential : gmap string string;
}.

Definition IsSanctioned (i : DecisionInput) : bool := sr_Listed (in_Sanctions i).
Definition IsCitizenValid (i : DecisionInput) : bool := di_CitizenValid (in_Identity i).
Definition IsOfLegalAge (i : DecisionInput) : bool := di_IsOver18 (in_Identity i).

Definition DerivedIdentityFromCitizen (userID : uuid) (citizen : CitizenRecord) (now : time) : DerivedIdentity :=
  mkDerived userID (deriveIsOver18 (ci_DateOfBirth citizen) now) (ci_Valid citizen).

(** A string type: a request may carry any value. *)
Inductive DPurpose := PurposeAgeVerification | PurposeSanctionsScreening | PurposeOther (s : string).

Definition DPurpose_text (p : DPurpose) : string :=
  match p with
  | PurposeAgeVerification => "age_verification"
  | PurposeSanctionsScreening => "sanctions_screening"
  | PurposeOther s => s
  end.

Definition ParsePurpose (s : string) : res DPurpose :=
  if bool_decide (s = "age_verification") then Ok PurposeAgeVerification
  else if bool_decide (s = "sanctions_screening") then Ok PurposeSanctionsScreening
  else Err (New CodeBadRequest "unsupported purpose: must be age_verification or sanctions_screening").

Definition ReasonAllChecksPassed : string := "all_checks_passed".
Definition ReasonSanctioned : string := "sanctioned".
Definition ReasonInvalidCitizen : string := "invalid_citizen".
Definition ReasonUnderage : string := "underage".
Definition ReasonMissingCredential : string := "missing_credential".
Definition ReasonNotSanctioned : string := "not_sanctioned".

Record EvaluateRequest := mkEvalReq { eq_UserID : uuid; eq_Purpose : DPurpose; eq_NationalID : string }.

Record EvidenceSummary := mkEvSummary {
  es_CitizenValid : option bool; es_SanctionsListed : bool; es_HasCredential : option bool; es_IsOver18 : option bool;
}.
Record EvaluateResult := mkEvalResult {
  er_Status : DecisionOutcome; er_Reason : string; er_Conditions : list string; er_Evidence : EvidenceSummary;
  er_EvaluatedAt : time;
}.
Record GatheredEvidence := mkEvidence {
  ge_Citizen : option CitizenRecord; ge_Sanctions : option SanctionsRecord; ge_Credential : option CredentialPresence;
  ge_FetchedAt : time;
}.

(** ** Rules *)

Definition evaluateAgeVerification (i : DecisionInput) : DecisionOutcome :=
  if IsSanctioned i then DecisionFail
  else if negb (IsCitizenValid i) then DecisionFail
  else if negb (IsOfLegalAge i) then DecisionFail
  else if (0 <? size (in_Credential i))%nat then DecisionPass
  else DecisionPassWithConditions.

Definition evaluateSanctionsScreening (i : DecisionInput) : DecisionOutcome :=
  if IsSanctioned i then DecisionFail else DecisionPass.

Definition EvaluateDecision (purpose : DPurpose) (i : DecisionInput) : DecisionOutcome :=
  match purpose with
  | PurposeAgeVerification => evaluateAgeVerification i
  | PurposeSanctionsScreening => evaluateSanctionsScreening i
  | PurposeOther _ => DecisionFail
  end.

Definition sanctions_listed (e : GatheredEvidence) : bool :=
  match ge_Sanctions e with Some s => sr_Listed s | None => false end.

Definition reasonForAgeVerification (outcome : DecisionOutcome) (e : GatheredEvidence) (d : DerivedIdentity)
    : string * list string :=
  match outcome with
  | DecisionFail =>
      if sanctions_listed e then (ReasonSanctioned, [])
      else if match ge_Citizen e with None => true | Some c => negb (ci_Valid c) end then (ReasonInvalidCitizen, [])
      else if negb (di_IsOver18 d) then (ReasonUnderage, [])
      else ("", [])
  | DecisionPass => (ReasonAllChecksPassed, [])
  | DecisionPassWithConditions => (ReasonMissingCredential, ["obtain_age_credential"])
  end.

Definition BuildResult (purpose : DPurpose) (outcome : DecisionOutcome) (e : GatheredEvidence)
    (d : DerivedIdentity) (evalTime : time) : EvaluateResult :=
  let listed := sanctions_listed e in
  match purpose with
  | PurposeAgeVerification =>
      let '(reason, conditions) := reasonForAgeVerification outcome e d in
      mkEvalResult outcome reason conditions
        (mkEvSummary (ci_Valid <$> ge_Citizen e) listed
           (Some (match ge_Credential e with Some c => cp_Exists c | None => false end))
           (Some (di_IsOver18 d))) evalTime
  | PurposeSanctionsScreening =>
      mkEvalResult outcome
        (match outcome with
         | DecisionFail => ReasonSanctioned
         | DecisionPass => ReasonNotSanctioned
         | DecisionPassWithConditions => ""
         end) [] (mkEvSummary None listed None None) evalTime
  | PurposeOther _ => mkEvalResult outcome "" [] (mkEvSummary None listed None None) evalTime
  end.

(** ** Evidence *)

Inductive evidence_kind := KCitizen | KSanctions | KCredential.

#[global] Instance evidence_kind_eq_dec : EqDecision evidence_kind.
Proof. solve_decision. Defined.

Definition buildEvidenceTasks (purpose : DPurpose) : list evidence_kind :=
  match purpose with
  | PurposeAgeVerification => [KCitizen; KSanctions; KCredential]
  | PurposeSanctionsScreening => [KSanctions]
  | PurposeOther _ => []
  end.

(** The ports, for one evaluation.  A registry or credential call is given the
    state of its context (cancelled or not); a nil record is [None]. *)
Record Ports := mkPorts {
  po_Citizen : bool -> res (option CitizenRecord);
  po_Sanctions : bool -> res (option SanctionsRecord);
  po_Credential : bool -> res (option CredentialPresence);
  po_Consent : uuid -> string -> res unit;
  po_Emit : ConsentEvent -> res unit;
}.

(** What a decision leaves behind: the port calls and the stored audit events. *)
Inductive port_call := CallConsent | CallEvidence (k : evidence_kind).
Record DecisionState := mkDS { ds_calls : list port_call; ds_audit : list (ConsentEvent * string) }.

Abbreviation DM A := (ST DecisionState error A) (only parsing).

Definition log_call (c : port_call) : DM unit := st_modify (fun s => mkDS (ds_calls s ++ [c]) (ds_audit s)).

Record evidenceFetchResult := mkFetch {
  fr_citizen : option CitizenRecord; fr_sanctions : option SanctionsRecord; fr_credential : option CredentialPresence;
}.

(** One fetch: its result goes to its own field; a credential error is dropped. *)
Definition fetch (ports : Ports) (k : evidence_kind) (cancelled : bool) (r : evidenceFetchResult)
    : option error * evidenceFetchResult :=
  match k with
  | KCitizen =>
      match po_Citizen ports cancelled with
      | Err e => (Some e, r)
      | Ok c => (None, mkFetch c (fr_sanctions r) (fr_credential r))
      end
  | KSanctions =>
      match po_Sanctions ports cancelled with
      | Err e => (Some e, r)
      | Ok c => (None, mkFetch (fr_citizen r) c (fr_credential r))
      end
  | KCredential =>
      match po_Credential ports cancelled with
      | Err _ => (None, r)
      | Ok c => (None, mkFetch (fr_citizen r) (fr_sanctions r) c)
      end
  end.

(** The fetches in their order of completion: the first error is kept and cancels
    the context of the later ones. *)
Fixpoint run_tasks (ports : Ports) (order : list evidence_kind) (first : option error) (r : evidenceFetchResult)
    : DM (option error * evidenceFetchResult) :=
  match order with
  | [] => mret (first, r)
  | k :: rest =>
      log_call (CallEvidence k);;
      let '(err, r') := fetch ports k (match first with Some _ => true | None => false end) r in
      run_tasks ports rest (match first with Some e => Some e | None => err end) r'
  end.

Definition gatherEvidence (ports : Ports) (sched : list evidence_kind -> list evidence_kind)
    (req : EvaluateRequest) (evalTime : time) : DM GatheredEvidence :=
  '(err, r) ← run_tasks ports (sched (buildEvidenceTasks (eq_Purpose req))) None (mkFetch None None None);
  match err with
  | Some e => st_fail e
  | None => mret (mkEvidence (fr_citizen r) (fr_sanctions r) (fr_credential r) evalTime)
  end.

(** ** The service *)

Definition deriveIdentity (userID : uuid) (e : GatheredEvidence) (evalTime : time) : DerivedIdentity :=
  match ge_Citizen e with
  | Some c => mkDerived userID (deriveIsOver18 (ci_DateOfBirth c) evalTime) (ci_Valid c)
  | None => mkDerived userID false false
  end.

Definition buildInput (e : GatheredEvidence) (d : DerivedIdentity) : DecisionInput :=
  mkInput d (match ge_Sanctions e with Some s => mkSanctions (sr_Listed s) | None => mkSanctions false end)
    (match ge_Credential e with Some c => if cp_Exists c then cp_Claims c else ∅ | None => ∅ end).

Section service.
(** Hex of SHA-256. *)
Context (hashSubjectID : string -> string).

Definition decision_event (req : EvaluateRequest) (result : EvaluateResult) (evalTime : time) : ConsentEvent :=
  mkConsentEvent (eq_UserID req) (DPurpose_text (eq_Purpose req)) "decision_made"
    (DecisionOutcome_text (er_Status result)) evalTime.

Definition decision_emitAudit (ports : Ports) (req : EvaluateRequest) (result : EvaluateResult) (evalTime : time)
    : DM unit :=
  let event := decision_event req result evalTime in
  match po_Emit ports event with
  | Err _ => st_fail (New CodeInternal "decision audit unavailable")
  | Ok _ => st_modify (fun s => mkDS (ds_calls s) (ds_audit s ++ [(event, hashSubjectID (eq_NationalID req))]))
  end.

Definition Evaluate (ports : Ports) (sched : list evidence_kind -> list evidence_kind) (evalTime : time)
    (req : EvaluateRequest) : DM EvaluateResult :=
  log_call CallConsent;;
  _ ← st_lift (po_Consent ports (eq_UserID req) PurposeDecision);
  evidence ← gatherEvidence ports sched req evalTime;
  let derived := deriveIdentity (eq_UserID req) evidence evalTime in
  let input := buildInput evidence derived in
  let outcome := EvaluateDecision (eq_Purpose req) input in
  let result := BuildResult (eq_Purpose req) outcome evidence derived evalTime in
  decision_emitAudit ports req result evalTime;;
  mret result.

(** ** Every schedule gathers the same evidence *)

Definition hard_ok (ports : Ports) (k : evidence_kind) : Prop :=
  match k with
  | KCitizen => is_Ok (po_Citizen ports false) = true
  | KSanctions => is_Ok (po_Sanctions ports false) = true
  | KCredential => True
  end.

Definition ok_or {A} (d : A) (r : res A) : A := match r with Ok a => a | Err _ => d end.

Definition gathered (ports : Ports) (order : list evidence_kind) (r : evidenceFetchResult) : evidenceFetchResult :=
  mkFetch
    (if decide (KCitizen ∈ order) then ok_or None (po_Citizen ports false) else fr_citizen r)
    (if decide (KSanctions ∈ order) then ok_or None (po_Sanctions ports false) else fr_sanctions r)
    (if decide (KCredential ∈ order) then ok_or (fr_credential r) (po_Credential ports false) else fr_credential r).

Lemma run_tasks_failed ports order e r s :
  exists r', run_tasks ports order (Some e) r s =
    (Ok (Some e, r'), mkDS (ds_calls s ++ (CallEvidence <$> order)) (ds_audit s)).
Proof.
  revert r s. induction order as [|k order IH]; intros r s.
  { exists r. simpl. rewrite app_nil_r. by destruct s. }
  simpl. destruct (fetch ports k true r) as [err r1].
  destruct (IH r1 (mkDS (ds_calls s ++ [CallEvidence k]) (ds_audit s))) as [r' Hr]. exists r'.
  unfold mbind, st_bind, log_call, st_modify. cbv beta iota. rewrite Hr. simpl. by rewrite <- app_assoc.
Qed.

Lemma fetch_ok ports k r :
  hard_ok ports k -> fetch ports k false r = (None, gathered ports [k] r).
Proof.
  destruct k; simpl; unfold gathered; simpl.
  - by destruct (po_Citizen ports false).
  - by destruct (po_Sanctions ports false).
  - destruct r. by destruct (po_Credential ports false).
Qed.

Lemma fetch_not_ok ports k r :
  ~ hard_ok ports k -> exists e, fetch ports k false r = (Some e, r) /\
    (po_Citizen ports false = Err e \/ po_Sanctions ports false = Err e).
Proof.
  destruct k; simpl.
  - destruct (po_Citizen ports false); [done|]. eauto.
  - destruct (po_Sanctions ports false); [done|]. eauto.
  - tauto.
Qed.

#[global] Instance hard_ok_dec ports k : Decision (hard_ok ports k).
Proof. destruct k; simpl; apply _. Defined.

Lemma gathered_cons ports k order r :
  gathered ports order (gathered ports [k] r) = gathered ports (k :: order) r.
Proof.
  unfold gathered. simpl. f_equal.
  - destruct (decide (KCitizen ∈ order)) as [H|H], (decide (KCitizen ∈ k :: order)) as [H'|H']; try done;
      destruct k; simpl; try done; rewrite elem_of_cons in H'; naive_solver.
  - destruct (decide (KSanctions ∈ order)) as [H|H], (decide (KSanctions ∈ k :: order)) as [H'|H']; try done;
      destruct k; simpl; try done; rewrite elem_of_cons in H'; naive_solver.
  - destruct (decide (KCredential ∈ order)) as [H|H], (decide (KCredential ∈ k :: order)) as [H'|H'];
      destruct k; simpl; try done; try (by destruct (po_Credential ports false));
      rewrite elem_of_cons in H'; naive_solver.
Qed.

Lemma run_tasks_spec ports order r s :
  let s' := mkDS (ds_calls s ++ (CallEvidence <$> order)) (ds_audit s) in
  if decide (Forall (hard_ok ports) order) then run_tasks ports order None r s = (Ok (None, gathered ports order r), s')
  else exists e r', run_tasks ports order None r s = (Ok (Some e, r'), s') /\
    (po_Citizen ports false = Err e \/ po_Sanctions ports false = Err e).
Proof.
  cbv zeta. revert r s. induction order as [|k order IH]; intros r s.
  { rewrite decide_True by constructor. simpl. rewrite app_nil_r. unfold gathered. simpl. by destruct r, s. }
  cbn [run_tasks]. unfold mbind, st_bind, log_call, st_modify. cbv beta iota.
  destruct (decide (hard_ok ports k)) as [Hk|Hk].
  - rewrite fetch_ok by done.
    specialize (IH (gathered ports [k] r) (mkDS (ds_calls s ++ [CallEvidence k]) (ds_audit s))).
    rewrite gathered_cons in IH. simpl in IH. rewrite <- app_assoc in IH.
    destruct (decide (Forall (hard_ok ports) (k :: order))) as [H|H].
    + apply Forall_cons in H as [_ H]. rewrite decide_True in IH by done. exact IH.
    + rewrite decide_False in IH by (intros ?; apply H; by constructor). exact IH.
  - rewrite decide_False by (intros [? _]%Forall_cons; done).
    destruct (fetch_not_ok ports k r Hk) as (e & -> & He).
    destruct (run_tasks_failed ports order e r (mkDS (ds_calls s ++ [CallEvidence k]) (ds_audit s))) as [r' ->].
    exists e, r'. split; [|done]. simpl. by rewrite <- app_assoc.
Qed.

Lemma gathered_perm ports l l' r : l ≡ₚ l' -> gathered ports l r = gathered ports l' r.
Proof.
  intros Hp. unfold gathered.
  f_equal; (match goal with |- context [decide (?k ∈ l)] =>
    destruct (decide (k ∈ l)) as [H|H]; rewrite Hp in H; [by rewrite decide_True|by rewrite decide_False] end).
Qed.

(** The decision as a pure function of what the ports answer. *)
Definition pure_evidence (ports : Ports) (purpose : DPurpose) (evalTime : time) : GatheredEvidence :=
  let r := gathered ports (buildEvidenceTasks purpose) (mkFetch None None None) in
  mkEvidence (fr_citizen r) (fr_sanctions r) (fr_credential r) evalTime.

Definition pure_result (ports : Ports) (evalTime : time) (req : EvaluateRequest) : EvaluateResult :=
  let e := pure_evidence ports (eq_Purpose req) evalTime in
  let d := deriveIdentity (eq_UserID req) e evalTime in
  BuildResult (eq_Purpose req) (EvaluateDecision (eq_Purpose req) (buildInput e d)) e d evalTime.

Definition hard_evidence (ports : Ports) (purpose : DPurpose) : Prop :=
  Forall (hard_ok ports) (buildEvidenceTasks purpose).

Lemma Evaluate_run ports sched evalTime req s :
  (forall l, sched l ≡ₚ l) ->
  let order := sched (buildEvidenceTasks (eq_Purpose req)) in
  let after := mkDS (ds_calls s ++ CallConsent :: (CallEvidence <$> order)) (ds_audit s) in
  match po_Consent ports (eq_UserID req) PurposeDecision with
  | Err e => Evaluate ports sched evalTime req s = (Err e, mkDS (ds_calls s ++ [CallConsent]) (ds_audit s))
  | Ok _ =>
      if decide (hard_evidence ports (eq_Purpose req)) then
        Evaluate ports sched evalTime req s =
          (let result := pure_result ports evalTime req in
           let event := decision_event req result evalTime in
           match po_Emit ports event with
           | Err _ => (Err (New CodeInternal "decision audit unavailable"), after)
           | Ok _ => (Ok result, mkDS (ds_calls after) (ds_audit s ++ [(event, hashSubjectID (eq_NationalID req))]))
           end)
      else exists e, Evaluate ports sched evalTime req s = (Err e, after) /\
           (po_Citizen ports false = Err e \/ po_Sanctions ports false = Err e)
  end.
Proof.
  intros Hs order after.
  destruct (po_Consent ports (eq_UserID req) PurposeDecision) as [[]|] eqn:Hc;
    [|unfold Evaluate, mbind, st_bind, log_call, st_modify, st_lift; cbv beta iota; by rewrite Hc].
  pose proof (run_tasks_spec ports order (mkFetch None None None) (mkDS (ds_calls s ++ [CallConsent]) (ds_audit s))) as Hrun.
  cbv zeta in Hrun. simpl ds_calls in Hrun. simpl ds_audit in Hrun. rewrite <- app_assoc in Hrun. simpl app in Hrun.
  change (mkDS (ds_calls s ++ CallConsent :: (CallEvidence <$> order)) (ds_audit s)) with after in Hrun.
  assert (hard_evidence ports (eq_Purpose req) <-> Forall (hard_ok ports) order) as Hiff
    by (unfold hard_evidence, order; by rewrite Hs).
  unfold Evaluate, gatherEvidence, mret, st_ret, mbind, st_bind, log_call, st_modify, st_lift, decision_emitAudit.
  cbv beta iota. rewrite Hc. fold order.
  destruct (decide (hard_evidence ports (eq_Purpose req))) as [Hh|Hh].
  - rewrite decide_True in Hrun by tauto. rewrite Hrun, (gathered_perm ports order (buildEvidenceTasks (eq_Purpose req))) by apply Hs.
    unfold pure_result, pure_evidence. cbv zeta. by destruct (po_Emit ports _).
  - rewrite decide_False in Hrun by tauto. destruct Hrun as (e & r' & -> & He). by exists e.
Qed.

(** A decision is a function of the consent gate and the evidence, whatever
    the schedule of the concurrent fetches.  Without consent nothing is fetched;
    a registry failure aborts with that error and records no decision, while a
    failing credential lookup does not; and no result of any kind is returned
    unless its audit event was stored. *)
Theorem Evaluate_exact ports sched evalTime req s :
  (forall l, sched l ≡ₚ l) ->
  let '(r, s') := Evaluate ports sched evalTime req s in
  match po_Consent ports (eq_UserID req) PurposeDecision with
  | Err e => r = Err e /\ ds_calls s' = ds_calls s ++ [CallConsent] /\ ds_audit s' = ds_audit s
  | Ok _ =>
      if decide (hard_evidence ports (eq_Purpose req)) then
        let result := pure_result ports evalTime req in
        match po_Emit ports (decision_event req result evalTime) with
        | Err _ => r = Err (New CodeInternal "decision audit unavailable") /\ ds_audit s' = ds_audit s
        | Ok _ => r = Ok result /\
            ds_audit s' = ds_audit s ++ [(decision_event req result evalTime, hashSubjectID (eq_NationalID req))]
        end
      else exists e, r = Err e /\ ds_audit s' = ds_audit s /\
           (po_Citizen ports false = Err e \/ po_Sanctions ports false = Err e)
  end.
Proof.
  intros Hs. pose proof (Evaluate_run ports sched evalTime req s Hs) as H. cbv zeta in H. revert H.
  destruct (po_Consent ports (eq_UserID req) PurposeDecision) as [[]|]; [|by intros ->].
  destruct (decide (hard_evidence ports (eq_Purpose req))).
  - intros ->. cbv zeta.
    by destruct (po_Emit ports (decision_event req (pure_result ports evalTime req) evalTime)).
  - intros (e & -> & He). by exists e.
Qed.

Lemma evaluateAgeVerification_pass i :
  evaluateAgeVerification i <> DecisionFail ->
  IsSanctioned i = false /\ IsCitizenValid i = true /\ IsOfLegalAge i = true /\
  (evaluateAgeVerification i = DecisionPass -> (0 < size (in_Credential i))%nat).
Proof.
  unfold evaluateAgeVerification. destruct (IsSanctioned i), (IsCitizenValid i), (IsOfLegalAge i); simpl; try done.
  destruct (Nat.ltb_spec 0 (size (in_Credential i))); done.
Qed.

Lemma BuildResult_status p o e d t : er_Status (BuildResult p o e d t) = o.
Proof. destruct p; simpl; [by destruct (reasonForAgeVerification o e d)|done|done]. Qed.

(** C6: nobody passes without cause.  A result other than "fail" means that the
    user consents to decisions, the sanctions lookup succeeded and does not list
    the subject, and the purpose is a supported one; for age verification also
    that the registry returned a valid citizen whose birth date is a well-formed
    date at least eighteen calendar years before the evaluation; and a full pass
    that a credential with claims exists. *)
Theorem decision_pass_justified ports sched evalTime req s result s' :
  (forall l, sched l ≡ₚ l) ->
  Evaluate ports sched evalTime req s = (Ok result, s') -> er_Status result <> DecisionFail ->
  po_Consent ports (eq_UserID req) PurposeDecision = Ok tt /\
  (exists r, po_Sanctions ports false = Ok r /\ default false (sr_Listed <$> r) = false) /\
  match eq_Purpose req with
  | PurposeOther _ => False
  | PurposeSanctionsScreening => True
  | PurposeAgeVerification =>
      exists c b, po_Citizen ports false = Ok (Some c) /\ ci_Valid c = true /\
        parse_date (ci_DateOfBirth c) = Some b /\ IsOver18 b evalTime = true /\
        (er_Status result = DecisionPass ->
         exists cr, po_Credential ports false = Ok (Some cr) /\ cp_Exists cr = true /\ cp_Claims cr <> ∅)
  end.
Proof.
  intros Hs Hev Hst. pose proof (Evaluate_run ports sched evalTime req s Hs) as H. cbv zeta in H.
  destruct (po_Consent ports (eq_UserID req) PurposeDecision) as [[]|]; [|by rewrite Hev in H].
  destruct (decide (hard_evidence ports (eq_Purpose req))) as [Hh|_]; [|by destruct H as (e & H & _); rewrite Hev in H].
  assert (result = pure_result ports evalTime req) as ->.
  { rewrite Hev in H. destruct (po_Emit ports _); [by injection H|done]. }
  clear H Hev. split; [done|]. unfold pure_result in Hst |- *. rewrite BuildResult_status in Hst.
  unfold hard_evidence, pure_evidence in Hh, Hst. destruct (eq_Purpose req); cbn [buildEvidenceTasks EvaluateDecision] in *.
  - rewrite !Forall_cons in Hh. destruct Hh as (Hc & Hsn & _). rewrite BuildResult_status.
    apply evaluateAgeVerification_pass in Hst as (H1 & H2 & H3 & H4).
    unfold hard_ok in Hc, Hsn. unfold IsSanctioned, IsCitizenValid, IsOfLegalAge, buildInput, deriveIdentity, gathered in *.
    simpl in *. destruct (po_Sanctions ports false) as [sr|]; [|done]. destruct (po_Citizen ports false) as [ci|]; [|done].
    simpl in *. split; [exists sr; split; [done|]; by destruct sr|].
    destruct ci as [c|]; [|done]. simpl in *. unfold deriveIsOver18 in H3. destruct (str_empty (ci_DateOfBirth c)); [done|].
    destruct (parse_date (ci_DateOfBirth c)) as [b|] eqn:Hb; [|done]. exists c, b. split_and!; try done.
    intros Hp%H4. destruct (po_Credential ports false) as [[cr|]|]; simpl in Hp; try (rewrite map_size_empty in Hp; lia).
    destruct (cp_Exists cr) eqn:Hex; [|rewrite map_size_empty in Hp; lia].
    exists cr. split_and!; try done. intros He. rewrite He, map_size_empty in Hp. lia.
  - rewrite Forall_singleton in Hh. unfold hard_ok in Hh. unfold evaluateSanctionsScreening, IsSanctioned, buildInput, gathered in Hst.
    simpl in *. destruct (po_Sanctions ports false) as [sr|]; [|done]. simpl in *. split; [|done].
    exists sr. split; [done|]. destruct sr as [x|]; [|done]. simpl in *. by destruct (sr_Listed x).
  - done.
Qed.

End service.

(** ** Witnesses *)

Module DecisionExample.
Definition ports : Ports :=
  mkPorts (fun _ => Ok (Some (mkCitizen "2000-02-29" true))) (fun _ => Ok (Some (mkSanctions false)))
    (fun _ => Err (EOther "credential store down")) (fun _ _ => Ok tt) (fun _ => Ok tt).
Definition req : EvaluateRequest := mkEvalReq 7 PurposeAgeVerification "AB123".
Definition eval (now : time) : res EvaluateResult * DecisionState :=
  Evaluate (fun s => s) ports (@rev evidence_kind) now req (mkDS [] []).
(** The eighteenth birthday of a person born on 29 February 2000 is 1 March 2018. *)
Definition birthday : time := 1519862400 * Second.
End DecisionExample.

Example leap_day_birthday :
  time_Date 2018 3 1 = DecisionExample.birthday /\
  deriveIsOver18 "2000-02-29" DecisionExample.birthday = true /\
  deriveIsOver18 "2000-02-29" (DecisionExample.birthday - 1) = false /\
  deriveIsOver18 "2001-02-29" DecisionExample.birthday = false.
Proof. vm_compute. repeat split. Qed.

Lemma rev_schedule (l : list evidence_kind) : rev l ≡ₚ l.
Proof. symmetry. apply Permutation_rev. Qed.

Lemma Evaluate_exact_witness :
  (DecisionExample.eval DecisionExample.birthday).1 =
    Ok (pure_result DecisionExample.ports DecisionExample.birthday DecisionExample.req).
Proof.
  exact (proj1 (Evaluate_exact (fun s => s) DecisionExample.ports (@rev evidence_kind) DecisionExample.birthday
    DecisionExample.req (mkDS [] []) rev_schedule)).
Defined.

Lemma decision_pass_justified_witness :
  exists r, po_Sanctions DecisionExample.ports false = Ok r /\ default false (sr_Listed <$> r) = false.
Proof.
  apply (decision_pass_justified (fun s => s) DecisionExample.ports (@rev evidence_kind) DecisionExample.birthday
    DecisionExample.req (mkDS [] []) (pure_result DecisionExample.ports DecisionExample.birthday DecisionExample.req)
    (DecisionExample.eval DecisionExample.birthday).2 rev_schedule).
  - vm_compute. reflexivity.
  - vm_compute. discriminate.
Defined.
