(* ===== verification/LRU.v ===== *)
(** * Least-recently-used caches: a hash map and a [container/list]

    The caches of the program keep a map from keys to list elements and a doubly
    linked list of those elements ordered by last use.  An element is a heap
    object: map and list hold its address.  This file models the two structures
    together, with one definition per list operation the caches call, and proves
    that they implement an association list, most recently used first. *)
From S2P Require Import Prelude.

Section lru.
Context {V : Type}.

Record lru := mkLRU {
  lru_map : gmap string nat;             (* key to element *)
  lru_list : list (nat * (string * V));  (* elements: address, key and value *)
  lru_next : nat;                        (* the next fresh address *)
}.

Definition lru_New : lru := mkLRU ∅ [] 0.
Definition lru_Len (c : lru) : nat := length (lru_list c).

(** [elem.Value]. *)
Definition elem_value (e : nat) (c : lru) : option (string * V) :=
  snd <$> head (filter (fun x => x.1 = e) (lru_list c)).

(** Assign the value of an element in place. *)
Definition elem_assign (e : nat) (v : V) (c : lru) : lru :=
  mkLRU (lru_map c)
    ((fun x => if bool_decide (x.1 = e) then (x.1, (x.2.1, v)) else x) <$> lru_list c) (lru_next c).

Definition lru_MoveToFront (e : nat) (c : lru) : lru :=
  mkLRU (lru_map c) (filter (fun x => x.1 = e) (lru_list c) ++ filter (fun x => x.1 <> e) (lru_list c))
    (lru_next c).

(** [list.Remove(elem)] followed by [delete(map, key)]. *)
Definition lru_Remove (e : nat) (key : string) (c : lru) : lru :=
  mkLRU (delete key (lru_map c)) (filter (fun x => x.1 <> e) (lru_list c)) (lru_next c).

(** [list.Back()]. *)
Definition lru_Back (c : lru) : option (nat * (string * V)) := last (lru_list c).

(** [elem := list.PushFront(v); map[key] = elem]. *)
Definition lru_PushFront (key : string) (v : V) (c : lru) : lru :=
  mkLRU (<[key := lru_next c]> (lru_map c)) ((lru_next c, (key, v)) :: lru_list c) (S (lru_next c)).

(** ** The association list a cache stands for *)

Definition lru_abs (c : lru) : list (string * V) := (lru_list c).*2.

Record lru_wf (c : lru) : Prop := {
  lwf_ids : NoDup (lru_list c).*1;
  lwf_keys : NoDup (lru_abs c).*1;
  lwf_map : forall k e, lru_map c !! k = Some e <-> exists v, (e, (k, v)) ∈ lru_list c;
  lwf_fresh : Forall (fun x => x.1 < lru_next c)%nat (lru_list c);
}.

(** The operations on association lists. *)
Fixpoint al_get (k : string) (l : list (string * V)) : option V :=
  match l with
  | [] => None
  | (k', v) :: l' => if bool_decide (k' = k) then Some v else al_get k l'
  end.
Definition al_del (k : string) (l : list (string * V)) : list (string * V) := filter (fun p => p.1 <> k) l.
Definition al_put (k : string) (v : V) (l : list (string * V)) : list (string * V) := (k, v) :: al_del k l.

Lemma al_get_None k l : al_get k l = None <-> k ∉ l.*1.
Proof.
  induction l as [|[k' v] l IH]; simpl; [split; [intros _; apply not_elem_of_nil|done]|].
  rewrite not_elem_of_cons. case_bool_decide; naive_solver.
Qed.

Lemma al_del_notin k l : k ∉ l.*1 -> al_del k l = l.
Proof.
  intros H. apply filter_all, Forall_forall. intros [k' v] Hin Heq. simpl in Heq. subst k'. apply H.
  apply list_elem_of_fmap. by exists (k, v).
Qed.

Lemma al_get_del k k' l : al_get k' (al_del k l) = if bool_decide (k' = k) then None else al_get k' l.
Proof.
  induction l as [|[k0 v] l IH]; simpl; [by case_bool_decide|]. unfold al_del in *. rewrite filter_cons. simpl.
  repeat (case_decide || case_bool_decide); simpl; repeat case_bool_decide; naive_solver.
Qed.

Lemma al_get_put k k' v l : al_get k' (al_put k v l) = if bool_decide (k' = k) then Some v else al_get k' l.
Proof. simpl. rewrite al_get_del. repeat case_bool_decide; naive_solver. Qed.

Lemma al_del_length k l : (length (al_del k l) <= length l)%nat.
Proof. apply length_filter. Qed.

Lemma al_get_elem k v l : al_get k l = Some v -> (k, v) ∈ l.
Proof.
  induction l as [|[k' v'] l IH]; simpl; [done|]. case_bool_decide as H.
  - intros [= ->]. subst. by constructor.
  - intros ?. constructor. by apply IH.
Qed.

(** ** The representation *)

Lemma lru_New_wf : lru_wf lru_New.
Proof.
  split; simpl; try constructor.
  - by rewrite lookup_empty.
  - by intros (v & []%elem_of_nil).
Qed.

(** The key lemma: an element found through the map sits at one place of the list. *)
Lemma lru_split c k e :
  lru_wf c -> lru_map c !! k = Some e ->
  exists l1 v l2, lru_list c = l1 ++ (e, (k, v)) :: l2 /\
    Forall (fun x => x.1 <> e) (l1 ++ l2) /\ k ∉ (l1 ++ l2).*2.*1.
Proof.
  intros [Hi Hk Hm _] He. apply Hm in He as [v Hin]. apply list_elem_of_split in Hin as (l1 & l2 & Heq).
  exists l1, v, l2. split; [done|]. unfold lru_abs in Hk. rewrite Heq in Hi, Hk.
  rewrite !fmap_app, !fmap_cons in Hi. rewrite !fmap_app, !fmap_cons in Hk. simpl in Hi, Hk.
  apply NoDup_app in Hi as (_ & Hi1 & [Hi2 _]%NoDup_cons). apply NoDup_app in Hk as (_ & Hk1 & [Hk2 _]%NoDup_cons).
  split.
  - apply Forall_app. split; apply Forall_forall; intros x Hx <-.
    + apply (Hi1 x.1); [|by constructor]. by apply list_elem_of_fmap_2.
    + apply Hi2. by apply list_elem_of_fmap_2.
  - rewrite !fmap_app, elem_of_app. intros [H|H]; [|done]. apply (Hk1 k H). by constructor.
Qed.

Lemma lru_map_None c k : lru_wf c -> lru_map c !! k = None <-> al_get k (lru_abs c) = None.
Proof.
  intros [_ _ Hm _]. rewrite al_get_None. unfold lru_abs. split.
  - intros Hn ([k' v] & -> & ([e x] & Hx & Hin)%list_elem_of_fmap)%list_elem_of_fmap. simpl in *. subst x.
    assert (lru_map c !! k' = Some e) by (apply Hm; eauto). congruence.
  - intros Hn. apply eq_None_not_Some. intros [e [v Hin]%Hm]. apply Hn.
    apply list_elem_of_fmap. exists (k, v). split; [done|]. apply list_elem_of_fmap. by exists (e, (k, v)).
Qed.

Lemma filter_eq_split e x l1 l2 :
  x.1 = e -> Forall (fun x : nat * (string * V) => x.1 <> e) (l1 ++ l2) ->
  filter (fun x => x.1 = e) (l1 ++ x :: l2) = [x] /\
  filter (fun x => x.1 <> e) (l1 ++ x :: l2) = l1 ++ l2.
Proof.
  intros He [H1 H2]%Forall_app. rewrite !filter_app, filter_cons_True, filter_cons_False by (done || tauto).
  rewrite (filter_none (fun x => x.1 = e) l1), (filter_none (fun x => x.1 = e) l2) by done.
  by rewrite !filter_all.
Qed.

Lemma al_split k v (l1 l2 : list (string * V)) :
  k ∉ (l1 ++ l2).*1 -> al_get k (l1 ++ (k, v) :: l2) = Some v /\ al_del k (l1 ++ (k, v) :: l2) = l1 ++ l2.
Proof.
  intros Hk. split.
  - rewrite fmap_app in Hk. induction l1 as [|[k' v'] l1 IH]; simpl in *; [by rewrite bool_decide_eq_true_2|].
    apply not_elem_of_cons in Hk as [Hne Hk]. rewrite bool_decide_eq_false_2 by done. by apply IH.
  - unfold al_del. rewrite filter_app, filter_cons_False by (simpl; tauto). rewrite <- filter_app. by apply al_del_notin.
Qed.

(** What the map and the element operations do, on the association list. *)
Lemma lru_lookup_spec c k e :
  lru_wf c -> lru_map c !! k = Some e ->
  exists v, elem_value e c = Some (k, v) /\ al_get k (lru_abs c) = Some v.
Proof.
  intros Hwf He. destruct (lru_split c k e Hwf He) as (l1 & v & l2 & Heq & Hids & Hk). exists v.
  destruct (filter_eq_split e (e, (k, v)) l1 l2 eq_refl Hids) as [Hf _].
  unfold elem_value, lru_abs. rewrite Heq, Hf, fmap_app, fmap_cons. split; [done|].
  rewrite fmap_app in Hk. by apply al_split.
Qed.

(** Rearranging or revaluing the elements of a cache keeps it well formed. *)
Definition elem_index (x : nat * (string * V)) : nat * string := (x.1, x.2.1).

Lemma index_ids (l : list (nat * (string * V))) : l.*1 = (elem_index <$> l).*1.
Proof. rewrite <- list_fmap_compose. by apply list_fmap_ext. Qed.
Lemma index_keys (l : list (nat * (string * V))) : l.*2.*1 = (elem_index <$> l).*2.
Proof. rewrite <- !list_fmap_compose. by apply list_fmap_ext. Qed.
Lemma index_elem (l : list (nat * (string * V))) e k : (exists v, (e, (k, v)) ∈ l) <-> (e, k) ∈ elem_index <$> l.
Proof.
  rewrite list_elem_of_fmap. split; [intros [v Hv]; by exists (e, (k, v))|].
  intros ([e' [k' v]] & Heq & Hv). unfold elem_index in Heq. simpl in Heq. simplify_eq. by exists v.
Qed.

Lemma lru_wf_perm c l :
  lru_wf c -> (elem_index <$> l) ≡ₚ (elem_index <$> lru_list c) -> lru_wf (mkLRU (lru_map c) l (lru_next c)).
Proof.
  intros [Hi Hk Hm Hf] Hp. split; simpl; unfold lru_abs in *; simpl.
  - rewrite index_ids, Hp, <- index_ids. done.
  - rewrite index_keys, Hp, <- index_keys. done.
  - intros k e. by rewrite Hm, !index_elem, Hp.
  - rewrite Forall_forall in *. intros x Hx. assert (x.1 ∈ (elem_index <$> lru_list c).*1) as Hx'.
    { rewrite <- Hp, <- index_ids. by apply list_elem_of_fmap_2. }
    rewrite <- index_ids in Hx'. apply list_elem_of_fmap in Hx' as (y & -> & Hy). by apply Hf.
Qed.

Lemma lru_MoveToFront_spec c k e v :
  lru_wf c -> lru_map c !! k = Some e -> al_get k (lru_abs c) = Some v ->
  lru_wf (lru_MoveToFront e c) /\ lru_abs (lru_MoveToFront e c) = al_put k v (lru_abs c) /\
  lru_map (lru_MoveToFront e c) = lru_map c.
Proof.
  intros Hwf He Hv. destruct (lru_split c k e Hwf He) as (l1 & v' & l2 & Heq & Hids & Hk).
  destruct (filter_eq_split e (e, (k, v')) l1 l2 eq_refl Hids) as [Hf1 Hf2].
  pose proof (al_split k v' l1.*2 l2.*2) as Hal. rewrite <- fmap_app in Hal. specialize (Hal Hk). destruct Hal as [Hg Hd].
  unfold lru_abs in *. rewrite Heq, fmap_app, fmap_cons in Hv. simpl in Hv. assert (v' = v) as -> by congruence.
  split_and!; [|unfold lru_MoveToFront; simpl; rewrite Heq, Hf1, Hf2|done].
  - apply lru_wf_perm; [done|]. apply fmap_Permutation, filter_app_complement.
  - unfold al_put. simpl. rewrite (fmap_app snd l1 (_ :: _)), fmap_cons. simpl. by rewrite Hd.
Qed.

Lemma lru_assign_spec c k e v :
  lru_wf c -> lru_map c !! k = Some e ->
  lru_wf (elem_assign e v c) /\ lru_map (elem_assign e v c) = lru_map c /\
  al_get k (lru_abs (elem_assign e v c)) = Some v /\
  al_del k (lru_abs (elem_assign e v c)) = al_del k (lru_abs c) /\ lru_Len (elem_assign e v c) = lru_Len c.
Proof.
  intros Hwf He. destruct (lru_split c k e Hwf He) as (l1 & v' & l2 & Heq & Hids & Hk).
  assert (lru_list (elem_assign e v c) = l1 ++ (e, (k, v)) :: l2) as Hl.
  { simpl. rewrite Heq, fmap_app, fmap_cons. simpl. rewrite bool_decide_eq_true_2 by done.
    assert (forall l, Forall (fun x : nat * (string * V) => x.1 <> e) l ->
      (fun x => if bool_decide (x.1 = e) then (x.1, (x.2.1, v)) else x) <$> l = l) as Hid.
    { induction 1 as [|x l Hx _ IH]; [done|]. rewrite fmap_cons, IH. by rewrite bool_decide_eq_false_2. }
    apply Forall_app in Hids as [H1 H2]. by rewrite !Hid. }
  unfold lru_abs, lru_Len. rewrite Hl, Heq, !fmap_app, !fmap_cons. simpl. rewrite fmap_app in Hk.
  destruct (al_split k v l1.*2 l2.*2 Hk) as [H1 H2], (al_split k v' l1.*2 l2.*2 Hk) as [H3 H4].
  split_and!; try done; try congruence.
  - apply lru_wf_perm; [done|]. rewrite <- list_fmap_compose.
    erewrite list_fmap_ext; [done|]. intros i x _. simpl. by case_bool_decide.
  - rewrite !length_app. done.
Qed.

Lemma lru_Remove_spec c k e :
  lru_wf c -> lru_map c !! k = Some e ->
  lru_wf (lru_Remove e k c) /\ lru_abs (lru_Remove e k c) = al_del k (lru_abs c) /\
  lru_Len c = S (lru_Len (lru_Remove e k c)) /\ lru_map (lru_Remove e k c) = delete k (lru_map c).
Proof.
  intros Hwf He. destruct (lru_split c k e Hwf He) as (l1 & v & l2 & Heq & Hids & Hk).
  destruct (filter_eq_split e (e, (k, v)) l1 l2 eq_refl Hids) as [_ Hf].
  pose proof Hwf as [Hi Hkeys Hm Hfr]. unfold lru_abs, lru_Len, lru_Remove in *. simpl in *. rewrite Heq, Hf in *.
  assert (l1 ++ l2 `sublist_of` l1 ++ (e, (k, v)) :: l2) as Hsub by (apply sublist_app; [done|by constructor]).
  split_and!.
  - split; simpl; unfold lru_abs; simpl.
    + eapply sublist_NoDup; [exact Hi|by apply fmap_sublist].
    + eapply sublist_NoDup; [exact Hkeys|by apply fmap_sublist, fmap_sublist].
    + intros k' e'. rewrite lookup_delete_Some, Hm. split.
      * intros [Hne [v' [Hin|Hin]%elem_of_app]]; exists v'; [by apply elem_of_app; left|].
        apply elem_of_cons in Hin as [[= -> -> ->]|Hin]; [done|]. by apply elem_of_app; right.
      * intros [v' Hin]. split; [intros <-|exists v'; set_solver].
        apply Hk. apply list_elem_of_fmap. exists (k, v'). split; [done|]. apply list_elem_of_fmap. by exists (e', (k, v')).
    + apply Forall_app in Hfr as [? [_ ?]%Forall_cons]. by apply Forall_app.
  - rewrite (fmap_app snd l1 l2), (fmap_app snd l1 (_ :: _)), fmap_cons. symmetry. apply al_split. by rewrite <- fmap_app.
  - rewrite !length_app. simpl. lia.
  - done.
Qed.

Lemma lru_PushFront_spec c k v :
  lru_wf c -> lru_map c !! k = None ->
  lru_wf (lru_PushFront k v c) /\ lru_abs (lru_PushFront k v c) = al_put k v (lru_abs c).
Proof.
  intros Hwf Hn. pose proof (proj1 (lru_map_None c k Hwf) Hn) as Hn'. apply al_get_None in Hn'.
  pose proof Hwf as [Hi Hk Hm Hf]. split.
  - split; simpl; unfold lru_abs in *; simpl.
    + apply NoDup_cons. split; [|done]. intros (x & Hx & Hin)%list_elem_of_fmap.
      rewrite Forall_forall in Hf. apply Hf in Hin. lia.
    + by apply NoDup_cons.
    + intros k' e. rewrite lookup_insert_Some, Hm. setoid_rewrite elem_of_cons. split.
      * intros [[<- <-]|[_ [v' ?]]]; eauto.
      * intros [v' [[= -> -> ->]|Hin]]; [by left|]. right. split; [|eauto]. intros ->.
        apply Hn'. apply list_elem_of_fmap. exists (k', v'). split; [done|]. apply list_elem_of_fmap. by exists (e, (k', v')).
    + constructor; [simpl; lia|]. eapply Forall_impl; [exact Hf|]. simpl. lia.
  - unfold al_put. rewrite al_del_notin by done. done.
Qed.

Lemma lru_Back_spec c :
  lru_wf c ->
  match lru_Back c with
  | None => lru_abs c = []
  | Some (e, (k, v)) => lru_map c !! k = Some e /\ last (lru_abs c) = Some (k, v)
  end.
Proof.
  intros [_ _ Hm _]. unfold lru_Back, lru_abs. destruct (last (lru_list c)) as [[e [k v]]|] eqn:Hl.
  - split; [|by rewrite fmap_last, Hl]. apply Hm. exists v. apply last_Some in Hl as [l' ->]. set_solver.
  - apply last_None in Hl. by rewrite Hl.
Qed.

End lru.
Arguments lru : clear implicits.
