(* ===== verification/RegistryCache.v ===== *)
(** * The registry cache
    [internal/evidence/registry/store/store_memory.go] and
    [internal/evidence/registry/models/models.go]

    Two LRU caches with a time to live, for citizen and for sanctions records.
    The clock ([time.Now]) is an argument of each operation.  The caches are
    compared with an unbounded table that remembers the last record saved under
    every key: a hit is always that record, fresh and in the mode asked for, and a
    record is only forgotten by expiry, clearing or [maxSize] other operations.
    Cache metrics are not modelled. *)
From S2P Require Import Prelude Errors LRU.

(** ** Records *)

Record models_CitizenRecord := mkCR {
  crec_NationalID : string;
  crec_FullName : string;
  crec_DateOfBirth : string;
  crec_Address : string;
  crec_Valid : bool;
  crec_Source : string;
  crec_CheckedAt : time;
}.

Record models_SanctionsRecord := mkSR {
  srec_NationalID : string;
  srec_Listed : bool;
  srec_Source : string;
  srec_CheckedAt : time;
}.

Record RegistryResult := mkRR { rr_Citizen : models_CitizenRecord; rr_Sanction : models_SanctionsRecord }.

#[global] Instance models_CitizenRecord_eq_dec : EqDecision models_CitizenRecord.
Proof. solve_decision. Defined.
#[global] Instance models_SanctionsRecord_eq_dec : EqDecision models_SanctionsRecord.
Proof. solve_decision. Defined.

(** ** One cache, for any kind of record *)

Section cache.
Context {V : Type} (storedAt : V -> time).

Definition evictOldest (c : lru V) : lru V :=
  match lru_Back c with
  | None => c
  | Some (e, (key, _)) => lru_Remove e key c
  end.

Definition cache_save (maxSize : Z) (key : string) (v : V) (c : lru V) : lru V :=
  match lru_map c !! key with
  | Some elem => lru_MoveToFront elem (elem_assign elem v c)
  | None =>
      let c := if (maxSize <=? Z.of_nat (lru_Len c))%Z then evictOldest c else c in
      lru_PushFront key v c
  end.

(** An expired entry is removed; an entry that [usable] rejects is a miss that
    leaves the cache as it is. *)
Definition cache_find (ttl : duration) (usable : V -> bool) (key : string) (now : time) (c : lru V)
    : option V * lru V :=
  match lru_map c !! key with
  | None => (None, c)
  | Some elem =>
      match elem_value elem c with
      | None => (None, c)
      | Some (_, cached) =>
          if (ttl <=? time_Sub now (storedAt cached))%Z then (None, lru_Remove elem key c)
          else if negb (usable cached) then (None, c)
          else (Some cached, lru_MoveToFront elem c)
      end
  end.

(** *** On the association list *)

Definition al_evict (l : list (string * V)) : list (string * V) :=
  match last l with None => l | Some (k, _) => al_del k l end.

Definition al_save (maxSize : Z) (k : string) (v : V) (l : list (string * V)) : list (string * V) :=
  match al_get k l with
  | Some _ => al_put k v l
  | None => (k, v) :: (if (maxSize <=? Z.of_nat (length l))%Z then al_evict l else l)
  end.

Definition al_find (ttl : duration) (usable : V -> bool) (k : string) (now : time) (l : list (string * V))
    : option V * list (string * V) :=
  match al_get k l with
  | None => (None, l)
  | Some v =>
      if (ttl <=? time_Sub now (storedAt v))%Z then (None, al_del k l)
      else if negb (usable v) then (None, l)
      else (Some v, al_put k v l)
  end.

Lemma lru_Len_abs (c : lru V) : lru_Len c = length (lru_abs c).
Proof. unfold lru_Len, lru_abs. by rewrite length_fmap. Qed.

Lemma evictOldest_spec c :
  lru_wf c -> lru_wf (evictOldest c) /\ lru_abs (evictOldest c) = al_evict (lru_abs c).
Proof.
  intros Hwf. pose proof (lru_Back_spec c Hwf) as H. unfold evictOldest, al_evict.
  destruct (lru_Back c) as [[e [k v]]|].
  - destruct H as [Hm ->]. destruct (lru_Remove_spec c k e Hwf Hm) as (? & ? & _). done.
  - rewrite H. done.
Qed.

Lemma al_get_evict_None k (l : list (string * V)) : al_get k l = None -> al_get k (al_evict l) = None.
Proof.
  intros H. unfold al_evict. destruct (last l) as [[k' v]|]; [|done]. rewrite al_get_del. by case_bool_decide.
Qed.

Lemma cache_save_spec maxSize k v c :
  lru_wf c -> lru_wf (cache_save maxSize k v c) /\ lru_abs (cache_save maxSize k v c) = al_save maxSize k v (lru_abs c).
Proof.
  intros Hwf. unfold cache_save, al_save. destruct (lru_map c !! k) as [e|] eqn:Hm.
  - destruct (lru_lookup_spec c k e Hwf Hm) as (v0 & _ & ->).
    destruct (lru_assign_spec c k e v Hwf Hm) as (Hwf' & Hm' & Hg & Hd & _).
    destruct (lru_MoveToFront_spec (elem_assign e v c) k e v Hwf') as (? & -> & _); [congruence|done|].
    split; [done|]. unfold al_put. by rewrite Hd.
  - pose proof (proj1 (lru_map_None c k Hwf) Hm) as Hn. rewrite Hn, lru_Len_abs.
    set (c' := if (maxSize <=? Z.of_nat (length (lru_abs c)))%Z then evictOldest c else c).
    assert (lru_wf c' /\ lru_abs c' = if (maxSize <=? Z.of_nat (length (lru_abs c)))%Z then al_evict (lru_abs c) else lru_abs c)
      as [Hwf' Habs] by (subst c'; case_match; [by apply evictOldest_spec|done]).
    assert (al_get k (lru_abs c') = None) as Hn'.
    { rewrite Habs. case_match; [by apply al_get_evict_None|done]. }
    pose proof (proj2 (lru_map_None c' k Hwf') Hn') as Hm'.
    destruct (lru_PushFront_spec c' k v Hwf' Hm') as [? ->]. split; [done|].
    unfold al_put. rewrite al_del_notin by (by apply al_get_None). by rewrite Habs.
Qed.

Lemma cache_find_spec ttl usable k now c :
  lru_wf c -> lru_wf (cache_find ttl usable k now c).2 /\
  (cache_find ttl usable k now c).1 = (al_find ttl usable k now (lru_abs c)).1 /\
  lru_abs (cache_find ttl usable k now c).2 = (al_find ttl usable k now (lru_abs c)).2.
Proof.
  intros Hwf. unfold cache_find, al_find. destruct (lru_map c !! k) as [e|] eqn:Hm.
  - destruct (lru_lookup_spec c k e Hwf Hm) as (v & -> & Hg). rewrite Hg.
    destruct (lru_Remove_spec c k e Hwf Hm) as (? & ? & _).
    destruct (lru_MoveToFront_spec c k e v Hwf Hm Hg) as (? & ? & _). by repeat case_match.
  - pose proof (proj1 (lru_map_None c k Hwf) Hm) as ->. done.
Qed.

(** *** Histories *)

Inductive cache_op :=
| CSave (k : string) (v : V)
| CFind (k : string) (usable : V -> bool) (now : time)
| CClear.

Definition cache_step (ttl : duration) (maxSize : Z) (c : lru V) (op : cache_op) : option V * lru V :=
  match op with
  | CSave k v => (None, cache_save maxSize k v c)
  | CFind k usable now => cache_find ttl usable k now c
  | CClear => (None, mkLRU ∅ [] (lru_next c))
  end.

Definition cache_run (ttl : duration) (maxSize : Z) (c : lru V) (ops : list cache_op) : lru V :=
  foldl (fun c op => (cache_step ttl maxSize c op).2) c ops.

(** The ideal table: the last value saved under each key since the last clearing. *)
Definition table_step (t : gmap string V) (op : cache_op) : gmap string V :=
  match op with
  | CSave k v => <[k := v]> t
  | CFind _ _ _ => t
  | CClear => ∅
  end.
Definition table_run (t : gmap string V) (ops : list cache_op) : gmap string V := foldl table_step t ops.

Definition in_table (l : list (string * V)) (t : gmap string V) : Prop :=
  forall k v, al_get k l = Some v -> t !! k = Some v.

Definition size_ok (maxSize : Z) (l : list (string * V)) : Prop := (Z.of_nat (length l) <= Z.max 1 maxSize)%Z.

Record cache_inv (maxSize : Z) (c : lru V) (t : gmap string V) : Prop := {
  ci_wf : lru_wf c;
  ci_table : in_table (lru_abs c) t;
  ci_size : size_ok maxSize (lru_abs c);
}.

Lemma al_evict_length (l : list (string * V)) : NoDup l.*1 -> length (al_evict l) = pred (length l).
Proof.
  intros Hnd. unfold al_evict. destruct (last l) as [[k v]|] eqn:Hl; [|by apply last_None in Hl as ->].
  apply last_Some in Hl as [l' ->]. rewrite fmap_app in Hnd. apply NoDup_app in Hnd as (_ & Hd & _).
  destruct (al_split k v l' []) as [_ ->].
  - rewrite app_nil_r. intros H. apply (Hd _ H). by constructor.
  - rewrite app_nil_r, length_app. simpl. lia.
Qed.

Lemma al_put_length k (v v0 : V) l : NoDup l.*1 -> al_get k l = Some v0 -> length (al_put k v l) = length l.
Proof.
  intros Hnd Hg. apply al_get_elem, list_elem_of_split in Hg as (l1 & l2 & ->).
  rewrite fmap_app, fmap_cons in Hnd. apply NoDup_app in Hnd as (_ & Hd & [Hn _]%NoDup_cons).
  unfold al_put. destruct (al_split k v0 l1 l2) as [_ ->]; [|rewrite !length_app; simpl; rewrite ?length_app; lia].
  rewrite fmap_app, elem_of_app. intros [H|H]; [|done]. apply (Hd _ H). by constructor.
Qed.

Lemma al_del_Some k k' v (l : list (string * V)) : al_get k' (al_del k l) = Some v -> al_get k' l = Some v.
Proof. rewrite al_get_del. by case_bool_decide. Qed.

Lemma al_save_get maxSize k (v : V) k' v' l :
  al_get k' (al_save maxSize k v l) = Some v' -> (k' = k /\ v' = v) \/ (k' <> k /\ al_get k' l = Some v').
Proof.
  unfold al_save. destruct (al_get k l) eqn:Hg.
  - rewrite al_get_put. case_bool_decide; naive_solver.
  - simpl. case_bool_decide as Hk; [naive_solver|]. right. split; [done|].
    case_match; [|done]. unfold al_evict in *. destruct (last l) as [[k0 v0]|]; [|done]. by eapply al_del_Some.
Qed.

Lemma al_save_size maxSize k (v : V) l : NoDup l.*1 -> size_ok maxSize l -> size_ok maxSize (al_save maxSize k v l).
Proof.
  intros Hnd Hs. unfold al_save, size_ok in *. destruct (al_get k l) as [v0|] eqn:Hg; [by rewrite (al_put_length _ _ v0)|].
  simpl. destruct (Z.leb_spec maxSize (Z.of_nat (length l))); [|lia].
  pose proof (al_evict_length l Hnd). lia.
Qed.

Lemma al_find_cases ttl usable k now l :
  (al_find ttl usable k now l).2 = l \/ (al_find ttl usable k now l).2 = al_del k l \/
  exists v, al_get k l = Some v /\ (al_find ttl usable k now l).2 = al_put k v l.
Proof. unfold al_find. destruct (al_get k l) as [v|]; [|by left]. repeat case_match; simpl; eauto. Qed.

Lemma cache_step_inv ttl maxSize c t op :
  cache_inv maxSize c t -> cache_inv maxSize (cache_step ttl maxSize c op).2 (table_step t op).
Proof.
  intros [Hwf Ht Hs]. pose proof (lwf_keys _ Hwf) as Hnd. destruct op as [k v|k usable now|]; simpl.
  - destruct (cache_save_spec maxSize k v c Hwf) as [Hwf' Habs]. split; [done|rewrite Habs..].
    + intros k' v' [[-> ->]|[Hne Hg]]%al_save_get; [by rewrite lookup_insert_eq|].
      rewrite lookup_insert_ne by done. by apply Ht.
    + by apply al_save_size.
  - destruct (cache_find_spec ttl usable k now c Hwf) as (Hwf' & _ & Habs). split; [done|rewrite Habs..];
      destruct (al_find_cases ttl usable k now (lru_abs c)) as [-> | [-> | (v & Hg & ->)]]; try done.
    + intros k' v'. rewrite al_get_del. case_bool_decide; [done|]. apply Ht.
    + intros k' v'. rewrite al_get_put. case_bool_decide; [|apply Ht]. intros [= <-]. subst. by apply Ht.
    + unfold size_ok in *. pose proof (al_del_length k (lru_abs c)). lia.
    + unfold size_ok in *. by rewrite (al_put_length _ _ v).
  - split; [|by intros k v|unfold size_ok; simpl; lia]. split; simpl; try constructor; [by rewrite lookup_empty|].
    by intros (v & []%elem_of_nil).
Qed.

Lemma cache_run_inv ttl maxSize c t ops :
  cache_inv maxSize c t -> cache_inv maxSize (cache_run ttl maxSize c ops) (table_run t ops).
Proof.
  revert c t. induction ops as [|op ops IH]; intros c t H; [done|]. simpl. apply IH. by apply cache_step_inv.
Qed.

Lemma cache_New_inv maxSize : cache_inv maxSize lru_New ∅.
Proof. split; [apply lru_New_wf|by intros k v|unfold size_ok; simpl; lia]. Qed.

(** A hit is the table's entry, fresh and usable. *)
Lemma cache_hit ttl maxSize usable k now c t v :
  cache_inv maxSize c t -> (cache_find ttl usable k now c).1 = Some v ->
  t !! k = Some v /\ usable v = true /\ (time_Sub now (storedAt v) < ttl)%Z.
Proof.
  intros [Hwf Ht _]. destruct (cache_find_spec ttl usable k now c Hwf) as (_ & -> & _). unfold al_find.
  destruct (al_get k (lru_abs c)) as [v0|] eqn:Hg; [|done].
  destruct (Z.leb_spec ttl (time_Sub now (storedAt v0))); [done|].
  destruct (usable v0) eqn:Hu; simpl; [|done]. intros [= ->]. split_and!; try done. by apply Ht.
Qed.

(** *** Retention *)

(** The entries used more recently than [k]'s. *)
Fixpoint al_rank (k : string) (l : list (string * V)) : nat :=
  match l with
  | [] => 0
  | (k', _) :: l' => if bool_decide (k' = k) then 0 else S (al_rank k l')
  end.

Lemma al_rank_del k k' (l : list (string * V)) : k' <> k -> (al_rank k (al_del k' l) <= al_rank k l)%nat.
Proof.
  intros Hne. induction l as [|[k0 v0] l IH]; [done|]. unfold al_del in *. rewrite filter_cons. simpl.
  case_decide; simpl; repeat case_bool_decide; subst; simpl; (done || lia).
Qed.

Lemma al_rank_last k v (l : list (string * V)) :
  NoDup l.*1 -> last l = Some (k, v) -> S (al_rank k l) = length l.
Proof.
  intros Hnd [l' ->]%last_Some. rewrite fmap_app in Hnd. apply NoDup_app in Hnd as (_ & Hd & _).
  rewrite length_app. simpl. assert (k ∉ l'.*1) as Hk by (intros H; apply (Hd _ H); by constructor). clear Hd.
  induction l' as [|[k' v'] l' IH]; simpl; [by rewrite bool_decide_eq_true_2|].
  apply not_elem_of_cons in Hk as [Hne Hk]. rewrite bool_decide_eq_false_2 by done. specialize (IH Hk). lia.
Qed.

Definition held (k : string) (v : V) (n : nat) (l : list (string * V)) : Prop :=
  al_get k l = Some v /\ (al_rank k l <= n)%nat.

Lemma held_put k v n k' v' l : k' <> k -> held k v n l -> held k v (S n) (al_put k' v' l).
Proof.
  intros Hne [Hg Hr]. split.
  - rewrite al_get_put. by rewrite bool_decide_eq_false_2.
  - simpl. rewrite bool_decide_eq_false_2 by done. pose proof (al_rank_del k k' l Hne). lia.
Qed.

Lemma held_del k v n k' l : k' <> k -> held k v n l -> held k v n (al_del k' l).
Proof.
  intros Hne [Hg Hr]. split; [|pose proof (al_rank_del k k' l Hne); lia].
  rewrite al_get_del. by rewrite bool_decide_eq_false_2.
Qed.

(** Saving another key keeps the entry as long as it is not the least recently
    used one of a full cache. *)
Lemma held_save maxSize k v n k' v' l :
  NoDup l.*1 -> k' <> k -> (Z.of_nat (S (S n)) <= maxSize)%Z -> held k v n l ->
  held k v (S n) (al_save maxSize k' v' l).
Proof.
  intros Hnd Hne Hn Hh. unfold al_save. destruct (al_get k' l); [by apply held_put|].
  assert (forall l', held k v n l' -> held k v (S n) ((k', v') :: l')) as Hcons.
  { intros l' [Hg Hr]. split; simpl; rewrite bool_decide_eq_false_2 by done; [done|lia]. }
  apply Hcons. destruct (Z.leb_spec maxSize (Z.of_nat (length l))); [|done].
  unfold al_evict. destruct (last l) as [[k0 v0]|] eqn:Hl; [|done]. apply held_del; [|done].
  intros ->. pose proof (al_rank_last k v0 l Hnd Hl). destruct Hh. lia.
Qed.

(** Operations that neither save [k] anew nor clear the cache, at times at which
    [v] is fresh. *)
Definition spares (ttl : duration) (k : string) (v : V) (op : cache_op) : Prop :=
  match op with
  | CSave k' _ => k' <> k
  | CFind _ _ now => (time_Sub now (storedAt v) < ttl)%Z
  | CClear => False
  end.

Lemma held_step ttl maxSize k v n c t op :
  cache_inv maxSize c t -> spares ttl k v op -> (Z.of_nat (S (S n)) <= maxSize)%Z ->
  held k v n (lru_abs c) -> held k v (S n) (lru_abs (cache_step ttl maxSize c op).2).
Proof.
  intros [Hwf _ _] Hsp Hn Hh. destruct op as [k' v'|k' usable now|]; simpl in *; [| |done].
  - destruct (cache_save_spec maxSize k' v' c Hwf) as [_ ->]. apply held_save; [by apply lwf_keys|done..].
  - destruct (cache_find_spec ttl usable k' now c Hwf) as (_ & _ & ->). unfold al_find.
    assert (forall l, held k v n l -> held k v (S n) l) as Hup by (intros l [? ?]; split; [done|lia]).
    destruct (al_get k' (lru_abs c)) as [v0|] eqn:Hg; [|by apply Hup].
    destruct (decide (k' = k)) as [->|Hne].
    + destruct Hh as [Hg' Hr]. assert (v0 = v) as -> by congruence.
      destruct (Z.leb_spec ttl (time_Sub now (storedAt v))); [lia|].
      destruct (usable v); simpl; [|by apply Hup]. split; [|simpl; rewrite bool_decide_eq_true_2 by done; lia].
      rewrite al_get_put. by rewrite bool_decide_eq_true_2.
    + repeat case_match; simpl; [by apply Hup, held_del|by apply Hup|by apply held_put].
Qed.

Lemma held_run ttl maxSize k v n c t ops :
  cache_inv maxSize c t -> Forall (spares ttl k v) ops -> (Z.of_nat (S n + length ops) <= maxSize)%Z ->
  held k v n (lru_abs c) -> held k v (n + length ops) (lru_abs (cache_run ttl maxSize c ops)).
Proof.
  revert n c t. induction ops as [|op ops IH]; intros n c t Hi Hsp Hn Hh; [by rewrite Nat.add_0_r|].
  apply Forall_cons in Hsp as [Hop Hops]. simpl in *. rewrite <- Nat.add_succ_comm.
  apply (IH (S n) _ (table_step t op)); [by apply cache_step_inv|done|lia|]. eapply held_step; [done..|lia|done].
Qed.

(** A record saved is found again, as long as it is fresh and fewer than
    [maxSize] operations ran since. *)
Lemma cache_retains ttl maxSize k v c t ops usable now :
  cache_inv maxSize c t -> Forall (spares ttl k v) ops -> (Z.of_nat (length ops) < maxSize)%Z ->
  usable v = true -> (time_Sub now (storedAt v) < ttl)%Z ->
  (cache_find ttl usable k now (cache_run ttl maxSize (cache_save maxSize k v c) ops)).1 = Some v.
Proof.
  intros Hi Hsp Hn Hu Hf. pose proof (cache_step_inv ttl maxSize c t (CSave k v) Hi) as Hi1. simpl in Hi1.
  assert (held k v 0 (lru_abs (cache_save maxSize k v c))) as Hh.
  { destruct (cache_save_spec maxSize k v c (ci_wf _ _ _ Hi)) as [_ ->]. unfold al_save.
    case_match; split; simpl; rewrite ?bool_decide_eq_true_2 by done; done. }
  pose proof (held_run ttl maxSize k v 0 _ _ ops Hi1 Hsp ltac:(lia) Hh) as [Hg _].
  pose proof (cache_run_inv ttl maxSize _ _ ops Hi1) as [Hwf _ _].
  destruct (cache_find_spec ttl usable k now _ Hwf) as (_ & -> & _). unfold al_find. rewrite Hg.
  destruct (Z.leb_spec ttl (time_Sub now (storedAt v))); [lia|]. by rewrite Hu.
Qed.

End cache.

(** ** The registry cache *)

Record cachedCitizen := mkCC { cc_record : models_CitizenRecord; cc_storedAt : time; cc_regulated : bool }.
Record cachedSanction := mkCSn { cs_record : models_SanctionsRecord; cs_storedAt : time }.

Record InMemoryCache := mkCache {
  mc_citizens : lru cachedCitizen;
  mc_sanctions : lru cachedSanction;
  mc_cacheTTL : duration;
  mc_maxSize : Z;
}.

Definition DefaultMaxCacheSize : Z := 10000.

Inductive CacheOption := WithMaxSize (size : Z).
Definition apply_cache_option (c : InMemoryCache) (o : CacheOption) : InMemoryCache :=
  match o with WithMaxSize n => mkCache (mc_citizens c) (mc_sanctions c) (mc_cacheTTL c) n end.

Definition NewInMemoryCache (cacheTTL : duration) (opts : list CacheOption) : InMemoryCache :=
  foldl apply_cache_option (mkCache lru_New lru_New cacheTTL DefaultMaxCacheSize) opts.

Abbreviation CA A := (ST InMemoryCache error A) (only parsing).

Definition with_citizens (l : lru cachedCitizen) (c : InMemoryCache) : InMemoryCache :=
  mkCache l (mc_sanctions c) (mc_cacheTTL c) (mc_maxSize c).
Definition with_sanctions (l : lru cachedSanction) (c : InMemoryCache) : InMemoryCache :=
  mkCache (mc_citizens c) l (mc_cacheTTL c) (mc_maxSize c).

(** A nil record is [None]. *)
Definition SaveCitizen (now : time) (key : string) (record : option models_CitizenRecord) (regulated : bool)
    : CA unit := fun c =>
  match record with
  | None => (Ok tt, c)
  | Some record =>
      if str_empty key then (Err (EOther "cannot cache citizen record with nil key"), c)
      else (Ok tt, with_citizens (cache_save (mc_maxSize c) key (mkCC record now regulated) (mc_citizens c)) c)
  end.

Definition citizen_usable (regulated : bool) (x : cachedCitizen) : bool := Bool.eqb (cc_regulated x) regulated.

Definition FindCitizen (now : time) (nationalID : string) (regulated : bool) : CA models_CitizenRecord := fun c =>
  let '(r, l) := cache_find cc_storedAt (mc_cacheTTL c) (citizen_usable regulated) nationalID now (mc_citizens c) in
  (match r with Some x => Ok (cc_record x) | None => Err (EVal ErrCacheNotFound) end, with_citizens l c).

Definition SaveSanction (now : time) (key : string) (record : option models_SanctionsRecord) : CA unit := fun c =>
  match record with
  | None => (Ok tt, c)
  | Some record =>
      if str_empty key then (Err (EOther "cannot cache sanction record with nil key"), c)
      else (Ok tt, with_sanctions (cache_save (mc_maxSize c) key (mkCSn record now) (mc_sanctions c)) c)
  end.

Definition FindSanction (now : time) (nationalID : string) : CA models_SanctionsRecord := fun c =>
  let '(r, l) := cache_find cs_storedAt (mc_cacheTTL c) (fun _ => true) nationalID now (mc_sanctions c) in
  (match r with Some x => Ok (cs_record x) | None => Err (EVal ErrCacheNotFound) end, with_sanctions l c).

Definition Cache_Size (c : InMemoryCache) : nat * nat := (lru_Len (mc_citizens c), lru_Len (mc_sanctions c)).

(** [list.Init] forgets the elements; their addresses are not reused. *)
Definition ClearAll (c : InMemoryCache) : InMemoryCache :=
  mkCache (mkLRU ∅ [] (lru_next (mc_citizens c))) (mkLRU ∅ [] (lru_next (mc_sanctions c)))
    (mc_cacheTTL c) (mc_maxSize c).

(** *** Histories of both caches *)

Inductive registry_cache_op :=
| OpSaveCitizen (now : time) (key : string) (record : option models_CitizenRecord) (regulated : bool)
| OpFindCitizen (now : time) (key : string) (regulated : bool)
| OpSaveSanction (now : time) (key : string) (record : option models_SanctionsRecord)
| OpFindSanction (now : time) (key : string)
| OpClearAll.

Definition registry_cache_step (c : InMemoryCache) (op : registry_cache_op) : InMemoryCache :=
  match op with
  | OpSaveCitizen now k r reg => (SaveCitizen now k r reg c).2
  | OpFindCitizen now k reg => (FindCitizen now k reg c).2
  | OpSaveSanction now k r => (SaveSanction now k r c).2
  | OpFindSanction now k => (FindSanction now k c).2
  | OpClearAll => ClearAll c
  end.

Definition registry_cache_run (c : InMemoryCache) (ops : list registry_cache_op) : InMemoryCache :=
  foldl registry_cache_step c ops.

(** What an operation means for one of the caches. *)
Definition on_citizens (op : registry_cache_op) : option (cache_op (V := cachedCitizen)) :=
  match op with
  | OpSaveCitizen now k (Some r) reg => if str_empty k then None else Some (CSave k (mkCC r now reg))
  | OpFindCitizen now k reg => Some (CFind k (citizen_usable reg) now)
  | OpClearAll => Some CClear
  | _ => None
  end.
Definition on_sanctions (op : registry_cache_op) : option (cache_op (V := cachedSanction)) :=
  match op with
  | OpSaveSanction now k (Some r) => if str_empty k then None else Some (CSave k (mkCSn r now))
  | OpFindSanction now k => Some (CFind k (fun _ => true) now)
  | OpClearAll => Some CClear
  | _ => None
  end.

(** The records last saved under each key since the last clearing. *)
Definition last_citizens (ops : list registry_cache_op) : gmap string cachedCitizen :=
  table_run ∅ (omap on_citizens ops).
Definition last_sanctions (ops : list registry_cache_op) : gmap string cachedSanction :=
  table_run ∅ (omap on_sanctions ops).

Lemma registry_cache_run_parts c ops :
  let c' := registry_cache_run c ops in
  mc_citizens c' = cache_run cc_storedAt (mc_cacheTTL c) (mc_maxSize c) (mc_citizens c) (omap on_citizens ops) /\
  mc_sanctions c' = cache_run cs_storedAt (mc_cacheTTL c) (mc_maxSize c) (mc_sanctions c) (omap on_sanctions ops) /\
  mc_cacheTTL c' = mc_cacheTTL c /\ mc_maxSize c' = mc_maxSize c.
Proof.
  revert c. induction ops as [|op ops IH]; intros c; [done|]. simpl.
  destruct (IH (registry_cache_step c op)) as (-> & -> & -> & ->).
  destruct op as [now k [r|] reg|now k reg|now k [r|]|now k|]; simpl; unfold SaveCitizen, SaveSanction, FindCitizen, FindSanction; simpl;
    try done; try (destruct (str_empty k); done).
  - unfold cache_run at 1 3. simpl. by destruct (cache_find cc_storedAt _ _ _ _ _).
  - unfold cache_run at 2 4. simpl. by destruct (cache_find cs_storedAt _ _ _ _ _).
Qed.

Lemma NewInMemoryCache_parts ttl opts :
  mc_citizens (NewInMemoryCache ttl opts) = lru_New /\ mc_sanctions (NewInMemoryCache ttl opts) = lru_New /\
  mc_cacheTTL (NewInMemoryCache ttl opts) = ttl.
Proof.
  unfold NewInMemoryCache. set (c := mkCache lru_New lru_New ttl DefaultMaxCacheSize).
  assert (mc_citizens c = lru_New /\ mc_sanctions c = lru_New /\ mc_cacheTTL c = ttl) as H by done.
  revert H. generalize c. clear c. induction opts as [|[n] opts IH]; intros c H; [done|]. by apply IH.
Qed.

Lemma registry_cache_inv ttl opts ops :
  let c := registry_cache_run (NewInMemoryCache ttl opts) ops in
  cache_inv (mc_maxSize c) (mc_citizens c) (last_citizens ops) /\
  cache_inv (mc_maxSize c) (mc_sanctions c) (last_sanctions ops) /\ mc_cacheTTL c = ttl /\
  mc_maxSize c = mc_maxSize (NewInMemoryCache ttl opts).
Proof.
  simpl. destruct (registry_cache_run_parts (NewInMemoryCache ttl opts) ops) as (-> & -> & -> & ->).
  destruct (NewInMemoryCache_parts ttl opts) as (-> & -> & ->).
  split_and!; try done; apply cache_run_inv, cache_New_inv.
Qed.

(** ** Properties *)

(** C33: The registry cache never serves a wrong or stale record.  After any
    history of saves, lookups and clearings, a hit is the record last saved under
    that very key since the last clearing, it was stored less than the time to
    live ago, and a citizen record was stored in the regulated mode asked for; and
    neither cache exceeds its maximum size. *)
Theorem registry_cache_hits_exact (ttl : duration) (opts : list CacheOption) (ops : list registry_cache_op) :
  let c := registry_cache_run (NewInMemoryCache ttl opts) ops in
  (forall now k reg r, (FindCitizen now k reg c).1 = Ok r ->
     exists t, last_citizens ops !! k = Some (mkCC r t reg) /\ (time_Sub now t < ttl)%Z) /\
  (forall now k r, (FindSanction now k c).1 = Ok r ->
     exists t, last_sanctions ops !! k = Some (mkCSn r t) /\ (time_Sub now t < ttl)%Z) /\
  (Z.of_nat (Cache_Size c).1 <= Z.max 1 (mc_maxSize c))%Z /\ (Z.of_nat (Cache_Size c).2 <= Z.max 1 (mc_maxSize c))%Z.
Proof.
  cbv zeta. destruct (registry_cache_inv ttl opts ops) as (Hc & Hs & Httl & _).
  set (c := registry_cache_run _ _) in *. unfold Cache_Size, FindCitizen, FindSanction. rewrite Httl. split_and!.
  - intros now k reg r. destruct (cache_find _ _ _ _ _ _) as [[x|] l] eqn:E; simpl; [|done]. intros [= <-].
    destruct (cache_hit cc_storedAt ttl (mc_maxSize c) (citizen_usable reg) k now _ _ x Hc) as (H1 & H2 & H3); [by rewrite E|].
    apply Bool.eqb_prop in H2. exists (cc_storedAt x). split; [|done]. rewrite H1, <- H2. by destruct x.
  - intros now k r. destruct (cache_find _ _ _ _ _ _) as [[x|] l] eqn:E; simpl; [|done]. intros [= <-].
    destruct (cache_hit cs_storedAt ttl (mc_maxSize c) (fun _ => true) k now _ _ x Hs) as (H1 & _ & H3); [by rewrite E|].
    exists (cs_storedAt x). split; [|done]. rewrite H1. by destruct x.
  - simpl. rewrite lru_Len_abs. apply Hc.
  - simpl. rewrite lru_Len_abs. apply Hs.
Qed.

(** An operation that neither saves [k]'s citizen record anew nor clears the
    cache, and looks citizens up only while a record stored at [t] is fresh. *)
Definition spares_citizen (ttl : duration) (k : string) (t : time) (op : registry_cache_op) : Prop :=
  match op with
  | OpSaveCitizen _ k' (Some _) _ => k' <> k
  | OpFindCitizen now _ _ => (time_Sub now t < ttl)%Z
  | OpClearAll => False
  | _ => True
  end.

(** The cache is worth having: a citizen record saved in a mode is found again
    in that mode until its time to live is over, whatever other lookups and saves
    of both kinds run in between, as long as fewer than [maxSize] of them concern
    citizens; a lookup in the other mode never returns it. *)
Theorem registry_cache_retains (ttl : duration) (opts : list CacheOption) (before after : list registry_cache_op)
    (k : string) (r : models_CitizenRecord) (reg : bool) (t now : time) :
  k <> "" -> Forall (spares_citizen ttl k t) after ->
  (Z.of_nat (length (omap on_citizens after)) < mc_maxSize (NewInMemoryCache ttl opts))%Z ->
  (time_Sub now t < ttl)%Z ->
  let c := registry_cache_run (NewInMemoryCache ttl opts) (before ++ OpSaveCitizen t k (Some r) reg :: after) in
  (FindCitizen now k reg c).1 = Ok r /\ (FindCitizen now k (negb reg) c).1 = Err (EVal ErrCacheNotFound).
Proof.
  intros Hk Hsp Hn Hf. cbv zeta.
  destruct (registry_cache_inv ttl opts before) as (Hc & _ & Httl & Hmax).
  unfold registry_cache_run. rewrite foldl_app. fold (registry_cache_run (NewInMemoryCache ttl opts) before).
  set (c := registry_cache_run _ before) in *. cbn [foldl]. fold (registry_cache_run (registry_cache_step c (OpSaveCitizen t k (Some r) reg)) after).
  destruct (registry_cache_run_parts (registry_cache_step c (OpSaveCitizen t k (Some r) reg)) after) as (Hp & _ & Hp2 & _).
  set (c' := registry_cache_run _ after) in *. unfold FindCitizen. rewrite Hp2, Hp. simpl.
  unfold SaveCitizen, str_empty. rewrite (bool_decide_eq_false_2 (k = "")) by done. simpl. rewrite Httl, Hmax. rewrite Hmax in Hc.
  assert (Forall (spares cc_storedAt ttl k (mkCC r t reg)) (omap on_citizens after)) as Hsp'.
  { apply Forall_forall. intros x (op & Hop & Hx)%list_elem_of_omap. rewrite Forall_forall in Hsp. specialize (Hsp op Hop).
    destruct op as [? ? [?|] ?|? ? ?|? ? ?|? ?|]; simpl in *; simplify_eq; try done. case_match; simplify_eq. done. }
  pose proof (cache_retains cc_storedAt ttl _ k (mkCC r t reg) _ _ (omap on_citizens after) (citizen_usable reg) now Hc Hsp' Hn) as H1.
  specialize (H1 ltac:(unfold citizen_usable; simpl; apply eqb_reflx) Hf).
  clear Hp Hp2. set (d := cache_run _ _ _ _ _) in *. split.
  - destruct (cache_find _ _ _ _ _ d) as [x l]. simpl in *. by rewrite H1.
  - assert (lru_map d !! k <> None) as Hd by (intros Hn'; unfold cache_find in H1; by rewrite Hn' in H1).
    unfold cache_find in H1 |- *. destruct (lru_map d !! k); [|done]. destruct (elem_value _ d) as [[k' v]|]; [|done].
    destruct (ttl <=? _)%Z; [done|]. destruct (citizen_usable reg v) eqn:Hu; simpl in H1; [|done].
    unfold citizen_usable in *. apply Bool.eqb_prop in Hu. rewrite Hu. by destruct reg.
Qed.

(** *** Witness *)

Module CacheExample.
Definition rec : models_CitizenRecord := mkCR "" "" "" "" true "gov" 3.
Definition cache : InMemoryCache := NewInMemoryCache 100 [WithMaxSize 2].
End CacheExample.

Lemma registry_cache_retains_witness :
  let c := registry_cache_run CacheExample.cache
    ([OpSaveCitizen 1 "B22222" (Some CacheExample.rec) false] ++
     OpSaveCitizen 5 "A11111" (Some CacheExample.rec) true :: [OpFindCitizen 7 "B22222" false]) in
  (FindCitizen 50 "A11111" true c).1 = Ok CacheExample.rec /\
  (FindCitizen 50 "A11111" false c).1 = Err (EVal ErrCacheNotFound).
Proof.
  apply (registry_cache_retains 100 [WithMaxSize 2] [OpSaveCitizen 1 "B22222" (Some CacheExample.rec) false]
    [OpFindCitizen 7 "B22222" false] "A11111" CacheExample.rec true 5 50).
  - discriminate.
  - repeat constructor.
  - vm_compute. reflexivity.
  - vm_compute. reflexivity.
Defined.
