(* ===== verification/Registry.v ===== *)
(** * Registry evidence
    [internal/evidence/registry/providers/provider.go],
    [internal/evidence/registry/providers/adapters/http.go],
    [internal/evidence/registry/providers/citizen/citizen.go],
    [internal/evidence/registry/providers/sanctions/sanctions.go],
    [internal/evidence/registry/domain/],
    [internal/evidence/registry/service/converter.go], [pkg/domain/ids.go]

    Evidence records, the HTTP providers that produce them, the domain aggregates
    with their invariants, and the conversions between the two.  A [float64] is a
    [spec_float] with IEEE 754 comparisons.  The HTTP client, [encoding/json] and
    the timestamp parser are arguments.  Tracing is not modelled. *)
From Stdlib Require Import SpecFloat Ascii.
From S2P Require Import Prelude Errors LRU RegistryCache.
Open Scope Z_scope.

(** ** Floating point *)

Abbreviation float64 := spec_float (only parsing).
Definition float_zero : float64 := S754_zero false.
Definition float_one : float64 := S754_finite false 4503599627370496 (-52).

#[global] Instance spec_float_eq_dec : EqDecision spec_float.
Proof. solve_decision. Defined.

(** ** National identifiers *)

Definition is_upper_alnum (a : ascii) : bool :=
  let n := Z.of_N (N_of_ascii a) in ((65 <=? n) && (n <=? 90)) || ((48 <=? n) && (n <=? 57)).

(** [regexp.MustCompile("^[A-Z0-9]{6,20}$").MatchString]. *)
Definition nationalIDPattern (s : string) : bool :=
  (6 <=? String.length s)%nat && (String.length s <=? 20)%nat
  && forallb is_upper_alnum (String.list_ascii_of_string s).

(** The zero [NationalID] is the empty string. *)
Definition ParseNationalID (s : string) : res string :=
  if str_empty s then Err (New CodeInvalidInput "national_id is required")
  else if negb (nationalIDPattern s)
  then Err (New CodeInvalidInput "national_id has invalid format: must be 6-20 alphanumeric characters")
  else Ok s.

Definition NationalID_IsNil (s : string) : bool := str_empty s.

Lemma ParseNationalID_Ok s n : ParseNationalID s = Ok n -> n = s /\ nationalIDPattern s = true /\ NationalID_IsNil n = false.
Proof.
  unfold ParseNationalID, NationalID_IsNil. destruct (str_empty s) eqn:He; [done|].
  destruct (nationalIDPattern s); simpl; [|done]. by intros [= <-].
Qed.

(** ** Evidence *)

(** Values of [map[string]any], with the type name [%T] prints. *)
Inductive goany := AnyString (s : string) | AnyBool (b : bool) | AnyOther (typ : string).

Definition goany_type (v : goany) : string :=
  match v with AnyString _ => "string" | AnyBool _ => "bool" | AnyOther t => t end.

Abbreviation ProviderType := string (only parsing).
Definition ProviderTypeCitizen : ProviderType := "citizen".
Definition ProviderTypeSanctions : ProviderType := "sanctions".
Definition ProviderTypeBiometric : ProviderType := "biometric".
Definition ProviderTypeDocument : ProviderType := "document".
Definition ProviderTypeWallet : ProviderType := "wallet".

Record Evidence := mkEv {
  ev_ProviderID : string;
  ev_ProviderType : ProviderType;
  ev_Confidence : float64;
  ev_Data : gmap string goany;
  ev_CheckedAt : time;
  ev_Metadata : gmap string string;
}.

Record FieldCapability := mkField { fc_FieldName : string; fc_Available : bool; fc_Filterable : bool }.
Record Capabilities := mkCaps {
  cap_Protocol : string;
  cap_Type : ProviderType;
  cap_Fields : list FieldCapability;
  cap_Version : string;
  cap_Filters : list string;
}.

(** ** Shared domain primitives *)

Definition ErrInvalidConfidence : error := EOther "invalid confidence: must be between 0.0 and 1.0".

Definition Confidence_New (value : float64) : res float64 :=
  if SFltb value float_zero || SFltb float_one value then Err ErrInvalidConfidence else Ok value.
Definition Confidence_Authoritative : float64 := float_one.
Definition Confidence_IsAuthoritative (c : float64) : bool := SFeqb c float_one.

Definition CheckedAt_IsExpiredAt (checkedAt now : time) (ttl : duration) : bool := ttl <? time_Sub now checkedAt.
Definition CheckedAt_IsFreshAt (checkedAt now : time) (ttl : duration) : bool :=
  negb (CheckedAt_IsExpiredAt checkedAt now ttl).

(** ** The citizen aggregate *)

Record PersonalDetails := mkDetails { pd_FullName : string; pd_DateOfBirth : string; pd_Address : string }.
Definition PersonalDetails_IsEmpty (p : PersonalDetails) : bool :=
  str_empty (pd_FullName p) && str_empty (pd_DateOfBirth p) && str_empty (pd_Address p).

Record VerificationStatus := mkVStatus { vs_Valid : bool; vs_CheckedAt : time }.

Record CitizenVerification := mkCV {
  cv_nationalID : string;
  cv_details : PersonalDetails;
  cv_status : VerificationStatus;
  cv_providerID : string;
  cv_confidence : float64;
  cv_minimized : bool;
}.

Definition errMissingNationalID : error := EOther "national_id is required".
Definition errMissingSource : error := EOther "source is required".
Definition errMissingCheckedAt : error := EOther "checked_at is required".
Definition errMissingProviderID : error := EOther "provider_id is required".

Definition Citizen_New (nationalID : string) (details : PersonalDetails) (valid : bool) (checkedAt : time)
    (providerID : string) (confidence : float64) : res CitizenVerification :=
  if NationalID_IsNil nationalID then Err errMissingNationalID
  else if time_IsZero checkedAt then Err errMissingCheckedAt
  else if str_empty providerID then Err errMissingProviderID
  else Ok (mkCV nationalID details (mkVStatus valid checkedAt) providerID confidence false).

Definition Citizen_Minimized (c : CitizenVerification) : CitizenVerification :=
  mkCV (cv_nationalID c) (mkDetails "" "" "") (cv_status c) (cv_providerID c) (cv_confidence c) true.

Definition Citizen_WithoutNationalID (c : CitizenVerification) : CitizenVerification :=
  let m := Citizen_Minimized c in
  mkCV "" (cv_details m) (cv_status m) (cv_providerID m) (cv_confidence m) (cv_minimized m).

(** ** The sanctions aggregate *)

(** A string type: a cast may produce any value. *)
Abbreviation ListType := string (only parsing).
Definition ListTypeNone : ListType := "".
Definition ListTypeSanctions : ListType := "sanctions".
Definition ListTypePEP : ListType := "pep".
Definition ListTypeWatchlist : ListType := "watchlist".
Definition ListType_IsValid (l : ListType) : bool :=
  slices_Contains [ListTypeNone; ListTypeSanctions; ListTypePEP; ListTypeWatchlist] l.

Record ListingDetails := mkListing { ld_ListType : ListType; ld_Reason : string; ld_ListedDate : string }.
Definition ListingDetails_IsEmpty (l : ListingDetails) : bool :=
  bool_decide (ld_ListType l = ListTypeNone) && str_empty (ld_Reason l) && str_empty (ld_ListedDate l).

Record SanctionsCheck := mkSC {
  sck_nationalID : string;
  sck_listed : bool;
  sck_details : ListingDetails;
  sck_source : string;
  sck_checkedAt : time;
  sck_providerID : string;
  sck_confidence : float64;
}.

Definition NewSanctionsCheck (nationalID source : string) (checkedAt : time) (providerID : string)
    (confidence : float64) : res SanctionsCheck :=
  if NationalID_IsNil nationalID then Err errMissingNationalID
  else if str_empty source then Err errMissingSource
  else if time_IsZero checkedAt then Err errMissingCheckedAt
  else if str_empty providerID then Err errMissingProviderID
  else Ok (mkSC nationalID false (mkListing ListTypeNone "" "") source checkedAt providerID confidence).

Definition NewListedSanctionsCheck (nationalID : string) (listType : ListType) (reason listedDate source : string)
    (checkedAt : time) (providerID : string) (confidence : float64) : res SanctionsCheck :=
  if NationalID_IsNil nationalID then Err errMissingNationalID
  else if str_empty source then Err errMissingSource
  else if time_IsZero checkedAt then Err errMissingCheckedAt
  else if str_empty providerID then Err errMissingProviderID
  else if negb (bool_decide (listType = ListTypeNone)) && negb (ListType_IsValid listType)
  then Err (EOther "invalid list type")
  else
    let listType := if bool_decide (listType = ListTypeNone) then ListTypeSanctions else listType in
    Ok (mkSC nationalID true (mkListing listType reason listedDate) source checkedAt providerID confidence).

Definition Check_IsSanctioned (s : SanctionsCheck) : bool :=
  sck_listed s && bool_decide (ld_ListType (sck_details s) = ListTypeSanctions).
Definition Check_IsPEP (s : SanctionsCheck) : bool :=
  sck_listed s && bool_decide (ld_ListType (sck_details s) = ListTypePEP).
Definition Check_IsOnWatchlist (s : SanctionsCheck) : bool :=
  sck_listed s && bool_decide (ld_ListType (sck_details s) = ListTypeWatchlist).
Definition Check_RequiresEnhancedDueDiligence (s : SanctionsCheck) : bool := sck_listed s.

(** The documented invariants of the aggregates. *)
Record citizen_ok (c : CitizenVerification) : Prop := {
  cok_id : NationalID_IsNil (cv_nationalID c) = false;
  cok_checked : time_IsZero (vs_CheckedAt (cv_status c)) = false;
  cok_provider : str_empty (cv_providerID c) = false;
  cok_minimized : cv_minimized c = true -> PersonalDetails_IsEmpty (cv_details c) = true;
}.

Record sanctions_ok (s : SanctionsCheck) : Prop := {
  sok_id : NationalID_IsNil (sck_nationalID s) = false;
  sok_source : str_empty (sck_source s) = false;
  sok_checked : time_IsZero (sck_checkedAt s) = false;
  sok_provider : str_empty (sck_providerID s) = false;
  sok_listed : sck_listed s = true ->
    ListType_IsValid (ld_ListType (sck_details s)) = true /\ ld_ListType (sck_details s) <> ListTypeNone;
  sok_clear : sck_listed s = false -> ListingDetails_IsEmpty (sck_details s) = true;
}.

Lemma Citizen_New_ok n d v t p c cv : Citizen_New n d v t p c = Ok cv -> citizen_ok cv.
Proof. unfold Citizen_New. intros H. repeat case_match; simplify_eq. by split. Qed.

Lemma Citizen_Minimized_ok c : citizen_ok c -> citizen_ok (Citizen_Minimized c).
Proof. intros [? ? ? ?]. by split. Qed.

Lemma NewSanctionsCheck_ok n src t p c s : NewSanctionsCheck n src t p c = Ok s -> sanctions_ok s /\ sck_listed s = false.
Proof. unfold NewSanctionsCheck. intros H. repeat case_match; simplify_eq. split; [by split|done]. Qed.

Lemma NewListedSanctionsCheck_ok n lt r d src t p c s :
  NewListedSanctionsCheck n lt r d src t p c = Ok s -> sanctions_ok s /\ sck_listed s = true.
Proof.
  unfold NewListedSanctionsCheck. intros H.
  destruct (NationalID_IsNil n) eqn:?, (str_empty src) eqn:?, (time_IsZero t) eqn:?, (str_empty p) eqn:?; try done.
  case_bool_decide as Hl; simpl in H; [simplify_eq; split; [by split|done]|].
  destruct (ListType_IsValid lt) eqn:Hv; [|done]. injection H as <-. split; [by split|done].
Qed.

(** ** Conversions *)

Definition getRequiredString (data : gmap string goany) (key : string) : res string :=
  match data !! key with
  | None => Err (New CodeBadRequest ("required field missing: " +:+ key))
  | Some (AnyString s) => Ok s
  | Some v => Err (New CodeBadRequest ("field " +:+ key +:+ " has wrong type: expected string, got " +:+ goany_type v))
  end.

Definition getRequiredBool (data : gmap string goany) (key : string) : res bool :=
  match data !! key with
  | None => Err (New CodeBadRequest ("required field missing: " +:+ key))
  | Some (AnyBool b) => Ok b
  | Some v => Err (New CodeBadRequest ("field " +:+ key +:+ " has wrong type: expected bool, got " +:+ goany_type v))
  end.

Definition getString (data : gmap string goany) (key : string) : string :=
  match data !! key with Some (AnyString s) => s | _ => "" end.

(** [dErrors.Wrap] of an error of a call. *)
Definition wrap_err {A} (r : res A) (c : Code) (msg : string) : res A :=
  match r with Ok a => Ok a | Err e => Err (Wrap e c msg) end.

Definition wrong_provider_type (expected got : string) : error :=
  New CodeBadRequest ("wrong provider type: expected " +:+ expected +:+ ", got " +:+ got).

Definition EvidenceToCitizenVerification (ev : option Evidence) : res CitizenVerification :=
  match ev with
  | None => Err (New CodeBadRequest "evidence is nil")
  | Some ev =>
      if negb (bool_decide (ev_ProviderType ev = ProviderTypeCitizen))
      then Err (wrong_provider_type ProviderTypeCitizen (ev_ProviderType ev))
      else
        nationalIDStr ← wrap_err (getRequiredString (ev_Data ev) "national_id") CodeBadRequest "invalid provider response";
        nationalID ← wrap_err (ParseNationalID nationalIDStr) CodeBadRequest "invalid national_id format";
        confidence ← wrap_err (Confidence_New (ev_Confidence ev)) CodeBadRequest "invalid confidence value";
        valid ← wrap_err (getRequiredBool (ev_Data ev) "valid") CodeBadRequest "invalid provider response";
        wrap_err
          (Citizen_New nationalID
             (mkDetails (getString (ev_Data ev) "full_name") (getString (ev_Data ev) "date_of_birth")
                (getString (ev_Data ev) "address"))
             valid (ev_CheckedAt ev) (ev_ProviderID ev) confidence)
          CodeBadRequest "invalid citizen verification"
  end.

Definition EvidenceToSanctionsCheck (ev : option Evidence) : res SanctionsCheck :=
  match ev with
  | None => Err (New CodeBadRequest "evidence is nil")
  | Some ev =>
      if negb (bool_decide (ev_ProviderType ev = ProviderTypeSanctions))
      then Err (wrong_provider_type ProviderTypeSanctions (ev_ProviderType ev))
      else
        nationalIDStr ← wrap_err (getRequiredString (ev_Data ev) "national_id") CodeBadRequest "invalid provider response";
        nationalID ← wrap_err (ParseNationalID nationalIDStr) CodeBadRequest "invalid national_id format";
        confidence ← wrap_err (Confidence_New (ev_Confidence ev)) CodeBadRequest "invalid confidence value";
        listed ← wrap_err (getRequiredBool (ev_Data ev) "listed") CodeBadRequest "invalid provider response";
        let source := getString (ev_Data ev) "source" in
        if listed : bool then
          wrap_err (NewListedSanctionsCheck nationalID ListTypeSanctions "" "" source (ev_CheckedAt ev)
                      (ev_ProviderID ev) confidence) CodeBadRequest "invalid sanctions check"
        else
          wrap_err (NewSanctionsCheck nationalID source (ev_CheckedAt ev) (ev_ProviderID ev) confidence)
            CodeBadRequest "invalid sanctions check"
  end.

Definition CitizenVerificationToRecord (cv : CitizenVerification) : models_CitizenRecord :=
  mkCR (cv_nationalID cv) (pd_FullName (cv_details cv)) (pd_DateOfBirth (cv_details cv)) (pd_Address (cv_details cv))
    (vs_Valid (cv_status cv)) (cv_providerID cv) (vs_CheckedAt (cv_status cv)).

Definition SanctionsCheckToRecord (sc : SanctionsCheck) : models_SanctionsRecord :=
  mkSR (sck_nationalID sc) (sck_listed sc) (sck_source sc) (sck_checkedAt sc).

Definition EvidenceToCitizenRecord (ev : option Evidence) : res models_CitizenRecord :=
  verification ← EvidenceToCitizenVerification ev; Ok (CitizenVerificationToRecord verification).
Definition EvidenceToSanctionsRecord (ev : option Evidence) : res models_SanctionsRecord :=
  check ← EvidenceToSanctionsCheck ev; Ok (SanctionsCheckToRecord check).

Lemma wrap_err_Ok {A} (r : res A) c msg a : wrap_err r c msg = Ok a <-> r = Ok a.
Proof. destruct r; simpl; split; intros; simplify_eq; done. Qed.

Lemma wrap_err_Err {A} (r : res A) c msg e : wrap_err r c msg = Err e -> exists e', r = Err e' /\ e = Wrap e' c msg.
Proof. destruct r; simpl; intros; simplify_eq. eauto. Qed.

Lemma result_bind_Ok {A B} (r : res A) (f : A -> res B) b : (r ≫= f) = Ok b <-> exists a, r = Ok a /\ f a = Ok b.
Proof. destruct r as [a|e]; unfold mbind, result_bind; split; [eauto|naive_solver|done|naive_solver]. Qed.

Lemma getRequiredBool_Ok data key b : getRequiredBool data key = Ok b <-> data !! key = Some (AnyBool b).
Proof. unfold getRequiredBool. destruct (data !! key) as [[]|]; split; intros; simplify_eq; done. Qed.
Lemma getRequiredString_Ok data key s : getRequiredString data key = Ok s <-> data !! key = Some (AnyString s).
Proof. unfold getRequiredString. destruct (data !! key) as [[]|]; split; intros; simplify_eq; done. Qed.

(** ** HTTP providers *)

(** What [client.Do] and reading the body may come to.  [DoFailed true] is a
    failure with the context's deadline exceeded. *)
Inductive http_outcome :=
| DoFailed (deadline : bool) (e : error)
| ReadFailed (status : Z) (e : error)
| Responded (status : Z) (body : string).

Definition MaxResponseSize : Z := 10 * 1024 * 1024.

Section http.
(** [json.Marshal] of the filters, [http.NewRequest]'s check of the URL, and the
    service itself. *)
Context (json_Marshal : gmap string string -> res string) (check_url : string -> res unit).
Context {W : Type} (http_Do : string -> string -> ST W error http_outcome).

Record HTTPAdapter := mkHTTP {
  ha_id : string;
  ha_baseURL : string;
  ha_apiKey : string;
  ha_capabs : Capabilities;
  ha_parser : Z -> string -> res Evidence;
}.

Definition buildRequest (a : HTTPAdapter) (filters : gmap string string) : res (string * string) :=
  match json_Marshal filters with
  | Err e => Err (NewProviderError ErrorBadData (ha_id a) "failed to marshal request" (Some e))
  | Ok body =>
      let url := ha_baseURL a +:+ "/lookup" in
      match check_url url with
      | Err e => Err (NewProviderError ErrorInternal (ha_id a) "failed to create request" (Some e))
      | Ok _ => Ok (url, body)
      end
  end.

(** The body is read up to one byte beyond the limit. *)
Definition executeRequest (a : HTTPAdapter) (o : http_outcome) : res (Z * string) :=
  match o with
  | DoFailed true e => Err (NewProviderError ErrorTimeout (ha_id a) "request timeout" (Some e))
  | DoFailed false e => Err (NewProviderError ErrorProviderOutage (ha_id a) "failed to execute request" (Some e))
  | ReadFailed _ e => Err (NewProviderError ErrorBadData (ha_id a) "failed to read response" (Some e))
  | Responded status body =>
      let body := String.substring 0 (Z.to_nat (MaxResponseSize + 1)) body in
      if MaxResponseSize <? Z.of_nat (String.length body)
      then Err (NewProviderError ErrorBadData (ha_id a)
                  ("response too large: exceeds " +:+ pretty MaxResponseSize +:+ " bytes") None)
      else Ok (status, body)
  end.

Definition checkStatusCode (a : HTTPAdapter) (status : Z) : res unit :=
  if (status =? 401) || (status =? 403)
  then Err (NewProviderError ErrorAuthentication (ha_id a) ("authentication failed: " +:+ pretty status) None)
  else if status =? 404 then Err (NewProviderError ErrorNotFound (ha_id a) "record not found" None)
  else if status =? 429 then Err (NewProviderError ErrorRateLimited (ha_id a) "rate limit exceeded" None)
  else if (status =? 503) || (status =? 504)
  then Err (NewProviderError ErrorProviderOutage (ha_id a) ("provider unavailable: " +:+ pretty status) None)
  else Ok tt.

Definition parseAndEnrich (a : HTTPAdapter) (now : time) (status : Z) (body : string) : res Evidence :=
  match ha_parser a status body with
  | Err e => Err (NewProviderError ErrorBadData (ha_id a) "failed to parse response" (Some e))
  | Ok ev =>
      Ok (mkEv (ha_id a) (cap_Type (ha_capabs a)) (ev_Confidence ev) (ev_Data ev)
            (if time_IsZero (ev_CheckedAt ev) then now else ev_CheckedAt ev) (ev_Metadata ev))
  end.

Definition HTTPAdapter_Lookup (a : HTTPAdapter) (now : time) (filters : gmap string string) : ST W error Evidence :=
  '(url, body) ← st_lift (buildRequest a filters);
  outcome ← http_Do url body;
  '(status, body) ← st_lift (executeRequest a outcome);
  _ ← st_lift (checkStatusCode a status);
  st_lift (parseAndEnrich a now status body).

(** [Health]: the answer of [GET baseURL/health]. *)
Definition HTTPAdapter_Health (a : HTTPAdapter) (answer : string -> res Z) : res unit :=
  let url := ha_baseURL a +:+ "/health" in
  _ ← check_url url;
  match answer url with
  | Err e => Err (NewProviderError ErrorProviderOutage (ha_id a) "health check failed" (Some e))
  | Ok status =>
      if negb (status =? 200)
      then Err (NewProviderError ErrorProviderOutage (ha_id a) ("unhealthy status: " +:+ pretty status) None)
      else Ok tt
  end.

(** *** Errors are categorised, evidence is stamped *)

(** Every failure of an adapter is a provider error that names the adapter; it is
    retryable exactly for time-outs, outages and rate limits. *)
Definition adapter_error (a : HTTPAdapter) (e : error) : Prop :=
  exists pe, errors_As_provider e = Some pe /\ pe_ProviderID pe = ha_id a /\
    (IsRetryable e = true <-> GetCategory e ∈ [ErrorTimeout; ErrorProviderOutage; ErrorRateLimited]).

Lemma NewProviderError_adapter a cat msg u : adapter_error a (NewProviderError cat (ha_id a) msg u).
Proof.
  unfold adapter_error, IsRetryable, GetCategory, NewProviderError.
  destruct u; (eexists; split; [done|]; split; [done|]); simpl;
    rewrite !orb_true_iff, !bool_decide_eq_true, !elem_of_cons, elem_of_nil; tauto.
Qed.

Lemma adapter_error_Err {A} a cat msg u e :
  @Err error A (NewProviderError cat (ha_id a) msg u) = Err e -> adapter_error a e.
Proof.
  intros H. assert (NewProviderError cat (ha_id a) msg u = e) as <- by congruence. apply NewProviderError_adapter.
Qed.

Lemma adapter_Lookup_Err a now filters (w w' : W) e :
  (forall url body v v' e', http_Do url body v <> (Err e', v')) ->
  HTTPAdapter_Lookup a now filters w = (Err e, w') -> adapter_error a e.
Proof.
  intros Hdo. unfold HTTPAdapter_Lookup.
  intros [[H _]%st_lift_Err|([url body0] & w1 & _ & H)]%st_bind_Err.
  { unfold buildRequest in H. repeat case_match; try discriminate H; by eapply adapter_error_Err. }
  apply st_bind_Err in H as [H|(o & w2 & _ & H)]; [by exfalso; eapply Hdo|].
  apply st_bind_Err in H as [[H _]%st_lift_Err|([status body] & w3 & _ & H)].
  { unfold executeRequest in H. repeat case_match; try discriminate H; by eapply adapter_error_Err. }
  apply st_bind_Err in H as [[H _]%st_lift_Err|([] & w4 & _ & [H _]%st_lift_Err)].
  - unfold checkStatusCode in H. repeat case_match; try discriminate H; by eapply adapter_error_Err.
  - unfold parseAndEnrich in H. repeat case_match; try discriminate H; by eapply adapter_error_Err.
Qed.

Lemma adapter_Lookup_Ok a now filters (w w' : W) ev :
  HTTPAdapter_Lookup a now filters w = (Ok ev, w') ->
  ev_ProviderID ev = ha_id a /\ ev_ProviderType ev = cap_Type (ha_capabs a) /\
  (time_IsZero now = false -> time_IsZero (ev_CheckedAt ev) = false) /\
  exists status body ev0, status <> 404 /\ ha_parser a status body = Ok ev0 /\
    ev_Confidence ev = ev_Confidence ev0 /\ ev_Data ev = ev_Data ev0.
Proof.
  unfold HTTPAdapter_Lookup. intros ([url body0] & w1 & H1 & H)%st_bind_Ok.
  apply st_bind_Ok in H as (o & w2 & _ & H). apply st_bind_Ok in H as ([status body] & w3 & _ & H).
  apply st_bind_Ok in H as ([] & w4 & Hc & H). unfold st_lift in Hc, H. injection Hc as Hc _. injection H as H _.
  unfold parseAndEnrich in H. destruct (ha_parser a status body) as [ev0|] eqn:Hp; [|done]. injection H as <-. simpl.
  split_and!; try done.
  - intros Hn. by destruct (time_IsZero (ev_CheckedAt ev0)) eqn:?.
  - exists status, body, ev0. split_and!; try done. intros ->. done.
Qed.

(** *** From the response to the record *)

Lemma EvidenceToSanctionsCheck_Ok ev c :
  EvidenceToSanctionsCheck (Some ev) = Ok c ->
  sanctions_ok c /\ ev_Data ev !! "listed" = Some (AnyBool (sck_listed c)) /\
  ev_Data ev !! "national_id" = Some (AnyString (sck_nationalID c)) /\ nationalIDPattern (sck_nationalID c) = true /\
  sck_source c = getString (ev_Data ev) "source" /\ sck_checkedAt c = ev_CheckedAt ev.
Proof.
  unfold EvidenceToSanctionsCheck. case_bool_decide as Ht; [|done]. simpl.
  intros (n0 & H1%wrap_err_Ok%getRequiredString_Ok & H)%result_bind_Ok.
  apply result_bind_Ok in H as (n & (-> & Hp & _)%wrap_err_Ok%ParseNationalID_Ok & H).
  apply result_bind_Ok in H as (cf & _ & H).
  apply result_bind_Ok in H as (l & H2%wrap_err_Ok%getRequiredBool_Ok & H).
  destruct l; apply wrap_err_Ok in H.
  - destruct (NewListedSanctionsCheck_ok _ _ _ _ _ _ _ _ _ H) as [Hok Hl]. rewrite Hl. split; [done|].
    unfold NewListedSanctionsCheck in H. repeat case_match; simplify_eq; done.
  - destruct (NewSanctionsCheck_ok _ _ _ _ _ _ H) as [Hok Hl]. rewrite Hl. split; [done|].
    unfold NewSanctionsCheck in H. repeat case_match; simplify_eq; done.
Qed.

Lemma EvidenceToCitizenVerification_Ok ev c :
  EvidenceToCitizenVerification (Some ev) = Ok c ->
  citizen_ok c /\ cv_minimized c = false /\ ev_Data ev !! "valid" = Some (AnyBool (vs_Valid (cv_status c))) /\
  ev_Data ev !! "national_id" = Some (AnyString (cv_nationalID c)) /\ nationalIDPattern (cv_nationalID c) = true.
Proof.
  unfold EvidenceToCitizenVerification. case_bool_decide as Ht; [|done]. simpl.
  intros (n0 & H1%wrap_err_Ok%getRequiredString_Ok & H)%result_bind_Ok.
  apply result_bind_Ok in H as (n & (-> & Hp & _)%wrap_err_Ok%ParseNationalID_Ok & H).
  apply result_bind_Ok in H as (cf & _ & H).
  apply result_bind_Ok in H as (v & H2%wrap_err_Ok%getRequiredBool_Ok & H%wrap_err_Ok).
  pose proof (Citizen_New_ok _ _ _ _ _ _ _ H) as Hok. unfold Citizen_New in H. repeat case_match; simplify_eq. done.
Qed.

(** *** The citizen and sanctions registries *)

Record citizenHTTPResponse := mkCitizenResp {
  chr_NationalID : string; chr_FullName : string; chr_DateOfBirth : string; chr_Address : string;
  chr_Valid : bool; chr_CheckedAt : string;
}.
Record sanctionsHTTPResponse := mkSanctionsResp {
  shr_NationalID : string; shr_Listed : bool; shr_Source : string; shr_CheckedAt : string;
}.

(** [json.Unmarshal] into the two structs, and [time.Parse(time.RFC3339)]. *)
Context (parse_rfc3339 : string -> option time).
Context (unmarshal_citizen : string -> res citizenHTTPResponse) (unmarshal_sanctions : string -> res sanctionsHTTPResponse).

Definition unexpected_status (status : Z) : error := EOther ("unexpected status code: " +:+ pretty status).

Definition parseCitizenResponse (status : Z) (body : string) : res Evidence :=
  if negb (status =? 200) then Err (unexpected_status status)
  else
    match unmarshal_citizen body with
    | Err e => Err (EWrap "failed to unmarshal citizen response" e)
    | Ok resp =>
        Ok (mkEv "" ProviderTypeCitizen float_one
              (list_to_map [("national_id", AnyString (chr_NationalID resp)); ("full_name", AnyString (chr_FullName resp));
                            ("date_of_birth", AnyString (chr_DateOfBirth resp)); ("address", AnyString (chr_Address resp));
                            ("valid", AnyBool (chr_Valid resp))])
              (default zero_time (parse_rfc3339 (chr_CheckedAt resp))) ∅)
    end.

Definition parseSanctionsResponse (status : Z) (body : string) : res Evidence :=
  if negb (status =? 200) then Err (unexpected_status status)
  else
    match unmarshal_sanctions body with
    | Err e => Err (EWrap "failed to unmarshal sanctions response" e)
    | Ok resp =>
        Ok (mkEv "" ProviderTypeSanctions float_one
              (list_to_map [("national_id", AnyString (shr_NationalID resp)); ("listed", AnyBool (shr_Listed resp));
                            ("source", AnyString (shr_Source resp))])
              (default zero_time (parse_rfc3339 (shr_CheckedAt resp))) ∅)
    end.

Definition Citizen_Provider (id baseURL apiKey : string) : HTTPAdapter :=
  mkHTTP id baseURL apiKey
    (mkCaps "http" ProviderTypeCitizen
       [mkField "full_name" true false; mkField "date_of_birth" true false; mkField "address" true false; mkField "valid" true false]
       "v1.0.0" ["national_id"])
    parseCitizenResponse.

Definition Sanctions_Provider (id baseURL apiKey : string) : HTTPAdapter :=
  mkHTTP id baseURL apiKey
    (mkCaps "http" ProviderTypeSanctions [mkField "listed" true false; mkField "source" true false] "v1.0.0" ["national_id"])
    parseSanctionsResponse.

(** From a sanctions registry's response to the record the service works
    with, nothing is lost or invented.  A failed call is a provider error of that
    registry, retryable exactly for time-outs, outages and rate limits.  A
    successful one converts to a record unless the response carries a malformed
    national identifier or no source, and then the record says listed exactly
    when the response does; the aggregate in between satisfies the documented
    invariants. *)
Theorem sanctions_pipeline_exact (id baseURL apiKey : string) (now : time) (filters : gmap string string) (w w' : W)
    (r : res Evidence) :
  (forall url body v v' e', http_Do url body v <> (Err e', v')) -> id <> "" -> time_IsZero now = false ->
  HTTPAdapter_Lookup (Sanctions_Provider id baseURL apiKey) now filters w = (r, w') ->
  match r with
  | Err e => adapter_error (Sanctions_Provider id baseURL apiKey) e
  | Ok ev =>
      exists body resp, unmarshal_sanctions body = Ok resp /\
      match EvidenceToSanctionsCheck (Some ev) with
      | Err _ => nationalIDPattern (shr_NationalID resp) = false \/ shr_Source resp = ""
      | Ok c => sanctions_ok c /\ nationalIDPattern (shr_NationalID resp) = true /\
          exists t, SanctionsCheckToRecord c = mkSR (shr_NationalID resp) (shr_Listed resp) (shr_Source resp) t
      end
  end.
Proof.
  clear unmarshal_citizen. intros Hdo Hid Hnow H. destruct r as [ev|e]; [|by eapply adapter_Lookup_Err].
  apply adapter_Lookup_Ok in H as (Hpid & Hpt & Hck & status & body & ev0 & _ & Hp & Hcf & Hdata). specialize (Hck Hnow).
  simpl in Hp, Hpt, Hpid. unfold parseSanctionsResponse in Hp. destruct (status =? 200); simpl in Hp; [|done].
  destruct (unmarshal_sanctions body) as [resp|] eqn:Hu; [|done]. injection Hp as <-. exists body, resp. split; [done|].
  simpl in Hdata, Hcf.
  assert (ev_Data ev !! "listed" = Some (AnyBool (shr_Listed resp)) /\
    ev_Data ev !! "national_id" = Some (AnyString (shr_NationalID resp)) /\
    ev_Data ev !! "source" = Some (AnyString (shr_Source resp))) as (Hl & Hn & Hs) by (rewrite Hdata; by split_and!).
  destruct (EvidenceToSanctionsCheck (Some ev)) as [c|e] eqn:Hc.
  - destruct (EvidenceToSanctionsCheck_Ok ev c Hc) as (Hok & H1 & H2 & H3 & H4 & H5). unfold getString in H4. rewrite Hs in H4.
    assert (sck_listed c = shr_Listed resp) as Hl' by congruence. assert (sck_nationalID c = shr_NationalID resp) as Hn' by congruence.
    split_and!; [done|congruence|]. exists (sck_checkedAt c). unfold SanctionsCheckToRecord. by rewrite Hl', Hn', H4.
  - destruct (nationalIDPattern (shr_NationalID resp)) eqn:Hpat; [right|by left].
    destruct (decide (shr_Source resp = "")) as [|Hne]; [done|exfalso]. revert Hc.
    unfold EvidenceToSanctionsCheck, getRequiredString, getRequiredBool, ParseNationalID, getString. rewrite Hpt, Hl, Hn, Hs, Hcf.
    rewrite bool_decide_eq_true_2 by done. simpl.
    destruct (shr_NationalID resp) as [|ch n] eqn:En; [done|]. unfold mbind, result_bind. simpl. rewrite Hpat. simpl.
    unfold NewListedSanctionsCheck, NewSanctionsCheck, NationalID_IsNil, str_empty. rewrite Hck, Hpid. simpl.
    rewrite !(bool_decide_eq_false_2 (shr_Source resp = "")), !(bool_decide_eq_false_2 (id = "")) by done.
    by destruct (shr_Listed resp).
Qed.

End http.

(** *** Witness *)

Module SanctionsExample.
Definition Do (url body : string) : ST unit error http_outcome := fun w => (Ok (Responded 200 "{}"), w).
Definition unmarshal (body : string) : res sanctionsHTTPResponse := Ok (mkSanctionsResp "AB1234" true "ofac" "").
Definition lookup : res Evidence * unit :=
  HTTPAdapter_Lookup (fun _ => Ok "{}") (fun _ => Ok tt) Do
    (Sanctions_Provider (fun _ => None) unmarshal "eu" "http://sanctions" "") 7 ∅ tt.
End SanctionsExample.

Lemma sanctions_pipeline_exact_witness :
  exists ev c, SanctionsExample.lookup.1 = Ok ev /\ EvidenceToSanctionsCheck (Some ev) = Ok c /\ sanctions_ok c.
Proof.
  destruct SanctionsExample.lookup as [[ev|e] w] eqn:E; [|vm_compute in E; discriminate E].
  pose proof (sanctions_pipeline_exact (fun _ => Ok "{}") (fun _ => Ok tt) SanctionsExample.Do (fun _ => None)
    SanctionsExample.unmarshal "eu" "http://sanctions" "" 7 ∅ tt w (Ok ev) ltac:(intros; discriminate) ltac:(discriminate) eq_refl E)
    as (body & resp & Hu & H).
  exists ev. injection Hu as <-. destruct (EvidenceToSanctionsCheck (Some ev)) as [c|e].
  - exists c. split_and!; [reflexivity..|apply H].
  - destruct H as [H|H]; vm_compute in H; discriminate H.
Defined.
