(* ===== verification/Orchestrator.v ===== *)
(** * The registry orchestrator
    [internal/evidence/registry/orchestrator/orchestrator.go],
    [internal/evidence/registry/orchestrator/correlation/rules.go],
    [internal/evidence/registry/providers/provider.go] ([ProviderRegistry])

    Providers act on a world [W] that the model does not constrain, so a call may
    answer differently each time.  Waiting between retries, which the lookup's
    deadline may cut short, is an argument; so are the order in which a Go map is
    ranged over and the order in which concurrent lookups complete.  The state
    records the provider calls, the waits and the remaining retry budget. *)
From Stdlib Require Import SpecFloat.
From S2P Require Import Prelude Errors LRU RegistryCache Registry.
Open Scope Z_scope.

(** ** Floating point *)

Definition float_of_int64 (z : Z) : float64 := binary_normalize 53 1024 z 0 false.
Definition float_mul (a b : float64) : float64 := SFmul 53 1024 a b.
Definition float_add (a b : float64) : float64 := SFadd 53 1024 a b.
Definition float_div (a b : float64) : float64 := SFdiv 53 1024 a b.

(** [int64(f)] truncates; outside the range of [int64] the result is that of the
    amd64 conversion. *)
Definition int64_of_float (f : float64) : Z :=
  match f with
  | S754_zero _ => 0
  | S754_finite s m e =>
      let v := if 0 <=? e then Z.pos m * 2 ^ e else Z.pos m / 2 ^ (- e) in
      let v := if s then - v else v in
      if (min_int64 <=? v) && (v <=? max_int64) then v else min_int64
  | _ => min_int64
  end.

(** ** Configuration *)

Inductive LookupStrategy := StrategyDefault | StrategyPrimary | StrategyFallback | StrategyParallel | StrategyVoting
  | StrategyUnknown (s : string).

Record ProviderChain := mkChain { pc_Primary : string; pc_Secondary : list string }.

Record BackoffConfig := mkBackoff {
  bc_InitialDelay : duration;
  bc_MaxDelay : duration;
  bc_MaxRetries : Z;
  bc_Multiplier : float64;
  bc_GlobalRetryBudget : Z;
}.

Record CorrelationRule := mkRule {
  rule_Applicable : list ProviderType -> bool;
  rule_Merge : list Evidence -> res Evidence;
}.

(** ** Correlation rules *)

Record CitizenNameRuleConfig := mkNameCfg { nc_FullNameField : string; nc_DateOfBirthField : string }.

Definition NewCitizenNameRule (cfg : CitizenNameRuleConfig) : CitizenNameRuleConfig :=
  mkNameCfg (if str_empty (nc_FullNameField cfg) then "full_name" else nc_FullNameField cfg)
    (if str_empty (nc_DateOfBirthField cfg) then "date_of_birth" else nc_DateOfBirthField cfg).

Definition CitizenNameRule_Applicable (types : list ProviderType) : bool :=
  (1 <? length (filter (fun t => t = ProviderTypeCitizen) types))%nat.

(** The distinct string values of a field. *)
Definition field_values (field : string) (evidence : list Evidence) : gset string :=
  foldl (fun m e => match ev_Data e !! field with Some (AnyString s) => {[s]} ∪ m | _ => m end) ∅ evidence.

Definition detectConflicts (cfg : CitizenNameRuleConfig) (evidence : list Evidence) : list string :=
  if (length evidence <? 2)%nat then []
  else
    (if (1 <? size (field_values (nc_FullNameField cfg) evidence))%nat then [nc_FullNameField cfg] else [])
    ++ (if (1 <? size (field_values (nc_DateOfBirthField cfg) evidence))%nat then [nc_DateOfBirthField cfg] else []).

(** The first evidence of highest confidence. *)
Definition best_evidence (first : Evidence) (rest : list Evidence) : Evidence :=
  foldl (fun best e => if SFltb (ev_Confidence best) (ev_Confidence e) then e else best) first rest.

Definition CitizenNameRule_Merge (cfg : CitizenNameRuleConfig) (evidence : list Evidence) : res Evidence :=
  if (length evidence =? 0)%nat then Err (EOther "no evidence to merge")
  else
    match filter (fun e => ev_ProviderType e = ProviderTypeCitizen) evidence with
    | [] => Err (EOther "no citizen evidence found")
    | e0 :: rest =>
        let best := best_evidence e0 rest in
        let conflicts := detectConflicts cfg (e0 :: rest) in
        let metadata : gmap string string :=
          list_to_map [("merge_strategy", "highest_confidence"); ("sources_count", pretty (length (e0 :: rest)))] in
        Ok (mkEv "correlation:citizen_name" ProviderTypeCitizen (ev_Confidence best) (ev_Data best) (ev_CheckedAt best)
              (match conflicts with [] => metadata | _ => <["conflicts" := String.concat "," conflicts]> metadata end))
    end.

Definition CitizenNameRule (cfg : CitizenNameRuleConfig) : CorrelationRule :=
  mkRule CitizenNameRule_Applicable (CitizenNameRule_Merge (NewCitizenNameRule cfg)).

Definition WeightedAverage_Applicable (types : list ProviderType) : bool := (1 <? length types)%nat.

(** The type's weight; an absent or zero weight counts as one. *)
Definition rule_weight (weights : gmap string float64) (e : Evidence) : float64 :=
  let w := default float_zero (weights !! ev_ProviderType e) in if SFeqb w float_zero then float_one else w.

Definition WeightedAverage_Merge (weights : gmap string float64) (evidence : list Evidence) : res Evidence :=
  match evidence with
  | [] => Err (EOther "no evidence to merge")
  | e0 :: _ =>
      let '(totalWeight, weightedSum) :=
        foldl (fun '(t, w) e =>
          (float_add t (rule_weight weights e), float_add w (float_mul (ev_Confidence e) (rule_weight weights e))))
          (float_zero, float_zero) evidence in
      Ok (mkEv "correlation:weighted_average" (ev_ProviderType e0) (float_div weightedSum totalWeight)
            (foldl (fun m e => ev_Data e ∪ m) ∅ evidence) (ev_CheckedAt e0)
            (list_to_map [("merge_strategy", "weighted_average"); ("sources_count", pretty (length evidence))]))
  end.

Definition WeightedAverageRule (weights : gmap string float64) : CorrelationRule :=
  mkRule WeightedAverage_Applicable (WeightedAverage_Merge weights).

Definition wrap32 (z : Z) : Z := (z + 2 ^ 31) mod 2 ^ 32 - 2 ^ 31.

Definition newRetryBudget (limit : Z) : Z := wrap32 (Z.max limit 1000).

Section orchestrator.
Context {W : Type}.

Record Provider := mkProvider {
  pv_ID : string;
  pv_Capabilities : Capabilities;
  pv_Lookup : gmap string string -> ST W error Evidence;
  pv_Health : ST W error unit;
}.

(** *** The provider registry *)

Abbreviation ProviderRegistry := (gmap string Provider) (only parsing).

Definition Registry_Register (r : ProviderRegistry) (p : Provider) : res ProviderRegistry :=
  match r !! pv_ID p with
  | Some _ => Err (EOther ("provider " +:+ pv_ID p +:+ " already registered"))
  | None => Ok (<[pv_ID p := p]> r)
  end.

Definition Registry_Get (r : ProviderRegistry) (id : string) : option Provider := r !! id.

(** The order in which Go ranges over a map. *)
Variable map_order : list Provider -> list Provider.

Definition Registry_ListByType (r : ProviderRegistry) (t : ProviderType) : list Provider :=
  filter (fun p => cap_Type (pv_Capabilities p) = t) (map_order (map_to_list r).*2).
Definition Registry_All (r : ProviderRegistry) : list Provider := map_order (map_to_list r).*2.

Record Orchestrator := mkOrch {
  or_registry : ProviderRegistry;
  or_chains : gmap string ProviderChain;
  or_rules : list CorrelationRule;
  or_strategy : LookupStrategy;
  or_backoff : BackoffConfig;
}.

Definition Orchestrator_New (registry : ProviderRegistry) (strategy : LookupStrategy)
    (chains : gmap string ProviderChain) (rules : list CorrelationRule) (b : BackoffConfig) : Orchestrator :=
  let strategy := match strategy with StrategyDefault => StrategyFallback | s => s end in
  mkOrch registry chains rules strategy
    (mkBackoff (if bc_InitialDelay b =? 0 then 100 * Millisecond else bc_InitialDelay b)
       (if bc_MaxDelay b =? 0 then 2 * Second else bc_MaxDelay b)
       (if bc_MaxRetries b =? 0 then 3 else bc_MaxRetries b)
       (if SFeqb (bc_Multiplier b) float_zero then float_of_int64 2 else bc_Multiplier b)
       (if bc_GlobalRetryBudget b =? 0 then 10 else bc_GlobalRetryBudget b)).

Record LookupRequest := mkLookup {
  lr_Types : list ProviderType; lr_Filters : gmap string string; lr_Strategy : LookupStrategy;
}.
Record LookupResult := mkLResult { res_Evidence : list Evidence; res_Errors : gmap string error }.

(** *** State *)

Record OState := mkOS {
  os_world : W;
  os_calls : list (string * res Evidence);
  os_waits : list duration;
  os_budget : Z;
}.

Abbreviation OM A := (ST OState error A) (only parsing).

Definition provider_call (p : Provider) (filters : gmap string string) : OM Evidence := fun s =>
  let '(r, w) := pv_Lookup p filters (os_world s) in
  (r, mkOS w (os_calls s ++ [(pv_ID p, r)]) (os_waits s) (os_budget s)).

(** The compare-and-swap loop; a lookup with fallback is sequential. *)
Definition tryConsumeRetry : OM bool := fun s =>
  if os_budget s <=? 0 then (Ok false, s)
  else (Ok true, mkOS (os_world s) (os_calls s) (os_waits s) (os_budget s - 1)).

(** Waiting for [time.After(delay)] or the context; its error is [ctx.Err()]. *)
Variable wait : duration -> ST W error unit.

Definition wait_or_done (d : duration) : OM unit := fun s =>
  let '(r, w) := wait d (os_world s) in (r, mkOS w (os_calls s) (os_waits s ++ [d]) (os_budget s)).

(** *** One provider, with retries *)

Definition next_delay (b : BackoffConfig) (delay : duration) : duration :=
  let d := int64_of_float (float_mul (float_of_int64 delay) (bc_Multiplier b)) in
  if bc_MaxDelay b <? d then bc_MaxDelay b else d.

(** The loop with [n] attempts left; before the first attempt [lastErr] is nil. *)
Fixpoint attempts_loop (b : BackoffConfig) (n : nat) (p : Provider) (filters : gmap string string)
    (lastErr : option error) (delay : duration) : OM (option Evidence) :=
  match n with
  | O => match lastErr with None => mret None | Some e => st_fail e end
  | S n' =>
      let attempt (delay : duration) : OM (option Evidence) :=
        r ← st_try (provider_call p filters);
        match r with
        | Ok ev => mret (Some ev)
        | Err e => if negb (IsRetryable e) then st_fail e else attempts_loop b n' p filters (Some e) delay
        end in
      match lastErr with
      | None => attempt delay
      | Some e =>
          ok ← tryConsumeRetry;
          if negb ok then st_fail e
          else
            _ ← wait_or_done delay;
            attempt (next_delay b delay)
      end
  end.

Definition tryProviderWithBackoff (o : Orchestrator) (providerID : string) (filters : gmap string string)
    : OM (option Evidence) :=
  match Registry_Get (or_registry o) providerID with
  | None => st_fail (EVal ErrProviderNotFound)
  | Some p =>
      attempts_loop (or_backoff o) (Z.to_nat (bc_MaxRetries (or_backoff o) + 1)) p filters None
        (bc_InitialDelay (or_backoff o))
  end.

(** *** Strategies *)

Definition getChainForType (o : Orchestrator) (t : ProviderType) : res ProviderChain :=
  match or_chains o !! t with
  | Some chain => Ok chain
  | None =>
      match Registry_ListByType (or_registry o) t with
      | [] => Err (EVal ErrNoProvidersAvailable)
      | p :: _ => Ok (mkChain (pv_ID p) [])
      end
  end.

(** The providers of a chain in order; errors are recorded by provider. *)
Fixpoint try_chain (o : Orchestrator) (ids : list string) (filters : gmap string string) (errors : gmap string error)
    : OM (option Evidence * gmap string error) :=
  match ids with
  | [] => mret (None, errors)
  | id :: ids' =>
      r ← st_try (tryProviderWithBackoff o id filters);
      match r with
      | Ok ev => mret (ev, errors)
      | Err e => try_chain o ids' filters (<[id := e]> errors)
      end
  end.

Definition tryChainWithFallback (o : Orchestrator) (chain : ProviderChain) (filters : gmap string string)
    (errors : gmap string error) : OM (option Evidence * gmap string error) :=
  try_chain o (pc_Primary chain :: pc_Secondary chain) filters errors.

(** The result and the error a strategy returns together. *)
Definition finish (r : LookupResult) : LookupResult * option error :=
  (r, if (length (res_Evidence r) =? 0)%nat && (0 <? size (res_Errors r))%nat
      then Some (EVal ErrAllProvidersFailed) else None).

Fixpoint primary_types (o : Orchestrator) (filters : gmap string string) (types : list ProviderType) (r : LookupResult)
    : OM LookupResult :=
  match types with
  | [] => mret r
  | t :: types' =>
      match getChainForType o t with
      | Err e => primary_types o filters types' (mkLResult (res_Evidence r) (<["no-provider" := e]> (res_Errors r)))
      | Ok chain =>
          match Registry_Get (or_registry o) (pc_Primary chain) with
          | None => primary_types o filters types'
                      (mkLResult (res_Evidence r) (<[pc_Primary chain := EVal ErrProviderNotFound]> (res_Errors r)))
          | Some p =>
              x ← st_try (provider_call p filters);
              match x with
              | Err e => primary_types o filters types' (mkLResult (res_Evidence r) (<[pv_ID p := e]> (res_Errors r)))
              | Ok ev => primary_types o filters types' (mkLResult (res_Evidence r ++ [ev]) (res_Errors r))
              end
          end
      end
  end.

Definition lookupPrimary (o : Orchestrator) (req : LookupRequest) : OM (LookupResult * option error) :=
  r ← primary_types o (lr_Filters req) (lr_Types req) (mkLResult [] ∅);
  mret (finish r).

Fixpoint fallback_types (o : Orchestrator) (filters : gmap string string) (types : list ProviderType) (r : LookupResult)
    : OM LookupResult :=
  match types with
  | [] => mret r
  | t :: types' =>
      match getChainForType o t with
      | Err e => fallback_types o filters types' (mkLResult (res_Evidence r) (<["no-provider" := e]> (res_Errors r)))
      | Ok chain =>
          '(ev, errors) ← tryChainWithFallback o chain filters (res_Errors r);
          fallback_types o filters types'
            (mkLResult (res_Evidence r ++ match ev with Some e => [e] | None => [] end) errors)
      end
  end.

Definition lookupFallback (o : Orchestrator) (req : LookupRequest) : OM (LookupResult * option error) :=
  st_modify (fun s => mkOS (os_world s) (os_calls s) (os_waits s) (newRetryBudget (bc_GlobalRetryBudget (or_backoff o))));;
  r ← fallback_types o (lr_Filters req) (lr_Types req) (mkLResult [] ∅);
  mret (finish r).

(** Concurrent lookups in their order of completion. *)
Variable sched : list Provider -> list Provider.

Fixpoint run_lookups (filters : gmap string string) (ps : list Provider) (r : LookupResult) : OM LookupResult :=
  match ps with
  | [] => mret r
  | p :: ps' =>
      x ← st_try (provider_call p filters);
      run_lookups filters ps'
        match x with
        | Err e => mkLResult (res_Evidence r) (<[pv_ID p := e]> (res_Errors r))
        | Ok ev => mkLResult (res_Evidence r ++ [ev]) (res_Errors r)
        end
  end.

(** The first applicable rule that succeeds replaces the evidence. *)
Fixpoint apply_rules (rules : list CorrelationRule) (types : list ProviderType) (evidence : list Evidence) : list Evidence :=
  match rules with
  | [] => evidence
  | rule :: rules' =>
      if rule_Applicable rule types then
        match rule_Merge rule evidence with
        | Ok merged => [merged]
        | Err _ => apply_rules rules' types evidence
        end
      else apply_rules rules' types evidence
  end.

Definition applyCorrelationRules (o : Orchestrator) (r : LookupResult) : LookupResult :=
  if (length (or_rules o) =? 0)%nat || (length (res_Evidence r) <? 2)%nat then r
  else mkLResult (apply_rules (or_rules o) (ev_ProviderType <$> res_Evidence r) (res_Evidence r)) (res_Errors r).

Definition lookupParallel (o : Orchestrator) (req : LookupRequest) : OM (LookupResult * option error) :=
  r ← run_lookups (lr_Filters req) (sched (concat (Registry_ListByType (or_registry o) <$> lr_Types req))) (mkLResult [] ∅);
  mret (finish (applyCorrelationRules o r)).

(** The vote: the evidence of highest confidence for each type. *)
Definition vote (evidence : list Evidence) : gmap string Evidence :=
  foldl (fun m e =>
    match m !! ev_ProviderType e with
    | Some existing =>
        if SFltb (ev_Confidence existing) (ev_Confidence e) then <[ev_ProviderType e := e]> m else m
    | None => <[ev_ProviderType e := e]> m
    end) ∅ evidence.

(** The order in which the vote's map is ranged over. *)
Variable vote_order : list Evidence -> list Evidence.

Definition lookupVoting (o : Orchestrator) (req : LookupRequest) : OM (LookupResult * option error) :=
  '(r, err) ← lookupParallel o req;
  match err with
  | Some e => mret (r, Some e)
  | None => mret (mkLResult (vote_order (map_to_list (vote (res_Evidence r))).*2) (res_Errors r), None)
  end.

(** [Lookup]; the deadline it sets is part of [W] and of [wait]. *)
Definition Orchestrator_Lookup (o : Orchestrator) (req : LookupRequest) : OM (option LookupResult * option error) :=
  let ok (m : OM (LookupResult * option error)) : OM (option LookupResult * option error) :=
    '(r, e) ← m; mret (Some r, e) in
  match (match lr_Strategy req with StrategyDefault => or_strategy o | s => s end) with
  | StrategyPrimary => ok (lookupPrimary o req)
  | StrategyFallback => ok (lookupFallback o req)
  | StrategyParallel => ok (lookupParallel o req)
  | StrategyVoting => ok (lookupVoting o req)
  | StrategyDefault => mret (None, Some (EOther "unknown strategy: "))
  | StrategyUnknown s => mret (None, Some (EOther ("unknown strategy: " +:+ s)))
  end.

(** [HealthCheck]: the providers' answers in their order of completion. *)
Fixpoint health_results (ps : list Provider) (results : gmap string (option error)) : ST W error (gmap string (option error)) :=
  match ps with
  | [] => mret results
  | p :: ps' =>
      r ← st_try (pv_Health p);
      health_results ps' (<[pv_ID p := match r with Ok _ => None | Err e => Some e end]> results)
  end.
Definition HealthCheck (o : Orchestrator) : ST W error (gmap string (option error)) :=
  health_results (sched (Registry_All (or_registry o))) ∅.

(** ** Theorems *)

(** *** One provider *)

Definition retry_error (x : res Evidence) : Prop := exists e, x = Err e /\ IsRetryable e = true.

(** What a run of the retry loop did: the answers [rs] it got after the failures
    [l] so far, and the delays [ds] it waited. *)
Record loop_spec (b : BackoffConfig) (p : Provider) (n : nat) (l : list (res Evidence)) (delay : duration)
    (s s' : OState) (r : res (option Evidence)) (rs : list (res Evidence)) (ds : list duration) : Prop := {
  ls_calls : os_calls s' = os_calls s ++ (pair (pv_ID p) <$> rs);
  ls_waits : os_waits s' = os_waits s ++ ds;
  ls_budget : os_budget s' = os_budget s - Z.of_nat (length ds);
  ls_budget_nonneg : 0 <= os_budget s -> 0 <= os_budget s';
  ls_bound : (length rs <= n)%nat;
  ls_retryable : Forall retry_error (removelast (l ++ rs));
  ls_delays : Forall (fun d => d <= Z.max delay (bc_MaxDelay b)) ds;
  ls_called : l = [] -> n <> 0%nat -> rs <> [];
  ls_result :
    match r with
    | Ok (Some ev) => last (l ++ rs) = Some (Ok ev) /\ length (l ++ rs) = S (length ds)
    | Ok None => l ++ rs = [] /\ n = 0%nat
    | Err e =>
        (last (l ++ rs) = Some (Err e) /\ length (l ++ rs) = S (length ds) /\
         (IsRetryable e = false \/ length rs = n \/ os_budget s' <= 0)) \/
        (length (l ++ rs) = length ds /\ Forall retry_error (l ++ rs) /\ exists d w w', wait d w = (Err e, w'))
    end;
}.

Lemma next_delay_le b d : next_delay b d <= bc_MaxDelay b.
Proof. unfold next_delay. case_match; bools; lia. Qed.

Definition loop_last (lastErr : option error) : list (res Evidence) := match lastErr with None => [] | Some e => [Err e] end.

Lemma removelast_cons_Forall (x : res Evidence) rs :
  retry_error x -> Forall retry_error (removelast rs) -> Forall retry_error (removelast (x :: rs)).
Proof. intros Hx H. destruct rs; [constructor|]. by constructor. Qed.

(** A wait, then an attempt. *)
Lemma loop_spec_retry b p n e delay delay' s s1 s2 s' r rs ds :
  IsRetryable e = true -> 0 < os_budget s -> delay' <= bc_MaxDelay b ->
  s1 = mkOS (os_world s) (os_calls s) (os_waits s) (os_budget s - 1) ->
  os_calls s2 = os_calls s1 -> os_waits s2 = os_waits s1 ++ [delay] -> os_budget s2 = os_budget s1 ->
  loop_spec b p (S n) [] delay' s2 s' r rs ds -> loop_spec b p (S n) [Err e] delay s s' r rs (delay :: ds).
Proof.
  intros He Hb Hd -> Hc Hw Hbu [H1 H2 H3 H4 H5 H6 H7 _ H8]. rewrite Hc in H1. rewrite Hw in H2. rewrite Hbu in H3, H4. simpl in *.
  split; simpl; try done.
  - rewrite H2. by rewrite <- (assoc_L (++)).
  - lia.
  - intros _. apply H4. lia.
  - apply removelast_cons_Forall; [by exists e|done].
  - constructor; [lia|]. eapply Forall_impl; [done|]. simpl. lia.
  - destruct r as [[ev|]|e']; [|by destruct H8|].
    + rewrite last_cons. destruct H8 as [-> ->]. done.
    + destruct H8 as [(Hl & Hn & Hr)|(Hn & Hf & Hw')]; [left|right].
      * rewrite last_cons, Hl. split_and!; auto.
      * split_and!; [auto|by constructor; [exists e|]|done].
Qed.

(** A failed attempt, then the rest of the loop. *)
Lemma loop_spec_attempt b p n e delay s s1 s' r rs ds :
  os_calls s1 = os_calls s ++ [(pv_ID p, Err e)] -> os_waits s1 = os_waits s -> os_budget s1 = os_budget s ->
  loop_spec b p n [Err e] delay s1 s' r rs ds -> loop_spec b p (S n) [] delay s s' r (Err e :: rs) ds.
Proof.
  intros Hc Hw Hb [H1 H2 H3 H4 H5 H6 H7 _ H8]. rewrite Hc in H1. rewrite Hw in H2. rewrite Hb in H3, H4. simpl in *.
  split; simpl; try done.
  - rewrite H1. by rewrite <- (assoc_L (++)).
  - lia.
  - destruct r as [[ev|]|e']; [done|by destruct H8|].
    destruct H8 as [(Hl & Hn & Hr)|H8]; [left|by right]. split_and!; try done.
    destruct Hr as [?|[?|?]]; auto.
Qed.

Lemma attempts_loop_spec b p filters n lastErr delay s r s' :
  (forall e, lastErr = Some e -> IsRetryable e = true) ->
  attempts_loop b n p filters lastErr delay s = (r, s') ->
  exists rs ds, loop_spec b p n (loop_last lastErr) delay s s' r rs ds.
Proof.
  revert lastErr delay s. induction n as [|n IH]; intros lastErr delay s Hlast Hrun.
  { exists [], []. destruct lastErr as [e|]; simpl in Hrun; injection Hrun as <- <-; split; simpl;
      rewrite ?app_nil_r; try lia; try (by constructor); auto 10. }
  assert (forall delay0 s0, (r0 ← st_try (provider_call p filters);
      match r0 with
      | Ok ev => mret (Some ev)
      | Err e => if negb (IsRetryable e) then st_fail e else attempts_loop b n p filters (Some e) delay0
      end) s0 = (r, s') -> exists rs ds, loop_spec b p (S n) [] delay0 s0 s' r rs ds) as Hattempt.
  { intros delay0 s0. unfold mbind at 1, st_bind at 1, st_try, provider_call.
    destruct (pv_Lookup p filters (os_world s0)) as [[ev|e] w] eqn:Hp; intros H.
    - injection H as <- <-. exists [Ok ev], []. split; simpl; rewrite ?app_nil_r; try lia; try (by constructor); auto 10.
    - destruct (IsRetryable e) eqn:He; simpl in H.
      + apply IH in H as (rs & ds & H); [|by intros ? [= <-]]. exists (Err e :: rs), ds. by eapply loop_spec_attempt; [..|exact H].
      + injection H as <- <-. exists [Err e], []. split; simpl; rewrite ?app_nil_r; try lia; try (by constructor); auto 10. }
  destruct lastErr as [e|]; [|by apply Hattempt]. specialize (Hlast e eq_refl). simpl in Hrun.
  unfold mbind at 1, st_bind at 1, tryConsumeRetry in Hrun. destruct (os_budget s <=? 0) eqn:Hb; bools; simpl in Hrun.
  { injection Hrun as <- <-. exists [], []. split; simpl; rewrite ?app_nil_r; try lia; try (by constructor); auto 10. }
  unfold mbind at 1, st_bind at 1, wait_or_done in Hrun. simpl in Hrun.
  destruct (wait delay (os_world s)) as [[[]|e'] w] eqn:Hw.
  - apply Hattempt in Hrun as (rs & ds & H). exists rs, (delay :: ds).
    by eapply loop_spec_retry; [..|exact H]; try done; apply next_delay_le.
  - injection Hrun as <- <-. exists [], [delay]. split; simpl; rewrite ?app_nil_r; try lia; try (by constructor); auto 10.
    + by repeat constructor; lia.
    + right. split_and!; [done| |eauto]. constructor; [by exists e|constructor].
Qed.

(** *** Chains and lookups *)

(** The answers of the calls since [s] that succeeded, in order. *)
Definition answers (calls : list (string * res Evidence)) : list Evidence :=
  omap (fun c => match c.2 with Ok ev => Some ev | Err _ => None end) calls.

Lemma answers_app l k : answers (l ++ k) = answers l ++ answers k.
Proof. apply omap_app. Qed.

(** A step that adds calls to the log and never refills the budget. *)
Record extends (s s' : OState) (calls : list (string * res Evidence)) : Prop := {
  ext_calls : os_calls s' = os_calls s ++ calls;
  ext_waits : Z.of_nat (length (os_waits s')) - Z.of_nat (length (os_waits s)) = os_budget s - os_budget s';
  ext_budget : 0 <= os_budget s -> 0 <= os_budget s';
}.

Lemma extends_refl s : extends s s [].
Proof. split; [by rewrite app_nil_r|lia|done]. Qed.
Lemma extends_trans s1 s2 s3 l k : extends s1 s2 l -> extends s2 s3 k -> extends s1 s3 (l ++ k).
Proof. intros [H1 H2 H3] [K1 K2 K3]. split; [by rewrite K1, H1, (assoc_L (++))|lia|auto]. Qed.

Lemma retry_answers p rs : Forall retry_error rs -> answers (pair (pv_ID p) <$> rs) = [].
Proof. induction 1 as [|x rs (e & -> & _) _ IH]; [done|exact IH]. Qed.

Lemma last_app_split {A} (l : list A) x : last l = Some x -> l = removelast l ++ [x].
Proof.
  intros [l' ->]%last_Some. by rewrite removelast_last.
Qed.

Lemma provider_call_extends p filters s r s' :
  st_try (provider_call p filters) s = (Ok r, s') -> extends s s' [(pv_ID p, r)].
Proof.
  unfold st_try, provider_call. destruct (pv_Lookup p filters (os_world s)) as [x w]. intros [= <- <-]. split; simpl; [done|lia|lia].
Qed.

(** One provider of a chain: its calls, and its answer when there is one. *)
Lemma tryProvider_extends o id filters s r s' :
  0 <= bc_MaxRetries (or_backoff o) ->
  tryProviderWithBackoff o id filters s = (r, s') ->
  exists calls, extends s s' calls /\
    Z.of_nat (length calls) <= bc_MaxRetries (or_backoff o) + 1 /\
    Forall (fun c => exists p, or_registry o !! id = Some p /\ c.1 = pv_ID p) calls /\
    (is_Some (or_registry o !! id) -> calls <> []) /\
    match r with
    | Ok None => False
    | Ok (Some ev) => answers calls = [ev] /\ exists p, last calls = Some (pv_ID p, Ok ev)
    | Err _ => answers calls = []
    end.
Proof.
  intros Hm. unfold tryProviderWithBackoff, Registry_Get. destruct (or_registry o !! id) as [p|] eqn:Hp.
  2: { intros [= <- <-]. exists []. split_and!; [apply extends_refl|simpl; lia|done|by intros [? [=]]|done]. }
  intros (rs & ds & [H1 H2 H3 H4 H5 H6 H7 Hcall H8])%attempts_loop_spec; [|done]. simpl in *.
  exists (pair (pv_ID p) <$> rs). split_and!.
  - split; [done|rewrite H2, length_app; lia|done].
  - rewrite length_fmap. lia.
  - apply Forall_fmap, Forall_true. intros x. by exists p.
  - intros _ Hn%fmap_nil_inv. apply Hcall; [done|lia|done].
  - assert (forall x, last rs = Some x -> answers (pair (pv_ID p) <$> rs) = answers [(pv_ID p, x)]) as Hlast.
    { intros x ->%last_app_split. rewrite fmap_app, answers_app, retry_answers by done. done. }
    destruct r as [[ev|]|e].
    + destruct H8 as [Hl _]. split; [by rewrite (Hlast _ Hl)|]. exists p. by rewrite fmap_last, Hl.
    + destruct H8 as [_ H8]. lia.
    + destruct H8 as [(Hl & _ & _)|(_ & Hf & _)]; [by rewrite (Hlast _ Hl)|by apply retry_answers].
Qed.

Lemma try_chain_spec o filters ids errors s r s' :
  0 <= bc_MaxRetries (or_backoff o) ->
  try_chain o ids filters errors s = (r, s') ->
  exists ev errors' failed rest calls, r = Ok (ev, errors') /\ ids = failed ++ rest /\ extends s s' calls /\
    answers calls = option_list ev /\ (ev = None <-> rest = []) /\
    (forall id, is_Some (errors' !! id) <-> is_Some (errors !! id) \/ id ∈ failed) /\
    Forall (fun c => exists id p, (id ∈ failed \/ head rest = Some id) /\ or_registry o !! id = Some p /\ c.1 = pv_ID p) calls /\
    Z.of_nat (length calls) <= Z.of_nat (length (failed ++ option_list (head rest))) * (bc_MaxRetries (or_backoff o) + 1).
Proof.
  intros Hm. revert errors s. induction ids as [|id ids IH]; intros errors s; simpl.
  { intros [= <- <-]. exists None, errors, [], [], []. split_and!; try done; [apply extends_refl|set_solver]. }
  unfold mbind, st_bind, st_try. destruct (tryProviderWithBackoff o id filters s) as [r1 s1] eqn:H1.
  apply tryProvider_extends in H1 as (calls & He & Hlen & Hids & _ & Hr); [|done].
  destruct r1 as [ev|e].
  - intros [= <- <-]. destruct ev as [ev|]; [|done]. destruct Hr as [Hr _].
    exists (Some ev), errors, [], (id :: ids), calls. split_and!; try done; [set_solver| |simpl; lia].
    eapply Forall_impl; [done|]. intros c (p & Hp & Hc). exists id, p. auto.
  - intros (ev & errors' & failed & rest & calls' & -> & -> & He' & Ha & Hev & Herr & Hids' & Hlen')%IH.
    exists ev, errors', (id :: failed), rest, (calls ++ calls'). split_and!; try done.
    + by eapply extends_trans.
    + by rewrite answers_app, Hr, Ha.
    + intros k. rewrite Herr, elem_of_cons. destruct (decide (id = k)) as [<-|Hk].
      * rewrite lookup_insert_eq. split; [auto|]. intros _. left. by eexists.
      * rewrite lookup_insert_ne by done. naive_solver.
    + apply Forall_app. split; (eapply Forall_impl; [done|]); simpl.
      * intros c (p & Hp & Hc). exists id, p. split_and!; [left; set_solver|done..].
      * intros c (k & p & Hk & Hp & Hc). exists k, p. split_and!; [set_solver|done..].
    + rewrite length_app. simpl. lia.
Qed.

(** What gathering evidence for [n] items did to the result. *)
Record gathers (s s' : OState) (n : nat) (r0 r : LookupResult) : Prop := {
  ga_evidence : exists calls, extends s s' calls /\ res_Evidence r = res_Evidence r0 ++ answers calls;
  ga_complete : res_Errors r = ∅ -> res_Errors r0 = ∅ /\ length (res_Evidence r) = (length (res_Evidence r0) + n)%nat;
}.

Lemma gathers_refl s r : gathers s s 0 r r.
Proof. split; [exists []; split; [apply extends_refl|by rewrite app_nil_r]|intros; split; [done|lia]]. Qed.

Lemma gathers_trans s1 s2 s3 n m r1 r2 r3 :
  gathers s1 s2 n r1 r2 -> gathers s2 s3 m r2 r3 -> gathers s1 s3 (n + m) r1 r3.
Proof.
  intros [(c & He & Hc) Hn] [(c' & He' & Hc') Hm]. split.
  - exists (c ++ c'). split; [by eapply extends_trans|]. by rewrite Hc', Hc, answers_app, (assoc_L (++)).
  - intros [H Hl]%Hm. apply Hn in H as [H' Hl']. split; [done|lia].
Qed.

Lemma gathers_error s s' r id e calls :
  extends s s' calls -> answers calls = [] -> gathers s s' 1 r (mkLResult (res_Evidence r) (<[id := e]> (res_Errors r))).
Proof.
  intros He Ha. split; simpl.
  - exists calls. split; [done|]. by rewrite Ha, app_nil_r.
  - by intros ?%insert_non_empty.
Qed.

Lemma gathers_answer s s' r ev calls :
  extends s s' calls -> answers calls = [ev] -> gathers s s' 1 r (mkLResult (res_Evidence r ++ [ev]) (res_Errors r)).
Proof.
  intros He Ha. split; simpl.
  - exists calls. split; [done|]. by rewrite Ha.
  - intros ->. rewrite length_app. simpl. split; [done|lia].
Qed.

Lemma primary_types_gathers o filters types r0 s r s' :
  primary_types o filters types r0 s = (r, s') -> exists r', r = Ok r' /\ gathers s s' (length types) r0 r'.
Proof.
  revert r0 s. induction types as [|t types IH]; intros r0 s; simpl.
  { intros [= <- <-]. eexists. split; [done|apply gathers_refl]. }
  destruct (getChainForType o t) as [chain|e].
  2: { intros (r' & -> & Hg)%IH. exists r'. split; [done|].
       by eapply (gathers_trans _ _ _ 1); [eapply gathers_error; [apply extends_refl|done]|]. }
  destruct (Registry_Get (or_registry o) (pc_Primary chain)) as [p|].
  2: { intros (r' & -> & Hg)%IH. exists r'. split; [done|].
       by eapply (gathers_trans _ _ _ 1); [eapply gathers_error; [apply extends_refl|done]|]. }
  unfold mbind, st_bind. destruct (st_try (provider_call p filters) s) as [[x|e] s1] eqn:Hx.
  2: { unfold st_try in Hx. by destruct (provider_call p filters s). }
  apply provider_call_extends in Hx. destruct x as [ev|e]; intros (r' & -> & Hg)%IH; (exists r'; split; [done|]);
    eapply (gathers_trans _ _ _ 1); try done; [by eapply gathers_answer|by eapply gathers_error].
Qed.

Lemma fallback_types_gathers o filters types r0 s r s' :
  0 <= bc_MaxRetries (or_backoff o) ->
  fallback_types o filters types r0 s = (r, s') -> exists r', r = Ok r' /\ gathers s s' (length types) r0 r'.
Proof.
  intros Hm. revert r0 s. induction types as [|t types IH]; intros r0 s; simpl.
  { intros [= <- <-]. eexists. split; [done|apply gathers_refl]. }
  destruct (getChainForType o t) as [chain|e].
  2: { intros (r' & -> & Hg)%IH. exists r'. split; [done|].
       by eapply (gathers_trans _ _ _ 1); [eapply gathers_error; [apply extends_refl|done]|]. }
  unfold mbind, st_bind. destruct (tryChainWithFallback o chain filters (res_Errors r0) s) as [x s1] eqn:Hx.
  apply try_chain_spec in Hx as (ev & errors' & failed & rest & calls & -> & Hids & He & Ha & Hev & Herr & _ & _); [|done].
  intros (r' & -> & Hg)%IH. exists r'. split; [done|]. eapply (gathers_trans _ _ _ 1); [|exact Hg].
  split; simpl.
  - exists calls. split; [done|]. rewrite Ha. by destruct ev.
  - intros ->. assert (failed = []) as ->.
    { apply elem_of_nil_inv. intros id Hin. destruct (proj2 (Herr id)) as [? H]; [by right|done]. }
    simpl in Hids. destruct ev as [ev|]; [|by rewrite (proj1 Hev eq_refl) in Hids].
    split; [|by rewrite length_app]. apply map_eq. intros id. rewrite lookup_empty. apply eq_None_not_Some.
    intros H. destruct (proj2 (Herr id)) as [? K]; [by left|done].
Qed.

Lemma run_lookups_gathers filters ps r0 s r s' :
  run_lookups filters ps r0 s = (r, s') -> exists r', r = Ok r' /\ gathers s s' (length ps) r0 r'.
Proof.
  revert r0 s. induction ps as [|p ps IH]; intros r0 s; simpl.
  { intros [= <- <-]. eexists. split; [done|apply gathers_refl]. }
  unfold mbind, st_bind. destruct (st_try (provider_call p filters) s) as [[x|e] s1] eqn:Hx.
  2: { unfold st_try in Hx. by destruct (provider_call p filters s). }
  apply provider_call_extends in Hx. destruct x as [ev|e]; intros (r' & -> & Hg)%IH; (exists r'; split; [done|]);
    eapply (gathers_trans _ _ _ 1); try done; [by eapply gathers_answer|by eapply gathers_error].
Qed.

Lemma finish_err r : (finish r).2 = None \/ (finish r).2 = Some (EVal ErrAllProvidersFailed).
Proof. unfold finish. simpl. case_match; auto. Qed.

Lemma finish_err_iff r : (finish r).2 = None <-> res_Evidence r <> [] \/ res_Errors r = ∅.
Proof.
  destruct r as [ev er]. unfold finish. simpl. rewrite <- (map_size_empty_iff er).
  destruct (Nat.eqb_spec (length ev) 0) as [H0|H0], (Nat.ltb_spec 0 (size er)) as [H1|H1]; simpl;
    split; intros H; try done; try (right; lia); try (left; by intros ->).
  apply nil_length_inv in H0. destruct H; [done|lia].
Qed.

(** *** Whom a lookup asks *)

(** The providers asked about a type, in order: the configured chain, else one
    registered provider of the type, else none. *)
Inductive sources (o : Orchestrator) (t : ProviderType) : list string -> Prop :=
| sources_chain chain : or_chains o !! t = Some chain -> sources o t (pc_Primary chain :: pc_Secondary chain)
| sources_registered id p :
    or_chains o !! t = None -> or_registry o !! id = Some p -> cap_Type (pv_Capabilities p) = t -> sources o t [id]
| sources_none :
    or_chains o !! t = None -> (forall id p, or_registry o !! id = Some p -> cap_Type (pv_Capabilities p) <> t) -> sources o t [].

(** Providers are registered under their identifiers, as [Registry_Register] does. *)
Definition registry_wf (o : Orchestrator) : Prop := forall id p, or_registry o !! id = Some p -> pv_ID p = id.

(** What became of one requested type: the calls made for it, its evidence and the
    identifiers that failed. *)
Record type_outcome := mkOutcome {
  to_calls : list (string * res Evidence);
  to_evidence : option Evidence;
  to_failed : list string;
}.

(** The sources [ids] of the type (of which the strategy considers [consider ids]) are
    asked one after the other until one answers: those before it failed, and were
    called if they exist; those after it are not called; there is no evidence exactly
    when all considered failed. *)
Record type_served (o : Orchestrator) (consider : list string -> list string) (t : ProviderType) (x : type_outcome) : Prop := {
  tse_order : exists ids rest, sources o t ids /\ consider ids = to_failed x ++ rest /\ (to_evidence x = None <-> rest = []) /\
    Forall (fun c => c.1 ∈ to_failed x ++ option_list (head rest)) (to_calls x) /\
    forall ev, to_evidence x = Some ev -> exists id, head rest = Some id /\ (id, Ok ev) ∈ to_calls x;
  tse_answers : answers (to_calls x) = option_list (to_evidence x);
  tse_failed : forall id, id ∈ to_failed x -> is_Some (or_registry o !! id) -> exists e, (id, Err e) ∈ to_calls x;
}.

(** The recorded errors: those that failed, and "no-provider" for a type without sources. *)
Definition errors_recorded (o : Orchestrator) (types : list ProviderType) (outs : list type_outcome)
    (errors0 errors : gmap string error) : Prop :=
  forall id, is_Some (errors !! id) <->
    is_Some (errors0 !! id) \/ id ∈ mjoin (to_failed <$> outs) \/
    (id = "no-provider" /\ exists t, t ∈ types /\ sources o t []).

Hypothesis map_order_perm : forall l, map_order l ≡ₚ l.

Lemma Registry_ListByType_spec r t p : p ∈ Registry_ListByType r t <-> cap_Type (pv_Capabilities p) = t /\ exists id, r !! id = Some p.
Proof.
  unfold Registry_ListByType. rewrite list_elem_of_filter, map_order_perm, list_elem_of_fmap. apply and_iff_compat_l. split.
  - intros ([id q] & -> & Hin%elem_of_map_to_list). by exists id.
  - intros [id Hp]. exists (id, p). split; [done|]. by apply elem_of_map_to_list.
Qed.

Lemma getChainForType_sources o t : registry_wf o ->
  match getChainForType o t with
  | Ok chain => sources o t (pc_Primary chain :: pc_Secondary chain)
  | Err _ => sources o t []
  end.
Proof.
  intros Hwf. unfold getChainForType. destruct (or_chains o !! t) as [chain|] eqn:Hc; [by constructor|].
  destruct (Registry_ListByType (or_registry o) t) as [|p l] eqn:El.
  - apply sources_none; [done|]. intros id p Hp Ht. assert (p ∈ ([] : list Provider)) as Hin; [|by apply elem_of_nil in Hin].
    rewrite <- El. apply Registry_ListByType_spec. eauto.
  - assert (p ∈ Registry_ListByType (or_registry o) t) as [Ht [id Hp]]%Registry_ListByType_spec by (rewrite El; left).
    apply (sources_registered o t _ p); [done| |done]. by rewrite (Hwf id p Hp).
Qed.

Lemma answers_Err (calls : list (string * res Evidence)) id :
  answers calls = [] -> calls <> [] -> Forall (fun c => c.1 = id) calls -> exists e, (id, Err e) ∈ calls.
Proof.
  destruct calls as [|[k [ev|e]] calls]; [done|discriminate|]. intros _ _ [E _]%Forall_cons. simpl in E. subst. exists e. left.
Qed.

Lemma tryProvider_served o id filters s r s' : registry_wf o -> 0 <= bc_MaxRetries (or_backoff o) ->
  tryProviderWithBackoff o id filters s = (r, s') ->
  exists calls, extends s s' calls /\ Forall (fun c => c.1 = id) calls /\
    match r with
    | Ok None => False
    | Ok (Some ev) => answers calls = [ev] /\ (id, Ok ev) ∈ calls
    | Err _ => answers calls = [] /\ (is_Some (or_registry o !! id) -> exists e, (id, Err e) ∈ calls)
    end.
Proof.
  intros Hwf Hm (calls & He & _ & Hids & Hne & Hr)%tryProvider_extends; [|done].
  assert (Forall (fun c => c.1 = id) calls) as Hid.
  { eapply Forall_impl; [exact Hids|]. intros c (p & Hp & ->). by apply Hwf. }
  exists calls. split_and!; [done..|]. destruct r as [[ev|]|e]; [|done|].
  - destruct Hr as [Ha [p Hl]]. split; [done|]. apply last_Some in Hl as [l ->]. apply Forall_app in Hid as [_ [E _]%Forall_cons].
    simpl in E. subst. set_solver.
  - split; [done|]. intros Hs. apply answers_Err; auto.
Qed.

Lemma try_chain_served o filters ids errors s r s' : registry_wf o -> 0 <= bc_MaxRetries (or_backoff o) ->
  try_chain o ids filters errors s = (r, s') ->
  exists x errors' rest, r = Ok (to_evidence x, errors') /\ extends s s' (to_calls x) /\
    ids = to_failed x ++ rest /\ (to_evidence x = None <-> rest = []) /\
    Forall (fun c => c.1 ∈ to_failed x ++ option_list (head rest)) (to_calls x) /\
    (forall ev, to_evidence x = Some ev -> exists id, head rest = Some id /\ (id, Ok ev) ∈ to_calls x) /\
    answers (to_calls x) = option_list (to_evidence x) /\
    (forall id, id ∈ to_failed x -> is_Some (or_registry o !! id) -> exists e, (id, Err e) ∈ to_calls x) /\
    (forall id, is_Some (errors' !! id) <-> is_Some (errors !! id) \/ id ∈ to_failed x).
Proof.
  intros Hwf Hm. revert errors s. induction ids as [|id ids IH]; intros errors s; simpl.
  { intros [= <- <-]. exists (mkOutcome [] None []), errors, []. simpl. split_and!; try done; [apply extends_refl|set_solver..]. }
  unfold mbind, st_bind, st_try. destruct (tryProviderWithBackoff o id filters s) as [r1 s1] eqn:H1.
  apply tryProvider_served in H1 as (calls & He & Hids & Hr); [|done..]. destruct r1 as [ev|e].
  - intros [= <- <-]. destruct ev as [ev|]; [|done]. destruct Hr as [Ha Hin].
    exists (mkOutcome calls (Some ev) []), errors, (id :: ids). simpl. split_and!; try done; [| |set_solver..].
    + eapply Forall_impl; [exact Hids|]. set_solver.
    + intros ? [= <-]. eauto.
  - intros ([calls' ev failed] & errors' & rest & -> & He' & -> & Hev & Hc' & Hok & Ha' & Hf' & Herr)%IH. destruct Hr as [Ha Hcalled]. simpl in *.
    exists (mkOutcome (calls ++ calls') ev (id :: failed)), errors', rest. simpl. split_and!; try done.
    + by eapply extends_trans.
    + apply Forall_app. split; (eapply Forall_impl; [done|]); set_solver.
    + intros ev0 Hev0. destruct (Hok ev0 Hev0) as (k & ? & ?). exists k. split; [done|set_solver].
    + by rewrite answers_app, Ha, Ha'.
    + intros k [-> |Hk]%elem_of_cons Hs; [destruct (Hcalled Hs) as [e' ?]|destruct (Hf' k Hk Hs) as [e' ?]]; exists e'; set_solver.
    + intros k. rewrite Herr, elem_of_cons. destruct (decide (id = k)) as [<-|Hk].
      * rewrite lookup_insert_eq. split; [auto|]. intros _. left. by eexists.
      * rewrite lookup_insert_ne by done. naive_solver.
Qed.

(** What a run over the requested types did. *)
Record types_served (o : Orchestrator) (consider : list string -> list string) (types : list ProviderType)
    (s s' : OState) (r0 r : LookupResult) (outs : list type_outcome) : Prop := {
  tsv_each : Forall2 (type_served o consider) types outs;
  tsv_calls : extends s s' (mjoin (to_calls <$> outs));
  tsv_evidence : res_Evidence r = res_Evidence r0 ++ omap to_evidence outs;
  tsv_errors : errors_recorded o types outs (res_Errors r0) (res_Errors r);
}.

Lemma types_served_nil o consider s r : types_served o consider [] s s r r [].
Proof. split; [constructor|apply extends_refl|by rewrite app_nil_r|]. intros id. set_solver. Qed.

Lemma types_served_cons o consider t types s s1 s2 r0 r1 r2 x outs :
  type_served o consider t x -> extends s s1 (to_calls x) ->
  res_Evidence r1 = res_Evidence r0 ++ option_list (to_evidence x) ->
  errors_recorded o [t] [x] (res_Errors r0) (res_Errors r1) ->
  types_served o consider types s1 s2 r1 r2 outs -> types_served o consider (t :: types) s s2 r0 r2 (x :: outs).
Proof.
  intros Hx He Hev Her [Hf Hc He2 Her2]. split; [by constructor|by apply (extends_trans _ s1)| |].
  - rewrite He2, Hev, <- (assoc_L (++)). f_equal. simpl. by destruct (to_evidence x).
  - intros id. rewrite (Her2 id), (Her id). simpl. rewrite app_nil_r, elem_of_app. set_solver.
Qed.

(** A type without sources, and one with an outcome. *)
Lemma no_source_served o consider t : consider [] = [] -> sources o t [] -> type_served o consider t (mkOutcome [] None []).
Proof.
  intros Hc Hs. split; simpl; [|done|set_solver]. exists [], []. rewrite Hc. split_and!; try done.
Qed.

Lemma no_source_recorded o t r e x : sources o t [] -> to_failed x = [] ->
  errors_recorded o [t] [x] (res_Errors r) (<["no-provider" := e]> (res_Errors r)).
Proof.
  intros Hs Hf id. simpl. rewrite Hf. simpl. destruct (decide (id = "no-provider")) as [-> |Hne].
  - rewrite lookup_insert_eq. split; [|by eexists]. intros _. right. right. split; [done|]. exists t. set_solver.
  - rewrite lookup_insert_ne by done. set_solver.
Qed.

Lemma failed_recorded o t ids (errors errors' : gmap string error) x : sources o t ids -> ids <> [] ->
  (forall id, is_Some (errors' !! id) <-> is_Some (errors !! id) \/ id ∈ to_failed x) -> errors_recorded o [t] [x] errors errors'.
Proof.
  intros Hs Hne He id. rewrite (He id). simpl. rewrite app_nil_r. split; [naive_solver|]. intros [?|[?|(_ & t' & Ht & Hn)]]; [auto..|exfalso].
  apply list_elem_of_singleton in Ht as ->. inversion Hs; inversion Hn; subst; simplify_eq; naive_solver.
Qed.

Lemma insert_recorded (errors : gmap string error) k e :
  forall id, is_Some (<[k := e]> errors !! id) <-> is_Some (errors !! id) \/ id ∈ [k].
Proof.
  intros id. rewrite list_elem_of_singleton. destruct (decide (k = id)) as [<-|Hne].
  - rewrite lookup_insert_eq. split; [auto|by eexists].
  - rewrite lookup_insert_ne by done. naive_solver.
Qed.

Lemma primary_types_served o filters types r0 s r s' : registry_wf o ->
  primary_types o filters types r0 s = (r, s') -> exists r' outs, r = Ok r' /\ types_served o (take 1) types s s' r0 r' outs.
Proof.
  intros Hwf. revert r0 s. induction types as [|t types IH]; intros r0 s; simpl.
  { intros [= <- <-]. eexists _, []. split; [done|apply types_served_nil]. }
  pose proof (getChainForType_sources o t Hwf) as Hsrc. destruct (getChainForType o t) as [chain|e].
  2: { intros (r' & outs & -> & Ht)%IH. eexists _, (mkOutcome [] None [] :: outs). split; [done|].
       eapply types_served_cons; [|apply extends_refl| | |exact Ht].
       - by apply no_source_served.
       - by rewrite app_nil_r.
       - by apply no_source_recorded. }
  unfold Registry_Get. destruct (or_registry o !! pc_Primary chain) as [p|] eqn:Hp.
  2: { intros (r' & outs & -> & Ht)%IH. eexists _, (mkOutcome [] None [pc_Primary chain] :: outs). split; [done|].
       eapply types_served_cons; [|apply extends_refl| | |exact Ht].
       - split; simpl; [|done|].
         + eexists _, []. split; [exact Hsrc|]. simpl. by split_and!.
         + intros id ->%list_elem_of_singleton. rewrite Hp. by intros [? [=]].
       - by rewrite app_nil_r.
       - eapply failed_recorded; [exact Hsrc|done|]. apply insert_recorded. }
  unfold mbind, st_bind. destruct (st_try (provider_call p filters) s) as [[x|e] s1] eqn:Hx.
  2: { unfold st_try in Hx. by destruct (provider_call p filters s). }
  apply provider_call_extends in Hx. pose proof (Hwf _ _ Hp) as Hid. rewrite Hid in *.
  destruct x as [ev|e]; intros (r' & outs & -> & Ht)%IH.
  - eexists _, (mkOutcome [(pc_Primary chain, Ok ev)] (Some ev) [] :: outs). split; [done|].
    eapply types_served_cons; [|exact Hx| | |exact Ht]; [|done|].
    + split; simpl; [|done|set_solver]. eexists _, [pc_Primary chain]. split; [exact Hsrc|]. simpl. split_and!; try done.
      * repeat constructor; set_solver.
      * intros ? [= <-]. exists (pc_Primary chain). split; [done|set_solver].
    + eapply failed_recorded; [exact Hsrc|done|]. set_solver.
  - eexists _, (mkOutcome [(pc_Primary chain, Err e)] None [pc_Primary chain] :: outs). split; [done|].
    eapply types_served_cons; [|exact Hx| | |exact Ht].
    + split; simpl; [|done|].
      * eexists _, []. split; [exact Hsrc|]. simpl. split_and!; try done. repeat constructor; set_solver.
      * intros id ->%list_elem_of_singleton _. exists e. set_solver.
    + by rewrite app_nil_r.
    + eapply failed_recorded; [exact Hsrc|done|]. apply insert_recorded.
Qed.

Lemma fallback_types_served o filters types r0 s r s' : registry_wf o -> 0 <= bc_MaxRetries (or_backoff o) ->
  fallback_types o filters types r0 s = (r, s') -> exists r' outs, r = Ok r' /\ types_served o id types s s' r0 r' outs.
Proof.
  intros Hwf Hm. revert r0 s. induction types as [|t types IH]; intros r0 s; simpl.
  { intros [= <- <-]. eexists _, []. split; [done|apply types_served_nil]. }
  pose proof (getChainForType_sources o t Hwf) as Hsrc. destruct (getChainForType o t) as [chain|e].
  2: { intros (r' & outs & -> & Ht)%IH. eexists _, (mkOutcome [] None [] :: outs). split; [done|].
       eapply types_served_cons; [|apply extends_refl| | |exact Ht].
       - by apply no_source_served.
       - by rewrite app_nil_r.
       - by apply no_source_recorded. }
  unfold mbind, st_bind. destruct (tryChainWithFallback o chain filters (res_Errors r0) s) as [x s1] eqn:Hx.
  apply try_chain_served in Hx as (x' & errors' & rest & -> & He & Hids & Hev & Hc & Hok & Ha & Hf & Herr); [|done..].
  intros (r' & outs & -> & Ht)%IH. eexists _, (x' :: outs). split; [done|].
  eapply types_served_cons; [|exact He| | |exact Ht].
  - split; [|done..]. eexists _, rest. split; [exact Hsrc|]. by split_and!.
  - simpl. by destruct (to_evidence x').
  - eapply failed_recorded; [exact Hsrc|done|exact Herr].
Qed.

(** The calls are answers of registered providers to the filters of the request. *)
Definition answered (o : Orchestrator) (filters : gmap string string) (c : string * res Evidence) : Prop :=
  exists p w w', or_registry o !! c.1 = Some p /\ pv_Lookup p filters w = (c.2, w').

Definition all_answered (o : Orchestrator) (filters : gmap string string) (before : list (string * res Evidence)) (s : OState) : Prop :=
  exists calls, os_calls s = before ++ calls /\ Forall (answered o filters) calls.

Section asked.
Context (o : Orchestrator) (filters : gmap string string) (before : list (string * res Evidence)).
Hypothesis Hwf : registry_wf o.
Abbreviation Inv := (all_answered o filters before).

Lemma answered_call p id : or_registry o !! id = Some p -> st_keeps Inv (provider_call p filters) (fun _ => True).
Proof.
  intros Hp s r s' (calls & Hc & Hf). unfold provider_call. destruct (pv_Lookup p filters (os_world s)) as [x w] eqn:E.
  intros [= <- <-]. split; [|done]. exists (calls ++ [(pv_ID p, x)]). simpl. rewrite Hc, (assoc_L (++)). split; [done|].
  apply Forall_app. split; [done|]. constructor; [|constructor]. exists p, (os_world s), w. simpl. by rewrite (Hwf id p Hp).
Qed.

Lemma answered_attempts b n p id lastErr delay : or_registry o !! id = Some p ->
  st_keeps Inv (attempts_loop b n p filters lastErr delay) (fun _ => True).
Proof.
  intros Hp. revert lastErr delay. induction n as [|n IH]; intros lastErr delay; simpl.
  { destruct lastErr; [apply keeps_fail|by apply keeps_ret]. }
  assert (forall delay, st_keeps Inv (r ← st_try (provider_call p filters);
    match r with Ok ev => mret (Some ev) | Err e => if negb (IsRetryable e) then st_fail e else attempts_loop b n p filters (Some e) delay end)
    (fun _ => True)) as Ha.
  { intros d. eapply keeps_bind; [by eapply keeps_try, answered_call|]. intros [ev|e] _; [by apply keeps_ret|].
    destruct (negb _); [apply keeps_fail|apply IH]. }
  destruct lastErr as [e|]; [|apply Ha]. eapply (keeps_bind _ _ _ (fun _ => True)).
  { intros s r s' Hi. unfold tryConsumeRetry. destruct (os_budget s <=? 0); intros [= <- <-]; by split. }
  intros ok _. destruct ok; simpl; [|apply keeps_fail]. eapply (keeps_bind _ _ _ (fun _ => True)); [|intros _ _; apply Ha].
  intros s r s' Hi. unfold wait_or_done. destruct (wait _ _). intros [= <- <-]. by split.
Qed.

Lemma answered_chain ids errors : st_keeps Inv (try_chain o ids filters errors) (fun _ => True).
Proof.
  revert errors. induction ids as [|k ids IH]; intros errors; simpl; [by apply keeps_ret|].
  eapply keeps_bind; [|intros [ev|e] _; [by apply keeps_ret|apply IH]]. apply (keeps_try _ _ (fun _ => True)).
  unfold tryProviderWithBackoff, Registry_Get. destruct (or_registry o !! k) eqn:Hp; [by eapply answered_attempts|apply keeps_fail].
Qed.

Lemma answered_fallback types r : st_keeps Inv (fallback_types o filters types r) (fun _ => True).
Proof.
  revert r. induction types as [|t types IH]; intros r; simpl; [by apply keeps_ret|].
  destruct (getChainForType o t); [|apply IH]. eapply keeps_bind; [apply answered_chain|]. intros [ev errors] _. apply IH.
Qed.

Lemma answered_primary types r : st_keeps Inv (primary_types o filters types r) (fun _ => True).
Proof.
  revert r. induction types as [|t types IH]; intros r; simpl; [by apply keeps_ret|].
  destruct (getChainForType o t) as [chain|]; [|apply IH]. unfold Registry_Get. destruct (or_registry o !! _) eqn:Hp; [|apply IH].
  eapply keeps_bind; [by eapply keeps_try, answered_call|]. intros [ev|e] _; apply IH.
Qed.

Lemma answered_lookups ps r : (forall p, p ∈ ps -> or_registry o !! pv_ID p = Some p) -> st_keeps Inv (run_lookups filters ps r) (fun _ => True).
Proof.
  revert r. induction ps as [|p ps IH]; intros r Hin; simpl; [by apply keeps_ret|].
  eapply keeps_bind; [eapply keeps_try, answered_call, Hin; left|]. intros x _. apply IH. set_solver.
Qed.
End asked.

(** A parallel lookup calls each provider once. *)
Lemma run_lookups_served filters ps r0 s r s' :
  run_lookups filters ps r0 s = (r, s') -> exists r' calls, r = Ok r' /\ extends s s' calls /\ calls.*1 = pv_ID <$> ps /\
    res_Evidence r' = res_Evidence r0 ++ answers calls /\
    forall id, is_Some (res_Errors r' !! id) <-> is_Some (res_Errors r0 !! id) \/ exists e, (id, Err e) ∈ calls.
Proof.
  revert r0 s. induction ps as [|p ps IH]; intros r0 s; simpl.
  { intros [= <- <-]. exists r0, []. split_and!; [done|apply extends_refl|done|by rewrite app_nil_r|]. intros id.
    split; [auto|intros [?|[e He%elem_of_nil]]; done]. }
  unfold mbind, st_bind. destruct (st_try (provider_call p filters) s) as [[x|e] s1] eqn:Hx.
  2: { unfold st_try in Hx. by destruct (provider_call p filters s). }
  apply provider_call_extends in Hx. intros (r' & calls & -> & He & Hc & Hev & Her)%IH.
  exists r', ((pv_ID p, x) :: calls). split_and!; [done|by apply (extends_trans _ _ _ _ _ Hx He)|by rewrite fmap_cons, Hc| |].
  - rewrite Hev. destruct x; simpl; [by rewrite <- (assoc_L (++))|done].
  - intros id. rewrite (Her id). destruct x as [ev|e]; simpl.
    + split; [intros [?|[e ?]]; [auto|right; exists e; set_solver]|]. intros [?|[e [[=]|?]%elem_of_cons]]; eauto.
    + rewrite insert_recorded, list_elem_of_singleton. split.
      * intros [[?| ->]|[e' ?]]; [auto|right; exists e; set_solver|right; exists e'; set_solver].
      * intros [?|[e' [[= -> ->]|?]%elem_of_cons]]; eauto.
Qed.

Definition of_types (o : Orchestrator) (types : list ProviderType) : list Provider :=
  mjoin ((fun t => filter (fun p => cap_Type (pv_Capabilities p) = t) (map_to_list (or_registry o)).*2) <$> types).

Lemma parallel_providers o types :
  concat (Registry_ListByType (or_registry o) <$> types) ≡ₚ of_types o types.
Proof.
  unfold of_types. induction types as [|t types IH]; [done|]. simpl. rewrite IH. apply Permutation_app; [|done].
  unfold Registry_ListByType. by rewrite map_order_perm.
Qed.

Lemma of_types_registered o types p : registry_wf o -> p ∈ of_types o types -> or_registry o !! pv_ID p = Some p.
Proof.
  intros Hwf (l & Hp & (t & -> & _)%list_elem_of_fmap)%list_elem_of_join.
  apply list_elem_of_filter in Hp as [_ ([id q] & -> & Hin%elem_of_map_to_list)%list_elem_of_fmap]. simpl. by rewrite (Hwf id q Hin).
Qed.

(** The requested types served one after the other, or all at once. *)
Definition asked_in_order (o : Orchestrator) (consider : list string -> list string) (types : list ProviderType)
    (calls : list (string * res Evidence)) (r : LookupResult) : Prop :=
  exists outs, Forall2 (type_served o consider) types outs /\ calls = mjoin (to_calls <$> outs) /\
    res_Evidence r = omap to_evidence outs /\ errors_recorded o types outs ∅ (res_Errors r).

Definition asked_at_once (o : Orchestrator) (types : list ProviderType) (calls : list (string * res Evidence)) (r : LookupResult) : Prop :=
  calls.*1 ≡ₚ pv_ID <$> of_types o types /\ forall id, is_Some (res_Errors r !! id) <-> exists e, (id, Err e) ∈ calls.

Lemma served_answers o consider types outs :
  Forall2 (type_served o consider) types outs -> answers (mjoin (to_calls <$> outs)) = omap to_evidence outs.
Proof.
  induction 1 as [|t x types outs Hx _ IH]; [done|]. rewrite fmap_cons.
  change (mjoin (to_calls x :: (to_calls <$> outs))) with (to_calls x ++ mjoin (to_calls <$> outs)).
  rewrite answers_app, IH, (tse_answers _ _ _ _ Hx). simpl. by destruct (to_evidence x).
Qed.

Lemma served_in_order o consider types s s' r outs :
  types_served o consider types s s' (mkLResult [] ∅) r outs ->
  let calls := mjoin (to_calls <$> outs) in
  os_calls s' = os_calls s ++ calls /\ res_Evidence r = answers calls /\ asked_in_order o consider types calls r.
Proof.
  intros [Hf [Hc _ _] Hev Her]. split_and!; [done|rewrite Hev; symmetry; by apply (served_answers o consider types)|by exists outs].
Qed.

Lemma same_calls o filters s s' calls : os_calls s' = os_calls s ++ calls -> all_answered o filters (os_calls s) s' -> Forall (answered o filters) calls.
Proof. intros Hc (calls' & Hc' & Hf). rewrite Hc in Hc'. apply app_inv_head in Hc' as ->. done. Qed.

Lemma none_answered o filters s : all_answered o filters (os_calls s) s.
Proof. exists []. split; [by rewrite app_nil_r|constructor]. Qed.

(** C34: A lookup asks whom it should and reports their answers and nothing else.  Under
    the primary, fallback and parallel strategies, without correlation rules, it always
    returns a result.  Every call is an answer of a registered provider to the filters
    of the request, and the evidence is exactly the successful answers, in order.  For
    each requested type, in order, the primary strategy asks the primary of the type's
    chain (or, without a chain, a registered provider of the type) and the fallback
    strategy asks the primary and then the secondaries until one answers: the type's
    evidence is that answer, those before it were called and failed, those after it are
    not called, and the errors recorded are exactly the failed ones (and no-provider for
    a type without sources).  The parallel strategy calls every provider of the types
    once and records exactly those that failed.  The lookup fails exactly when there is
    no evidence and some error. *)
Theorem lookup_evidence_exact (o : Orchestrator) (req : LookupRequest) (s s' : OState)
    (r : res (option LookupResult * option error)) :
  (forall l, sched l ≡ₚ l) -> registry_wf o -> 0 <= bc_MaxRetries (or_backoff o) -> or_rules o = [] ->
  lr_Strategy req ∈ [StrategyPrimary; StrategyFallback; StrategyParallel] ->
  Orchestrator_Lookup o req s = (r, s') ->
  exists res err calls, r = Ok (Some res, err) /\ os_calls s' = os_calls s ++ calls /\
    Forall (answered o (lr_Filters req)) calls /\ res_Evidence res = answers calls /\
    (err = None \/ err = Some (EVal ErrAllProvidersFailed)) /\
    (err = None <-> res_Evidence res <> [] \/ res_Errors res = ∅) /\
    match lr_Strategy req with
    | StrategyPrimary => asked_in_order o (take 1) (lr_Types req) calls res
    | StrategyFallback => asked_in_order o id (lr_Types req) calls res
    | _ => asked_at_once o (lr_Types req) calls res
    end.
Proof.
  intros Hsched Hwf Hm Hrules Hs. unfold Orchestrator_Lookup. rewrite !elem_of_cons, elem_of_nil in Hs.
  destruct Hs as [Hs|[Hs|[Hs|[]]]]; rewrite Hs; unfold lookupPrimary, lookupFallback, lookupParallel;
    unfold mbind, st_bind, mret, st_ret, st_modify.
  - destruct (primary_types _ _ _ _ _) as [r1 s1] eqn:H1.
    destruct (answered_primary o (lr_Filters req) (os_calls s) Hwf _ _ s r1 s1 (none_answered _ _ _) H1) as [Hans _].
    apply primary_types_served in H1 as (r' & outs & -> & (Hc & Hev & Ho)%served_in_order); [|done]. intros [= <- <-].
    exists r', (finish r').2, (mjoin (to_calls <$> outs)). split_and!; [done..|by eapply same_calls|done|apply finish_err|apply finish_err_iff|done].
  - destruct (fallback_types _ _ _ _ _) as [r1 s1] eqn:H1.
    destruct (answered_fallback o (lr_Filters req) (os_calls s) Hwf _ _ _ r1 s1
      (none_answered _ _ (mkOS (os_world s) (os_calls s) (os_waits s) _)) H1) as [Hans _].
    apply fallback_types_served in H1 as (r' & outs & -> & (Hc & Hev & Ho)%served_in_order); [|done..]. intros [= <- <-].
    exists r', (finish r').2, (mjoin (to_calls <$> outs)). split_and!; [done..|by eapply same_calls|done|apply finish_err|apply finish_err_iff|done].
  - set (ps := sched _). assert (ps ≡ₚ of_types o (lr_Types req)) as Hps by (subst ps; rewrite Hsched; apply parallel_providers).
    destruct (run_lookups _ ps _ _) as [r1 s1] eqn:H1.
    destruct (answered_lookups o (lr_Filters req) (os_calls s) Hwf ps (mkLResult [] ∅)
      ltac:(intros p Hp; rewrite Hps in Hp; by eapply of_types_registered) s r1 s1 (none_answered _ _ _) H1) as [Hans _].
    apply run_lookups_served in H1 as (r' & calls & -> & [Hc _ _] & Hids & Hev & Her). simpl in Hev, Her.
    unfold applyCorrelationRules. rewrite Hrules. simpl. intros [= <- <-]. exists r', (finish r').2, calls.
    split_and!; [done..|by eapply same_calls|done|apply finish_err|apply finish_err_iff|]. split; [by rewrite Hids, Hps|].
    intros id. rewrite (Her id). split; [intros [[? [=]]|?]|]; auto.
Qed.

(** A chain is tried in order.  The providers before the one that answers have all
    failed, and their errors and no others are recorded; the providers after it are
    not called; the evidence is the only answer received, and there is none exactly
    when the whole chain failed.  No provider is called more than [MaxRetries + 1]
    times, and every retry is paid for from the shared budget. *)
Theorem fallback_chain_exact (o : Orchestrator) (chain : ProviderChain) (filters : gmap string string)
    (errors : gmap string error) (s s' : OState) (r : res (option Evidence * gmap string error)) :
  0 <= bc_MaxRetries (or_backoff o) ->
  tryChainWithFallback o chain filters errors s = (r, s') ->
  exists ev errors' failed rest calls, r = Ok (ev, errors') /\
    pc_Primary chain :: pc_Secondary chain = failed ++ rest /\ extends s s' calls /\
    answers calls = option_list ev /\ (ev = None <-> rest = []) /\
    (forall id, is_Some (errors' !! id) <-> is_Some (errors !! id) \/ id ∈ failed) /\
    Forall (fun c => exists id p, (id ∈ failed \/ head rest = Some id) /\ or_registry o !! id = Some p /\ c.1 = pv_ID p) calls /\
    Z.of_nat (length calls) <= Z.of_nat (length (failed ++ option_list (head rest))) * (bc_MaxRetries (or_backoff o) + 1).
Proof. intros Hm H. by eapply try_chain_spec. Qed.

(** Retries of one provider.  A provider is called again only after a retryable
    failure, each time after a wait no longer than the larger of the initial and the
    maximal delay and at the price of one unit of the budget, which never drops below
    zero.  The result is the provider's last answer; when that is a retryable failure,
    the retries or the budget are used up, or the deadline ended a wait. *)
Theorem retry_discipline (o : Orchestrator) (id : string) (p : Provider) (filters : gmap string string)
    (s s' : OState) (r : res (option Evidence)) :
  or_registry o !! id = Some p -> 0 <= bc_MaxRetries (or_backoff o) ->
  tryProviderWithBackoff o id filters s = (r, s') ->
  exists rs ds, loop_spec (or_backoff o) p (Z.to_nat (bc_MaxRetries (or_backoff o) + 1)) []
    (bc_InitialDelay (or_backoff o)) s s' r rs ds /\ r <> Ok None.
Proof.
  intros Hp Hm. unfold tryProviderWithBackoff, Registry_Get. rewrite Hp. intros (rs & ds & H)%attempts_loop_spec; [|done].
  exists rs, ds. split; [done|]. intros ->. destruct (ls_result _ _ _ _ _ _ _ _ _ _ H). lia.
Qed.

End orchestrator.

(** *** Correlation *)

(** The order of [float64] without NaN, as a lexicographic key. *)
Definition float_key (f : float64) : Z * Z * Z :=
  match f with
  | S754_nan => (0, 0, 0)
  | S754_infinity true => (-2, 0, 0)
  | S754_finite true m e => (-1, - e, Z.neg m)
  | S754_zero _ => (0, 0, 0)
  | S754_finite false m e => (1, e, Z.pos m)
  | S754_infinity false => (2, 0, 0)
  end.

Definition key_lt (a b : Z * Z * Z) : Prop :=
  a.1.1 < b.1.1 \/ (a.1.1 = b.1.1 /\ (a.1.2 < b.1.2 \/ (a.1.2 = b.1.2 /\ a.2 < b.2))).

Lemma SFltb_key a b : a <> S754_nan -> b <> S754_nan -> SFltb a b = true <-> key_lt (float_key a) (float_key b).
Proof.
  intros Ha Hb. unfold SFltb, SFcompare, key_lt.
  destruct a as [sa|sa| |[] ma ea], b as [sb|sb| |[] mb eb]; try done;
    try destruct sa; try destruct sb; simpl; try (split; [done|lia]); try (split; [lia|done]).
  all: destruct (Z.compare_spec ea eb); simpl; try (split; [done|lia]); try (split; [lia|done]).
  all: change (Pos.compare_cont Eq ma mb) with (Pos.compare ma mb); destruct (Pos.compare_spec ma mb); simpl;
    try (split; [done|lia]); try (split; [lia|done]).
Qed.

Definition not_nan (e : Evidence) : Prop := ev_Confidence e <> S754_nan.

(** [e] has no lower confidence than [e']. *)
Definition confidence_ge (e e' : Evidence) : Prop := SFltb (ev_Confidence e) (ev_Confidence e') = false.

Lemma confidence_ge_key e e' : not_nan e -> not_nan e' ->
  confidence_ge e e' <-> ~ key_lt (float_key (ev_Confidence e)) (float_key (ev_Confidence e')).
Proof.
  intros H H'. unfold confidence_ge. rewrite <- SFltb_key by done. by rewrite not_true_iff_false.
Qed.

Lemma confidence_ge_refl e : not_nan e -> confidence_ge e e.
Proof. intros H. apply confidence_ge_key; [done..|]. unfold key_lt. lia. Qed.

Lemma confidence_ge_trans a b c : not_nan a -> not_nan b -> not_nan c ->
  confidence_ge a b -> confidence_ge b c -> confidence_ge a c.
Proof. intros Ha Hb Hc. rewrite !confidence_ge_key by done. unfold key_lt. lia. Qed.

Lemma confidence_lt_ge a b : not_nan a -> not_nan b ->
  SFltb (ev_Confidence a) (ev_Confidence b) = true -> confidence_ge b a.
Proof. intros Ha Hb H. apply confidence_ge_key; [done..|]. apply SFltb_key in H; [|done..]. unfold key_lt in *. lia. Qed.

Lemma best_evidence_in first rest : best_evidence first rest ∈ first :: rest.
Proof.
  unfold best_evidence. revert first. induction rest as [|e rest IH]; intros first; simpl; [left|].
  case_match; [right; apply IH|]. pose proof (IH first). set_solver.
Qed.

Lemma best_evidence_spec first rest :
  Forall not_nan (first :: rest) ->
  best_evidence first rest ∈ first :: rest /\ Forall (confidence_ge (best_evidence first rest)) (first :: rest).
Proof.
  unfold best_evidence. revert first. induction rest as [|e rest IH]; intros first Hn; simpl.
  { split; [left|]. constructor; [|constructor]. apply confidence_ge_refl. by inversion Hn. }
  inversion Hn as [|? ? Hf Hr]; subst. inversion Hr as [|? ? He Hr']; subst.
  destruct (SFltb (ev_Confidence first) (ev_Confidence e)) eqn:Hlt.
  - destruct (IH e Hr) as [Hin Hge]. split; [set_solver|]. constructor; [|done].
    inversion Hge; subst. eapply (confidence_ge_trans _ e); try done; [|by apply confidence_lt_ge].
    by eapply Forall_forall in Hr; [|exact Hin].
  - destruct (IH first) as [Hin Hge]; [by constructor|]. split; [set_solver|]. inversion Hge; subst.
    constructor; [done|]. constructor; [|done]. eapply (confidence_ge_trans _ first); try done.
    rewrite elem_of_cons in Hin. destruct Hin as [->|Hin]; [done|]. by eapply Forall_forall in Hr'; [|exact Hin].
Qed.

Lemma size_gt_1 (X : gset string) : (1 < size X)%nat <-> exists x y, x ∈ X /\ y ∈ X /\ x <> y.
Proof.
  split.
  - intros H. unfold size, set_size in H. simpl in H. destruct (elements X) as [|x [|y l]] eqn:E; simpl in H; [lia..|].
    exists x, y. rewrite <- !elem_of_elements, E. pose proof (NoDup_elements X) as Hnd. rewrite E in Hnd.
    inversion Hnd; subst. set_solver.
  - intros (x & y & Hx & Hy & Hne). assert (size ({[x; y]} : gset string) <= size X)%nat as Hs
      by (apply subseteq_size; set_solver).
    rewrite size_union in Hs by set_solver. rewrite !size_singleton in Hs. lia.
Qed.

Lemma field_values_spec field evidence v :
  v ∈ field_values field evidence <-> exists e, e ∈ evidence /\ ev_Data e !! field = Some (AnyString v).
Proof.
  unfold field_values. trans (v ∈ (∅ : gset string) \/ exists e, e ∈ evidence /\ ev_Data e !! field = Some (AnyString v)); [|set_solver].
  generalize (∅ : gset string) as acc. induction evidence as [|e evidence IH]; intros acc; simpl; [set_solver|].
  rewrite IH. setoid_rewrite elem_of_cons. destruct (ev_Data e !! field) as [[s|b|t]|] eqn:E; set_solver.
Qed.

(** Two citizen sources disagree on a field. *)
Definition disagree (field : string) (evidence : list Evidence) : Prop :=
  exists e1 e2 v1 v2, e1 ∈ evidence /\ e2 ∈ evidence /\ v1 <> v2 /\
    ev_Data e1 !! field = Some (AnyString v1) /\ ev_Data e2 !! field = Some (AnyString v2).

Lemma conflict_field field evidence :
  (1 <? size (field_values field evidence))%nat = true <-> disagree field evidence.
Proof.
  rewrite Nat.ltb_lt, size_gt_1. unfold disagree. setoid_rewrite field_values_spec. split.
  - intros (x & y & (e1 & H1 & K1) & (e2 & H2 & K2) & Hne). by exists e1, e2, x, y.
  - intros (e1 & e2 & x & y & H1 & H2 & Hne & K1 & K2). exists x, y. split_and!; [by exists e1|by exists e2|done].
Qed.

Lemma disagree_length field evidence : disagree field evidence -> (length evidence <? 2)%nat = false.
Proof.
  intros (e1 & e2 & v1 & v2 & H1 & H2 & Hne & K1 & K2). apply Nat.ltb_ge.
  destruct evidence as [|a [|b l]]; simpl; [set_solver| |lia].
  apply list_elem_of_singleton in H1 as ->. apply list_elem_of_singleton in H2 as ->. congruence.
Qed.

Lemma detectConflicts_spec cfg evidence field :
  field ∈ detectConflicts cfg evidence <->
  (field = nc_FullNameField cfg \/ field = nc_DateOfBirthField cfg) /\ disagree field evidence.
Proof.
  unfold detectConflicts. destruct (length evidence <? 2)%nat eqn:Hl.
  { split; [by intros ?%elem_of_nil|]. intros [_ Hd]. apply disagree_length in Hd. congruence. }
  rewrite elem_of_app.
  destruct (1 <? size (field_values (nc_FullNameField cfg) evidence))%nat eqn:H1,
    (1 <? size (field_values (nc_DateOfBirthField cfg) evidence))%nat eqn:H2;
    rewrite ?conflict_field, ?list_elem_of_singleton, ?elem_of_nil in *;
    try (rewrite <- not_true_iff_false, conflict_field in H1); try (rewrite <- not_true_iff_false, conflict_field in H2);
    naive_solver.
Qed.

(** Reconciling citizen sources.  The merged record carries the data, the time and
    the confidence of a citizen source that no other citizen source exceeds in
    confidence, and it names a conflict on the name or the date of birth exactly when
    two citizen sources give different strings for that field; evidence of other
    types has no influence. *)
Theorem citizen_merge_exact (cfg : CitizenNameRuleConfig) (evidence : list Evidence) (m : Evidence) :
  Forall not_nan evidence -> CitizenNameRule_Merge cfg evidence = Ok m ->
  let citizens := filter (fun e => ev_ProviderType e = ProviderTypeCitizen) evidence in
  (exists best, best ∈ citizens /\ Forall (confidence_ge best) citizens /\ ev_Data m = ev_Data best /\
     ev_Confidence m = ev_Confidence best /\ ev_CheckedAt m = ev_CheckedAt best) /\
  ev_Metadata m !! "conflicts" =
    match detectConflicts cfg citizens with [] => None | fields => Some (String.concat "," fields) end /\
  (forall field, field ∈ detectConflicts cfg citizens <->
     (field = nc_FullNameField cfg \/ field = nc_DateOfBirthField cfg) /\ disagree field citizens).
Proof.
  intros Hn H citizens. unfold CitizenNameRule_Merge in H. destruct (length evidence =? 0)%nat; [done|].
  fold citizens in H. assert (Forall not_nan citizens) as Hc.
  { apply Forall_forall. intros x [_ Hx]%list_elem_of_filter. by eapply Forall_forall in Hn. }
  destruct citizens as [|e0 rest]; [done|]. apply best_evidence_spec in Hc as [Hin Hge].
  injection H as <-. split_and!; [|by destruct (detectConflicts cfg (e0 :: rest))|intros; apply detectConflicts_spec].
  by exists (best_evidence e0 rest).
Qed.

(** With the citizen rule configured, a parallel lookup that gets two citizen
    answers keeps the merged citizen record only: evidence of every other type,
    a sanctions listing included, is dropped from the result. *)
Theorem citizen_rule_drops_other_evidence {W : Type} (o : @Orchestrator W) (cfg : CitizenNameRuleConfig) (r : LookupResult) :
  or_rules o = [CitizenNameRule cfg] -> CitizenNameRule_Applicable (ev_ProviderType <$> res_Evidence r) = true ->
  exists m, res_Evidence (applyCorrelationRules o r) = [m] /\ ev_ProviderType m = ProviderTypeCitizen.
Proof.
  intros Hr Ha. unfold applyCorrelationRules. rewrite Hr. simpl. unfold CitizenNameRule_Applicable in *.
  apply Nat.ltb_lt in Ha. assert (length (filter (fun t => t = ProviderTypeCitizen) (ev_ProviderType <$> res_Evidence r))
    = length (filter (fun e => ev_ProviderType e = ProviderTypeCitizen) (res_Evidence r))) as Hf.
  { clear. induction (res_Evidence r) as [|e l IH]; [done|]. rewrite fmap_cons, !filter_cons.
    case_decide; simpl; rewrite IH; done. }
  pose proof (length_filter (fun e => ev_ProviderType e = ProviderTypeCitizen) (res_Evidence r)) as Hle.
  rewrite (proj2 (Nat.ltb_ge _ _)) by lia. simpl. rewrite (proj2 (Nat.ltb_lt _ _)) by lia.
  unfold CitizenNameRule_Merge. rewrite (proj2 (Nat.eqb_neq _ _)) by lia.
  destruct (filter _ (res_Evidence r)) as [|e0 rest]; [simpl in *; lia|]. by eexists.
Qed.

(** *** Voting *)

Definition vote_step (m : gmap string Evidence) (e : Evidence) : gmap string Evidence :=
  match m !! ev_ProviderType e with
  | Some existing => if SFltb (ev_Confidence existing) (ev_Confidence e) then <[ev_ProviderType e := e]> m else m
  | None => <[ev_ProviderType e := e]> m
  end.

Lemma vote_steps evidence : vote evidence = foldl vote_step ∅ evidence.
Proof. done. Qed.

(** The entry of a type is the best evidence of that type seen so far. *)
Lemma vote_step_lookup m e t :
  vote_step m e !! t =
  if bool_decide (ev_ProviderType e = t)
  then Some (match m !! t with Some e0 => best_evidence e0 [e] | None => e end) else m !! t.
Proof.
  unfold vote_step, best_evidence. simpl. case_bool_decide as Ht.
  - subst t. destruct (m !! ev_ProviderType e) as [e0|] eqn:E; [case_match|]; by rewrite ?lookup_insert_eq.
  - destruct (m !! ev_ProviderType e); [case_match|]; by rewrite ?lookup_insert_ne.
Qed.

Lemma vote_fold_lookup evidence m t :
  foldl vote_step m evidence !! t =
  match option_list (m !! t) ++ filter (fun e => ev_ProviderType e = t) evidence with
  | [] => None
  | e0 :: rest => Some (best_evidence e0 rest)
  end.
Proof.
  revert m. induction evidence as [|e evidence IH]; intros m; simpl; [by destruct (m !! t)|].
  rewrite IH, vote_step_lookup, filter_cons. case_bool_decide; case_decide; try done. by destruct (m !! t).
Qed.

Lemma vote_lookup evidence t :
  vote evidence !! t =
  match filter (fun e => ev_ProviderType e = t) evidence with
  | [] => None
  | e0 :: rest => Some (best_evidence e0 rest)
  end.
Proof. rewrite vote_steps, vote_fold_lookup. by rewrite lookup_empty. Qed.

Lemma filter_values (m : gmap string Evidence) t :
  map_Forall (fun k e => ev_ProviderType e = k) m ->
  filter (fun e => ev_ProviderType e = t) (map_to_list m).*2 ≡ₚ option_list (m !! t).
Proof.
  induction m as [|k e m Hk IH] using map_ind; intros Hm; [by rewrite map_to_list_empty, lookup_empty|].
  rewrite map_to_list_insert by done. simpl. rewrite filter_cons.
  apply map_Forall_insert in Hm as [<- Hm]; [|done]. specialize (IH Hm). case_decide as Ht.
  - subst t. rewrite IH, Hk. by rewrite lookup_insert_eq.
  - by rewrite IH, lookup_insert_ne.
Qed.

Lemma vote_types evidence : map_Forall (fun k e => ev_ProviderType e = k) (vote evidence).
Proof.
  intros t e. rewrite vote_lookup. destruct (filter _ evidence) as [|e0 rest] eqn:E; [done|]. intros [= <-].
  pose proof (best_evidence_in e0 rest) as Hin. rewrite <- E in Hin. by apply list_elem_of_filter in Hin as [? _].
Qed.

(** Voting.  The result of a voting lookup has, for each type that the parallel
    lookup has evidence of, exactly one piece of evidence: one of that type whose
    confidence no other of that type exceeds; a type without answers has none. *)
Theorem voting_highest_confidence {W : Type} (map_order : list (@Provider W) -> list Provider)
    (sched : list Provider -> list Provider) (vote_order : list Evidence -> list Evidence)
    (o : Orchestrator) (req : LookupRequest) (s s1 s2 : OState) (r r' : LookupResult) (err : option error) :
  (forall l, vote_order l ≡ₚ l) ->
  lookupParallel map_order sched o req s = (Ok (r, None), s1) -> Forall not_nan (res_Evidence r) ->
  lookupVoting map_order sched vote_order o req s = (Ok (r', err), s2) ->
  err = None /\ res_Errors r' = res_Errors r /\
  forall t,
    match filter (fun e => ev_ProviderType e = t) (res_Evidence r') with
    | [] => filter (fun e => ev_ProviderType e = t) (res_Evidence r) = []
    | [e] => e ∈ res_Evidence r /\ Forall (confidence_ge e) (filter (fun e => ev_ProviderType e = t) (res_Evidence r))
    | _ => False
    end.
Proof.
  intros Ho Hp Hn. unfold lookupVoting, mbind, st_bind. rewrite Hp. intros [= <- <- _]. simpl. split_and!; [done..|].
  intros t. assert (filter (fun e => ev_ProviderType e = t) (vote_order (map_to_list (vote (res_Evidence r))).*2)
    ≡ₚ option_list (vote (res_Evidence r) !! t)) as Hf by (rewrite Ho; apply filter_values, vote_types).
  rewrite vote_lookup in Hf. destruct (filter _ (res_Evidence r)) as [|e0 rest] eqn:E.
  - apply Permutation_nil_r in Hf. by rewrite Hf.
  - apply Permutation_singleton_r in Hf. rewrite Hf. simpl.
    destruct (best_evidence_spec e0 rest) as [Hin Hge].
    { rewrite <- E. apply Forall_forall. intros x [_ Hx]%list_elem_of_filter. by eapply Forall_forall in Hn. }
    split; [|done]. rewrite <- E in Hin. by apply list_elem_of_filter in Hin as [_ ?].
Qed.

(** *** Examples *)

Module OrchestratorExample.
Definition caps (t : ProviderType) : Capabilities := mkCaps "http" t [] "v1.0.0" ["national_id"].
Definition wait (d : duration) : ST nat error unit := fun w => (Ok tt, w).

(** Times out on its first [n] calls, then answers. *)
Definition flaky (n : nat) (id : string) (t : ProviderType) (confidence : float64) : @Provider nat :=
  mkProvider id (caps t)
    (fun _ w => if (w <? n)%nat then (Err (NewProviderError ErrorTimeout id "request timeout" None), S w)
                else (Ok (mkEv id t confidence {["full_name" := AnyString id]} 7 ∅), w))
    (fun w => (Ok tt, w)).

Definition backoff (retries budget : Z) : BackoffConfig := mkBackoff 0 0 retries float_zero budget.

(** A primary that never answers and a secondary that answers at the third call. *)
Definition orchestrator : Orchestrator :=
  Orchestrator_New
    (<["a" := flaky 1000 "a" ProviderTypeCitizen float_one]> {["b" := flaky 6 "b" ProviderTypeCitizen float_one]})
    StrategyDefault {[ProviderTypeCitizen := mkChain "a" ["b"]]} [] (backoff 0 0).
Lemma orchestrator_wf : registry_wf orchestrator.
Proof.
  intros id p Hp. unfold orchestrator in Hp. simpl in Hp. apply lookup_insert_Some in Hp as [[<- <-]|[_ Hp]]; [done|].
  by apply lookup_singleton_Some in Hp as [<- <-].
Qed.
Definition start : @OState nat := mkOS 0%nat [] [] 10.
Definition req (s : LookupStrategy) : LookupRequest := mkLookup [ProviderTypeCitizen] ∅ s.

(** Two citizen registries that agree on nothing, the second more confident. *)
Definition half : float64 := S754_finite false 4503599627370496 (-53).
Definition evidence : list Evidence :=
  [mkEv "a" ProviderTypeCitizen half {["full_name" := AnyString "A"]} 7 ∅;
   mkEv "s" ProviderTypeSanctions float_one {["listed" := AnyBool true]} 7 ∅;
   mkEv "b" ProviderTypeCitizen float_one {["full_name" := AnyString "B"]} 7 ∅].
Definition names : CitizenNameRuleConfig := NewCitizenNameRule (mkNameCfg "" "").
Definition pair_orchestrator : Orchestrator :=
  Orchestrator_New
    (<["a" := flaky 0 "a" ProviderTypeCitizen half]> {["b" := flaky 0 "b" ProviderTypeCitizen float_one]})
    StrategyVoting ∅ [] (backoff 0 0).
End OrchestratorExample.
Import OrchestratorExample.

Lemma lookup_evidence_exact_witness :
  exists r s' res err calls outs, Orchestrator_Lookup id wait id id orchestrator (req StrategyFallback) start = (r, s') /\
    r = Ok (Some res, err) /\ os_calls s' = calls /\ Forall2 (type_served orchestrator id) [ProviderTypeCitizen] outs /\
    calls = mjoin (to_calls <$> outs) /\ calls.*1 = ["a"; "a"; "a"; "a"; "b"; "b"; "b"] /\ length (omap to_evidence outs) = 1%nat.
Proof.
  destruct (Orchestrator_Lookup id wait id id orchestrator (req StrategyFallback) start) as [r s'] eqn:E.
  destruct (lookup_evidence_exact id wait id id (fun l => reflexivity l) orchestrator (req StrategyFallback) start s' r)
    as (res & err & calls & Hr & Hc & _ & Hans & _ & _ & outs & Ho & Hcalls & Hev & Her);
    [reflexivity|apply orchestrator_wf|vm_compute; congruence|reflexivity|right; left|exact E|].
  assert (calls = os_calls (Orchestrator_Lookup id wait id id orchestrator (req StrategyFallback) start).2) as Hcv
    by (rewrite E; symmetry; exact Hc).
  assert (length (res_Evidence res) = 1%nat) as Hlen by (rewrite Hans, Hcv; vm_compute; reflexivity).
  exists r, s', res, err, calls, outs. split_and!; [reflexivity|exact Hr|exact Hc|exact Ho|exact Hcalls| |].
  - rewrite Hcv. vm_compute. reflexivity.
  - rewrite <- Hev. exact Hlen.
Defined.

Lemma fallback_chain_exact_witness :
  exists r s' ev errors' failed rest, tryChainWithFallback wait orchestrator (mkChain "a" ["b"]) ∅ ∅ start = (r, s') /\
    r = Ok (ev, errors') /\ ["a"; "b"] = failed ++ rest /\ (ev = None <-> rest = []).
Proof.
  destruct (tryChainWithFallback wait orchestrator (mkChain "a" ["b"]) ∅ ∅ start) as [r s'] eqn:E.
  destruct (fallback_chain_exact wait orchestrator (mkChain "a" ["b"]) ∅ ∅ start s' r)
    as (ev & errors' & failed & rest & calls & Hr & Hids & _ & _ & Hev & _); [vm_compute; congruence|exact E|].
  exists r, s', ev, errors', failed, rest. split_and!; [reflexivity|exact Hr|exact Hids|exact Hev].
Defined.

Lemma retry_discipline_witness :
  exists r s' rs ds, tryProviderWithBackoff wait orchestrator "b" ∅ start = (r, s') /\
    loop_spec wait (or_backoff orchestrator) (flaky 6 "b" ProviderTypeCitizen float_one) 4 [] (100 * Millisecond) start s' r rs ds.
Proof.
  destruct (tryProviderWithBackoff wait orchestrator "b" ∅ start) as [r s'] eqn:E.
  destruct (retry_discipline wait orchestrator "b" (flaky 6 "b" ProviderTypeCitizen float_one) ∅ start s' r)
    as (rs & ds & H & _); [reflexivity|vm_compute; congruence|exact E|].
  exists r, s', rs, ds. split; [reflexivity|exact H].
Defined.

Lemma citizen_merge_exact_witness :
  exists m best, CitizenNameRule_Merge names evidence = Ok m /\ ev_Metadata m !! "conflicts" = Some "full_name" /\
    best ∈ evidence /\ ev_Data m = ev_Data best.
Proof.
  destruct (CitizenNameRule_Merge names evidence) as [m|e] eqn:E; [|vm_compute in E; discriminate E].
  assert (Forall not_nan evidence) as Hn by (repeat constructor; discriminate).
  destruct (citizen_merge_exact names evidence m Hn E) as ((best & Hin & _ & Hd & _) & Hc & _).
  exists m, best. split_and!; [reflexivity| |exact (proj2 (proj1 (list_elem_of_filter _ _ _) Hin))|exact Hd].
  rewrite Hc. vm_compute. reflexivity.
Defined.

Lemma citizen_rule_drops_other_evidence_witness :
  exists m, res_Evidence (applyCorrelationRules (Orchestrator_New (W := nat) ∅ StrategyParallel ∅ [CitizenNameRule names] (backoff 0 0))
      (mkLResult evidence ∅)) = [m] /\ ev_ProviderType m = ProviderTypeCitizen.
Proof. apply (citizen_rule_drops_other_evidence _ names); [reflexivity|vm_compute; reflexivity]. Defined.

Lemma voting_highest_confidence_witness :
  exists r r' s1 s2, lookupParallel id id pair_orchestrator (req StrategyVoting) start = (Ok (r, None), s1) /\
    lookupVoting id id id pair_orchestrator (req StrategyVoting) start = (Ok (r', None), s2) /\
    length (res_Evidence r) = 2%nat /\ res_Errors r' = res_Errors r /\ length (res_Evidence r') = 1%nat.
Proof.
  destruct (lookupParallel id id pair_orchestrator (req StrategyVoting) start) as [[[r e]|e] s1] eqn:E1;
    [|vm_compute in E1; discriminate E1].
  destruct (lookupVoting id id id pair_orchestrator (req StrategyVoting) start) as [[[r' e']|e'] s2] eqn:E2;
    [|vm_compute in E2; discriminate E2].
  assert (e = None) as -> by (vm_compute in E1; congruence).
  destruct (voting_highest_confidence id id id pair_orchestrator (req StrategyVoting) start s1 s2 r r' e') as (-> & Her & _);
    [reflexivity|exact E1| |exact E2|].
  - vm_compute in E1. injection E1 as <- _. repeat constructor; discriminate.
  - exists r, r', s1, s2. split_and!; [reflexivity|reflexivity| |exact Her|].
    + vm_compute in E1. injection E1 as <- _. reflexivity.
    + vm_compute in E2. injection E2 as <- _. reflexivity.
Defined.

(** A configured budget of ten does not limit the retries of a lookup to ten: the
    budget the code sets up is never below one thousand. *)
Theorem retry_budget_not_enforced :
  exists o : @Orchestrator nat, exists s', bc_GlobalRetryBudget (or_backoff o) = 10 /\
    (Orchestrator_Lookup id wait id id o (req StrategyFallback) start).2 = s' /\ length (os_waits s') = 20%nat.
Proof.
  exists (Orchestrator_New {["a" := flaky 1000 "a" ProviderTypeCitizen float_one]} StrategyDefault
    {[ProviderTypeCitizen := mkChain "a" []]} [] (backoff 20 10)).
  eexists. split_and!; [reflexivity|reflexivity|vm_compute; reflexivity].
Qed.
