(* ===== verification/AuditTrail.v ===== *)
(** * Audit events and publishers
    [pkg/platform/audit/models.go], [pkg/platform/audit/store/memory/],
    [pkg/platform/audit/publishers/] (compliance, security, ops, factory)

    The three publishers write to an [audit.Store], a class here.  Compliance
    events are written before the caller goes on; security events pass through the
    circular buffer of [Ring] and are retried; operational events are sampled and
    dropped while a breaker is open.  A history of the security publisher is a list of
    emissions and batch flushes: a batch leaves the buffer at once and persisting it
    does not touch the buffer again, so an emission during a flush is one after it. *)
From Stdlib Require Import SpecFloat.
From S2P Require Import Prelude Errors Ring.
Open Scope Z_scope.

(** ** Events *)

(** String types: a cast may produce any value. *)
Abbreviation EventCategory := string (only parsing).
Definition CategoryCompliance : EventCategory := "compliance".
Definition CategorySecurity : EventCategory := "security".
Definition CategoryOperations : EventCategory := "operations".

Record AuditEvent := mkEvent {
  ae_Category : EventCategory;
  ae_Timestamp : time;
  ae_UserID : uuid;
  ae_Subject : string;
  ae_Action : string;
  ae_Purpose : string;
  ae_RequestingParty : string;
  ae_Decision : string;
  ae_Reason : string;
  ae_Email : string;
  ae_RequestID : string;
  ae_ActorID : string;
  ae_SubjectIDHash : string;
}.

#[global] Instance AuditEvent_eq_dec : EqDecision AuditEvent.
Proof. solve_decision. Defined.

Definition eventCategories : gmap string EventCategory :=
  list_to_map
    [("user_created", CategoryCompliance); ("user_deleted", CategoryCompliance);
     ("consent_granted", CategoryCompliance); ("consent_revoked", CategoryCompliance);
     ("consent_deleted", CategoryCompliance);
     ("auth_failed", CategorySecurity); ("session_revoked", CategorySecurity);
     ("sessions_revoked", CategorySecurity); ("client_secret_rotated", CategorySecurity);
     ("rate_limit_exceeded", CategorySecurity); ("auth_lockout_triggered", CategorySecurity);
     ("auth_lockout_cleared", CategorySecurity); ("allowlist_bypassed", CategorySecurity);
     ("tenant_deactivated", CategorySecurity); ("client_deactivated", CategorySecurity);
     ("session_created", CategoryOperations); ("token_issued", CategoryOperations);
     ("token_refreshed", CategoryOperations); ("userinfo_accessed", CategoryOperations);
     ("consent_checked", CategoryOperations); ("tenant_created", CategoryOperations);
     ("tenant_reactivated", CategoryOperations); ("client_created", CategoryOperations);
     ("client_reactivated", CategoryOperations);
     ("decision_made", CategoryCompliance)].

Definition AuditEvent_Category (action : string) : EventCategory :=
  default CategoryOperations (eventCategories !! action).

#[global] Arguments AuditEvent_Category : simpl never.

Lemma AuditEvent_Category_nonempty action : AuditEvent_Category action <> "".
Proof.
  assert (map_Forall (fun _ c => c <> "") eventCategories) as H by (apply (bool_decide_unpack _); vm_compute; exact I).
  unfold AuditEvent_Category. destruct (eventCategories !! action) as [c|] eqn:E; [by apply (H action)|done].
Qed.

Record ComplianceEvent := mkCompliance {
  co_Timestamp : time;
  co_UserID : uuid;
  co_Subject : string;
  co_Action : string;
  co_Purpose : string;
  co_Decision : string;
  co_SubjectIDHash : string;
  co_RequestID : string;
  co_ActorID : string;
}.

#[global] Instance ComplianceEvent_eq_dec : EqDecision ComplianceEvent.
Proof. solve_decision. Defined.

Definition Compliance_ToLegacyEvent (e : ComplianceEvent) : AuditEvent :=
  mkEvent CategoryCompliance (co_Timestamp e) (co_UserID e) (co_Subject e) (co_Action e) (co_Purpose e) ""
    (co_Decision e) "" "" (co_RequestID e) (co_ActorID e) (co_SubjectIDHash e).

Inductive Severity := SeverityInfo | SeverityWarning | SeverityCritical | SeverityOther (s : string).

Record SecurityEvent := mkSecurity {
  se_Timestamp : time;
  se_Subject : string;
  se_Action : string;
  se_Reason : string;
  se_IP : string;
  se_RequestID : string;
  se_ActorID : string;
  se_Severity : Severity;
}.

#[global] Instance SecurityEvent_inhabited : Inhabited SecurityEvent :=
  populate (mkSecurity zero_time "" "" "" "" "" "" (SeverityOther "")).

(** The address and the severity have no field in [Event]. *)
Definition Security_ToLegacyEvent (e : SecurityEvent) : AuditEvent :=
  mkEvent CategorySecurity (se_Timestamp e) 0 (se_Subject e) (se_Action e) "" "" "" (se_Reason e) ""
    (se_RequestID e) (se_ActorID e) "".

Record OpsEvent := mkOps { oe_Timestamp : time; oe_Subject : string; oe_Action : string; oe_RequestID : string }.

Definition Ops_ToLegacyEvent (e : OpsEvent) : AuditEvent :=
  mkEvent CategoryOperations (oe_Timestamp e) 0 (oe_Subject e) (oe_Action e) "" "" "" "" ""
    (oe_RequestID e) "" "".

(** ** The store interface

    A store keeps events in a form of its own; a successful [Append] adds exactly
    the event.  A failed one adds nothing, or the event all the same: the reply of an
    insert that was done can be lost. *)
Class AuditStore (S : Type) := {
  audit_Append : AuditEvent -> ST S error unit;
  audit_events : S -> list AuditEvent;
  audit_form : AuditEvent -> AuditEvent;
  audit_Append_Ok : forall e s s', audit_Append e s = (Ok tt, s') -> audit_events s' ≡ₚ audit_form e :: audit_events s;
  audit_Append_Err : forall e s err s', audit_Append e s = (Err err, s') ->
    audit_events s' = audit_events s \/ audit_events s' ≡ₚ audit_form e :: audit_events s;
}.

(** A store whose failed appends store nothing, such as the in-memory one. *)
Class AuditStoreAtomic (S : Type) `{AuditStore S} : Prop :=
  audit_Append_none : forall e s err s', audit_Append e s = (Err err, s') -> audit_events s' = audit_events s.

(** ** The in-memory store *)

Module MemoryStore.
Record InMemoryAuditStore := mkMem { ms_events : gmap uuid (list AuditEvent) }.

Definition NewInMemoryAuditStore : InMemoryAuditStore := mkMem ∅.
Definition Clear (s : InMemoryAuditStore) : InMemoryAuditStore := mkMem ∅.

Definition Append (e : AuditEvent) : ST InMemoryAuditStore error unit := fun s =>
  (Ok tt, mkMem (<[ae_UserID e := default [] (ms_events s !! ae_UserID e) ++ [e]]> (ms_events s))).

Definition ListByUser (userID : uuid) (s : InMemoryAuditStore) : list AuditEvent := default [] (ms_events s !! userID).

(** The users in the order in which Go ranges over the map. *)
Definition ListAll (s : InMemoryAuditStore) : list AuditEvent := concat (map_to_list (ms_events s)).*2.

(** [None] is the panic of slicing beyond the end, for a negative limit. *)
Definition ListRecent (limit : Z) (s : InMemoryAuditStore) : option (list AuditEvent) :=
  let all := ListAll s in
  let start := Z.of_nat (length all) - limit in
  let start := if start <? 0 then 0 else start in
  if Z.of_nat (length all) <? start then None else Some (drop (Z.to_nat start) all).

Lemma ListAll_insert m userID (l : list AuditEvent) :
  ListAll (mkMem (<[userID := l]> m)) ≡ₚ l ++ ListAll (mkMem (delete userID m)).
Proof.
  unfold ListAll. simpl. rewrite <- insert_delete_eq. rewrite map_to_list_insert by apply lookup_delete_eq. done.
Qed.

Lemma ListAll_delete m userID (l : list AuditEvent) :
  m !! userID = Some l -> ListAll (mkMem m) ≡ₚ l ++ ListAll (mkMem (delete userID m)).
Proof. intros H. rewrite <- (insert_id m userID l H) at 1. apply ListAll_insert. Qed.

Lemma Append_adds e s s' : Append e s = (Ok tt, s') -> ListAll s' ≡ₚ e :: ListAll s.
Proof.
  intros [= <-]. destruct s as [m]. simpl. rewrite ListAll_insert, <- (assoc_L (++)).
  destruct (m !! ae_UserID e) as [l|] eqn:E; simpl.
  - rewrite (ListAll_delete m _ _ E). by rewrite Permutation_middle.
  - by rewrite delete_id.
Qed.
End MemoryStore.

#[global] Program Instance memory_audit_store : AuditStore MemoryStore.InMemoryAuditStore := {|
  audit_Append := MemoryStore.Append;
  audit_events := MemoryStore.ListAll;
  audit_form := id;
|}.
Next Obligation. intros. by apply MemoryStore.Append_adds. Qed.
Next Obligation. intros ? ? ? ? [=]. Qed.

#[global] Instance memory_audit_store_atomic : AuditStoreAtomic MemoryStore.InMemoryAuditStore.
Proof. intros ? ? ? ? [=]. Qed.

Section publishers.
Context {S : Type} `{AuditStore S}.

(** ** Compliance: synchronous, fail-closed *)

Definition Compliance_Emit (now : time) (event : ComplianceEvent) : ST S error unit :=
  if IsNil (co_UserID event) then st_fail (EOther "compliance event requires UserID")
  else if str_empty (co_Action event) then st_fail (EOther "compliance event requires Action")
  else
    let event := mkCompliance (if time_IsZero (co_Timestamp event) then now else co_Timestamp event)
      (co_UserID event) (co_Subject event) (co_Action event) (co_Purpose event) (co_Decision event)
      (co_SubjectIDHash event) (co_RequestID event) (co_ActorID event) in
    r ← st_try (audit_Append (Compliance_ToLegacyEvent event));
    match r with
    | Err e => st_fail (EWrap "compliance audit persistence failed" e)
    | Ok _ => mret tt
    end.

(** The event as stored. *)
Definition compliance_stored (now : time) (e : ComplianceEvent) : AuditEvent :=
  audit_form (mkEvent CategoryCompliance (if time_IsZero (co_Timestamp e) then now else co_Timestamp e)
    (co_UserID e) (co_Subject e) (co_Action e) (co_Purpose e) "" (co_Decision e) "" "" (co_RequestID e)
    (co_ActorID e) (co_SubjectIDHash e)).

Lemma Compliance_Emit_spec now e s r s' :
  Compliance_Emit now e s = (r, s') ->
  match r with
  | Ok _ => audit_events s' ≡ₚ compliance_stored now e :: audit_events s
  | Err _ => audit_events s' = audit_events s \/ audit_events s' ≡ₚ compliance_stored now e :: audit_events s
  end.
Proof.
  unfold Compliance_Emit, st_fail, st_try, mbind, st_bind, mret, st_ret.
  destruct (IsNil (co_UserID e)), (str_empty (co_Action e)); [by intros [= <- <-]; left..|].
  destruct (audit_Append _ s) as [[[]|err] s1] eqn:Ha; intros [= <- <-]; [by apply audit_Append_Ok|by eapply audit_Append_Err].
Qed.

Lemma Compliance_Emit_none `{!AuditStoreAtomic S} now e s err s' :
  Compliance_Emit now e s = (Err err, s') -> audit_events s' = audit_events s.
Proof.
  unfold Compliance_Emit, st_fail, st_try, mbind, st_bind, mret, st_ret.
  destruct (IsNil (co_UserID e)), (str_empty (co_Action e)); [by intros [= <- <-]..|].
  destruct (audit_Append _ s) as [[[]|x] s1] eqn:Ha; intros [= <- <-]. by eapply audit_Append_none.
Qed.

(** ** Security: buffered, with retries *)

Record SecurityPublisher := mkSecPub {
  sp_store : S;
  sp_buffer : RingBuffer (Ev := SecurityEvent);
  sp_flushed : Z;
  sp_retries : Z;
  sp_droppedAfterRetry : Z;
  (** Events given up when the context ended: the code keeps no count of them. *)
  sp_abandoned : Z;
}.

Record SecurityConfig := mkSecCfg { sg_maxRetries : Z; sg_retryBackoff : duration; sg_batchSize : Z }.
Definition default_security_config : SecurityConfig := mkSecCfg 3 (100 * Millisecond) 100.

Definition Security_New (bufferSize : Z) (store : S) : SecurityPublisher :=
  mkSecPub store (NewRingBuffer bufferSize) 0 0 0 0.

Definition Security_Emit (now : time) (event : SecurityEvent) (p : SecurityPublisher) : SecurityPublisher :=
  let event := mkSecurity (if time_IsZero (se_Timestamp event) then now else se_Timestamp event)
    (se_Subject event) (se_Action event) (se_Reason event) (se_IP event) (se_RequestID event)
    (se_ActorID event) (se_Severity event) in
  mkSecPub (sp_store p) (RB_Enqueue (sp_buffer p) event) (sp_flushed p) (sp_retries p) (sp_droppedAfterRetry p) (sp_abandoned p).

Record BufferStats := mkStats { bs_Queued : Z; bs_Flushed : Z; bs_Dropped : Z; bs_DroppedAfterRetry : Z; bs_Retries : Z }.
Definition Security_Stats (p : SecurityPublisher) : BufferStats :=
  mkStats (RB_Len (sp_buffer p)) (sp_flushed p) (RB_Dropped (sp_buffer p)) (sp_droppedAfterRetry p) (sp_retries p).

(** Whether the context ends during a wait. *)
Variable cancelled : duration -> S -> bool.

(** [retryBackoff * time.Duration(1<<attempt)] wraps at 64 bits. *)
Definition security_backoff (cfg : SecurityConfig) (attempt : nat) : duration :=
  wrap64 (sg_retryBackoff cfg * wrap64 (2 ^ Z.of_nat attempt)).

(** The loop of [persistWithRetry] from [attempt] on, with [n] attempts left. *)
Fixpoint persist_loop (cfg : SecurityConfig) (n attempt : nat) (event : AuditEvent) (p : SecurityPublisher) : SecurityPublisher :=
  match n with
  | O => mkSecPub (sp_store p) (sp_buffer p) (sp_flushed p) (sp_retries p) (sp_droppedAfterRetry p + 1) (sp_abandoned p)
  | Datatypes.S n' =>
      match audit_Append event (sp_store p) with
      | (Ok _, st) => mkSecPub st (sp_buffer p) (sp_flushed p + 1) (sp_retries p) (sp_droppedAfterRetry p) (sp_abandoned p)
      | (Err _, st) =>
          let retries := sp_retries p + 1 in
          if cancelled (security_backoff cfg attempt) st
          then mkSecPub st (sp_buffer p) (sp_flushed p) retries (sp_droppedAfterRetry p) (sp_abandoned p + 1)
          else persist_loop cfg n' (Datatypes.S attempt) event
                 (mkSecPub st (sp_buffer p) (sp_flushed p) retries (sp_droppedAfterRetry p) (sp_abandoned p))
      end
  end.

Definition persistWithRetry (cfg : SecurityConfig) (event : SecurityEvent) (p : SecurityPublisher) : SecurityPublisher :=
  persist_loop cfg (Z.to_nat (sg_maxRetries cfg + 1)) 0 (Security_ToLegacyEvent event) p.

(** The batch is dequeued at once; [None] is the panic on a negative batch size. *)
Definition flushBatch (cfg : SecurityConfig) (p : SecurityPublisher) : option SecurityPublisher :=
  match RB_DequeueBatch (sp_buffer p) (sg_batchSize cfg) with
  | None => None
  | Some (events, b) =>
      Some (foldl (fun p e => persistWithRetry cfg e p)
              (mkSecPub (sp_store p) b (sp_flushed p) (sp_retries p) (sp_droppedAfterRetry p) (sp_abandoned p)) events)
  end.

(** The final drain of [Close], which runs while the buffer holds events. *)
Fixpoint close_drain (fuel : nat) (cfg : SecurityConfig) (p : SecurityPublisher) : option SecurityPublisher :=
  if RB_Len (sp_buffer p) <=? 0 then Some p
  else
    match fuel with
    | O => None
    | Datatypes.S fuel' => p' ← flushBatch cfg p; close_drain fuel' cfg p'
    end.

(** Each round removes at least one event when the batch size is positive, so the
    number of queued events is fuel enough. *)
Definition Security_Close (cfg : SecurityConfig) (p : SecurityPublisher) : option SecurityPublisher :=
  close_drain (Z.to_nat (RB_Len (sp_buffer p))) cfg p.

(** *** Conservation *)

Definition sec_queued (p : SecurityPublisher) : list SecurityEvent := q_items (rb_abs (sp_buffer p)).

(** Where the events that left the buffer went.  [sf_unseen] are the further copies
    left by appends that reported an error after storing the event. *)
Record fates := mkFates {
  sf_flushed : list SecurityEvent;
  sf_dropped : list SecurityEvent;
  sf_exhausted : list SecurityEvent;
  sf_abandoned : list SecurityEvent;
  sf_unseen : list SecurityEvent;
}.

Definition sec_attempts (cfg : SecurityConfig) : Z := Z.max 0 (sg_maxRetries cfg + 1).

Definition zlen {X} (l : list X) : Z := Z.of_nat (length l).

(** The publisher accounts for the events [gone] from its buffer as [f] says: each is in
    one list, the published statistics are the lengths, the store holds the flushed
    events (and the unseen copies) beside what it held, and the number of failed
    attempts fits: an event given up after its retries used all its attempts, one that
    was stored at least one fewer. *)
Record fates_of (cfg : SecurityConfig) (store : S) (gone : list SecurityEvent) (p : SecurityPublisher) (f : fates) : Prop := {
  fo_gone : gone ≡ₚ sf_flushed f ++ sf_dropped f ++ sf_exhausted f ++ sf_abandoned f;
  fo_stats : Security_Stats p =
    mkStats (zlen (sec_queued p)) (zlen (sf_flushed f)) (zlen (sf_dropped f)) (zlen (sf_exhausted f)) (sp_retries p);
  fo_abandoned : sp_abandoned p = zlen (sf_abandoned f);
  fo_stored : audit_events (sp_store p) ≡ₚ
    (audit_form ∘ Security_ToLegacyEvent <$> sf_flushed f ++ sf_unseen f) ++ audit_events store;
  fo_unseen : Forall (fun e => e ∈ sf_flushed f ++ sf_exhausted f ++ sf_abandoned f) (sf_unseen f);
  fo_unseen_atomic : AuditStoreAtomic S -> sf_unseen f = [];
  fo_unseen_bound : zlen (sf_unseen f) <= sp_retries p;
  fo_retries : sec_attempts cfg * zlen (sf_exhausted f) + zlen (sf_abandoned f) <= sp_retries p <=
    sec_attempts cfg * (zlen (sf_exhausted f) + zlen (sf_abandoned f)) + (sec_attempts cfg - 1) * zlen (sf_flushed f);
}.

(** Which of the three ends the attempts for one event. *)
Inductive ending := EndFlushed | EndExhausted | EndAbandoned.

(** One event's attempts: [k] appends failed, [u] of them storing the event. *)
Record ended (event : AuditEvent) (n : nat) (p p' : SecurityPublisher) (x : ending) (k u : nat) : Prop := {
  en_buffer : sp_buffer p' = sp_buffer p;
  en_retries : sp_retries p' = sp_retries p + Z.of_nat k;
  en_unseen : (u <= k)%nat;
  en_atomic : AuditStoreAtomic S -> u = 0%nat;
  en_stored : audit_events (sp_store p') ≡ₚ
    replicate (u + match x with EndFlushed => 1 | _ => 0 end) (audit_form event) ++ audit_events (sp_store p);
  en_counts : (sp_flushed p', sp_droppedAfterRetry p', sp_abandoned p') =
    match x with
    | EndFlushed => (sp_flushed p + 1, sp_droppedAfterRetry p, sp_abandoned p)
    | EndExhausted => (sp_flushed p, sp_droppedAfterRetry p + 1, sp_abandoned p)
    | EndAbandoned => (sp_flushed p, sp_droppedAfterRetry p, sp_abandoned p + 1)
    end;
  en_attempts : match x with EndFlushed => k < n | EndExhausted => k = n | EndAbandoned => 0 < k <= n end%nat;
}.

Lemma persist_loop_ended cfg n attempt event p : exists x k u, ended event n p (persist_loop cfg n attempt event p) x k u.
Proof.
  revert attempt p. induction n as [|n IH]; intros attempt p; simpl.
  { exists EndExhausted, 0%nat, 0%nat. split; simpl; [done|lia|lia|done|done|done|done]. }
  destruct (audit_Append event (sp_store p)) as [[[]|e] st] eqn:Ha.
  { exists EndFlushed, 0%nat, 0%nat. apply audit_Append_Ok in Ha. split; simpl; [done|lia|lia|done|done|done|lia]. }
  assert (exists u, (u <= 1)%nat /\ (AuditStoreAtomic S -> u = 0%nat) /\
    audit_events st ≡ₚ replicate u (audit_form event) ++ audit_events (sp_store p)) as (u & Hu & Hat & Hst).
  { destruct (audit_Append_Err _ _ _ _ Ha) as [E|E]; [exists 0%nat|].
    - split_and!; [lia|done|by rewrite E].
    - exists 1%nat. split_and!; [lia| |done]. intros Hat. apply Hat in Ha. rewrite Ha in E.
      apply Permutation_length in E. simpl in E. lia. }
  case_match.
  { exists EndAbandoned, 1%nat, u. split; simpl; [done|lia|lia|done|by rewrite Nat.add_0_r|done|lia]. }
  destruct (IH (Datatypes.S attempt) (mkSecPub st (sp_buffer p) (sp_flushed p) (sp_retries p + 1) (sp_droppedAfterRetry p) (sp_abandoned p)))
    as (x & k & u' & []). simpl in *.
  exists x, (Datatypes.S k), (u' + u)%nat. split; simpl; [done|lia|lia| |..].
  - intros Hb. rewrite Hat, en_atomic0 by done. done.
  - rewrite en_stored0, Hst, (assoc_L (++)), <- replicate_add. by replace (u' + u + _)%nat with (u' + match x with EndFlushed => 1 | _ => 0 end + u)%nat by lia.
  - done.
  - destruct x; lia.
Qed.

Definition end_event (e : SecurityEvent) (x : ending) (u : nat) (f : fates) : fates :=
  let unseen := replicate u e ++ sf_unseen f in
  match x with
  | EndFlushed => mkFates (e :: sf_flushed f) (sf_dropped f) (sf_exhausted f) (sf_abandoned f) unseen
  | EndExhausted => mkFates (sf_flushed f) (sf_dropped f) (e :: sf_exhausted f) (sf_abandoned f) unseen
  | EndAbandoned => mkFates (sf_flushed f) (sf_dropped f) (sf_exhausted f) (e :: sf_abandoned f) unseen
  end.

Lemma persist_fates cfg store gone p f e :
  fates_of cfg store gone p f ->
  exists f', fates_of cfg store (gone ++ [e]) (persistWithRetry cfg e p) f' /\ sp_buffer (persistWithRetry cfg e p) = sp_buffer p.
Proof.
  intros [Hg Hst Hab Hs Hu Hua Hub Hr]. unfold persistWithRetry.
  destruct (persist_loop_ended cfg (Z.to_nat (sg_maxRetries cfg + 1)) 0 (Security_ToLegacyEvent e) p) as (x & k & u & []).
  exists (end_event e x u f). split; [|done]. set (p' := persist_loop _ _ _ _ _) in *. clearbody p'.
  unfold Security_Stats, sec_queued, zlen, sec_attempts in *. injection Hst as Hq Hfl Hdr Hex.
  split; unfold Security_Stats, sec_queued, zlen, sec_attempts; rewrite ?en_buffer0.
  - rewrite Hg. destruct x; simpl; solve_Permutation.
  - rewrite Hq, Hdr. f_equal; destruct x; simplify_eq/=; lia.
  - destruct x; simplify_eq/=; lia.
  - rewrite en_stored0, Hs. destruct x; simpl; rewrite ?fmap_app, ?fmap_replicate, ?Nat.add_0_r, ?Nat.add_1_r; simpl; solve_Permutation.
  - destruct x; simpl; (apply Forall_app; split; [apply Forall_replicate; set_solver|eapply Forall_impl; [done|set_solver]]).
  - intros Hat. rewrite (en_atomic0 Hat). destruct x; simpl; by apply Hua.
  - destruct x; simpl; rewrite length_app, length_replicate; lia.
  - destruct x; simpl; nia.
Qed.

Lemma flush_fates cfg store events gone p f :
  fates_of cfg store gone p f ->
  exists f', fates_of cfg store (gone ++ events) (foldl (fun p e => persistWithRetry cfg e p) p events) f' /\
    sp_buffer (foldl (fun p e => persistWithRetry cfg e p) p events) = sp_buffer p.
Proof.
  revert gone p f. induction events as [|e events IH]; intros gone p f Hf; simpl; [rewrite app_nil_r; eauto|].
  destruct (persist_fates cfg store gone p f e Hf) as (f1 & H1 & Hb). destruct (IH _ _ _ H1) as (f2 & H2 & Hb2).
  exists f2. rewrite <- (assoc_L (++)) in H2. split; [done|by rewrite Hb2].
Qed.

Lemma rb_length (b : RingBuffer (Ev := SecurityEvent)) : length (q_items (rb_abs b)) = rb_count b.
Proof. apply length_ring_end. Qed.

(** The publisher, its buffer well formed, accounts for the events [ems] in order: some
    left the buffer, the rest are queued. *)
Definition account (cfg : SecurityConfig) (store : S) (ems : list SecurityEvent) (p : SecurityPublisher) : Prop :=
  rb_wf (sp_buffer p) /\ exists gone f, ems = gone ++ sec_queued p /\ fates_of cfg store gone p f.

Lemma account_New cfg store bufferSize : account cfg store [] (Security_New bufferSize store).
Proof.
  split; [apply NewRingBuffer_wf|]. exists [], (mkFates [] [] [] [] []). split; [done|].
  split; simpl; [done|done|done|done|constructor|done|done|unfold zlen; simpl; lia].
Qed.

(** [Emit] queues the event with its time, dropping the oldest of a full buffer. *)
Definition stamped (now : time) (e : SecurityEvent) : SecurityEvent :=
  mkSecurity (if time_IsZero (se_Timestamp e) then now else se_Timestamp e) (se_Subject e) (se_Action e)
    (se_Reason e) (se_IP e) (se_RequestID e) (se_ActorID e) (se_Severity e).

Lemma Emit_queue p now e :
  rb_wf (sp_buffer p) -> let p' := Security_Emit now e p in
  rb_wf (sp_buffer p') /\ exists old, sec_queued p ++ [stamped now e] = old ++ sec_queued p' /\
    RB_Dropped (sp_buffer p') = RB_Dropped (sp_buffer p) + zlen old.
Proof.
  intros Hwf p'. destruct (rb_step_refines (sp_buffer p) (OpEnqueue (stamped now e)) Hwf) as (b' & Hb & Hwf' & Ha).
  assert (b' = sp_buffer p') as -> by (unfold rb_step in Hb; simpl; unfold stamped in Hb; congruence). split; [done|].
  unfold sec_queued, RB_Dropped. change (rb_dropped (sp_buffer p')) with (q_dropped (rb_abs (sp_buffer p'))). rewrite Ha.
  unfold q_step. pose proof (rbwf_cap _ Hwf) as Hc. change (q_cap (rb_abs (sp_buffer p))) with (rb_capacity (sp_buffer p)) in *.
  destruct (Nat.leb_spec (rb_capacity (sp_buffer p)) (length (q_items (rb_abs (sp_buffer p))))).
  - destruct (q_items (rb_abs (sp_buffer p))) as [|x q] eqn:E; [simpl in *; lia|]. exists [x]. split; done.
  - exists []. split; [done|]. unfold zlen. simpl. lia.
Qed.

Lemma Security_queued p : RB_Len (sp_buffer p) = zlen (sec_queued p).
Proof. unfold RB_Len, zlen, sec_queued. by rewrite rb_length. Qed.

Lemma Emit_account cfg store ems p now e :
  account cfg store ems p -> account cfg store (ems ++ [stamped now e]) (Security_Emit now e p).
Proof.
  intros (Hwf & gone & f & -> & [Hg Hst Hab Hs Hu Hua Hub Hr]).
  destruct (Emit_queue p now e Hwf) as (Hwf' & old & Hq & Hd). split; [done|].
  unfold Security_Stats in Hst. injection Hst as Hq0 Hfl Hdr Hex.
  exists (gone ++ old), (mkFates (sf_flushed f) (old ++ sf_dropped f) (sf_exhausted f) (sf_abandoned f) (sf_unseen f)).
  split; [by rewrite <- !(assoc_L (++)), Hq|].
  split; cbn [sf_flushed sf_dropped sf_exhausted sf_abandoned sf_unseen]; [rewrite Hg; solve_Permutation| |done..].
  unfold Security_Stats. rewrite Security_queued, Hd. f_equal; [done| |done].
  rewrite Hdr. unfold zlen. rewrite length_app. lia.
Qed.

(** [flushBatch] takes up to a batch of events from the front of the queue. *)
Lemma flushBatch_account cfg store ems p :
  0 <= sg_batchSize cfg -> account cfg store ems p ->
  exists p', flushBatch cfg p = Some p' /\ account cfg store ems p' /\
    sec_queued p' = drop (Z.to_nat (sg_batchSize cfg)) (sec_queued p).
Proof.
  intros Hb (Hwf & gone & f & -> & Hf). unfold flushBatch.
  destruct (rb_step_refines (sp_buffer p) (OpDequeue (Z.to_nat (sg_batchSize cfg))) Hwf) as (b' & Hs & Hwf' & Ha).
  cbn [rb_step] in Hs. rewrite Z2Nat.id in Hs by done. destruct (RB_DequeueBatch (sp_buffer p) (sg_batchSize cfg)) as [[l b0]|]; [|done].
  assert (l = take (Z.to_nat (sg_batchSize cfg)) (sec_queued p) /\ b0 = b') as [-> ->] by (unfold sec_queued; simpl in Hs |- *; split; congruence).
  set (p1 := mkSecPub _ b' _ _ _ _).
  assert (sec_queued p1 = drop (Z.to_nat (sg_batchSize cfg)) (sec_queued p)) as Hq by (unfold sec_queued; subst p1; cbn [sp_buffer]; by rewrite Ha).
  assert (fates_of cfg store gone p1 f) as Hf1.
  { destruct Hf as [Hg Hst Hab Hst' Hu Hua Hub Hr]. split; [done| |done..]. unfold Security_Stats in *.
    injection Hst as Hq0 Hfl Hdr Hex. rewrite Security_queued. f_equal; [done| |done]. rewrite <- Hdr. subst p1.
    unfold RB_Dropped. simpl. change (rb_dropped b') with (q_dropped (rb_abs b')). by rewrite Ha. }
  destruct (flush_fates cfg store (take (Z.to_nat (sg_batchSize cfg)) (sec_queued p)) gone p1 f Hf1) as (f' & Hf' & Hbuf).
  assert (forall q, sp_buffer q = b' -> sec_queued q = drop (Z.to_nat (sg_batchSize cfg)) (sec_queued p)) as Hq'
    by (intros q E; unfold sec_queued; by rewrite E, Ha).
  eexists. split; [done|]. split; [|by apply Hq']. split; [by rewrite Hbuf|]. eexists _, _. split; [|exact Hf'].
  rewrite (Hq' _ Hbuf), <- (assoc_L (++)). by rewrite take_drop.
Qed.

(** A history of a publisher: events emitted and batches flushed, in any order. *)
Inductive sec_op := SecEmit (now : time) (e : SecurityEvent) | SecFlush.

Definition sec_step (cfg : SecurityConfig) (p : SecurityPublisher) (op : sec_op) : option SecurityPublisher :=
  match op with
  | SecEmit now e => Some (Security_Emit now e p)
  | SecFlush => flushBatch cfg p
  end.

Fixpoint sec_run (cfg : SecurityConfig) (p : SecurityPublisher) (ops : list sec_op) : option SecurityPublisher :=
  match ops with
  | [] => Some p
  | op :: ops' => p' ← sec_step cfg p op; sec_run cfg p' ops'
  end.

(** The events emitted, in order, with the times [Emit] gives them. *)
Fixpoint emissions (ops : list sec_op) : list SecurityEvent :=
  match ops with
  | [] => []
  | SecEmit now e :: ops' => stamped now e :: emissions ops'
  | SecFlush :: ops' => emissions ops'
  end.

Lemma sec_run_spec cfg store ops ems p :
  0 <= sg_batchSize cfg -> account cfg store ems p ->
  exists p', sec_run cfg p ops = Some p' /\ account cfg store (ems ++ emissions ops) p'.
Proof.
  intros Hb. revert ems p. induction ops as [|[now e|] ops IH]; intros ems p Ha; cbn [sec_run sec_step emissions].
  - exists p. by rewrite app_nil_r.
  - unfold mbind, option_bind. destruct (IH _ _ (Emit_account cfg store ems p now e Ha)) as (p' & -> & Ha').
    exists p'. by rewrite <- (assoc_L (++)) in Ha'.
  - destruct (flushBatch_account cfg store ems p Hb Ha) as (p1 & -> & Ha1 & _). by apply IH.
Qed.

Lemma close_drain_spec cfg store ems fuel p :
  0 < sg_batchSize cfg -> RB_Len (sp_buffer p) <= Z.of_nat fuel -> account cfg store ems p ->
  exists p', close_drain fuel cfg p = Some p' /\ account cfg store ems p' /\ sec_queued p' = [].
Proof.
  intros Hb. revert p. induction fuel as [|fuel IH]; intros p Hf Ha; simpl; rewrite Security_queued in *; unfold zlen in *;
    (destruct (Z.leb_spec (Z.of_nat (length (sec_queued p))) 0);
      [exists p; split_and!; [done|done|apply nil_length_inv; lia]|]); [lia|].
  destruct (flushBatch_account cfg store ems p) as (p1 & -> & Ha1 & Hl); [lia|done|]. unfold mbind, option_bind.
  apply IH; [|done]. rewrite Security_queued, Hl. unfold zlen. rewrite length_drop. lia.
Qed.


(** Without cancellation nothing is abandoned. *)
Lemma persist_loop_abandoned cfg n attempt event p :
  (forall d s, cancelled d s = false) -> sp_abandoned (persist_loop cfg n attempt event p) = sp_abandoned p.
Proof.
  intros Hc. revert attempt p. induction n as [|n IH]; intros attempt p; simpl; [done|].
  destruct (audit_Append event (sp_store p)) as [[|] st]; [done|]. rewrite Hc, IH. done.
Qed.

End publishers.

(** ** Operations: sampled, behind a breaker *)

Module Ops.
Record OpsCircuitBreaker := mkOCB {
  ocb_threshold : Z; ocb_cooldown : duration; ocb_failures : Z; ocb_openUntil : time; ocb_isOpen : bool;
}.

Definition NewCircuitBreaker (threshold : Z) (cooldown : duration) : OpsCircuitBreaker :=
  mkOCB (if threshold <=? 0 then 5 else threshold) (if cooldown <=? 0 then Minute else cooldown) 0 zero_time false.

(** Both readings of the clock are [now]. *)
Definition Allow (now : time) (cb : OpsCircuitBreaker) : bool * OpsCircuitBreaker :=
  if negb (ocb_isOpen cb) then (true, cb)
  else if time_After now (ocb_openUntil cb)
  then (true, mkOCB (ocb_threshold cb) (ocb_cooldown cb) 0 (ocb_openUntil cb) false)
  else (false, cb).

Definition RecordSuccess (cb : OpsCircuitBreaker) : OpsCircuitBreaker :=
  mkOCB (ocb_threshold cb) (ocb_cooldown cb) 0 (ocb_openUntil cb) false.

Definition RecordFailure (now : time) (cb : OpsCircuitBreaker) : OpsCircuitBreaker :=
  let failures := ocb_failures cb + 1 in
  if ocb_threshold cb <=? failures
  then mkOCB (ocb_threshold cb) (ocb_cooldown cb) failures (time_Add now (ocb_cooldown cb)) true
  else mkOCB (ocb_threshold cb) (ocb_cooldown cb) failures (ocb_openUntil cb) (ocb_isOpen cb).

Definition Reset (cb : OpsCircuitBreaker) : OpsCircuitBreaker :=
  mkOCB (ocb_threshold cb) (ocb_cooldown cb) 0 (ocb_openUntil cb) false.

Definition clamp_rate (rate : spec_float) : spec_float :=
  let zero := S754_zero false in
  let one := S754_finite false 4503599627370496 (-52) in
  let rate := if SFltb rate zero then zero else rate in
  if SFltb one rate then one else rate.

Record Sampler := mkSampler { sa_defaultRate : spec_float; sa_rateByAction : gmap string spec_float }.
Definition NewSampler (defaultRate : spec_float) : Sampler := mkSampler (clamp_rate defaultRate) ∅.
Definition SetRate (action : string) (rate : spec_float) (s : Sampler) : Sampler :=
  mkSampler (sa_defaultRate s) (<[action := clamp_rate rate]> (sa_rateByAction s)).
Definition SetDefaultRate (rate : spec_float) (s : Sampler) : Sampler := mkSampler (clamp_rate rate) (sa_rateByAction s).
Definition rateFor (action : string) (s : Sampler) : spec_float :=
  default (sa_defaultRate s) (sa_rateByAction s !! action).

(** [draw] is [rand.Float64()]. *)
Definition ShouldSample (draw : spec_float) (action : string) (s : Sampler) : bool := SFltb draw (rateFor action s).

Record OpsPublisher := mkOpsPub {
  op_sampler : Sampler;
  op_breaker : OpsCircuitBreaker;
  op_tracked : Z;
  op_sampled : Z;
  op_circuitBreakerDropped : Z;
  op_persistFailures : Z;
}.

(** [Track] up to the goroutine it starts: the event to persist, if any. *)
Definition Track (draw : spec_float) (now : time) (event : OpsEvent) (p : OpsPublisher) : option OpsEvent * OpsPublisher :=
  if negb (ShouldSample draw (oe_Action event) (op_sampler p))
  then (None, mkOpsPub (op_sampler p) (op_breaker p) (op_tracked p) (op_sampled p + 1) (op_circuitBreakerDropped p) (op_persistFailures p))
  else
    let '(allowed, cb) := Allow now (op_breaker p) in
    if negb allowed
    then (None, mkOpsPub (op_sampler p) cb (op_tracked p) (op_sampled p) (op_circuitBreakerDropped p + 1) (op_persistFailures p))
    else
      (Some (mkOps (if time_IsZero (oe_Timestamp event) then now else oe_Timestamp event)
               (oe_Subject event) (oe_Action event) (oe_RequestID event)),
       mkOpsPub (op_sampler p) cb (op_tracked p) (op_sampled p) (op_circuitBreakerDropped p) (op_persistFailures p)).

(** The goroutine. *)
Definition persist {S} `{AuditStore S} (now : time) (event : OpsEvent) (p : OpsPublisher) (store : S) : OpsPublisher * S :=
  match audit_Append (Ops_ToLegacyEvent event) store with
  | (Err _, store') =>
      (mkOpsPub (op_sampler p) (RecordFailure now (op_breaker p)) (op_tracked p) (op_sampled p)
         (op_circuitBreakerDropped p) (op_persistFailures p + 1), store')
  | (Ok _, store') =>
      (mkOpsPub (op_sampler p) (RecordSuccess (op_breaker p)) (op_tracked p + 1) (op_sampled p)
         (op_circuitBreakerDropped p) (op_persistFailures p), store')
  end.

(** The double nearest to 0.1. *)
Definition tenth : spec_float := S754_finite false 7205759403792794 (-56).

Inductive OpsOption := WithSampleRate (rate : spec_float) | WithCircuitThreshold (threshold : Z) | WithCircuitCooldown (d : duration).

Definition apply_ops_option (p : OpsPublisher) (o : OpsOption) : OpsPublisher :=
  let set sa cb := mkOpsPub sa cb (op_tracked p) (op_sampled p) (op_circuitBreakerDropped p) (op_persistFailures p) in
  match o with
  | WithSampleRate rate => set (NewSampler rate) (op_breaker p)
  | WithCircuitThreshold threshold => set (op_sampler p) (NewCircuitBreaker threshold Minute)
  | WithCircuitCooldown d => set (op_sampler p) (NewCircuitBreaker (ocb_threshold (op_breaker p)) d)
  end.

Definition Ops_New (opts : list OpsOption) : OpsPublisher :=
  foldl apply_ops_option (mkOpsPub (NewSampler tenth) (NewCircuitBreaker 5 Minute) 0 0 0 0) opts.

Definition SetSampleRate (action : string) (rate : spec_float) (p : OpsPublisher) : OpsPublisher :=
  mkOpsPub (SetRate action rate (op_sampler p)) (op_breaker p) (op_tracked p) (op_sampled p)
    (op_circuitBreakerDropped p) (op_persistFailures p).

Record OpsStats := mkOpsStats {
  ost_Tracked : Z; ost_Sampled : Z; ost_CircuitBreakerDropped : Z; ost_PersistFailures : Z; ost_CircuitOpen : bool }.
Definition Ops_Stats (p : OpsPublisher) : OpsStats :=
  mkOpsStats (op_tracked p) (op_sampled p) (op_circuitBreakerDropped p) (op_persistFailures p) (ocb_isOpen (op_breaker p)).

(** After the cooldown every caller is let through, not one: the first call closes
    the circuit. *)
Theorem half_open_admits_all (cb : OpsCircuitBreaker) (nows : list time) :
  Forall (fun now => time_After now (ocb_openUntil cb) = true) nows ->
  forall i now, nows !! i = Some now ->
  (Allow now (foldl (fun cb now => (Allow now cb).2) cb (take i nows))).1 = true.
Proof.
  revert cb. induction nows as [|t nows IH]; intros cb Hf i now Hi; [done|].
  inversion Hf as [|? ? Ht Hf']; subst. destruct i as [|i]; simpl in *.
  - injection Hi as ->. unfold Allow. destruct (ocb_isOpen cb); simpl; [by rewrite Ht|done].
  - apply IH; [|done]. eapply Forall_impl; [done|]. intros u Hu. unfold Allow.
    destruct (ocb_isOpen cb); simpl; [|done]. by case_match.
Qed.
End Ops.

(** ** The three publishers together *)

Record AuditConfig := mkAuditCfg {
  ac_SecurityBufferSize : Z;
  ac_SecurityMaxRetries : Z;
  ac_SecurityRetryBackoff : duration;
  ac_OpsSampleRate : spec_float;
  ac_OpsCircuitThreshold : Z;
  ac_OpsCircuitCooldownMs : Z;
}.

Definition DefaultAuditConfig : AuditConfig := mkAuditCfg 10000 3 (100 * Millisecond) Ops.tenth 5 60000.

(** The compliance publisher has no state but the store, which all three share. *)
Record AuditSystem {S : Type} := mkSystem {
  sys_Security : SecurityPublisher (S := S);
  sys_security_config : SecurityConfig;
  sys_Ops : Ops.OpsPublisher;
}.
#[global] Arguments AuditSystem : clear implicits.

Definition AuditSystem_New {S : Type} (store : S) (cfg : AuditConfig) : AuditSystem S :=
  mkSystem _ (Security_New (ac_SecurityBufferSize cfg) store)
    (mkSecCfg (ac_SecurityMaxRetries cfg) (ac_SecurityRetryBackoff cfg) (sg_batchSize default_security_config))
    (Ops.Ops_New [Ops.WithSampleRate (ac_OpsSampleRate cfg); Ops.WithCircuitThreshold (ac_OpsCircuitThreshold cfg);
                  Ops.WithCircuitCooldown (wrap64 (ac_OpsCircuitCooldownMs cfg * Millisecond))]).

(** The server's configuration closes: the batch size is the positive default. *)
Lemma default_system_closes {S : Type} `{AuditStore S} (cancelled : duration -> S -> bool) (store : S) (ops : list sec_op) :
  let sys := AuditSystem_New store DefaultAuditConfig in
  exists p p', sec_run cancelled (sys_security_config sys) (sys_Security sys) ops = Some p /\
    Security_Close cancelled (sys_security_config sys) p = Some p' /\ RB_Len (sp_buffer p') = 0.
Proof.
  simpl. destruct (sec_run_spec cancelled (mkSecCfg 3 (100 * Millisecond) 100) store ops [] (Security_New 10000 store))
    as (p & Hr & Ha); [done|apply account_New|].
  destruct (close_drain_spec cancelled (mkSecCfg 3 (100 * Millisecond) 100) store (emissions ops) (Z.to_nat (RB_Len (sp_buffer p))) p)
    as (p' & Hc & _ & Hl); [done|unfold RB_Len; lia|done|]. exists p, p'. split_and!; [done|done|].
  unfold RB_Len. fold (RB_Len (sp_buffer p')). by rewrite Security_queued, Hl.
Qed.

(** *** Examples *)

Module AuditExample.
(** A store that fails every second call. *)
Record flaky := mkFlaky { fl_events : list AuditEvent; fl_calls : nat }.
#[global] Program Instance flaky_store : AuditStore flaky := {|
  audit_Append e s := if Nat.even (fl_calls s) then (Err (EOther "unavailable"), mkFlaky (fl_events s) (Datatypes.S (fl_calls s)))
                      else (Ok tt, mkFlaky (e :: fl_events s) (Datatypes.S (fl_calls s)));
  audit_events := fl_events;
  audit_form := id;
|}.
Next Obligation. intros e [ev n] s'. simpl. destruct (Nat.even n); intros; simplify_eq; done. Qed.
Next Obligation. intros e [ev n] err s'. simpl. destruct (Nat.even n); intros; simplify_eq; by left. Qed.

Definition event (subject : string) : SecurityEvent := mkSecurity 5 subject "auth_failed" "invalid_password" "10.0.0.1" "" "" SeverityWarning.
Definition ops : list sec_op := [SecEmit 1 (event "a"); SecEmit 2 (event "b"); SecEmit 3 (event "c"); SecFlush; SecEmit 4 (event "d")].
Definition cfg : SecurityConfig := mkSecCfg 3 (100 * Millisecond) 1.
End AuditExample.

