(* ===== verification/Outbox.v ===== *)
(** * The audit outbox
    [pkg/platform/audit/store/postgres/store.go], [pkg/platform/audit/outbox/],
    [pkg/platform/audit/consumer/handler.go], and the queries of
    [pkg/platform/audit/outbox/store/postgres/sqlc/outbox.sql.go]

    Audit events are written to the outbox table, published to Kafka by the worker and
    materialised in the table [audit_events] by the consumer.  The state holds both
    tables and the log of what was given to the producer.  Every SQL statement may
    fail, or be done although its reply is lost, and the producer may fail: [db] and
    [produce] act on a world [W] that the model does not constrain.  Columns have the
    types and constraints of [migrations/000008] and [migrations/000009]: times keep
    the precision of the database, the payload is the JSONB form of the text given.
    [encoding/json], the texts of UUIDs and of times and [uuid.New] are arguments. *)
From S2P Require Import Prelude Errors SqlDb Ring AuditTrail.
Open Scope Z_scope.

(** ** Data *)

Record Entry := mkEntry {
  en_ID : uuid;
  en_AggregateType : string;
  en_AggregateID : string;
  en_EventType : string;
  en_Payload : string;
  en_CreatedAt : time;
  en_ProcessedAt : option time;
}.

Definition Entry_IsPending (e : Entry) : bool := match en_ProcessedAt e with None => true | Some _ => false end.

(** [outboxPayload] and [kafkaPayload] have the same fields. *)
Record Payload := mkPayload {
  pl_ID : string; pl_Category : string; pl_Timestamp : string; pl_UserID : string; pl_Subject : string;
  pl_Action : string; pl_Purpose : string; pl_RequestingParty : string; pl_Decision : string; pl_Reason : string;
  pl_Email : string; pl_RequestID : string; pl_ActorID : string;
}.

Record Message := mkMessage {
  msg_Topic : string; msg_Key : string; msg_Value : string; msg_Headers : gmap string string;
}.

(** A row of [audit_events]; a NULL user is [None]. *)
Record AuditRow := mkRow {
  row_Category : string; row_Timestamp : time; row_UserID : option uuid; row_Subject : string; row_Action : string;
  row_Purpose : string; row_RequestingParty : string; row_Decision : string; row_Reason : string; row_Email : string;
  row_RequestID : string; row_ActorID : string;
}.

Section outbox.
Context {W : Type} {PG : PgTypes} (db : W -> outcome * W) (produce : Message -> ST W error unit).
Context (newID : nat -> uuid) (uuid_String : uuid -> string) (uuid_Parse : string -> option uuid).
Context (format_time : time -> string) (parse_time : string -> option time).
Context (json_Marshal : Payload -> res string) (json_Unmarshal : string -> res Payload).

Record ObState := mkOb {
  ob_rows : list Entry;
  ob_events : gmap uuid AuditRow;
  ob_uuids : nat;
  ob_sent : list (Message * bool);
  ob_world : W;
  (** The entries ever inserted. *)
  ob_inserted : list Entry;
}.

Abbreviation OB A := (ST ObState error A) (only parsing).

Definition set_rows (l : list Entry) (s : ObState) : ObState :=
  mkOb l (ob_events s) (ob_uuids s) (ob_sent s) (ob_world s) (ob_inserted s).

Definition set_world (w : W) (s : ObState) : ObState :=
  mkOb (ob_rows s) (ob_events s) (ob_uuids s) (ob_sent s) w (ob_inserted s).

(** A statement is not done, is refused by the server, or has its effect; then its
    reply may be lost. *)
Definition sql {A} (f : ObState -> result dberr (A * ObState)) : OB A := fun s =>
  let '(o, w) := db (ob_world s) in
  match o, f (set_world w s) with
  | NotDone m, _ => (Err (db_error (DriverError m)), set_world w s)
  | _, Err e => (Err (db_error e), set_world w s)
  | Done, Ok (a, s') => (Ok a, s')
  | DoneUnseen m, Ok (_, s') => (Err (db_error (DriverError m)), s')
  end.

Definition uuid_New : OB uuid := fun s =>
  (Ok (newID (ob_uuids s)), mkOb (ob_rows s) (ob_events s) (S (ob_uuids s)) (ob_sent s) (ob_world s) (ob_inserted s)).

Definition wrap_st {A} (prefix : string) (m : OB A) : OB A := fun s =>
  match m s with (Err e, s') => (Err (EWrap prefix e), s') | r => r end.

(** ** The outbox table *)

Definition set_inserted (row : Entry) (s : ObState) : ObState :=
  mkOb (ob_rows s ++ [row]) (ob_events s) (ob_uuids s) (ob_sent s) (ob_world s) (ob_inserted s ++ [row]).

(** A text of a column [VARCHAR(n)] that must not be empty. *)
Definition nonempty_varchar (n : Z) (x : string) : list (option string) := [varchar n x; check_that (1 <=? char_length x)].

(** The row of an entry: the payload as JSONB prints it, the time at the precision of
    the database; [processed_at] is not among the columns given.  The primary key
    refuses a second row with the same identifier. *)
Definition insert_entry (e : Entry) (s : ObState) : result dberr (unit * ObState) :=
  match jsonb (en_Payload e) with
  | None => Err (PgError invalid_text)
  | Some payload =>
      let row := mkEntry (en_ID e) (en_AggregateType e) (en_AggregateID e) (en_EventType e) payload (ts (en_CreatedAt e)) None in
      match constraints (nonempty_varchar 50 (en_AggregateType e) ++ nonempty_varchar 255 (en_AggregateID e) ++
                         nonempty_varchar 100 (en_EventType e) ++
                         [unique_that (negb (existsb (fun r => en_ID r =? en_ID e)%N (ob_rows s)))]) with
      | Some c => Err (PgError c)
      | None => Ok (tt, set_inserted row s)
      end
  end.
Definition InsertOutboxEntry (e : Entry) : OB unit := sql (insert_entry e).

(** [Store.Append] of the outbox store. *)
Definition Outbox_Append (e : Entry) : OB unit := wrap_st "insert outbox entry" (InsertOutboxEntry e).

Definition NewEntry (now : time) (aggregateType aggregateID eventType payload : string) : OB Entry :=
  entryID ← uuid_New; mret (mkEntry entryID aggregateType aggregateID eventType payload now None).

Definition older (a b : Entry) : Prop := en_CreatedAt a <= en_CreatedAt b.
#[local] Instance older_dec : RelDecision older.
Proof. intros a b. unfold older. apply _. Defined.

Definition pending (l : list Entry) : list Entry := filter (fun e => Entry_IsPending e = true) l.

Definition FetchUnprocessed (limit : Z) : OB (list Entry) :=
  if limit <=? 0 then mret []
  else
    let limit := if 1000 <? limit then 1000 else limit in
    wrap_st "fetch unprocessed entries"
      (sql (fun s => Ok (take (Z.to_nat limit) (merge_sort older (pending (ob_rows s))), s))).

Definition mark (id : uuid) (now : time) (e : Entry) : Entry :=
  if (en_ID e =? id)%N && Entry_IsPending e
  then mkEntry (en_ID e) (en_AggregateType e) (en_AggregateID e) (en_EventType e) (en_Payload e) (en_CreatedAt e) (Some now)
  else e.

Definition MarkProcessed (id : uuid) (processedAt : time) : OB unit :=
  affected ← wrap_st "mark outbox entry processed"
    (sql (fun s =>
       Ok (existsb (fun e => (en_ID e =? id)%N && Entry_IsPending e) (ob_rows s),
           set_rows (mark id (ts processedAt) <$> ob_rows s) s)));
  if affected : bool then mret tt
  else st_fail (EOther ("outbox entry not found or already processed: " +:+ uuid_String id)).

Definition CountPending : OB Z :=
  wrap_st "count pending entries" (sql (fun s => Ok (Z.of_nat (length (pending (ob_rows s))), s))).

Definition old_processed (before : time) (e : Entry) : bool :=
  match en_ProcessedAt e with None => false | Some t => t <? before end.

Definition DeleteProcessedBefore (before : time) : OB Z :=
  wrap_st "delete processed entries"
    (sql (fun s =>
       Ok (Z.of_nat (length (filter (fun e => old_processed (ts before) e = true) (ob_rows s))),
           set_rows (filter (fun e => old_processed (ts before) e = false) (ob_rows s)) s))).

(** ** The audit store *)

Definition event_payload (eventID : uuid) (e : AuditEvent) : Payload :=
  mkPayload (uuid_String eventID) (AuditEvent_Category (ae_Action e)) (format_time (ae_Timestamp e))
    (if IsNil (ae_UserID e) then "" else uuid_String (ae_UserID e))
    (ae_Subject e) (ae_Action e) (ae_Purpose e) (ae_RequestingParty e) (ae_Decision e) (ae_Reason e) (ae_Email e)
    (ae_RequestID e) (ae_ActorID e).

Definition Store_Append (now : time) (e : AuditEvent) : OB unit :=
  eventID ← uuid_New;
  payload ← st_lift (match json_Marshal (event_payload eventID e) with
                     | Err err => Err (EWrap "marshal audit payload" err) | Ok b => Ok b end);
  entryID ← uuid_New;
  wrap_st "insert outbox entry"
    (InsertOutboxEntry
       (mkEntry entryID (if IsNil (ae_UserID e) then "audit" else "user")
          (uuid_String (if IsNil (ae_UserID e) then eventID else ae_UserID e)) (ae_Action e) payload now None)).

(** The constraints of [audit_events] on a row. *)
Definition row_refused (r : AuditRow) : option string :=
  constraints [varchar 30 (row_Category r); varchar 255 (row_Subject r); varchar 100 (row_Action r); varchar 100 (row_Purpose r);
    varchar 255 (row_RequestingParty r); varchar 50 (row_Decision r); varchar 500 (row_Reason r); varchar 255 (row_Email r);
    varchar 255 (row_RequestID r); varchar 255 (row_ActorID r);
    check_that (bool_decide (row_Category r ∈ [CategoryCompliance; CategorySecurity; CategoryOperations]))].

Definition event_row (e : AuditEvent) : AuditRow :=
  mkRow (ae_Category e) (ts (ae_Timestamp e)) (if IsNil (ae_UserID e) then None else Some (ae_UserID e))
    (ae_Subject e) (ae_Action e) (ae_Purpose e) (ae_RequestingParty e) (ae_Decision e) (ae_Reason e) (ae_Email e)
    (ae_RequestID e) (ae_ActorID e).

(** [ON CONFLICT (id) DO NOTHING]; a value the table refuses is an error all the same. *)
Definition AppendWithID (eventID : uuid) (e : AuditEvent) : OB unit :=
  wrap_st "insert audit event"
    (sql (fun s =>
       match row_refused (event_row e) with
       | Some c => Err (PgError c)
       | None =>
           match ob_events s !! eventID with
           | Some _ => Ok (tt, s)
           | None =>
               Ok (tt, mkOb (ob_rows s) (<[eventID := event_row e]> (ob_events s)) (ob_uuids s) (ob_sent s) (ob_world s) (ob_inserted s))
           end
       end)).

Definition toAuditEvent (r : AuditRow) : AuditEvent :=
  mkEvent (row_Category r) (row_Timestamp r) (default 0%N (row_UserID r)) (row_Subject r) (row_Action r) (row_Purpose r)
    (row_RequestingParty r) (row_Decision r) (row_Reason r) (row_Email r) (row_RequestID r) (row_ActorID r) "".

(** ** The worker *)

Definition entry_message (topic : string) (e : Entry) : Message :=
  mkMessage topic (uuid_String (en_ID e)) (en_Payload e)
    (list_to_map [("aggregate_type", en_AggregateType e); ("aggregate_id", en_AggregateID e); ("event_type", en_EventType e)]).

Definition publishEntry (topic : string) (e : Entry) : OB unit := fun s =>
  let msg := entry_message topic e in
  let '(r, w) := produce msg (ob_world s) in
  (r, mkOb (ob_rows s) (ob_events s) (ob_uuids s) (ob_sent s ++ [(msg, is_Ok r)]) w (ob_inserted s)).

(** The loop over a batch; an entry that fails is left for a later poll. *)
Fixpoint process_batch (topic : string) (now : time) (entries : list Entry) : OB unit :=
  match entries with
  | [] => mret tt
  | e :: entries' =>
      r ← st_try (publishEntry topic e);
      match r with
      | Err _ => process_batch topic now entries'
      | Ok _ => _ ← st_try (MarkProcessed (en_ID e) now); process_batch topic now entries'
      end
  end.

Definition poll (topic : string) (batchSize : Z) (now : time) : OB unit :=
  r ← st_try (FetchUnprocessed batchSize);
  match r with
  | Err _ => mret tt
  | Ok entries => process_batch topic now entries
  end.

(** [rounds] is the number of batches fetched before the ten seconds are over. *)
Fixpoint drain (rounds : nat) (topic : string) (batchSize : Z) (now : time) : OB unit :=
  match rounds with
  | O => mret tt
  | S rounds' =>
      r ← st_try (FetchUnprocessed batchSize);
      match r with
      | Err _ | Ok [] => mret tt
      | Ok entries => process_batch topic now entries;; drain rounds' topic batchSize now
      end
  end.

(** ** The consumer *)

Definition payload_event (p : Payload) : AuditEvent :=
  mkEvent (if str_empty (pl_Category p) then CategoryOperations else pl_Category p)
    (if str_empty (pl_Timestamp p) then zero_time else default zero_time (parse_time (pl_Timestamp p)))
    (if str_empty (pl_UserID p) then 0%N else default 0%N (uuid_Parse (pl_UserID p)))
    (pl_Subject p) (pl_Action p) (pl_Purpose p) (pl_RequestingParty p) (pl_Decision p) (pl_Reason p) (pl_Email p)
    (pl_RequestID p) (pl_ActorID p) "".

(** A malformed message is committed and skipped. *)
Definition Handle (msg : Message) : OB unit :=
  match uuid_Parse (msg_Key msg) with
  | None => mret tt
  | Some eventID =>
      match json_Unmarshal (msg_Value msg) with
      | Err _ => mret tt
      | Ok payload => wrap_st "store audit event" (AppendWithID eventID (payload_event payload))
      end
  end.

(** ** At least once *)

Definition published (s : ObState) (e : Entry) : Prop :=
  exists topic, (entry_message topic e, true) ∈ ob_sent s.

(** The same entry, whatever its processing time. *)
Definition same_entry (a b : Entry) : Prop := en_ID a = en_ID b /\ forall topic, entry_message topic a = entry_message topic b.

Record outbox_inv (s : ObState) : Prop := {
  oi_ids : NoDup (en_ID <$> ob_rows s);
  oi_processed : forall e, e ∈ ob_rows s -> Entry_IsPending e = false -> published s e;
  oi_kept : forall e, e ∈ ob_inserted s ->
    (exists r, r ∈ ob_rows s /\ Entry_IsPending r = true /\ same_entry r e) \/ published s e;
  oi_sent : forall m, (m, true) ∈ ob_sent s -> exists e topic, e ∈ ob_inserted s /\ m = entry_message topic e;
  oi_rows : forall r, r ∈ ob_rows s -> exists e, e ∈ ob_inserted s /\ same_entry r e;
}.

Lemma same_entry_refl e : same_entry e e.
Proof. done. Qed.
Lemma same_entry_sym a b : same_entry a b -> same_entry b a.
Proof. intros [? H]. split; [done|]. intros t. by rewrite H. Qed.
Lemma same_entry_trans a b c : same_entry a b -> same_entry b c -> same_entry a c.
Proof. intros [? H] [? K]. split; [congruence|]. intros t. by rewrite H, K. Qed.
Lemma same_entry_published s a b : same_entry a b -> published s a -> published s b.
Proof. intros [_ H] [t Hin]. exists t. by rewrite <- H. Qed.
Lemma mark_same id now e : same_entry (mark id now e) e.
Proof. unfold mark. by case_match. Qed.
Lemma mark_ID id now e : en_ID (mark id now e) = en_ID e.
Proof. unfold mark. by case_match. Qed.
Lemma marked_rows_IDs id now (l : list Entry) : en_ID <$> (mark id now <$> l) = en_ID <$> l.
Proof. rewrite <- list_fmap_compose. apply list_fmap_ext. intros i e _. apply mark_ID. Qed.

(** The invariant depends on the rows, the log and the inserted entries only. *)
Lemma outbox_inv_tables s s' :
  ob_rows s' = ob_rows s -> ob_sent s' = ob_sent s -> ob_inserted s' = ob_inserted s -> outbox_inv s -> outbox_inv s'.
Proof.
  intros Hr Hs Hi [H1 H2 H3 H4 H5]. split; unfold published in *; rewrite ?Hr, ?Hs, ?Hi; done.
Qed.

(** Every statement either changes no table, or has its effect. *)
Lemma sql_cases {A} (f : ObState -> result dberr (A * ObState)) s r s' :
  sql f s = (r, s') ->
  exists s0, ob_rows s0 = ob_rows s /\ ob_sent s0 = ob_sent s /\ ob_inserted s0 = ob_inserted s /\ ob_events s0 = ob_events s /\
    ((exists e, r = Err e /\ s' = s0) \/ (exists a, f s0 = Ok (a, s') /\ (r = Ok a \/ exists e, r = Err e))).
Proof.
  unfold sql. destruct (db (ob_world s)) as [o w]. intros H. exists (set_world w s). split_and!; [done..|].
  destruct o, (f (set_world w s)) as [[a s1]|e]; simplify_eq; eauto 10.
Qed.

Lemma wrap_st_state {A} prefix (m : OB A) s r s' : wrap_st prefix m s = (r, s') -> exists r0, m s = (r0, s') /\ is_Ok r0 = is_Ok r.
Proof. unfold wrap_st. destruct (m s) as [[a|e] s1]; intros; simplify_eq; eexists; done. Qed.

Lemma insert_entry_Ok e s a s' :
  insert_entry e s = Ok (a, s') ->
  exists row, en_ID row = en_ID e /\ Entry_IsPending row = true /\ existsb (fun r => en_ID r =? en_ID e)%N (ob_rows s) = false /\
    jsonb (en_Payload e) = Some (en_Payload row) /\ s' = set_inserted row s.
Proof.
  unfold insert_entry. destruct (jsonb _) as [payload|] eqn:Hj; [|done]. cbv zeta. destruct (constraints _) eqn:Hc; [done|]. intros [= _ <-].
  exists (mkEntry (en_ID e) (en_AggregateType e) (en_AggregateID e) (en_EventType e) payload (ts (en_CreatedAt e)) None).
  split_and!; [done|done| |done|done]. rewrite constraints_None, !Forall_app in Hc. destruct Hc as (_ & _ & _ & Hu).
  rewrite Forall_singleton in Hu. by destruct (existsb _ (ob_rows s)).
Qed.

Lemma InsertOutboxEntry_inv e s r s' :
  outbox_inv s -> InsertOutboxEntry e s = (r, s') -> outbox_inv s'.
Proof.
  intros Hinv (s0 & Hr & Hs & Hi & _ & [(err & _ & ->)|(a & H & _)])%sql_cases; [by eapply outbox_inv_tables|].
  apply (outbox_inv_tables s s0 Hr Hs Hi) in Hinv. clear Hr Hs Hi.
  apply insert_entry_Ok in H as (row & Hid & Hp & Hex & _ & ->).
  destruct Hinv as [H1 H2 H3 H4 H5]. split; unfold published in *; simpl.
  - rewrite fmap_app, NoDup_app. split_and!; [done| |apply NoDup_singleton].
    intros x Hx ->%list_elem_of_singleton. apply list_elem_of_fmap in Hx as (r0 & Heq & Hin).
    apply not_true_iff_false in Hex. apply Hex, existsb_exists. exists r0. split; [by apply list_elem_of_In|]. apply N.eqb_eq. congruence.
  - intros x [Hx| ->%list_elem_of_singleton]%elem_of_app Hnp; [by apply H2|congruence].
  - intros x [Hx| ->%list_elem_of_singleton]%elem_of_app.
    + destruct (H3 x Hx) as [(r0 & ? & ?)|?]; [left|by right]. exists r0. split; [set_solver|done].
    + left. exists row. split; [set_solver|done].
  - intros m Hm. destruct (H4 m Hm) as (x & t & ? & ?). exists x, t. split; [set_solver|done].
  - intros x [Hx| ->%list_elem_of_singleton]%elem_of_app.
    + destruct (H5 x Hx) as (y & ? & ?). exists y. split; [set_solver|done].
    + exists row. split; [set_solver|done].
Qed.

(** An entry a worker has in hand. *)
Definition in_hand (s : ObState) (e : Entry) : Prop :=
  (exists e0, e0 ∈ ob_inserted s /\ same_entry e e0) /\ forall r, r ∈ ob_rows s -> en_ID r = en_ID e -> same_entry r e.

Lemma publishEntry_inv topic e s r s' :
  outbox_inv s -> in_hand s e -> publishEntry topic e s = (r, s') ->
  outbox_inv s' /\ ob_rows s' = ob_rows s /\ ob_inserted s' = ob_inserted s /\ (is_Ok r = true -> published s' e).
Proof.
  intros [H1 H2 H3 H4 H5] [(e0 & He0 & Hsame) _]. unfold publishEntry. destruct (produce _ _) as [r0 w]. intros [= <- <-].
  split_and!; [|done|done|].
  - split; unfold published in *; simpl; try done.
    + intros x Hx Hp. destruct (H2 x Hx Hp) as [t ?]. exists t. set_solver.
    + intros x Hx. destruct (H3 x Hx) as [?|[t ?]]; [by left|right]. exists t. set_solver.
    + intros m [Hm|[= -> Hok]%list_elem_of_singleton]%elem_of_app; [by apply H4|].
      exists e0, topic. split; [done|]. apply Hsame.
  - simpl. intros Hok. exists topic. simpl. rewrite Hok. set_solver.
Qed.

Lemma MarkProcessed_state id now s r s' :
  MarkProcessed id now s = (r, s') ->
  exists r0, sql (fun s0 => Ok (existsb (fun e => (en_ID e =? id)%N && Entry_IsPending e) (ob_rows s0),
                                set_rows (mark id (ts now) <$> ob_rows s0) s0)) s = (r0, s').
Proof.
  unfold MarkProcessed, mbind, st_bind, st_fail. destruct (wrap_st _ _ s) as [r1 s1] eqn:H.
  apply wrap_st_state in H as (r0 & H & _). intros Hm. exists r0. rewrite H. f_equal. destruct r1 as [[|]|]; by injection Hm.
Qed.

Lemma MarkProcessed_inv id now s r s' e :
  outbox_inv s -> in_hand s e -> en_ID e = id -> published s e -> MarkProcessed id now s = (r, s') ->
  outbox_inv s' /\ ob_inserted s' = ob_inserted s /\ (ob_rows s' = ob_rows s \/ ob_rows s' = mark id (ts now) <$> ob_rows s).
Proof.
  intros Hinv Hh Hid Hpub (r0 & H)%MarkProcessed_state.
  apply sql_cases in H as (s0 & Hr & Hs & Hi & _ & H).
  assert (outbox_inv s0) as Hinv0 by by eapply outbox_inv_tables.
  destruct H as [(err & _ & ->)|(a & H & _)]; [by split_and!; [|congruence|left]|].
  simplify_eq. split_and!; [|done|right; simpl; by rewrite Hr].
  assert (forall x, published s0 x -> published (set_rows (mark (en_ID e) (ts now) <$> ob_rows s0) s0) x) as Hpm by done.
  assert (published s0 e) as Hpub0 by (destruct Hpub as [t ?]; exists t; by rewrite Hs).
  destruct Hinv0 as [H1 H2 H3 H4 H5]. destruct Hh as [_ Hh]. split; simpl.
  - by rewrite marked_rows_IDs.
  - intros x (x0 & -> & Hx0)%list_elem_of_fmap Hp. unfold mark in *.
    destruct ((en_ID x0 =? en_ID e)%N && Entry_IsPending x0) eqn:Hm; [|by apply Hpm, H2]. bools.
    eapply (same_entry_published _ e); [|by apply Hpm].
    apply same_entry_sym. apply (Hh x0); [by rewrite <- Hr|by apply N.eqb_eq].
  - intros x Hx. destruct (H3 x Hx) as [(y & Hy & Hp & Hse)|?]; [|by right; apply Hpm].
    destruct (decide (en_ID y = en_ID e)) as [Heq|Hne].
    + right. apply Hpm. eapply same_entry_published; [|done]. eapply same_entry_trans; [|done].
      apply same_entry_sym, Hh; [by rewrite <- Hr|done].
    + left. exists (mark (en_ID e) (ts now) y). unfold mark. rewrite (proj2 (N.eqb_neq _ _)) by done. simpl. split_and!; [|done..].
      apply list_elem_of_fmap. exists y. split; [|done]. by rewrite (proj2 (N.eqb_neq _ _)).
  - exact H4.
  - intros x (x0 & -> & Hx0)%list_elem_of_fmap. destruct (H5 x0 Hx0) as (y & Hy & Hse). exists y. split; [done|].
    eapply same_entry_trans; [apply mark_same|done].
Qed.

Lemma in_hand_step s s' e id now :
  in_hand s e -> ob_inserted s' = ob_inserted s -> (ob_rows s' = ob_rows s \/ ob_rows s' = mark id now <$> ob_rows s) -> in_hand s' e.
Proof.
  intros [H1 H2] Hi Hr. split; rewrite ?Hi; [done|]. destruct Hr as [-> | ->]; [done|].
  intros x (x0 & -> & Hx)%list_elem_of_fmap Hid. rewrite mark_ID in Hid.
  eapply same_entry_trans; [apply mark_same|]. by apply H2.
Qed.

Lemma process_batch_inv topic now entries s r s' :
  outbox_inv s -> Forall (in_hand s) entries -> process_batch topic now entries s = (r, s') -> outbox_inv s'.
Proof.
  revert s. induction entries as [|e entries IH]; intros s Hinv Hall; simpl; [by intros [= _ <-]|].
  inversion Hall as [|? ? He Hall']; subst. unfold mbind, st_bind, st_try.
  destruct (publishEntry topic e s) as [r1 s1] eqn:H1.
  destruct (publishEntry_inv topic e s r1 s1 Hinv He H1) as (Hinv1 & Hr1 & Hi1 & Hpub).
  assert (Forall (in_hand s1) entries) as Hall1.
  { eapply Forall_impl; [done|]. intros x Hx. eapply (in_hand_step s s1 x 0%N 0); auto. }
  destruct r1 as [[]|err]; [|by apply IH].
  destruct (MarkProcessed (en_ID e) now s1) as [r2 s2] eqn:H2.
  assert (in_hand s1 e) as He1 by (eapply (in_hand_step s s1 e 0%N 0); auto).
  destruct (MarkProcessed_inv _ _ _ _ _ e Hinv1 He1 eq_refl (Hpub eq_refl) H2) as (Hinv2 & Hi2 & Hr2).
  apply IH; [done|]. eapply Forall_impl; [done|]. intros x Hx. by eapply in_hand_step.
Qed.

Lemma row_in_hand s e : outbox_inv s -> e ∈ ob_rows s -> in_hand s e.
Proof.
  intros [H1 _ _ _ H5] He. split; [apply (H5 e He)|]. intros r Hr Hid.
  apply list_elem_of_lookup in Hr as [i Hi]. apply list_elem_of_lookup in He as [j Hj].
  assert (i = j) as ->; [|rewrite Hi in Hj; by simplify_eq].
  eapply (NoDup_lookup (en_ID <$> ob_rows s) i j (en_ID e)); [done|rewrite list_lookup_fmap, Hi; simpl; congruence|].
  by rewrite list_lookup_fmap, Hj.
Qed.

Definition batch_limit (batchSize : Z) : nat := Z.to_nat (if 1000 <? batchSize then 1000 else batchSize).

Lemma FetchUnprocessed_spec limit s r s' :
  FetchUnprocessed limit s = (r, s') ->
  ob_rows s' = ob_rows s /\ ob_sent s' = ob_sent s /\ ob_inserted s' = ob_inserted s /\
  (forall l, r = Ok l -> l = take (batch_limit limit) (merge_sort older (pending (ob_rows s)))).
Proof.
  unfold FetchUnprocessed, batch_limit. destruct (Z.leb_spec limit 0) as [Hl|Hl].
  { intros [= <- <-]. split_and!; try done. intros l [= <-].
    destruct (Z.ltb_spec 1000 limit); [lia|]. by rewrite Z2Nat.nonpos. }
  unfold wrap_st. destruct (sql _ s) as [r0 s1] eqn:E. apply sql_cases in E as (s0 & Hr & Hs & Hi & _ & H).
  destruct H as [(e & -> & ->)|(l0 & [= <- <-] & [-> |[e ->]])]; intros [= <- <-]; split_and!; try done.
  intros l [= <-]. by rewrite Hr.
Qed.

Lemma fetched_rows limit s l : l = take (batch_limit limit) (merge_sort older (pending (ob_rows s))) ->
  forall e, e ∈ l -> e ∈ ob_rows s /\ Entry_IsPending e = true.
Proof.
  intros -> e He. apply elem_of_take in He as (i & Hi & _). apply list_elem_of_lookup_2 in Hi.
  rewrite merge_sort_Permutation in Hi. unfold pending in Hi. by apply list_elem_of_filter in Hi as [? ?].
Qed.

Lemma fetched_in_hand limit s s1 l :
  outbox_inv s -> FetchUnprocessed limit s = (Ok l, s1) -> outbox_inv s1 /\ Forall (in_hand s1) l.
Proof.
  intros Hinv (Hr & Hs & Hi & Hl)%FetchUnprocessed_spec. assert (outbox_inv s1) as Hinv1 by by eapply outbox_inv_tables.
  split; [done|]. apply Forall_forall. intros e He. apply row_in_hand; [done|]. rewrite Hr.
  by eapply fetched_rows; [apply Hl|].
Qed.

Lemma fetch_failed_inv limit s s1 e : outbox_inv s -> FetchUnprocessed limit s = (Err e, s1) -> outbox_inv s1.
Proof. intros Hinv (Hr & Hs & Hi & _)%FetchUnprocessed_spec. by eapply outbox_inv_tables. Qed.

Lemma poll_inv topic batchSize now s r s' : outbox_inv s -> poll topic batchSize now s = (r, s') -> outbox_inv s'.
Proof.
  intros Hinv. unfold poll, mbind, st_bind, st_try. destruct (FetchUnprocessed batchSize s) as [[l|e] s1] eqn:Hf.
  - apply fetched_in_hand in Hf as [Hinv1 Hl]; [|done]. by apply process_batch_inv.
  - intros [= _ <-]. by eapply fetch_failed_inv.
Qed.

Lemma drain_inv rounds topic batchSize now s r s' : outbox_inv s -> drain rounds topic batchSize now s = (r, s') -> outbox_inv s'.
Proof.
  revert s. induction rounds as [|n IH]; intros s Hinv; simpl; [by intros [= _ <-]|].
  unfold mbind, st_bind, st_try. destruct (FetchUnprocessed batchSize s) as [[l|e] s1] eqn:Hf.
  2: { intros [= _ <-]. by eapply fetch_failed_inv. }
  apply fetched_in_hand in Hf as [Hinv1 Hl]; [|done]. destruct l as [|e l]; [by intros [= _ <-]|].
  destruct (process_batch topic now (e :: l) s1) as [[[]|err] s2] eqn:Hp; apply process_batch_inv in Hp; try done.
  - by apply IH.
  - by intros [= _ <-].
Qed.

(** Publishing inserts no entry. *)
Lemma MarkProcessed_inserted id now s : ob_inserted (MarkProcessed id now s).2 = ob_inserted s.
Proof.
  destruct (MarkProcessed id now s) as [r s'] eqn:E. apply MarkProcessed_state in E as (r0 & (s0 & _ & _ & Hi & _ & [(e & _ & ->)|(a & E & _)])%sql_cases); [done|].
  by simplify_eq.
Qed.

Lemma process_batch_inserted topic now entries s : ob_inserted (process_batch topic now entries s).2 = ob_inserted s.
Proof.
  revert s. induction entries as [|e entries IH]; intros s; simpl; [done|]. unfold mbind, st_bind, st_try.
  destruct (publishEntry topic e s) as [r1 s1] eqn:H1. assert (ob_inserted s1 = ob_inserted s) as <-.
  { unfold publishEntry in H1. destruct (produce _ _). by simplify_eq. }
  destruct r1 as [[]|err]; [|done]. pose proof (MarkProcessed_inserted (en_ID e) now s1) as <-.
  by destruct (MarkProcessed (en_ID e) now s1).
Qed.

Lemma drain_inserted rounds topic batchSize now s : ob_inserted (drain rounds topic batchSize now s).2 = ob_inserted s.
Proof.
  revert s. induction rounds as [|n IH]; intros s; simpl; [done|]. unfold mbind, st_bind, st_try.
  destruct (FetchUnprocessed batchSize s) as [[l|e] s1] eqn:Hf; apply FetchUnprocessed_spec in Hf as (_ & _ & <- & _); [|done].
  destruct l as [|e l]; [done|]. pose proof (process_batch_inserted topic now (e :: l) s1) as <-.
  by destruct (process_batch topic now (e :: l) s1) as [[[]|err] s2].
Qed.

Lemma poll_inserted topic batchSize now s : ob_inserted (poll topic batchSize now s).2 = ob_inserted s.
Proof.
  unfold poll, mbind, st_bind, st_try.
  destruct (FetchUnprocessed batchSize s) as [[l|e] s1] eqn:Hf; apply FetchUnprocessed_spec in Hf as (_ & _ & <- & _); [|done].
  apply process_batch_inserted.
Qed.

Lemma Store_Append_inv now e s r s' : outbox_inv s -> Store_Append now e s = (r, s') -> outbox_inv s'.
Proof.
  intros Hinv. unfold Store_Append, mbind, st_bind, uuid_New, st_lift. simpl.
  destruct (json_Marshal _) as [b|err]; [|intros [= _ <-]; by eapply (outbox_inv_tables s)].
  intros (r0 & H & _)%wrap_st_state. eapply InsertOutboxEntry_inv; [|exact H]. by eapply (outbox_inv_tables s).
Qed.

(** What [Append] leaves alone. *)
Lemma Store_Append_frame now e s :
  let s' := (Store_Append now e s).2 in
  ob_events s' = ob_events s /\ ob_sent s' = ob_sent s /\ (ob_world s' = ob_world s \/ ob_world s' = (db (ob_world s)).2).
Proof.
  unfold Store_Append, mbind, st_bind, uuid_New, st_lift. simpl. destruct (json_Marshal _) as [b|err]; [|by auto].
  unfold wrap_st, InsertOutboxEntry, sql. simpl. destruct (db (ob_world s)) as [o w]. simpl.
  assert (forall a s1 s2, insert_entry a s1 = Ok (tt, s2) -> ob_events s2 = ob_events s1 /\ ob_sent s2 = ob_sent s1 /\ ob_world s2 = ob_world s1) as Hi
    by (intros a s1 s2 (row & _ & _ & _ & _ & ->)%insert_entry_Ok; done).
  match goal with |- context [insert_entry ?a ?b] => destruct (insert_entry a b) as [[[] s2]|x] eqn:E end;
    [apply Hi in E as (E1 & E2 & E3)|]; destruct o; simpl in *; auto.
Qed.

Lemma DeleteProcessedBefore_inv before s r s' : outbox_inv s -> DeleteProcessedBefore before s = (r, s') -> outbox_inv s'.
Proof.
  intros Hinv (r0 & H & _)%wrap_st_state. apply sql_cases in H as (s0 & Hr & Hs & Hi & _ & H).
  assert (outbox_inv s0) as Hinv0 by by eapply outbox_inv_tables. destruct H as [(err & _ & ->)|(a & H & _)]; [done|]. simplify_eq.
  destruct Hinv0 as [H1 H2 H3 H4 H5]. split; simpl.
  - by apply NoDup_fmap_filter.
  - intros e [_ He]%list_elem_of_filter. by apply H2.
  - intros e He. destruct (H3 e He) as [(x & Hx & Hp & Hse)|?]; [left|by right]. exists x. split_and!; try done.
    apply list_elem_of_filter. split; [|done]. unfold old_processed. unfold Entry_IsPending in Hp. by destruct (en_ProcessedAt x).
  - exact H4.
  - intros e [_ He]%list_elem_of_filter. by apply H5.
Qed.

(** Histories of one worker, its writers and the cleanup. *)
Inductive ob_op :=
| OAppend (now : time) (e : AuditEvent)
| OPoll (topic : string) (batchSize : Z) (now : time)
| ODrain (rounds : nat) (topic : string) (batchSize : Z) (now : time)
| ODelete (before : time)
| OHandle (msg : Message).

Definition ob_step (s : ObState) (op : ob_op) : ObState :=
  match op with
  | OAppend now e => (Store_Append now e s).2
  | OPoll topic b now => (poll topic b now s).2
  | ODrain n topic b now => (drain n topic b now s).2
  | ODelete before => (DeleteProcessedBefore before s).2
  | OHandle msg => (Handle msg s).2
  end.

Definition ob_empty (w : W) : ObState := mkOb [] ∅ 0 [] w [].

Lemma Handle_tables msg s :
  ob_rows (Handle msg s).2 = ob_rows s /\ ob_sent (Handle msg s).2 = ob_sent s /\ ob_inserted (Handle msg s).2 = ob_inserted s.
Proof.
  unfold Handle. destruct (uuid_Parse _) as [id|]; [|done]. destruct (json_Unmarshal _) as [p|]; [|done].
  destruct (wrap_st _ _ s) as [r s'] eqn:E. apply wrap_st_state in E as (r1 & (r2 & E & _)%wrap_st_state & _). simpl.
  apply sql_cases in E as (s0 & <- & <- & <- & _ & [(e & _ & ->)|(a & E & _)]); [done|].
  destruct (row_refused _); [done|]. destruct (ob_events s0 !! _); by simplify_eq.
Qed.

Lemma ob_step_inv s op : outbox_inv s -> outbox_inv (ob_step s op).
Proof.
  intros Hinv. destruct op as [now e|topic b now|n topic b now|before|msg]; simpl.
  - destruct (Store_Append now e s) as [r s'] eqn:H. by eapply Store_Append_inv.
  - destruct (poll topic b now s) as [r s'] eqn:H. by eapply poll_inv.
  - destruct (drain n topic b now s) as [r s'] eqn:H. by eapply drain_inv.
  - destruct (DeleteProcessedBefore before s) as [r s'] eqn:H. by eapply DeleteProcessedBefore_inv.
  - destruct (Handle_tables msg s) as (? & ? & ?). by eapply outbox_inv_tables.
Qed.

Lemma ob_run_inv ops w : outbox_inv (foldl ob_step (ob_empty w) ops).
Proof.
  assert (outbox_inv (ob_empty w)) as Hinv.
  { split; simpl; [constructor|intros ? []%elem_of_nil..]. }
  revert Hinv. generalize (ob_empty w). induction ops as [|op ops IH]; intros s Hinv; simpl; [done|]. by apply IH, ob_step_inv.
Qed.

(** C19: The outbox delivers at least once.  In every history of appends, polls, drains,
    cleanups and consumed messages, whatever statements and messages fail, an entry
    once written is still waiting in the table or has been accepted by the producer;
    entries marked as processed have been accepted, and nothing is accepted that was
    not written. *)
Theorem outbox_at_least_once (ops : list ob_op) (w : W) :
  let s := foldl ob_step (ob_empty w) ops in
  (forall e, e ∈ ob_inserted s ->
     (exists r, r ∈ ob_rows s /\ Entry_IsPending r = true /\ same_entry r e) \/ published s e) /\
  (forall e, e ∈ ob_rows s -> Entry_IsPending e = false -> published s e) /\
  (forall m, (m, true) ∈ ob_sent s -> exists e topic, e ∈ ob_inserted s /\ m = entry_message topic e).
Proof. intros s. destruct (ob_run_inv ops w) as [_ H2 H3 H4 _]. done. Qed.

(** ** Progress *)

Lemma pending_marked id now (l : list Entry) :
  pending (mark id now <$> l) = filter (fun e => en_ID e <> id) (pending l).
Proof.
  unfold pending. induction l as [|e l IH]; [done|]. rewrite fmap_cons, !filter_cons, IH. unfold mark.
  destruct (N.eqb_spec (en_ID e) id), (Entry_IsPending e) eqn:Hp; simpl; rewrite ?Hp;
    repeat case_decide; rewrite ?filter_cons; repeat case_decide; try done.
Qed.

Section progress.
(** The database and the producer work, as long as the world is a good one. *)
Context (good : W -> Prop).
Hypothesis db_ok : forall w, good w -> (db w).1 = Done /\ good (db w).2.
Hypothesis produce_ok : forall m w, good w -> (produce m w).1 = Ok tt /\ good (produce m w).2.

Lemma sql_ok {A} (f : ObState -> result dberr (A * ObState)) s : good (ob_world s) ->
  exists w, good w /\ sql f s =
    match f (set_world w s) with Ok (a, s') => (Ok a, s') | Err e => (Err (db_error e), set_world w s) end.
Proof.
  intros Hg. unfold sql. destruct (db_ok _ Hg) as [H1 H2]. destruct (db (ob_world s)) as [r w]. simpl in *. subst. by exists w.
Qed.

Lemma MarkProcessed_pending id now s : good (ob_world s) ->
  pending (ob_rows (MarkProcessed id now s).2) = filter (fun e => en_ID e <> id) (pending (ob_rows s)) /\
  good (ob_world (MarkProcessed id now s).2).
Proof.
  intros Hg. destruct (MarkProcessed id now s) as [r s'] eqn:H. apply MarkProcessed_state in H as [r0 H].
  match type of H with context [sql ?f s] => destruct (sql_ok f s Hg) as (w & Hw & Hs) end.
  rewrite Hs in H. simplify_eq. simpl. split; [apply pending_marked|done].
Qed.

Lemma process_batch_pending topic now entries s : good (ob_world s) ->
  pending (ob_rows (process_batch topic now entries s).2) =
    filter (fun e => en_ID e ∉ (en_ID <$> entries)) (pending (ob_rows s)) /\
  good (ob_world (process_batch topic now entries s).2).
Proof.
  revert s. induction entries as [|e entries IH]; intros s Hg; simpl.
  { split; [|done]. symmetry. apply filter_all, Forall_forall. intros x _. apply not_elem_of_nil. }
  unfold mbind, st_bind, st_try, publishEntry. destruct (produce_ok (entry_message topic e) (ob_world s) Hg) as [Hp Hg1].
  destruct (produce _ _) as [r w]. simpl in Hp, Hg1. subst r.
  match goal with |- context [MarkProcessed ?i ?n ?x] => destruct (MarkProcessed_pending i n x Hg1) as [Hm Hg2]; destruct (MarkProcessed i n x) as [r2 s2] end.
  simpl in Hm, Hg2. destruct (IH s2 Hg2) as [-> Hg3]. split; [|done]. rewrite Hm, list_filter_filter. apply filter_ext_in. intros x _.
  rewrite not_elem_of_cons. tauto.
Qed.

Lemma process_batch_Ok topic now entries s : (process_batch topic now entries s).1 = Ok tt.
Proof.
  revert s. induction entries as [|e entries IH]; intros s; simpl; [done|]. unfold mbind, st_bind, st_try.
  destruct (publishEntry topic e s) as [[[]|err] s1]; [|apply IH]. destruct (MarkProcessed _ _ s1) as [r s2]. apply IH.
Qed.

(** A fetch, and the batch it returns processed. *)
Lemma batch_pending topic batchSize now s : good (ob_world s) -> NoDup (en_ID <$> ob_rows s) ->
  exists l s1, FetchUnprocessed batchSize s = (Ok l, s1) /\
    length l = min (batch_limit batchSize) (length (pending (ob_rows s))) /\
    length (pending (ob_rows (process_batch topic now l s1).2)) = (length (pending (ob_rows s)) - batch_limit batchSize)%nat /\
    good (ob_world (process_batch topic now l s1).2).
Proof.
  intros Hg Hnd. destruct (FetchUnprocessed batchSize s) as [[l|e] s1] eqn:Hf.
  2: { exfalso. unfold FetchUnprocessed in Hf. case_match; [done|]. unfold wrap_st in Hf.
       match type of Hf with context [sql ?f s] => destruct (sql_ok f s Hg) as (v & _ & Hw) end. by rewrite Hw in Hf. }
  assert (good (ob_world s1)) as Hg1.
  { unfold FetchUnprocessed in Hf. case_match; [by injection Hf as _ <-|]. unfold wrap_st in Hf.
    match type of Hf with context [sql ?f s] => destruct (sql_ok f s Hg) as (v & Hv & Hw) end. rewrite Hw in Hf. by simplify_eq. }
  exists l, s1. split; [done|]. apply FetchUnprocessed_spec in Hf as (Hr & _ & _ & Hl). specialize (Hl l eq_refl).
  destruct (process_batch_pending topic now l s1 Hg1) as [-> Hg2]. rewrite Hr. set (q := merge_sort older (pending (ob_rows s))) in Hl.
  assert (pending (ob_rows s) ≡ₚ l ++ drop (batch_limit batchSize) q) as Hperm.
  { rewrite Hl, take_drop. symmetry. apply merge_sort_Permutation. }
  assert (NoDup (en_ID <$> (l ++ drop (batch_limit batchSize) q))) as Hnd'.
  { rewrite <- Hperm. by apply NoDup_fmap_filter. }
  rewrite fmap_app in Hnd'. apply NoDup_app in Hnd' as (_ & Hd & _).
  split_and!; [rewrite Hl, length_take; unfold q; by rewrite merge_sort_Permutation| |done].
  transitivity (length (drop (batch_limit batchSize) q)).
  - apply Permutation_length. rewrite Hperm, filter_app.
    rewrite filter_none, filter_all; [done| |].
    + apply Forall_forall. intros e He Hin. apply (Hd _ Hin). apply list_elem_of_fmap. eauto.
    + apply Forall_forall. intros e He Hn. apply Hn, list_elem_of_fmap. eauto.
  - rewrite length_drop. unfold q. by rewrite merge_sort_Permutation.
Qed.

Lemma poll_pending topic batchSize now s : good (ob_world s) -> NoDup (en_ID <$> ob_rows s) ->
  length (pending (ob_rows (poll topic batchSize now s).2)) = (length (pending (ob_rows s)) - batch_limit batchSize)%nat /\
  good (ob_world (poll topic batchSize now s).2).
Proof.
  intros Hg Hnd. destruct (batch_pending topic batchSize now s Hg Hnd) as (l & s1 & Hf & _ & Hp & Hg1).
  unfold poll, mbind, st_bind, st_try. by rewrite Hf.
Qed.

(** The drain at the end of the worker empties the outbox. *)
Lemma drain_pending rounds topic batchSize now s : good (ob_world s) -> outbox_inv s ->
  (length (pending (ob_rows s)) <= rounds * batch_limit batchSize)%nat ->
  pending (ob_rows (drain rounds topic batchSize now s).2) = [] /\ good (ob_world (drain rounds topic batchSize now s).2).
Proof.
  revert s. induction rounds as [|n IH]; intros s Hg Hi Hn.
  { split; [|done]. apply nil_length_inv. simpl in Hn. simpl. lia. }
  destruct (batch_pending topic batchSize now s Hg (oi_ids _ Hi)) as (l & s1 & Hf & Hl & Hp & Hg1).
  cbn [drain]. unfold mbind, st_bind, st_try. rewrite Hf. pose proof (FetchUnprocessed_spec _ _ _ _ Hf) as (Hr & Hs & Hin & _).
  destruct l as [|x l]; simpl in Hl.
  - simpl in Hg1. split; [|done]. apply nil_length_inv. simpl. rewrite Hr. lia.
  - assert (outbox_inv (process_batch topic now (x :: l) s1).2) as Hi2.
    { pose proof (poll_inv topic batchSize now s) as Hpoll. unfold poll, mbind, st_bind, st_try in Hpoll. rewrite Hf in Hpoll.
      destruct (process_batch topic now (x :: l) s1) as [r2 s2]. by apply (Hpoll r2 s2). }
    pose proof (process_batch_Ok topic now (x :: l) s1) as Hok.
    destruct (process_batch topic now (x :: l) s1) as [r s2]. simpl in Hp, Hg1, Hi2, Hok. subst r. apply IH; [done|done|lia].
Qed.
End progress.

(** C30: Progress of the outbox after any failures.  In every history, whatever
    statements and messages failed in it, once the database and the producer work (the
    worlds from now on are good), polling empties the outbox: when the number of polls
    times the batch size, of which the store uses at most one thousand, reaches the
    number of pending entries, no entry is pending and every entry ever written has
    been accepted by the producer. *)
Theorem outbox_eventually_published (good : W -> Prop) (ops : list ob_op) (w : W) (topic : string) (batchSize now : Z) (n : nat) :
  (forall v, good v -> (db v).1 = Done /\ good (db v).2) ->
  (forall m v, good v -> (produce m v).1 = Ok tt /\ good (produce m v).2) ->
  let s := foldl ob_step (ob_empty w) ops in
  good (ob_world s) ->
  (length (pending (ob_rows s)) <= n * batch_limit batchSize)%nat ->
  let s' := foldl ob_step s (replicate n (OPoll topic batchSize now)) in
  pending (ob_rows s') = [] /\ forall e, e ∈ ob_inserted s -> published s' e.
Proof.
  intros Hdb Hpr s Hg Hn s'. assert (outbox_inv s') as Hinv.
  { unfold s', s. rewrite <- foldl_app. apply ob_run_inv. }
  assert (pending (ob_rows s') = [] /\ ob_inserted s' = ob_inserted s) as [Hemp Hins].
  { pose proof (ob_run_inv ops w) as Hi. fold s in Hi. clearbody s. subst s'. clear Hinv. revert s Hi Hg Hn.
    induction n as [|n IH]; intros s Hi Hg Hn; simpl; [split; [apply nil_length_inv; simpl in Hn; lia|done]|].
    destruct (poll_pending good Hdb Hpr topic batchSize now s Hg (oi_ids _ Hi)) as [Hp Hg'].
    rewrite <- (poll_inserted topic batchSize now s).
    apply IH; [by apply (ob_step_inv _ (OPoll topic batchSize now))|done|lia]. }
  split; [done|]. rewrite <- Hins. intros e He. destruct (oi_kept _ Hinv e He) as [(r & Hr & Hp & _)|?]; [|done].
  exfalso. assert (r ∈ pending (ob_rows s')) as Hin by (apply list_elem_of_filter; done). rewrite Hemp in Hin. by apply elem_of_nil in Hin.
Qed.

(** ** Round trip

    [json.Marshal] replaces bytes that are not valid UTF-8; [valid_utf8] is that
    replacement.  JSONB prints a text that is decoded to the same value. *)

Definition payload_map (f : string -> string) (p : Payload) : Payload :=
  mkPayload (f (pl_ID p)) (f (pl_Category p)) (f (pl_Timestamp p)) (f (pl_UserID p)) (f (pl_Subject p)) (f (pl_Action p))
    (f (pl_Purpose p)) (f (pl_RequestingParty p)) (f (pl_Decision p)) (f (pl_Reason p)) (f (pl_Email p)) (f (pl_RequestID p))
    (f (pl_ActorID p)).

Definition payload_texts (p : Payload) : list string :=
  [pl_ID p; pl_Category p; pl_Timestamp p; pl_UserID p; pl_Subject p; pl_Action p; pl_Purpose p; pl_RequestingParty p;
   pl_Decision p; pl_Reason p; pl_Email p; pl_RequestID p; pl_ActorID p].

Context (valid_utf8 : string -> string).
Hypothesis valid_utf8_id : forall x, text_ok x = true -> valid_utf8 x = x.
Hypothesis json_round_trip : forall p b c, json_Marshal p = Ok b -> jsonb b = Some c -> json_Unmarshal c = Ok (payload_map valid_utf8 p).

(** The event as the consumer reads it back. *)
Definition stored_form (e : AuditEvent) : AuditEvent := payload_event (payload_map valid_utf8 (event_payload 0 e)).

Definition entry_event (en : Entry) : option AuditEvent :=
  match json_Unmarshal (en_Payload en) with Ok p => Some (payload_event p) | Err _ => None end.

(** [Append] that succeeded, or whose reply was lost, inserted one entry. *)
Lemma Store_Append_cases now e s r s' :
  Store_Append now e s = (r, s') ->
  (exists err, r = Err err /\ ob_inserted s' = ob_inserted s /\ ob_rows s' = ob_rows s) \/
  exists en, ob_inserted s' = ob_inserted s ++ [en] /\ ob_rows s' = ob_rows s ++ [en] /\ Entry_IsPending en = true /\
    entry_event en = Some (stored_form e).
Proof.
  unfold Store_Append, mbind, st_bind, uuid_New, st_lift. simpl.
  destruct (json_Marshal _) as [b|err] eqn:Hj; [|intros [= <- <-]; left; by eexists].
  intros (r0 & (s0 & Hr & Hs & Hi & _ & [(err & -> & ->)|(a & H & _)])%sql_cases & Hok)%wrap_st_state.
  { left. destruct r as [|err']; [done|]. exists err'. simpl in *. by rewrite Hr, Hi. }
  apply insert_entry_Ok in H as (row & _ & Hp & _ & Hjb & ->). right. exists row. simpl in *. rewrite Hr, Hi. split_and!; [done..|].
  unfold entry_event. by rewrite (json_round_trip _ _ _ Hj Hjb).
Qed.

Lemma Store_Append_Ok now e s s' :
  Store_Append now e s = (Ok tt, s') ->
  exists en, ob_inserted s' = ob_inserted s ++ [en] /\ ob_rows s' = ob_rows s ++ [en] /\ Entry_IsPending en = true /\
    entry_event en = Some (stored_form e).
Proof. by intros [(err & [=] & _)|H]%Store_Append_cases. Qed.

(** The outbox is an audit store. *)
Program Definition outbox_audit_store (now : time) : AuditStore ObState := {|
  audit_Append := Store_Append now;
  audit_events s := omap entry_event (ob_inserted s);
  audit_form := stored_form;
|}.
Next Obligation.
  intros now e s s' (en & -> & _ & _ & He)%Store_Append_Ok. rewrite omap_app. simpl. rewrite He.
  by rewrite Permutation_app_comm.
Qed.
Next Obligation.
  intros now e s err s' [(? & _ & -> & _)|(en & -> & _ & _ & He)]%Store_Append_cases; [by left|right].
  rewrite omap_app. simpl. rewrite He. by rewrite Permutation_app_comm.
Qed.

(** The event as its row gives it back: without the hash of its subject, at the
    precision of the database. *)
Definition row_event (e : AuditEvent) : AuditEvent :=
  mkEvent (ae_Category e) (ts (ae_Timestamp e)) (ae_UserID e) (ae_Subject e) (ae_Action e) (ae_Purpose e) (ae_RequestingParty e)
    (ae_Decision e) (ae_Reason e) (ae_Email e) (ae_RequestID e) (ae_ActorID e) "".

Lemma toAuditEvent_row e : toAuditEvent (event_row e) = row_event e.
Proof. unfold toAuditEvent, row_event. simpl. destruct (IsNil (ae_UserID e)) eqn:E; [|done]. apply N.eqb_eq in E. by rewrite E. Qed.

(** The statement of [AppendWithID] adds the row or changes nothing. *)
Lemma AppendWithID_cases id ev t r t1 :
  wrap_st "store audit event" (AppendWithID id ev) t = (r, t1) ->
  (is_Ok r = false /\ ob_events t1 = ob_events t) \/
  (row_refused (event_row ev) = None /\
   ob_events t1 = match ob_events t !! id with Some _ => ob_events t | None => <[id := event_row ev]> (ob_events t) end).
Proof.
  intros (r1 & (r2 & E & Hr2)%wrap_st_state & Hr1)%wrap_st_state. rewrite <- Hr1, <- Hr2.
  apply sql_cases in E as (s0 & _ & _ & _ & <- & [(e & -> & ->)|(a & E & _)]); [by left|right].
  destruct (row_refused _); [done|]. split; [done|]. destruct (ob_events s0 !! id); by simplify_eq.
Qed.

Lemma AppendWithID_Ok id ev t :
  (db (ob_world t)).1 = Done -> row_refused (event_row ev) = None ->
  exists t1, wrap_st "store audit event" (AppendWithID id ev) t = (Ok tt, t1).
Proof.
  intros Hd Hf. unfold AppendWithID, wrap_st, sql. destruct (db (ob_world t)) as [o w]. simpl in Hd. subst o. rewrite Hf.
  destruct (ob_events _ !! id); eauto.
Qed.

Lemma Handle_entry topic en ev :
  (forall u, uuid_Parse (uuid_String u) = Some u /\ uuid_String u <> "") -> entry_event en = Some ev ->
  Handle (entry_message topic en) = wrap_st "store audit event" (AppendWithID (en_ID en) ev).
Proof.
  intros Hu. unfold entry_event, Handle, entry_message. cbn [msg_Key msg_Value]. rewrite (proj1 (Hu _)).
  destruct (json_Unmarshal (en_Payload en)); [|done]. by intros ->%(inj Some).
Qed.

(** The event with the category of its action. *)
Definition recorded (e : AuditEvent) : AuditEvent :=
  mkEvent (AuditEvent_Category (ae_Action e)) (ae_Timestamp e) (ae_UserID e) (ae_Subject e) (ae_Action e)
    (ae_Purpose e) (ae_RequestingParty e) (ae_Decision e) (ae_Reason e) (ae_Email e) (ae_RequestID e) (ae_ActorID e) "".

Lemma stored_form_exact e :
  (forall u, uuid_Parse (uuid_String u) = Some u /\ uuid_String u <> "") ->
  parse_time (format_time (ae_Timestamp e)) = Some (ae_Timestamp e) -> format_time (ae_Timestamp e) <> "" ->
  Forall (fun x => text_ok x = true) (payload_texts (event_payload 0 e)) -> stored_form e = recorded e.
Proof.
  intros Hu Ht Hf Hx. unfold stored_form. assert (payload_map valid_utf8 (event_payload 0 e) = event_payload 0 e) as ->.
  { unfold payload_texts in Hx. repeat (apply Forall_cons in Hx as [?%valid_utf8_id Hx]). unfold payload_map, event_payload in *. simpl in *. by f_equal. }
  unfold recorded, payload_event, event_payload, str_empty.
  cbn [pl_Category pl_Timestamp pl_UserID pl_Subject pl_Action pl_Purpose pl_RequestingParty pl_Decision pl_Reason pl_Email pl_RequestID pl_ActorID].
  rewrite (bool_decide_eq_false_2 _ Hf), Ht, (bool_decide_eq_false_2 _ (AuditEvent_Category_nonempty _)).
  destruct (IsNil (ae_UserID e)) eqn:Hn.
  - apply N.eqb_eq in Hn. rewrite Hn, (bool_decide_eq_true_2 ("" = "")); reflexivity.
  - destruct (Hu (ae_UserID e)) as [Hpu Hne]. rewrite (bool_decide_eq_false_2 _ Hne), Hpu. reflexivity.
Qed.

(** C31: What the audit trail says is what was emitted.  Of an event whose texts are valid
    UTF-8 (others have their invalid bytes replaced by [json.Marshal]), an [Append] that
    succeeded leaves one new pending entry.  The consumer's handling of that entry's
    message succeeds whenever the database works and the event's texts fit the columns
    of [audit_events]; then, and only under the entry's identifier, there is a row that
    reads back as the event with the category of its action, with its time at the
    precision of the database (microseconds) and without the hash of its subject.
    Handling the message again, on any topic, changes nothing. *)
Theorem audit_pipeline_roundtrip (now : time) (e : AuditEvent) (s s1 : ObState) :
  (forall u, uuid_Parse (uuid_String u) = Some u /\ uuid_String u <> "") ->
  parse_time (format_time (ae_Timestamp e)) = Some (ae_Timestamp e) -> format_time (ae_Timestamp e) <> "" ->
  Forall (fun x => text_ok x = true) (payload_texts (event_payload 0 e)) ->
  Store_Append now e s = (Ok tt, s1) ->
  exists en, ob_rows s1 = ob_rows s ++ [en] /\ Entry_IsPending en = true /\
  forall topic t, ob_events t !! en_ID en = None ->
    ((db (ob_world t)).1 = Done -> row_refused (event_row (recorded e)) = None ->
       is_Ok (Handle (entry_message topic en) t).1 = true) /\
    (forall t1, Handle (entry_message topic en) t = (Ok tt, t1) ->
       (exists row, ob_events t1 = <[en_ID en := row]> (ob_events t) /\
          toAuditEvent row = mkEvent (AuditEvent_Category (ae_Action e)) (ts (ae_Timestamp e)) (ae_UserID e) (ae_Subject e) (ae_Action e)
            (ae_Purpose e) (ae_RequestingParty e) (ae_Decision e) (ae_Reason e) (ae_Email e) (ae_RequestID e) (ae_ActorID e) "") /\
       forall topic' r t2, Handle (entry_message topic' en) t1 = (r, t2) -> ob_events t2 = ob_events t1).
Proof.
  intros Hu Ht Hf Hx (en & _ & Hrows & Hp & He)%Store_Append_Ok. rewrite (stored_form_exact e Hu Ht Hf Hx) in He.
  exists en. split_and!; [done..|]. intros topic t Hnone. rewrite (Handle_entry topic en _ Hu He). split.
  - intros Hd Hr. by destruct (AppendWithID_Ok (en_ID en) (recorded e) t Hd Hr) as [t1 ->].
  - intros t1 H1. apply AppendWithID_cases in H1 as [[[=] _]|[_ Hev]]. rewrite Hnone in Hev. split.
    + exists (event_row (recorded e)). split; [done|]. apply toAuditEvent_row.
    + intros topic' r t2. rewrite (Handle_entry topic' en _ Hu He). intros [[_ ?]|[_ H2]]%AppendWithID_cases; [done|].
      by rewrite Hev, lookup_insert_eq in H2; rewrite H2, Hev.
Qed.

(** An event that fits the outbox but not the columns of [audit_events] is never
    materialised: the handler fails on every delivery. *)
Theorem oversized_event_never_stored (now : time) (e : AuditEvent) (s s1 : ObState) :
  (forall u, uuid_Parse (uuid_String u) = Some u /\ uuid_String u <> "") ->
  parse_time (format_time (ae_Timestamp e)) = Some (ae_Timestamp e) -> format_time (ae_Timestamp e) <> "" ->
  Forall (fun x => text_ok x = true) (payload_texts (event_payload 0 e)) ->
  Store_Append now e s = (Ok tt, s1) -> row_refused (event_row (recorded e)) <> None ->
  exists en, ob_rows s1 = ob_rows s ++ [en] /\ forall topic t, is_Ok (Handle (entry_message topic en) t).1 = false.
Proof.
  intros Hu Ht Hf Hx (en & _ & Hrows & Hp & He)%Store_Append_Ok Hr. rewrite (stored_form_exact e Hu Ht Hf Hx) in He.
  exists en. split; [done|]. intros topic t. rewrite (Handle_entry topic en _ Hu He).
  destruct (wrap_st _ _ t) as [r t1] eqn:E. by apply AppendWithID_cases in E as [[? _]|[? _]].
Qed.

End outbox.

(** *** Examples *)

Module OutboxExample.
Definition db : unit -> outcome * unit := fun w => (Done, w).
Definition produce (m : Message) : ST unit error unit := fun w => (Ok tt, w).
(** The outcomes of the next statements and messages, in order; then all works. *)
Definition script_db (w : list outcome) : outcome * list outcome := match w with [] => (Done, []) | o :: w' => (o, w') end.
Definition script_produce (m : Message) : ST (list outcome) error unit := fun w =>
  match w with [] => (Ok tt, []) | Done :: w' => (Ok tt, w') | _ :: w' => (Err (EOther "broker unavailable"), w') end.
Definition newID (n : nat) : uuid := N.of_nat (S n).
Fixpoint xs (n : nat) : string := match n with O => "" | S n' => "x" +:+ xs n' end.
Definition show (u : uuid) : string := xs (S (N.to_nat u)).
Definition parse (s : string) : option uuid := Some (N.of_nat (pred (String.length s))).
Definition event : AuditEvent := mkEvent CategoryCompliance 9 3 "" "decision_made" "age_verification" "" "pass" "" "" "r1" "" "f00d".
Definition payload : Payload := event_payload show (fun _ => "t") 1 event.
#[local] Instance Payload_eq_dec : EqDecision Payload.
Proof. solve_decision. Defined.
Definition marshal (p : Payload) : res string := if decide (p = payload) then Ok "{}" else Err (EOther "unsupported").
Definition unmarshal (b : string) : res Payload := Ok payload.
Definition step : @ObState unit -> ob_op -> ObState :=
  ob_step db produce newID show parse (fun _ => "t") (fun _ => Some 9) (fun _ => Ok "{}") unmarshal.
Definition script_step : @ObState (list outcome) -> ob_op -> ObState :=
  ob_step script_db script_produce newID show parse (fun _ => "t") (fun _ => Some 9) (fun _ => Ok "{}") unmarshal.

(** Two appends of which the second loses its reply; a poll whose first message and
    whose second mark fail; a cleanup that fails. *)
Definition outage : list outcome := [Done; DoneUnseen "eof"; Done; NotDone "down"; Done; NotDone "down"; NotDone "down"].
Definition history : list ob_op := [OAppend 1 event; OAppend 2 event; OPoll "audit" 10 3; ODelete 4].

Lemma show_parse u : parse (show u) = Some u /\ show u <> "".
Proof.
  assert (forall n, String.length (xs n) = n) as H by (induction n as [|n IH]; [done|exact (f_equal S IH)]).
  split; [|done]. unfold parse, show. rewrite H. simpl. by rewrite N2Nat.id.
Defined.

Lemma marshal_round_trip p b c : marshal p = Ok b -> jsonb b = Some c -> unmarshal c = Ok (payload_map id p).
Proof. unfold marshal. case_decide; [|discriminate]. intros [= <-] _. by subst. Defined.
End OutboxExample.

Lemma outbox_eventually_published_witness :
  let s := foldl OutboxExample.script_step (ob_empty OutboxExample.outage) OutboxExample.history in
  length (pending (ob_rows s)) = 2%nat /\ length (ob_inserted s) = 2%nat /\ length (ob_sent s) = 2%nat /\
  pending (ob_rows (foldl OutboxExample.script_step s (replicate 2 (OPoll "audit" 1 7)))) = [] /\
  Forall (published OutboxExample.show (foldl OutboxExample.script_step s (replicate 2 (OPoll "audit" 1 7)))) (ob_inserted s).
Proof.
  cbv zeta. split; [vm_compute; reflexivity|]. split; [vm_compute; reflexivity|]. split; [vm_compute; reflexivity|].
  destruct (outbox_eventually_published OutboxExample.script_db OutboxExample.script_produce OutboxExample.newID OutboxExample.show
    OutboxExample.parse (fun _ => "t") (fun _ => Some 9) (fun _ => Ok "{}") OutboxExample.unmarshal (fun w => w = [])
    OutboxExample.history OutboxExample.outage "audit" 1 7 2) as [H1 H2].
  - intros v ->. by split.
  - intros m v ->. by split.
  - vm_compute. reflexivity.
  - apply Nat.leb_le. vm_compute. reflexivity.
  - unfold OutboxExample.script_step. split; [exact H1|]. apply Forall_forall. exact H2.
Defined.

Lemma audit_pipeline_roundtrip_witness :
  exists s1 en t1, Store_Append OutboxExample.db OutboxExample.newID OutboxExample.show (fun _ => "t") OutboxExample.marshal 7
      OutboxExample.event (ob_empty tt) = (Ok tt, s1) /\ ob_rows s1 = [en] /\ Entry_IsPending en = true /\
    Handle OutboxExample.db OutboxExample.parse (fun _ => Some 9) OutboxExample.unmarshal (entry_message OutboxExample.show "audit" en) s1 = (Ok tt, t1) /\
    exists row, ob_events t1 = {[en_ID en := row]} /\ ae_Decision (toAuditEvent row) = "pass".
Proof.
  destruct (Store_Append OutboxExample.db OutboxExample.newID OutboxExample.show (fun _ => "t") OutboxExample.marshal 7
      OutboxExample.event (ob_empty tt)) as [[[]|e] s1] eqn:E; [|vm_compute in E; discriminate E].
  destruct (audit_pipeline_roundtrip OutboxExample.db OutboxExample.newID OutboxExample.show OutboxExample.parse (fun _ => "t")
    (fun _ => Some 9) OutboxExample.marshal OutboxExample.unmarshal id (fun x _ => eq_refl) OutboxExample.marshal_round_trip 7
    OutboxExample.event (ob_empty tt) s1
    OutboxExample.show_parse eq_refl ltac:(discriminate) ltac:(repeat constructor) E) as (en & Hr & Hp & Hh).
  assert (ob_events s1 = ∅) as He by (vm_compute in E; injection E as <-; reflexivity).
  destruct (Hh "audit" s1) as [Hok Hrow]; [rewrite He; reflexivity|].
  specialize (Hok eq_refl ltac:(vm_compute; reflexivity)).
  destruct (Handle _ _ _ _ (entry_message OutboxExample.show "audit" en) s1) as [[[]|e] t1] eqn:Et; [|discriminate Hok].
  destruct (Hrow t1 eq_refl) as [(row & Hev & Hto) _]. exists s1, en, t1. split_and!; [reflexivity|exact Hr|exact Hp|exact Et|].
  exists row. rewrite Hev, He, Hto. split; reflexivity.
Defined.

(** A compliance event whose action is not in the table of categories is filed as an
    operational one, and the hash of its subject is not kept. *)
Theorem compliance_event_misfiled (eventID : uuid) (e : ComplianceEvent) (uuid_String : uuid -> string) (uuid_Parse : string -> option uuid)
    (format_time : time -> string) (parse_time : string -> option time) :
  co_Action e = "registry_sanctions_checked" ->
  let stored := payload_event uuid_Parse parse_time (event_payload uuid_String format_time eventID (Compliance_ToLegacyEvent e)) in
  ae_Category stored = CategoryOperations /\ ae_SubjectIDHash stored = "".
Proof.
  intros H stored. subst stored. unfold payload_event, event_payload, Compliance_ToLegacyEvent.
  cbn [ae_Category ae_SubjectIDHash pl_Category ae_Action]. rewrite H.
  assert (AuditEvent_Category "registry_sanctions_checked" = CategoryOperations) as -> by (vm_compute; reflexivity).
  split; reflexivity.
Qed.
