(* ===== verification/RegistryService.v ===== *)
(** * The registry service
    [internal/evidence/registry/service/service.go]

    Cache-through lookups with consent, minimisation and a fail-closed audit.  The
    service is written against the classes [CacheStore] (its cache, implemented by
    [RegistryCache] and [RegistrySql]) and [AuditStore] (behind the compliance
    publisher).  The consent port acts on the same world as the providers.  The order of the two concurrent
    cache reads and the order in which a map of errors is ranged over are arguments.
    Tracing and logging are not modelled. *)
From S2P Require Import Prelude Errors LRU RegistryCache Registry Orchestrator Ring AuditTrail.
Open Scope Z_scope.

(** ** The cache interface

    [has_citizen c k m r]: the cache holds [r] for the key [k], stored in mode [m].  A
    cache may hold a record in a form of its own: the SQL one gives it back with the
    key in place of its identifier ([cache_restores_id]) and its time at the precision
    of the database. *)
Class CacheStore (C : Type) := {
  cache_FindCitizen : time -> string -> bool -> ST C error models_CitizenRecord;
  cache_SaveCitizen : time -> string -> models_CitizenRecord -> bool -> ST C error unit;
  cache_FindSanction : time -> string -> ST C error models_SanctionsRecord;
  cache_SaveSanction : time -> string -> models_SanctionsRecord -> ST C error unit;
  cache_ok : C -> Prop;
  has_citizen : C -> string -> bool -> models_CitizenRecord -> Prop;
  has_sanction : C -> string -> models_SanctionsRecord -> Prop;
  cache_citizen_form : string -> models_CitizenRecord -> models_CitizenRecord;
  cache_sanction_form : string -> models_SanctionsRecord -> models_SanctionsRecord;
  cache_restores_id : bool;
  cache_citizen_form_law : forall k x, let x' := cache_citizen_form k x in
    crec_NationalID x' = (if cache_restores_id then k else crec_NationalID x) /\
    crec_FullName x' = crec_FullName x /\ crec_DateOfBirth x' = crec_DateOfBirth x /\
    crec_Address x' = crec_Address x /\ crec_Valid x' = crec_Valid x /\ crec_Source x' = crec_Source x;
  cache_sanction_form_law : forall k x,
    srec_Listed (cache_sanction_form k x) = srec_Listed x /\ srec_Source (cache_sanction_form k x) = srec_Source x;
  cache_find_citizen_law : forall now k m c r c', cache_ok c -> cache_FindCitizen now k m c = (r, c') ->
    cache_ok c' /\ (forall k' m' x, has_citizen c' k' m' x -> has_citizen c k' m' x) /\
    (forall k' x, has_sanction c' k' x -> has_sanction c k' x) /\ (forall x, r = Ok x -> has_citizen c k m x);
  cache_find_sanction_law : forall now k c r c', cache_ok c -> cache_FindSanction now k c = (r, c') ->
    cache_ok c' /\ (forall k' m' x, has_citizen c' k' m' x -> has_citizen c k' m' x) /\
    (forall k' x, has_sanction c' k' x -> has_sanction c k' x) /\ (forall x, r = Ok x -> has_sanction c k x);
  cache_save_citizen_law : forall now k x m c r c', cache_ok c -> cache_SaveCitizen now k x m c = (r, c') ->
    cache_ok c' /\
    (forall k' m' x', has_citizen c' k' m' x' -> has_citizen c k' m' x' \/ (k' = k /\ m' = m /\ x' = cache_citizen_form k x)) /\
    (forall k' x', has_sanction c' k' x' -> has_sanction c k' x');
  cache_save_sanction_law : forall now k x c r c', cache_ok c -> cache_SaveSanction now k x c = (r, c') ->
    cache_ok c' /\ (forall k' m' x', has_citizen c' k' m' x' -> has_citizen c k' m' x') /\
    (forall k' x', has_sanction c' k' x' -> has_sanction c k' x' \/ (k' = k /\ x' = cache_sanction_form k x));
}.

(** The in-memory cache. *)
Definition memory_has_citizen (c : InMemoryCache) (k : string) (m : bool) (r : models_CitizenRecord) : Prop :=
  exists t, al_get k (lru_abs (mc_citizens c)) = Some (mkCC r t m).
Definition memory_has_sanction (c : InMemoryCache) (k : string) (r : models_SanctionsRecord) : Prop :=
  exists t, al_get k (lru_abs (mc_sanctions c)) = Some (mkCSn r t).

Lemma cache_find_get {V} (storedAt : V -> time) ttl usable k now (c : lru V) :
  lru_wf c ->
  lru_wf (cache_find storedAt ttl usable k now c).2 /\
  (forall k' v, al_get k' (lru_abs (cache_find storedAt ttl usable k now c).2) = Some v -> al_get k' (lru_abs c) = Some v) /\
  (forall v, (cache_find storedAt ttl usable k now c).1 = Some v -> al_get k (lru_abs c) = Some v /\ usable v = true).
Proof.
  intros Hwf. destruct (cache_find_spec storedAt ttl usable k now c Hwf) as (Hwf' & -> & ->). split_and!; [done| |].
  - intros k' v. destruct (al_find_cases storedAt ttl usable k now (lru_abs c)) as [-> | [-> | (v0 & Hg & ->)]]; [done| |].
    + apply al_del_Some.
    + rewrite al_get_put. case_bool_decide; [|done]. by intros [= <-]; subst.
  - intros v. unfold al_find. destruct (al_get k (lru_abs c)) as [v0|]; [|done].
    destruct (ttl <=? _); [done|]. destruct (usable v0) eqn:Hu; [|done]. by intros [= ->].
Qed.

#[global] Program Instance memory_cache_store : CacheStore InMemoryCache := {|
  cache_FindCitizen := FindCitizen;
  cache_SaveCitizen now k x m := SaveCitizen now k (Some x) m;
  cache_FindSanction := FindSanction;
  cache_SaveSanction now k x := SaveSanction now k (Some x);
  cache_ok c := lru_wf (mc_citizens c) /\ lru_wf (mc_sanctions c);
  has_citizen := memory_has_citizen;
  has_sanction := memory_has_sanction;
  cache_citizen_form _ x := x;
  cache_sanction_form _ x := x;
  cache_restores_id := false;
|}.
Next Obligation. done. Qed.
Next Obligation. done. Qed.
Next Obligation.
  intros now k m c r c' [Hc Hs] H. unfold FindCitizen in H.
  destruct (cache_find_get cc_storedAt (mc_cacheTTL c) (citizen_usable m) k now (mc_citizens c) Hc) as (Hw & Hk & Hv).
  destruct (cache_find _ _ _ _ _ (mc_citizens c)) as [x l]. injection H as <- <-. unfold memory_has_citizen. simpl in *. split_and!; try done.
  - intros k' m' y [t Ht]. exists t. by apply Hk.
  - intros y Hy. destruct x as [[r0 t m0]|]; [|done]. injection Hy as <-.
    destruct (Hv _ eq_refl) as [Hg Hm]. apply Bool.eqb_prop in Hm. simpl in Hm. subst m0. by exists t.
Qed.
Next Obligation.
  intros now k c r c' [Hc Hs] H. unfold FindSanction in H.
  destruct (cache_find_get cs_storedAt (mc_cacheTTL c) (fun _ => true) k now (mc_sanctions c) Hs) as (Hw & Hk & Hv).
  destruct (cache_find _ _ _ _ _ (mc_sanctions c)) as [x l]. injection H as <- <-. unfold memory_has_sanction. simpl in *. split_and!; try done.
  - intros k' y [t Ht]. exists t. by apply Hk.
  - intros y Hy. destruct x as [[r0 t]|]; [|done]. injection Hy as <-. destruct (Hv _ eq_refl) as [Hg _]. by exists t.
Qed.
Next Obligation.
  intros now k x m c r c' [Hc Hs] H. unfold SaveCitizen in H. destruct (str_empty k); simplify_eq; [by split_and!; auto|].
  destruct (cache_save_spec (mc_maxSize c) k (mkCC x now m) (mc_citizens c) Hc) as [Hw Ha].
  unfold memory_has_citizen. simpl. rewrite Ha. split_and!; try done.
  intros k' m' x' [t Hg]. apply (al_save_get cc_storedAt) in Hg as [[-> Hx]|[_ Hg]]; [right; split_and!; congruence|left; eauto].
Qed.
Next Obligation.
  intros now k x c r c' [Hc Hs] H. unfold SaveSanction in H. destruct (str_empty k); simplify_eq; [by split_and!; auto|].
  destruct (cache_save_spec (mc_maxSize c) k (mkCSn x now) (mc_sanctions c) Hs) as [Hw Ha].
  unfold memory_has_sanction. simpl. rewrite Ha. split_and!; try done.
  intros k' x' [t Hg]. apply (al_save_get cs_storedAt) in Hg as [[-> Hx]|[_ Hg]]; [right; split_and!; congruence|left; eauto].
Qed.

(** ** The service *)

Section service.
Context {W C A : Type} `{CacheStore C} `{AuditStore A}.
Context (map_order : list (@Provider W) -> list (@Provider W)) (wait : duration -> ST W error unit)
  (sched : list (@Provider W) -> list (@Provider W)) (vote_order : list Evidence -> list Evidence).
(** The order in which a map of errors is ranged over, and whether the sanctions
    entry is read before the citizen's. *)
Context (error_order : list error -> list error) (sanction_first : bool).

(** A nil port, cache or auditor is [None] or [false]. *)
Record Service := mkService {
  sv_orchestrator : @Orchestrator W;
  sv_cached : bool;
  sv_consentPort : option (uuid -> string -> ST W error unit);
  sv_audited : bool;
  sv_regulated : bool;
}.

Record RState := mkRS { rs_orch : @OState W; rs_cache : C; rs_audit : A }.

Abbreviation RM X := (ST RState error X) (only parsing).

Definition on_cache {X} (m : ST C error X) : RM X :=
  st_zoom rs_cache (fun c s => mkRS (rs_orch s) c (rs_audit s)) m.
Definition on_audit {X} (m : ST A error X) : RM X :=
  st_zoom rs_audit (fun a s => mkRS (rs_orch s) (rs_cache s) a) m.
Definition on_orch {X} (m : ST (@OState W) error X) : RM X :=
  st_zoom rs_orch (fun o s => mkRS o (rs_cache s) (rs_audit s)) m.
Definition on_world {X} (m : ST W error X) : RM X :=
  on_orch (st_zoom os_world (fun w o => mkOS w (os_calls o) (os_waits o) (os_budget o)) m).

(** *** Errors *)

Definition translateProviderError (err : error) : error :=
  match errors_As_provider err with
  | Some pe =>
      match pe_Category pe with
      | ErrorTimeout => New CodeTimeout "registry lookup timed out"
      | ErrorNotFound => New CodeNotFound "citizen record not found"
      | ErrorAuthentication => New CodeInternal "registry authentication failed"
      | ErrorRateLimited => New CodeInternal "registry rate limited"
      | ErrorProviderOutage => New CodeInternal "registry unavailable"
      | ErrorBadData => New CodeBadRequest (pe_Message pe)
      | _ => New CodeInternal "registry lookup failed"
      end
  | None => Wrap err CodeInternal "registry lookup failed"
  end.

(** A translated error is never nil, so the first one of the map is returned. *)
Definition translateOrchestratorError (err : error) (result : option LookupResult) : error :=
  match (match result with Some r => error_order (map_to_list (res_Errors r)).*2 | None => [] end) with
  | provErr :: _ => translateProviderError provErr
  | [] =>
      if errors_Is err ErrAllProvidersFailed then New CodeInternal "all registry providers failed"
      else if errors_Is err ErrNoProvidersAvailable then New CodeInternal "no registry providers available"
      else if errors_Is err ErrProviderNotFound then New CodeInternal "registry provider not found"
      else translateProviderError err
  end.

(** *** Helpers *)

Definition requireConsent (sv : Service) (userID : uuid) : RM unit :=
  match sv_consentPort sv with
  | None => mret tt
  | Some port => on_world (port userID "registry_check")
  end.

Record cacheCheckResult := mkCCR { ccr_citizen : option models_CitizenRecord; ccr_sanction : option models_SanctionsRecord }.
Definition AllCached (r : cacheCheckResult) : bool :=
  match ccr_citizen r, ccr_sanction r with Some _, Some _ => true | _, _ => false end.

(** A hit, a miss, or an error. *)
Definition hit_or_miss {X} (r : res X) : res (option X) :=
  match r with
  | Ok x => Ok (Some x)
  | Err e => if errors_Is e ErrCacheNotFound then Ok None else Err e
  end.

(** Both reads run; the error of the one that completes first is returned. *)
Definition checkCache (sv : Service) (now : time) (nationalID : string) : RM cacheCheckResult :=
  if negb (sv_cached sv) then mret (mkCCR None None)
  else
    let citizen := st_try (on_cache (cache_FindCitizen now nationalID (sv_regulated sv))) in
    let sanction := st_try (on_cache (cache_FindSanction now nationalID)) in
    '(rc, rs) ← (if sanction_first then rs ← sanction; rc ← citizen; mret (rc, rs)
                 else rc ← citizen; rs ← sanction; mret (rc, rs));
    match hit_or_miss rc, hit_or_miss rs with
    | Ok c, Ok s => mret (mkCCR c s)
    | Err e, Ok _ | Ok _, Err e => st_fail e
    | Err e, Err e' => st_fail (if sanction_first then e' else e)
    end.

Definition registry_lookup (sv : Service) (types : list ProviderType) (nationalID : string) : RM LookupResult :=
  '(result, err) ← on_orch (Orchestrator_Lookup map_order wait sched vote_order (sv_orchestrator sv)
                              (mkLookup types {["national_id" := nationalID]} StrategyFallback));
  match err, result with
  | Some e, _ => st_fail (translateOrchestratorError e result)
  | None, Some r => mret r
  | None, None => mret (mkLResult [] ∅)
  end.

Definition fetchMissing (sv : Service) (nationalID : string) (citizenCached sanctionsCached : bool) : RM LookupResult :=
  registry_lookup sv
    ((if citizenCached then [] else [ProviderTypeCitizen]) ++ (if sanctionsCached then [] else [ProviderTypeSanctions]))
    nationalID.

Definition citizenRecordFromEvidence (sv : Service) (ev : Evidence) : res models_CitizenRecord :=
  verification ← wrap_err (EvidenceToCitizenVerification (Some ev)) CodeInternal "failed to convert citizen evidence";
  Ok (CitizenVerificationToRecord
        (if sv_regulated sv then Citizen_WithoutNationalID verification else verification)).

Definition sanctionsRecordFromEvidence (ev : Evidence) : res models_SanctionsRecord :=
  check ← wrap_err (EvidenceToSanctionsCheck (Some ev)) CodeInternal "failed to convert sanctions evidence";
  Ok (SanctionsCheckToRecord check).

Fixpoint convertEvidence (sv : Service) (evidence : list Evidence) (citizen : option models_CitizenRecord)
    (sanction : option models_SanctionsRecord) : res (option models_CitizenRecord * option models_SanctionsRecord) :=
  match evidence with
  | [] => Ok (citizen, sanction)
  | ev :: rest =>
      if bool_decide (ev_ProviderType ev = ProviderTypeCitizen) then
        record ← citizenRecordFromEvidence sv ev; convertEvidence sv rest (Some record) sanction
      else if bool_decide (ev_ProviderType ev = ProviderTypeSanctions) then
        record ← sanctionsRecordFromEvidence ev; convertEvidence sv rest citizen (Some record)
      else convertEvidence sv rest citizen sanction
  end.

(** A failed save is logged and forgotten. *)
Definition cacheNewlyFetched (sv : Service) (now : time) (key : string) (citizen : models_CitizenRecord)
    (sanction : models_SanctionsRecord) (fromCache : cacheCheckResult) : RM unit :=
  if negb (sv_cached sv) then mret tt
  else
    _ ← (match ccr_citizen fromCache with
         | Some _ => mret (Ok tt)
         | None => st_try (on_cache (cache_SaveCitizen now key citizen (sv_regulated sv))) end);
    _ ← (match ccr_sanction fromCache with
         | Some _ => mret (Ok tt)
         | None => st_try (on_cache (cache_SaveSanction now key sanction)) end);
    mret tt.

Definition sanctions_event (userID : uuid) (listed : bool) (requestID : string) : ComplianceEvent :=
  mkCompliance zero_time userID "" "registry_sanctions_checked" "registry_check" (if listed then "listed" else "not_listed")
    "" requestID "".

Definition auditSanctionsCheck (sv : Service) (now : time) (userID : uuid) (listed : bool) (requestID : string) : RM unit :=
  if negb (sv_audited sv) then mret tt
  else
    r ← st_try (on_audit (Compliance_Emit now (sanctions_event userID listed requestID)));
    match r with
    | Err _ => st_fail (New CodeInternal "unable to complete sanctions check")
    | Ok _ => mret tt
    end.

Definition find_type (t : ProviderType) (evidence : list Evidence) : option Evidence :=
  head (filter (fun ev => ev_ProviderType ev = t) evidence).

(** *** Operations *)

Definition Check (sv : Service) (now : time) (userID : uuid) (nationalID : string) : RM RegistryResult :=
  _ ← requireConsent sv userID;
  cached ← checkCache sv now nationalID;
  match ccr_citizen cached, ccr_sanction cached with
  | Some c, Some s => mret (mkRR c s)
  | cc, cs =>
      fetched ← fetchMissing sv nationalID (match cc with Some _ => true | None => false end)
                  (match cs with Some _ => true | None => false end);
      '(fc, fs) ← st_lift (convertEvidence sv (res_Evidence fetched) None None);
      match (match cc with Some c => Some c | None => fc end), (match cs with Some s => Some s | None => fs end) with
      | Some citizen, Some sanction =>
          cacheNewlyFetched sv now nationalID citizen sanction cached;;
          mret (mkRR citizen sanction)
      | _, _ => st_fail (translateOrchestratorError (EVal ErrAllProvidersFailed) (Some fetched))
      end
  end.

Definition Citizen_lookup (sv : Service) (nationalID : string) (convert : Evidence -> res models_CitizenRecord)
    : RM models_CitizenRecord :=
  result ← registry_lookup sv [ProviderTypeCitizen] nationalID;
  match find_type ProviderTypeCitizen (res_Evidence result) with
  | None => st_fail (translateOrchestratorError (EVal ErrAllProvidersFailed) (Some result))
  | Some ev => st_lift (convert ev)
  end.

Definition Citizen (sv : Service) (now : time) (userID : uuid) (nationalID : string) : RM models_CitizenRecord :=
  _ ← requireConsent sv userID;
  cached ← (if sv_cached sv
            then r ← st_try (on_cache (cache_FindCitizen now nationalID (sv_regulated sv))); st_lift (hit_or_miss r)
            else mret None);
  match cached with
  | Some record => mret record
  | None =>
      record ← Citizen_lookup sv nationalID (citizenRecordFromEvidence sv);
      (if sv_cached sv
       then _ ← st_try (on_cache (cache_SaveCitizen now nationalID record (sv_regulated sv))); mret tt
       else mret tt);;
      mret record
  end.

Definition CitizenWithDetails (sv : Service) (userID : uuid) (nationalID : string) : RM models_CitizenRecord :=
  _ ← requireConsent sv userID;
  Citizen_lookup sv nationalID (fun ev =>
    verification ← wrap_err (EvidenceToCitizenVerification (Some ev)) CodeInternal "failed to convert citizen evidence";
    Ok (CitizenVerificationToRecord verification)).

Definition Sanctions (sv : Service) (now : time) (userID : uuid) (nationalID requestID : string) : RM models_SanctionsRecord :=
  _ ← requireConsent sv userID;
  cached ← (if sv_cached sv
            then r ← st_try (on_cache (cache_FindSanction now nationalID)); st_lift (hit_or_miss r)
            else mret None);
  match cached with
  | Some record =>
      _ ← auditSanctionsCheck sv now userID (srec_Listed record) requestID;
      mret record
  | None =>
      result ← registry_lookup sv [ProviderTypeSanctions] nationalID;
      match find_type ProviderTypeSanctions (res_Evidence result) with
      | None => st_fail (translateOrchestratorError (EVal ErrAllProvidersFailed) (Some result))
      | Some ev =>
          record ← st_lift (sanctionsRecordFromEvidence ev);
          (if sv_cached sv
           then _ ← st_try (on_cache (cache_SaveSanction now nationalID record)); mret tt
           else mret tt);;
          _ ← auditSanctionsCheck sv now userID (srec_Listed record) requestID;
          mret record
      end
  end.

(** ** Theorems *)

(** *** Frames *)

Lemma hit_or_miss_Some {X} (r : res X) x : hit_or_miss r = Ok (Some x) -> r = Ok x.
Proof. destruct r as [y|e]; simpl; [congruence|]. by case_match. Qed.

Lemma keeps_world {X} (I : RState -> Prop) (m : ST W error X) :
  (forall w s, I s -> I (mkRS (mkOS w (os_calls (rs_orch s)) (os_waits (rs_orch s)) (os_budget (rs_orch s))) (rs_cache s) (rs_audit s))) ->
  st_keeps I (on_world m) (fun _ => True).
Proof.
  intros Hw s r s' HI. unfold on_world, on_orch, st_zoom. destruct (m _) as [x w]. intros [= <- <-]. split; [by apply Hw|done].
Qed.

Lemma keeps_consent (I : RState -> Prop) sv userID :
  (forall o s, I s -> I (mkRS o (rs_cache s) (rs_audit s))) -> st_keeps I (requireConsent sv userID) (fun _ => True).
Proof.
  intros Ho. unfold requireConsent. destruct (sv_consentPort sv); [|by apply keeps_ret]. apply keeps_world. intros w x. apply Ho.
Qed.

Lemma keeps_lookup (I : RState -> Prop) sv types nationalID :
  (forall o s, I s -> I (mkRS o (rs_cache s) (rs_audit s))) -> st_keeps I (registry_lookup sv types nationalID) (fun _ => True).
Proof.
  intros Ho. unfold registry_lookup. eapply keeps_bind; [by apply keeps_zoom_frame|]. intros [result err] _.
  destruct err; [apply keeps_fail|]. destruct result; by apply keeps_ret.
Qed.

Lemma keeps_audit (I : RState -> Prop) sv now userID listed requestID :
  (forall a s, I s -> I (mkRS (rs_orch s) (rs_cache s) a)) ->
  st_keeps I (auditSanctionsCheck sv now userID listed requestID) (fun _ => True).
Proof.
  intros Ha. unfold auditSanctionsCheck. destruct (sv_audited sv); simpl; [|by apply keeps_ret].
  eapply keeps_bind; [apply keeps_try; by apply keeps_zoom_frame|]. intros [|] _; [by apply keeps_ret|apply keeps_fail].
Qed.

(** *** Regulated mode *)

Definition no_pii (r : models_CitizenRecord) : Prop :=
  crec_NationalID r = "" /\ crec_FullName r = "" /\ crec_DateOfBirth r = "" /\ crec_Address r = "".

(** A record without personal data, except that a cache that gives back the key in
    place of the record's identifier may show the identifier [k] the caller asked for. *)
Definition minimised (k : string) (r : models_CitizenRecord) : Prop :=
  crec_NationalID r = (if cache_restores_id then crec_NationalID r else "") /\
  (crec_NationalID r = "" \/ crec_NationalID r = k) /\
  crec_FullName r = "" /\ crec_DateOfBirth r = "" /\ crec_Address r = "".

Lemma no_pii_minimised k r : no_pii r -> minimised k r.
Proof. intros (E & ? & ? & ?). unfold minimised. rewrite E. split_and!; [by destruct cache_restores_id|by left|done..]. Qed.
Lemma no_pii_form k r : no_pii r -> minimised k (cache_citizen_form k r).
Proof.
  intros (Hn & Hf & Hd & Ha). destruct (cache_citizen_form_law k r) as (E1 & E2 & E3 & E4 & _).
  unfold minimised. rewrite E1, E2, E3, E4, Hn. destruct cache_restores_id; split_and!; auto.
Qed.

(** The cache holds no personal data. *)
Definition cache_clean (s : RState) : Prop :=
  cache_ok (rs_cache s) /\ forall k m x, has_citizen (rs_cache s) k m x -> minimised k x.

Lemma citizenRecordFromEvidence_clean sv ev x :
  sv_regulated sv = true -> citizenRecordFromEvidence sv ev = Ok x -> no_pii x.
Proof.
  intros Hr. unfold citizenRecordFromEvidence. rewrite Hr. intros (v & _ & [= <-])%result_bind_Ok. done.
Qed.

Lemma clean_find_citizen now k m : st_keeps cache_clean (on_cache (cache_FindCitizen now k m)) (minimised k).
Proof.
  intros s r s' [Hok Hc]. unfold on_cache, st_zoom. destruct (cache_FindCitizen now k m (rs_cache s)) as [x c] eqn:E.
  intros [= <- <-]. destruct (cache_find_citizen_law _ _ _ _ _ _ Hok E) as (Hok' & Hh & _ & Hx). split; [split; simpl; eauto|eauto].
Qed.
Lemma clean_find_sanction now k : st_keeps cache_clean (on_cache (cache_FindSanction now k)) (fun _ => True).
Proof.
  intros s r s' [Hok Hc]. unfold on_cache, st_zoom. destruct (cache_FindSanction now k (rs_cache s)) as [x c] eqn:E.
  intros [= <- <-]. destruct (cache_find_sanction_law _ _ _ _ _ Hok E) as (Hok' & Hh & _). split; [split; simpl; eauto|done].
Qed.
Lemma clean_save_citizen now k x m : no_pii x -> st_keeps cache_clean (on_cache (cache_SaveCitizen now k x m)) (fun _ => True).
Proof.
  intros Hx s r s' [Hok Hc]. unfold on_cache, st_zoom. destruct (cache_SaveCitizen now k x m (rs_cache s)) as [y c] eqn:E.
  intros [= <- <-]. destruct (cache_save_citizen_law _ _ _ _ _ _ _ Hok E) as (Hok' & Hh & _). split; [|done]. split; [done|].
  intros k' m' x' [?|(-> & _ & ->)]%Hh; [eauto|by apply no_pii_form].
Qed.
Lemma clean_save_sanction now k x : st_keeps cache_clean (on_cache (cache_SaveSanction now k x)) (fun _ => True).
Proof.
  intros s r s' [Hok Hc]. unfold on_cache, st_zoom. destruct (cache_SaveSanction now k x (rs_cache s)) as [y c] eqn:E.
  intros [= <- <-]. destruct (cache_save_sanction_law _ _ _ _ _ _ Hok E) as (Hok' & Hh & _). split; [split; simpl; eauto|done].
Qed.

Lemma clean_checkCache sv now k :
  st_keeps cache_clean (checkCache sv now k) (fun r => forall x, ccr_citizen r = Some x -> minimised k x).
Proof.
  unfold checkCache. destruct (sv_cached sv); simpl; [|by apply keeps_ret].
  eapply (keeps_bind _ _ _ (fun p => forall x, p.1 = Ok x -> minimised k x)).
  - destruct sanction_first.
    + eapply keeps_bind; [apply keeps_try, clean_find_sanction|]. intros rs _.
      eapply keeps_bind; [apply keeps_try, clean_find_citizen|]. intros rc Hrc. by apply keeps_ret.
    + eapply keeps_bind; [apply keeps_try, clean_find_citizen|]. intros rc Hrc.
      eapply keeps_bind; [apply keeps_try, clean_find_sanction|]. intros rs _. by apply keeps_ret.
  - intros [rc rs] Hrc. simpl in Hrc. destruct (hit_or_miss rc) as [c|e] eqn:Ec, (hit_or_miss rs) as [x|e']; try apply keeps_fail.
    apply keeps_ret. simpl. intros y ->. by apply Hrc, hit_or_miss_Some.
Qed.

Lemma convertEvidence_clean sv evidence c0 s0 c s1 :
  sv_regulated sv = true -> (forall x, c0 = Some x -> no_pii x) ->
  convertEvidence sv evidence c0 s0 = Ok (c, s1) -> forall x, c = Some x -> no_pii x.
Proof.
  intros Hr. revert c0 s0. induction evidence as [|ev evidence IH]; intros c0 s0 Hc; simpl.
  - by intros [= <- <-].
  - case_bool_decide.
    + intros (x & Hx & Hrest)%result_bind_Ok. eapply IH; [|exact Hrest]. intros y [= <-]. by eapply citizenRecordFromEvidence_clean.
    + case_bool_decide; [|by apply IH]. intros (x & Hx & Hrest)%result_bind_Ok. by eapply IH.
Qed.

Lemma clean_orch o s : cache_clean s -> cache_clean (mkRS o (rs_cache s) (rs_audit s)).
Proof. done. Qed.
Lemma clean_audit a s : cache_clean s -> cache_clean (mkRS (rs_orch s) (rs_cache s) a).
Proof. done. Qed.

Lemma clean_Check sv now userID nationalID :
  sv_regulated sv = true -> st_keeps cache_clean (Check sv now userID nationalID) (fun r => minimised nationalID (rr_Citizen r)).
Proof.
  intros Hr. unfold Check. eapply keeps_bind; [apply keeps_consent, clean_orch|]. intros [] _.
  eapply keeps_bind; [apply clean_checkCache|]. intros cached Hcached.
  assert (st_keeps cache_clean (fetched ← fetchMissing sv nationalID (match ccr_citizen cached with Some _ => true | None => false end)
                  (match ccr_sanction cached with Some _ => true | None => false end);
      '(fc, fs) ← st_lift (convertEvidence sv (res_Evidence fetched) None None);
      match (match ccr_citizen cached with Some c => Some c | None => fc end),
        (match ccr_sanction cached with Some s => Some s | None => fs end) with
      | Some citizen, Some sanction =>
          cacheNewlyFetched sv now nationalID citizen sanction cached;;
          mret (mkRR citizen sanction)
      | _, _ => st_fail (translateOrchestratorError (EVal ErrAllProvidersFailed) (Some fetched))
      end) (fun r => minimised nationalID (rr_Citizen r))) as Hrest.
  { eapply keeps_bind; [apply keeps_lookup, clean_orch|]. intros fetched _.
    eapply (keeps_bind _ _ _ (fun p => forall x, p.1 = Some x -> no_pii x)).
    { apply keeps_lift. intros [fc fs] Hf. simpl. eapply (convertEvidence_clean sv _ None None); [done|done|exact Hf]. }
    intros [fc fs] Hfc. simpl in Hfc.
    destruct (match ccr_citizen cached with Some c => Some c | None => fc end) as [citizen|] eqn:Ec; [|apply keeps_fail].
    destruct (match ccr_sanction cached with Some s => Some s | None => fs end) as [sanction|]; [|apply keeps_fail].
    assert (minimised nationalID citizen) as Hp
      by (destruct (ccr_citizen cached) eqn:Hcc; simplify_eq; auto using no_pii_minimised).
    eapply (keeps_bind _ _ _ (fun _ => True)); [|intros _ _; by apply keeps_ret].
    unfold cacheNewlyFetched. destruct (sv_cached sv); simpl; [|by apply keeps_ret].
    eapply (keeps_bind _ _ _ (fun _ => True)).
    { destruct (ccr_citizen cached); [by apply keeps_ret|]. simplify_eq. eapply keeps_weaken; [apply keeps_try, clean_save_citizen; auto|done]. }
    intros _ _. eapply (keeps_bind _ _ _ (fun _ => True)); [|intros _ _; by apply keeps_ret].
    destruct (ccr_sanction cached); [by apply keeps_ret|]. eapply keeps_weaken; [apply keeps_try, clean_save_sanction|done]. }
  destruct (ccr_citizen cached) as [c|] eqn:Hcc, (ccr_sanction cached); try exact Hrest. apply keeps_ret. simpl. by apply Hcached.
Qed.

Lemma clean_Citizen sv now userID nationalID :
  sv_regulated sv = true -> st_keeps cache_clean (Citizen sv now userID nationalID) (minimised nationalID).
Proof.
  intros Hr. unfold Citizen. eapply keeps_bind; [apply keeps_consent, clean_orch|]. intros [] _.
  eapply (keeps_bind _ _ _ (fun o => forall x, o = Some x -> minimised nationalID x)).
  { destruct (sv_cached sv); [|by apply keeps_ret]. eapply keeps_bind; [apply keeps_try, clean_find_citizen|]. intros x Hx.
    apply keeps_lift. intros o Ho y ->. by apply Hx, hit_or_miss_Some. }
  intros [record|] Hrec; [apply keeps_ret; by apply Hrec|].
  eapply (keeps_bind _ _ _ no_pii).
  { unfold Citizen_lookup. eapply keeps_bind; [apply keeps_lookup, clean_orch|]. intros result _.
    destruct (find_type _ _); [|apply keeps_fail]. apply keeps_lift. intros x Hx. by eapply citizenRecordFromEvidence_clean. }
  intros record Hp. eapply (keeps_bind _ _ _ (fun _ => True)); [|intros _ _; by apply keeps_ret, no_pii_minimised].
  destruct (sv_cached sv); [|by apply keeps_ret].
  eapply keeps_bind; [by apply keeps_try, clean_save_citizen|]. intros _ _. by apply keeps_ret.
Qed.

Lemma clean_CitizenWithDetails sv userID nationalID :
  st_keeps cache_clean (CitizenWithDetails sv userID nationalID) (fun _ => True).
Proof.
  unfold CitizenWithDetails. eapply keeps_bind; [apply keeps_consent, clean_orch|]. intros [] _.
  unfold Citizen_lookup. eapply keeps_bind; [apply keeps_lookup, clean_orch|]. intros result _.
  destruct (find_type _ _); [|apply keeps_fail]. by apply keeps_lift.
Qed.

Lemma clean_Sanctions sv now userID nationalID requestID :
  st_keeps cache_clean (Sanctions sv now userID nationalID requestID) (fun _ => True).
Proof.
  unfold Sanctions. eapply keeps_bind; [apply keeps_consent, clean_orch|]. intros [] _.
  eapply (keeps_bind _ _ _ (fun _ => True)).
  { destruct (sv_cached sv); [|by apply keeps_ret]. eapply keeps_bind; [apply keeps_try, clean_find_sanction|]. intros x _. by apply keeps_lift. }
  intros [record|] _.
  { eapply keeps_bind; [apply keeps_audit, clean_audit|]. intros _ _. by apply keeps_ret. }
  eapply keeps_bind; [apply keeps_lookup, clean_orch|]. intros result _. destruct (find_type _ _); [|apply keeps_fail].
  eapply (keeps_bind _ _ _ (fun _ => True)); [by apply keeps_lift|]. intros record _.
  eapply (keeps_bind _ _ _ (fun _ => True)).
  { destruct (sv_cached sv); [|by apply keeps_ret]. eapply keeps_bind; [apply keeps_try, clean_save_sanction|]. intros _ _. by apply keeps_ret. }
  intros _ _. eapply keeps_bind; [apply keeps_audit, clean_audit|]. intros _ _. by apply keeps_ret.
Qed.

(** Requests to the service, and the citizen record an external caller sees, with the
    identifier it asked for. *)
Inductive reg_op :=
| RCheck (now : time) (userID : uuid) (nationalID : string)
| RCitizen (now : time) (userID : uuid) (nationalID : string)
| RCitizenWithDetails (userID : uuid) (nationalID : string)
| RSanctions (now : time) (userID : uuid) (nationalID requestID : string).

Definition reg_step (sv : Service) (s : RState) (op : reg_op) : option (string * models_CitizenRecord) * RState :=
  let ok {X} (f : X -> option (string * models_CitizenRecord)) (p : res X * RState) :=
    (match p.1 with Ok x => f x | Err _ => None end, p.2) in
  match op with
  | RCheck now u n => ok (fun r => Some (n, rr_Citizen r)) (Check sv now u n s)
  | RCitizen now u n => ok (fun r => Some (n, r)) (Citizen sv now u n s)
  | RCitizenWithDetails u n => ok (fun _ => None) (CitizenWithDetails sv u n s)
  | RSanctions now u n rid => ok (fun _ => None) (Sanctions sv now u n rid s)
  end.

Fixpoint reg_run (sv : Service) (s : RState) (ops : list reg_op) : list (string * models_CitizenRecord) * RState :=
  match ops with
  | [] => ([], s)
  | op :: ops' =>
      let '(r, s1) := reg_step sv s op in
      let '(rs, s2) := reg_run sv s1 ops' in
      (option_list r ++ rs, s2)
  end.

Lemma reg_step_clean sv s op :
  sv_regulated sv = true -> cache_clean s ->
  cache_clean (reg_step sv s op).2 /\ forall p, (reg_step sv s op).1 = Some p -> minimised p.1 p.2.
Proof.
  intros Hr Hc. destruct op as [now u n|now u n|u n|now u n rid]; simpl.
  - destruct (Check sv now u n s) as [r s'] eqn:E. destruct (clean_Check sv now u n Hr s r s' Hc E) as [? Hx].
    split; [done|]. destruct r as [x|]; [|done]. intros y [= <-]. by apply Hx.
  - destruct (Citizen sv now u n s) as [r s'] eqn:E. destruct (clean_Citizen sv now u n Hr s r s' Hc E) as [? Hx].
    split; [done|]. destruct r as [x|]; [|done]. intros y [= <-]. by apply Hx.
  - destruct (CitizenWithDetails sv u n s) as [r s'] eqn:E. destruct (clean_CitizenWithDetails sv u n s r s' Hc E) as [? _].
    split; [done|]. by destruct r.
  - destruct (Sanctions sv now u n rid s) as [r s'] eqn:E. destruct (clean_Sanctions sv now u n rid s r s' Hc E) as [? _].
    split; [done|]. by destruct r.
Qed.

(** C15: Regulated mode keeps personal data inside.  Over any sequence of requests, from a
    cache without personal data, no citizen record that [Check] or [Citizen] returns
    carries a name, a date of birth or an address, and neither does any record the
    cache comes to hold, the lookups with details included.  A national identifier is
    shown only by a cache that answers with the key in place of the saved record's
    (blank) identifier, as the SQL cache does, and then it is the one the caller asked
    for; with a cache that keeps the record, as the in-memory one, it is blank. *)
Theorem regulated_mode_hides_pii (sv : Service) (s : RState) (ops : list reg_op) :
  sv_regulated sv = true -> cache_clean s ->
  let '(answers, s') := reg_run sv s ops in
  (forall k r, (k, r) ∈ answers \/ (exists m, has_citizen (rs_cache s') k m r) ->
     crec_FullName r = "" /\ crec_DateOfBirth r = "" /\ crec_Address r = "" /\
     (crec_NationalID r = "" \/ (cache_restores_id = true /\ crec_NationalID r = k))) /\
  (cache_restores_id = false -> Forall (fun p => no_pii p.2) answers /\
     forall k m r, has_citizen (rs_cache s') k m r -> no_pii r).
Proof.
  intros Hr Hc. assert (Forall (fun p => minimised p.1 p.2) (reg_run sv s ops).1 /\ cache_clean (reg_run sv s ops).2) as Hall.
  { revert s Hc. induction ops as [|op ops IH]; intros s Hc; [by split|]. simpl.
    destruct (reg_step_clean sv s op Hr Hc) as [Hc1 Hx]. destruct (reg_step sv s op) as [r s1]. simpl in *.
    destruct (IH s1 Hc1) as [Hall Hc2]. destruct (reg_run sv s1 ops) as [rs s2]. simpl in *. split; [|done].
    apply Forall_app. split; [|done]. destruct r; simpl; [|done]. constructor; [by apply Hx|constructor]. }
  destruct (reg_run sv s ops) as [rs s']. destruct Hall as [Hall [_ Hc']]. simpl in *. rewrite Forall_forall in Hall.
  assert (forall k r, minimised k r -> cache_restores_id = false -> no_pii r) as Hm
    by (intros k r (E & _ & ?) Hf; rewrite Hf in E; by split).
  split; [|intros Hf; split; [apply Forall_forall; intros [k r] Hin; by apply (Hm k), Hf; apply Hall in Hin|eauto]].
  intros k r Hin. assert (minimised k r) as (E & Hk & ? & ? & ?) by (destruct Hin as [Hin%Hall|[m Hh%Hc']]; done).
  split_and!; [done..|]. destruct cache_restores_id; [naive_solver|by left].
Qed.

(** *** Sanctions checks *)

Lemma registry_lookup_spec sv types nationalID s r s' :
  0 <= bc_MaxRetries (or_backoff (sv_orchestrator sv)) ->
  registry_lookup sv types nationalID s = (r, s') ->
  rs_cache s' = rs_cache s /\ rs_audit s' = rs_audit s /\
  exists calls, os_calls (rs_orch s') = os_calls (rs_orch s) ++ calls /\
    forall res, r = Ok res -> res_Evidence res = answers calls.
Proof.
  intros Hm. unfold registry_lookup, on_orch, st_zoom, Orchestrator_Lookup, lookupFallback, mbind, st_bind, mret, st_ret, st_modify. simpl.
  destruct (fallback_types _ _ _ _ _ _ _) as [r1 o1] eqn:E.
  apply fallback_types_gathers in E as (res & -> & [(calls & [Hc _ _] & Hev) _]); [|done]. simpl in *.
  unfold finish. case_match; intros [= <- <-]; simpl; (split_and!; [done..|]); exists calls; (split; [done|]); [done|].
  by intros ? [= <-].
Qed.

(** What a failed check leaves in the audit trail: nothing, or the event of the append
    whose reply was lost; nothing when the store's failed appends store nothing. *)
Definition audit_failed (now : time) (userID : uuid) (requestID : string) (a a' : A) : Prop :=
  (audit_events a' = audit_events a \/
   exists listed, audit_events a' ≡ₚ compliance_stored now (sanctions_event userID listed requestID) :: audit_events a) /\
  (AuditStoreAtomic A -> audit_events a' = audit_events a).

Lemma audit_failed_same now userID requestID a a' : audit_events a' = audit_events a -> audit_failed now userID requestID a a'.
Proof. intros E. split; auto. Qed.

Lemma auditSanctionsCheck_spec sv now userID listed requestID s r s' :
  sv_audited sv = true -> auditSanctionsCheck sv now userID listed requestID s = (r, s') ->
  rs_orch s' = rs_orch s /\ rs_cache s' = rs_cache s /\
  match r with
  | Ok _ => audit_events (rs_audit s') ≡ₚ compliance_stored now (sanctions_event userID listed requestID) :: audit_events (rs_audit s)
  | Err _ => audit_failed now userID requestID (rs_audit s) (rs_audit s')
  end.
Proof.
  intros Ha. unfold auditSanctionsCheck. rewrite Ha. simpl. unfold mbind, st_bind, st_try, on_audit, st_zoom.
  destruct (Compliance_Emit now _ (rs_audit s)) as [x a] eqn:E. pose proof (Compliance_Emit_spec _ _ _ _ _ E) as He.
  destruct x; intros [= <- <-]; split_and!; [done..|]. split; [destruct He; eauto|]. intros Hat. by eapply Compliance_Emit_none.
Qed.

Lemma elem_of_answers calls ev : ev ∈ answers calls -> exists id, (id, Ok ev) ∈ calls.
Proof.
  unfold answers. rewrite list_elem_of_omap. intros ([id [e|]] & Hin & H'); simpl in H'; simplify_eq. eauto.
Qed.

Lemma find_type_elem t evidence ev : find_type t evidence = Some ev -> ev ∈ evidence /\ ev_ProviderType ev = t.
Proof.
  unfold find_type. intros Hh. assert (ev ∈ filter (fun ev => ev_ProviderType ev = t) evidence) as Hin.
  { destruct (filter _ evidence); simplify_eq/=. left. }
  by apply list_elem_of_filter in Hin as [? ?].
Qed.

Lemma find_step_spec {X} (find : ST C error X) (cached : bool) s r s' :
  (if cached then r ← st_try (on_cache find); st_lift (hit_or_miss r) else mret None) s = (r, s') ->
  rs_orch s' = rs_orch s /\ rs_audit s' = rs_audit s /\
  forall x, r = Ok (Some x) -> exists c, find (rs_cache s) = (Ok x, c).
Proof.
  destruct cached; [|by intros [= <- <-]]. unfold mbind, st_bind, st_try, on_cache, st_zoom, st_lift.
  destruct (find (rs_cache s)) as [y c]. intros [= <- <-]. split_and!; [done..|]. intros x Hx%hit_or_miss_Some. subst. eauto.
Qed.

(** The record comes from the cache or from an answer of a provider. *)
Definition sanction_source (s s' : RState) (nationalID : string) (record : models_SanctionsRecord) : Prop :=
  has_sanction (rs_cache s) nationalID record \/
  exists calls id ev, os_calls (rs_orch s') = os_calls (rs_orch s) ++ calls /\ (id, Ok ev) ∈ calls /\
    ev_ProviderType ev = ProviderTypeSanctions /\ sanctionsRecordFromEvidence ev = Ok record.

(** C16: Sanctions checks are gated and audited.  Without consent nothing is read, called or
    recorded.  A record is returned only after an audit event that names the user and
    says whether the person is listed has been stored, exactly one per answer; when the
    audit fails, or anything else, no record is returned and no event is stored, unless
    the store did the append and lost its reply: then it is the event of this check.  The
    record is the cache's for this identifier or the conversion of a sanctions
    provider's answer to this request. *)
Theorem sanctions_check_audited (sv : Service) (now : time) (userID : uuid) (nationalID requestID : string) (s s' : RState)
    (port : uuid -> string -> ST W error unit) (r : res models_SanctionsRecord) :
  sv_audited sv = true -> sv_consentPort sv = Some port -> cache_ok (rs_cache s) ->
  0 <= bc_MaxRetries (or_backoff (sv_orchestrator sv)) ->
  Sanctions sv now userID nationalID requestID s = (r, s') ->
  (forall e w, port userID "registry_check" (os_world (rs_orch s)) = (Err e, w) ->
     r = Err e /\ rs_cache s' = rs_cache s /\ rs_audit s' = rs_audit s /\ os_calls (rs_orch s') = os_calls (rs_orch s)) /\
  match r with
  | Ok record =>
      audit_events (rs_audit s') ≡ₚ
        compliance_stored now (sanctions_event userID (srec_Listed record) requestID) :: audit_events (rs_audit s) /\
      sanction_source s s' nationalID record
  | Err _ => audit_failed now userID requestID (rs_audit s) (rs_audit s')
  end.
Proof.
  intros Ha Hp Hok Hm Hrun. unfold Sanctions in Hrun. unfold mbind at 1, st_bind at 1 in Hrun.
  unfold requireConsent, on_world, on_orch, st_zoom in Hrun. rewrite Hp in Hrun.
  destruct (port userID "registry_check" (os_world (rs_orch s))) as [[[]|e] w].
  2: { injection Hrun as <- <-. simpl. split; [|by apply audit_failed_same]. by intros e' w' [= <- <-]. }
  split; [done|]. set (s1 := mkRS _ (rs_cache s) (rs_audit s)) in Hrun.
  assert (rs_audit s1 = rs_audit s /\ rs_cache s1 = rs_cache s /\
    os_calls (rs_orch s1) = os_calls (rs_orch s)) as (Ha1 & Hc1 & Ho1) by done.
  clearbody s1. unfold mbind at 1, st_bind at 1 in Hrun. match type of Hrun with (match ?m with _ => _ end) = _ => destruct m as [x s2] eqn:E2 end.
  apply find_step_spec in E2 as (Ho2 & Ha2 & Hx). destruct x as [[record|]|e].
  - destruct (Hx record eq_refl) as [c Hf]. rewrite Hc1 in Hf. unfold mbind at 1, st_bind at 1 in Hrun.
    destruct (auditSanctionsCheck _ _ _ _ _ s2) as [y s3] eqn:E3. apply auditSanctionsCheck_spec in E3 as (Ho3 & Hc3 & He3); [|done].
    rewrite Ha2, Ha1 in He3. destruct y; injection Hrun as <- <-; [|done]. split; [done|]. left.
    destruct (cache_find_sanction_law _ _ _ _ _ Hok Hf) as (_ & _ & _ & Hh). by apply Hh.
  - unfold mbind at 1, st_bind at 1 in Hrun. destruct (registry_lookup sv _ nationalID s2) as [y s3] eqn:E3.
    apply registry_lookup_spec in E3 as (Hc3 & Ha3 & calls & Ho3 & Hev); [|done].
    destruct y as [result|e]; [|injection Hrun as <- <-; apply audit_failed_same; by rewrite Ha3, Ha2, Ha1]. specialize (Hev result eq_refl).
    destruct (find_type ProviderTypeSanctions (res_Evidence result)) as [ev|] eqn:Ef; [|injection Hrun as <- <-; apply audit_failed_same; by rewrite Ha3, Ha2, Ha1].
    unfold mbind at 1, st_bind at 1, st_lift in Hrun.
    destruct (sanctionsRecordFromEvidence ev) as [record|e] eqn:Es; [|injection Hrun as <- <-; apply audit_failed_same; by rewrite Ha3, Ha2, Ha1].
    unfold mbind at 1, st_bind at 1 in Hrun. match type of Hrun with (match ?m with _ => _ end) = _ => destruct m as [[[]|e] s4] eqn:E4 end.
    2: { destruct (sv_cached sv); [|done]. unfold mbind, st_bind, st_try in E4. by destruct (on_cache _ s3). }
    assert (rs_orch s4 = rs_orch s3 /\ rs_audit s4 = rs_audit s3) as [Ho4 Ha4].
    { destruct (sv_cached sv); [|by injection E4 as <-]. unfold mbind, st_bind, st_try, on_cache, st_zoom in E4.
      destruct (cache_SaveSanction _ _ _ _). by injection E4 as <-. }
    unfold mbind at 1, st_bind at 1 in Hrun. destruct (auditSanctionsCheck _ _ _ _ _ s4) as [y s5] eqn:E5.
    apply auditSanctionsCheck_spec in E5 as (Ho5 & Hc5 & He5); [|done].
    rewrite Ha4, Ha3, Ha2, Ha1 in He5. destruct y; injection Hrun as <- <-; [|done]. split; [done|]. right.
    apply find_type_elem in Ef as [Hin Ht]. rewrite Hev in Hin. apply elem_of_answers in Hin as [id Hin].
    exists calls, id, ev. split_and!; [|done..]. rewrite Ho5, Ho4, Ho3, Ho2. by rewrite Ho1.
  - injection Hrun as <- <-. apply audit_failed_same. by rewrite Ha2, Ha1.
Qed.

(** *** Combined checks *)

(** What the cache holds came from [c]. *)
Definition holds_only (c : C) (s : RState) : Prop :=
  cache_ok (rs_cache s) /\ (forall k m x, has_citizen (rs_cache s) k m x -> has_citizen c k m x) /\
  (forall k x, has_sanction (rs_cache s) k x -> has_sanction c k x).

Lemma holds_find_citizen c now k m : st_keeps (holds_only c) (on_cache (cache_FindCitizen now k m)) (fun _ => True).
Proof.
  intros s r s' (Hok & Hc & Hs). unfold on_cache, st_zoom. destruct (cache_FindCitizen now k m (rs_cache s)) as [x c'] eqn:E.
  intros [= <- <-]. destruct (cache_find_citizen_law _ _ _ _ _ _ Hok E) as (Hok' & Hc' & Hs' & _). split; [|done].
  split_and!; simpl; auto.
Qed.
Lemma holds_find_sanction c now k : st_keeps (holds_only c) (on_cache (cache_FindSanction now k)) (fun _ => True).
Proof.
  intros s r s' (Hok & Hc & Hs). unfold on_cache, st_zoom. destruct (cache_FindSanction now k (rs_cache s)) as [x c'] eqn:E.
  intros [= <- <-]. destruct (cache_find_sanction_law _ _ _ _ _ Hok E) as (Hok' & Hc' & Hs' & _). split; [|done].
  split_and!; simpl; auto.
Qed.

(** An invariant that the cache reads respect is respected by [checkCache]. *)
Lemma keeps_checkCache (I : RState -> Prop) sv now k :
  (forall m, st_keeps I (on_cache (cache_FindCitizen now k m)) (fun _ => True)) ->
  st_keeps I (on_cache (cache_FindSanction now k)) (fun _ => True) -> st_keeps I (checkCache sv now k) (fun _ => True).
Proof.
  intros Hc Hs. unfold checkCache. destruct (sv_cached sv); simpl; [|by apply keeps_ret].
  eapply (keeps_bind _ _ _ (fun _ => True)).
  - destruct sanction_first.
    + eapply keeps_bind; [apply keeps_try, Hs|]. intros rs _. eapply keeps_bind; [apply keeps_try, Hc|]. intros rc _. by apply keeps_ret.
    + eapply keeps_bind; [apply keeps_try, Hc|]. intros rc _. eapply keeps_bind; [apply keeps_try, Hs|]. intros rs _. by apply keeps_ret.
  - intros [rc rs] _. destruct (hit_or_miss rc), (hit_or_miss rs); try apply keeps_fail. by apply keeps_ret.
Qed.

(** [Check] up to its commit: the records to return, and what the cache had. *)
Definition check_fetch (sv : Service) (now : time) (userID : uuid) (nationalID : string)
    : RM (RegistryResult * cacheCheckResult) :=
  _ ← requireConsent sv userID;
  cached ← checkCache sv now nationalID;
  match ccr_citizen cached, ccr_sanction cached with
  | Some c, Some s => mret (mkRR c s, cached)
  | cc, cs =>
      fetched ← fetchMissing sv nationalID (match cc with Some _ => true | None => false end)
                  (match cs with Some _ => true | None => false end);
      '(fc, fs) ← st_lift (convertEvidence sv (res_Evidence fetched) None None);
      match (match cc with Some c => Some c | None => fc end), (match cs with Some s => Some s | None => fs end) with
      | Some citizen, Some sanction => mret (mkRR citizen sanction, cached)
      | _, _ => st_fail (translateOrchestratorError (EVal ErrAllProvidersFailed) (Some fetched))
      end
  end.

Definition check_commit (sv : Service) (now : time) (nationalID : string) (r : RegistryResult) (cached : cacheCheckResult) : RM unit :=
  if AllCached cached then mret tt else cacheNewlyFetched sv now nationalID (rr_Citizen r) (rr_Sanction r) cached.

Lemma Check_split sv now userID nationalID s :
  Check sv now userID nationalID s =
  ('(r, cached) ← check_fetch sv now userID nationalID; check_commit sv now nationalID r cached;; mret r) s.
Proof.
  unfold Check, check_fetch, check_commit, AllCached, mbind, st_bind, mret, st_ret, st_lift, st_fail.
  destruct (requireConsent sv userID s) as [[[]|e] s1]; [|done]. destruct (checkCache sv now nationalID s1) as [[cached|e] s2]; [|done].
  destruct (ccr_citizen cached) as [c|] eqn:Ec, (ccr_sanction cached) as [x|] eqn:Es; [by rewrite Ec, Es|..].
  all: destruct (fetchMissing _ _ _ _ s2) as [[fetched|e] s3]; [|done];
    destruct (convertEvidence _ _ _ _) as [[[fc|] [fs|]]|e]; try done; by rewrite Ec, ?Es.
Qed.

Lemma keeps_check_fetch (I : RState -> Prop) sv now userID nationalID :
  (forall o s, I s -> I (mkRS o (rs_cache s) (rs_audit s))) ->
  (forall m, st_keeps I (on_cache (cache_FindCitizen now nationalID m)) (fun _ => True)) ->
  st_keeps I (on_cache (cache_FindSanction now nationalID)) (fun _ => True) ->
  st_keeps I (check_fetch sv now userID nationalID) (fun _ => True).
Proof.
  intros Ho Hc Hs. unfold check_fetch. eapply keeps_bind; [by apply keeps_consent|]. intros [] _.
  eapply keeps_bind; [by apply keeps_checkCache|]. intros cached _.
  destruct (ccr_citizen cached), (ccr_sanction cached); try by apply keeps_ret.
  all: eapply keeps_bind; [by apply keeps_lookup|]; intros fetched _;
    eapply (keeps_bind _ _ _ (fun _ => True)); [by apply keeps_lift|];
    intros [[fc|] [fs|]] _; try apply keeps_fail; by apply keeps_ret.
Qed.

Lemma keeps_check_commit (I : RState -> Prop) sv now k r cached :
  (forall c s, I s -> I (mkRS (rs_orch s) c (rs_audit s))) -> st_keeps I (check_commit sv now k r cached) (fun _ => True).
Proof.
  intros Hc. unfold check_commit, cacheNewlyFetched. destruct (AllCached cached); [by apply keeps_ret|].
  destruct (sv_cached sv); simpl; [|by apply keeps_ret].
  eapply (keeps_bind _ _ _ (fun _ => True)).
  { destruct (ccr_citizen cached); [by apply keeps_ret|]. eapply keeps_weaken; [by apply keeps_try, keeps_zoom_frame|done]. }
  intros _ _. eapply (keeps_bind _ _ _ (fun _ => True)); [|intros _ _; by apply keeps_ret].
  destruct (ccr_sanction cached); [by apply keeps_ret|]. eapply keeps_weaken; [by apply keeps_try, keeps_zoom_frame|done].
Qed.

(** [Check] returns a sanctions listing and records nothing. *)
Theorem Check_never_audits (sv : Service) (now : time) (userID : uuid) (nationalID : string) (s s' : RState) (r : res RegistryResult) :
  Check sv now userID nationalID s = (r, s') -> rs_audit s' = rs_audit s.
Proof.
  rewrite Check_split. assert (st_keeps (fun x => rs_audit x = rs_audit s)
    ('(r, cached) ← check_fetch sv now userID nationalID; check_commit sv now nationalID r cached;; mret r) (fun _ => True)) as Hk.
  { eapply keeps_bind.
    - apply keeps_check_fetch; [done|intros m|]; by apply keeps_zoom_frame.
    - intros [x cached] _. eapply keeps_bind; [by apply keeps_check_commit|]. intros _ _. by apply keeps_ret. }
  intros Hr. by apply (Hk s r s').
Qed.

Lemma check_commit_spec sv now k r cached s x s' :
  cache_ok (rs_cache s) -> check_commit sv now k r cached s = (x, s') ->
  x = Ok tt /\
  (forall k' m' y, has_citizen (rs_cache s') k' m' y -> has_citizen (rs_cache s) k' m' y \/ (k' = k /\ m' = sv_regulated sv /\ y = cache_citizen_form k (rr_Citizen r))) /\
  (forall k' y, has_sanction (rs_cache s') k' y -> has_sanction (rs_cache s) k' y \/ (k' = k /\ y = cache_sanction_form k (rr_Sanction r))).
Proof.
  intros Hok. unfold check_commit, cacheNewlyFetched. destruct (AllCached cached); [intros [= <- <-]; by split_and!; auto|].
  destruct (sv_cached sv); simpl; [|intros [= <- <-]; by split_and!; auto].
  unfold mbind, st_bind, st_try, on_cache, st_zoom, mret, st_ret.
  destruct (ccr_citizen cached).
  - destruct (ccr_sanction cached); [intros [= <- <-]; by split_and!; auto|].
    destruct (cache_SaveSanction _ _ _ _) as [y c] eqn:E. intros [= <- <-]. simpl.
    destruct (cache_save_sanction_law _ _ _ _ _ _ Hok E) as (? & ? & ?). split_and!; auto.
  - destruct (cache_SaveCitizen _ _ _ _ _) as [y c] eqn:E. simpl.
    destruct (cache_save_citizen_law _ _ _ _ _ _ _ Hok E) as (Hok' & Hc' & Hs').
    destruct (ccr_sanction cached); [intros [= <- <-]; simpl; split_and!; auto|].
    destruct (cache_SaveSanction _ _ _ _) as [z c2] eqn:E2. intros [= <- <-]. simpl.
    destruct (cache_save_sanction_law _ _ _ _ _ _ Hok' E2) as (? & ? & Hs2). split_and!; auto.
    intros k' y' [?|?]%Hs2; auto.
Qed.

(** [Check] commits all or nothing.  When it fails, the cache holds nothing it did not
    hold before; when it succeeds, the only new entries are the two records it
    returns, in the cache's form, under the identifier asked for and in the service's
    mode. *)
Theorem Check_commits_all_or_nothing (sv : Service) (now : time) (userID : uuid) (nationalID : string) (s s' : RState)
    (r : res RegistryResult) :
  cache_ok (rs_cache s) -> Check sv now userID nationalID s = (r, s') ->
  (forall k m x, has_citizen (rs_cache s') k m x -> has_citizen (rs_cache s) k m x \/
     exists res, r = Ok res /\ k = nationalID /\ m = sv_regulated sv /\ x = cache_citizen_form k (rr_Citizen res)) /\
  (forall k x, has_sanction (rs_cache s') k x -> has_sanction (rs_cache s) k x \/
     exists res, r = Ok res /\ k = nationalID /\ x = cache_sanction_form k (rr_Sanction res)).
Proof.
  intros Hok. rewrite Check_split. unfold mbind at 1, st_bind at 1.
  destruct (check_fetch sv now userID nationalID s) as [x s1] eqn:E.
  assert (holds_only (rs_cache s) s1) as (Hok1 & Hc1 & Hs1).
  { eapply (keeps_check_fetch (holds_only (rs_cache s))); [..|exact E]; [done|intros; apply holds_find_citizen|apply holds_find_sanction|].
    by split_and!. }
  destruct x as [[res cached]|e]; [|intros [= <- <-]; split; auto].
  unfold mbind, st_bind. destruct (check_commit sv now nationalID res cached s1) as [y s2] eqn:E2.
  apply check_commit_spec in E2 as (-> & Hc2 & Hs2); [|done]. intros [= <- <-].
  split; [intros k m z [?|(-> & -> & ->)]%Hc2|intros k z [?|(-> & ->)]%Hs2]; eauto 10.
Qed.

End service.

(** *** Examples *)

Module RegistryExample.
Definition provider (id : string) (t : ProviderType) (data : gmap string goany) : @Provider unit :=
  mkProvider id (mkCaps "http" t [] "v1.0.0" ["national_id"]) (fun _ w => (Ok (mkEv id t float_one data 5 ∅), w)) (fun w => (Ok tt, w)).

Definition citizens : @Provider unit :=
  provider "gov" ProviderTypeCitizen
    (list_to_map [("national_id", AnyString "AB1234"); ("full_name", AnyString "Ada"); ("date_of_birth", AnyString "1990-01-01");
                  ("address", AnyString "1 Road"); ("valid", AnyBool true)]).
Definition sanctions : @Provider unit :=
  provider "ofac" ProviderTypeSanctions
    (list_to_map [("national_id", AnyString "AB1234"); ("listed", AnyBool true); ("source", AnyString "ofac")]).

Definition orchestrator : @Orchestrator unit :=
  Orchestrator_New (<["gov" := citizens]> {["ofac" := sanctions]}) StrategyDefault ∅ [] (mkBackoff 0 0 0 float_zero 0).
Definition port (userID : uuid) (purpose : string) : ST unit error unit := fun w => (Ok tt, w).
Definition wait (d : duration) : ST unit error unit := fun w => (Ok tt, w).
Definition service : @Service unit := mkService orchestrator true (Some port) true true.
Definition start : @RState unit InMemoryCache MemoryStore.InMemoryAuditStore :=
  mkRS (mkOS tt [] [] 0) (NewInMemoryCache Hour []) MemoryStore.NewInMemoryAuditStore.

Definition check := Check id wait id id id false service 7 3 "AB1234" start.
Definition sanctioned := Sanctions id wait id id id service 7 3 "AB1234" "r1" start.

Lemma start_ok : cache_ok (rs_cache start).
Proof. split; apply lru_New_wf. Qed.
Lemma start_clean : cache_clean start.
Proof. split; [apply start_ok|]. intros k m x [t Ht]. discriminate Ht. Qed.

Definition requests : list reg_op := [RCheck 7 3 "AB1234"; RCitizen 8 3 "AB1234"; RCitizenWithDetails 3 "AB1234"].
End RegistryExample.
Import RegistryExample.

Lemma regulated_mode_hides_pii_witness :
  length (reg_run id wait id id id false service start requests).1 = 2%nat /\
  Forall (fun p => no_pii p.2) (reg_run id wait id id id false service start requests).1.
Proof.
  pose proof (regulated_mode_hides_pii id wait id id id false service start requests eq_refl start_clean) as Hall.
  destruct (reg_run id wait id id id false service start requests) as [answers s'] eqn:E.
  split; [|exact (proj1 (proj2 Hall eq_refl))]. vm_compute in E. injection E as <- _. reflexivity.
Defined.

Lemma sanctions_check_audited_witness :
  exists r s', sanctioned = (Ok r, s') /\ srec_Listed r = true /\
    audit_events (rs_audit s') ≡ₚ [compliance_stored 7 (sanctions_event 3 (srec_Listed r) "r1")].
Proof.
  destruct sanctioned as [[r|e] s'] eqn:E; [|vm_compute in E; discriminate E].
  destruct (sanctions_check_audited id wait id id id service 7 3 "AB1234" "r1" start s' port (Ok r) eq_refl eq_refl start_ok
    ltac:(vm_compute; discriminate) E) as [_ [Hev _]].
  exists r, s'. split_and!; [reflexivity| |exact Hev]. vm_compute in E. injection E as <- _. reflexivity.
Defined.

Lemma Check_commits_all_or_nothing_witness :
  exists r s', check = (Ok r, s') /\
    forall k x, has_sanction (rs_cache s') k x -> has_sanction (rs_cache start) k x \/ exists res, @Ok error _ r = Ok res /\ k = "AB1234" /\ x = rr_Sanction res.
Proof.
  destruct check as [[r|e] s'] eqn:E; [|vm_compute in E; discriminate E].
  exists r, s'. split; [reflexivity|].
  exact (proj2 (Check_commits_all_or_nothing id wait id id id false service 7 3 "AB1234" start s' (Ok r) start_ok E)).
Defined.

(** A listed person is reported by [Check] although no audit event is stored. *)
Theorem Check_reports_unaudited_listing :
  exists r s', check = (Ok r, s') /\ srec_Listed (rr_Sanction r) = true /\ audit_events (rs_audit s') = [].
Proof.
  destruct check as [[r|e] s'] eqn:E; [|vm_compute in E; discriminate E].
  exists r, s'. vm_compute in E. injection E as <- <-. split_and!; reflexivity.
Qed.
