(* ===== verification/VC.v ===== *)
(** * Verifiable credentials
    [internal/evidence/vc/models/models.go], [internal/evidence/vc/domain/],
    [internal/evidence/vc/service/service.go], [internal/evidence/vc/store/store_memory.go]

    Credentials, their claims, the conversion between the aggregate and the stored
    record, and the service that issues and verifies them.  The store is a class,
    implemented by the in-memory store; the registry and consent ports act on a
    world.  Operational audit events are given to the publisher of [AuditTrail] and only
    recorded here.  [uuid.NewString] and [uuid.Parse] are arguments. *)
From S2P Require Import Prelude Errors LRU RegistryCache Registry Ring AuditTrail Consent Decision.
Open Scope Z_scope.

(** ** Models *)

Abbreviation CredentialType := string (only parsing).
Definition CredentialTypeAgeOver18 : CredentialType := "AgeOver18".
Definition IssuerCredo : string := "credo".
Definition VerifiedViaNationalRegistry : string := "national_registry".
Definition credentialIDPrefix : string := "vc_".

Definition ParseCredentialType (value : string) : res CredentialType :=
  if str_empty (TrimSpace value) then Err (New CodeInvalidInput "type is required")
  else if negb (bool_decide (value = CredentialTypeAgeOver18)) then Err (New CodeInvalidInput "unsupported credential type")
  else Ok value.

Definition NewCredentialID (uuid_NewString : string) : string := credentialIDPrefix +:+ uuid_NewString.

Definition ParseCredentialID (uuid_valid : string -> bool) (value : string) : res string :=
  if str_empty (TrimSpace value) then Err (New CodeInvalidInput "credential_id is required")
  else if negb (String.prefix credentialIDPrefix value) then Err (New CodeInvalidInput "credential_id must start with vc_")
  else if negb (uuid_valid (String.substring 3 (String.length value - 3) value))
  then Err (New CodeInvalidInput "invalid credential_id format")
  else Ok value.

Record IssueRequest := mkIssue { ir_UserID : uuid; ir_Type : CredentialType; ir_NationalID : string }.

Record CredentialRecord := mkCred {
  cred_ID : string;
  cred_Type : CredentialType;
  cred_Subject : uuid;
  cred_Issuer : string;
  cred_IssuedAt : time;
  cred_Claims : gmap string goany;
}.

Record VerifyResult := mkVerify { ver_Valid : bool; ver_Credential : CredentialRecord; ver_Reason : string }.

(** ** Domain *)

Definition NewIssuedAt (t : time) : res time :=
  if time_IsZero t then Err (EOther "issued_at cannot be zero") else Ok t.

(** The zero [ExpiresAt] means no expiration. *)
Definition NewExpiresAt (t : time) : res time :=
  if time_IsZero t then Err (EOther "expires_at cannot be zero") else Ok t.
Definition NewExpiresAtAfter (t issuedAt : time) : res time :=
  if time_IsZero t then Err (EOther "expires_at cannot be zero")
  else if negb (time_After t issuedAt) then Err (EOther "expires_at must be after issued_at") else Ok t.
Definition NoExpiration : time := zero_time.
Definition ExpiresAt_IsExpiredAt (e now : time) : bool := if time_IsZero e then false else time_After now e.

Record AgeOver18Claims := mkClaims { cl_isOver18 : bool; cl_verifiedVia : string }.

Definition Claims_Minimized (c : AgeOver18Claims) : AgeOver18Claims := mkClaims (cl_isOver18 c) "".

Definition Claims_ToMap (c : AgeOver18Claims) : gmap string goany :=
  let m : gmap string goany := {["is_over_18" := AnyBool (cl_isOver18 c)]} in
  if str_empty (cl_verifiedVia c) then m else <["verified_via" := AnyString (cl_verifiedVia c)]> m.

(** A value of another type reads as the zero value. *)
Definition AgeOver18ClaimsFromMap (m : gmap string goany) : AgeOver18Claims :=
  mkClaims (match m !! "is_over_18" with Some (AnyBool b) => b | _ => false end)
    (match m !! "verified_via" with Some (AnyString s) => s | _ => "" end).

Record Credential := mkCredential {
  crd_id : string;
  crd_credType : CredentialType;
  crd_subject : uuid;
  crd_issuer : string;
  crd_issuedAt : time;
  crd_claims : AgeOver18Claims;
  crd_minimized : bool;
}.

(** [claims] is never nil: the only claim set is a struct. *)
Definition Credential_New (credentialID : string) (credType : CredentialType) (subject : uuid) (issuer : string)
    (issuedAt : time) (claims : AgeOver18Claims) : res Credential :=
  if str_empty credentialID then Err (EOther "credential_id is required")
  else if IsNil subject then Err (EOther "subject is required")
  else if str_empty issuer then Err (EOther "issuer is required")
  else if time_IsZero issuedAt then Err (EOther "issued_at is required")
  else Ok (mkCredential credentialID credType subject issuer issuedAt claims false).

Definition Credential_Minimized (c : Credential) : Credential :=
  mkCredential (crd_id c) (crd_credType c) (crd_subject c) (crd_issuer c) (crd_issuedAt c)
    (Claims_Minimized (crd_claims c)) true.

Definition ToModel (c : Credential) : CredentialRecord :=
  mkCred (crd_id c) (crd_credType c) (crd_subject c) (crd_issuer c) (crd_issuedAt c) (Claims_ToMap (crd_claims c)).

Definition claimsFromMap (credType : CredentialType) (m : gmap string goany) : res AgeOver18Claims :=
  if bool_decide (credType = CredentialTypeAgeOver18) then Ok (AgeOver18ClaimsFromMap m)
  else Err (EOther "unknown credential type").

Definition FromModel (m : CredentialRecord) : res Credential :=
  issuedAt ← NewIssuedAt (cred_IssuedAt m);
  claims ← claimsFromMap (cred_Type m) (cred_Claims m);
  Credential_New (cred_ID m) (cred_Type m) (cred_Subject m) (cred_Issuer m) issuedAt claims.

(** The documented invariants of a credential. *)
Record credential_ok (c : Credential) : Prop := {
  crok_id : str_empty (crd_id c) = false;
  crok_subject : IsNil (crd_subject c) = false;
  crok_issuer : str_empty (crd_issuer c) = false;
  crok_issuedAt : time_IsZero (crd_issuedAt c) = false;
  crok_minimized : crd_minimized c = true -> cl_verifiedVia (crd_claims c) = "";
}.

Lemma Credential_New_ok i t s iss at_ cl c : Credential_New i t s iss at_ cl = Ok c -> credential_ok c.
Proof. unfold Credential_New. intros H. repeat case_match; simplify_eq. by split. Qed.

Lemma Credential_Minimized_ok c : credential_ok c -> credential_ok (Credential_Minimized c).
Proof. intros [? ? ? ? ?]. by split. Qed.

Lemma claims_round_trip c : AgeOver18ClaimsFromMap (Claims_ToMap c) = c.
Proof.
  destruct c as [b v]. unfold Claims_ToMap, AgeOver18ClaimsFromMap. simpl.
  destruct (str_empty v) eqn:E; [apply bool_decide_eq_true in E as ->; done|].
  rewrite lookup_insert_ne by done. rewrite lookup_singleton_eq, lookup_insert_eq. done.
Qed.

(** A credential survives storage.  Saved as a record and loaded again, a valid age
    credential, minimized or not, comes back with the same identifier, type, subject,
    issuer, issuance time and claims, and valid; only the mark that says it was
    minimized is lost.  A record of another type, or one that breaks the invariants,
    does not load. *)
Theorem credential_roundtrip (c : Credential) (m : CredentialRecord) :
  (credential_ok c -> crd_credType c = CredentialTypeAgeOver18 ->
   FromModel (ToModel c) =
     Ok (mkCredential (crd_id c) (crd_credType c) (crd_subject c) (crd_issuer c) (crd_issuedAt c) (crd_claims c) false)) /\
  (forall c', FromModel m = Ok c' -> credential_ok c' /\ cred_Type m = CredentialTypeAgeOver18 /\ crd_minimized c' = false /\
     mkCred (crd_id c') (crd_credType c') (crd_subject c') (crd_issuer c') (crd_issuedAt c') (cred_Claims m) = m).
Proof.
  split.
  - intros [H1 H2 H3 H4 _] Ht. unfold FromModel, ToModel, NewIssuedAt, claimsFromMap. simpl. rewrite H4, Ht. simpl.
    unfold mbind, result_bind. simpl. unfold Credential_New. by rewrite claims_round_trip, H1, H2, H3, H4.
  - intros c' Hc. unfold FromModel in Hc. apply result_bind_Ok in Hc as (t & Ht & Hc). apply result_bind_Ok in Hc as (cl & Hcl & Hc).
    unfold NewIssuedAt in Ht. destruct (time_IsZero (cred_IssuedAt m)) eqn:Hz; [done|]. injection Ht as <-.
    unfold claimsFromMap in Hcl. case_bool_decide; [|done]. pose proof (Credential_New_ok _ _ _ _ _ _ _ Hc) as Hok.
    unfold Credential_New in Hc. repeat case_match; simplify_eq. split_and!; [done..|]. by destruct m.
Qed.

(** ** The store interface *)

Definition matches (subject : uuid) (t : CredentialType) (c : CredentialRecord) : Prop := cred_Subject c = subject /\ cred_Type c = t.

Class CredentialStore (S : Type) := {
  cs_Save : CredentialRecord -> ST S error unit;
  cs_FindByID : string -> ST S error CredentialRecord;
  cs_FindBySubjectAndType : uuid -> CredentialType -> ST S error CredentialRecord;
  cs_view : S -> gmap string CredentialRecord;
  cs_Save_law : forall c s r s', cs_Save c s = (r, s') ->
    cs_view s' = match r with Ok _ => <[cred_ID c := c]> (cs_view s) | Err _ => cs_view s end;
  cs_FindByID_law : forall id s r s', cs_FindByID id s = (r, s') ->
    cs_view s' = cs_view s /\
    match r with Ok c => cs_view s !! id = Some c | Err e => errors_Is e ErrNotFound = true -> cs_view s !! id = None end;
  cs_FindBySubjectAndType_law : forall u t s r s', cs_FindBySubjectAndType u t s = (r, s') ->
    cs_view s' = cs_view s /\
    match r with
    | Ok c => (exists id, cs_view s !! id = Some c) /\ matches u t c /\
        forall id c', cs_view s !! id = Some c' -> matches u t c' -> cred_IssuedAt c' <= cred_IssuedAt c
    | Err e => errors_Is e ErrNotFound = true -> forall id c', cs_view s !! id = Some c' -> ~ matches u t c'
    end;
}.

#[global] Instance matches_dec u t c : Decision (matches u t c).
Proof. unfold matches. apply _. Defined.

Module VCMemory.
Record InMemoryVCStore := mkVCStore { vm_credentials : gmap string CredentialRecord }.
Definition NewInMemoryVCStore : InMemoryVCStore := mkVCStore ∅.

Definition Save (c : CredentialRecord) : ST InMemoryVCStore error unit := fun s =>
  (Ok tt, mkVCStore (<[cred_ID c := c]> (vm_credentials s))).
Definition FindByID (id : string) : ST InMemoryVCStore error CredentialRecord := fun s =>
  (match vm_credentials s !! id with Some c => Ok c | None => Err (EVal ErrNotFound) end, s).

(** The later one, where [After] is strict. *)
Definition later (u : uuid) (t : CredentialType) (found : option CredentialRecord) (c : CredentialRecord) : option CredentialRecord :=
  if decide (matches u t c) then
    match found with
    | None => Some c
    | Some f => if time_After (cred_IssuedAt c) (cred_IssuedAt f) then Some c else found
    end
  else found.

(** The records in the order in which Go ranges over the map. *)
Definition FindBySubjectAndType (u : uuid) (t : CredentialType) : ST InMemoryVCStore error CredentialRecord := fun s =>
  (match foldl (later u t) None (map_to_list (vm_credentials s)).*2 with Some c => Ok c | None => Err (EVal ErrNotFound) end, s).

Lemma later_spec u t l found :
  match foldl (later u t) found l with
  | None => found = None /\ Forall (fun c => ~ matches u t c) l
  | Some c => (found = Some c \/ (c ∈ l /\ matches u t c)) /\
      (forall f, found = Some f -> cred_IssuedAt f <= cred_IssuedAt c) /\
      Forall (fun c' => matches u t c' -> cred_IssuedAt c' <= cred_IssuedAt c) l
  end.
Proof.
  revert found. induction l as [|x l IH]; intros found; simpl.
  - destruct found; [|done]. split_and!; [by left| |done]. intros f [= <-]. done.
  - specialize (IH (later u t found x)). destruct (foldl _ _ _) as [c|].
    + destruct IH as (H1 & H2 & H3). unfold later in *. destruct (decide (matches u t x)) as [Hm|Hm].
      * destruct found as [f|]; [destruct (time_After (cred_IssuedAt x) (cred_IssuedAt f)) eqn:Ha|]; times; bools.
        -- pose proof (H2 x eq_refl). split_and!; [destruct H1 as [[= ->]|[? ?]]; right; split; [left|done|by right|done]| |by constructor].
           intros f' [= <-]. lia.
        -- pose proof (H2 f eq_refl). split_and!; [destruct H1 as [?|[? ?]]; [by left|right; split; [by right|done]]|done|].
           constructor; [lia|done].
        -- pose proof (H2 x eq_refl). split_and!; [destruct H1 as [[= ->]|[? ?]]; right; split; [left|done|by right|done]|done|by constructor].
      * split_and!; [destruct H1 as [?|[? ?]]; [by left|right; split; [by right|done]]|done|by constructor].
    + destruct IH as [H1 H2]. unfold later in H1. destruct (decide (matches u t x)); [destruct found; [by case_match|done]|].
      split; [done|by constructor].
Qed.
End VCMemory.

#[global] Program Instance memory_credential_store : CredentialStore VCMemory.InMemoryVCStore := {|
  cs_Save := VCMemory.Save;
  cs_FindByID := VCMemory.FindByID;
  cs_FindBySubjectAndType := VCMemory.FindBySubjectAndType;
  cs_view := VCMemory.vm_credentials;
|}.
Next Obligation. by intros c s r s' [= <- <-]. Qed.
Next Obligation. intros id s r s' [= <- <-]. split; [done|]. by destruct (VCMemory.vm_credentials s !! id) eqn:E. Qed.
Next Obligation.
  intros u t s r s' [= <- <-]. split; [done|].
  pose proof (VCMemory.later_spec u t (map_to_list (VCMemory.vm_credentials s)).*2 None) as H.
  assert (forall c, c ∈ (map_to_list (VCMemory.vm_credentials s)).*2 <-> exists id, VCMemory.vm_credentials s !! id = Some c) as Hin.
  { intros c. rewrite list_elem_of_fmap. setoid_rewrite <- elem_of_map_to_list. split.
    - intros ([id c'] & -> & ?). by exists id.
    - intros [id ?]. by exists (id, c). }
  destruct (foldl _ _ _) as [c|].
  - destruct H as ([?|[Hc Hm]] & _ & Hall); [done|]. apply Hin in Hc. split_and!; [done..|].
    intros id c' Hc' Hm'. rewrite Forall_forall in Hall. apply Hall; [|done]. apply Hin. eauto.
  - destruct H as [_ Hall]. intros _ id c' Hc'. rewrite Forall_forall in Hall. apply Hall, Hin. eauto.
Qed.

(** ** The service *)

Section service.
Context {S W : Type} `{CredentialStore S}.
(** [uuid.NewString], by the number of calls so far. *)
Context (uuid_NewString : nat -> string) (uuid_String : uuid -> string).

Record VCService := mkVCS {
  vcs_registry : uuid -> string -> ST W error (option CitizenRecord);
  vcs_consentPort : option (uuid -> string -> ST W error unit);
  vcs_audited : bool;
  vcs_regulated : bool;
}.

Record VCState := mkVC { vc_store : S; vc_uuids : nat; vc_tracked : list OpsEvent; vc_world : W }.

Abbreviation VM X := (ST VCState error X) (only parsing).

Definition on_store {X} (m : ST S error X) : VM X :=
  st_zoom vc_store (fun st s => mkVC st (vc_uuids s) (vc_tracked s) (vc_world s)) m.
Definition on_ports {X} (m : ST W error X) : VM X :=
  st_zoom vc_world (fun w s => mkVC (vc_store s) (vc_uuids s) (vc_tracked s) w) m.

Definition sanitizeExternalError (err : error) (msg : string) : error :=
  match errors_As err with
  | Some (c, _) => if bool_decide (c = CodeInternal) then New CodeInternal msg else err
  | None => Wrap err CodeInternal msg
  end.

(** Run a port, with its error made safe for callers. *)
Definition sanitized {X} (m : VM X) (msg : string) : VM X := fun s =>
  match m s with (Err e, s') => (Err (sanitizeExternalError e msg), s') | r => r end.

Definition validateIssueRequest (req : IssueRequest) : res unit :=
  if IsNil (ir_UserID req) then Err (New CodeUnauthorized "user ID required")
  else if negb (bool_decide (ir_Type req = CredentialTypeAgeOver18)) then Err (New CodeBadRequest "invalid credential type")
  else if NationalID_IsNil (ir_NationalID req) then Err (New CodeBadRequest "national_id is required")
  else Ok tt.

Definition requireVCIssuanceConsent (sv : VCService) (userID : uuid) : VM unit :=
  match vcs_consentPort sv with
  | None => st_fail (New CodeInternal "consent service unavailable")
  | Some port => sanitized (on_ports (port userID "vc_issuance")) "consent check failed"
  end.

Definition fetchCitizenRecord (sv : VCService) (req : IssueRequest) : VM CitizenRecord :=
  record ← sanitized (on_ports (vcs_registry sv (ir_UserID req) (ir_NationalID req))) "registry lookup failed";
  match record with
  | Some r => if ci_Valid r then mret r else st_fail (New CodeBadRequest "invalid citizen record")
  | None => st_fail (New CodeBadRequest "invalid citizen record")
  end.

(** A new identifier is drawn only for a request that gets this far. *)
Definition buildCredentialModel (sv : VCService) (req : IssueRequest) (record : CitizenRecord) (now : time) : VM CredentialRecord :=
  match parse_date (ci_DateOfBirth record) with
  | None => st_fail (New CodeBadRequest "invalid citizen record")
  | Some birthDate =>
      if negb (IsOver18 birthDate now) then st_fail (New CodeBadRequest "User does not meet age requirement")
      else
        issuedAt ← st_lift (wrap_err (NewIssuedAt now) CodeInternal "failed to create issuance timestamp");
        n ← st_gets vc_uuids;
        st_modify (fun s => mkVC (vc_store s) (Datatypes.S (vc_uuids s)) (vc_tracked s) (vc_world s));;
        cred ← st_lift (wrap_err (Credential_New (NewCredentialID (uuid_NewString n)) (ir_Type req) (ir_UserID req) IssuerCredo
                                    issuedAt (mkClaims true VerifiedViaNationalRegistry))
                          CodeInternal "failed to create credential");
        mret (ToModel (if vcs_regulated sv then Credential_Minimized cred else cred))
  end.

Definition vc_track (sv : VCService) (action requestID : string) (c : CredentialRecord) : VM unit :=
  st_modify (fun s =>
    if vcs_audited sv
    then mkVC (vc_store s) (vc_uuids s) (vc_tracked s ++ [mkOps zero_time (uuid_String (cred_Subject c)) action requestID]) (vc_world s)
    else s).

Definition Issue (sv : VCService) (now : time) (requestID : string) (req : IssueRequest) : VM CredentialRecord :=
  _ ← st_lift (validateIssueRequest req);
  _ ← requireVCIssuanceConsent sv (ir_UserID req);
  record ← fetchCitizenRecord sv req;
  vcModel ← buildCredentialModel sv req record now;
  r ← st_try (on_store (cs_Save vcModel));
  match r with
  | Err e => st_fail (Wrap e CodeInternal "failed to store credential")
  | Ok _ => vc_track sv "vc_issued" requestID vcModel;; mret vcModel
  end.

Definition Verify (sv : VCService) (requestID credentialID : string) : VM VerifyResult :=
  if str_empty credentialID then st_fail (New CodeBadRequest "credential_id is required")
  else
    r ← st_try (on_store (cs_FindByID credentialID));
    match r with
    | Err e =>
        if errors_Is e ErrNotFound then st_fail (New CodeNotFound "credential not found")
        else st_fail (Wrap e CodeInternal "failed to retrieve credential")
    | Ok cred => vc_track sv "vc_verified" requestID cred;; mret (mkVerify true cred "")
    end.

(** The claims of a credential that exists. *)
Definition FindCredentialPresence (userID : uuid) (credType : CredentialType) : VM (option (gmap string goany)) :=
  r ← st_try (on_store (cs_FindBySubjectAndType userID credType));
  match r with
  | Err e => if errors_Is e ErrNotFound then mret None else st_fail e
  | Ok record => mret (Some (cred_Claims record))
  end.

(** ** Theorems *)

(** What issuing a credential requires and produces. *)
Record issued_for (sv : VCService) (now : time) (req : IssueRequest) (w : W) (n : nat) (c : CredentialRecord) : Prop := {
  if_user : IsNil (ir_UserID req) = false;
  if_consent : exists port w1, vcs_consentPort sv = Some port /\ port (ir_UserID req) "vc_issuance" w = (Ok tt, w1) /\
    exists dob b w2, vcs_registry sv (ir_UserID req) (ir_NationalID req) w1 = (Ok (Some (mkCitizen dob true)), w2) /\
      parse_date dob = Some b /\ IsOver18 b now = true;
  if_record : c = mkCred (NewCredentialID (uuid_NewString n)) CredentialTypeAgeOver18 (ir_UserID req) IssuerCredo now
    (if vcs_regulated sv then {["is_over_18" := AnyBool true]}
     else <["verified_via" := AnyString VerifiedViaNationalRegistry]> {["is_over_18" := AnyBool true]});
}.

Lemma buildCredentialModel_spec sv req record now s r s' :
  buildCredentialModel sv req record now s = (r, s') ->
  vc_store s' = vc_store s /\ vc_tracked s' = vc_tracked s /\ vc_world s' = vc_world s /\ (vc_uuids s <= vc_uuids s')%nat /\
  forall c, r = Ok c -> vc_uuids s' = Datatypes.S (vc_uuids s) /\
    (exists b, parse_date (ci_DateOfBirth record) = Some b /\ IsOver18 b now = true) /\
    c = mkCred (NewCredentialID (uuid_NewString (vc_uuids s))) (ir_Type req) (ir_UserID req) IssuerCredo now
      (if vcs_regulated sv then {["is_over_18" := AnyBool true]}
       else <["verified_via" := AnyString VerifiedViaNationalRegistry]> {["is_over_18" := AnyBool true]}).
Proof.
  unfold buildCredentialModel. destruct (parse_date (ci_DateOfBirth record)) as [b|]; [|by intros [= <- <-]].
  destruct (IsOver18 b now) eqn:Ho; simpl; [|by intros [= <- <-]]. unfold NewIssuedAt.
  destruct (time_IsZero now) eqn:Hz; simpl; [by intros [= <- <-]|].
  unfold mbind, st_bind, st_gets, st_modify, st_lift. simpl. unfold Credential_New. simpl.
  destruct (IsNil (ir_UserID req)); simpl; [intros [= <- <-]; simpl; split_and!; try done; lia|].
  rewrite Hz. simpl. intros [= <- <-]. simpl. split_and!; try done; [lia|]. intros c [= <-]. split_and!; [done|by exists b|].
  by destruct (vcs_regulated sv).
Qed.

Lemma Issue_spec sv now requestID req s r s' :
  Issue sv now requestID req s = (r, s') ->
  (vc_uuids s <= vc_uuids s')%nat /\
  match r with
  | Ok c => issued_for sv now req (vc_world s) (vc_uuids s) c /\ vc_uuids s' = Datatypes.S (vc_uuids s) /\
      cs_view (vc_store s') = <[cred_ID c := c]> (cs_view (vc_store s)) /\
      vc_tracked s' = vc_tracked s ++ (if vcs_audited sv then [mkOps zero_time (uuid_String (ir_UserID req)) "vc_issued" requestID] else [])
  | Err _ => cs_view (vc_store s') = cs_view (vc_store s) /\ vc_tracked s' = vc_tracked s
  end.
Proof.
  unfold Issue, mbind at 1, st_bind at 1, st_lift. destruct (validateIssueRequest req) as [[]|e] eqn:Hv; [|by intros [= <- <-]].
  assert (IsNil (ir_UserID req) = false /\ ir_Type req = CredentialTypeAgeOver18) as [Hu Ht].
  { unfold validateIssueRequest in Hv. destruct (IsNil (ir_UserID req)); [done|]. by case_bool_decide. }
  unfold mbind at 1, st_bind at 1, requireVCIssuanceConsent. destruct (vcs_consentPort sv) as [port|] eqn:Hp; [|by intros [= <- <-]].
  unfold sanitized at 1, on_ports at 1, st_zoom at 1. destruct (port (ir_UserID req) "vc_issuance" (vc_world s)) as [[[]|e] w1] eqn:Hport;
    [|by intros [= <- <-]].
  unfold mbind at 1, st_bind at 1, fetchCitizenRecord. unfold mbind at 1, st_bind at 1. unfold sanitized, on_ports, st_zoom. simpl.
  destruct (vcs_registry sv (ir_UserID req) (ir_NationalID req) w1) as [[[[dob valid]|]|e] w2] eqn:Hr; [|by intros [= <- <-]..].
  simpl. destruct valid; [|by intros [= <- <-]]. unfold mret, st_ret, mbind at 1, st_bind at 1.
  destruct (buildCredentialModel _ _ _ _ _) as [x s2] eqn:Hb. apply buildCredentialModel_spec in Hb as (Hst & Htr & Hw & Hn & Hc). simpl in *.
  destruct x as [c|e]; [|intros [= <- <-]; by rewrite Hst, Htr]. destruct (Hc c eq_refl) as (Hn' & (b & Hb & Ho) & Hcr). clear Hc.
  unfold mbind, st_bind, st_try, on_store, st_zoom. destruct (cs_Save c (vc_store s2)) as [y st] eqn:Hs. apply cs_Save_law in Hs.
  rewrite Hst in Hs. destruct y as [[]|e]; [|intros [= <- <-]; simpl; by rewrite Htr].
  unfold vc_track, st_modify. intros [= <- <-]. simpl.
  assert (issued_for sv now req (vc_world s) (vc_uuids s) c) as Hif.
  { split; [done| |by rewrite Hcr, Ht]. exists port, w1. split_and!; [done..|]. by exists dob, b, w2. }
  destruct (vcs_audited sv); simpl; rewrite Htr, Hn', Hs, ?app_nil_r; split_and!; try done; try lia.
  by rewrite (if_record _ _ _ _ _ _ Hif).
Qed.

(** What a request needs. *)
Definition issue_requirements (sv : VCService) (now : time) (req : IssueRequest) (w : W) : Prop :=
  IsNil (ir_UserID req) = false /\ ir_Type req = CredentialTypeAgeOver18 /\ ir_NationalID req <> "" /\ time_IsZero now = false /\
  exists port w1 dob b w2, vcs_consentPort sv = Some port /\ port (ir_UserID req) "vc_issuance" w = (Ok tt, w1) /\
    vcs_registry sv (ir_UserID req) (ir_NationalID req) w1 = (Ok (Some (mkCitizen dob true)), w2) /\
    parse_date dob = Some b /\ IsOver18 b now = true.

Lemma Issue_requirements sv now requestID req s r s' :
  Issue sv now requestID req s = (r, s') -> issue_requirements sv now req (vc_world s) ->
  exists c, issued_for sv now req (vc_world s) (vc_uuids s) c /\
    (r = Ok c \/ exists st e st', vc_store s = st /\ cs_Save c st = (Err e, st')).
Proof.
  intros Hrun (Hu & Ht & Hn & Hz & port & w1 & dob & b & w2 & Hp & Hport & Hr & Hb & Ho).
  unfold Issue, validateIssueRequest, NationalID_IsNil, str_empty in Hrun. rewrite Hu, Ht, (bool_decide_eq_false_2 _ Hn) in Hrun.
  simpl in Hrun. unfold mbind, st_bind, st_lift, requireVCIssuanceConsent, fetchCitizenRecord, sanitized, on_ports, st_zoom in Hrun.
  rewrite Hp in Hrun. simpl in Hrun. rewrite Hport in Hrun. unfold mbind, st_bind in Hrun. simpl in Hrun. rewrite Hr in Hrun. simpl in Hrun.
  unfold mret, st_ret in Hrun. destruct (buildCredentialModel _ _ _ _ _) as [x s2] eqn:E.
  assert (exists c, x = Ok c) as [c ->].
  { unfold buildCredentialModel in E. simpl in E. rewrite Hb, Ho in E. unfold NewIssuedAt in E. rewrite Hz in E. simpl in E.
    unfold mbind, st_bind, st_gets, st_modify, st_lift, Credential_New in E. simpl in E. rewrite Hu, Hz in E. injection E as <- _. eauto. }
  apply buildCredentialModel_spec in E as (Hst & _ & _ & _ & Hc). destruct (Hc c eq_refl) as (_ & _ & Hcr). simpl in Hst, Hcr.
  exists c. split.
  { split; [done| |by rewrite Hcr, Ht]. exists port, w1. split_and!; [done..|]. by exists dob, b, w2. }
  unfold st_try, on_store, st_zoom in Hrun. rewrite Hst in Hrun. destruct (cs_Save c (vc_store s)) as [[[]|e] st] eqn:Es.
  - left. unfold vc_track, st_modify in Hrun. by injection Hrun as <- _.
  - right. by exists (vc_store s), e, st.
Qed.

(** Credentials are issued exactly when they should be.  With a store that works, a
    request succeeds exactly when it names a user and a national identifier, the user's
    consent to issuance holds, and the registry confirms a valid citizen who is
    eighteen at that moment; then the new credential says so and nothing more than the
    mode allows, it is stored and the event is tracked.  A request that fails, for a
    broken store too, leaves the stored credentials as they were. *)
Theorem issue_exact (sv : VCService) (now : time) (requestID : string) (req : IssueRequest) (s s' : VCState) (r : res CredentialRecord) :
  Issue sv now requestID req s = (r, s') ->
  ((forall c st, (cs_Save c st).1 = Ok tt) -> is_Ok r = true <-> issue_requirements sv now req (vc_world s)) /\
  match r with
  | Ok c => issued_for sv now req (vc_world s) (vc_uuids s) c /\ cs_view (vc_store s') = <[cred_ID c := c]> (cs_view (vc_store s)) /\
      vc_tracked s' = vc_tracked s ++ (if vcs_audited sv then [mkOps zero_time (uuid_String (ir_UserID req)) "vc_issued" requestID] else [])
  | Err _ => cs_view (vc_store s') = cs_view (vc_store s) /\ vc_tracked s' = vc_tracked s
  end.
Proof.
  intros Hrun. pose proof (Issue_spec _ _ _ _ _ _ _ Hrun) as [_ Hspec]. split; [|destruct r; naive_solver].
  intros Hok. split.
  - destruct r as [c|e]; [|done]. intros _. destruct Hspec as ([Hu (port & w1 & Hp & Hport & dob & b & w2 & Hr & Hb & Ho) Hc] & _).
    unfold Issue, mbind at 1, st_bind at 1, st_lift in Hrun. destruct (validateIssueRequest req) as [[]|e] eqn:Hv; [|done].
    unfold validateIssueRequest, NationalID_IsNil, str_empty in Hv. rewrite Hu in Hv.
    case_bool_decide as Ht; simpl in Hv; [|done]. case_bool_decide as Hn; [done|].
    split_and!; [done..| |by exists port, w1, dob, b, w2].
    destruct (time_IsZero now) eqn:Hz; [|done]. exfalso. revert Hrun.
    unfold requireVCIssuanceConsent, fetchCitizenRecord, sanitized, on_ports, st_zoom, mbind, st_bind.
    rewrite Hp. simpl. rewrite Hport. simpl. rewrite Hr. simpl. unfold buildCredentialModel, NewIssuedAt. simpl. rewrite Hb, Ho, Hz. done.
  - intros Hreq. destruct (Issue_requirements _ _ _ _ _ _ _ Hrun Hreq) as (c & _ & [-> |(st & e & st' & _ & Hs)]); [done|].
    specialize (Hok c st). by rewrite Hs in Hok.
Qed.

(** *** Histories *)

Inductive vc_op :=
| VIssue (now : time) (requestID : string) (req : IssueRequest)
| VVerify (requestID credentialID : string)
| VPresence (userID : uuid) (credType : CredentialType).

(** The credentials issued so far, and the state. *)
Definition vc_step (sv : VCService) (p : list CredentialRecord * VCState) (op : vc_op) : list CredentialRecord * VCState :=
  match op with
  | VIssue now rid req =>
      let '(r, s) := Issue sv now rid req p.2 in (p.1 ++ match r with Ok c => [c] | Err _ => [] end, s)
  | VVerify rid id => (p.1, (Verify sv rid id p.2).2)
  | VPresence u t => (p.1, (FindCredentialPresence u t p.2).2)
  end.

Record vc_inv (p : list CredentialRecord * VCState) : Prop := {
  vi_view : forall id c, cs_view (vc_store p.2) !! id = Some c <-> c ∈ p.1 /\ cred_ID c = id;
  vi_fresh : forall c, c ∈ p.1 -> exists n, (n < vc_uuids p.2)%nat /\ cred_ID c = NewCredentialID (uuid_NewString n);
  vi_type : forall c, c ∈ p.1 -> cred_Type c = CredentialTypeAgeOver18 /\ cred_Claims c !! "is_over_18" = Some (AnyBool true);
}.

Lemma Verify_spec sv rid id s r s' :
  Verify sv rid id s = (r, s') ->
  cs_view (vc_store s') = cs_view (vc_store s) /\ vc_uuids s' = vc_uuids s /\
  match r with
  | Ok v => ver_Valid v = true /\ cs_view (vc_store s) !! id = Some (ver_Credential v)
  | Err e => e = New CodeNotFound "credential not found" -> cs_view (vc_store s) !! id = None
  end.
Proof.
  unfold Verify. destruct (str_empty id); [by intros [= <- <-]|]. unfold mbind, st_bind, st_try, on_store, st_zoom.
  destruct (cs_FindByID id (vc_store s)) as [x st] eqn:E. apply cs_FindByID_law in E as [Hv Hx]. destruct x as [c|e].
  - unfold vc_track, st_modify. intros [= <- <-]. simpl. by destruct (vcs_audited sv).
  - destruct (errors_Is e ErrNotFound) eqn:He; intros [= <- <-]; simpl; split_and!; auto.
    unfold Wrap. destruct (errors_As e) as [[]|]; done.
Qed.

Lemma Presence_spec u t s r s' :
  FindCredentialPresence u t s = (r, s') ->
  cs_view (vc_store s') = cs_view (vc_store s) /\ vc_uuids s' = vc_uuids s /\
  match r with
  | Ok (Some claims) => exists id c, cs_view (vc_store s) !! id = Some c /\ matches u t c /\ cred_Claims c = claims /\
      forall id' c', cs_view (vc_store s) !! id' = Some c' -> matches u t c' -> cred_IssuedAt c' <= cred_IssuedAt c
  | Ok None => forall id c, cs_view (vc_store s) !! id = Some c -> ~ matches u t c
  | Err _ => True
  end.
Proof.
  unfold FindCredentialPresence, mbind, st_bind, st_try, on_store, st_zoom.
  destruct (cs_FindBySubjectAndType u t (vc_store s)) as [x st] eqn:E. apply cs_FindBySubjectAndType_law in E as [Hv Hx].
  destruct x as [c|e].
  - intros [= <- <-]. simpl. destruct Hx as ([id Hid] & Hm & Hall). split_and!; [done..|]. by exists id, c.
  - destruct (errors_Is e ErrNotFound) eqn:He; intros [= <- <-]; simpl; split_and!; auto. intros id c Hid. by eapply Hx.
Qed.

Context (fresh : Inj (=) (=) uuid_NewString).

Lemma NewCredentialID_inj a b : NewCredentialID a = NewCredentialID b -> a = b.
Proof. unfold NewCredentialID, credentialIDPrefix. intros Heq. injection Heq as Heq. exact Heq. Qed.

Lemma vc_step_inv sv p op : vc_inv p -> vc_inv (vc_step sv p op).
Proof.
  destruct p as [issued s]. intros [Hv Hf Ht]. destruct op as [now rid req|rid id|u t]; simpl in *.
  - destruct (Issue sv now rid req s) as [r s'] eqn:E. apply Issue_spec in E as [Hn Hr]. destruct r as [c|e]; simpl.
    2: { destruct Hr as [Hview _]. rewrite app_nil_r. split; simpl; [by rewrite Hview| |done].
         intros c Hc. destruct (Hf c Hc) as (n & ? & ?). exists n. split; [lia|done]. }
    destruct Hr as (Hif & Hn' & Hview & _). pose proof (if_record _ _ _ _ _ _ Hif) as Hcr.
    assert (forall c', c' ∈ issued -> cred_ID c' <> cred_ID c) as Hnew.
    { intros c' Hc' Heq. destruct (Hf c' Hc') as (n & Hlt & Hid). rewrite Hid, Hcr in Heq. simpl in Heq.
      apply NewCredentialID_inj, fresh in Heq. lia. }
    split; simpl.
    + intros id x. rewrite Hview, elem_of_app, list_elem_of_singleton. destruct (decide (cred_ID c = id)) as [<-|Hne].
      * rewrite lookup_insert_eq. split; [intros [= <-]; auto|]. intros [[Hx| ->] Hid]; [|done]. by destruct (Hnew x Hx).
      * rewrite lookup_insert_ne by done. rewrite Hv. naive_solver.
    + intros x [Hx| ->%list_elem_of_singleton]%elem_of_app.
      * destruct (Hf x Hx) as (n & ? & ?). exists n. split; [lia|done].
      * exists (vc_uuids s). split; [lia|]. by rewrite Hcr.
    + intros x [Hx| ->%list_elem_of_singleton]%elem_of_app; [by apply Ht|]. rewrite Hcr. simpl.
      split; [done|]. by destruct (vcs_regulated sv).
  - destruct (Verify sv rid id s) as [r s'] eqn:E. apply Verify_spec in E as (Hview & Hn & _). simpl.
    split; simpl; [by rewrite Hview|by rewrite Hn|done].
  - destruct (FindCredentialPresence u t s) as [r s'] eqn:E. apply Presence_spec in E as (Hview & Hn & _). simpl.
    split; simpl; [by rewrite Hview|by rewrite Hn|done].
Qed.

(** The store answers a lookup: with a credential, or that there is none. *)
Definition lookup_answers {X} (r : res X) : Prop := forall e, r = Err e -> errors_Is e ErrNotFound = true.

Lemma Verify_answers sv rid id s :
  id <> "" -> lookup_answers (cs_FindByID id (vc_store s)).1 ->
  (Verify sv rid id s).1 =
  match cs_view (vc_store s) !! id with
  | Some c => Ok (mkVerify true c "")
  | None => Err (New CodeNotFound "credential not found")
  end.
Proof.
  intros Hid Hans. unfold Verify, str_empty. rewrite bool_decide_eq_false_2 by done.
  unfold mbind, st_bind, st_try, on_store, st_zoom.
  destruct (cs_FindByID id (vc_store s)) as [x st] eqn:E. apply cs_FindByID_law in E as [Hv Hx]. destruct x as [c|e].
  - by rewrite Hx.
  - specialize (Hans e eq_refl). by rewrite Hans, (Hx Hans).
Qed.

Lemma Presence_answers u t s :
  lookup_answers (cs_FindBySubjectAndType u t (vc_store s)).1 -> is_Ok (FindCredentialPresence u t s).1 = true.
Proof.
  intros Hans. unfold FindCredentialPresence, mbind, st_bind, st_try, on_store, st_zoom.
  destruct (cs_FindBySubjectAndType u t (vc_store s)) as [[c|e] st]; [done|]. by rewrite (Hans e eq_refl).
Qed.

(** C18: A credential verifies exactly when it was issued.  After any history of requests
    from an empty store, verifying an identifier gives the credential that was issued
    under it, unchanged, and reports it missing when none was, as long as the store
    answers the lookup; whatever the store does, only an issued credential verifies, and
    one is reported missing only when none was issued.  The presence check answers when
    the store does; it finds a credential of the latest issuance time among those issued
    to the user, and none only when there is none.  Every one of them says its holder is
    over eighteen.  (The store is any that obeys [CredentialStore], where a failed save
    stores nothing; the in-memory store does.) *)
Theorem verifies_iff_issued (sv : VCService) (s0 : VCState) (ops : list vc_op) :
  cs_view (vc_store s0) = ∅ ->
  let p := foldl (vc_step sv) ([], s0) ops in
  (forall c, c ∈ p.1 -> cred_Claims c !! "is_over_18" = Some (AnyBool true)) /\
  (forall rid id, id <> "" -> lookup_answers (cs_FindByID id (vc_store p.2)).1 ->
     (forall c, c ∈ p.1 -> cred_ID c = id -> (Verify sv rid id p.2).1 = Ok (mkVerify true c "")) /\
     ((forall c, c ∈ p.1 -> cred_ID c <> id) ->
        (Verify sv rid id p.2).1 = Err (New CodeNotFound "credential not found"))) /\
  (forall rid id r s', Verify sv rid id p.2 = (r, s') ->
     match r with
     | Ok v => ver_Valid v = true /\ ver_Credential v ∈ p.1 /\ cred_ID (ver_Credential v) = id
     | Err e => e = New CodeNotFound "credential not found" -> forall c, c ∈ p.1 -> cred_ID c <> id
     end) /\
  (forall u t r s', FindCredentialPresence u t p.2 = (r, s') ->
     match r with
     | Ok (Some claims) => exists c, c ∈ p.1 /\ matches u t c /\ cred_Claims c = claims /\
         forall c', c' ∈ p.1 -> matches u t c' -> cred_IssuedAt c' <= cred_IssuedAt c
     | Ok None => forall c, c ∈ p.1 -> ~ matches u t c
     | Err _ => ~ lookup_answers (cs_FindBySubjectAndType u t (vc_store p.2)).1
     end).
Proof.
  intros H0 p. assert (vc_inv p) as [Hv Hf Ht].
  { assert (vc_inv ([], s0)) as Hi.
    { split; simpl; [|intros ? []%elem_of_nil..]. intros id c. rewrite H0, lookup_empty, elem_of_nil. naive_solver. }
    subst p. revert Hi. generalize ([] : list CredentialRecord, s0). induction ops as [|op ops IH]; intros q Hq; simpl; [done|].
    by apply IH, vc_step_inv. }
  split_and!.
  - intros c Hc. by apply Ht.
  - intros rid id Hid Hans. rewrite Verify_answers by done. split.
    + intros c Hc Hc'. by rewrite (proj2 (Hv id c)).
    + intros Hnone. destruct (cs_view (vc_store p.2) !! id) as [c|] eqn:E; [|done].
      apply Hv in E as [Hc Hc']. by destruct (Hnone c Hc).
  - intros rid id r s' (_ & _ & Hr)%Verify_spec. destruct r as [v|e].
    + destruct Hr as [? Hr]. apply Hv in Hr as [? ?]. done.
    + intros He c Hc Hid. specialize (Hr He). rewrite (proj2 (Hv id c)) in Hr; done.
  - intros u t r s' Hp. pose proof (Presence_answers u t p.2) as Hans. rewrite Hp in Hans.
    apply Presence_spec in Hp as (_ & _ & Hr). destruct r as [[claims|]|e].
    + destruct Hr as (id & c & Hc & Hm & Hcl & Hall). apply Hv in Hc as [Hc ?]. exists c. split_and!; try done.
      intros c' Hc'. apply (Hall (cred_ID c')). by apply Hv.
    + intros c Hc. apply (Hr (cred_ID c)). by apply Hv.
    + intros Ha. by specialize (Hans Ha).
Qed.

End service.

(** *** Examples *)

Module VCExample.
Definition registry (userID : uuid) (nationalID : string) : ST unit error (option CitizenRecord) :=
  fun w => (Ok (Some (mkCitizen "1990-01-01" true)), w).
Definition consent (userID : uuid) (purpose : string) : ST unit error unit := fun w => (Ok tt, w).
Definition service : @VCService unit := mkVCS registry (Some consent) true true.
Definition start : @VCState VCMemory.InMemoryVCStore unit := mkVC VCMemory.NewInMemoryVCStore 0 [] tt.
Definition request : IssueRequest := mkIssue 7 CredentialTypeAgeOver18 "AB1234".
Definition now : time := 1700000000 * Second.
Definition new_id (n : nat) : string := pretty n.
Definition credential : Credential :=
  mkCredential "vc_1" CredentialTypeAgeOver18 7 IssuerCredo now (mkClaims true "") true.
End VCExample.

Lemma issue_exact_witness :
  exists c s', Issue VCExample.new_id (fun _ => "u") VCExample.service VCExample.now "r" VCExample.request VCExample.start = (Ok c, s') /\
    cs_view (vc_store s') = {[cred_ID c := c]}.
Proof.
  destruct (Issue VCExample.new_id (fun _ => "u") VCExample.service VCExample.now "r" VCExample.request VCExample.start)
    as [[c|e] s'] eqn:E; [|vm_compute in E; discriminate E].
  destruct (issue_exact VCExample.new_id (fun _ => "u") VCExample.service VCExample.now "r" VCExample.request VCExample.start s' (Ok c) E)
    as [_ (_ & Hv & _)].
  exists c, s'. split; [reflexivity|exact Hv].
Defined.

(** Two credentials are issued; the first one verifies. *)
Lemma verifies_iff_issued_witness :
  let p := foldl (vc_step VCExample.new_id (fun _ => "u") VCExample.service) ([], VCExample.start)
    [VIssue VCExample.now "r" VCExample.request; VIssue VCExample.now "r" VCExample.request] in
  exists c, head p.1 = Some c /\ length p.1 = 2%nat /\
    (Verify (fun _ => "u") VCExample.service "r" (cred_ID c) p.2).1 = Ok (mkVerify true c "") /\
    (Verify (fun _ => "u") VCExample.service "r" "vc_unknown" p.2).1 = Err (New CodeNotFound "credential not found").
Proof.
  pose proof (proj1 (proj2 (verifies_iff_issued VCExample.new_id (fun _ => "u") pretty_nat_inj VCExample.service VCExample.start
    [VIssue VCExample.now "r" VCExample.request; VIssue VCExample.now "r" VCExample.request] eq_refl))) as H.
  cbv zeta in *. set (p := foldl _ _ _) in *.
  destruct p.1 as [|c [|c2 [|]]] eqn:E; try (vm_compute in E; discriminate E).
  exists c. split; [reflexivity|]. split; [reflexivity|]. split.
  - apply (H "r" (cred_ID c)); [|intros e|left|reflexivity]; vm_compute in E; injection E as <- _; [discriminate|discriminate].
  - apply (H "r" "vc_unknown"); [discriminate|intros e [= <-]; reflexivity|].
    intros c' Hc'. vm_compute in E. injection E as <- <-.
    apply elem_of_cons in Hc' as [->|[->|Hc']%elem_of_cons]; [discriminate|discriminate|by apply elem_of_nil in Hc'].
Defined.

Lemma credential_roundtrip_witness :
  exists c', FromModel (ToModel VCExample.credential) = Ok c' /\ crd_claims c' = crd_claims VCExample.credential /\ crd_minimized c' = false.
Proof.
  exists (mkCredential "vc_1" CredentialTypeAgeOver18 7 IssuerCredo VCExample.now (mkClaims true "") false).
  split_and!; [|reflexivity|reflexivity].
  apply (proj1 (credential_roundtrip VCExample.credential (ToModel VCExample.credential))); [by split|reflexivity].
Defined.
