(* ===== verification/EvidenceFlow.v ===== *)
(** * Registry contracts and their clients
    [internal/evidence/registry/service/contracts.go], [internal/evidence/vc/adapters/],
    [internal/evidence/registry/adapters/]

    The services wired together as in one process: the registry service's contract
    methods behind the ports of the credential service, and the consent service behind
    the consent ports of both.  The consent records and the providers' own state make
    up the world of the registry. *)
From S2P Require Import Prelude Errors LRU RegistryCache Registry Orchestrator Ring AuditTrail RegistryService Consent Decision VC.
Open Scope Z_scope.

Section flow.
Context {P C A S : Type} `{CacheStore C} `{AuditStore A} `{CredentialStore S}.

(** The world of the registry: consent records, and the providers'. *)
Abbreviation W := (ConsentState * P)%type (only parsing).

Context (map_order : list (@Provider W) -> list (@Provider W)) (wait : duration -> ST W error unit)
  (sched : list (@Provider W) -> list (@Provider W)) (vote_order : list Evidence -> list Evidence)
  (error_order : list error -> list error).
Context (cfg : ConsentConfig) (accepts : ConsentEvent -> bool).
Context (uuid_NewString : nat -> string) (uuid_String : uuid -> string).

(** The three consent adapters are the same call. *)
Definition RequireConsent (ctx : ConsentCtx) (userID : uuid) (purpose : string) : ST W error unit :=
  st_zoom fst (fun c w => (c, w.2)) (Require accepts ctx userID purpose).

Definition CitizenContract (sv : @Service W) (userID : uuid) (nationalID : string)
    : ST (@RState W C A) error (option CitizenRecord) :=
  record ← CitizenWithDetails map_order wait sched vote_order error_order sv userID nationalID;
  mret (Some (mkCitizen (crec_DateOfBirth record) (crec_Valid record))).

Definition SanctionsContract (sv : @Service W) (now : time) (userID : uuid) (nationalID requestID : string)
    : ST (@RState W C A) error (option SanctionsRecord) :=
  record ← Sanctions map_order wait sched vote_order error_order sv now userID nationalID requestID;
  mret (Some (mkSanctions (srec_Listed record))).

(** The registry service with the consent adapter, in a request with clock [ctx]. *)
Definition wired_registry (ctx : ConsentCtx) (orch : @Orchestrator W) (regulated : bool) : @Service W :=
  mkService orch true (Some (RequireConsent ctx)) true regulated.

(** The credential service over the registry service. *)
Definition wired_vc (ctx : ConsentCtx) (orch : @Orchestrator W) (regulated : bool) : @VCService (@RState W C A) :=
  mkVCS (CitizenContract (wired_registry ctx orch regulated))
    (Some (fun userID purpose => on_world (RequireConsent ctx userID purpose))) true regulated.

Definition consents_of (s : @VCState S (@RState W C A)) : ConsentState := (os_world (rs_orch (vc_world s))).1.
Definition calls_of (s : @VCState S (@RState W C A)) : list (string * res Evidence) := os_calls (rs_orch (vc_world s)).

(** ** Issuance needs both consents *)

Lemma RequireConsent_spec ctx userID purpose w m r w' :
  consent_rel cfg w.1 m -> IsNil userID = false -> Purpose_IsValid purpose = true ->
  RequireConsent ctx userID purpose w = (r, w') ->
  r = verdict_result (spec_require cfg (cx_now ctx) (m userID purpose)) /\ consent_rel cfg w'.1 m.
Proof.
  intros Hrel Hu Hp. unfold RequireConsent, st_zoom.
  destruct (Require_sim cfg accepts ctx userID purpose w.1 m Hrel) as [Hsame Hres]. specialize (Hres Hu Hp).
  destruct (Require accepts ctx userID purpose w.1) as [x c]. simpl in *. intros [= <- <-]. split; [done|].
  by eapply consent_rel_same.
Qed.

(** Without the registry's own consent no provider is called. *)
Lemma CitizenContract_consent ctx orch regulated userID nationalID (s : @RState W C A) m r s' :
  consent_rel cfg (os_world (rs_orch s)).1 m -> IsNil userID = false ->
  CitizenContract (wired_registry ctx orch regulated) userID nationalID s = (r, s') ->
  match spec_require cfg (cx_now ctx) (m userID "registry_check") with
  | VGranted => True
  | v => (exists e, r = Err e /\ verdict_result v = Err e) /\ os_calls (rs_orch s') = os_calls (rs_orch s)
  end.
Proof.
  intros Hrel Hu. unfold CitizenContract, CitizenWithDetails, requireConsent. simpl.
  unfold mbind at 1, st_bind at 1. unfold mbind at 1, st_bind at 1. unfold on_world, on_orch, st_zoom.
  destruct (RequireConsent ctx userID "registry_check" (os_world (rs_orch s))) as [x w] eqn:E.
  apply (RequireConsent_spec _ _ _ _ m) in E as [-> _]; [|done..].
  destruct (spec_require cfg (cx_now ctx) (m userID "registry_check")); [..|done]; simpl; intros [= <- <-]; simpl; eauto.
Qed.

(** C17: Issuing a credential takes two consents.  With the services wired together, a
    request is refused unless the user's consents to credential issuance and to
    registry checks have both been granted and have neither expired nor been revoked
    at that moment, as the consent life cycle says; a refused request calls no
    provider, stores no credential and tracks no event. *)
Theorem issuance_needs_both_consents (ctx : ConsentCtx) (orch : @Orchestrator W) (regulated : bool) (now : time) (requestID : string)
    (req : IssueRequest) (m : lifecycle) (s s' : @VCState S (@RState W C A)) (r : res CredentialRecord) :
  consent_rel cfg (consents_of s) m ->
  Issue uuid_NewString uuid_String (wired_vc ctx orch regulated) now requestID req s = (r, s') ->
  spec_require cfg (cx_now ctx) (m (ir_UserID req) "vc_issuance") <> VGranted \/
  spec_require cfg (cx_now ctx) (m (ir_UserID req) "registry_check") <> VGranted ->
  (exists e, r = Err e) /\ calls_of s' = calls_of s /\ cs_view (vc_store s') = cs_view (vc_store s) /\ vc_tracked s' = vc_tracked s.
Proof.
  intros Hrel Hrun Hv. pose proof (Issue_spec _ _ _ _ _ _ _ _ _ Hrun) as [_ Hspec].
  assert ((exists e, r = Err e) /\ calls_of s' = calls_of s) as [[e ->] Hcalls]; [|by split_and!; [eauto|done|apply Hspec..]].
  clear Hspec. unfold Issue, mbind at 1, st_bind at 1, st_lift in Hrun.
  destruct (validateIssueRequest req) as [[]|e] eqn:Hval; [|injection Hrun as <- <-; eauto].
  assert (IsNil (ir_UserID req) = false) as Hu.
  { unfold validateIssueRequest in Hval. by destruct (IsNil (ir_UserID req)). }
  unfold mbind at 1, st_bind at 1, requireVCIssuanceConsent, sanitized, on_ports, st_zoom in Hrun. simpl in Hrun.
  unfold on_world, on_orch, st_zoom in Hrun.
  destruct (RequireConsent ctx (ir_UserID req) "vc_issuance" (os_world (rs_orch (vc_world s)))) as [x w] eqn:E.
  apply (RequireConsent_spec _ _ _ _ m) in E as [-> Hrel1]; [|done..].
  destruct (spec_require cfg (cx_now ctx) (m (ir_UserID req) "vc_issuance")) eqn:Ev; simpl in Hrun;
    try (injection Hrun as <- <-; by split; [eexists|]). destruct Hv as [?|Hv]; [done|].
  unfold fetchCitizenRecord, sanitized, on_ports, st_zoom in Hrun. unfold mbind at 1, st_bind at 1 in Hrun. unfold mbind at 1, st_bind at 1 in Hrun.
  simpl in Hrun. destruct (CitizenContract _ _ _ _) as [y s2] eqn:E2.
  apply (CitizenContract_consent ctx orch regulated _ _ _ m) in E2; [|done..].
  destruct (spec_require cfg (cx_now ctx) (m (ir_UserID req) "registry_check")); try done;
    destruct E2 as [(e & -> & _) Hc]; injection Hrun as <- <-; (split; [by eexists|exact Hc]).
Qed.

End flow.

(** *** Example *)

Module FlowExample.
Definition provider : @Provider (ConsentState * unit) :=
  mkProvider "gov" (mkCaps "http" ProviderTypeCitizen [] "v1.0.0" [])
    (fun _ w => (Ok (mkEv "gov" ProviderTypeCitizen float_one
       (list_to_map [("national_id", AnyString "AB1234"); ("date_of_birth", AnyString "1990-01-01"); ("valid", AnyBool true)]) 5 ∅), w))
    (fun w => (Ok tt, w)).
Definition orchestrator : @Orchestrator (ConsentState * unit) :=
  Orchestrator_New {["gov" := provider]} StrategyDefault ∅ [] (mkBackoff 0 0 0 float_zero 0).
Definition wait (d : duration) : ST (ConsentState * unit) error unit := fun w => (Ok tt, w).
Definition cfg : ConsentConfig := mkConsentConfig (365 * 24 * Hour) (5 * Minute) (5 * Minute).
Definition start : @VCState VCMemory.InMemoryVCStore (@RState (ConsentState * unit) InMemoryCache MemoryStore.InMemoryAuditStore) :=
  mkVC VCMemory.NewInMemoryVCStore 0 [] (mkRS (mkOS (empty_store, tt) [] [] 0) (NewInMemoryCache Hour []) MemoryStore.NewInMemoryAuditStore).
Definition issue := Issue (fun n => pretty n) (fun _ => "u")
  (wired_vc id wait id id id (fun _ => true) (mkConsentCtx 9 None None) orchestrator true) (1700000000 * Second) "r"
  (mkIssue 7 CredentialTypeAgeOver18 "AB1234") start.
End FlowExample.

Lemma issuance_needs_both_consents_witness :
  exists e s', FlowExample.issue = (Err e, s') /\ calls_of s' = [] /\ vc_tracked s' = [].
Proof.
  destruct FlowExample.issue as [r s'] eqn:E.
  destruct (issuance_needs_both_consents id FlowExample.wait id id id FlowExample.cfg (fun _ => true) (fun n => pretty n) (fun _ => "u")
    (mkConsentCtx 9 None None) FlowExample.orchestrator true (1700000000 * Second) "r" (mkIssue 7 CredentialTypeAgeOver18 "AB1234")
    no_consent FlowExample.start s' r (empty_store_rel FlowExample.cfg) E ltac:(left; discriminate)) as ([e ->] & Hc & _ & Ht).
  exists e, s'. split_and!; [reflexivity|exact Hc|exact Ht].
Defined.
