(* ===== verification/Http.v ===== *)
(** * The HTTP layer: [pkg/requestcontext], [pkg/platform/middleware/*],
    [pkg/domain/api_version.go] and [pkg/platform/httputil]

    A Go middleware is a function from handlers to handlers, and so is its model:
    a handler takes the request, the request's context, the response headers set
    so far and the state of the program, and answers or panics.  The middleware
    of the server's common stack is modelled whole, with the clock, the fresh
    identifiers and the text formats of the standard library (media types,
    network addresses, UUIDs) as arguments.  Logs and latency metrics are left
    out. *)
From Stdlib Require Import Ascii.
From S2P Require Import Prelude Errors.
Local Open Scope string_scope.

(** ** [strings] *)

Fixpoint CutPrefix (p s : string) : option string :=
  match p, s with
  | EmptyString, _ => Some s
  | String a p', String b s' => if bool_decide (a = b) then CutPrefix p' s' else None
  | String _ _, EmptyString => None
  end.

Definition HasPrefix (s p : string) : bool := bool_decide (is_Some (CutPrefix p s)).

(** [s[:strings.LastIndex(s, sub)]]. *)
Fixpoint before_last (sub s : string) : option string :=
  match s with
  | EmptyString => if HasPrefix s sub then Some "" else None
  | String a s' =>
      match before_last sub s' with
      | Some x => Some (String a x)
      | None => if HasPrefix s sub then Some "" else None
      end
  end.

(** [strings.Split(s, sub)[0]] for a non-empty [sub]; also [strings.Cut]'s first result. *)
Fixpoint before_first (sub s : string) : string :=
  if HasPrefix s sub then ""
  else match s with EmptyString => "" | String a s' => String a (before_first sub s') end.

Fixpoint trim_left_set (set : list Ascii.ascii) (s : string) : string :=
  match s with
  | EmptyString => ""
  | String a s' => if slices_Contains set a then trim_left_set set s' else s
  end.

(** [strings.Trim(s, cutset)]. *)
Definition Trim (s : string) (set : list Ascii.ascii) : string :=
  String.rev (trim_left_set set (String.rev (trim_left_set set s))).

(** ** Requests, responses, handlers *)

(** The fields the program reads.  [req_Header], [req_Query] and [req_BodyForm] are
    the values [Get] finds, empty when the name is absent; [req_BodyForm] is what the
    body holds as URL-encoded form, when it is well formed. *)
Record Request := mkRequest {
  req_Method : string;
  req_Path : string;
  req_RemoteAddr : string;
  req_Header : gmap string string;
  req_Query : gmap string string;
  req_BodyForm : option (gmap string string);
  req_Cookies : gmap string string;
}.

Definition Get (h : gmap string string) (k : string) : string := default "" (h !! k).

Inductive jval :=
| JString (s : string) | JInt (z : Z) | JTime (t : time) | JBool (b : bool) | JNull
| JStrings (l : list string) | JObject (fields : list (string * jval))
| JArray (objects : list (list (string * jval))).

Inductive Body :=
| JsonBody (fields : list (string * jval)) | JsonList (objects : list (list (string * jval))) | TextBody (s : string) | NoBody.

Record Response := mkResponse {
  resp_Status : Z;
  resp_Header : gmap string string;
  resp_Body : Body;
}.

(** A handler that panics leaves the headers it has set. *)
Inductive HttpResult := Responds (r : Response) | Panics (h : gmap string string).

(** ** [pkg/domain/api_version.go] *)

Abbreviation APIVersion := string (only parsing).
Definition APIVersionV1 : APIVersion := "v1".
Definition versionOrder : gmap string Z := {[ APIVersionV1 := 1%Z ]}.

Definition ParseAPIVersion (s : string) : res APIVersion :=
  match versionOrder !! s with
  | Some _ => Ok s
  | None => Err (EOther ("unknown API version: " +:+ s))
  end.

Definition IsAtLeast (v other : APIVersion) : bool :=
  match versionOrder !! v with
  | None => false
  | Some thisOrder =>
      match versionOrder !! other with
      | None => true
      | Some otherOrder => (otherOrder <=? thisOrder)%Z
      end
  end.

(** ** [pkg/requestcontext]: the values carried, at their zero value until set *)

Record RCtx := mkRCtx {
  rc_UserID : uuid;
  rc_SessionID : uuid;
  rc_ClientID : uuid;
  rc_DeviceID : string;
  rc_DeviceFingerprint : string;
  rc_ClientIP : string;
  rc_UserAgent : string;
  rc_RequestID : string;
  rc_Time : option time;
  rc_APIVersion : APIVersion;
  rc_TokenAPIVersion : APIVersion;
  rc_AdminAuthorized : bool;
  rc_AdminActorID : string;
}.

Definition background : RCtx := mkRCtx 0 0 0 "" "" "" "" "" None "" "" false "".

Definition WithIDs (c : RCtx) (userID sessionID clientID : uuid) : RCtx :=
  mkRCtx userID sessionID clientID (rc_DeviceID c) (rc_DeviceFingerprint c) (rc_ClientIP c)
    (rc_UserAgent c) (rc_RequestID c) (rc_Time c) (rc_APIVersion c) (rc_TokenAPIVersion c)
    (rc_AdminAuthorized c) (rc_AdminActorID c).
Definition WithDeviceID (c : RCtx) (d : string) : RCtx :=
  mkRCtx (rc_UserID c) (rc_SessionID c) (rc_ClientID c) d (rc_DeviceFingerprint c) (rc_ClientIP c)
    (rc_UserAgent c) (rc_RequestID c) (rc_Time c) (rc_APIVersion c) (rc_TokenAPIVersion c)
    (rc_AdminAuthorized c) (rc_AdminActorID c).
Definition WithDeviceFingerprint (c : RCtx) (f : string) : RCtx :=
  mkRCtx (rc_UserID c) (rc_SessionID c) (rc_ClientID c) (rc_DeviceID c) f (rc_ClientIP c)
    (rc_UserAgent c) (rc_RequestID c) (rc_Time c) (rc_APIVersion c) (rc_TokenAPIVersion c)
    (rc_AdminAuthorized c) (rc_AdminActorID c).
Definition WithClientMetadata (c : RCtx) (ip userAgent : string) : RCtx :=
  mkRCtx (rc_UserID c) (rc_SessionID c) (rc_ClientID c) (rc_DeviceID c) (rc_DeviceFingerprint c) ip
    userAgent (rc_RequestID c) (rc_Time c) (rc_APIVersion c) (rc_TokenAPIVersion c)
    (rc_AdminAuthorized c) (rc_AdminActorID c).
Definition WithRequestID (c : RCtx) (i : string) : RCtx :=
  mkRCtx (rc_UserID c) (rc_SessionID c) (rc_ClientID c) (rc_DeviceID c) (rc_DeviceFingerprint c)
    (rc_ClientIP c) (rc_UserAgent c) i (rc_Time c) (rc_APIVersion c) (rc_TokenAPIVersion c)
    (rc_AdminAuthorized c) (rc_AdminActorID c).
Definition WithTime (c : RCtx) (t : time) : RCtx :=
  mkRCtx (rc_UserID c) (rc_SessionID c) (rc_ClientID c) (rc_DeviceID c) (rc_DeviceFingerprint c)
    (rc_ClientIP c) (rc_UserAgent c) (rc_RequestID c) (Some t) (rc_APIVersion c) (rc_TokenAPIVersion c)
    (rc_AdminAuthorized c) (rc_AdminActorID c).
Definition WithAPIVersion (c : RCtx) (v : APIVersion) : RCtx :=
  mkRCtx (rc_UserID c) (rc_SessionID c) (rc_ClientID c) (rc_DeviceID c) (rc_DeviceFingerprint c)
    (rc_ClientIP c) (rc_UserAgent c) (rc_RequestID c) (rc_Time c) v (rc_TokenAPIVersion c)
    (rc_AdminAuthorized c) (rc_AdminActorID c).
Definition WithTokenAPIVersion (c : RCtx) (v : APIVersion) : RCtx :=
  mkRCtx (rc_UserID c) (rc_SessionID c) (rc_ClientID c) (rc_DeviceID c) (rc_DeviceFingerprint c)
    (rc_ClientIP c) (rc_UserAgent c) (rc_RequestID c) (rc_Time c) (rc_APIVersion c) v
    (rc_AdminAuthorized c) (rc_AdminActorID c).
Definition WithAdmin (c : RCtx) (actor : string) : RCtx :=
  mkRCtx (rc_UserID c) (rc_SessionID c) (rc_ClientID c) (rc_DeviceID c) (rc_DeviceFingerprint c)
    (rc_ClientIP c) (rc_UserAgent c) (rc_RequestID c) (rc_Time c) (rc_APIVersion c) (rc_TokenAPIVersion c)
    true (if str_empty actor then rc_AdminActorID c else actor).

(** [requestcontext.Now]; [clock] is [time.Now()]. *)
Definition Now (clock : time) (c : RCtx) : time := default clock (rc_Time c).

(** ** Identifiers: [pkg/domain/ids.go] *)

Section ids.
Context (uuid_Parse : string -> option uuid).

Definition parseUUID (s label : string) : res uuid :=
  if str_empty s then Err (New CodeInvalidInput (label +:+ " cannot be empty"))
  else
    match uuid_Parse s with
    | None => Err (New CodeInvalidInput ("invalid " +:+ label +:+ " format"))
    | Some u => Ok u
    end.

Definition ParseUserID (s : string) : res uuid := parseUUID s "user ID".
Definition ParseSessionID (s : string) : res uuid := parseUUID s "session ID".
Definition ParseClientID (s : string) : res uuid := parseUUID s "client ID".
Definition ParseTenantID (s : string) : res uuid := parseUUID s "tenant ID".
End ids.

(** ** Middleware *)

Section middleware.
Context {S : Type}.

Definition Handler : Type := Request -> RCtx -> gmap string string -> S -> HttpResult * S.

Definition WriteJSON (status : Z) (fields : list (string * jval)) (h : gmap string string) : HttpResult :=
  Responds (mkResponse status (<["Content-Type" := "application/json"]> h) (JsonBody fields)).

Definition writeJSONError (status : Z) (errCode errDesc : string) (h : gmap string string) : HttpResult :=
  WriteJSON status [("error", JString errCode); ("error_description", JString errDesc)] h.

(** *** [requesttime] *)

Definition requesttime_Middleware (now : time) (next : Handler) : Handler := fun r c h s =>
  next r (WithTime c now) h s.

(** *** [request] *)

Definition Recovery (next : Handler) : Handler := fun r c h s =>
  match next r c h s with
  | (Panics h', s') =>
      (Responds (mkResponse 500
         (<["X-Content-Type-Options" := "nosniff"]> (<["Content-Type" := "text/plain; charset=utf-8"]>
            (delete "Content-Length" h')))
         (TextBody "Internal Server Error")), s')
  | x => x
  end.

Definition MaxRequestIDLength : nat := 128.

(** One byte of [[a-zA-Z0-9._-]]. *)
Definition request_id_byte (a : Ascii.ascii) : bool :=
  let n := Ascii.nat_of_ascii a in
  ((97 <=? n) && (n <=? 122) || (65 <=? n) && (n <=? 90) || (48 <=? n) && (n <=? 57)
   || (n =? 46) || (n =? 95) || (n =? 45))%nat.

Definition isValidRequestID (i : string) : bool :=
  if str_empty i || (MaxRequestIDLength <? String.length i)%nat then false
  else forallb request_id_byte (String.list_ascii_of_string i).

Definition RequestID (newID : string) (next : Handler) : Handler := fun r c h s =>
  let given := Get (req_Header r) "X-Request-ID" in
  let requestID := if negb (isValidRequestID given) then newID else given in
  next r (WithRequestID c requestID) (<["X-Request-ID" := requestID]> h) s.

(** [mime.ParseMediaType], the media type only. *)
Context (ParseMediaType : string -> option string).

Definition has_json_body_method (m : string) : bool :=
  bool_decide (m = "POST") || bool_decide (m = "PUT") || bool_decide (m = "PATCH").

Definition ContentTypeJSON (next : Handler) : Handler := fun r c h s =>
  let ct := Get (req_Header r) "Content-Type" in
  if has_json_body_method (req_Method r) && negb (str_empty ct)
     && negb (bool_decide (ParseMediaType ct = Some "application/json"))
  then
    (writeJSONError 415 "invalid_content_type" "Content-Type must be application/json" h, s)
  else next r c h s.

(** [r.ParseForm] followed by [r.PostFormValue]: only a body of the form media type is
    parsed; [None] is the error of a malformed body or content type. *)
Definition ParseForm (r : Request) : option (gmap string string) :=
  let ct := Get (req_Header r) "Content-Type" in
  let ct := if str_empty ct then "application/octet-stream" else ct in
  match ParseMediaType ct with
  | None => None
  | Some mt => if bool_decide (mt = "application/x-www-form-urlencoded") then req_BodyForm r else Some ∅
  end.

(** *** [device] *)

Record DeviceConfig := mkDeviceConfig {
  FingerprintFn : option (string -> string);
  CookieName : string;
}.

Definition Device (cfg : DeviceConfig) (next : Handler) : Handler := fun r c h s =>
  let c :=
    if str_empty (CookieName cfg) then c
    else match req_Cookies r !! CookieName cfg with Some v => WithDeviceID c v | None => c end in
  let c :=
    match FingerprintFn cfg with
    | None => c
    | Some f =>
        if str_empty (rc_UserAgent c) then c else WithDeviceFingerprint c (f (rc_UserAgent c))
    end in
  next r c h s.

(** *** [metadata]: the client's address *)

Context {Addr Prefix : Type} (ParseAddr : string -> option Addr) (Prefix_Contains : Prefix -> Addr -> bool).

Definition MaxXFFHeaderLength : nat := 500.

Record MetadataConfig := mkMetadata { TrustedProxies : list Prefix }.
Definition DefaultMetadata : MetadataConfig := mkMetadata [].
Definition NewMetadata (cfg : option MetadataConfig) : MetadataConfig := default DefaultMetadata cfg.

Definition parseRemoteAddr (remoteAddr : string) : string :=
  if str_empty remoteAddr then ""
  else if HasPrefix remoteAddr "[" then
    match before_last "]:" remoteAddr with
    | Some x => match x with String _ y => y | EmptyString => "" end
    | None => Trim (before_first "]:" remoteAddr) ["["%char; "]"%char]
    end
  else
    match before_last ":" remoteAddr with
    | Some x => x
    | None => remoteAddr
    end.

Definition isTrustedProxy (cfg : MetadataConfig) (ip : string) : bool :=
  match TrustedProxies cfg with
  | [] => false
  | ps =>
      match ParseAddr ip with
      | None => false
      | Some addr => existsb (fun p => Prefix_Contains p addr) ps
      end
  end.

Definition extractClientIP (cfg : MetadataConfig) (r : Request) : string :=
  let remoteIP := parseRemoteAddr (req_RemoteAddr r) in
  if str_empty remoteIP then "unknown"
  else
    let xff := Get (req_Header r) "X-Forwarded-For" in
    if str_empty xff then
      let xri := Get (req_Header r) "X-Real-IP" in
      if negb (str_empty xri) && isTrustedProxy cfg remoteIP then
        if (String.length xri <=? MaxXFFHeaderLength)%nat then TrimSpace xri else remoteIP
      else remoteIP
    else if negb (isTrustedProxy cfg remoteIP) then remoteIP
    else if (MaxXFFHeaderLength <? String.length xff)%nat then remoteIP
    else
      let clientIP := TrimSpace (before_first "," xff) in
      match ParseAddr clientIP with None => remoteIP | Some _ => clientIP end.

Definition metadata_Handler (cfg : MetadataConfig) (next : Handler) : Handler := fun r c h s =>
  next r (WithClientMetadata c (extractClientIP cfg r) (Get (req_Header r) "User-Agent")) h s.

(** *** [version] *)

Definition ExtractVersion (v : APIVersion) (next : Handler) : Handler := fun r c h s =>
  next r (WithAPIVersion c v) h s.

Definition writeVersionError (status : Z) (errCode description : string) (h : gmap string string) : HttpResult :=
  WriteJSON status [("error", JString errCode); ("error_description", JString description)] h.

Definition ValidateTokenVersion (next : Handler) : Handler := fun r c h s =>
  let routeVersion := rc_APIVersion c in
  if str_empty routeVersion
  then (writeVersionError 500 "server_error" "route version not configured" h, s)
  else
    let tokenVersion := if str_empty (rc_TokenAPIVersion c) then APIVersionV1 else rc_TokenAPIVersion c in
    if negb (IsAtLeast routeVersion tokenVersion)
    then (writeVersionError 403 "invalid_token" "token API version not compatible with this endpoint version" h, s)
    else next r c h s.

(** *** [admin] *)

Definition RequireAdminToken (expectedToken : string) (next : Handler) : Handler := fun r c h s =>
  if negb (bool_decide (Get (req_Header r) "X-Admin-Token" = expectedToken))
  then (Responds (mkResponse 401 h
          (JsonBody [("error", JString "unauthorized"); ("error_description", JString "admin token required")])), s)
  else next r (WithAdmin c (Get (req_Header r) "X-Admin-Actor-ID")) h s.

(** *** [auth] *)

Record JWTClaims := mkClaims {
  jc_UserID : string;
  jc_SessionID : string;
  jc_ClientID : string;
  jc_JTI : string;
  jc_APIVersion : string;
}.

Inductive revocationResult := revocationOK | revocationMissingJTI | revocationRevoked | revocationError.

Context (uuid_Parse : string -> option uuid).
(** [validator.ValidateToken], and [revocationChecker.IsTokenRevoked] when one is given. *)
Context (validator : string -> res JWTClaims) (checker : option (string -> S -> res bool)).

Definition checkRevocation (jti : string) (s : S) : revocationResult :=
  match checker with
  | None => revocationOK
  | Some isTokenRevoked =>
      if str_empty jti then revocationMissingJTI
      else
        match isTokenRevoked jti s with
        | Err _ => revocationError
        | Ok true => revocationRevoked
        | Ok false => revocationOK
        end
  end.

Record parsedClaims := mkParsed { pc_UserID : uuid; pc_SessionID : uuid; pc_ClientID : uuid }.

Definition parseClaims (claims : JWTClaims) : res parsedClaims :=
  match ParseUserID uuid_Parse (jc_UserID claims) with
  | Err e => Err (EWrap "invalid user_id" e)
  | Ok userID =>
      match ParseSessionID uuid_Parse (jc_SessionID claims) with
      | Err e => Err (EWrap "invalid session_id" e)
      | Ok sessionID =>
          if str_empty (jc_ClientID claims) then Ok (mkParsed userID sessionID 0)
          else
            match ParseClientID uuid_Parse (jc_ClientID claims) with
            | Err e => Err (EWrap "invalid client_id" e)
            | Ok clientID => Ok (mkParsed userID sessionID clientID)
            end
      end
  end.

(** The context the handler behind the middleware sees. *)
Definition authenticated (c : RCtx) (p : parsedClaims) (apiVersion : string) : RCtx :=
  let c := WithIDs c (pc_UserID p) (pc_SessionID p) (pc_ClientID p) in
  if str_empty apiVersion then c
  else match ParseAPIVersion apiVersion with Ok v => WithTokenAPIVersion c v | Err _ => c end.

Definition RequireAuth (next : Handler) : Handler := fun r c h s =>
  match CutPrefix "Bearer " (Get (req_Header r) "Authorization") with
  | None => (writeJSONError 401 "unauthorized" "Missing or invalid Authorization header" h, s)
  | Some token =>
      match validator token with
      | Err _ => (writeJSONError 401 "unauthorized" "Invalid or expired token" h, s)
      | Ok claims =>
          match checkRevocation (jc_JTI claims) s with
          | revocationMissingJTI | revocationRevoked =>
              (writeJSONError 401 "unauthorized" "Token has been revoked" h, s)
          | revocationError => (writeJSONError 500 "internal_error" "Failed to validate token" h, s)
          | revocationOK =>
              match parseClaims claims with
              | Err _ => (writeJSONError 401 "unauthorized" "Invalid or expired token" h, s)
              | Ok parsed => next r (authenticated c parsed (jc_APIVersion claims)) h s
              end
          end
      end
  end.
End middleware.

#[global] Arguments Handler : clear implicits.

(** ** Lemmas *)

Lemma CutPrefix_Some p s t : CutPrefix p s = Some t <-> s = p +:+ t.
Proof.
  revert s. induction p as [|a p IH]; intros s; simpl.
  - split; [by intros [= ->]|by intros ->].
  - destruct s as [|b s]; [done|]. case_bool_decide as E; simplify_eq.
    + rewrite IH. split; [by intros ->|by intros [= ->]].
    + split; [done|by intros [= -> _]].
Qed.

Lemma HasPrefix_spec s p : HasPrefix s p = true <-> exists t, s = p +:+ t.
Proof.
  unfold HasPrefix. rewrite bool_decide_eq_true. split.
  - intros [t H]. exists t. by apply CutPrefix_Some.
  - intros [t ->]. exists t. by apply CutPrefix_Some.
Qed.

Lemma before_last_app sub x y :
  before_last sub (sub +:+ y) = Some "" -> before_last sub (x +:+ (sub +:+ y)) = Some x.
Proof. intros H. induction x as [|a x IH]; simpl; [done|]. by rewrite IH. Qed.

(** The text holds no colon, as a port number does not. *)
Definition colon_free (s : string) : bool :=
  forallb (fun a => negb (bool_decide (a = ":"%char))) (String.list_ascii_of_string s).

Lemma colon_free_before_last s :
  colon_free s = true -> before_last ":" s = None /\ before_last "]:" s = None.
Proof.
  induction s as [|a s IH]; [done|]. unfold colon_free. cbn [String.list_ascii_of_string forallb].
  intros [Ha Hs]%andb_true_iff. destruct (IH Hs) as [H1 H2]. bools. cbn [before_last]. rewrite H1, H2.
  split.
  - destruct (HasPrefix (String a s) ":") eqn:E; [|done].
    apply HasPrefix_spec in E as [t [= E _]]. done.
  - destruct (HasPrefix (String a s) "]:") eqn:E; [|done].
    apply HasPrefix_spec in E as [t [= E1 E2]]. subst s. simpl in Hs. done.
Qed.

(** [net.JoinHostPort], the form of [r.RemoteAddr]. *)
Definition JoinHostPort (host port : string) : string :=
  if colon_free host then host +:+ (":" +:+ port) else "[" +:+ (host +:+ ("]:" +:+ port)).

Lemma parseRemoteAddr_join host port :
  host <> "" -> HasPrefix host "[" = false -> colon_free port = true ->
  parseRemoteAddr (JoinHostPort host port) = host.
Proof.
  intros Hne Hb Hp. destruct (colon_free_before_last port Hp) as [P1 P2].
  unfold JoinHostPort, parseRemoteAddr. destruct (colon_free host) eqn:Hc.
  - destruct host as [|a host]; [done|].
    assert (HasPrefix (String a host +:+ (":" +:+ port)) "[" = false) as ->.
    { apply not_true_iff_false. intros [t [= -> _]]%HasPrefix_spec.
      apply not_true_iff_false in Hb. apply Hb, HasPrefix_spec. by exists host. }
    assert (str_empty (String a host +:+ (":" +:+ port)) = false) as -> by done.
    rewrite before_last_app; [done|]. change (":" +:+ port) with (String ":" port).
    cbn [before_last]. by rewrite P1.
  - assert (HasPrefix ("[" +:+ (host +:+ ("]:" +:+ port))) "[" = true) as ->.
    { apply HasPrefix_spec. by eexists. }
    assert (str_empty ("[" +:+ (host +:+ ("]:" +:+ port))) = false) as -> by done.
    change ("[" +:+ (host +:+ ("]:" +:+ port))) with (("[" +:+ host) +:+ ("]:" +:+ port)).
    rewrite before_last_app; [done|].
    change ("]:" +:+ port) with (String "]" (String ":" port)).
    cbn [before_last]. rewrite P2.
    assert (HasPrefix (String ":" port) "]:" = false) as ->.
    { apply not_true_iff_false. by intros [t ?]%HasPrefix_spec. }
    assert (HasPrefix (String "]" (String ":" port)) "]:" = true) as ->; [|done].
    apply HasPrefix_spec. by exists port.
Qed.

Section gates.
Context {S : Type} (uuid_Parse : string -> option uuid).
Context (validator : string -> res JWTClaims) (checker : option (string -> S -> res bool)).

(** The token presented, its claims and its identifiers pass every check. *)
Definition grants (r : Request) (s : S) (token : string) (claims : JWTClaims) (p : parsedClaims) : Prop :=
  Get (req_Header r) "Authorization" = "Bearer " +:+ token /\
  validator token = Ok claims /\
  (forall isRevoked, checker = Some isRevoked -> jc_JTI claims <> "" /\ isRevoked (jc_JTI claims) s = Ok false) /\
  ParseUserID uuid_Parse (jc_UserID claims) = Ok (pc_UserID p) /\
  ParseSessionID uuid_Parse (jc_SessionID claims) = Ok (pc_SessionID p) /\
  (if str_empty (jc_ClientID claims) then pc_ClientID p = 0%N
   else ParseClientID uuid_Parse (jc_ClientID claims) = Ok (pc_ClientID p)).

Lemma checkRevocation_OK jti s :
  checkRevocation checker jti s = revocationOK <->
  forall isRevoked, checker = Some isRevoked -> jti <> "" /\ isRevoked jti s = Ok false.
Proof.
  unfold checkRevocation, str_empty. destruct checker as [f|]; [|by split; [intros _ ? ?|]].
  assert ((forall g, Some f = Some g -> jti <> "" /\ g jti s = Ok false) <-> jti <> "" /\ f jti s = Ok false) as ->.
  { split; [intros H; by apply H|by intros H g [= <-]]. }
  case_bool_decide; destruct (f jti s) as [[]|] eqn:E; split; intros; try done; by destruct_and?.
Qed.

Lemma parseClaims_Ok claims p :
  parseClaims uuid_Parse claims = Ok p <->
  ParseUserID uuid_Parse (jc_UserID claims) = Ok (pc_UserID p) /\
  ParseSessionID uuid_Parse (jc_SessionID claims) = Ok (pc_SessionID p) /\
  (if str_empty (jc_ClientID claims) then pc_ClientID p = 0%N
   else ParseClientID uuid_Parse (jc_ClientID claims) = Ok (pc_ClientID p)).
Proof.
  unfold parseClaims. destruct p as [u i k]; simpl.
  destruct (ParseUserID _ _) as [u'|]; [|naive_solver].
  destruct (ParseSessionID _ _) as [i'|]; [|naive_solver].
  destruct (str_empty (jc_ClientID claims)); [naive_solver|].
  destruct (ParseClientID _ _); naive_solver.
Qed.

(** C14: Bearer authentication decides exactly: a handler behind [RequireAuth] runs when,
    and only when, the request carries a token the validator accepts, whose JTI is
    present and not revoked when a checker is wired, and whose identifiers parse; it
    then runs once, on the unchanged state, with exactly those identifiers in its
    context and the client's address untouched.  Every other request is answered with
    status 401, or 500 when the revocation list fails, without touching the state. *)
Theorem RequireAuth_gate (next : Handler S) (r : Request) (c : RCtx) (h : gmap string string) (s : S) :
  (forall token claims p, grants r s token claims p ->
     exists c', RequireAuth uuid_Parse validator checker next r c h s = next r c' h s /\
       rc_UserID c' = pc_UserID p /\ rc_SessionID c' = pc_SessionID p /\ rc_ClientID c' = pc_ClientID p /\
       rc_ClientIP c' = rc_ClientIP c /\ rc_APIVersion c' = rc_APIVersion c) /\
  ((forall token claims p, ~ grants r s token claims p) ->
     exists resp, RequireAuth uuid_Parse validator checker next r c h s = (Responds resp, s) /\
       (resp_Status resp = 401%Z \/
        resp_Status resp = 500%Z /\ exists isRevoked jti e, checker = Some isRevoked /\ isRevoked jti s = Err e)).
Proof.
  unfold RequireAuth. split.
  - intros token claims p (Hh & Hv & Hr & Hp).
    apply CutPrefix_Some in Hh as ->. rewrite Hv.
    apply checkRevocation_OK in Hr as ->. apply parseClaims_Ok in Hp as ->.
    eexists. split; [done|]. unfold authenticated. destruct (str_empty _); [done|].
    by destruct (ParseAPIVersion _).
  - intros Hno. destruct (CutPrefix _ _) as [token|] eqn:Hh; [|eexists; by split; [|left]].
    apply CutPrefix_Some in Hh. destruct (validator token) as [claims|] eqn:Hv; [|eexists; by split; [|left]].
    destruct (checkRevocation _ _ _) eqn:Hr; [|eexists; by split; [|left]|eexists; by split; [|left]|].
    + destruct (parseClaims _ _) as [p|] eqn:Hp; [|eexists; by split; [|left]].
      destruct (Hno token claims p). split; [done|]. split; [done|].
      split; [by apply checkRevocation_OK|by apply parseClaims_Ok].
    + eexists. split; [done|]. right. split; [done|]. revert Hr. unfold checkRevocation.
      destruct checker as [f|]; [|done]. destruct (str_empty _); [done|].
      destruct (f _ s) as [[]|e] eqn:E; try done. intros _. by exists f, (jc_JTI claims), e.
Qed.
End gates.

(** A request whose token the middleware accepts. *)
Module HttpExample.
Definition claims : JWTClaims := mkClaims "7" "8" "" "jti-1" "v1".
Definition validate (token : string) : res JWTClaims :=
  if bool_decide (token = "t") then Ok claims else Err (New CodeInvalidInput "invalid token").
Definition parse (s : string) : option uuid :=
  if bool_decide (s = "7") then Some 7%N else if bool_decide (s = "8") then Some 8%N else None.
Definition revoked (jti : string) (s : list string) : res bool := Ok (slices_Contains s jti).
Definition request (auth : string) : Request :=
  mkRequest "GET" "/v1/auth/userinfo" "10.0.0.1:40000" {[ "Authorization" := auth; "X-Forwarded-For" := "6.6.6.6" ]}
    ∅ None ∅.
Definition echo : Handler (list string) := fun r c h s => (Responds (mkResponse 200 h NoBody), s).
End HttpExample.

Lemma RequireAuth_gate_witness :
  (exists c', RequireAuth HttpExample.parse HttpExample.validate (Some HttpExample.revoked) HttpExample.echo
      (HttpExample.request "Bearer t") background ∅ ["jti-2"] =
      HttpExample.echo (HttpExample.request "Bearer t") c' ∅ ["jti-2"] /\ rc_UserID c' = 7%N) /\
  (exists resp, RequireAuth HttpExample.parse HttpExample.validate (Some HttpExample.revoked) HttpExample.echo
      (HttpExample.request "Bearer t") background ∅ ["jti-1"] = (Responds resp, ["jti-1"])).
Proof.
  split.
  - destruct (proj1 (RequireAuth_gate HttpExample.parse HttpExample.validate (Some HttpExample.revoked)
      HttpExample.echo (HttpExample.request "Bearer t") background ∅ ["jti-2"])
      "t" HttpExample.claims (mkParsed 7 8 0)) as (c' & H & Hu & _).
    + split_and!; [reflexivity|reflexivity| |reflexivity|reflexivity|reflexivity].
      intros f Hf. apply (inj Some) in Hf as <-. by split.
    + exists c'. by split.
  - destruct (proj2 (RequireAuth_gate HttpExample.parse HttpExample.validate (Some HttpExample.revoked)
      HttpExample.echo (HttpExample.request "Bearer t") background ∅ ["jti-1"])) as (resp & H & _).
    + intros token claims p (Hh & Hv & Hr & _).
      assert (Get (req_Header (HttpExample.request "Bearer t")) "Authorization" = "Bearer t") as E by reflexivity.
      rewrite E in Hh. assert ("t" = token) as <- by (injection Hh; done). change (HttpExample.validate "t") with (Ok (E := error) HttpExample.claims) in Hv.
      assert (HttpExample.claims = claims) as <- by congruence. destruct (Hr _ eq_refl) as [_ Hf]. discriminate Hf.
    + by exists resp.
Defined.

Section address.
Context {S Addr Prefix : Type} (ParseAddr : string -> option Addr) (Prefix_Contains : Prefix -> Addr -> bool).

Lemma extractClientIP_peer cfg r host port :
  host <> "" -> HasPrefix host "[" = false -> colon_free port = true ->
  req_RemoteAddr r = JoinHostPort host port ->
  isTrustedProxy ParseAddr Prefix_Contains cfg host = false ->
  extractClientIP ParseAddr Prefix_Contains cfg r = host.
Proof.
  intros Hne Hb Hp Hr Ht. unfold extractClientIP.
  rewrite Hr, parseRemoteAddr_join by done. unfold str_empty at 1. rewrite bool_decide_false by done.
  rewrite Ht, andb_false_r. by destruct (str_empty _).
Qed.

(** The client's address cannot be forged: unless the peer itself is a trusted
    proxy, the handlers see the peer's address, IPv4 or bracketed IPv6 without its port,
    whatever [X-Forwarded-For] and [X-Real-IP] say.  The server installs the middleware
    without a configuration, so this holds of every request it serves. *)
Theorem client_ip_is_peer (cfg : MetadataConfig) (r : Request) (host port : string) (next : Handler S)
    (c : RCtx) (h : gmap string string) (s : S) :
  host <> "" -> HasPrefix host "[" = false -> colon_free port = true ->
  req_RemoteAddr r = JoinHostPort host port ->
  isTrustedProxy ParseAddr Prefix_Contains cfg host = false ->
  metadata_Handler ParseAddr Prefix_Contains cfg next r c h s =
    next r (WithClientMetadata c host (Get (req_Header r) "User-Agent")) h s /\
  isTrustedProxy ParseAddr Prefix_Contains (NewMetadata None) host = false.
Proof.
  intros Hne Hb Hp Hr Ht. split; [|done]. unfold metadata_Handler.
  by rewrite (extractClientIP_peer cfg r host port).
Qed.
End address.

Lemma client_ip_is_peer_witness :
  metadata_Handler (fun s => if colon_free s then Some s else None) (fun p a => bool_decide (p = a))
    (mkMetadata ["10.9.9.9"]) HttpExample.echo (HttpExample.request "") background ∅ [] =
  HttpExample.echo (HttpExample.request "") (WithClientMetadata background "10.0.0.1" "") ∅ [] /\
  isTrustedProxy (fun s => if colon_free s then Some s else None) (fun p a => bool_decide (p = a))
    (NewMetadata None) "10.0.0.1" = false.
Proof.
  apply (client_ip_is_peer _ _ (mkMetadata ["10.9.9.9"]) _ "10.0.0.1" "40000"); done.
Defined.

(** Behind [ContentTypeJSON] a POST request never has a form: the middleware lets only
    JSON and untyped bodies through, and [ParseForm] reads neither. *)
Lemma json_only_no_form {S} (ParseMediaType : string -> option string) (next : Handler S) r c h s :
  req_Method r = "POST" -> ParseMediaType "application/octet-stream" <> Some "application/x-www-form-urlencoded" ->
  ContentTypeJSON ParseMediaType next r c h s = (writeJSONError 415 "invalid_content_type" "Content-Type must be application/json" h, s) \/
  ParseForm ParseMediaType r = None \/ ParseForm ParseMediaType r = Some ∅.
Proof.
  intros Hm Ho. unfold ContentTypeJSON, ParseForm. rewrite Hm.
  destruct (str_empty (Get (req_Header r) "Content-Type")) eqn:Hct; simpl.
  - right. destruct (ParseMediaType _) as [mt|]; [|by left]. right. rewrite bool_decide_false; [done|congruence].
  - case_bool_decide as E; simpl; [|by left]. right. right. by rewrite E.
Qed.
