(* ===== verification/Jwt.v ===== *)
(** * Tokens: [internal/jwt_token/jwt.go] and [jwt_adapter.go]

    The token service on the library [golang-jwt], which is a parameter: signing, and
    parsing with a key function, with the one law used, that a token signed with a key
    parses under that key until its expiry and fails with [ErrTokenExpired] from then
    on.  The claims are the JSON object on the wire; decoding it as access-token or as
    ID-token claims takes the fields of that type and leaves the others at their zero
    value.  The theorems join the service with the HTTP authentication of [Http]. *)
From Stdlib Require Import Ascii.
From S2P Require Import Prelude Errors Http.
Local Open Scope Z_scope.

(** ** Claims *)

Record Wire := mkWire {
  w_user_id : string; w_session_id : string; w_client_id : string; w_tenant_id : string;
  w_scope : list string; w_sid : string; w_azp : string; w_env : string;
  w_sub : string; w_exp : Z; w_iat : Z; w_iss : string; w_aud : list string; w_jti : string;
}.

#[global] Instance Wire_eq_dec : EqDecision Wire.
Proof. solve_decision. Defined.

Record RegisteredClaims := mkRegistered {
  rg_Subject : string; rg_ExpiresAt : Z; rg_IssuedAt : Z; rg_Issuer : string;
  rg_Audience : list string; rg_ID : string;
}.

Record AccessTokenClaims := mkAccess {
  at_UserID : string; at_SessionID : string; at_ClientID : string; at_TenantID : string;
  at_Env : string; at_Scope : list string; at_Registered : RegisteredClaims;
}.

Record IDTokenClaims := mkIDClaims {
  it_SessionID : string; it_ClientID : string; it_Env : string; it_Registered : RegisteredClaims;
}.

Definition access_wire (c : AccessTokenClaims) : Wire :=
  let g := at_Registered c in
  mkWire (at_UserID c) (at_SessionID c) (at_ClientID c) (at_TenantID c) (at_Scope c) "" "" (at_Env c)
    (rg_Subject g) (rg_ExpiresAt g) (rg_IssuedAt g) (rg_Issuer g) (rg_Audience g) (rg_ID g).
Definition id_wire (c : IDTokenClaims) : Wire :=
  let g := it_Registered c in
  mkWire "" "" "" "" [] (it_SessionID c) (it_ClientID c) (it_Env c)
    (rg_Subject g) (rg_ExpiresAt g) (rg_IssuedAt g) (rg_Issuer g) (rg_Audience g) (rg_ID g).
Definition registered_of (w : Wire) : RegisteredClaims :=
  mkRegistered (w_sub w) (w_exp w) (w_iat w) (w_iss w) (w_aud w) (w_jti w).
Definition access_of (w : Wire) : AccessTokenClaims :=
  mkAccess (w_user_id w) (w_session_id w) (w_client_id w) (w_tenant_id w) (w_env w) (w_scope w) (registered_of w).
Definition id_of (w : Wire) : IDTokenClaims :=
  mkIDClaims (w_sid w) (w_azp w) (w_env w) (registered_of w).

(** [jwt.NewNumericDate]: whole seconds. *)
Definition NewNumericDate (t : time) : Z := t / Second.

(** The text after the last colon, when neither it nor the text before is empty. *)
Definition version_suffix (aud : string) : option string :=
  match before_last ":" aud with
  | None => None
  | Some pre =>
      match CutPrefix (pre +:+ ":") aud with
      | Some suf => if str_empty pre || str_empty suf then None else Some suf
      | None => None
      end
  end.

Fixpoint audience_version (auds : list string) : APIVersion :=
  match auds with
  | [] => APIVersionV1
  | aud :: rest =>
      match version_suffix aud with
      | None => audience_version rest
      | Some v => match ParseAPIVersion v with Ok v => v | Err _ => audience_version rest end
      end
  end.

Definition AccessTokenClaims_APIVersion (c : AccessTokenClaims) : APIVersion :=
  audience_version (rg_Audience (at_Registered c)).

(** ** The library *)

Inductive JErr := ErrTokenExpired | ErrSignatureInvalid | ErrTokenOther.

#[global] Instance JErr_eq_dec : EqDecision JErr.
Proof. solve_decision. Defined.

Inductive JResult := Parsed (w : Wire) (valid : bool) | ParseFailed (errs : list JErr).

(** [SignedString] with HS256, and [ParseWithClaims] with a key function on the
    algorithm's name, with or without validation of the claims. *)
Class JwtLibrary := {
  jwt_SignedString : string -> Wire -> res string;
  jwt_ParseWithClaims : (string -> res string) -> bool -> time -> string -> JResult;
}.

Class JwtLaws `{!JwtLibrary} : Prop := {
  jwt_signed_parses : forall key w tok keyfunc skip clock,
    jwt_SignedString key w = Ok tok -> keyfunc "HS256" = Ok key ->
    jwt_ParseWithClaims keyfunc skip clock tok =
      if skip || (clock <? w_exp w * Second) then Parsed w true else ParseFailed [ErrTokenExpired];
}.

(** ** The service *)

Record JWTService := mkJWTService {
  js_signingKey : string;
  js_issuerBaseURL : string;
  js_audience : string;
  js_tokenTTL : duration;
  js_env : string;
}.

Definition NewJWTService (signingKey issuerBaseURL audience : string) (tokenTTL : duration) : JWTService :=
  mkJWTService signingKey issuerBaseURL audience tokenTTL "".

Definition SetEnv (s : JWTService) (env : string) : JWTService :=
  mkJWTService (js_signingKey s) (js_issuerBaseURL s) (js_audience s) (js_tokenTTL s) env.

Section service.
Context `{!JwtLibrary} (uuid_String : uuid -> string).
Implicit Types s : JWTService.

Definition BuildIssuer s (tenantID : uuid) : string :=
  if IsNil tenantID then js_issuerBaseURL s
  else js_issuerBaseURL s +:+ "/tenants/" +:+ uuid_String tenantID.

Definition ExtractTenantFromIssuer s (issuer : string) : res string :=
  let prefix := js_issuerBaseURL s +:+ "/tenants/" in
  if (String.length prefix <? String.length issuer)%nat && bool_decide (String.substring 0 (String.length prefix) issuer = prefix)
  then Ok (String.substring (String.length prefix) (String.length issuer - String.length prefix) issuer)
  else if bool_decide (issuer = js_issuerBaseURL s) then Ok ""
  else Err (New CodeInvalidInput "invalid issuer format").

Definition token_audience s (apiVersion : APIVersion) : list string :=
  [js_audience s; js_audience s +:+ ":" +:+ apiVersion].

(** [jti] is the hexadecimal text of the random bytes, or the error of [rand.Read]. *)
Definition GenerateAccessToken s (now : time) (jti : res string) (userID sessionID clientID tenantID : uuid)
    (scopes : list string) (apiVersion : APIVersion) : res string :=
  if (length scopes =? 0)%nat then Err (New CodeInvalidInput "scopes cannot be empty")
  else
    let apiVersion := if str_empty apiVersion then APIVersionV1 else apiVersion in
    match jti with
    | Err e => Err e
    | Ok jti =>
        jwt_SignedString (js_signingKey s) (access_wire
          (mkAccess (uuid_String userID) (uuid_String sessionID) (uuid_String clientID) (uuid_String tenantID)
             (js_env s) scopes
             (mkRegistered "" (NewNumericDate (time_Add now (js_tokenTTL s))) (NewNumericDate now)
                (BuildIssuer s tenantID) (token_audience s apiVersion) jti)))
    end.

Definition any_alg s (_ : string) : res string := Ok (js_signingKey s).

Definition GenerateAccessTokenWithJTI s (now clock : time) (jti : res string)
    (userID sessionID clientID tenantID : uuid) (scopes : list string) (apiVersion : APIVersion) : res (string * string) :=
  match GenerateAccessToken s now jti userID sessionID clientID tenantID scopes apiVersion with
  | Err e => Err e
  | Ok newToken =>
      match jwt_ParseWithClaims (any_alg s) false clock newToken with
      | ParseFailed _ => Err (EOther "jwt")
      | Parsed w _ => Ok (newToken, rg_ID (at_Registered (access_of w)))
      end
  end.

Definition only_HS256 s (e : error) (alg : string) : res string :=
  if negb (bool_decide (alg = "HS256")) then Err e else Ok (js_signingKey s).

Definition ParseTokenSkipClaimsValidation s (clock : time) (tokenString : string) : res AccessTokenClaims :=
  if str_empty tokenString then Err (New CodeInvalidInput "empty token")
  else
    match jwt_ParseWithClaims (only_HS256 s (New CodeInvalidInput "unexpected signing algorithm")) true clock tokenString with
    | ParseFailed errs =>
        if bool_decide (ErrSignatureInvalid ∈ errs) then Err (New CodeInvalidInput "invalid jwt signature")
        else Err (New CodeInvalidInput "jwt parse failed")
    | Parsed w valid =>
        if negb valid then Err (New CodeInvalidInput "invalid jwt signature") else Ok (access_of w)
    end.

Definition GenerateIDToken s (now : time) (newID : string) (userID sessionID clientID tenantID : uuid)
    (apiVersion : APIVersion) : res string :=
  let apiVersion := if str_empty apiVersion then APIVersionV1 else apiVersion in
  jwt_SignedString (js_signingKey s) (id_wire
    (mkIDClaims (uuid_String sessionID) (uuid_String clientID) (js_env s)
       (mkRegistered (uuid_String userID) (NewNumericDate (time_Add now (js_tokenTTL s))) (NewNumericDate now)
          (BuildIssuer s tenantID) (token_audience s apiVersion) newID))).

Definition ValidateToken s (clock : time) (tokenString : string) : res AccessTokenClaims :=
  match jwt_ParseWithClaims (only_HS256 s (EOther "token is unverifiable")) false clock tokenString with
  | ParseFailed errs =>
      if bool_decide (ErrTokenExpired ∈ errs) then Err (New CodeInvalidGrant "token expired")
      else Err (New CodeInvalidInput "invalid token")
  | Parsed w valid =>
      if negb valid then Err (New CodeInvalidInput "invalid token")
      else if negb (HasPrefix (rg_Issuer (at_Registered (access_of w))) (js_issuerBaseURL s))
      then Err (New CodeInvalidInput "invalid token issuer")
      else Ok (access_of w)
  end.

Definition ValidateIDToken s (clock : time) (tokenString : string) : res IDTokenClaims :=
  match jwt_ParseWithClaims (only_HS256 s (EOther "token is unverifiable")) false clock tokenString with
  | ParseFailed errs =>
      if bool_decide (ErrTokenExpired ∈ errs) then Err (New CodeInvalidGrant "token expired")
      else Err (New CodeInvalidInput "invalid token")
  | Parsed w valid =>
      if negb valid then Err (New CodeInvalidInput "invalid token") else Ok (id_of w)
  end.

(** *** [jwt_adapter.go] *)

Definition ToMiddlewareClaims (c : AccessTokenClaims) : JWTClaims :=
  mkClaims (at_UserID c) (at_SessionID c) (at_ClientID c) (rg_ID (at_Registered c)) (AccessTokenClaims_APIVersion c).

Definition Adapter_ValidateToken s (clock : time) (tokenString : string) : res JWTClaims :=
  match ValidateToken s clock tokenString with
  | Err e => Err e
  | Ok claims => Ok (ToMiddlewareClaims claims)
  end.
End service.

(** ** Theorems *)

Section theorems.
Context `{!JwtLibrary, !JwtLaws}.
Context (uuid_String : uuid -> string) (uuid_Parse : string -> option uuid).
(** [uuid.Parse] reads what [String] writes. *)
Hypothesis uuid_text : forall u, uuid_Parse (uuid_String u) = Some u /\ uuid_String u <> "".

Lemma parseUUID_text u label : parseUUID uuid_Parse (uuid_String u) label = Ok u.
Proof.
  destruct (uuid_text u) as [Hp Hne]. unfold parseUUID, str_empty. by rewrite bool_decide_false, Hp.
Qed.

Lemma issuer_has_base s tenantID : HasPrefix (BuildIssuer uuid_String s tenantID) (js_issuerBaseURL s) = true.
Proof.
  apply HasPrefix_spec. unfold BuildIssuer. destruct (IsNil tenantID); [|by eexists].
  exists "". generalize (js_issuerBaseURL s). intros t. induction t as [|a t IH]; [done|].
  change (String a t = String a (t +:+ "")). by rewrite <- IH.
Qed.

(** What the validator says of a token this service signed. *)
Lemma ValidateToken_signed s w tok clock :
  jwt_SignedString (js_signingKey s) w = Ok tok -> HasPrefix (w_iss w) (js_issuerBaseURL s) = true ->
  ValidateToken s clock tok =
    if clock <? w_exp w * Second then Ok (access_of w) else Err (New CodeInvalidGrant "token expired").
Proof.
  intros Hs Hi. unfold ValidateToken.
  rewrite (jwt_signed_parses _ w tok _ false clock Hs) by reflexivity. cbn [orb].
  destruct (clock <? w_exp w * Second); [|done]. simpl. by rewrite Hi.
Qed.

(** The wire form of an issued access token. *)
Lemma GenerateAccessToken_signed s now jti userID sessionID clientID tenantID scopes v tok :
  GenerateAccessToken uuid_String s now jti userID sessionID clientID tenantID scopes v = Ok tok ->
  exists j w, jti = Ok j /\ jwt_SignedString (js_signingKey s) w = Ok tok /\
    w_user_id w = uuid_String userID /\ w_session_id w = uuid_String sessionID /\
    w_client_id w = uuid_String clientID /\ w_jti w = j /\
    w_exp w = NewNumericDate (now + js_tokenTTL s) /\ HasPrefix (w_iss w) (js_issuerBaseURL s) = true.
Proof.
  unfold GenerateAccessToken. case_match; [done|]. destruct jti as [j|]; [|done].
  intros H'. eexists j, _. split; [done|]. split; [exact H'|]. split_and!; try done. apply issuer_has_base.
Qed.

(** C12: An issued access token authenticates its session, and nothing longer: presented
    as a bearer token it reaches the endpoint with exactly the user, session and client
    it was issued for, at every clock before the whole second in which its lifetime
    ends, as long as the revocation list does not hold its JTI; from its expiry on, or
    once revoked, the request is answered 401 and the endpoint is not reached. *)
Theorem issued_token_authenticates {S} (sv : JWTService) (now clock : time) (j : string)
    (userID sessionID clientID tenantID : uuid) (scopes : list string) (v : APIVersion) (tok : string)
    (isRevoked : string -> S -> res bool) (next : Handler S) (r : Request) (c : RCtx)
    (h : gmap string string) (s : S) (rv : bool) :
  GenerateAccessToken uuid_String sv now (Ok j) userID sessionID clientID tenantID scopes v = Ok tok ->
  Get (req_Header r) "Authorization" = "Bearer " +:+ tok ->
  j <> "" -> isRevoked j s = Ok rv ->
  let out := RequireAuth uuid_Parse (Adapter_ValidateToken sv clock) (Some isRevoked) next r c h s in
  let expiry := NewNumericDate (now + js_tokenTTL sv) * Second in
  (clock < expiry -> rv = false ->
     exists c', out = next r c' h s /\ rc_UserID c' = userID /\ rc_SessionID c' = sessionID /\
       rc_ClientID c' = clientID /\ rc_ClientIP c' = rc_ClientIP c) /\
  (expiry <= clock \/ rv = true -> exists resp, out = (Responds resp, s) /\ resp_Status resp = 401).
Proof.
  intros Hg Hh Hj Hrv out expiry.
  destruct (GenerateAccessToken_signed _ _ _ _ _ _ _ _ _ _ Hg) as (j' & w & [= <-] & Hs & Hu & Hi & Hk & Hjt & He & Hp).
  assert (out = match Adapter_ValidateToken sv clock tok with
    | Err _ => (writeJSONError 401 "unauthorized" "Invalid or expired token" h, s)
    | Ok claims => match checkRevocation (Some isRevoked) (jc_JTI claims) s with
        | revocationMissingJTI | revocationRevoked => (writeJSONError 401 "unauthorized" "Token has been revoked" h, s)
        | revocationError => (writeJSONError 500 "internal_error" "Failed to validate token" h, s)
        | revocationOK => match parseClaims uuid_Parse claims with
            | Err _ => (writeJSONError 401 "unauthorized" "Invalid or expired token" h, s)
            | Ok parsed => next r (authenticated c parsed (jc_APIVersion claims)) h s end end end) as Hout.
  { unfold out, RequireAuth. by rewrite (proj2 (CutPrefix_Some "Bearer " _ tok) Hh). }
  clearbody out. unfold Adapter_ValidateToken in Hout. rewrite (ValidateToken_signed _ w _ _ Hs Hp), He in Hout.
  fold expiry in Hout. destruct (Z.ltb_spec clock expiry) as [Hlt|Hge].
  - unfold checkRevocation in Hout. cbn in Hout. rewrite Hjt in Hout. unfold str_empty at 1 in Hout.
    rewrite bool_decide_false, Hrv in Hout by done. split.
    + intros _ ->. unfold parseClaims in Hout. cbn [jc_UserID ToMiddlewareClaims at_UserID access_of jc_SessionID at_SessionID jc_ClientID at_ClientID] in Hout.
      unfold ParseUserID, ParseSessionID, ParseClientID in Hout.
      rewrite Hu, Hi, Hk, !parseUUID_text in Hout.
      unfold str_empty in Hout. rewrite (bool_decide_false (uuid_String clientID = "")) in Hout by apply uuid_text.
      eexists. split; [exact Hout|]. unfold authenticated. destruct (str_empty _); [done|].
      by destruct (ParseAPIVersion _).
    + intros [? | ->]; [lia|]. rewrite Hout. by eexists.
  - split; [lia|]. intros _. rewrite Hout. by eexists.
Qed.

(** C13: ID tokens are not access tokens: a token issued by [GenerateIDToken] never
    reaches an endpoint behind [RequireAuth], at no time and for no revocation list,
    though it is signed with the same key and carries the same issuer. *)
Theorem id_token_never_authenticates {S} (sv : JWTService) (now clock : time) (newID : string)
    (userID sessionID clientID tenantID : uuid) (v : APIVersion) (tok : string)
    (checker : option (string -> S -> res bool)) (next : Handler S) (r : Request) (c : RCtx)
    (h : gmap string string) (s : S) :
  GenerateIDToken uuid_String sv now newID userID sessionID clientID tenantID v = Ok tok ->
  Get (req_Header r) "Authorization" = "Bearer " +:+ tok ->
  exists resp, RequireAuth uuid_Parse (Adapter_ValidateToken sv clock) checker next r c h s = (Responds resp, s) /\
    (resp_Status resp = 401 \/ resp_Status resp = 500).
Proof.
  intros Hg Hh. unfold RequireAuth. rewrite (proj2 (CutPrefix_Some "Bearer " _ tok) Hh).
  unfold Adapter_ValidateToken. unfold GenerateIDToken in Hg.
  rewrite (ValidateToken_signed _ _ _ _ Hg) by apply issuer_has_base.
  destruct (clock <? _); [|eexists; split; [done|by left]].
  destruct (checkRevocation _ _ _); eexists; (split; [done|]); auto.
Qed.

(** Revocation names the right token: the JTI that is handed out with an access token
    is the JTI the authentication middleware checks, and the one token revocation reads
    back from the token at any later time, expired or not. *)
Theorem jti_identifies_token (sv : JWTService) (now clock later : time) (jti : res string)
    (userID sessionID clientID tenantID : uuid) (scopes : list string) (v : APIVersion) (tok j : string) :
  GenerateAccessTokenWithJTI uuid_String sv now clock jti userID sessionID clientID tenantID scopes v = Ok (tok, j) ->
  tok <> "" ->
  jti = Ok j /\
  (exists claims, ParseTokenSkipClaimsValidation sv later tok = Ok claims /\ rg_ID (at_Registered claims) = j) /\
  (forall claims, Adapter_ValidateToken sv later tok = Ok claims -> jc_JTI claims = j).
Proof.
  unfold GenerateAccessTokenWithJTI. destruct (GenerateAccessToken _ _ _ _ _ _ _ _ _ _) as [t|] eqn:Hg; [|done].
  destruct (GenerateAccessToken_signed _ _ _ _ _ _ _ _ _ _ Hg) as (j' & w & -> & Hs & _ & _ & _ & Hjt & _ & Hp).
  rewrite (jwt_signed_parses _ w t (any_alg sv) false clock Hs eq_refl). cbn [orb].
  destruct (clock <? w_exp w * Second); [|done]. intros [= -> <-] Hne. split; [by rewrite Hjt|]. split.
  - exists (access_of w). split; [|done]. unfold ParseTokenSkipClaimsValidation, str_empty.
    rewrite bool_decide_false by done. by rewrite (jwt_signed_parses _ w tok _ true later Hs).
  - intros claims. unfold Adapter_ValidateToken. rewrite (ValidateToken_signed _ w _ _ Hs Hp).
    destruct (later <? w_exp w * Second); [|done]. by intros [= <-].
Qed.

Lemma substring_prefix p t : String.substring 0 (String.length p) (p +:+ t) = p.
Proof. induction p as [|a p IH]; simpl; [by destruct t|]. by rewrite IH. Qed.
Lemma substring_suffix p t : String.substring (String.length p) (String.length t) (p +:+ t) = t.
Proof.
  induction p as [|a p IH]; [|done]. change ("" +:+ t) with t. cbn [String.length].
  induction t as [|a t IH]; [done|]. cbn. by rewrite IH.
Qed.

Lemma string_app_assoc (p q t : string) : p +:+ (q +:+ t) = (p +:+ q) +:+ t.
Proof. induction p as [|a p IH]; [done|]. change (String a (p +:+ (q +:+ t)) = String a ((p +:+ q) +:+ t)). by rewrite IH. Qed.

(** A token's issuer names its tenant: the tenant read back from the issuer built for
    a tenant is that tenant, and the issuer built without one yields none. *)
Theorem issuer_names_tenant (sv : JWTService) (tenantID : uuid) :
  ExtractTenantFromIssuer sv (BuildIssuer uuid_String sv tenantID) =
  Ok (if IsNil tenantID then "" else uuid_String tenantID).
Proof.
  unfold ExtractTenantFromIssuer, BuildIssuer. destruct (IsNil tenantID) eqn:Hn.
  - rewrite string_length_app.
    rewrite (proj2 (Nat.ltb_ge _ _)) by lia. simpl. by rewrite bool_decide_true.
  - set (p := js_issuerBaseURL sv +:+ "/tenants/").
    assert (js_issuerBaseURL sv +:+ ("/tenants/" +:+ uuid_String tenantID) = p +:+ uuid_String tenantID) as ->.
    { apply string_app_assoc. }
    destruct (uuid_text tenantID) as [_ Hne]. rewrite substring_prefix, string_length_app.
    assert (String.length (uuid_String tenantID) <> 0%nat) by (by destruct (uuid_String tenantID)).
    rewrite (proj2 (Nat.ltb_lt _ _)) by lia. rewrite bool_decide_true by done. simpl.
    replace (String.length p + String.length (uuid_String tenantID) - String.length p)%nat
      with (String.length (uuid_String tenantID)) by lia.
    by rewrite substring_suffix.
Qed.
End theorems.

Module JwtExample.
Fixpoint xs (n : nat) : string := match n with O => "" | S n' => String "x" (xs n') end.
Definition show (u : uuid) : string := String "u" (xs (N.to_nat u)).
Definition parse (s : string) : option uuid := Some (N.of_nat (pred (String.length s))).
Lemma token_show_parse u : parse (show u) = Some u /\ show u <> "".
Proof.
  assert (forall n, String.length (xs n) = n) as H by (induction n as [|n IH]; [done|exact (f_equal S IH)]).
  split; [|done]. unfold parse, show. cbn [String.length pred]. by rewrite H, N2Nat.id.
Defined.

Definition service : JWTService := NewJWTService "key" "https://credo" "credo-client" (15 * Minute).
Definition access : Wire := access_wire
  (mkAccess "ux" "uxx" "uxxx" "u" "" ["openid"] (mkRegistered "" 900 0 "https://credo" ["credo-client"; "credo-client:v1"] "j1")).
Definition idtoken : Wire := id_wire
  (mkIDClaims "uxx" "uxxx" "" (mkRegistered "ux" 900 0 "https://credo" ["credo-client"; "credo-client:v1"] "i1")).

(** A library that signs these two sets of claims. *)
#[global] Instance library : JwtLibrary := {|
  jwt_SignedString := fun key w =>
    if negb (bool_decide (key = "key")) then Err (EOther "key")
    else if bool_decide (w = access) then Ok "access" else if bool_decide (w = idtoken) then Ok "id" else Err (EOther "claims");
  jwt_ParseWithClaims := fun keyfunc skip clock tok =>
    match keyfunc "HS256" with
    | Err _ => ParseFailed [ErrTokenOther]
    | Ok k =>
        if negb (bool_decide (k = "key")) then ParseFailed [ErrSignatureInvalid]
        else
          let w := if bool_decide (tok = "access") then Some access else if bool_decide (tok = "id") then Some idtoken else None in
          match w with
          | None => ParseFailed [ErrTokenOther]
          | Some w => if skip || (clock <? w_exp w * Second) then Parsed w true else ParseFailed [ErrTokenExpired]
          end
    end;
|}.
#[global] Instance laws : JwtLaws.
Proof.
  split. intros key w tok keyfunc skip clock. cbn [jwt_SignedString jwt_ParseWithClaims library].
  case_bool_decide as Hk; [|discriminate]. subst key. cbn [negb]. intros H Hf. rewrite Hf.
  rewrite (bool_decide_true ("key" = "key")) by done. cbn [negb].
  case_bool_decide as Hw; [subst w; by injection H as <-|].
  case_bool_decide as Hw'; [subst w; by injection H as <-|discriminate].
Qed.

Definition request (tok : string) : Request :=
  mkRequest "GET" "/" "" {[ "Authorization" := "Bearer " +:+ tok ]} ∅ None ∅.
Definition revoked (jti : string) (s : list string) : res bool := Ok (slices_Contains s jti).
Definition endpoint : Handler (list string) := fun r c h s => (Responds (mkResponse 200 h NoBody), s).
End JwtExample.

Lemma issued_token_authenticates_witness :
  exists c', RequireAuth JwtExample.parse (Adapter_ValidateToken JwtExample.service Minute) (Some JwtExample.revoked)
      JwtExample.endpoint (JwtExample.request "access") background ∅ [] =
      JwtExample.endpoint (JwtExample.request "access") c' ∅ [] /\ rc_UserID c' = 1%N /\ rc_SessionID c' = 2%N /\
      rc_ClientID c' = 3%N /\ rc_ClientIP c' = rc_ClientIP background.
Proof.
  refine (proj1 (issued_token_authenticates JwtExample.show JwtExample.parse JwtExample.token_show_parse JwtExample.service
    0 Minute "j1" 1 2 3 0 ["openid"] "" "access" JwtExample.revoked JwtExample.endpoint (JwtExample.request "access")
    background ∅ [] false _ _ _ _) _ _).
  - vm_compute. reflexivity.
  - vm_compute. reflexivity.
  - discriminate.
  - reflexivity.
  - reflexivity.
  - reflexivity.
Defined.

Lemma id_token_never_authenticates_witness :
  exists resp, RequireAuth JwtExample.parse (Adapter_ValidateToken JwtExample.service Minute) (Some JwtExample.revoked)
      JwtExample.endpoint (JwtExample.request "id") background ∅ [] = (Responds resp, []) /\
    (resp_Status resp = 401 \/ resp_Status resp = 500).
Proof.
  apply (id_token_never_authenticates JwtExample.show JwtExample.parse JwtExample.service 0 Minute "i1" 1 2 3 0 "" "id").
  - vm_compute. reflexivity.
  - vm_compute. reflexivity.
Defined.

Lemma jti_identifies_token_witness :
  exists claims, ParseTokenSkipClaimsValidation JwtExample.service (99 * Hour) "access" = Ok claims /\
    rg_ID (at_Registered claims) = "j1".
Proof.
  apply (jti_identifies_token JwtExample.show JwtExample.service 0 Minute (99 * Hour) (Ok "j1") 1 2 3 0 ["openid"] "" "access" "j1").
  - vm_compute. reflexivity.
  - discriminate.
Defined.

Lemma issuer_names_tenant_witness :
  ExtractTenantFromIssuer JwtExample.service (BuildIssuer JwtExample.show JwtExample.service 4) = Ok "uxxxx".
Proof. apply (issuer_names_tenant JwtExample.show JwtExample.parse JwtExample.token_show_parse). Defined.
