(* ===== verification/RateMiddleware.v ===== *)
(** * The rate-limit middleware: [internal/ratelimit/middleware]

    [ratelimit.go], [limiter.go] and [fallback.go]: the handlers that ask a limiter,
    the circuit breaker that switches them to a fallback limiter, and the responses.
    The limiter is the class [RateLimiter]; [Limiter] composes the request limiter and
    the global throttle, [fallbackLimiter] is the in-memory stand-in.  The state of a
    handler is the middleware object and whatever the handlers behind it own.  The
    last part composes the middleware in the order of [cmd/server/main.go]. *)
From S2P Require Import Prelude Errors Breaker Ring Keys SlidingWindow BucketStore Throttle RequestLimit Http.
Open Scope Z_scope.

Class RateLimiter (L : Type) := {
  lim_CheckIPRateLimit : string -> EndpointClass -> time -> ST L error RateLimitResult;
  lim_CheckBothLimits : string -> string -> EndpointClass -> time -> ST L error RateLimitResult;
  lim_CheckGlobalThrottle : time -> ST L error bool;
}.

Class ClientRateLimiter (L : Type) := {
  clim_Check : string -> string -> time -> ST L error RateLimitResult;
}.

(** ** Limiters *)

Section limiters.
Context {St AL : Type} `{!BucketStore St, !AllowlistStore AL}.
Variable cfg : RateConfig.
Variable allowlist : AL.

Record Limiter := NewLimiter { lm_requests : @RLState St; lm_globalThrottle : GlobalThrottle }.

Definition Limiter_CheckIPRateLimit (ip : string) (class : EndpointClass) (now : time)
    : ST Limiter error RateLimitResult :=
  st_zoom lm_requests (fun q l => NewLimiter q (lm_globalThrottle l)) (CheckIP cfg allowlist ip class now).

Definition Limiter_CheckBothLimits (ip userID : string) (class : EndpointClass) (now : time)
    : ST Limiter error RateLimitResult :=
  st_zoom lm_requests (fun q l => NewLimiter q (lm_globalThrottle l)) (CheckBoth cfg allowlist ip userID class now).

(** An undisturbed call of the throttle always finishes; see [IncrementGlobal_alone]. *)
Definition Limiter_CheckGlobalThrottle (now : time) : ST Limiter error bool := fun l =>
  match Throttle_Check now (lm_globalThrottle l) with
  | Some (g, allowed) => (Ok allowed, NewLimiter (lm_requests l) g)
  | None => (Err (EOther "throttle"), l)
  end.

Definition Limiter_limiter : RateLimiter Limiter := {|
  lim_CheckIPRateLimit := Limiter_CheckIPRateLimit;
  lim_CheckBothLimits := Limiter_CheckBothLimits;
  lim_CheckGlobalThrottle := Limiter_CheckGlobalThrottle;
|}.

(** *** [fallback.go] *)

Definition NewFallbackLimiter (cfg' : option RateConfig) (allowlistStore : option AL)
    : option (@RLState InMemoryBucketStore) :=
  match cfg', allowlistStore with
  | Some _, Some _ => Some (mkRLState (Bucket_New []) [])
  | _, _ => None
  end.

Definition fallback_CheckIPRateLimit (ip : string) (class : EndpointClass) (now : time)
    : ST (@RLState InMemoryBucketStore) error RateLimitResult := CheckIP cfg allowlist ip class now.

Definition fallback_CheckBothLimits (ip userID : string) (class : EndpointClass) (now : time)
    : ST (@RLState InMemoryBucketStore) error RateLimitResult := CheckBoth cfg allowlist ip userID class now.

Definition fallback_CheckGlobalThrottle (now : time) : ST (@RLState InMemoryBucketStore) error bool := mret true.

Definition fallbackLimiter : RateLimiter (@RLState InMemoryBucketStore) := {|
  lim_CheckIPRateLimit := fallback_CheckIPRateLimit;
  lim_CheckBothLimits := fallback_CheckBothLimits;
  lim_CheckGlobalThrottle := fallback_CheckGlobalThrottle;
|}.

Record fallbackClientLimiter := mkFCL { fcl_buckets : InMemoryBucketStore; fcl_limit : Limit }.

Definition NewFallbackClientLimiter (cfg' : option RateConfig) : option fallbackClientLimiter :=
  match cfg' with None => None | Some c => Some (mkFCL (Bucket_New []) (rc_PublicLimit c)) end.

Definition fallback_Client_Check (clientID endpoint : string) (now : time)
    : ST fallbackClientLimiter error RateLimitResult := fun f =>
  let '(r, b) := bucket_Allow (NewClientRateLimitKey clientID endpoint)
                   (lim_RequestsPerWindow (fcl_limit f)) (lim_Window (fcl_limit f)) now (fcl_buckets f) in
  (r, mkFCL b (fcl_limit f)).

Definition fallback_client_limiter : ClientRateLimiter fallbackClientLimiter := {|
  clim_Check := fallback_Client_Check;
|}.
End limiters.

(** ** The circuit breaker around a check *)

(** A Go result [(result, degraded, err)]; a nil result is [None]. *)
Abbreviation Checked T := (option T * bool * option error)%type (only parsing).

Section with_breaker.
Context {L F T : Type}.

Definition tryFallback (fallback : ST F error T) (fb : F) (primaryResult : option T) (primaryErr : option error)
    : Checked T * F :=
  match fallback fb with
  | (Err _, fb') => ((primaryResult, false, primaryErr), fb')
  | (Ok v, fb') => ((Some v, true, primaryErr), fb')
  end.

Definition handlePrimaryFailure (breaker : CircuitBreaker) (result : option T) (primaryErr : error)
    (fallback : ST F error T) (fb : option F) : Checked T * (CircuitBreaker * option F) :=
  let '((useFallback, _), breaker) := CB_RecordFailure breaker in
  match fb with
  | Some f =>
      if negb useFallback then ((result, false, Some primaryErr), (breaker, fb))
      else let '(v, f') := tryFallback fallback f result (Some primaryErr) in (v, (breaker, Some f'))
  | None => ((result, false, Some primaryErr), (breaker, fb))
  end.

Definition handlePrimarySuccess (breaker : CircuitBreaker) (result : option T)
    (fallback : ST F error T) (fb : option F) : Checked T * (CircuitBreaker * option F) :=
  let '((usePrimary, _), breaker) := CB_RecordSuccess breaker in
  match fb with
  | Some f =>
      if usePrimary : bool then ((result, false, None), (breaker, fb))
      else let '(v, f') := tryFallback fallback f result None in (v, (breaker, Some f'))
  | None => ((result, false, None), (breaker, fb))
  end.

(** The fallback function is nil when there is no fallback limiter. *)
Definition withCircuitBreaker (breaker : CircuitBreaker) (primary : ST L error T) (l : L)
    (fallback : ST F error T) (fb : option F) : Checked T * (CircuitBreaker * L * option F) :=
  let '(r, l') := primary l in
  let '(v, (b, f)) :=
    match r with
    | Err e => handlePrimaryFailure breaker None e fallback fb
    | Ok x => handlePrimarySuccess breaker (Some x) fallback fb
    end in
  (v, (b, l', f)).

(** What the caller gets: the fallback's verdict while the circuit is open and the
    fallback works, else the primary's verdict, else none. *)
Definition verdict (open : bool) (p : res T) (f : option (res T)) : option (bool * T) :=
  match open, f with
  | true, Some (Ok v) => Some (true, v)
  | _, _ => match p with Ok v => Some (false, v) | Err _ => None end
  end.
End with_breaker.

Definition outcome_of {T} (r : res T) : outcome := match r with Ok _ => Success | Err _ => Failure end.

(** The fallback consulted once the outcome is recorded, if the circuit is open. *)
Definition consult {F T} (open : bool) (fallback : ST F error T) (fb : option F) : option (res T) * option F :=
  match open, fb with
  | true, Some f => let '(r, f') := fallback f in (Some r, Some f')
  | _, _ => (None, fb)
  end.

(** ** Responses *)

Definition addRateLimitHeaders (h : gmap string string) (result : option RateLimitResult) : gmap string string :=
  match result with
  | None => h
  | Some r =>
      <["X-RateLimit-Reset" := pretty (time_Unix (rl_ResetAt r))]>
        (<["X-RateLimit-Remaining" := pretty (rl_Remaining r)]>
           (<["X-RateLimit-Limit" := pretty (rl_Limit r)]> h))
  end.

Definition writeRateLimitExceeded (h : gmap string string) (r : RateLimitResult) : HttpResult :=
  WriteJSON 429
    [("error", JString "rate_limit_exceeded");
     ("message", JString "Too many requests from this IP address. Please try again later.");
     ("retry_after", JInt (rl_RetryAfter r))]
    (<["Retry-After" := pretty (rl_RetryAfter r)]> h).

Definition writeUserRateLimitExceeded (h : gmap string string) (r : RateLimitResult) : HttpResult :=
  WriteJSON 429
    [("error", JString "user_rate_limit_exceeded");
     ("message", JString "You have exceeded your request quota for this operation.");
     ("quota_limit", JInt (rl_Limit r)); ("quota_remaining", JInt (rl_Remaining r));
     ("quota_reset", JTime (rl_ResetAt r))]
    (<["Retry-After" := pretty (rl_RetryAfter r)]> h).

Definition writeServiceOverloaded (h : gmap string string) : HttpResult :=
  WriteJSON 503
    [("error", JString "service_unavailable");
     ("message", JString "Service is temporarily overloaded. Please try again later.");
     ("retry_after", JInt 60)]
    (<["Retry-After" := "60"]> h).

Definition writeClientRateLimitExceeded (h : gmap string string) (r : RateLimitResult) : HttpResult :=
  WriteJSON 429
    [("error", JString "client_rate_limit_exceeded");
     ("message", JString "OAuth client has exceeded its request quota. Please retry later.");
     ("retry_after", JInt (rl_RetryAfter r))]
    (<["Retry-After" := pretty (rl_RetryAfter r)]> h).

(** The tail shared by the three per-request handlers: an error without fallback is
    forwarded, a denial answered by [exceeded]; reading a nil result panics. *)
Definition enforce {S} (exceeded : gmap string string -> RateLimitResult -> HttpResult)
    (v : Checked RateLimitResult) (next : Handler S) : Handler S := fun r c h s =>
  let '(result, degraded, err) := v in
  if bool_decide (is_Some err) && negb degraded then next r c h s
  else
    let h := if degraded : bool then <["X-RateLimit-Status" := "degraded"]> h else h in
    let h := addRateLimitHeaders h result in
    match result with
    | None => (Panics h, s)
    | Some res => if negb (rl_Allowed res) then (exceeded h res, s) else next r c h s
    end.

(** ** [Middleware] *)

Record Middleware (L F : Type) := mkMiddleware {
  mw_limiter : L;
  mw_disabled : bool;
  mw_failClosed : bool;
  mw_supportURL : string;
  mw_ipBreaker : CircuitBreaker;
  mw_combinedBreaker : CircuitBreaker;
  mw_fallback : option F;
}.
Arguments mkMiddleware {L F}.
Arguments mw_limiter {L F}.
Arguments mw_disabled {L F}.
Arguments mw_failClosed {L F}.
Arguments mw_supportURL {L F}.
Arguments mw_ipBreaker {L F}.
Arguments mw_combinedBreaker {L F}.
Arguments mw_fallback {L F}.

Inductive MwOption (F : Type) :=
| WithDisabled (disabled : bool)
| WithSupportURL (url : string)
| WithFallbackLimiter (limiter : option F)
| WithFailClosed (enabled : bool).
Arguments WithDisabled {F}.
Arguments WithSupportURL {F}.
Arguments WithFallbackLimiter {F}.
Arguments WithFailClosed {F}.

Definition apply_mw_option {L F} (m : Middleware L F) (o : MwOption F) : Middleware L F :=
  match o with
  | WithDisabled d =>
      mkMiddleware (mw_limiter m) d (mw_failClosed m) (mw_supportURL m) (mw_ipBreaker m)
        (mw_combinedBreaker m) (mw_fallback m)
  | WithSupportURL u =>
      mkMiddleware (mw_limiter m) (mw_disabled m) (mw_failClosed m) u (mw_ipBreaker m)
        (mw_combinedBreaker m) (mw_fallback m)
  | WithFallbackLimiter (Some f) =>
      mkMiddleware (mw_limiter m) (mw_disabled m) (mw_failClosed m) (mw_supportURL m) (mw_ipBreaker m)
        (mw_combinedBreaker m) (Some f)
  | WithFallbackLimiter None => m
  | WithFailClosed e =>
      mkMiddleware (mw_limiter m) (mw_disabled m) e (mw_supportURL m) (mw_ipBreaker m)
        (mw_combinedBreaker m) (mw_fallback m)
  end.

Definition Middleware_New {L F} (limiter : L) (opts : list (MwOption F)) : Middleware L F :=
  foldl apply_mw_option
    (mkMiddleware limiter false false "" (newCircuitBreaker "ip") (newCircuitBreaker "combined") None) opts.

Section handlers.
Context {L F X : Type} `{!RateLimiter L, !RateLimiter F}.
Context (uuid_String : uuid -> string) (clock : time).

Definition checkIPRateLimit (ip : string) (class : EndpointClass) (now : time) (m : Middleware L F)
    : Checked RateLimitResult * Middleware L F :=
  let '(v, (b, l, f)) :=
    withCircuitBreaker (mw_ipBreaker m) (lim_CheckIPRateLimit ip class now) (mw_limiter m)
      (lim_CheckIPRateLimit ip class now) (mw_fallback m) in
  (v, mkMiddleware l (mw_disabled m) (mw_failClosed m) (mw_supportURL m) b (mw_combinedBreaker m) f).

Definition checkBothLimits (ip userID : string) (class : EndpointClass) (now : time) (m : Middleware L F)
    : Checked RateLimitResult * Middleware L F :=
  let '(v, (b, l, f)) :=
    withCircuitBreaker (mw_combinedBreaker m) (lim_CheckBothLimits ip userID class now) (mw_limiter m)
      (lim_CheckBothLimits ip userID class now) (mw_fallback m) in
  (v, mkMiddleware l (mw_disabled m) (mw_failClosed m) (mw_supportURL m) (mw_ipBreaker m) b f).

Definition RateLimit (class : EndpointClass) (next : Handler (Middleware L F * X)) : Handler (Middleware L F * X) :=
  fun r c h '(m, x) =>
  if mw_disabled m then next r c h (m, x)
  else
    let '(v, m') := checkIPRateLimit (rc_ClientIP c) class (Now clock c) m in
    enforce writeRateLimitExceeded v next r c h (m', x).

Definition RateLimitAuthenticated (class : EndpointClass) (next : Handler (Middleware L F * X))
    : Handler (Middleware L F * X) := fun r c h '(m, x) =>
  if mw_disabled m then next r c h (m, x)
  else
    let userID := uuid_String (rc_UserID c) in
    let '(v, m') := checkBothLimits (rc_ClientIP c) userID class (Now clock c) m in
    enforce writeUserRateLimitExceeded v next r c h (m', x).

Definition GlobalThrottle_Handler (next : Handler (Middleware L F * X)) : Handler (Middleware L F * X) :=
  fun r c h '(m, x) =>
  if mw_disabled m then next r c h (m, x)
  else
    let '(v, l) := lim_CheckGlobalThrottle (Now clock c) (mw_limiter m) in
    let m' := mkMiddleware l (mw_disabled m) (mw_failClosed m) (mw_supportURL m) (mw_ipBreaker m)
                (mw_combinedBreaker m) (mw_fallback m) in
    match v with
    | Err _ => next r c (<["X-RateLimit-Status" := "degraded"]> h) (m', x)
    | Ok false => (writeServiceOverloaded h, (m', x))
    | Ok true => next r c h (m', x)
    end.
End handlers.

(** ** [ClientMiddleware] *)

Section client.
Context (ParseMediaType : string -> option string).

Definition errConflictingClientID : error := EOther "conflicting client_id values".

Definition extractClientID (r : Request) : res string :=
  let queryClientID := Get (req_Query r) "client_id" in
  if negb (bool_decide (req_Method r = "POST")) then Ok queryClientID
  else
    match ParseForm ParseMediaType r with
    | None => Ok queryClientID
    | Some form =>
        let formClientID := Get form "client_id" in
        if str_empty queryClientID && str_empty formClientID then Ok ""
        else if str_empty formClientID then Ok queryClientID
        else if str_empty queryClientID then Ok formClientID
        else if negb (bool_decide (queryClientID = formClientID)) then Err errConflictingClientID
        else Ok queryClientID
    end.

Record ClientMiddleware (L F : Type) := mkClientMw {
  cmw_limiter : L;
  cmw_disabled : bool;
  cmw_circuitBreaker : CircuitBreaker;
  cmw_fallback : option F;
}.
Arguments mkClientMw {L F}.
Arguments cmw_limiter {L F}.
Arguments cmw_disabled {L F}.
Arguments cmw_circuitBreaker {L F}.
Arguments cmw_fallback {L F}.

(** [opts] are the arguments of [WithClientFallbackLimiter]. *)
Definition NewClientMiddleware {L F} (limiter : L) (disabled : bool) (opts : list (option F)) : ClientMiddleware L F :=
  foldl (fun m o => match o with
                    | Some f => mkClientMw (cmw_limiter m) (cmw_disabled m) (cmw_circuitBreaker m) (Some f)
                    | None => m
                    end)
    (mkClientMw limiter disabled (newCircuitBreaker "client") None) opts.

Context {L F X : Type} `{!ClientRateLimiter L, !ClientRateLimiter F}.
Context (clock : time).

Definition checkClientLimit (clientID endpoint : string) (now : time) (m : ClientMiddleware L F)
    : Checked RateLimitResult * ClientMiddleware L F :=
  let '(v, (b, l, f)) :=
    withCircuitBreaker (cmw_circuitBreaker m) (clim_Check clientID endpoint now) (cmw_limiter m)
      (clim_Check clientID endpoint now) (cmw_fallback m) in
  (v, mkClientMw l (cmw_disabled m) b f).

Definition RateLimitClient (next : Handler (ClientMiddleware L F * X)) : Handler (ClientMiddleware L F * X) :=
  fun r c h '(m, x) =>
  if cmw_disabled m then next r c h (m, x)
  else
    match extractClientID r with
    | Err _ =>
        (WriteJSON 400 [("error", JString "invalid_request");
                        ("error_description", JString "conflicting client_id values in request")] h, (m, x))
    | Ok clientID =>
        if str_empty clientID then next r c h (m, x)
        else
          let '(v, m') := checkClientLimit clientID (req_Path r) (Now clock c) m in
          enforce writeClientRateLimitExceeded v next r c h (m', x)
    end.
End client.
Arguments mkClientMw {L F}.
Arguments cmw_limiter {L F}.
Arguments cmw_disabled {L F}.
Arguments cmw_circuitBreaker {L F}.
Arguments cmw_fallback {L F}.

(** ** The handlers decide by the verdict *)

Definition err_of {T} (r : res T) : option error := match r with Ok _ => None | Err e => Some e end.

Lemma CB_answers (b : CircuitBreaker) :
  (CB_RecordFailure b).1.1 = CB_IsOpen (CB_RecordFailure b).2 /\
  (CB_RecordSuccess b).1.1 = negb (CB_IsOpen (CB_RecordSuccess b).2).
Proof.
  destruct b as [nm st fc sc ft st']; destruct st;
    unfold CB_RecordFailure, CB_RecordSuccess, CB_IsOpen; simpl; split; by try case_match.
Qed.

Lemma withCircuitBreaker_verdict {L F T} (b : CircuitBreaker) (primary : ST L error T) (l : L)
    (fallback : ST F error T) (fb : option F) :
  let b' := (CB_step b (outcome_of (primary l).1)).2 in
  let '(fr, fb') := consult (CB_IsOpen b') fallback fb in
  withCircuitBreaker b primary l fallback fb =
  (match verdict (CB_IsOpen b') (primary l).1 fr with
   | Some (deg, x) => (Some x, deg, err_of (primary l).1)
   | None => (None, false, err_of (primary l).1)
   end, (b', (primary l).2, fb')).
Proof.
  unfold withCircuitBreaker. destruct (primary l) as [r l']. destruct (CB_answers b) as [Hf Hs].
  destruct r as [x|e]; simpl; unfold handlePrimaryFailure, handlePrimarySuccess, consult, verdict, tryFallback.
  - destruct (CB_RecordSuccess b) as [[u ch] b']; simpl in *; subst u.
    destruct fb as [f|], (CB_IsOpen b'); simpl; try done. by destruct (fallback f) as [[]].
  - destruct (CB_RecordFailure b) as [[u ch] b']; simpl in *; subst u.
    destruct fb as [f|], (CB_IsOpen b'); simpl; try done. by destruct (fallback f) as [[]].
Qed.

Definition limit_headers (deg : bool) (x : RateLimitResult) (h : gmap string string) : gmap string string :=
  addRateLimitHeaders (if deg then <["X-RateLimit-Status" := "degraded"]> h else h) (Some x).

(** Apply a verdict: none forwards the request as it is; an allowance forwards it with
    the limit's headers; a denial answers and does not forward. *)
Definition apply_verdict {S} (exceeded : gmap string string -> RateLimitResult -> HttpResult)
    (v : option (bool * RateLimitResult)) (next : Handler S) : Handler S := fun r c h s =>
  match v with
  | None => next r c h s
  | Some (deg, x) =>
      if rl_Allowed x then next r c (limit_headers deg x h) s else (exceeded (limit_headers deg x h) x, s)
  end.

Lemma enforce_verdict {S} exceeded open (p : res RateLimitResult) fr (next : Handler S) r c h s :
  enforce exceeded
    (match verdict open p fr with
     | Some (deg, x) => (Some x, deg, err_of p)
     | None => (None, false, err_of p)
     end) next r c h s =
  apply_verdict exceeded (verdict open p fr) next r c h s.
Proof.
  unfold enforce, apply_verdict. destruct (verdict open p fr) as [[deg x]|] eqn:Hv.
  - assert (bool_decide (is_Some (err_of p)) && negb deg = false) as ->.
    { destruct deg; [by rewrite andb_false_r|]. destruct p as [y|e]; [done|].
      revert Hv. by destruct open, fr as [[]|]. }
    by destruct deg, (rl_Allowed x).
  - destruct p as [y|e]; [|done]. revert Hv. by destruct open, fr as [[]|].
Qed.

Section decisions.
Context {L F X : Type} `{!RateLimiter L, !RateLimiter F}.
Context (uuid_String : uuid -> string) (clock : time).
Implicit Types (m : Middleware L F) (x : X).

(** The verdict of one request on a limiter, a breaker and a fallback, and their states after it. *)
Definition request_verdict (check : forall A, RateLimiter A -> ST A error RateLimitResult)
    (b : CircuitBreaker) (l : L) (fb : option F)
    : option (bool * RateLimitResult) * (CircuitBreaker * L * option F) :=
  let '(p, l') := check L _ l in
  let b' := (CB_step b (outcome_of p)).2 in
  let '(fr, fb') := consult (CB_IsOpen b') (check F _) fb in
  (verdict (CB_IsOpen b') p fr, (b', l', fb')).

Lemma RateLimit_verdict class (next : Handler (Middleware L F * X)) r c h m x :
  mw_disabled m = false ->
  let '(v, (b, l, f)) :=
    request_verdict (fun _ _ => lim_CheckIPRateLimit (rc_ClientIP c) class (Now clock c))
      (mw_ipBreaker m) (mw_limiter m) (mw_fallback m) in
  RateLimit clock class next r c h (m, x) =
  apply_verdict writeRateLimitExceeded v next r c h
    (mkMiddleware l false (mw_failClosed m) (mw_supportURL m) b (mw_combinedBreaker m) f, x).
Proof.
  intros Hd. unfold request_verdict.
  pose proof (withCircuitBreaker_verdict (mw_ipBreaker m)
    (lim_CheckIPRateLimit (rc_ClientIP c) class (Now clock c)) (mw_limiter m)
    (lim_CheckIPRateLimit (rc_ClientIP c) class (Now clock c)) (mw_fallback m)) as H.
  unfold RateLimit, checkIPRateLimit. rewrite Hd.
  destruct (lim_CheckIPRateLimit _ _ _ (mw_limiter m)) as [p l']. cbn [fst snd] in H.
  destruct (consult _ _ _) as [fr fb']. cbn zeta in H. rewrite H. by rewrite enforce_verdict.
Qed.

Lemma RateLimitAuthenticated_verdict class (next : Handler (Middleware L F * X)) r c h m x :
  mw_disabled m = false ->
  let '(v, (b, l, f)) :=
    request_verdict (fun _ _ => lim_CheckBothLimits (rc_ClientIP c) (uuid_String (rc_UserID c)) class (Now clock c))
      (mw_combinedBreaker m) (mw_limiter m) (mw_fallback m) in
  RateLimitAuthenticated uuid_String clock class next r c h (m, x) =
  apply_verdict writeUserRateLimitExceeded v next r c h
    (mkMiddleware l false (mw_failClosed m) (mw_supportURL m) (mw_ipBreaker m) b f, x).
Proof.
  intros Hd. unfold request_verdict.
  pose proof (withCircuitBreaker_verdict (mw_combinedBreaker m)
    (lim_CheckBothLimits (rc_ClientIP c) (uuid_String (rc_UserID c)) class (Now clock c)) (mw_limiter m)
    (lim_CheckBothLimits (rc_ClientIP c) (uuid_String (rc_UserID c)) class (Now clock c)) (mw_fallback m)) as H.
  unfold RateLimitAuthenticated, checkBothLimits. rewrite Hd.
  destruct (lim_CheckBothLimits _ _ _ _ (mw_limiter m)) as [p l']. cbn [fst snd] in H.
  destruct (consult _ _ _) as [fr fb']. cbn zeta in H. rewrite H. by rewrite enforce_verdict.
Qed.

(** The two per-request handlers decide by the verdict, on every branch: the primary
    limiter is asked exactly once and its outcome recorded in the handler's own breaker;
    the fallback is asked exactly when the breaker is then open and its answer, if any,
    decides; otherwise the primary's answer decides; a request without a verdict is
    forwarded unchanged, an allowed one is forwarded with its limit's headers, and a
    denied one gets status 429 and reaches no handler.  They never panic themselves, and
    the setting [failClosed] plays no part. *)
Theorem rate_limit_decides (class : EndpointClass) (next : Handler (Middleware L F * X)) (r : Request) (c : RCtx)
    (h : gmap string string) (m : Middleware L F) (x : X) :
  mw_disabled m = false ->
  (let '(v, (b, l, f)) :=
     request_verdict (fun _ _ => lim_CheckIPRateLimit (rc_ClientIP c) class (Now clock c))
       (mw_ipBreaker m) (mw_limiter m) (mw_fallback m) in
   RateLimit clock class next r c h (m, x) =
   apply_verdict writeRateLimitExceeded v next r c h
     (mkMiddleware l false (mw_failClosed m) (mw_supportURL m) b (mw_combinedBreaker m) f, x)) /\
  (let '(v, (b, l, f)) :=
     request_verdict (fun _ _ => lim_CheckBothLimits (rc_ClientIP c) (uuid_String (rc_UserID c)) class (Now clock c))
       (mw_combinedBreaker m) (mw_limiter m) (mw_fallback m) in
   RateLimitAuthenticated uuid_String clock class next r c h (m, x) =
   apply_verdict writeUserRateLimitExceeded v next r c h
     (mkMiddleware l false (mw_failClosed m) (mw_supportURL m) (mw_ipBreaker m) b f, x)).
Proof. intros Hd. split; [by apply RateLimit_verdict|by apply RateLimitAuthenticated_verdict]. Qed.

(** *** Histories *)

(** A handler that answers with the headers it was given. *)
Definition echo {S} : Handler S := fun r c h s => (Responds (mkResponse 200 h NoBody), s).

Fixpoint serve (class : EndpointClass) (reqs : list (Request * RCtx)) (s : Middleware L F * X) : list HttpResult :=
  match reqs with
  | [] => []
  | (r, c) :: reqs' =>
      let '(a, s') := RateLimit clock class echo r c ∅ s in a :: serve class reqs' s'
  end.

(** The outcomes of the primary limiter on the same requests. *)
Fixpoint primary_history (class : EndpointClass) (reqs : list (Request * RCtx)) (l : L) : list outcome :=
  match reqs with
  | [] => []
  | (r, c) :: reqs' =>
      let '(p, l') := lim_CheckIPRateLimit (rc_ClientIP c) class (Now clock c) l in
      outcome_of p :: primary_history class reqs' l'
  end.

(** The request reached the handler and no limit was applied to it. *)
Definition unchecked (a : HttpResult) : bool :=
  match a with
  | Responds resp => (resp_Status resp =? 200) && bool_decide (resp_Header resp !! "X-RateLimit-Limit" = None)
  | Panics _ => false
  end.

Lemma unchecked_verdict v r c s :
  unchecked (apply_verdict writeRateLimitExceeded v (@echo (Middleware L F * X)) r c ∅ s).1 =
  bool_decide (v = None).
Proof.
  destruct v as [[deg y]|]; [|done]. rewrite (bool_decide_false (_ = None)) by done.
  unfold apply_verdict. destruct (rl_Allowed y); [|done]. simpl.
  rewrite bool_decide_false; [done|]. unfold limit_headers, addRateLimitHeaders.
  rewrite lookup_insert_ne by done. rewrite lookup_insert_ne by done. by rewrite lookup_insert_eq.
Qed.

Definition fallback_total : Prop :=
  forall ip class now (f : F), exists v f', lim_CheckIPRateLimit ip class now f = (Ok v, f').

Lemma serve_unchecked class reqs m x f i a :
  fallback_total -> mw_disabled m = false -> mw_fallback m = Some f ->
  serve class reqs (m, x) !! i = Some a ->
  let hist := primary_history class reqs (mw_limiter m) in
  unchecked a = true <->
  hist !! i = Some Failure /\ CB_IsOpen (foldl (fun b o => (CB_step b o).2) (mw_ipBreaker m) (take (S i) hist)) = false.
Proof.
  intros Ht. revert m f i. induction reqs as [|[r c] reqs IH]; intros m f i Hd Hf; [done|].
  cbn [serve primary_history]. pose proof (RateLimit_verdict class echo r c ∅ m x Hd) as Hv.
  unfold request_verdict in Hv. rewrite Hf in Hv.
  destruct (lim_CheckIPRateLimit (rc_ClientIP c) class (Now clock c) (mw_limiter m)) as [p l'] eqn:Hp.
  set (b' := (CB_step (mw_ipBreaker m) (outcome_of p)).2) in *.
  destruct (Ht (rc_ClientIP c) class (Now clock c) f) as (y & f' & Hy).
  assert (exists fr f'', consult (CB_IsOpen b') (lim_CheckIPRateLimit (rc_ClientIP c) class (Now clock c)) (Some f) = (fr, Some f'') /\
    (CB_IsOpen b' = true -> fr = Some (Ok y))) as (fr & f'' & Hc & Hfr).
  { unfold consult. rewrite Hy. destruct (CB_IsOpen b'); by eexists _, _. }
  rewrite Hc in Hv.
  destruct (RateLimit clock class echo r c ∅ (m, x)) as [a0 s0] eqn:Hr.
  assert (unchecked a0 = bool_decide (verdict (CB_IsOpen b') p fr = None)) as Hu.
  { rewrite <- (unchecked_verdict _ r c (mkMiddleware l' false (mw_failClosed m) (mw_supportURL m) b' (mw_combinedBreaker m) (Some f''), x)).
    by rewrite <- Hv. }
  assert (s0 = (mkMiddleware l' false (mw_failClosed m) (mw_supportURL m) b' (mw_combinedBreaker m) (Some f''), x)) as ->.
  { revert Hv. unfold apply_verdict, echo. by repeat case_match; intros [= _ ->]. }
  destruct i as [|i]; cbn [lookup list_lookup].
  - intros [= <-]. cbn [take foldl]. rewrite take_0. cbn [foldl]. fold b'. rewrite Hu, bool_decide_eq_true.
    unfold verdict. destruct (CB_IsOpen b') eqn:Ho.
    + rewrite (Hfr eq_refl). split; [done|by intros [_ ?]].
    + destruct p; simpl; split; naive_solver.
  - intros Hi. pose proof (IH (mkMiddleware l' false (mw_failClosed m) (mw_supportURL m) b'
      (mw_combinedBreaker m) (Some f'')) f'' i eq_refl eq_refl Hi) as Hrec. exact Hrec.
Qed.

Lemma CB_run_to_breaker b hist :
  Breaker_run (to_breaker b) hist = to_breaker (foldl (fun b o => (CB_step b o).2) b hist).
Proof.
  revert b. induction hist as [|o hist IH]; intros b; [done|].
  unfold Breaker_run in *. cbn [foldl]. rewrite CB_step_to_breaker. cbn [snd]. apply IH.
Qed.

Lemma closed_short_run hist :
  CB_IsOpen (foldl (fun b o => (CB_step b o).2) (newCircuitBreaker "ip") hist) = false ->
  end_run Failure hist < 5.
Proof.
  intros Ho. pose proof (Breaker_New_wf "ip" []) as Hwf.
  change (Breaker_New "ip" []) with (to_breaker (newCircuitBreaker "ip")) in Hwf.
  destruct (Breaker_run_counts _ hist Hwf) as [Hf _].
  destruct (Breaker_run_thresholds (to_breaker (newCircuitBreaker "ip")) hist) as [Ht _].
  destruct (Breaker_run_wf _ hist Hwf) as [_ _ _ _ Hc _].
  rewrite CB_run_to_breaker in *. unfold CB_IsOpen in Ho. bools.
  destruct (cb_state (foldl _ (newCircuitBreaker "ip") hist)) eqn:Hst; [|done].
  destruct (Hc Hst) as [Hlt _]. simpl in *. lia.
Qed.

End decisions.

(** ** Per-client limits *)

#[global] Instance client_limiter {St} `{!BucketStore St} (cfg : RateConfig) (isConfidential : string -> res bool)
  : ClientRateLimiter (@RLState St) := {| clim_Check := Client_Check cfg isConfidential |}.

Section client_decisions.
Context (ParseMediaType : string -> option string).
Context {L F X : Type} `{!ClientRateLimiter L, !ClientRateLimiter F}.
Context (clock : time).

(** The client a request is counted against is unambiguous: a POST request whose
    query and form name two different clients gets status 400 and no limiter or handler
    sees it; otherwise the identifier counted is the one present, in the query or in the
    form; a request that names no client is forwarded without touching any limiter. *)
Theorem client_id_unambiguous (next : Handler (ClientMiddleware L F * X)) (r : Request) (c : RCtx)
    (h : gmap string string) (m : ClientMiddleware L F) (x : X) (form : gmap string string) :
  cmw_disabled m = false -> req_Method r = "POST" -> ParseForm ParseMediaType r = Some form ->
  let q := Get (req_Query r) "client_id" in
  let b := Get form "client_id" in
  let out := RateLimitClient ParseMediaType clock next r c h (m, x) in
  (q <> "" -> b <> "" -> q <> b -> exists resp, out = (Responds resp, (m, x)) /\ resp_Status resp = 400) /\
  (q = "" -> b = "" -> out = next r c h (m, x)) /\
  (forall k, k <> "" -> (q = k \/ q = "") -> (b = k \/ b = "") -> (q = k \/ b = k) ->
     exists v b' l f,
       withCircuitBreaker (cmw_circuitBreaker m) (clim_Check k (req_Path r) (Now clock c)) (cmw_limiter m)
         (clim_Check k (req_Path r) (Now clock c)) (cmw_fallback m) = (v, (b', l, f)) /\
       out = enforce writeClientRateLimitExceeded v next r c h (mkClientMw l false b' f, x)).
Proof.
  intros Hd Hm Hf q b out.
  assert (out = match extractClientID ParseMediaType r with
    | Err _ => (WriteJSON 400 [("error", JString "invalid_request");
                        ("error_description", JString "conflicting client_id values in request")] h, (m, x))
    | Ok k => if str_empty k then next r c h (m, x) else
        let '(v, m') := checkClientLimit k (req_Path r) (Now clock c) m in
        enforce writeClientRateLimitExceeded v next r c h (m', x) end) as Hout.
  { unfold out, RateLimitClient. by rewrite Hd. }
  unfold extractClientID in Hout. rewrite Hm, Hf in Hout. fold q b in Hout. cbn [negb bool_decide] in Hout.
  rewrite bool_decide_true in Hout by done. cbn [negb] in Hout. clearbody out. unfold str_empty in Hout.
  split_and!.
  - intros Hq Hb Hqb. rewrite !(bool_decide_false (_ = "")), bool_decide_false in Hout by done.
    rewrite Hout. by eexists.
  - intros Hq Hb. rewrite Hq, Hb in Hout. exact Hout.
  - intros k Hk Hq Hb Hqb.
    assert (out = let '(v, m') := checkClientLimit k (req_Path r) (Now clock c) m in
        enforce writeClientRateLimitExceeded v next r c h (m', x)) as Hout'.
    { destruct Hq as [Hq|Hq], Hb as [Hb|Hb]; rewrite Hq, Hb in Hout; rewrite Hout;
        rewrite ?(bool_decide_false (k = "")), ?(bool_decide_true ("" = "")), ?(bool_decide_true (k = k)) by done;
        cbn [andb negb]; rewrite ?(bool_decide_false (k = "")) by done; try done; destruct Hqb; congruence. }
    rewrite Hout'. unfold checkClientLimit. rewrite Hd.
    destruct (withCircuitBreaker _ _ _ _ _) as [v [[b' l] f]]. by exists v, b', l, f.
Qed.

(** Behind the server's JSON-only stack the form is never read: a POST request without
    [client_id] in its query is forwarded without any per-client limit, whatever its
    body says. *)
Theorem body_client_id_not_limited (next : Handler (ClientMiddleware L F * X)) (r : Request) (c : RCtx)
    (h : gmap string string) (s : ClientMiddleware L F * X) :
  ParseMediaType "application/octet-stream" = Some "application/octet-stream" ->
  req_Method r = "POST" -> Get (req_Query r) "client_id" = "" ->
  let stack := ContentTypeJSON ParseMediaType (RateLimitClient ParseMediaType clock next) in
  stack r c h s = (writeJSONError 415 "invalid_content_type" "Content-Type must be application/json" h, s) \/
  stack r c h s = next r c h s.
Proof.
  intros Ho Hm Hq stack.
  destruct (json_only_no_form ParseMediaType (RateLimitClient ParseMediaType clock next) r c h s Hm) as [H|H];
    [by rewrite Ho|by left|].
  unfold stack, ContentTypeJSON. case_match; [by left|]. right. destruct s as [m x].
  unfold RateLimitClient, extractClientID. rewrite Hm, Hq. destruct (cmw_disabled m); [done|].
  rewrite bool_decide_true by done. destruct H as [-> | ->]; done.
Qed.
End client_decisions.

(** ** The server's stacks: [cmd/server/main.go] *)

Section server.
Context {L F X Addr Prefix : Type} `{!RateLimiter L, !RateLimiter F}.
Context (ParseMediaType : string -> option string).
Context (ParseAddr : string -> option Addr) (Prefix_Contains : Prefix -> Addr -> bool).
Context (uuid_String : uuid -> string) (uuid_Parse : string -> option uuid).
Context (validator : string -> res JWTClaims) (isTokenRevoked : string -> X -> res bool).
Context (device : DeviceConfig).
(** [time.Now()] and [uuid.New()] of the request at hand. *)
Context (clock : time) (newID : string).

Abbreviation Server := (Middleware L F * X)%type (only parsing).

(** Logging, latency metrics, the body size and the timeout are left out. *)
Definition setupRouter (next : Handler Server) : Handler Server :=
  metadata_Handler ParseAddr Prefix_Contains (NewMetadata None) (requesttime_Middleware clock (Device device
    (Recovery (RequestID newID (ContentTypeJSON ParseMediaType next))))).

(** The groups of protected endpoints, [ClassRead] and [ClassSensitive]. *)
Definition protected_group (class : EndpointClass) (next : Handler Server) : Handler Server :=
  setupRouter (ExtractVersion APIVersionV1
    (RateLimitAuthenticated uuid_String clock class
      (RequireAuth uuid_Parse validator (Some (fun jti s => isTokenRevoked jti s.2))
        (ValidateTokenVersion next)))).

(** The group of administrative endpoints of the admin server. *)
Definition setupAdminRouter (adminToken : string) (next : Handler Server) : Handler Server :=
  requesttime_Middleware clock (Recovery (RequestID newID (ContentTypeJSON ParseMediaType
    (RateLimit clock ClassAdmin (RequireAdminToken adminToken next))))).

(** What an endpoint of a protected group may rely on. *)
Definition protected_context (r : Request) (host : string) (x : X) (c : RCtx) (s : Server) : Prop :=
  s.2 = x /\ rc_ClientIP c = host /\ rc_Time c = Some clock /\ rc_APIVersion c = APIVersionV1 /\
  exists token claims p,
    grants uuid_Parse validator (Some isTokenRevoked) r x token claims p /\
    rc_UserID c = pc_UserID p /\ rc_SessionID c = pc_SessionID p /\ rc_ClientID c = pc_ClientID p.

Lemma granted_context r host x c0 c' (s : Server) token claims p :
  s.2 = x -> rc_ClientIP c0 = host -> rc_Time c0 = Some clock -> rc_APIVersion c0 = APIVersionV1 ->
  grants uuid_Parse validator (Some (fun jti s => isTokenRevoked jti s.2)) r s token claims p ->
  rc_UserID c' = pc_UserID p -> rc_SessionID c' = pc_SessionID p -> rc_ClientID c' = pc_ClientID p ->
  rc_ClientIP c' = rc_ClientIP c0 -> rc_Time c' = rc_Time c0 -> rc_APIVersion c' = rc_APIVersion c0 ->
  protected_context r host x c' s.
Proof.
  intros Hs Hip Ht Hv (G1 & G2 & G3 & G4) Hu Hi Hk Hip' Ht' Hv'.
  split; [done|]. split; [by rewrite Hip'|]. split; [by rewrite Ht'|]. split; [by rewrite Hv'|].
  exists token, claims, p. split; [|done]. split; [done|]. split; [done|]. split; [|done].
  intros f Hf. apply (inj Some) in Hf as <-. destruct (G3 _ eq_refl) as [? H]. rewrite <- Hs. by split.
Qed.

(** Two handlers that agree wherever [P] holds. *)
Definition agree (r : Request) (P : RCtx -> Server -> Prop) (n1 n2 : Handler Server) : Prop :=
  forall c h s, P c s -> n1 r c h s = n2 r c h s.

Lemma enforce_agree exceeded v r P n1 n2 c h s :
  agree r P n1 n2 -> P c s -> enforce exceeded v n1 r c h s = enforce exceeded v n2 r c h s.
Proof.
  intros Ha HP. unfold enforce. destruct v as [[result deg] err].
  rewrite !(Ha c _ s HP). case_match; [done|]. destruct result as [res|]; [|done]. by case_match.
Qed.

Lemma RequireAuth_agree r P n1 n2 c h s :
  (forall c' token claims p,
     grants uuid_Parse validator (Some (fun jti s => isTokenRevoked jti s.2)) r s token claims p ->
     rc_UserID c' = pc_UserID p -> rc_SessionID c' = pc_SessionID p -> rc_ClientID c' = pc_ClientID p ->
     rc_ClientIP c' = rc_ClientIP c -> rc_Time c' = rc_Time c -> rc_APIVersion c' = rc_APIVersion c -> P c' s) ->
  agree r P n1 n2 ->
  RequireAuth uuid_Parse validator (Some (fun jti s => isTokenRevoked jti s.2)) n1 r c h s =
  RequireAuth uuid_Parse validator (Some (fun jti s => isTokenRevoked jti s.2)) n2 r c h s.
Proof.
  intros HP Ha. unfold RequireAuth.
  destruct (CutPrefix _ _) as [token|] eqn:Hh; [|done]. apply CutPrefix_Some in Hh.
  destruct (validator token) as [claims|] eqn:Hv; [|done].
  destruct (checkRevocation _ _ _) eqn:Hr; try done.
  destruct (parseClaims _ _) as [p|] eqn:Hp; [|done]. apply Ha.
  apply (HP _ token claims p);
    [|unfold authenticated; destruct (str_empty _); [done|]; by destruct (ParseAPIVersion _)..].
  split; [done|]. split; [done|]. split; [by apply checkRevocation_OK|by apply parseClaims_Ok].
Qed.

Lemma ValidateTokenVersion_agree r P n1 n2 :
  agree r P n1 n2 -> agree r P (ValidateTokenVersion n1) (ValidateTokenVersion n2).
Proof.
  intros Ha c h s HP. unfold ValidateTokenVersion. case_match; [done|]. case_match; [done|]. by apply Ha.
Qed.

(** The common stack hands its handler the peer's address and the request's time. *)
Lemma setupRouter_agree r host port n1 n2 h s :
  host <> "" -> HasPrefix host "[" = false -> colon_free port = true -> req_RemoteAddr r = JoinHostPort host port ->
  agree r (fun c s' => s' = s /\ rc_ClientIP c = host /\ rc_Time c = Some clock /\ rc_UserID c = 0%N) n1 n2 ->
  setupRouter n1 r background h s = setupRouter n2 r background h s.
Proof.
  intros Hne Hb Hp Hr Ha. unfold setupRouter, metadata_Handler, requesttime_Middleware, Device.
  rewrite (extractClientIP_peer _ _ _ r host port) by done.
  unfold Recovery, RequestID, ContentTypeJSON. destruct (has_json_body_method _ && _ && _); [done|].
  rewrite (Ha _ _ s); [done|]. split; [done|].
  destruct (str_empty (CookieName device)), (req_Cookies r !! CookieName device), (FingerprintFn device) as [g|];
    cbn -[str_empty]; try destruct (str_empty _); done.
Qed.

(** End to end, an endpoint of a protected group runs only for an authenticated
    request: through the server's whole stack, from a request as it arrives, the
    endpoint is reached only with the identifiers of a token that the validator accepts
    and the revocation list does not hold, with the peer's own address whatever the
    proxy headers claim, and with the time at which the request arrived; and the
    program's state behind the limiter is still the one the request found.  Two
    endpoints that agree on such contexts give the same answer to every request. *)
Theorem protected_group_authenticates (class : EndpointClass) (r : Request) (host port : string)
    (n1 n2 : Handler Server) (h : gmap string string) (m : Middleware L F) (x : X) :
  host <> "" -> HasPrefix host "[" = false -> colon_free port = true -> req_RemoteAddr r = JoinHostPort host port ->
  (forall c h s, protected_context r host x c s -> n1 r c h s = n2 r c h s) ->
  protected_group class n1 r background h (m, x) = protected_group class n2 r background h (m, x).
Proof.
  intros Hne Hb Hp Hr Ha. unfold protected_group. eapply setupRouter_agree; try done.
  intros c h' s (-> & Hip & Ht & _). unfold ExtractVersion, RateLimitAuthenticated.
  set (c0 := WithAPIVersion c APIVersionV1).
  set (P := fun (c : RCtx) (s : Middleware L F * X) => s.2 = x /\ c = c0).
  assert (agree r P
    (RequireAuth uuid_Parse validator (Some (fun jti s => isTokenRevoked jti s.2)) (ValidateTokenVersion n1))
    (RequireAuth uuid_Parse validator (Some (fun jti s => isTokenRevoked jti s.2)) (ValidateTokenVersion n2))) as HR.
  { intros c1 h1 s1 [Hs ->].
    apply (RequireAuth_agree r (fun c s => protected_context r host x c s)); [|by apply ValidateTokenVersion_agree].
    intros c' token claims p. by apply (granted_context r host x c0). }
  destruct (mw_disabled m); [by apply HR|]. destruct (checkBothLimits _ _ _ _ m) as [v m'].
  by apply (enforce_agree _ _ _ P).
Qed.

(** *** What the stack keeps of the state

    [Q] holds after the stack if it holds after the endpoint wherever the endpoint may
    run, and of the state with which the middleware answers itself. *)

Lemma enforce_keeps exceeded v r (P : RCtx -> Server -> Prop) (Q : Server -> Prop) (n : Handler Server) c h s :
  (forall c h s, P c s -> Q (n r c h s).2) -> P c s -> Q s -> Q (enforce exceeded v n r c h s).2.
Proof.
  intros Hn HP HQ. unfold enforce. destruct v as [[result deg] err].
  case_match; [by apply Hn|]. destruct result as [res|]; [|done]. case_match; [done|]. by apply Hn.
Qed.

Lemma RequireAuth_keeps r (P : RCtx -> Server -> Prop) (Q : Server -> Prop) (n : Handler Server) c h s :
  (forall c' token claims p,
     grants uuid_Parse validator (Some (fun jti s => isTokenRevoked jti s.2)) r s token claims p ->
     rc_UserID c' = pc_UserID p -> rc_SessionID c' = pc_SessionID p -> rc_ClientID c' = pc_ClientID p ->
     rc_ClientIP c' = rc_ClientIP c -> rc_Time c' = rc_Time c -> rc_APIVersion c' = rc_APIVersion c -> P c' s) ->
  (forall c h s, P c s -> Q (n r c h s).2) -> Q s ->
  Q (RequireAuth uuid_Parse validator (Some (fun jti s => isTokenRevoked jti s.2)) n r c h s).2.
Proof.
  intros HP Hn HQ. unfold RequireAuth.
  destruct (CutPrefix _ _) as [token|] eqn:Hh; [|done]. apply CutPrefix_Some in Hh.
  destruct (validator token) as [claims|] eqn:Hv; [|done].
  destruct (checkRevocation _ _ _) eqn:Hr; try done.
  destruct (parseClaims _ _) as [p|] eqn:Hp; [|done]. apply Hn.
  apply (HP _ token claims p);
    [|unfold authenticated; destruct (str_empty _); [done|]; by destruct (ParseAPIVersion _)..].
  split; [done|]. split; [done|]. split; [by apply checkRevocation_OK|by apply parseClaims_Ok].
Qed.

Lemma setupRouter_keeps r host port (Q : Server -> Prop) (n : Handler Server) h s :
  host <> "" -> HasPrefix host "[" = false -> colon_free port = true -> req_RemoteAddr r = JoinHostPort host port ->
  (forall c h, rc_ClientIP c = host /\ rc_Time c = Some clock -> Q (n r c h s).2) -> Q s ->
  Q (setupRouter n r background h s).2.
Proof.
  intros Hne Hb Hp Hr Hn HQ. unfold setupRouter, metadata_Handler, requesttime_Middleware, Device.
  rewrite (extractClientIP_peer _ _ _ r host port) by done.
  unfold Recovery, RequestID, ContentTypeJSON. destruct (has_json_body_method _ && _ && _); [done|].
  match goal with |- context [n r ?c ?h s] => assert (Q (n r c h s).2) as H; [apply Hn|] end.
  - destruct (str_empty (CookieName device)), (req_Cookies r !! CookieName device), (FingerprintFn device) as [g|];
      cbn -[str_empty]; try destruct (str_empty _); done.
  - by destruct (n r _ _ s) as [[] s'].
Qed.

Lemma protected_group_keeps class r host port (Q : Server -> Prop) (n : Handler Server) h m x :
  host <> "" -> HasPrefix host "[" = false -> colon_free port = true -> req_RemoteAddr r = JoinHostPort host port ->
  (forall c h s, protected_context r host x c s -> Q (n r c h s).2) -> (forall m', Q (m', x)) ->
  Q (protected_group class n r background h (m, x)).2.
Proof.
  intros Hne Hb Hp Hr Hn HQ. unfold protected_group. apply (setupRouter_keeps r host port); try done.
  intros c h' [Hip Ht]. unfold ExtractVersion, RateLimitAuthenticated.
  set (c0 := WithAPIVersion c APIVersionV1).
  set (P := fun (c : RCtx) (s : Middleware L F * X) => s.2 = x /\ c = c0).
  assert (forall c h s, P c s -> Q (RequireAuth uuid_Parse validator (Some (fun jti s => isTokenRevoked jti s.2))
    (ValidateTokenVersion n) r c h s).2) as HR.
  { intros c1 h1 s1 [Hs ->].
    apply (RequireAuth_keeps r (fun c s => protected_context r host x c s)).
    - intros c' token claims p. by apply (granted_context r host x c0).
    - intros c' h2 s2 Hc'. unfold ValidateTokenVersion.
      assert (Q s2) by (destruct s2 as [m2 x2]; destruct Hc' as [Hx2 _]; simpl in Hx2; subst; apply HQ).
      case_match; [done|]. case_match; [done|]. by apply Hn.
    - destruct s1 as [m1 x1]. simpl in Hs. subst. apply HQ. }
  destruct (mw_disabled m); [by apply HR|]. destruct (checkBothLimits _ _ _ _ m) as [v m'].
  by apply (enforce_keeps _ _ _ P).
Qed.
End server.

(** [WithFailClosed] has no effect: without a fallback a request whose check fails is
    forwarded, whatever the setting. *)
Theorem fail_closed_has_no_effect {L F X} `{!RateLimiter L, !RateLimiter F} (clock : time) (class : EndpointClass)
    (next : Handler (Middleware L F * X)) (r : Request) (c : RCtx) (h : gmap string string) (l l' : L) (x : X)
    (e : error) (closed : bool) :
  lim_CheckIPRateLimit (rc_ClientIP c) class (Now clock c) l = (Err e, l') ->
  exists m', RateLimit clock class next r c h (Middleware_New l [WithFailClosed closed], x) = next r c h (m', x).
Proof.
  intros He. pose proof (RateLimit_verdict clock class next r c h (Middleware_New l [WithFailClosed closed]) x eq_refl) as H.
  unfold request_verdict in H. cbn [mw_limiter Middleware_New foldl apply_mw_option mw_fallback] in H.
  rewrite He in H. unfold consult in H. destruct (CB_IsOpen _); eexists; exact H.
Qed.

Module MwExample.
(** A limiter that plays a script, and one that admits three requests. *)
Record Script := mkScript { script : list (res RateLimitResult) }.
Definition play : ST Script error RateLimitResult := fun s =>
  match script s with
  | [] => (Err (EOther "unavailable"), s)
  | v :: rest => (v, mkScript rest)
  end.
#[global] Instance script_limiter : RateLimiter Script := {|
  lim_CheckIPRateLimit := fun _ _ _ => play;
  lim_CheckBothLimits := fun _ _ _ _ => play;
  lim_CheckGlobalThrottle := fun _ => mret true;
|}.
#[global] Instance script_client_limiter : ClientRateLimiter Script := {| clim_Check := fun _ _ _ => play |}.

Record Counter := mkCounter { count : Z }.
Definition tick : ST Counter error RateLimitResult := fun s =>
  (Ok (mkRLR (count s <? 3) false 3 (Z.max 0 (2 - count s)) 0 0), mkCounter (count s + 1)).
#[global] Instance counter_limiter : RateLimiter Counter := {|
  lim_CheckIPRateLimit := fun _ _ _ => tick;
  lim_CheckBothLimits := fun _ _ _ _ => tick;
  lim_CheckGlobalThrottle := fun _ => mret true;
|}.

Definition get (host auth : string) : Request :=
  mkRequest "GET" "/v1/x" (host +:+ ":4000") {[ "Authorization" := "Bearer " +:+ auth ]} ∅ None ∅.
Definition post (q b : string) : Request :=
  mkRequest "POST" "/v1/auth/token" "10.0.0.1:4000" {[ "Content-Type" := "application/x-www-form-urlencoded" ]}
    {[ "client_id" := q ]} (Some {[ "client_id" := b ]}) ∅.
Definition allow : RateLimitResult := mkRLR true false 10 9 0 0.
Definition down : res RateLimitResult := Err (EOther "unavailable").
Definition outage : Middleware Script Counter :=
  Middleware_New (mkScript [Ok allow; down; down; down; down; down; Ok allow; Ok allow; Ok allow])
    [WithFallbackLimiter (Some (mkCounter 0))].
End MwExample.

Lemma rate_limit_decides_witness :
  exists s', RateLimit 0 ClassRead echo (MwExample.get "10.0.0.1" "t") background ∅ (MwExample.outage, tt) =
    (Responds (mkResponse 200 (limit_headers false MwExample.allow ∅) NoBody), s').
Proof.
  pose proof (proj1 (rate_limit_decides (fun _ => "u") 0 ClassRead echo (MwExample.get "10.0.0.1" "t") background ∅
    MwExample.outage tt eq_refl)) as H.
  eexists. exact H.
Defined.


Lemma client_id_unambiguous_witness :
  exists resp, RateLimitClient Some 0 echo (MwExample.post "a" "b") background ∅
    (NewClientMiddleware (F := MwExample.Script) (MwExample.mkScript []) false [], tt) =
    (Responds resp, (NewClientMiddleware (MwExample.mkScript []) false [], tt)) /\ resp_Status resp = 400.
Proof.
  apply (proj1 (client_id_unambiguous Some 0 echo (MwExample.post "a" "b") background ∅
    (NewClientMiddleware (F := MwExample.Script) (MwExample.mkScript []) false []) tt {[ "client_id" := "b" ]}
    eq_refl eq_refl eq_refl)); discriminate.
Defined.

(** The endpoint of the witness answers with the user it sees. *)
Definition whoami : Handler (Middleware MwExample.Script MwExample.Counter * list string) := fun r c h s =>
  (Responds (mkResponse (Z.of_N (rc_UserID c)) h NoBody), s).

Lemma protected_group_authenticates_witness :
  protected_group (Addr := string) (Prefix := string) Some Some (fun _ _ => false) (fun _ => "u") HttpExample.parse
    HttpExample.validate HttpExample.revoked (mkDeviceConfig None "") 5 "id" ClassRead whoami
    (MwExample.get "10.0.0.1" "forged") background ∅ (MwExample.outage, []) =
  protected_group (Addr := string) (Prefix := string) Some Some (fun _ _ => false) (fun _ => "u") HttpExample.parse
    HttpExample.validate HttpExample.revoked (mkDeviceConfig None "") 5 "id" ClassRead echo
    (MwExample.get "10.0.0.1" "forged") background ∅ (MwExample.outage, []).
Proof.
  apply (protected_group_authenticates Some Some (fun _ _ => false) (fun _ => "u") HttpExample.parse
    HttpExample.validate HttpExample.revoked (mkDeviceConfig None "") 5 "id" ClassRead
    (MwExample.get "10.0.0.1" "forged") "10.0.0.1" "4000"); try done.
  intros c h s (_ & _ & _ & _ & token & claims & p & (Hh & Hv & _) & _).
  assert (token = "forged") as -> by (injection Hh; done). discriminate Hv.
Defined.

(** ** The wiring shares limits *)

Module Wired.
Definition limiter : @Limiter InMemoryBucketStore := NewLimiter (mkRLState (Bucket_New []) []) (Throttle_New []).
#[local] Instance wired_limiter : RateLimiter (@Limiter InMemoryBucketStore) :=
  Limiter_limiter DefaultRateConfig (∅ : InMemoryAllowlistStore).
Definition middleware : Middleware (@Limiter InMemoryBucketStore) MwExample.Script := Middleware_New limiter [].

Fixpoint serve_all {S} (stack : time -> Handler S) (reqs : list (time * Request)) (s : S) : list Z :=
  match reqs with
  | [] => []
  | (now, r) :: rest =>
      match stack now r background ∅ s with
      | (Responds a, s') => resp_Status a :: serve_all stack rest s'
      | (Panics _, s') => 0 :: serve_all stack rest s'
      end
  end.

(** Tokens are user numbers. *)
Definition validate (token : string) : res JWTClaims := Ok (mkClaims token "8" "" token "v1").
Definition sensitive (now : time) : Handler (Middleware (@Limiter InMemoryBucketStore) MwExample.Script * list string) :=
  protected_group (Addr := string) (Prefix := string) Some Some (fun _ _ => false) (fun u => pretty u) HttpExample.parse
    validate HttpExample.revoked (mkDeviceConfig None "") now "id" ClassSensitive echo.

(** The protected groups install the user limiter in front of authentication, where no
    user is known yet: all users share one allowance.  Twenty requests of one user,
    each from another address, exhaust it, and the first request of another user is
    denied for the rest of the hour. *)
Theorem user_allowance_is_shared :
  serve_all sensitive
    (((fun i => (Z.of_nat i, MwExample.get ("10.0.0." +:+ pretty (Z.of_nat i)) "7")) <$> seq 1 20) ++
     [(30 * Minute, MwExample.get "192.0.2.1" "8")]) (middleware, []) = replicate 20 200 ++ [429].
Proof. vm_compute. reflexivity. Qed.

Definition admin (now : time) : Handler (Middleware (@Limiter InMemoryBucketStore) MwExample.Script * unit) :=
  setupAdminRouter Some now "id" "secret" echo.
Definition admin_request (host token : string) : Request :=
  mkRequest "GET" "/admin/stats" (host +:+ ":4000") {[ "X-Admin-Token" := token ]} ∅ None ∅.

(** The admin server does not install the metadata middleware, so every peer has the
    empty address: ten requests without a valid token, from anywhere, lock the
    administrators out for the rest of the minute. *)
Theorem admin_allowance_is_shared :
  serve_all admin
    (((fun i => (Z.of_nat i, admin_request "203.0.113.9" "guess")) <$> seq 1 10) ++
     [(30 * Second, admin_request "10.0.0.5" "secret"); (Minute + Second, admin_request "10.0.0.5" "secret")])
    (middleware, tt) = replicate 10 401 ++ [429; 200].
Proof. vm_compute. reflexivity. Qed.
End Wired.
