(* ===== verification/AuthHandler.v ===== *)
(** * The auth endpoints: [internal/auth/handler/handler.go], [pkg/platform/httputil] and
    [cmd/server/ratelimit_adapters.go]

    The handlers decode a request, ask the rate limiter, call the auth service and
    write its answer or its error.  The service is a record of operations on the
    program's state, the Go interface [Service]; the rate limiter is a second record,
    the interface [RateLimitPort], and [RateLimitAdapter] implements it with the
    lockout service and the request limiter.  Decoding JSON and reading a path
    parameter are arguments. *)
From S2P Require Import Prelude Errors Keys Breaker Ring SlidingWindow BucketStore Lockout Throttle RequestLimit AuthModels TRL AuthStores AuthService AuthSafety Http RateMiddleware.
Local Open Scope Z_scope.

(** ** [httputil]: errors as responses *)

Definition DomainCodeToHTTPStatus (c : Code) : Z :=
  match c with
  | CodeNotFound => 404
  | CodeBadRequest | CodeValidation | CodeInvalidInput | CodeInvariantViolation => 400
  | CodeConflict => 409
  | CodeUnauthorized => 401
  | CodeForbidden | CodeInvalidConsent | CodeMissingConsent => 403
  | CodePolicyViolation => 412
  | CodeTimeout => 504
  | CodeInternal => 500
  | CodeInvalidGrant | CodeInvalidClient | CodeUnsupportedGrantType | CodeInvalidRequest | CodeAccessDenied => 400
  end.

Definition DomainCodeToHTTPCode (c : Code) : string :=
  match c with
  | CodeNotFound => "not_found"
  | CodeBadRequest | CodeInvalidInput => "bad_request"
  | CodeValidation | CodeInvariantViolation => "validation_error"
  | CodeConflict => "conflict"
  | CodeUnauthorized => "unauthorized"
  | CodeForbidden => "forbidden"
  | CodeInvalidConsent => "invalid_consent"
  | CodeMissingConsent => "missing_consent"
  | CodePolicyViolation => "policy_violation"
  | CodeTimeout => "registry_timeout"
  | CodeInternal => "internal_error"
  | CodeInvalidGrant => "invalid_grant"
  | CodeInvalidClient => "invalid_client"
  | CodeUnsupportedGrantType => "unsupported_grant_type"
  | CodeInvalidRequest => "invalid_request"
  | CodeAccessDenied => "access_denied"
  end.

Definition WriteError (e : error) (h : gmap string string) : HttpResult :=
  match errors_As e with
  | Some (code, message) =>
      WriteJSON (DomainCodeToHTTPStatus code)
        (("error", JString (DomainCodeToHTTPCode code)) ::
         (if negb (str_empty message) && negb (bool_decide (code = CodeInternal))
          then [("error_description", JString message)] else [])) h
  | None => WriteJSON 500 [("error", JString (DomainCodeToHTTPCode CodeInternal))] h
  end.

(** ** The interfaces *)

Record PortResult := mkPort { po_Allowed : bool; po_Remaining : Z; po_RetryAfter : Z; po_ResetAt : time }.

Record LockoutState := mkLockoutState { ls_FailureCount : Z; ls_LockedUntil : option time; ls_RequiresCaptcha : bool }.

(** [ports.RateLimitPort]: identifier, address, time. *)
Record RateLimitPort (S : Type) := mkPortOps {
  port_CheckAuthRateLimit : string -> string -> time -> ST S error PortResult;
  port_RecordAuthFailure : string -> string -> time -> ST S error LockoutState;
  port_ClearAuthFailures : string -> string -> ST S error unit;
}.
Arguments port_CheckAuthRateLimit {S}.
Arguments port_RecordAuthFailure {S}.
Arguments port_ClearAuthFailures {S}.

(** [handler.Service]. *)
Record AuthPort (S : Type) := mkAuthPort {
  svc_Authorize : RCtx -> AuthorizationRequest -> ST S error AuthorizationResult;
  svc_Token : RCtx -> TokenRequest -> ST S error TokenResult;
  svc_UserInfo : RCtx -> string -> ST S error UserInfoResult;
  svc_ListSessions : RCtx -> uuid -> uuid -> ST S error (list SessionSummary);
  svc_RevokeSession : RCtx -> uuid -> uuid -> ST S error unit;
  svc_LogoutAll : RCtx -> uuid -> uuid -> bool -> ST S error LogoutAllResult;
  svc_DeleteUser : RCtx -> uuid -> ST S error unit;
  svc_RevokeToken : RCtx -> string -> string -> ST S error unit;
}.
Arguments svc_Authorize {S}.
Arguments svc_Token {S}.
Arguments svc_UserInfo {S}.
Arguments svc_ListSessions {S}.
Arguments svc_RevokeSession {S}.
Arguments svc_LogoutAll {S}.
Arguments svc_DeleteUser {S}.
Arguments svc_RevokeToken {S}.

Record RevokeTokenRequest := mkRevoke { rtq_Token : string; rtq_ClientID : string; rtq_TokenTypeHint : string }.

Definition RevokeTokenRequest_Normalize (r : RevokeTokenRequest) : RevokeTokenRequest :=
  mkRevoke (TrimSpace (rtq_Token r)) (TrimSpace (rtq_ClientID r)) (TrimSpace (rtq_TokenTypeHint r)).

Definition RevokeTokenRequest_Validate (r : RevokeTokenRequest) : res unit :=
  if str_empty (rtq_Token r) then Err (New CodeValidation "token is required")
  else if negb (str_empty (rtq_TokenTypeHint r))
          && negb (slices_Contains [TokenHintAccessToken; TokenHintRefreshToken] (rtq_TokenTypeHint r))
  then Err (New CodeValidation "token_type_hint must be access_token or refresh_token if provided")
  else Ok tt.

(** ** The adapter of the composition root *)

Section adapter.
Context {S St AL : Type} `{!BucketStore St, !AllowlistStore AL}.
Context (lockCfg : AuthLockoutConfig) (rateCfg : RateConfig) (allowlist : AL).
(** The two services live in the program's state. *)
Context (get_lock : S -> LockState) (set_lock : LockState -> S -> S).
Context (get_req : S -> @RLState St) (set_req : @RLState St -> S -> S).

Definition Adapter_CheckAuthRateLimit (identifier ip : string) (now : time) : ST S error PortResult :=
  authResult ← st_zoom get_lock set_lock (Lockout_Check lockCfg identifier ip now);
  let a := arl_Result authResult in
  if negb (rl_Allowed a) then mret (mkPort false (rl_Remaining a) (rl_RetryAfter a) (rl_ResetAt a))
  else
    ipResult ← st_zoom get_req set_req (CheckIP rateCfg allowlist ip ClassAuth now);
    if negb (rl_Allowed ipResult)
    then mret (mkPort false (rl_Remaining ipResult) (rl_RetryAfter ipResult) (rl_ResetAt ipResult))
    else mret (mkPort true (rl_Remaining ipResult) 0 (rl_ResetAt ipResult)).

Definition Adapter_RecordAuthFailure (identifier ip : string) (now : time) : ST S error LockoutState :=
  lockout ← st_zoom get_lock set_lock (Lockout_RecordFailure lockCfg identifier ip now);
  mret (mkLockoutState (al_FailureCount lockout) (al_LockedUntil lockout) (al_RequiresCaptcha lockout)).

Definition Adapter_ClearAuthFailures (identifier ip : string) : ST S error unit :=
  st_zoom get_lock set_lock (Lockout_Clear identifier ip).

Definition RateLimitAdapter : RateLimitPort S :=
  mkPortOps S Adapter_CheckAuthRateLimit Adapter_RecordAuthFailure Adapter_ClearAuthFailures.
End adapter.

(** ** The handlers *)

Section handlers.
Context {S : Type} (auth : AuthPort S) (ratelimit : option (RateLimitPort S)).
Context (uuid_String : uuid -> string) (uuid_Parse : string -> option uuid) (ToLower : string -> string).
Context (url_Parse : string -> res ParsedURL) (clock : time).
(** [json.Decode] of the request's body as each type, and [chi.URLParam]. *)
Context (decode_authorize : Request -> option AuthorizationRequest) (decode_token : Request -> option TokenRequest).
Context (decode_revoke : Request -> option RevokeTokenRequest) (URLParam : Request -> string -> string).
(** The [Set-Cookie] header for the device identifier. *)
Context (device_cookie : Request -> string -> string).

Definition invalid_body (h : gmap string string) : HttpResult :=
  WriteError (New CodeBadRequest "invalid request body") h.

(** Allowed, and the seconds to wait. *)
Definition Handler_checkRateLimit (identifier clientIP : string) (now : time) (s : S) : (bool * Z) * S :=
  match ratelimit with
  | None => ((true, 0), s)
  | Some port =>
      match port_CheckAuthRateLimit port identifier clientIP now s with
      | (Err _, s') => ((true, 0), s')
      | (Ok r, s') => ((po_Allowed r, po_RetryAfter r), s')
      end
  end.

Definition writeRateLimitError (retryAfter : Z) (h : gmap string string) : HttpResult :=
  WriteJSON 429
    [("error", JString "rate_limit_exceeded"); ("message", JString "Too many requests. Please try again later.");
     ("retry_after", JInt retryAfter)]
    (<["Retry-After" := pretty retryAfter]> h).

Definition optional_field (k v : string) : list (string * jval) := if str_empty v then [] else [(k, JString v)].

Definition authorization_json (r : AuthorizationResult) : list (string * jval) :=
  [("code", JString (az_Code r)); ("redirect_uri", JString (az_RedirectURI r))] ++ optional_field "device_id" (az_DeviceID r).

Definition token_json (r : TokenResult) : list (string * jval) :=
  [("access_token", JString (tr_AccessToken r)); ("id_token", JString (tr_IDToken r));
   ("refresh_token", JString (tr_RefreshToken r)); ("expires_in", JInt (tr_ExpiresIn r)); ("token_type", JString "Bearer")]
  ++ optional_field "scope" (tr_Scope r).

Definition userinfo_json (r : UserInfoResult) : list (string * jval) :=
  [("sub", JString (uuid_String (ui_Sub r))); ("email", JString (ui_Email r)); ("email_verified", JBool (ui_EmailVerified r));
   ("given_name", JString (ui_GivenName r)); ("family_name", JString (ui_FamilyName r)); ("name", JString (ui_Name r))].

Definition session_json (x : SessionSummary) : list (string * jval) :=
  [("session_id", JString (uuid_String (ss_SessionID x))); ("device", JString (ss_Device x))] ++
  optional_field "location" (ss_Location x) ++
  [("created_at", JTime (ss_CreatedAt x)); ("last_activity", JTime (ss_LastActivity x));
   ("is_current", JBool (ss_IsCurrent x)); ("status", JString (ss_Status x))].

Definition HandleAuthorize : Handler S := fun r c h s =>
  match decode_authorize r with
  | None => (invalid_body h, s)
  | Some req =>
      let '((allowed, retryAfter), s) := Handler_checkRateLimit (aq_Email req) (rc_ClientIP c) (Now clock c) s in
      if negb allowed then (writeRateLimitError retryAfter h, s)
      else
        let req := AuthorizationRequest_Normalize ToLower req in
        match AuthorizationRequest_Validate url_Parse req with
        | Err e => (WriteError e h, s)
        | Ok _ =>
            match svc_Authorize auth c req s with
            | (Err e, s') => (WriteError e h, s')
            | (Ok res, s') =>
                let h := if str_empty (az_DeviceID res) then h
                         else <["Set-Cookie" := device_cookie r (az_DeviceID res)]> h in
                (WriteJSON 200 (authorization_json res) h, s')
            end
        end
  end.

Definition HandleToken : Handler S := fun r c h s =>
  match decode_token r with
  | None => (invalid_body h, s)
  | Some req =>
      let '((allowed, retryAfter), s) :=
        if str_empty (tq_ClientID req) then ((true, 0), s)
        else Handler_checkRateLimit (tq_ClientID req) (rc_ClientIP c) (Now clock c) s in
      if negb allowed then (writeRateLimitError retryAfter h, s)
      else
        let req := TokenRequest_Normalize req in
        match TokenRequest_Validate req with
        | Err e => (WriteError e h, s)
        | Ok _ =>
            match svc_Token auth c req s with
            | (Err e, s') => (WriteError e h, s')
            | (Ok res, s') => (WriteJSON 200 (token_json res) h, s')
            end
        end
  end.

(** [requireUserIDFromContext] and [requireSessionIDFromContext]. *)
Definition require_id (u : uuid) : res uuid :=
  if IsNil u then Err (New CodeUnauthorized "invalid token") else Ok u.

Definition requireSessionIDFromPath (r : Request) : res uuid :=
  match ParseSessionID uuid_Parse (URLParam r "session_id") with
  | Err _ => Err (New CodeBadRequest "invalid session_id")
  | Ok u => Ok u
  end.

Definition requireUserIDFromPath (r : Request) : res uuid :=
  match ParseUserID uuid_Parse (URLParam r "user_id") with
  | Err _ => Err (New CodeBadRequest "invalid user_id")
  | Ok u => Ok u
  end.

Definition HandleUserInfo : Handler S := fun r c h s =>
  match require_id (rc_SessionID c) with
  | Err e => (WriteError e h, s)
  | Ok sessionID =>
      match svc_UserInfo auth c (uuid_String sessionID) s with
      | (Err e, s') => (WriteError e h, s')
      | (Ok res, s') => (WriteJSON 200 (userinfo_json res) h, s')
      end
  end.

Definition HandleListSessions : Handler S := fun r c h s =>
  match require_id (rc_UserID c) with
  | Err e => (WriteError e h, s)
  | Ok userID =>
      match require_id (rc_SessionID c) with
      | Err e => (WriteError e h, s)
      | Ok currentSessionID =>
          match svc_ListSessions auth c userID currentSessionID s with
          | (Err e, s') => (WriteError e h, s')
          | (Ok res, s') => (WriteJSON 200 [("sessions", JArray (session_json <$> res))] h, s')
          end
      end
  end.

Definition HandleRevokeSession : Handler S := fun r c h s =>
  match require_id (rc_UserID c) with
  | Err e => (WriteError e h, s)
  | Ok userID =>
      match requireSessionIDFromPath r with
      | Err e => (WriteError e h, s)
      | Ok sessionID =>
          match svc_RevokeSession auth c userID sessionID s with
          | (Err e, s') => (WriteError e h, s')
          | (Ok _, s') =>
              (WriteJSON 200 [("revoked", JBool true); ("session_id", JString (uuid_String sessionID));
                              ("message", JString "Session revoked successfully")] h, s')
          end
      end
  end.

Definition HandleLogoutAll : Handler S := fun r c h s =>
  match require_id (rc_UserID c) with
  | Err e => (WriteError e h, s)
  | Ok userID =>
      match require_id (rc_SessionID c) with
      | Err e => (WriteError e h, s)
      | Ok currentSessionID =>
          let exceptCurrent := negb (bool_decide (Get (req_Query r) "except_current" = "false")) in
          match svc_LogoutAll auth c userID currentSessionID exceptCurrent s with
          | (Err e, s') => (WriteError e h, s')
          | (Ok res, s') =>
              let message := if la_RevokedCount res =? 1 then "1 session revoked"
                             else pretty (la_RevokedCount res) +:+ " sessions revoked" in
              (WriteJSON 200 [("message", JString message); ("revoked_count", JInt (la_RevokedCount res))] h, s')
          end
      end
  end.

Definition HandleAdminDeleteUser : Handler S := fun r c h s =>
  match requireUserIDFromPath r with
  | Err e => (WriteError e h, s)
  | Ok userID =>
      match svc_DeleteUser auth c userID s with
      | (Err e, s') => (WriteError e h, s')
      | (Ok _, s') => (Responds (mkResponse 204 h NoBody), s')
      end
  end.

(** [DecodeAndPrepare]: every validation error of this request is a domain error. *)
Definition HandleRevoke : Handler S := fun r c h s =>
  match decode_revoke r with
  | None => (invalid_body h, s)
  | Some req =>
      let req := RevokeTokenRequest_Normalize req in
      match RevokeTokenRequest_Validate req with
      | Err e => (WriteError e h, s)
      | Ok _ =>
          match svc_RevokeToken auth c (rtq_Token req) (rtq_TokenTypeHint req) s with
          | (Err e, s') => (WriteError e h, s')
          | (Ok _, s') =>
              (WriteJSON 200 [("message", JString "Token revoked successfully"); ("revoked", JBool true)] h, s')
          end
      end
  end.
End handlers.

(** ** Errors *)

(** Errors reach the outside translated and nothing else does: every error answer is
    JSON with a status between 400 and 599; the status is 500 exactly when the error is
    internal or not a domain error, and then the body holds the code [internal_error]
    alone; otherwise it holds the outermost domain error's code and message, never the
    text of a wrapped cause. *)
Theorem internal_errors_stay_inside (e : error) (h : gmap string string) :
  exists status fields,
    WriteError e h = WriteJSON status fields h /\ 400 <= status < 600 /\
    (status = 500 <-> errors_As e = None \/ HasCode e CodeInternal = true) /\
    (status = 500 -> fields = [("error", JString "internal_error")]) /\
    (forall k v, (k, JString v) ∈ fields ->
       exists c m, errors_As e = Some (c, m) /\ (v = m \/ v = DomainCodeToHTTPCode c) \/ v = "internal_error").
Proof.
  unfold WriteError, HasCode. destruct (errors_As e) as [[c m]|].
  - eexists _, _. split; [reflexivity|]. split; [by destruct c|]. split.
    { rewrite bool_decide_eq_true. destruct c; cbn; naive_solver. }
    split.
    { destruct c; try done. cbn. by rewrite andb_false_r. }
    intros k v [Hk|Hk]%elem_of_cons; [injection Hk as -> ->; exists c, m; left; auto|].
    destruct (negb (str_empty m) && _); [|by apply elem_of_nil in Hk].
    apply list_elem_of_singleton in Hk. injection Hk as -> ->. exists c, m. left. auto.
  - eexists _, _. split; [reflexivity|]. split; [done|]. split; [naive_solver|]. split; [done|].
    intros k v Hk. apply list_elem_of_singleton in Hk. injection Hk as -> ->.
    exists CodeInternal, "". by right.
Qed.

(** ** Sessions end to end *)

Lemma RevokeSession_owner_only cfg ctx uid sid s k x :
  as_sessions s !! k = Some x -> s_UserID x <> uid ->
  as_sessions (RevokeSession cfg ctx uid sid s).2 !! k = Some x.
Proof.
  intros Hk Hne. unfold RevokeSession. destruct (IsNil uid); [done|]. destruct (IsNil sid); [done|].
  unfold mbind at 1, st_bind at 1, st_gets at 1. cbv beta iota.
  unfold mbind at 1, st_bind at 1. unfold catch at 1, SessionStore_Execute. auth_unfold.
  destruct (as_sessions s !! sid) as [y|] eqn:Hy; simpl; [|done].
  case_bool_decide as Hu; simpl; [|done].
  destruct (Session_IsRevoked y) eqn:Hrev; simpl; [by rewrite insert_id|].
  assert (k <> sid) as Hks by congruence.
  set (s1 := mkAuth _ _ _ _ _ _).
  assert (as_sessions s1 !! k = Some x) as H1 by (simpl; by rewrite lookup_insert_ne).
  clearbody s1.
  destruct (negb (str_empty (s_LastAccessTokenJTI (Session_ApplyRevocation y (cx_Now ctx)))));
    [destruct (trl_revoke_frame cfg ctx (s_LastAccessTokenJTI (Session_ApplyRevocation y (cx_Now ctx)))
       (fun e => Wrap e CodeInternal "failed to add token to revocation list") s1) as ([[]|] & t & ->)|];
    simpl; repeat (case_match; simplify_eq/=); done.
Qed.

(** The auth service of [AuthService] on the second component of the state. *)
Section wired.
Context {M : Type} (cfg : AuthConfig) (resolveClient : string -> res (ResolvedClient * ResolvedTenant)).
Context (url_Parse : string -> res ParsedURL) (ToLower capitalize : string -> string).
Context (jwt_Parse : string -> res (string * string)) (uuid_Parse_res : string -> res uuid).
Context (fresh : AuthorizeFresh) (gen : TokenGen) (clock : time).

Definition service_ctx (c : RCtx) : Ctx :=
  mkCtx (Now clock c) None None (rc_DeviceID c) (rc_DeviceFingerprint c) clock.

Definition on_auth {A} (m : ST AuthState error A) : ST (M * AuthState) error A :=
  st_zoom snd (fun x s => (s.1, x)) m.

Definition wired_service : AuthPort (M * AuthState) := mkAuthPort _
  (fun c req => on_auth (Authorize cfg resolveClient url_Parse ToLower capitalize (service_ctx c) fresh (Some req)))
  (fun c req => on_auth (Token cfg resolveClient (service_ctx c) gen (Some req)))
  (fun c sid => on_auth (UserInfo uuid_Parse_res sid))
  (fun c u sid => on_auth (ListSessions (service_ctx c) u sid))
  (fun c u sid => on_auth (RevokeSession cfg (service_ctx c) u sid))
  (fun c u sid except => on_auth (LogoutAll cfg (service_ctx c) u sid except))
  (fun c u => on_auth (DeleteUser (service_ctx c) u))
  (fun c tok hint => on_auth (RevokeToken cfg jwt_Parse uuid_Parse_res (service_ctx c) tok hint)).
End wired.

Section end_to_end.
Context {L F Addr Prefix : Type} `{!RateLimiter L, !RateLimiter F}.
Context (ParseMediaType : string -> option string).
Context (ParseAddr : string -> option Addr) (Prefix_Contains : Prefix -> Addr -> bool).
Context (uuid_String : uuid -> string) (uuid_Parse : string -> option uuid) (ToLower capitalize : string -> string).
Context (validator : string -> res JWTClaims) (device : DeviceConfig) (clock : time) (newID : string).
Context (cfg : AuthConfig) (resolveClient : string -> res (ResolvedClient * ResolvedTenant)).
Context (url_Parse : string -> res ParsedURL) (jwt_Parse : string -> res (string * string)).
Context (uuid_Parse_res : string -> res uuid) (fresh : AuthorizeFresh) (gen : TokenGen).
Context (URLParam : Request -> string -> string).

(** The revocation list of the auth module, as the middleware asks it. *)
Definition trl_check (jti : string) (x : AuthState) : res bool := (IsTokenRevoked (service_ctx clock background) jti x).1.

(** [DELETE /v1/auth/sessions/{session_id}] behind the whole stack. *)
Definition delete_session_route : Handler (Middleware L F * AuthState) :=
  protected_group ParseMediaType ParseAddr Prefix_Contains uuid_String uuid_Parse validator trl_check device clock newID
    ClassSensitive
    (HandleRevokeSession
       (wired_service cfg resolveClient url_Parse ToLower capitalize jwt_Parse uuid_Parse_res fresh gen clock)
       uuid_String uuid_Parse URLParam).

(** C11: Nobody ends another user's session: from the request as it arrives at the server
    to the session store, [DELETE /auth/sessions] changes a session only for a request
    that carries a valid token, not on the revocation list, of the session's owner; any
    other request, authenticated or not and whatever session it names, leaves the
    session as it was. *)
Theorem session_deletion_needs_owner (r : Request) (host port : string) (h : gmap string string) (m : Middleware L F)
    (x : AuthState) (k : uuid) (sess : Session) :
  host <> "" -> HasPrefix host "[" = false -> colon_free port = true -> req_RemoteAddr r = JoinHostPort host port ->
  as_sessions x !! k = Some sess ->
  as_sessions (delete_session_route r background h (m, x)).2.2 !! k = Some sess \/
  exists token claims p, grants uuid_Parse validator (Some trl_check) r x token claims p /\ pc_UserID p = s_UserID sess.
Proof.
  intros Hne Hb Hp Hr Hk.
  apply (protected_group_keeps ParseMediaType ParseAddr Prefix_Contains uuid_String uuid_Parse validator trl_check device
    clock newID ClassSensitive r host port (fun s => as_sessions s.2 !! k = Some sess \/
      exists token claims p, grants uuid_Parse validator (Some trl_check) r x token claims p /\ pc_UserID p = s_UserID sess));
    try done; [|by left].
  intros c h' [m' x'] (Hx & _ & _ & _ & token & claims & p & Hg & Hu & _). simpl in Hx. subst x'.
  destruct (decide (pc_UserID p = s_UserID sess)) as [He|He]; [right; by exists token, claims, p|]. left.
  unfold HandleRevokeSession. destruct (require_id (rc_UserID c)) as [u|] eqn:Hq; [|done].
  unfold require_id in Hq. destruct (IsNil (rc_UserID c)); [done|]. injection Hq as <-.
  destruct (requireSessionIDFromPath _ _ _) as [sid|]; [|done]. cbn [svc_RevokeSession wired_service on_auth st_zoom].
  unfold on_auth, st_zoom.
  pose proof (RevokeSession_owner_only cfg (service_ctx clock c) (rc_UserID c) sid x k sess Hk ltac:(by rewrite Hu)) as H.
  cbn [snd]. destruct (RevokeSession cfg (service_ctx clock c) (rc_UserID c) sid x) as [[] x1]; exact H.
Qed.
End end_to_end.

(** ** The lockout is never fed *)

Section lockout.
Context {St AL X : Type} `{!BucketStore St, !AllowlistStore AL}.
Context (lockCfg : AuthLockoutConfig) (rateCfg : RateConfig) (allowlist : AL).

(** The lockout records, the buckets and the rest of the program. *)
Abbreviation Prog := ((LockState * @RLState St) * X)%type (only parsing).

Definition prog_port : RateLimitPort Prog :=
  RateLimitAdapter lockCfg rateCfg allowlist (fun s => s.1.1) (fun l s => ((l, s.1.2), s.2))
    (fun s => s.1.2) (fun q s => ((s.1.1, q), s.2)).

(** A service that works on its own part of the state. *)
Definition keeps_limits (auth : AuthPort Prog) : Prop :=
  (forall c req s, (svc_Authorize auth c req s).2.1 = s.1) /\ (forall c req s, (svc_Token auth c req s).2.1 = s.1).

Lemma Lockout_Check_records i ip now s :
  lk_records (Lockout_Check lockCfg i ip now s).2 = lk_records s.
Proof. unfold Lockout_Check. st_unfold. repeat case_match; by simplify_eq/=. Qed.

Lemma Adapter_Check_records i ip now (s : Prog) :
  lk_records (port_CheckAuthRateLimit prog_port i ip now s).2.1.1 = lk_records s.1.1.
Proof.
  pose proof (Lockout_Check_records i ip now s.1.1) as H. cbn [prog_port RateLimitAdapter port_CheckAuthRateLimit].
  unfold Adapter_CheckAuthRateLimit, mbind, st_bind, st_zoom.
  destruct (Lockout_Check lockCfg i ip now s.1.1) as [[a|e] l]; [|exact H]. destruct (negb _); [exact H|].
  cbn [fst snd]. destruct (CheckIP _ _ _ _ _ _) as [[b|e] q]; [|exact H]. destruct (negb _); exact H.
Qed.

(** Failed logins are never recorded: the handlers ask the lockout service but nothing
    reports a failure to it, so no sequence of authorization and token requests, however
    many fail, changes a lockout record; from a fresh store the lockout never denies. *)
Theorem lockout_never_engages (auth : AuthPort Prog) (ToLower : string -> string) (url_Parse : string -> res ParsedURL)
    (clock : time) (decode_authorize : Request -> option AuthorizationRequest)
    (decode_token : Request -> option TokenRequest) (device_cookie : Request -> string -> string)
    (reqs : list (Request * RCtx * bool)) (s : Prog) :
  keeps_limits auth ->
  let handle (b : bool) := if b then HandleAuthorize auth (Some prog_port) ToLower url_Parse clock decode_authorize device_cookie
                           else HandleToken auth (Some prog_port) clock decode_token in
  lk_records (foldl (fun s '(r, c, b) => (handle b r c ∅ s).2) s reqs).1.1 = lk_records s.1.1.
Proof.
  intros [Ha Ht] handle. revert s. induction reqs as [|[[r c] b] reqs IH]; intros s; [done|]. cbn [foldl]. rewrite IH.
  assert (forall i ip now s, lk_records (Handler_checkRateLimit (Some prog_port) i ip now s).2.1.1 = lk_records s.1.1) as Hc.
  { intros i ip now s'. pose proof (Adapter_Check_records i ip now s') as H. unfold Handler_checkRateLimit.
    by destruct (port_CheckAuthRateLimit prog_port i ip now s') as [[] s1]. }
  unfold handle. destruct b.
  - unfold HandleAuthorize. destruct (decode_authorize r) as [req|]; [|done].
    pose proof (Hc (aq_Email req) (rc_ClientIP c) (Now clock c) s) as H.
    destruct (Handler_checkRateLimit _ _ _ _ s) as [[al ra] s1]. destruct (negb al); [done|].
    destruct (AuthorizationRequest_Validate _ _); [|done].
    pose proof (Ha c (AuthorizationRequest_Normalize ToLower req) s1) as H'.
    destruct (svc_Authorize auth c _ s1) as [[] s2]; cbn in *; by rewrite H'.
  - unfold HandleToken. destruct (decode_token r) as [req|]; [|done].
    pose proof (Hc (tq_ClientID req) (rc_ClientIP c) (Now clock c) s) as H.
    destruct (str_empty (tq_ClientID req)).
    + cbn [negb]. destruct (TokenRequest_Validate _); [|done]. pose proof (Ht c (TokenRequest_Normalize req) s) as H'.
      destruct (svc_Token auth c _ s) as [[] s2]; cbn in *; by rewrite H'.
    + destruct (Handler_checkRateLimit _ _ _ _ s) as [[al ra] s1]. destruct (negb al); [done|].
      destruct (TokenRequest_Validate _); [|done]. pose proof (Ht c (TokenRequest_Normalize req) s1) as H'.
      destruct (svc_Token auth c _ s1) as [[] s2]; cbn in *; by rewrite H'.
Qed.
End lockout.

(** ** Witness and the double count *)

Module HandlerExample.
Definition fresh : AuthorizeFresh := mkFresh 1 2 3 "c" "d" "n".
(** Tokens are user numbers in unary, as the identifiers are. *)
Definition validate (token : string) : res JWTClaims := Ok (mkClaims token "uxx" "" "jti" "v1").
Definition show (u : uuid) : string := pretty u.
Definition parse (s : string) : option uuid := Some (N.of_nat (String.length s)).
Definition param (r : Request) (k : string) : string := "eleven----.".
Definition route : Handler (Middleware MwExample.Script MwExample.Counter * AuthState) :=
  delete_session_route (Addr := string) (Prefix := string) Some Some (fun _ _ => false) show parse (fun s => s) (fun s => s)
    validate (mkDeviceConfig None "") 100 "id" AuthExample.cfg AuthExample.resolveClient (fun _ => Err (EOther "url"))
    (fun _ => Err (EOther "jwt")) (fun _ => Err (EOther "uuid")) fresh AuthExample.gen param.
Definition delete (token : string) : Request :=
  mkRequest "DELETE" "/v1/auth/sessions/11" "10.0.0.1:4000" {[ "Authorization" := "Bearer " +:+ token ]} ∅ None ∅.

(** The auth group: the middleware's limiter and the handler's adapter are the same service. *)
Definition Prog : Type := Middleware (@Limiter InMemoryBucketStore) MwExample.Script * LockState.
#[local] Instance wired_limiter : RateLimiter (@Limiter InMemoryBucketStore) :=
  Limiter_limiter DefaultRateConfig (∅ : InMemoryAllowlistStore).
Definition get_req (s : Prog) : @RLState InMemoryBucketStore := lm_requests (mw_limiter s.1).
Definition set_req (q : @RLState InMemoryBucketStore) (s : Prog) : Prog :=
  let m := s.1 in
  (mkMiddleware (NewLimiter q (lm_globalThrottle (mw_limiter m))) (mw_disabled m) (mw_failClosed m) (mw_supportURL m)
     (mw_ipBreaker m) (mw_combinedBreaker m) (mw_fallback m), s.2).
Definition port : RateLimitPort Prog :=
  RateLimitAdapter DefaultAuthLockoutConfig DefaultRateConfig (∅ : InMemoryAllowlistStore) snd (fun l s => (s.1, l))
    get_req set_req.
Definition refuse {A} : ST Prog error A := st_fail (New CodeInvalidGrant "invalid code").
Definition service : AuthPort Prog :=
  mkAuthPort Prog (fun _ _ => refuse) (fun _ _ => refuse) (fun _ _ => refuse) (fun _ _ _ => refuse) (fun _ _ _ => refuse)
    (fun _ _ _ _ => refuse) (fun _ _ => refuse) (fun _ _ _ => refuse).
Definition token_route (now : time) : Handler Prog :=
  RateLimit now ClassAuth (HandleToken service (Some port) now
    (fun _ => Some (mkTokenRequest "authorization_code" "web" "authz_x" "https://c/cb" ""))).
End HandlerExample.

Lemma session_deletion_needs_owner_witness :
  as_sessions (HandlerExample.route (HandlerExample.delete "xx") background ∅ (MwExample.outage, AuthExample.s0)).2.2
    !! 11%N = Some AuthExample.other \/
  exists token claims p,
    grants HandlerExample.parse HandlerExample.validate (Some (trl_check 100)) (HandlerExample.delete "xx") AuthExample.s0
      token claims p /\ pc_UserID p = s_UserID AuthExample.other.
Proof.
  apply (session_deletion_needs_owner Some Some (fun _ _ => false) HandlerExample.show HandlerExample.parse (fun s => s)
    (fun s => s) HandlerExample.validate (mkDeviceConfig None "") 100 "id" AuthExample.cfg AuthExample.resolveClient
    (fun _ => Err (EOther "url")) (fun _ => Err (EOther "jwt")) (fun _ => Err (EOther "uuid")) HandlerExample.fresh
    AuthExample.gen HandlerExample.param (HandlerExample.delete "xx") "10.0.0.1" "4000"); done.
Defined.

(** User 2 (of the two-letter token) cannot delete the session of user 1; user 1 can. *)
Example session_deletion_runs :
  as_sessions (HandlerExample.route (HandlerExample.delete "xx") background ∅ (MwExample.outage, AuthExample.s0)).2.2
    !! 11%N = Some AuthExample.other /\
  (Session_IsRevoked <$> as_sessions (HandlerExample.route (HandlerExample.delete "x") background ∅
    (MwExample.outage, AuthExample.s0)).2.2 !! 11%N) = Some true.
Proof. vm_compute. split; reflexivity. Qed.

(** The address of an authentication request is counted twice against the same bucket, by
    the middleware and by the handler's adapter: the sixth token request within a minute
    is refused, at a limit of ten. *)
Theorem auth_requests_count_twice :
  GetIPLimit DefaultRateConfig ClassAuth = Some (10, Minute) /\
  Wired.serve_all (fun now r c h s => HandlerExample.token_route now r (WithClientMetadata c "10.0.0.1" "") h s)
    ((fun i => (Z.of_nat i, MwExample.get "10.0.0.1" "")) <$> seq 1 6) (Wired.middleware, mkLS ∅ []) =
  replicate 5 400 ++ [429].
Proof. split; [reflexivity|]. vm_compute. reflexivity. Qed.
