(* ===== verification/AuthSql.v ===== *)
(** * The SQL stores of the auth module
    [internal/auth/store/session/store_postgres.go],
    [internal/auth/store/authorization-code/store_postgres.go],
    [internal/auth/store/refresh-token/store_postgres.go],
    [internal/auth/store/user/store_postgres.go],
    [internal/auth/store/revocation/postgres.go] and the queries of
    [internal/auth/store/sqlc/]

    These are the stores the server uses when a database is configured.  The tables
    have the columns, keys, checks and references of [migrations/000003] to
    [000006] and [000010]; of the tables of other components only the columns the
    references look at are kept. *)
From S2P Require Import Prelude Errors AuthModels TRL AuthStores SqlDb.
Open Scope Z_scope.

(** ** Rows *)

Record SessionRow := mkSessionRow {
  sr_ID : uuid;
  sr_UserID : uuid;
  sr_ClientID : uuid;
  sr_TenantID : uuid;
  sr_RequestedScope : string;
  sr_Status : string;
  sr_LastRefreshedAt : option time;
  sr_LastAccessTokenJti : string;
  sr_DeviceID : string;
  sr_DeviceFingerprintHash : string;
  sr_DeviceDisplayName : string;
  sr_ApproximateLocation : string;
  sr_CreatedAt : time;
  sr_ExpiresAt : time;
  sr_LastSeenAt : time;
  sr_RevokedAt : option time;
}.

Record CodeRow := mkCodeRow {
  cr_ID : uuid;
  cr_Code : string;
  cr_SessionID : uuid;
  cr_RedirectUri : string;
  cr_ExpiresAt : time;
  cr_Used : bool;
  cr_CreatedAt : time;
}.

Record TokenRow := mkTokenRow {
  tr_ID : uuid;
  tr_Token : string;
  tr_SessionID : uuid;
  tr_ExpiresAt : time;
  tr_Used : bool;
  tr_LastRefreshedAt : option time;
  tr_CreatedAt : time;
}.

Record UserRow := mkUserRow {
  ur_ID : uuid;
  ur_TenantID : uuid;
  ur_Email : string;
  ur_FirstName : string;
  ur_LastName : string;
  ur_Verified : bool;
  ur_Status : string;
  ur_CreatedAt : time;
  ur_UpdatedAt : time;
}.

Record RevocationRow := mkRevocationRow { rv_Jti : string; rv_ExpiresAt : time }.

Record AuthTables := mkAT {
  at_users : list UserRow;
  at_sessions : list SessionRow;
  at_codes : list CodeRow;
  at_tokens : list TokenRow;
  at_revocations : list RevocationRow;
  (** The keys of [tenants] and [clients], and [created_by] of [rate_limit_allowlist]. *)
  at_tenants : list uuid;
  at_clients : list uuid;
  at_created_by : list uuid;
}.

Definition with_users (l : list UserRow) (t : AuthTables) : AuthTables :=
  mkAT l (at_sessions t) (at_codes t) (at_tokens t) (at_revocations t) (at_tenants t) (at_clients t) (at_created_by t).
Definition with_sessions (l : list SessionRow) (t : AuthTables) : AuthTables :=
  mkAT (at_users t) l (at_codes t) (at_tokens t) (at_revocations t) (at_tenants t) (at_clients t) (at_created_by t).
Definition with_codes (l : list CodeRow) (t : AuthTables) : AuthTables :=
  mkAT (at_users t) (at_sessions t) l (at_tokens t) (at_revocations t) (at_tenants t) (at_clients t) (at_created_by t).
Definition with_tokens (l : list TokenRow) (t : AuthTables) : AuthTables :=
  mkAT (at_users t) (at_sessions t) (at_codes t) l (at_revocations t) (at_tenants t) (at_clients t) (at_created_by t).
Definition with_revocations (l : list RevocationRow) (t : AuthTables) : AuthTables :=
  mkAT (at_users t) (at_sessions t) (at_codes t) (at_tokens t) l (at_tenants t) (at_clients t) (at_created_by t).

Section authsql.
Context {W : Type} (drv : Driver W) `{!PgTypes, !StringsJson}.

Abbreviation QA A := (ST (DB W AuthTables) dberr A) (only parsing).
Abbreviation SA A := (ST (DB W AuthTables) error A) (only parsing).

(** ** The schema *)

Definition session_columns (r : SessionRow) : option string :=
  constraints
    [varchar 30 (sr_Status r); varchar 255 (sr_LastAccessTokenJti r); varchar 255 (sr_DeviceID r);
     varchar 255 (sr_DeviceFingerprintHash r); varchar 255 (sr_DeviceDisplayName r); varchar 255 (sr_ApproximateLocation r);
     check_that (has ["pending_consent"; "active"; "revoked"] (sr_Status r));
     check_that (match jsonb_array_length (sr_RequestedScope r) with Some n => 0 <? n | None => false end);
     check_that (sr_CreatedAt r <? sr_ExpiresAt r)].

Definition session_references (t : AuthTables) (r : SessionRow) : option string :=
  constraints
    [refers_to (has (ur_ID <$> at_users t) (sr_UserID r)); refers_to (has (at_clients t) (sr_ClientID r));
     refers_to (has (at_tenants t) (sr_TenantID r))].

(** The values of a statement as the columns keep them. *)
Definition session_stored (r : SessionRow) : result dberr SessionRow :=
  match jsonb (sr_RequestedScope r) with
  | None => Err (PgError "22P02")
  | Some scope =>
      Ok (mkSessionRow (sr_ID r) (sr_UserID r) (sr_ClientID r) (sr_TenantID r) scope (sr_Status r)
            (ts <$> sr_LastRefreshedAt r) (sr_LastAccessTokenJti r) (sr_DeviceID r) (sr_DeviceFingerprintHash r)
            (sr_DeviceDisplayName r) (sr_ApproximateLocation r) (ts (sr_CreatedAt r)) (ts (sr_ExpiresAt r))
            (ts (sr_LastSeenAt r)) (ts <$> sr_RevokedAt r))
  end.

Definition code_columns (r : CodeRow) : option string :=
  constraints
    [varchar 255 (cr_Code r); varchar 2048 (cr_RedirectUri r); check_that (1 <=? char_length (cr_Code r));
     check_that (1 <=? char_length (cr_RedirectUri r))].

Definition token_columns (r : TokenRow) : option string :=
  constraints [varchar 255 (tr_Token r); check_that (1 <=? char_length (tr_Token r))].

Definition user_columns (r : UserRow) : option string :=
  constraints
    [varchar 255 (ur_Email r); varchar 255 (ur_FirstName r); varchar 255 (ur_LastName r); varchar 20 (ur_Status r);
     check_that (1 <=? char_length (ur_Email r)); check_that (has ["active"; "inactive"] (ur_Status r))].

(** [ON DELETE CASCADE] from sessions to codes and tokens, and from users to sessions. *)
Definition drop_sessions (P : SessionRow -> bool) (t : AuthTables) : AuthTables :=
  let gone := sr_ID <$> select_where P (at_sessions t) in
  with_tokens (delete_where (fun r => has gone (tr_SessionID r)) (at_tokens t))
    (with_codes (delete_where (fun r => has gone (cr_SessionID r)) (at_codes t))
       (with_sessions (delete_where P (at_sessions t)) t)).

Definition drop_users (P : UserRow -> bool) (t : AuthTables) : AuthTables :=
  let gone := ur_ID <$> select_where P (at_users t) in
  drop_sessions (fun r => has gone (sr_UserID r)) (with_users (delete_where P (at_users t)) t).

(** ** Session queries *)

Definition CreateSession (arg : SessionRow) : QA unit :=
  stmt drv (fun _ t =>
    match session_stored arg with
    | Err e => Err e
    | Ok r =>
        match constraints [session_columns r; unique_that (negb (has (sr_ID <$> at_sessions t) (sr_ID r)));
                           session_references t r] with
        | Some c => Err (PgError c)
        | None => Ok (tt, with_sessions (at_sessions t ++ [r]) t)
        end
    end).

Definition GetSessionByID (id : uuid) : QA SessionRow :=
  query drv (fun t => one_row (select_where (fun r => bool_decide (sr_ID r = id)) (at_sessions t))).

(** [FOR UPDATE] also locks the row; a transaction is atomic in this model. *)
Definition GetSessionForUpdate (id : uuid) : QA SessionRow :=
  query drv (fun t => one_row (select_where (fun r => bool_decide (sr_ID r = id)) (at_sessions t))).

Definition sql_ListSessions : QA (list SessionRow) := query drv (fun t => Ok (at_sessions t)).

Definition ListSessionsByUser (userID : uuid) : QA (list SessionRow) :=
  query drv (fun t => Ok (select_where (fun r => bool_decide (sr_UserID r = userID)) (at_sessions t))).

Definition DeleteSessionsByUser (userID : uuid) : QA Z :=
  stmt drv (fun _ t =>
    let P := fun r => bool_decide (sr_UserID r = userID) in Ok (rows_affected P (at_sessions t), drop_sessions P t)).

Definition DeleteExpiredSessions (expiresAt : time) : QA Z :=
  stmt drv (fun _ t =>
    let P := fun r => sr_ExpiresAt r <? ts expiresAt in Ok (rows_affected P (at_sessions t), drop_sessions P t)).

(** Every column but the key is assigned. *)
Definition update_session_rows (arg : SessionRow) (t : AuthTables) : result dberr (Z * AuthTables) :=
  let P := fun r => bool_decide (sr_ID r = sr_ID arg) in
  match session_stored arg with
  | Err e => Err e
  | Ok r =>
      if rows_affected P (at_sessions t) =? 0 then Ok (0, t)
      else match constraints [session_columns r; session_references t r] with
           | Some c => Err (PgError c)
           | None => Ok (rows_affected P (at_sessions t), with_sessions (update_where P (fun _ => r) (at_sessions t)) t)
           end
  end.

Definition UpdateSession (arg : SessionRow) : QA Z := stmt drv (fun _ => update_session_rows arg).

(** ** The session store *)

(** [models.SessionStatus(row.Status)]. *)
Definition SessionStatus_of (s : string) : SessionStatus :=
  if bool_decide (s = "pending_consent") then SessionStatusPendingConsent
  else if bool_decide (s = "active") then SessionStatusActive
  else if bool_decide (s = "revoked") then SessionStatusRevoked
  else SessionStatusOther s.

Definition toSession (row : SessionRow) : res Session :=
  scopes ← (if str_empty (sr_RequestedScope row) then Ok []
            else match strings_Unmarshal (sr_RequestedScope row) with
                 | Err e => Err (EWrap "unmarshal session scopes" e)
                 | Ok l => Ok l
                 end);
  Ok (mkSession (sr_ID row) (sr_UserID row) (sr_ClientID row) (sr_TenantID row) scopes (SessionStatus_of (sr_Status row))
        (sr_LastRefreshedAt row) (sr_LastAccessTokenJti row)
        (mkBinding (sr_DeviceID row) (sr_DeviceFingerprintHash row) (sr_DeviceDisplayName row) (sr_ApproximateLocation row))
        (sr_CreatedAt row) (sr_ExpiresAt row) (sr_LastSeenAt row) (sr_RevokedAt row)).

(** The parameters of [CreateSession] and [UpdateSession]. *)
Definition session_params (scopeBytes : string) (s : Session) : SessionRow :=
  mkSessionRow (s_ID s) (s_UserID s) (s_ClientID s) (s_TenantID s) scopeBytes (SessionStatus_text (s_Status s))
    (s_LastRefreshedAt s) (s_LastAccessTokenJTI s) (db_DeviceID (s_Binding s)) (db_FingerprintHash (s_Binding s))
    (db_DisplayName (s_Binding s)) (db_ApproximateLocation (s_Binding s)) (s_CreatedAt s) (s_ExpiresAt s)
    (s_LastSeenAt s) (s_RevokedAt s).

Definition marshal_scopes (s : Session) : res string :=
  match strings_Marshal (s_RequestedScope s) with
  | Err e => Err (EWrap "marshal session scopes" e)
  | Ok b => Ok b
  end.

Definition session_not_found : error := EWrap "session not found" (EVal ErrNotFound).

(** A nil argument is [None]. *)
Definition SessionPg_Create (session : option Session) : SA unit :=
  match session with
  | None => st_fail (EOther "session is required")
  | Some s =>
      scopeBytes ← st_lift (marshal_scopes s);
      wrapped "create session" (CreateSession (session_params scopeBytes s))
  end.

Definition scan_session (row : SessionRow) : res Session :=
  match toSession row with Err e => Err (EWrap "scan session" e) | Ok s => Ok s end.

Definition SessionPg_FindByID (sessionID : uuid) : SA Session :=
  row ← or_not_found session_not_found "find session by id" (GetSessionByID sessionID);
  st_lift (scan_session row).

(** The conversion loop stops at the first row that does not scan. *)
Fixpoint scan_sessions (rows : list SessionRow) : res (list Session) :=
  match rows with
  | [] => Ok []
  | row :: rows' => s ← scan_session row; l ← scan_sessions rows'; Ok (s :: l)
  end.

Definition SessionPg_ListByUser (userID : uuid) : SA (list Session) :=
  rows ← wrapped "list sessions by user" (ListSessionsByUser userID); st_lift (scan_sessions rows).

Definition SessionPg_ListAll : SA (gmap uuid Session) :=
  rows ← wrapped "list sessions" sql_ListSessions;
  sessions ← st_lift (scan_sessions rows);
  mret (foldl (fun m s => <[s_ID s := s]> m) ∅ sessions).

Definition SessionPg_updateSession (s : Session) : SA unit :=
  scopeBytes ← st_lift (marshal_scopes s);
  rows ← wrapped "update session" (UpdateSession (session_params scopeBytes s));
  if rows =? 0 then st_fail session_not_found else mret tt.

Definition SessionPg_UpdateSession (session : option Session) : SA unit :=
  match session with
  | None => st_fail (EOther "session is required")
  | Some s => SessionPg_updateSession s
  end.

Definition SessionPg_DeleteSessionsByUser (userID : uuid) : SA unit :=
  rows ← wrapped "delete sessions by user" (DeleteSessionsByUser userID);
  if rows =? 0 then st_fail session_not_found else mret tt.

Definition SessionPg_DeleteExpiredSessions (now : time) : SA Z :=
  wrapped "delete expired sessions" (DeleteExpiredSessions now).

Definition tx_error (prefix : string) (m : string) : error := EWrap prefix (EOther m).

Definition SessionPg_RevokeSessionIfActive (sessionID : uuid) (now : time) : SA unit :=
  inTx drv (tx_error "begin revoke session tx") (tx_error "commit revoke session")
    (row ← or_not_found (EVal ErrNotFound) "find session for revoke" (GetSessionForUpdate sessionID);
     session ← st_lift (scan_session row);
     match Session_CanRevoke session with
     | Err _ => st_fail (EVal ErrSessionRevoked)
     | Ok _ =>
         SessionPg_updateSession (Session_ApplyRevocation session now);; mret (TxCommit tt)
     end).

Definition SessionPg_Execute (sessionID : uuid) (validate : Session -> res unit) (mutate : Session -> Session) : SA Session :=
  inTx drv (tx_error "begin session execute tx") (tx_error "commit session execute")
    (row ← or_not_found (EVal ErrNotFound) "find session for execute" (GetSessionForUpdate sessionID);
     session ← st_lift (scan_session row);
     _ ← st_lift (validate session);
     let session := mutate session in
     SessionPg_updateSession session;; mret (TxCommit session)).

(** ** Authorization codes *)

Definition code_not_found : error := EWrap "authorization code not found" (EVal ErrNotFound).

Definition CreateAuthorizationCode (arg : CodeRow) : QA unit :=
  stmt drv (fun _ t =>
    let r := mkCodeRow (cr_ID arg) (cr_Code arg) (cr_SessionID arg) (cr_RedirectUri arg) (ts (cr_ExpiresAt arg)) (cr_Used arg)
               (ts (cr_CreatedAt arg)) in
    match constraints [code_columns r; unique_that (negb (has (cr_ID <$> at_codes t) (cr_ID r)));
                       unique_that (negb (has (cr_Code <$> at_codes t) (cr_Code r)));
                       refers_to (has (sr_ID <$> at_sessions t) (cr_SessionID r))] with
    | Some c => Err (PgError c)
    | None => Ok (tt, with_codes (at_codes t ++ [r]) t)
    end).

Definition GetAuthorizationCodeByCode (code : string) : QA CodeRow :=
  query drv (fun t => one_row (select_where (fun r => bool_decide (cr_Code r = code)) (at_codes t))).
Definition GetAuthorizationCodeForUpdate (code : string) : QA CodeRow :=
  query drv (fun t => one_row (select_where (fun r => bool_decide (cr_Code r = code)) (at_codes t))).

Definition set_code_used (b : bool) (r : CodeRow) : CodeRow :=
  mkCodeRow (cr_ID r) (cr_Code r) (cr_SessionID r) (cr_RedirectUri r) (cr_ExpiresAt r) b (cr_CreatedAt r).

Definition MarkAuthorizationCodeUsed (code : string) : QA Z :=
  stmt drv (fun _ t =>
    let P := fun r => bool_decide (cr_Code r = code) in
    Ok (rows_affected P (at_codes t), with_codes (update_where P (set_code_used true) (at_codes t)) t)).

Definition UpdateAuthorizationCodeUsed (code : string) (used : bool) : QA unit :=
  stmt drv (fun _ t =>
    Ok (tt, with_codes (update_where (fun r => bool_decide (cr_Code r = code)) (set_code_used used) (at_codes t)) t)).

Definition DeleteExpiredAuthorizationCodes (expiresAt : time) : QA Z :=
  stmt drv (fun _ t =>
    let P := fun r => cr_ExpiresAt r <? ts expiresAt in
    Ok (rows_affected P (at_codes t), with_codes (delete_where P (at_codes t)) t)).

Definition toAuthorizationCode (r : CodeRow) : AuthorizationCodeRecord :=
  mkCode (cr_ID r) (cr_Code r) (cr_SessionID r) (cr_RedirectUri r) (cr_ExpiresAt r) (cr_Used r) (cr_CreatedAt r).

Definition CodePg_Create (authCode : option AuthorizationCodeRecord) : SA unit :=
  match authCode with
  | None => st_fail (EOther "authorization code is required")
  | Some c =>
      wrapped "create authorization code"
        (CreateAuthorizationCode (mkCodeRow (ac_ID c) (ac_Code c) (ac_SessionID c) (ac_RedirectURI c) (ac_ExpiresAt c)
                                    (ac_Used c) (ac_CreatedAt c)))
  end.

Definition CodePg_FindByCode (code : string) : SA AuthorizationCodeRecord :=
  r ← or_not_found code_not_found "find authorization code" (GetAuthorizationCodeByCode code); mret (toAuthorizationCode r).

Definition CodePg_MarkUsed (code : string) : SA unit :=
  rows ← wrapped "mark authorization code used" (MarkAuthorizationCodeUsed code);
  if rows =? 0 then st_fail code_not_found else mret tt.

Definition CodePg_DeleteExpiredCodes (now : time) : SA Z :=
  wrapped "delete expired authorization codes" (DeleteExpiredAuthorizationCodes now).

(** The record comes with the error of [validate]; every other error comes alone. *)
Definition with_record {A B} (m : SA (option A * option B)) (err : error -> B) : SA (option A * option B) := fun d =>
  match m d with
  | (Ok r, d') => (Ok r, d')
  | (Err e, d') => (Ok (None, Some (err e)), d')
  end.

Definition CodePg_Execute (code : string) (validate : AuthorizationCodeRecord -> res unit)
    (mutate : AuthorizationCodeRecord -> AuthorizationCodeRecord) : SA (option AuthorizationCodeRecord * option error) :=
  with_record
    (inTx drv (tx_error "begin authorization code execute tx") (tx_error "commit authorization code execute")
       (row ← or_not_found (EVal ErrNotFound) "find authorization code for execute" (GetAuthorizationCodeForUpdate code);
        let record := toAuthorizationCode row in
        match validate record with
        | Err e => mret (TxReturn (Some record, Some e))
        | Ok _ =>
            let record := mutate record in
            wrapped "update authorization code" (UpdateAuthorizationCodeUsed (ac_Code record) (ac_Used record));;
            mret (TxCommit (Some record, None))
        end)) id.

(** ** Refresh tokens *)

Definition token_not_found : error := EWrap "refresh token not found" (EVal ErrNotFound).

Definition CreateRefreshToken (arg : TokenRow) : QA unit :=
  stmt drv (fun _ t =>
    let r := mkTokenRow (tr_ID arg) (tr_Token arg) (tr_SessionID arg) (ts (tr_ExpiresAt arg)) (tr_Used arg)
               (ts <$> tr_LastRefreshedAt arg) (ts (tr_CreatedAt arg)) in
    match constraints [token_columns r; unique_that (negb (has (tr_ID <$> at_tokens t) (tr_ID r)));
                       unique_that (negb (has (tr_Token <$> at_tokens t) (tr_Token r)));
                       refers_to (has (sr_ID <$> at_sessions t) (tr_SessionID r))] with
    | Some c => Err (PgError c)
    | None => Ok (tt, with_tokens (at_tokens t ++ [r]) t)
    end).

Definition GetRefreshTokenByToken (token : string) : QA TokenRow :=
  query drv (fun t => one_row (select_where (fun r => bool_decide (tr_Token r = token)) (at_tokens t))).
Definition GetRefreshTokenForUpdate (token : string) : QA TokenRow :=
  query drv (fun t => one_row (select_where (fun r => bool_decide (tr_Token r = token)) (at_tokens t))).

Definition newer_token (a b : TokenRow) : Prop := tr_CreatedAt b <= tr_CreatedAt a.
#[local] Instance newer_token_dec : RelDecision newer_token.
Proof. intros a b. unfold newer_token. apply _. Defined.

Definition GetRefreshTokenBySession (sessionID : uuid) (expiresAt : time) : QA TokenRow :=
  query drv (fun t => one_row (merge_sort newer_token
    (select_where (fun r => bool_decide (tr_SessionID r = sessionID) && negb (tr_Used r) && (ts expiresAt <? tr_ExpiresAt r))
       (at_tokens t)))).

Definition DeleteExpiredRefreshTokens (expiresAt : time) : QA Z :=
  stmt drv (fun _ t =>
    let P := fun r => tr_ExpiresAt r <? ts expiresAt in
    Ok (rows_affected P (at_tokens t), with_tokens (delete_where P (at_tokens t)) t)).

Definition DeleteRefreshTokensBySession (sessionID : uuid) : QA Z :=
  stmt drv (fun _ t =>
    let P := fun r => bool_decide (tr_SessionID r = sessionID) in
    Ok (rows_affected P (at_tokens t), with_tokens (delete_where P (at_tokens t)) t)).

Definition DeleteUsedRefreshTokens : QA Z :=
  stmt drv (fun _ t => Ok (rows_affected tr_Used (at_tokens t), with_tokens (delete_where tr_Used (at_tokens t)) t)).

Definition set_token_usage (used : bool) (lastRefreshedAt : option time) (r : TokenRow) : TokenRow :=
  mkTokenRow (tr_ID r) (tr_Token r) (tr_SessionID r) (tr_ExpiresAt r) used lastRefreshedAt (tr_CreatedAt r).

Definition UpdateRefreshTokenUsage (token : string) (used : bool) (lastRefreshedAt : option time) : QA unit :=
  stmt drv (fun _ t =>
    Ok (tt, with_tokens (update_where (fun r => bool_decide (tr_Token r = token))
                           (set_token_usage used (ts <$> lastRefreshedAt)) (at_tokens t)) t)).

Definition toRefreshToken (r : TokenRow) : RefreshTokenRecord :=
  mkRT (tr_ID r) (tr_Token r) (tr_SessionID r) (tr_ExpiresAt r) (tr_Used r) (tr_LastRefreshedAt r) (tr_CreatedAt r).

Definition TokenPg_Create (token : option RefreshTokenRecord) : SA unit :=
  match token with
  | None => st_fail (EOther "refresh token is required")
  | Some t =>
      wrapped "create refresh token"
        (CreateRefreshToken (mkTokenRow (rt_ID t) (rt_Token t) (rt_SessionID t) (rt_ExpiresAt t) (rt_Used t)
                               (rt_LastRefreshedAt t) (rt_CreatedAt t)))
  end.

Definition TokenPg_Find (token : string) : SA RefreshTokenRecord :=
  r ← or_not_found token_not_found "find refresh token" (GetRefreshTokenByToken token); mret (toRefreshToken r).

Definition TokenPg_FindBySessionID (sessionID : uuid) (now : time) : SA RefreshTokenRecord :=
  r ← or_not_found token_not_found "find refresh token by session" (GetRefreshTokenBySession sessionID now);
  mret (toRefreshToken r).

Definition TokenPg_DeleteBySessionID (sessionID : uuid) : SA unit :=
  rows ← wrapped "delete refresh tokens by session" (DeleteRefreshTokensBySession sessionID);
  if rows =? 0 then st_fail (EVal ErrNotFound) else mret tt.

Definition TokenPg_DeleteExpiredTokens (now : time) : SA Z :=
  wrapped "delete expired refresh tokens" (DeleteExpiredRefreshTokens now).

Definition TokenPg_DeleteUsedTokens : SA Z := wrapped "delete used refresh tokens" DeleteUsedRefreshTokens.

Definition TokenPg_Execute (token : string) (validate : RefreshTokenRecord -> res unit)
    (mutate : RefreshTokenRecord -> RefreshTokenRecord) : SA (option RefreshTokenRecord * option error) :=
  with_record
    (inTx drv (tx_error "begin refresh token execute tx") (tx_error "commit refresh token execute")
       (row ← or_not_found (EVal ErrNotFound) "find refresh token for execute" (GetRefreshTokenForUpdate token);
        let record := toRefreshToken row in
        match validate record with
        | Err e => mret (TxReturn (Some record, Some e))
        | Ok _ =>
            let record := mutate record in
            wrapped "update refresh token"
              (UpdateRefreshTokenUsage (rt_Token record) (rt_Used record) (rt_LastRefreshedAt record));;
            mret (TxCommit (Some record, None))
        end)) id.

(** ** Users *)

Definition user_not_found : error := EWrap "user not found" (EVal ErrNotFound).
Definition UserStatus_text (s : UserStatus) : string := match s with UserStatusActive => "active" | UserStatusInactive => "inactive" end.

(** [ON CONFLICT (id) DO UPDATE]. *)
Definition UpsertUser (arg : UserRow) : QA unit :=
  stmt drv (fun now t =>
    let P := fun r => bool_decide (ur_ID r = ur_ID arg) in
    let others := delete_where P (at_users t) in
    match constraints [user_columns arg;
                       unique_that (negb (has ((fun r => (ur_TenantID r, ur_Email r)) <$> others) (ur_TenantID arg, ur_Email arg)));
                       refers_to (has (at_tenants t) (ur_TenantID arg))] with
    | Some c => Err (PgError c)
    | None =>
        if rows_affected P (at_users t) =? 0
        then Ok (tt, with_users (at_users t ++ [mkUserRow (ur_ID arg) (ur_TenantID arg) (ur_Email arg) (ur_FirstName arg)
                                                  (ur_LastName arg) (ur_Verified arg) (ur_Status arg) now now]) t)
        else Ok (tt, with_users (update_where P (fun r => mkUserRow (ur_ID r) (ur_TenantID arg) (ur_Email arg)
                        (ur_FirstName arg) (ur_LastName arg) (ur_Verified arg) (ur_Status arg) (ur_CreatedAt r) now)
                        (at_users t)) t)
    end).

(** [ON CONFLICT (tenant_id, email) DO NOTHING]; another conflict is an error. *)
Definition InsertUserIfNotExists (arg : UserRow) : QA unit :=
  stmt drv (fun now t =>
    match user_columns arg with
    | Some c => Err (PgError c)
    | None =>
        if has ((fun r => (ur_TenantID r, ur_Email r)) <$> at_users t) (ur_TenantID arg, ur_Email arg) then Ok (tt, t)
        else match constraints [unique_that (negb (has (ur_ID <$> at_users t) (ur_ID arg)));
                                refers_to (has (at_tenants t) (ur_TenantID arg))] with
             | Some c => Err (PgError c)
             | None => Ok (tt, with_users (at_users t ++ [mkUserRow (ur_ID arg) (ur_TenantID arg) (ur_Email arg)
                              (ur_FirstName arg) (ur_LastName arg) (ur_Verified arg) (ur_Status arg) now now]) t)
             end
    end).

Definition GetUserByID (id : uuid) : QA UserRow :=
  query drv (fun t => one_row (select_where (fun r => bool_decide (ur_ID r = id)) (at_users t))).
Definition GetUserByTenantEmail (tenantID : uuid) (email : string) : QA UserRow :=
  query drv (fun t => one_row (select_where (fun r => bool_decide (ur_TenantID r = tenantID) && bool_decide (ur_Email r = email))
                                 (at_users t))).

Definition older_user (a b : UserRow) : Prop := ur_CreatedAt a <= ur_CreatedAt b.
#[local] Instance older_user_dec : RelDecision older_user.
Proof. intros a b. unfold older_user. apply _. Defined.

Definition GetUserByEmail (email : string) : QA UserRow :=
  query drv (fun t => one_row (merge_sort older_user (select_where (fun r => bool_decide (ur_Email r = email)) (at_users t)))).
Definition ListUsers : QA (list UserRow) := query drv (fun t => Ok (at_users t)).
Definition CountUsersByTenant (tenantID : uuid) : QA Z :=
  query drv (fun t => Ok (rows_affected (fun r => bool_decide (ur_TenantID r = tenantID)) (at_users t))).

(** [ON DELETE RESTRICT] of [rate_limit_allowlist.created_by]. *)
Definition DeleteUserByID (id : uuid) : QA Z :=
  stmt drv (fun _ t =>
    let P := fun r => bool_decide (ur_ID r = id) in
    if has (ur_ID <$> at_users t) id && has (at_created_by t) id then Err (PgError foreign_key_violation)
    else Ok (rows_affected P (at_users t), drop_users P t)).

Definition newUser (r : UserRow) : User :=
  mkUser (ur_ID r) (ur_TenantID r) (ur_Email r) (ur_FirstName r) (ur_LastName r) (ur_Verified r)
    (if bool_decide (ur_Status r = "active") then UserStatusActive else UserStatusInactive).

(** The parameters; the columns [created_at] and [updated_at] have defaults. *)
Definition user_params (tenantID : uuid) (email : string) (u : User) : UserRow :=
  mkUserRow (u_ID u) tenantID email (u_FirstName u) (u_LastName u) (u_Verified u) (UserStatus_text (u_Status u)) 0 0.

Definition UserPg_Save (user : option User) : SA unit :=
  match user with
  | None => st_fail (EOther "user is required")
  | Some u =>
      r ← attempt (UpsertUser (user_params (u_TenantID u) (u_Email u) u));
      match r with
      | Ok _ => mret tt
      | Err e =>
          if isUniqueViolation e then st_fail (EWrap "user already exists" (EVal ErrAlreadyUsed))
          else st_fail (EWrap "save user" (db_error e))
      end
  end.

Definition UserPg_FindByID (userID : uuid) : SA User :=
  r ← or_not_found user_not_found "find user by id" (GetUserByID userID); mret (newUser r).
Definition UserPg_FindByEmail (email : string) : SA User :=
  r ← or_not_found user_not_found "find user by email" (GetUserByEmail email); mret (newUser r).

Definition UserPg_FindOrCreateByTenantAndEmail (tenantID : uuid) (email : string) (user : option User) : SA User :=
  match user with
  | None => st_fail (EOther "user is required")
  | Some u =>
      inTx drv (tx_error "begin user upsert tx") (tx_error "commit user upsert")
        (wrapped "insert user" (InsertUserIfNotExists (user_params tenantID email u));;
         row ← or_not_found user_not_found "find user after upsert" (GetUserByTenantEmail tenantID email);
         mret (TxCommit (newUser row)))
  end.

Definition UserPg_Delete (userID : uuid) : SA unit :=
  rows ← wrapped "delete user" (DeleteUserByID userID);
  if rows =? 0 then st_fail user_not_found else mret tt.

Definition UserPg_ListAll : SA (gmap uuid User) :=
  rows ← wrapped "list users" ListUsers;
  mret (foldl (fun m r => <[ur_ID r := newUser r]> m) ∅ rows).

Definition UserPg_CountByTenant (tenantID : uuid) : SA Z :=
  wrapped "count users by tenant" (CountUsersByTenant tenantID).

(** ** Revoked tokens *)

Definition put_revocation (jti : string) (expiresAt : time) (l : list RevocationRow) : list RevocationRow :=
  if has (rv_Jti <$> l) jti
  then update_where (fun r => bool_decide (rv_Jti r = jti)) (fun r => mkRevocationRow (rv_Jti r) expiresAt) l
  else l ++ [mkRevocationRow jti expiresAt].

Definition UpsertTokenRevocation (jti : string) (expiresAt : time) : QA unit :=
  stmt drv (fun _ t =>
    match varchar 255 jti with
    | Some c => Err (PgError c)
    | None => Ok (tt, with_revocations (put_revocation jti (ts expiresAt) (at_revocations t)) t)
    end).

(** One statement for all rows: [ON CONFLICT DO UPDATE] cannot affect a row twice. *)
Definition UpsertTokenRevocations (jtis : list string) (expiresAt : time) : QA unit :=
  stmt drv (fun _ t =>
    match constraints (varchar 255 <$> jtis) with
    | Some c => Err (PgError c)
    | None =>
        if bool_decide (NoDup jtis)
        then Ok (tt, with_revocations (foldl (fun l j => put_revocation j (ts expiresAt) l) (at_revocations t) jtis) t)
        else Err (PgError cardinality_violation)
    end).

Definition GetTokenRevocationExpiresAt (jti : string) : QA time :=
  query drv (fun t => r ← one_row (select_where (fun r => bool_decide (rv_Jti r = jti)) (at_revocations t)); Ok (rv_ExpiresAt r)).

(** [now] is the reading of the injected clock. *)
Definition TRLPg_RevokeToken (now : time) (jti : string) (ttl : duration) : SA unit :=
  _ ← st_lift (validateTTL ttl);
  wrapped "revoke token" (UpsertTokenRevocation jti (time_Add now ttl)).

Definition TRLPg_IsRevoked (now : time) (jti : string) : SA bool :=
  r ← attempt (GetTokenRevocationExpiresAt jti);
  match r with
  | Err ErrNoRows => mret false
  | Err e => st_fail (EWrap "check token revocation" (db_error e))
  | Ok expiresAt => if time_After now expiresAt then mret false else mret true
  end.

Definition TRLPg_RevokeSessionTokens (now : time) (jtis : list string) (ttl : duration) : SA unit :=
  if (length jtis =? 0)%nat then mret tt
  else
    _ ← st_lift (validateTTL ttl);
    let validJTIs := filter (fun j => str_empty j = false) jtis in
    if (length validJTIs =? 0)%nat then mret tt
    else wrapped "revoke session tokens batch" (UpsertTokenRevocations validJTIs (time_Add now ttl)).

End authsql.
