(* ===== verification/AuthSqlSafety.v ===== *)
(** * Correctness of the SQL stores of the auth module

    The tables keep their keys, checks and references whatever fails; the session,
    code and token stores do what the in-memory stores do, or fail without effect,
    or lose only the reply; codes and tokens are consumed once; a revocation lasts
    as long as it should. *)
From S2P Require Import Prelude Errors AuthModels TRL AuthStores SqlDb AuthSql.
Open Scope Z_scope.

Section safety.
Context {W : Type} (drv : Driver W) `{!PgTypes, !StringsJson}.

(** ** The schema holds *)

Record auth_integrity (t : AuthTables) : Prop := {
  ai_users : keyed ur_ID (at_users t);
  ai_emails : keyed (fun r => (ur_TenantID r, ur_Email r)) (at_users t);
  ai_user_columns : Forall (fun r => user_columns r = None) (at_users t);
  ai_sessions : keyed sr_ID (at_sessions t);
  ai_session_columns : Forall (fun r => session_columns r = None) (at_sessions t);
  ai_session_user : Forall (fun r => sr_UserID r ∈ ur_ID <$> at_users t) (at_sessions t);
  ai_code_ids : keyed cr_ID (at_codes t);
  ai_codes : keyed cr_Code (at_codes t);
  ai_code_session : Forall (fun r => cr_SessionID r ∈ sr_ID <$> at_sessions t) (at_codes t);
  ai_token_ids : keyed tr_ID (at_tokens t);
  ai_tokens : keyed tr_Token (at_tokens t);
  ai_token_session : Forall (fun r => tr_SessionID r ∈ sr_ID <$> at_sessions t) (at_tokens t);
  ai_revocations : keyed rv_Jti (at_revocations t);
}.

Lemma drop_sessions_integrity P t : auth_integrity t -> auth_integrity (drop_sessions P t).
Proof.
  intros []. split; simpl; try done; try by apply keyed_delete; try by apply Forall_delete.
  all: try by apply Forall_survive.
  all: by apply Forall_delete.
Qed.

Lemma drop_users_integrity P t : auth_integrity t -> auth_integrity (drop_users P t).
Proof.
  intros [J1 J2 J3 J4 J5 J6 J7 J8 J9 J10 J11 J12 J13]. split; simpl; try done; try by apply keyed_delete.
  all: try by apply Forall_delete.
  all: try by apply Forall_survive.
Qed.

Lemma put_revocation_keyed j e l : keyed rv_Jti l -> keyed rv_Jti (put_revocation j e l).
Proof.
  intros Hk. unfold put_revocation. destruct (has _ _) eqn:E.
  - unfold keyed. by rewrite update_keys.
  - by apply keyed_insert.
Qed.

Lemma put_revocations_keyed js e l : keyed rv_Jti l -> keyed rv_Jti (foldl (fun l j => put_revocation j e l) l js).
Proof. revert l. induction js as [|j js IH]; intros l Hk; simpl; [done|]. by apply IH, put_revocation_keyed. Qed.

(** The statements that change a table. *)
Ltac statement := intros Hi Hf; cbv zeta in Hf; repeat (case_match; simplify_eq/=; try done); constraints_split.

Lemma CreateSession_keeps arg : st_keeps (fun d => auth_integrity (db_tables d)) (CreateSession drv arg) (fun _ => True).
Proof.
  apply keeps_stmt. intros now t a t'. statement. destruct Hi. split; simpl; try done.
  all: try by apply keyed_insert.
  all: try by apply Forall_keys_mono.
  all: apply Forall_snoc; [done|]; try done.
  unfold session_references in *. by constraints_split.
Qed.

Lemma UpdateSession_keeps arg : st_keeps (fun d => auth_integrity (db_tables d)) (UpdateSession drv arg) (fun _ => True).
Proof.
  apply keeps_stmt. intros now t a t'. unfold update_session_rows. destruct (session_stored arg) as [s|] eqn:Hs; [|done]. statement.
  assert (sr_ID s = sr_ID arg) as Hid by (unfold session_stored in Hs; by case_match; simplify_eq/=).
  assert (sr_ID <$> update_where (fun r => bool_decide (sr_ID r = sr_ID arg)) (fun _ => s) (at_sessions t) = sr_ID <$> at_sessions t) as Hk.
  { apply update_keys. intros r Hr. bools. congruence. }
  unfold session_references in *. constraints_split. destruct Hi. split; unfold keyed in *; simpl; rewrite ?Hk; try done.
  all: by apply Forall_update.
Qed.

Lemma CreateAuthorizationCode_keeps arg :
  st_keeps (fun d => auth_integrity (db_tables d)) (CreateAuthorizationCode drv arg) (fun _ => True).
Proof.
  apply keeps_stmt. intros now t a t'. statement. destruct Hi. split; simpl; try done.
  all: try by apply keyed_insert.
  all: by apply Forall_snoc.
Qed.

Lemma codes_update_integrity P f t :
  (forall r, cr_ID (f r) = cr_ID r /\ cr_Code (f r) = cr_Code r /\ cr_SessionID (f r) = cr_SessionID r) ->
  auth_integrity t -> auth_integrity (with_codes (update_where P f (at_codes t)) t).
Proof.
  intros Hf []. split; unfold keyed in *; simpl; try done; rewrite ?update_keys; try done; try (intros r _; apply Hf).
  apply Forall_update; [done|]. intros r _ Hr _. destruct (Hf r) as (_ & _ & ->). done.
Qed.

Lemma CreateRefreshToken_keeps arg :
  st_keeps (fun d => auth_integrity (db_tables d)) (CreateRefreshToken drv arg) (fun _ => True).
Proof.
  apply keeps_stmt. intros now t a t'. statement. destruct Hi. split; simpl; try done.
  all: try by apply keyed_insert.
  all: by apply Forall_snoc.
Qed.

Lemma tokens_update_integrity P f t :
  (forall r, tr_ID (f r) = tr_ID r /\ tr_Token (f r) = tr_Token r /\ tr_SessionID (f r) = tr_SessionID r) ->
  auth_integrity t -> auth_integrity (with_tokens (update_where P f (at_tokens t)) t).
Proof.
  intros Hf []. split; unfold keyed in *; simpl; try done; rewrite ?update_keys; try done; try (intros r _; apply Hf).
  apply Forall_update; [done|]. intros r _ Hr _. destruct (Hf r) as (_ & _ & ->). done.
Qed.

Lemma codes_delete_integrity P t : auth_integrity t -> auth_integrity (with_codes (delete_where P (at_codes t)) t).
Proof. intros []. split; simpl; try done; by first [apply keyed_delete|apply Forall_delete]. Qed.
Lemma tokens_delete_integrity P t : auth_integrity t -> auth_integrity (with_tokens (delete_where P (at_tokens t)) t).
Proof. intros []. split; simpl; try done; by first [apply keyed_delete|apply Forall_delete]. Qed.

Lemma UpsertUser_keeps arg : st_keeps (fun d => auth_integrity (db_tables d)) (UpsertUser drv arg) (fun _ => True).
Proof.
  apply keeps_stmt. intros now t a t'. statement; destruct Hi as [J1 J2 J3 J4 J5 J6 J7 J8 J9 J10 J11 J12 J13].
  - assert (delete_where (fun r => bool_decide (ur_ID r = ur_ID arg)) (at_users t) = at_users t) as Hd.
    { apply filter_all, Forall_forall. apply rows_affected_0. by apply Z.eqb_eq. }
    rewrite Hd in *. split; simpl; try done.
    + apply keyed_insert; [done|]. apply has_false. intros (r & Hr & Hin)%list_elem_of_fmap. simpl in Hr.
      assert (r ∈ delete_where (fun r => bool_decide (ur_ID r = ur_ID arg)) (at_users t)) as Hx by (by rewrite Hd).
      apply list_elem_of_filter in Hx as [Hx _]. by bools.
    + by apply keyed_insert.
    + by apply Forall_snoc.
    + by apply Forall_keys_mono.
  - split; simpl; try done.
    + unfold keyed. by rewrite update_keys.
    + by apply (keyed_update_unique ur_ID _ _ (ur_ID arg) (ur_TenantID arg, ur_Email arg)).
    + by apply Forall_update.
    + by rewrite update_keys.
Qed.

Lemma InsertUserIfNotExists_keeps arg :
  st_keeps (fun d => auth_integrity (db_tables d)) (InsertUserIfNotExists drv arg) (fun _ => True).
Proof.
  apply keeps_stmt. intros now t a t'. statement. destruct Hi as [J1 J2 J3 J4 J5 J6 J7 J8 J9 J10 J11 J12 J13].
  split; simpl; try done.
  all: try by apply keyed_insert.
  all: try by apply Forall_snoc.
  by apply Forall_keys_mono.
Qed.

(** ** Every history of the stores *)

Inductive AuthPgOp :=
| PgCreateSession (s : option Session)
| PgUpdateSession (s : option Session)
| PgDeleteSessionsByUser (userID : uuid)
| PgRevokeSessionIfActive (sessionID : uuid) (now : time)
| PgDeleteExpiredSessions (now : time)
| PgExecuteSession (sessionID : uuid) (validate : Session -> res unit) (mutate : Session -> Session)
| PgCreateCode (c : option AuthorizationCodeRecord)
| PgMarkUsed (code : string)
| PgDeleteExpiredCodes (now : time)
| PgExecuteCode (code : string) (validate : AuthorizationCodeRecord -> res unit)
    (mutate : AuthorizationCodeRecord -> AuthorizationCodeRecord)
| PgCreateToken (t : option RefreshTokenRecord)
| PgDeleteTokensBySession (sessionID : uuid)
| PgDeleteExpiredTokens (now : time)
| PgDeleteUsedTokens
| PgExecuteToken (token : string) (validate : RefreshTokenRecord -> res unit) (mutate : RefreshTokenRecord -> RefreshTokenRecord)
| PgSaveUser (u : option User)
| PgFindOrCreateUser (tenantID : uuid) (email : string) (u : option User)
| PgDeleteUser (userID : uuid)
| PgRevokeToken (now : time) (jti : string) (ttl : duration)
| PgRevokeSessionTokens (now : time) (jtis : list string) (ttl : duration).

Definition auth_pg_op (op : AuthPgOp) : ST (DB W AuthTables) error unit :=
  match op with
  | PgCreateSession s => SessionPg_Create drv s
  | PgUpdateSession s => SessionPg_UpdateSession drv s
  | PgDeleteSessionsByUser u => SessionPg_DeleteSessionsByUser drv u
  | PgRevokeSessionIfActive i now => SessionPg_RevokeSessionIfActive drv i now
  | PgDeleteExpiredSessions now => _ ← SessionPg_DeleteExpiredSessions drv now; mret tt
  | PgExecuteSession i v m => _ ← SessionPg_Execute drv i v m; mret tt
  | PgCreateCode c => CodePg_Create drv c
  | PgMarkUsed c => CodePg_MarkUsed drv c
  | PgDeleteExpiredCodes now => _ ← CodePg_DeleteExpiredCodes drv now; mret tt
  | PgExecuteCode c v m => _ ← CodePg_Execute drv c v m; mret tt
  | PgCreateToken t => TokenPg_Create drv t
  | PgDeleteTokensBySession i => TokenPg_DeleteBySessionID drv i
  | PgDeleteExpiredTokens now => _ ← TokenPg_DeleteExpiredTokens drv now; mret tt
  | PgDeleteUsedTokens => _ ← TokenPg_DeleteUsedTokens drv; mret tt
  | PgExecuteToken t v m => _ ← TokenPg_Execute drv t v m; mret tt
  | PgSaveUser u => UserPg_Save drv u
  | PgFindOrCreateUser t e u => _ ← UserPg_FindOrCreateByTenantAndEmail drv t e u; mret tt
  | PgDeleteUser u => UserPg_Delete drv u
  | PgRevokeToken now j ttl => TRLPg_RevokeToken drv now j ttl
  | PgRevokeSessionTokens now js ttl => TRLPg_RevokeSessionTokens drv now js ttl
  end.

(** The database after a list of calls, whatever they returned. *)
Definition auth_pg_run (ops : list AuthPgOp) (d : DB W AuthTables) : DB W AuthTables :=
  foldl (fun d op => (auth_pg_op op d).2) d ops.

Abbreviation integral := (fun d : DB W AuthTables => auth_integrity (db_tables d)).
Abbreviation keeps m := (st_keeps integral m (fun _ => True)).

Lemma keeps_with_record {A B} (m : ST (DB W AuthTables) error (option A * option B)) err :
  keeps m -> keeps (with_record m err).
Proof.
  intros Hm d r d' HI. unfold with_record. destruct (m d) as [x d1] eqn:E. destruct (Hm d x d1 HI E) as [? _].
  destruct x; by intros [= <- <-].
Qed.

Lemma keeps_then {A B} (m : ST (DB W AuthTables) error A) (f : A -> ST (DB W AuthTables) error B) :
  keeps m -> (forall a, keeps (f a)) -> keeps (m ≫= f).
Proof. intros Hm Hf. eapply keeps_bind; [exact Hm|]. intros a _. apply Hf. Qed.

Lemma keeps_pure {A} (x : res A) : keeps (st_lift x).
Proof. by apply keeps_lift. Qed.
Lemma keeps_done {A} (a : A) : st_keeps (E := error) integral (mret a) (fun _ => True).
Proof. by apply keeps_ret. Qed.
Lemma keeps_failed {A} (e : error) : st_keeps integral (st_fail e) (fun _ : A => True).
Proof. by apply keeps_fail. Qed.

Lemma revocations_integrity l t : keyed rv_Jti l -> auth_integrity t -> auth_integrity (with_revocations l t).
Proof. intros Hl []. by split. Qed.

Lemma UpsertTokenRevocation_keeps j e : keeps (UpsertTokenRevocation drv j e).
Proof.
  apply keeps_stmt. intros now t a t' Hi Hf. case_match; simplify_eq/=. apply revocations_integrity; [|done].
  apply put_revocation_keyed, Hi.
Qed.
Lemma UpsertTokenRevocations_keeps js e : keeps (UpsertTokenRevocations drv js e).
Proof.
  apply keeps_stmt. intros now t a t' Hi Hf. repeat case_match; simplify_eq/=. apply revocations_integrity; [|done].
  apply put_revocations_keyed, Hi.
Qed.

Create HintDb authsql.
#[local] Hint Resolve CreateSession_keeps UpdateSession_keeps CreateAuthorizationCode_keeps CreateRefreshToken_keeps
  UpsertUser_keeps InsertUserIfNotExists_keeps UpsertTokenRevocation_keeps UpsertTokenRevocations_keeps keeps_pure keeps_done keeps_failed : authsql.

(** A statement on one table whose effect is covered above. *)
Ltac table_statement :=
  apply keeps_stmt; intros ? ? ? ? Hi Hf; repeat case_match; simplify_eq/=;
  first [by apply drop_sessions_integrity|by apply drop_users_integrity|by apply codes_delete_integrity
        |by apply tokens_delete_integrity|by apply codes_update_integrity|by apply tokens_update_integrity].

(** Follow the structure of a store operation. *)
Ltac keep :=
  repeat first
    [ solve [auto 1 with authsql]
    | apply keeps_inTx | apply keeps_with_record | apply keeps_wrapped | apply keeps_or_not_found
    | apply keeps_then; [|intros ?] | eapply keeps_attempt | apply keeps_query | table_statement | case_match ].

Lemma auth_pg_op_keeps op : keeps (auth_pg_op op).
Proof.
  destruct op; simpl;
    unfold SessionPg_Create, SessionPg_UpdateSession, SessionPg_DeleteSessionsByUser, SessionPg_RevokeSessionIfActive,
      SessionPg_DeleteExpiredSessions, SessionPg_Execute, CodePg_Create, CodePg_MarkUsed, CodePg_DeleteExpiredCodes,
      CodePg_Execute, TokenPg_Create, TokenPg_DeleteBySessionID, TokenPg_DeleteExpiredTokens, TokenPg_DeleteUsedTokens,
      TokenPg_Execute, UserPg_Save, UserPg_FindOrCreateByTenantAndEmail, UserPg_Delete, TRLPg_RevokeToken,
      TRLPg_RevokeSessionTokens, SessionPg_updateSession; keep.
Qed.

Definition no_rows (tenants clients created_by : list uuid) : AuthTables := mkAT [] [] [] [] [] tenants clients created_by.

Lemma no_rows_integrity tenants clients created_by : auth_integrity (no_rows tenants clients created_by).
Proof. split; unfold keyed; simpl; constructor. Qed.

Lemma auth_pg_run_integrity ops d : auth_integrity (db_tables d) -> auth_integrity (db_tables (auth_pg_run ops d)).
Proof.
  unfold auth_pg_run. revert d. induction ops as [|op ops IH]; intros d Hd; simpl; [done|]. apply IH.
  destruct (auth_pg_op op d) as [r d'] eqn:E. by apply (auth_pg_op_keeps op d r d').
Qed.

(** Whatever statements, transactions and commits fail, and whatever the callers
    validate and change: in every state of the database that the stores can reach,
    users are unique by identifier and by tenant and e-mail, sessions, codes, tokens
    and revocations by their keys, every session has its user, every code and token
    has its session, and the rows satisfy the checks of the schema. *)
Theorem auth_schema_holds (tenants clients created_by : list uuid) (w : W) (ops : list AuthPgOp) :
  auth_integrity (db_tables (auth_pg_run ops (mkDB (no_rows tenants clients created_by) w))).
Proof. apply auth_pg_run_integrity, no_rows_integrity. Qed.


(** ** Sessions: the SQL store refines the in-memory store *)

Context `{!PgLaws}.

(** A session as the table keeps it. *)
Definition pg_session (s : Session) : Session :=
  mkSession (s_ID s) (s_UserID s) (s_ClientID s) (s_TenantID s) (s_RequestedScope s)
    (SessionStatus_of (SessionStatus_text (s_Status s))) (ts <$> s_LastRefreshedAt s) (s_LastAccessTokenJTI s) (s_Binding s)
    (ts (s_CreatedAt s)) (ts (s_ExpiresAt s)) (ts (s_LastSeenAt s)) (ts <$> s_RevokedAt s).

Definition row_session (r : SessionRow) : Session :=
  match toSession r with
  | Ok s => s
  | Err _ => mkSession (sr_ID r) 0 0 0 [] SessionStatusRevoked None "" (mkBinding "" "" "" "") 0 0 0 None
  end.

Definition scopes_ok (s : Session) : Prop := Forall (fun x => text_ok x = true) (s_RequestedScope s).

Record sessions_wf (t : AuthTables) : Prop := {
  sw_keyed : keyed sr_ID (at_sessions t);
  sw_rows : Forall (fun r => toSession r = Ok (row_session r) /\ scopes_ok (row_session r) /\
                             pg_session (row_session r) = row_session r) (at_sessions t);
}.

Definition sessions_of (t : AuthTables) : gmap uuid Session := tmap sr_ID row_session (at_sessions t).

Lemma SessionStatus_of_text s : SessionStatus_of (SessionStatus_text (SessionStatus_of s)) = SessionStatus_of s.
Proof.
  unfold SessionStatus_of at 2 3. repeat case_bool_decide; simplify_eq/=; try done.
  unfold SessionStatus_of. by rewrite !bool_decide_eq_false_2.
Qed.

Lemma pg_session_idem s : pg_session (pg_session s) = pg_session s.
Proof.
  assert (forall o : option Z, ts <$> (ts <$> o) = ts <$> o) as Ho by (intros [x|]; simpl; [by rewrite ts_idem|done]).
  unfold pg_session. simpl. by rewrite SessionStatus_of_text, !ts_idem, !Ho.
Qed.

(** What a written session reads back as. *)
Lemma stored_session s b r : scopes_ok s -> strings_Marshal (s_RequestedScope s) = Ok b ->
  session_stored (session_params b s) = Ok r -> toSession r = Ok (pg_session s) /\ sr_ID r = s_ID s.
Proof.
  intros Hs Hb. unfold session_stored. destruct (jsonb _) as [c|] eqn:Hc; [|done]. intros [= <-]. split; [|done].
  destruct (strings_json _ _ _ Hs Hb Hc) as (Hu & Hne & _). unfold toSession. simpl.
  destruct (str_empty c) eqn:E.
  - apply bool_decide_eq_true in E. destruct (s_RequestedScope s) eqn:El; [|by destruct Hne]. cbn. unfold pg_session. rewrite El.
    by destruct (s_Binding s).
  - rewrite Hu. cbn. unfold pg_session. by destruct (s_Binding s).
Qed.

Lemma row_session_of r s : toSession r = Ok s -> row_session r = s.
Proof. unfold row_session. by intros ->. Qed.
Lemma toSession_ID r s : toSession r = Ok s -> s_ID s = sr_ID r.
Proof. unfold toSession. destruct (str_empty _); [|destruct (strings_Unmarshal _)]; cbn; intros; by simplify_eq/=. Qed.

Lemma sessions_find t id r : sessions_wf t ->
  one_row (select_where (fun r => bool_decide (sr_ID r = id)) (at_sessions t)) = Ok r ->
  sessions_of t !! id = Some (row_session r) /\ toSession r = Ok (row_session r) /\ scopes_ok (row_session r) /\
  s_ID (row_session r) = id /\ pg_session (row_session r) = row_session r.
Proof.
  intros [Hk Hr] Hq. pose proof (one_row_key sr_ID row_session (at_sessions t) id Hk) as Ho. rewrite Hq in Ho.
  destruct Ho as (Hin & Hid & Hl & _). rewrite Forall_forall in Hr. destruct (Hr r Hin) as (Ht & Hs & Hp).
  split_and!; try done. by rewrite (toSession_ID _ _ Ht).
Qed.

Lemma sessions_missing t id e : sessions_wf t ->
  one_row (select_where (fun r => bool_decide (sr_ID r = id)) (at_sessions t)) = Err e ->
  e = ErrNoRows /\ sessions_of t !! id = None.
Proof.
  intros [Hk _] Hq. pose proof (one_row_key sr_ID row_session (at_sessions t) id Hk) as Ho. rewrite Hq in Ho. naive_solver.
Qed.

Lemma sessions_stored_form t id s : sessions_wf t -> sessions_of t !! id = Some s -> pg_session s = s.
Proof.
  intros [Hk Hr] (r & Hin & _ & <-)%(tmap_Some _ _ _ _ _ Hk). rewrite Forall_forall in Hr. by destruct (Hr r Hin) as (_ & _ & ?).
Qed.

(** Writing a row. *)
Lemma write_session_wf t s r : sessions_wf t -> scopes_ok s -> toSession r = Ok (pg_session s) -> sr_ID r = s_ID s ->
  is_Some (sessions_of t !! s_ID s) ->
  let t' := with_sessions (update_where (fun x => bool_decide (sr_ID x = s_ID s)) (fun _ => r) (at_sessions t)) t in
  sessions_wf t' /\ sessions_of t' = <[s_ID s := pg_session s]> (sessions_of t).
Proof.
  intros [Hk Hr] Hs Ht Hid [v Hv]. simpl. apply row_session_of in Ht as Hrow. split.
  - split; simpl.
    + apply keyed_update; [|done]. intros x _ Hx. bools. congruence.
    + apply Forall_update; [done|]. intros x _ _ _. rewrite Hrow. split_and!; [done|done|apply pg_session_idem].
  - unfold sessions_of. simpl. rewrite tmap_update; [|done|done]. destruct (find _ _) as [x|] eqn:E; [by rewrite Hrow|].
    apply (tmap_Some _ _ _ _ _ Hk) in Hv as (x & Hin%list_elem_of_In & Hx & _).
    pose proof (find_none _ _ E x Hin) as Hb. simpl in Hb. by bools.
Qed.

Lemma append_session_wf t s r : sessions_wf t -> scopes_ok s -> toSession r = Ok (pg_session s) -> sr_ID r = s_ID s ->
  has (sr_ID <$> at_sessions t) (sr_ID r) = false ->
  let t' := with_sessions (at_sessions t ++ [r]) t in
  sessions_wf t' /\ sessions_of t' = <[s_ID s := pg_session s]> (sessions_of t).
Proof.
  intros [Hk Hr] Hs Ht Hid Hn. simpl. apply row_session_of in Ht as Hrow. split.
  - split; simpl; [by apply keyed_insert|]. apply Forall_snoc; [done|]. rewrite Hrow. split_and!; [done|done|apply pg_session_idem].
  - unfold sessions_of. simpl. rewrite <- Hid, <- Hrow. apply tmap_insert; [done|]. apply has_false in Hn. intros x Hx E.
    destruct Hn. rewrite <- E. apply list_elem_of_fmap. eauto.
Qed.

Definition written (s : Session) (t t' : AuthTables) : Prop :=
  is_Some (sessions_of t !! s_ID s) /\ sessions_of t' = <[s_ID s := pg_session s]> (sessions_of t).

Lemma update_session_rows_spec s b t a t' : sessions_wf t -> scopes_ok s -> strings_Marshal (s_RequestedScope s) = Ok b ->
  update_session_rows (session_params b s) t = Ok (a, t') ->
  sessions_wf t' /\ ((a = 0 /\ t' = t /\ sessions_of t !! s_ID s = None) \/ (a <> 0 /\ written s t t')).
Proof.
  intros Hwf Hs Hb. unfold update_session_rows. destruct (session_stored _) as [r0|] eqn:Hr0; [|done].
  destruct (stored_session s b r0 Hs Hb Hr0) as [Ht Hid]. destruct (_ =? 0) eqn:Hz.
  - intros [= <- <-]. split; [done|]. left. split_and!; [done|done|]. apply Z.eqb_eq in Hz.
    pose proof (proj1 (rows_affected_0 _ _) Hz) as Hno. apply tmap_None. intros y Hy E. specialize (Hno y Hy). simpl in Hno. by bools.
  - destruct (constraints _) eqn:Hcs; [done|]. intros [= <- <-]. apply Z.eqb_neq in Hz.
    assert (is_Some (sessions_of t !! s_ID s)) as Hsome.
    { destruct (sessions_of t !! s_ID s) eqn:En; [eauto|]. exfalso. pose proof (proj1 (tmap_None _ _ _ _) En) as Hno.
      apply Hz, rows_affected_0. intros y Hy. apply bool_decide_eq_false. by apply Hno. }
    destruct (write_session_wf t s r0 Hwf Hs Ht Hid Hsome). unfold written. auto.
Qed.

Lemma updateSession_spec s d r d' : sessions_wf (db_tables d) -> scopes_ok s ->
  SessionPg_updateSession drv s d = (r, d') ->
  sessions_wf (db_tables d') /\
  ((exists e, r = Err e /\ infra e /\ (db_tables d' = db_tables d \/ written s (db_tables d) (db_tables d')))
   \/ (r = Err session_not_found /\ db_tables d' = db_tables d /\ sessions_of (db_tables d) !! s_ID s = None)
   \/ (r = Ok tt /\ written s (db_tables d) (db_tables d'))).
Proof.
  intros Hwf Hs. unfold SessionPg_updateSession, marshal_scopes, mbind, st_bind, st_lift, wrapped.
  destruct (strings_Marshal_ok (s_RequestedScope s)) as [b Hb]. rewrite Hb.
  destruct (UpdateSession drv (session_params b s) d) as [x d1] eqn:Hx. unfold UpdateSession in Hx.
  apply stmt_cases in Hx as (now & _ & [(m & -> & Ht)|[(m & a & t & Hf & -> & Ht)|[(e & Hf & -> & Ht)|(a & t & Hf & -> & Ht)]]]).
  - intros [= <- <-]. rewrite Ht. split; [done|]. left. eexists. split_and!; [done|infra|by left].
  - destruct (update_session_rows_spec s b _ _ _ Hwf Hs Hb Hf) as [Hw Hor]. intros [= <- <-]. rewrite Ht. split; [done|].
    left. eexists. split_and!; [done|infra|]. destruct Hor as [(_ & -> & _)|[_ Hwr]]; auto.
  - intros [= <- <-]. rewrite Ht. split; [done|]. left. eexists. split_and!; [done|infra|by left].
  - destruct (update_session_rows_spec s b _ _ _ Hwf Hs Hb Hf) as [Hw [(-> & -> & Hn)|[Ha Hwr]]].
    + intros [= <- <-]. rewrite Ht. split; [done|]. right. left. done.
    + apply Z.eqb_neq in Ha. rewrite Ha. intros [= <- <-]. rewrite Ht. split; [done|]. right. right. done.
Qed.

(** Reading a session, then going on with it. *)
Lemma find_session_then {B} nf p id (k : Session -> ST (DB W AuthTables) error B) d r d' :
  sessions_wf (db_tables d) ->
  (row ← or_not_found nf p (GetSessionForUpdate drv id); session ← st_lift (scan_session row); k session) d = (r, d') ->
  exists d1, db_tables d1 = db_tables d /\
    ((exists e, r = Err e /\ infra e /\ d' = d1)
     \/ (r = Err nf /\ sessions_of (db_tables d) !! id = None /\ d' = d1)
     \/ exists s, sessions_of (db_tables d) !! id = Some s /\ scopes_ok s /\ s_ID s = id /\ pg_session s = s /\ k s d1 = (r, d')).
Proof.
  intros Hwf. unfold mbind, st_bind, or_not_found, st_lift. destruct (GetSessionForUpdate drv id d) as [x d1] eqn:Hx.
  apply query_cases in Hx as [Ht [(m & ->)| ->]]; [intros [= <- <-]; exists d1; split; [done|]; left; eexists; split_and!; [done|infra|done]|].
  destruct (one_row _) as [row|e] eqn:Ho.
  - destruct (sessions_find _ _ _ Hwf Ho) as (Hl & Hto & Hs & Hid & Hp). unfold scan_session. rewrite Hto. intros Hk.
    exists d1. split; [done|]. right. right. eauto 10.
  - destruct (sessions_missing _ _ _ Hwf Ho) as [-> Hn]. intros [= <- <-]. exists d1. eauto 8.
Qed.

(** The operations on sessions; the lists are compared below. *)
Inductive SessionOp :=
| SoCreate (s : Session)
| SoFindByID (id : uuid)
| SoUpdate (s : Session)
| SoRevokeIfActive (id : uuid) (now : time)
| SoExecute (id : uuid) (validate : Session -> res unit) (mutate : Session -> Session)
| SoDeleteByUser (userID : uuid)
| SoDeleteExpired (now : time).

Inductive SessionAns := AnsDone | AnsSession (s : Session) | AnsCount (n : Z).

Definition session_pg (op : SessionOp) : ST (DB W AuthTables) error SessionAns :=
  match op with
  | SoCreate s => answer (fun _ => AnsDone) (SessionPg_Create drv (Some s))
  | SoFindByID id => answer AnsSession (SessionPg_FindByID drv id)
  | SoUpdate s => answer (fun _ => AnsDone) (SessionPg_UpdateSession drv (Some s))
  | SoRevokeIfActive id now => answer (fun _ => AnsDone) (SessionPg_RevokeSessionIfActive drv id now)
  | SoExecute id v m => answer (fun s => AnsSession (pg_session s)) (SessionPg_Execute drv id v m)
  | SoDeleteByUser u => answer (fun _ => AnsDone) (SessionPg_DeleteSessionsByUser drv u)
  | SoDeleteExpired now => answer AnsCount (SessionPg_DeleteExpiredSessions drv now)
  end.

(** The in-memory store, given times of the precision of the database. *)
Definition session_mem (op : SessionOp) : ST AuthState error SessionAns :=
  match op with
  | SoCreate s => answer (fun _ => AnsDone) (SessionStore_Create (pg_session s))
  | SoFindByID id => answer AnsSession (SessionStore_FindByID id)
  | SoUpdate s => answer (fun _ => AnsDone) (SessionStore_UpdateSession (pg_session s))
  | SoRevokeIfActive id now => answer (fun _ => AnsDone) (SessionStore_RevokeSessionIfActive id (ts now))
  | SoExecute id v m => answer AnsSession (SessionStore_Execute id v (fun s => pg_session (m s)))
  | SoDeleteByUser u => answer (fun _ => AnsDone) (SessionStore_DeleteSessionsByUser u)
  | SoDeleteExpired now => answer AnsCount (SessionStore_DeleteExpiredSessions (ts now))
  end.

Definition mem_sessions (m : gmap uuid Session) : AuthState := mkAuth ∅ m ∅ ∅ (NewInMemoryTRL []) [].
Definition session_spec (op : SessionOp) (m : gmap uuid Session) : res SessionAns * gmap uuid Session :=
  let '(r, s) := session_mem op (mem_sessions m) in (r, as_sessions s).

(** The scopes are texts a column can keep; a mutation leaves the identifier and
    the scopes of the session alone. *)
Definition session_op_ok (op : SessionOp) : Prop :=
  match op with
  | SoCreate s | SoUpdate s => scopes_ok s
  | SoExecute _ _ m => forall s, s_ID (m s) = s_ID s /\ s_RequestedScope (m s) = s_RequestedScope s
  | _ => True
  end.

Definition refines_session (op : SessionOp) : Prop :=
  forall d r d', sessions_wf (db_tables d) -> session_pg op d = (r, d') ->
    sessions_wf (db_tables d') /\ agrees sessions_of d r d' (session_spec op (sessions_of (db_tables d))).

(** Revoking at the stored precision. *)
Lemma revoke_rounded s now : pg_session s = s ->
  pg_session (Session_ApplyRevocation s now) = Session_ApplyRevocation s (ts now).
Proof.
  destruct s as [i u c t sc st lr j b cr ex ls rv]. unfold pg_session. simpl. intros [= Hst Hlr Hcr Hex Hls Hrv].
  unfold Session_ApplyRevocation, set_Status, set_RevokedAt, nil_or_After, time_After. simpl.
  destruct rv as [y|]; simpl in *; [injection Hrv as Hy|by rewrite Hlr, Hcr, Hex, Hls].
  assert (y < now -> y <= ts now) by (intros; rewrite <- Hy; apply ts_mono; lia).
  assert (now <= y -> ts now <= y) by (intros; rewrite <- Hy; by apply ts_mono).
  destruct (y <? now) eqn:E1, (y <? ts now) eqn:E2; simpl; rewrite Hlr, Hcr, Hex, Hls; bools; try done; try lia.
  - by replace (ts now) with y by lia.
  - by rewrite Hy.
Qed.

Lemma refines_create s : scopes_ok s -> refines_session (SoCreate s).
Proof.
  intros Hs d r d' Hwf (x & Hx & ->)%answer_cases. simpl in Hx. unfold marshal_scopes, mbind, st_bind, st_lift, wrapped in Hx.
  destruct (strings_Marshal_ok (s_RequestedScope s)) as [b Hb]. rewrite Hb in Hx.
  destruct (CreateSession drv (session_params b s) d) as [y d1] eqn:Hy.
  apply stmt_cases in Hy as (now & _ & Hy).
  assert (forall a t, match session_stored (session_params b s) with
      | Ok r => match constraints [session_columns r; unique_that (negb (has (sr_ID <$> at_sessions (db_tables d)) (sr_ID r)));
                                   session_references (db_tables d) r] with
                | Some c => Err (PgError c)
                | None => Ok (tt, with_sessions (at_sessions (db_tables d) ++ [r]) (db_tables d)) end
      | Err e => Err e end = Ok (a, t) -> sessions_wf t /\ sessions_of t = <[s_ID s := pg_session s]> (sessions_of (db_tables d))) as Hf.
  { intros a t. destruct (session_stored _) as [r0|] eqn:Hr0; [|done]. destruct (stored_session s b r0 Hs Hb Hr0) as [Ht Hid].
    destruct (constraints _) eqn:Hc; [done|]. intros [= _ <-]. constraints_split. by apply append_session_wf. }
  unfold session_spec. simpl.
  destruct Hy as [(m & -> & Ht)|[(m & a & t & Ha & -> & Ht)|[(e & _ & -> & Ht)|(a & t & Ha & -> & Ht)]]]; injection Hx as <- <-.
  - rewrite Ht. split; [done|]. apply agrees_refused; [infra|done].
  - destruct (Hf a t Ha). rewrite Ht. split; [done|]. apply agrees_lost; [infra|by rewrite Ht].
  - rewrite Ht. split; [done|]. apply agrees_refused; [infra|done].
  - destruct (Hf a t Ha). rewrite Ht. split; [done|]. apply agrees_done. by rewrite Ht.
Qed.

Lemma refines_find id : refines_session (SoFindByID id).
Proof.
  intros d r d' Hwf (x & Hx & ->)%answer_cases.
  assert ((row ← or_not_found session_not_found "find session by id" (GetSessionForUpdate drv id); session ← st_lift (scan_session row);
           mret session) d = (x, d')) as Hx'.
  { rewrite <- Hx. unfold SessionPg_FindByID, mbind, st_bind, st_lift, mret, st_ret.
    change (GetSessionByID drv id) with (GetSessionForUpdate drv id). destruct (or_not_found _ _ _ d) as [[row|] d1]; [|done].
    by destruct (scan_session row). }
  apply find_session_then in Hx' as (d1 & Ht & Hc); [|done]. unfold session_spec. simpl.
  unfold SessionStore_FindByID, answer. st_unfold.
  destruct Hc as [(e & -> & He & ->)|[(-> & Hn & ->)|(s & Hl & _ & _ & _ & Hk)]].
  - rewrite Ht. split; [done|]. by apply agrees_refused.
  - rewrite Hn, Ht. split; [done|]. apply agrees_done. by rewrite Ht.
  - rewrite Hl. injection Hk as <- <-. rewrite Ht. split; [done|]. apply agrees_done. by rewrite Ht.
Qed.

Lemma refines_update s : scopes_ok s -> refines_session (SoUpdate s).
Proof.
  intros Hs d r d' Hwf (x & Hx & ->)%answer_cases. simpl in Hx.
  destruct (updateSession_spec s d x d' Hwf Hs Hx) as [Hw Hc]. split; [done|].
  unfold session_spec. simpl. unfold SessionStore_UpdateSession, answer, put_sessions. st_unfold.
  destruct Hc as [(e & -> & He & [Ht|[[v Hv] Ht]])|[(-> & Ht & Hn)|(-> & [v Hv] & Ht)]].
  - by apply agrees_refused.
  - rewrite Hv. by apply agrees_lost.
  - rewrite Hn. apply agrees_done. by rewrite Ht.
  - rewrite Hv. by apply agrees_done.
Qed.

(** A transaction that reads a session, checks it and writes it back. *)
Lemma refines_tx {A} b c nf id (check : Session -> res unit) (change : Session -> Session) (ret : Session -> A)
    (k : Session -> ST (DB W AuthTables) error (txres A)) d r d' :
  (forall m, infra (b m)) -> (forall m, infra (c m)) ->
  (forall s, s_ID (change s) = s_ID s /\ s_RequestedScope (change s) = s_RequestedScope s) ->
  (forall s d, k s d = match check s with
                       | Err e => (Err e, d)
                       | Ok _ => (SessionPg_updateSession drv (change s);; mret (TxCommit (ret s))) d end) ->
  sessions_wf (db_tables d) ->
  inTx drv b c (row ← or_not_found (EVal ErrNotFound) nf (GetSessionForUpdate drv id); session ← st_lift (scan_session row); k session) d
    = (r, d') ->
  sessions_wf (db_tables d') /\
  agrees sessions_of d r d'
    (match sessions_of (db_tables d) !! id with
     | None => (Err (EVal ErrNotFound), sessions_of (db_tables d))
     | Some s => match check s with
                 | Err e => (Err e, sessions_of (db_tables d))
                 | Ok _ => (Ok (ret s), <[id := pg_session (change s)]> (sessions_of (db_tables d))) end
     end).
Proof.
  intros Hb Hc Hch Hk Hwf [(m & -> & Ht)|(w & br & d2 & Hbody & Htx)]%inTx_cases.
  { rewrite Ht. split; [done|]. by apply agrees_refused. }
  apply find_session_then in Hbody as (d1 & Ht1 & Hbody); [|done]. simpl in Ht1, Hbody.
  destruct Hbody as [(e & -> & He & ->)|[(-> & Hn & ->)|(s & Hl & Hs & Hid & Hp & Hbody)]].
  - destruct Htx as [(? & [= <-] & -> & Ht)|Htx]; [|naive_solver]. rewrite Ht. split; [done|]. by apply agrees_refused.
  - destruct Htx as [(? & [= <-] & -> & Ht)|Htx]; [|naive_solver]. rewrite Ht, Hn. split; [done|]. apply agrees_done. by rewrite Ht.
  - rewrite Hl. rewrite Hk in Hbody. destruct (check s) as [[]|e].
    2: { injection Hbody as <- <-. destruct Htx as [(? & [= <-] & -> & Ht)|Htx]; [|naive_solver]. rewrite Ht. split; [done|].
         apply agrees_done. by rewrite Ht. }
    unfold mbind at 1, st_bind in Hbody. destruct (SessionPg_updateSession drv (change s) d1) as [u d3] eqn:Hu.
    destruct (Hch s) as [Hid' Hsc]. rewrite <- Ht1 in Hwf.
    destruct (updateSession_spec (change s) d1 u d3 Hwf ltac:(unfold scopes_ok; by rewrite Hsc) Hu) as [Hw3 Hu'].
    rewrite Ht1 in Hwf, Hu'. unfold written in Hu'. rewrite Hid', Hid in Hu'.
    destruct Hu' as [(e & -> & He & _)|[(-> & _ & Hn)|(-> & _ & Hwr)]]; [|congruence|]; injection Hbody as <- <-.
    + destruct Htx as [(? & [= <-] & -> & Ht)|Htx]; [|naive_solver]. rewrite Ht. split; [done|]. by apply agrees_refused.
    + destruct Htx as [?|[?|[(a & m & [= <-] & -> & Ht)|[(a & m & [= <-] & -> & Ht)|(a & [= <-] & -> & Ht)]]]]; [naive_solver|naive_solver| | |];
        rewrite Ht; (split; [done|]).
      * by apply agrees_refused.
      * apply agrees_lost; [done|by rewrite Ht].
      * apply agrees_done. by rewrite Ht.
Qed.

Lemma refines_revoke id now : refines_session (SoRevokeIfActive id now).
Proof.
  intros d r d' Hwf (x & Hx & ->)%answer_cases. simpl in Hx. unfold SessionPg_RevokeSessionIfActive in Hx.
  eapply (refines_tx _ _ _ id
    (fun s => match Session_CanRevoke s with Err _ => Err (EVal ErrSessionRevoked) | Ok _ => Ok tt end)
    (fun s => Session_ApplyRevocation s now) (fun _ => tt)) in Hx as [Hw Ha]; try done.
  - split; [done|]. apply (agrees_map (fun _ => AnsDone)) in Ha. revert Ha. unfold session_spec. simpl.
    unfold SessionStore_RevokeSessionIfActive, answer, put_sessions. st_unfold.
    destruct (sessions_of (db_tables d) !! id) as [s|] eqn:Hl; [|done]. destruct (Session_CanRevoke s); [|done]. simpl.
    rewrite revoke_rounded; [done|]. exact (sessions_stored_form _ _ _ Hwf Hl).
  - intros s. unfold Session_ApplyRevocation. by case_match.
  - intros s d0. by destruct (Session_CanRevoke s).
Qed.

Lemma refines_execute id v m : session_op_ok (SoExecute id v m) -> refines_session (SoExecute id v m).
Proof.
  intros Hok d r d' Hwf (x & Hx & ->)%answer_cases. simpl in Hx. unfold SessionPg_Execute in Hx.
  eapply (refines_tx _ _ _ id v m m) in Hx as [Hw Ha]; try done.
  split; [done|]. apply (agrees_map (fun s => AnsSession (pg_session s))) in Ha. revert Ha. unfold session_spec. simpl.
  unfold SessionStore_Execute, answer, put_sessions. st_unfold.
  destruct (sessions_of (db_tables d) !! id) as [s|]; [|done]. by destruct (v s).
Qed.

(** A DELETE on sessions by a column the session shows. *)
Lemma drop_sessions_spec (P : SessionRow -> bool) (P' : Session -> bool) t : sessions_wf t ->
  (forall r, r ∈ at_sessions t -> P r = P' (row_session r)) ->
  sessions_wf (drop_sessions P t) /\
  sessions_of (drop_sessions P t) = filter (fun kv => P' kv.2 = false) (sessions_of t) /\
  rows_affected P (at_sessions t) = Z.of_nat (size (sessions_of t)) - Z.of_nat (size (sessions_of (drop_sessions P t))).
Proof.
  intros [Hk Hr] HP. split; [split; simpl; [by apply keyed_delete|by apply Forall_delete]|]. unfold sessions_of. simpl. split.
  - apply (tmap_delete sr_ID row_session P (fun kv => P' kv.2)); auto.
  - by apply rows_affected_delete.
Qed.

Lemma drop_sessions_none P t : (forall r, r ∈ at_sessions t -> P r = false) -> drop_sessions P t = t.
Proof.
  intros Hno. unfold drop_sessions, with_tokens, with_codes, with_sessions, delete_where, select_where. simpl.
  rewrite (filter_none (fun r => P r = true) (at_sessions t)) by (apply Forall_forall; intros r Hr; by rewrite Hno). simpl.
  rewrite (filter_all (fun r => P r = false)) by (by apply Forall_forall).
  rewrite !filter_all; [by destruct t|apply Forall_forall; intros x _; by apply has_false, not_elem_of_nil..].
Qed.

Lemma delete_agrees {A} p (P : SessionRow -> bool) (ret : Z -> res A) (m : ST (DB W AuthTables) error A) d r d' spec :
  sessions_wf (db_tables d) ->
  (forall d, m d = match wrapped p (stmt drv (fun _ t => Ok (rows_affected P (at_sessions t), drop_sessions P t))) d with
                   | (Ok n, d') => (ret n, d') | (Err e, d') => (Err e, d') end) ->
  sessions_wf (drop_sessions P (db_tables d)) ->
  spec = (ret (rows_affected P (at_sessions (db_tables d))), sessions_of (drop_sessions P (db_tables d))) ->
  (is_Ok spec.1 = false -> drop_sessions P (db_tables d) = db_tables d) ->
  m d = (r, d') -> sessions_wf (db_tables d') /\ agrees sessions_of d r d' spec.
Proof.
  intros Hwf Hm Hw -> Hno. rewrite Hm. unfold wrapped. destruct (stmt _ _ d) as [x d1] eqn:Hx.
  apply stmt_cases in Hx as (now & _ & [(e & -> & Ht)|[(e & a & t & [= <- <-] & -> & Ht)|[(e & [=] & _)|(a & t & [= <- <-] & -> & Ht)]]]);
    intros [= <- <-]; rewrite Ht; (split; [done|]).
  - apply agrees_refused; [infra|done].
  - simpl in Hno. destruct (ret _) eqn:Er.
    + apply agrees_lost; [infra|by rewrite Ht].
    + apply agrees_refused; [infra|]. rewrite Ht. by apply Hno.
  - apply agrees_done. by rewrite Ht.
Qed.

Lemma row_session_fields r : toSession r = Ok (row_session r) ->
  s_UserID (row_session r) = sr_UserID r /\ s_ExpiresAt (row_session r) = sr_ExpiresAt r.
Proof. unfold toSession. destruct (str_empty _); [|destruct (strings_Unmarshal _)]; cbn; intros H'; by simplify_eq/=; rewrite <- H'. Qed.

Lemma refines_delete_expired now : refines_session (SoDeleteExpired now).
Proof.
  intros d r d' Hwf (x & Hx & ->)%answer_cases. simpl in Hx.
  destruct (drop_sessions_spec (fun r => sr_ExpiresAt r <? ts now) (fun s => s_ExpiresAt s <? ts now) (db_tables d) Hwf) as (Hw & Hs & Hn).
  { intros r Hr. destruct Hwf as [_ Hrs]. rewrite Forall_forall in Hrs. destruct (Hrs r Hr) as (Ht & _). by destruct (row_session_fields r Ht) as [_ ->]. }
  eapply (delete_agrees "delete expired sessions" (fun r => sr_ExpiresAt r <? ts now) Ok) in Hx as [Hw' Ha]; [|done| |done|done|done].
  - split; [done|]. apply (agrees_map AnsCount) in Ha. simpl in Ha. rewrite Hn, Hs in Ha. exact Ha.
  - intros d0. unfold SessionPg_DeleteExpiredSessions, DeleteExpiredSessions. cbv zeta. by destruct (wrapped _ _ d0) as [[]].
Qed.

Lemma refines_delete_by_user u : refines_session (SoDeleteByUser u).
Proof.
  intros d r d' Hwf (x & Hx & ->)%answer_cases. simpl in Hx.
  assert (forall r, r ∈ at_sessions (db_tables d) -> bool_decide (sr_UserID r = u) = bool_decide (s_UserID (row_session r) = u)) as HP.
  { intros r Hr. destruct Hwf as [_ Hrs]. rewrite Forall_forall in Hrs. destruct (Hrs r Hr) as (Ht & _).
    by destruct (row_session_fields r Ht) as [-> _]. }
  destruct (drop_sessions_spec (fun r => bool_decide (sr_UserID r = u)) (fun s => bool_decide (s_UserID s = u)) (db_tables d) Hwf)
    as (Hw & Hs & Hn); [done|].
  eapply (delete_agrees "delete sessions by user" (fun r => bool_decide (sr_UserID r = u))
            (fun n => if n =? 0 then Err session_not_found else Ok tt)) in Hx as [Hw' Ha]; [|done| |done|done|].
  - split; [done|]. apply (agrees_map (fun _ => AnsDone)) in Ha. revert Ha. unfold session_spec. simpl.
    unfold SessionStore_DeleteSessionsByUser, answer, put_sessions. st_unfold. rewrite Hs.
    pose proof (rows_exist sr_ID row_session _ (fun s => bool_decide (s_UserID s = u)) _ (sw_keyed _ Hwf) HP) as Hex.
    fold (sessions_of (db_tables d)) in Hex. rewrite Hex.
    rewrite negb_involutive.
    assert (filter (fun kv : uuid * Session => s_UserID kv.2 <> u) (sessions_of (db_tables d)) =
            filter (fun kv => bool_decide (s_UserID kv.2 = u) = false) (sessions_of (db_tables d))) as ->.
    { apply map_filter_ext. intros i s _. simpl. by rewrite bool_decide_eq_false. }
    by destruct (_ =? 0).
  - intros d0. unfold SessionPg_DeleteSessionsByUser, DeleteSessionsByUser, mbind, st_bind. cbv zeta.
    destruct (wrapped _ _ d0) as [[n|] d1]; [|done]. by destruct (n =? 0).
  - simpl. destruct (_ =? 0) eqn:E; [intros _|done]. apply Z.eqb_eq in E. pose proof (proj1 (rows_affected_0 _ _) E) as Hno.
    by apply drop_sessions_none.
Qed.

Lemma refines_session_op op : session_op_ok op -> refines_session op.
Proof.
  destruct op; simpl; intros Hok; auto using refines_create, refines_find, refines_update, refines_revoke, refines_delete_by_user,
    refines_delete_expired. by apply refines_execute.
Qed.

(** Histories of the in-memory store in which a call may also fail: before it has
    an effect, or after it with its answer lost. *)
Inductive session_history : gmap uuid Session -> list (SessionOp * res SessionAns) -> gmap uuid Session -> Prop :=
| sh_nil m : session_history m [] m
| sh_refused m op e tr m' : infra e -> session_history m tr m' -> session_history m ((op, Err e) :: tr) m'
| sh_lost m op e a m1 tr m' : infra e -> session_spec op m = (Ok a, m1) -> session_history m1 tr m' ->
    session_history m ((op, Err e) :: tr) m'
| sh_done m op r m1 tr m' : session_spec op m = (r, m1) -> session_history m1 tr m' -> session_history m ((op, r) :: tr) m'.

Fixpoint session_trace (ops : list SessionOp) (d : DB W AuthTables) : list (SessionOp * res SessionAns) * DB W AuthTables :=
  match ops with
  | [] => ([], d)
  | op :: ops' => let '(r, d1) := session_pg op d in let '(tr, d2) := session_trace ops' d1 in ((op, r) :: tr, d2)
  end.

Lemma session_trace_refines ops d tr d' : sessions_wf (db_tables d) -> Forall session_op_ok ops ->
  session_trace ops d = (tr, d') ->
  sessions_wf (db_tables d') /\ session_history (sessions_of (db_tables d)) tr (sessions_of (db_tables d')).
Proof.
  intros Hwf Hok. revert d tr Hwf. induction Hok as [|op ops Hop _ IH]; intros d tr Hwf; simpl.
  { intros [= <- <-]. split; [done|constructor]. }
  destruct (session_pg op d) as [r d1] eqn:E1. destruct (session_trace ops d1) as [tr1 d2] eqn:E2. intros [= <- <-].
  destruct (refines_session_op op Hop d r d1 Hwf E1) as [Hw1 Ha]. destruct (IH d1 tr1 Hw1 E2) as [Hw2 Hh]. split; [done|].
  destruct (session_spec op (sessions_of (db_tables d))) as [x m] eqn:Hsp.
  destruct Ha as [(e & -> & He & Ht)|[(e & -> & He & Ho & Ht)|[-> Ht]]]; simpl in *.
  - rewrite Ht in Hh. by apply sh_refused.
  - destruct x as [a|]; [|done]. subst m. by eapply sh_lost.
  - subst m. by eapply sh_done.
Qed.

(** The schema admits the session as a row. *)
Definition admitted_row (t : AuthTables) (s : Session) : Prop :=
  exists b r, strings_Marshal (s_RequestedScope s) = Ok b /\ session_stored (session_params b s) = Ok r /\
    session_columns r = None /\ session_references t r = None.

Lemma updateSession_works s d : healthy drv -> sessions_wf (db_tables d) -> scopes_ok s -> is_Some (sessions_of (db_tables d) !! s_ID s) ->
  admitted_row (db_tables d) s -> exists d', SessionPg_updateSession drv s d = (Ok tt, d').
Proof.
  intros Hh Hwf Hs [x Hx] (b & r & Hb & Hr & Hc & Hf). unfold SessionPg_updateSession, marshal_scopes, mbind, st_bind, st_lift, wrapped.
  rewrite Hb. destruct (stmt_healthy drv (fun _ => update_session_rows (session_params b s)) d Hh) as (now & w & Hu).
  unfold UpdateSession. rewrite Hu. destruct (update_session_rows (session_params b s) (db_tables d)) as [[n t]|e] eqn:E.
  - destruct (update_session_rows_spec _ _ _ _ _ Hwf Hs Hb E) as [_ [(_ & _ & Hn)|[Hn _]]]; [congruence|].
    apply Z.eqb_neq in Hn. rewrite Hn. by eexists.
  - revert E. unfold update_session_rows. rewrite Hr. simpl. destruct (_ =? 0); [done|]. by rewrite Hc, Hf.
Qed.

Lemma session_execute_works id v m s d : healthy drv -> sessions_wf (db_tables d) -> sessions_of (db_tables d) !! id = Some s ->
  v s = Ok tt -> s_ID (m s) = s_ID s -> s_RequestedScope (m s) = s_RequestedScope s -> admitted_row (db_tables d) (m s) ->
  (SessionPg_Execute drv id v m d).1 = Ok (m s).
Proof.
  intros Hh Hwf Hl Hv Hid Hsc Hrow. unfold SessionPg_Execute, inTx. destruct (Hh (db_world d)) as (Hb & _ & _).
  destruct (drv_begin drv (db_world d)) as [o w]. simpl in Hb. subst o.
  unfold mbind at 1, st_bind at 1, or_not_found, GetSessionForUpdate.
  destruct (query_healthy drv (fun t => one_row (select_where (fun r => bool_decide (sr_ID r = id)) (at_sessions t))) (mkDB (db_tables d) w) Hh)
    as (w1 & ->). simpl. destruct (one_row _) as [row|e] eqn:Ho; [|destruct (sessions_missing _ _ _ Hwf Ho); congruence].
  destruct (sessions_find _ _ _ Hwf Ho) as (Hl' & Hto & Hs & Hsid & _). assert (row_session row = s) as E by congruence. rewrite E in *.
  unfold scan_session. rewrite Hto. unfold mbind, st_bind, st_lift, mret, st_ret. rewrite Hv.
  destruct (updateSession_works (m s) (mkDB (db_tables d) w1) Hh Hwf) as [d' ->]; [unfold scopes_ok; by rewrite Hsc| |done|].
  - simpl. rewrite Hid, Hsid. eauto.
  - destruct (Hh (db_world d')) as (_ & _ & Hc). destruct (drv_commit drv (db_world d')) as [o w2]. simpl in Hc. by subst o.
Qed.

(** C25: Whatever fails, a history of calls to the SQL session store is a history of the
    in-memory store: every answer and every effect is that of the in-memory
    operation on times of the database's precision, except that a call may fail,
    either without any effect or with its effect and without its answer.  A failure is
    never a sentinel or a domain error, so no caller takes it for one.  And when the
    server works and the schema admits the changed session, [Execute] succeeds. *)
Theorem session_store_refines (ops : list SessionOp) (d : DB W AuthTables) :
  sessions_wf (db_tables d) -> Forall session_op_ok ops ->
  (let '(tr, d') := session_trace ops d in
   session_history (sessions_of (db_tables d)) tr (sessions_of (db_tables d'))) /\
  forall id v m s, healthy drv -> sessions_of (db_tables d) !! id = Some s -> v s = Ok tt -> session_op_ok (SoExecute id v m) ->
    admitted_row (db_tables d) (m s) -> (SessionPg_Execute drv id v m d).1 = Ok (m s).
Proof.
  intros Hwf Hok. split.
  - destruct (session_trace ops d) as [tr d'] eqn:E. by eapply session_trace_refines.
  - intros id v m s Hh Hl Hv Hm Hr. destruct (Hm s). by apply session_execute_works.
Qed.

(** ** Codes and tokens *)

Definition codes_of (t : AuthTables) : gmap string AuthorizationCodeRecord := tmap cr_Code toAuthorizationCode (at_codes t).
Definition tokens_of (t : AuthTables) : gmap string RefreshTokenRecord := tmap tr_Token toRefreshToken (at_tokens t).

Definition mem_codes (m : gmap string AuthorizationCodeRecord) : AuthState := mkAuth ∅ ∅ m ∅ (NewInMemoryTRL []) [].
Definition mem_tokens (m : gmap string RefreshTokenRecord) : AuthState := mkAuth ∅ ∅ ∅ m (NewInMemoryTRL []) [].

(** Mutations of codes and tokens write the columns the statements write. *)
Definition marks_code (m : AuthorizationCodeRecord -> AuthorizationCodeRecord) : Prop :=
  forall c, exists b, m c = mkCode (ac_ID c) (ac_Code c) (ac_SessionID c) (ac_RedirectURI c) (ac_ExpiresAt c) b (ac_CreatedAt c).
Definition marks_token (m : RefreshTokenRecord -> RefreshTokenRecord) : Prop :=
  forall t, exists b l, m t = mkRT (rt_ID t) (rt_Token t) (rt_SessionID t) (rt_ExpiresAt t) b l (rt_CreatedAt t).

Definition pg_token (t : RefreshTokenRecord) : RefreshTokenRecord :=
  mkRT (rt_ID t) (rt_Token t) (rt_SessionID t) (rt_ExpiresAt t) (rt_Used t) (ts <$> rt_LastRefreshedAt t) (rt_CreatedAt t).

(** The outcome of an [Execute] that answers with a record and an error. *)
Definition exec_agrees {A S} (abs : AuthTables -> S) (norm : A -> A) (d : DB W AuthTables) (r : res (option A * option error))
    (d' : DB W AuthTables) (spec : res (option A * option error) * S) : Prop :=
  (exists e, r = Ok (None, Some e) /\ infra e /\
     (db_tables d' = db_tables d \/ (exists a, spec.1 = Ok (Some a, None)) /\ abs (db_tables d') = spec.2))
  \/ (exists a e, r = Ok (a, e) /\ spec = (Ok (norm <$> a, e), abs (db_tables d'))).

(** [Execute] on one row of a table. *)
Section execute.
Context {K R A : Type} `{Countable K} (rows : AuthTables -> list R) (key : R -> K) (val : R -> A) (norm : A -> A).
Context (wf : AuthTables -> Prop) (put : A -> AuthTables -> AuthTables) (k : K).
Context (v : A -> res unit) (m : A -> A) (p1 p2 p3 p4 : string).

Hypothesis wf_keyed : forall t, wf t -> keyed key (rows t).
Hypothesis wf_norm : forall t r, wf t -> r ∈ rows t -> norm (val r) = val r.
Hypothesis put_ok : forall t r, wf t -> r ∈ rows t -> key r = k ->
  wf (put (m (val r)) t) /\ tmap key val (rows (put (m (val r)) t)) = <[k := norm (m (val r))]> (tmap key val (rows t)).

Abbreviation table t := (tmap key val (rows t)).

Definition row_execute : ST (DB W AuthTables) error (option A * option error) :=
  with_record
    (inTx drv (tx_error p1) (tx_error p2)
       (row ← or_not_found (EVal ErrNotFound) p3 (query drv (fun t => one_row (select_where (fun r => bool_decide (key r = k)) (rows t))));
        match v (val row) with
        | Err e => mret (TxReturn (Some (val row), Some e))
        | Ok _ =>
            wrapped p4 (stmt drv (fun _ t => Ok (tt, put (m (val row)) t)));; mret (TxCommit (Some (m (val row)), None))
        end)) id.

Definition row_spec (t : gmap K A) : res (option A * option error) * gmap K A :=
  match t !! k with
  | None => (Ok (None, Some (EVal ErrNotFound)), t)
  | Some a =>
      match v a with
      | Err e => (Ok (Some a, Some e), t)
      | Ok _ => (Ok (Some (norm (m a)), None), <[k := norm (m a)]> t)
      end
  end.

Lemma row_execute_spec d r d' : wf (db_tables d) -> row_execute d = (r, d') ->
  wf (db_tables d') /\ exec_agrees (fun t => table t) norm d r d' (row_spec (table (db_tables d))).
Proof.
  intros Hwf. unfold row_execute, with_record. destruct (inTx _ _ _ _ d) as [x d1] eqn:Hx.
  pose proof (one_row_key key val (rows (db_tables d)) k (wf_keyed _ Hwf)) as Ho. unfold row_spec.
  apply inTx_cases in Hx as [(e & -> & Ht)|(w & br & d2 & Hbody & Htx)].
  { intros [= <- <-]. rewrite Ht. split; [done|]. left. eexists. split_and!; [done|infra|by left]. }
  unfold mbind at 1, st_bind, or_not_found in Hbody. destruct (query _ _ _) as [q d3] eqn:Hq.
  apply query_cases in Hq as [Ht3 [(e & ->)| ->]]; simpl in Ht3.
  { injection Hbody as <- <-. destruct Htx as [(? & [= <-] & -> & Ht)|Htx]; [|naive_solver]. intros [= <- <-]. rewrite Ht.
    split; [done|]. left. eexists. split_and!; [done|infra|by left]. }
  simpl in Hbody. destruct (one_row _) as [row|e] eqn:Hrow.
  2: { destruct Ho as (-> & Hn & _). injection Hbody as <- <-. destruct Htx as [(? & [= <-] & -> & Ht)|Htx]; [|naive_solver].
       intros [= <- <-]. rewrite Ht, Hn. split; [done|]. right. exists None, (Some (EVal ErrNotFound)). by rewrite Ht. }
  destruct Ho as (Hin & Hkey & Hl & _). rewrite Hl. destruct (v (val row)) as [[]|e].
  2: { injection Hbody as <- <-. destruct Htx as [?|[(a & [= <-] & -> & Ht)|Htx]]; [naive_solver| |naive_solver].
       intros [= <- <-]. rewrite Ht. split; [done|]. right. exists (Some (val row)), (Some e). simpl. rewrite Ht, (wf_norm _ _ Hwf Hin). done. }
  destruct (put_ok _ _ Hwf Hin Hkey) as [Hw' Hput].
  unfold mbind at 1, st_bind, wrapped in Hbody. destruct (stmt _ _ d3) as [u d4] eqn:Hu.
  apply stmt_cases in Hu as (now & _ & [(e & -> & Ht4)|[(e & a & t & [= <- <-] & -> & Ht4)|[(e & [=] & _)|(a & t & [= <- <-] & -> & Ht4)]]]);
    injection Hbody as <- <-.
  1,2: destruct Htx as [(? & [= <-] & -> & Ht)|Htx]; [|naive_solver]; intros [= <- <-]; rewrite Ht; split; [done|]; left; eexists;
    split_and!; [done|infra|by left].
  rewrite Ht3 in Ht4.
  destruct Htx as [?|[?|[(a & e & [= <-] & -> & Ht)|[(a & e & [= <-] & -> & Ht)|(a & [= <-] & -> & Ht)]]]]; [naive_solver|naive_solver| | |];
    intros [= <- <-]; rewrite Ht, ?Ht4; (split; [done|]).
  - left. eexists. split_and!; [done|infra|by left].
  - left. eexists. split_and!; [done|infra|right]. split; [by eexists|]. by rewrite Ht, Ht4.
  - right. exists (Some (m (val row))), None. split; [done|]. simpl. by rewrite Ht, Ht4, Hput.
Qed.
End execute.

Definition put_code (a : AuthorizationCodeRecord) (t : AuthTables) : AuthTables :=
  with_codes (update_where (fun r => bool_decide (cr_Code r = ac_Code a)) (set_code_used (ac_Used a)) (at_codes t)) t.

Lemma put_code_ok m t row : marks_code m -> keyed cr_Code (at_codes t) -> row ∈ at_codes t ->
  keyed cr_Code (at_codes (put_code (m (toAuthorizationCode row)) t)) /\
  codes_of (put_code (m (toAuthorizationCode row)) t) = <[cr_Code row := m (toAuthorizationCode row)]> (codes_of t).
Proof.
  intros Hm Hk Hin. destruct (Hm (toAuthorizationCode row)) as [b ->]. unfold put_code, codes_of. simpl.
  split; [by apply keyed_update|]. by rewrite tmap_update_row.
Qed.

Lemma code_execute_spec code v m d r d' : keyed cr_Code (at_codes (db_tables d)) -> marks_code m ->
  CodePg_Execute drv code v m d = (r, d') ->
  keyed cr_Code (at_codes (db_tables d')) /\
  exec_agrees codes_of id d r d' (let '(x, s) := CodeStore_Execute code v m (mem_codes (codes_of (db_tables d))) in (x, as_codes s)).
Proof.
  intros Hk Hm Hx.
  destruct (row_execute_spec at_codes cr_Code toAuthorizationCode id (fun t => keyed cr_Code (at_codes t)) put_code
            code v m "begin authorization code execute tx" "commit authorization code execute"
            "find authorization code for execute" "update authorization code" (fun _ H => H) (fun _ _ _ _ => eq_refl)
            ltac:(intros t row Hkt Hin <-; by apply put_code_ok) d r d' Hk Hx) as [Hw Ha].
  split; [done|]. revert Ha. unfold row_spec, CodeStore_Execute, put_codes. st_unfold. fold (codes_of (db_tables d)).
  destruct (codes_of (db_tables d) !! code) as [c|]; [|done]. by destruct (v c).
Qed.

Record tokens_wf (t : AuthTables) : Prop := {
  tw_keyed : keyed tr_Token (at_tokens t);
  tw_rows : Forall (fun r => pg_token (toRefreshToken r) = toRefreshToken r) (at_tokens t);
}.

Definition put_token (a : RefreshTokenRecord) (t : AuthTables) : AuthTables :=
  with_tokens (update_where (fun r => bool_decide (tr_Token r = rt_Token a))
                 (set_token_usage (rt_Used a) (ts <$> rt_LastRefreshedAt a)) (at_tokens t)) t.

Lemma put_token_ok m t row : marks_token m -> tokens_wf t -> row ∈ at_tokens t ->
  tokens_wf (put_token (m (toRefreshToken row)) t) /\
  tokens_of (put_token (m (toRefreshToken row)) t) = <[tr_Token row := pg_token (m (toRefreshToken row))]> (tokens_of t).
Proof.
  intros Hm [Hk Hr] Hin. destruct (Hm (toRefreshToken row)) as (b & l & ->). unfold put_token, tokens_of. simpl.
  split; [split; simpl; [by apply keyed_update|]|by rewrite tmap_update_row].
  apply Forall_update; [done|]. intros x _ _ _. unfold pg_token, toRefreshToken. simpl. f_equal.
  destruct l; simpl; [by rewrite ts_idem|done].
Qed.

Lemma token_execute_spec token v m d r d' : tokens_wf (db_tables d) -> marks_token m ->
  TokenPg_Execute drv token v m d = (r, d') ->
  tokens_wf (db_tables d') /\
  exec_agrees tokens_of pg_token d r d'
    (let '(x, s) := TokenStore_Execute token v (fun t => pg_token (m t)) (mem_tokens (tokens_of (db_tables d))) in (x, as_tokens s)).
Proof.
  intros Hk Hm Hx.
  destruct (row_execute_spec at_tokens tr_Token toRefreshToken pg_token tokens_wf put_token
            token v m "begin refresh token execute tx" "commit refresh token execute"
            "find refresh token for execute" "update refresh token" tw_keyed
            ltac:(intros t row [_ Hr] Hin; rewrite Forall_forall in Hr; by apply Hr)
            ltac:(intros t row Hkt Hin <-; by apply put_token_ok) d r d' Hk Hx) as [Hw Ha].
  split; [done|]. revert Ha. unfold row_spec, TokenStore_Execute, put_tokens. st_unfold. fold (tokens_of (db_tables d)).
  destruct (tokens_of (db_tables d) !! token) as [c|]; [|done]. by destruct (v c).
Qed.

(** ** Revocations last *)

Definition revocations_of (t : AuthTables) : gmap string time := tmap rv_Jti rv_ExpiresAt (at_revocations t).

Definition revoked_until (jti : string) (e : time) (t : AuthTables) : Prop :=
  keyed rv_Jti (at_revocations t) /\ exists x, revocations_of t !! jti = Some x /\ e <= x.

(** A later revocation of the token does not shorten the time. *)
Definition keeps_revocation (jti : string) (e : time) (op : AuthPgOp) : Prop :=
  match op with
  | PgRevokeToken now j ttl => j = jti -> e <= ts (time_Add now ttl)
  | PgRevokeSessionTokens now js ttl => jti ∈ js -> e <= ts (time_Add now ttl)
  | _ => True
  end.

Lemma put_revocation_map j x l : keyed rv_Jti l ->
  keyed rv_Jti (put_revocation j x l) /\ tmap rv_Jti rv_ExpiresAt (put_revocation j x l) = <[j := x]> (tmap rv_Jti rv_ExpiresAt l).
Proof.
  intros Hk. split; [by apply put_revocation_keyed|]. unfold put_revocation. destruct (has _ _) eqn:E.
  - apply has_true, list_elem_of_fmap in E as (r & -> & Hr). by rewrite tmap_update_row.
  - apply has_false in E. apply (tmap_insert rv_Jti rv_ExpiresAt l (mkRevocationRow j x) Hk). simpl. intros y Hy Hj. apply E. rewrite <- Hj.
    apply list_elem_of_fmap. eauto.
Qed.

Lemma put_revocation_until jti e j x t : revoked_until jti e t -> (j = jti -> e <= x) ->
  revoked_until jti e (with_revocations (put_revocation j x (at_revocations t)) t).
Proof.
  intros [Hk (y & Hy & Hle)] Hx. destruct (put_revocation_map j x _ Hk) as [Hk' Hm]. split; [done|]. unfold revocations_of. simpl.
  rewrite Hm. destruct (decide (j = jti)) as [->|]; [rewrite lookup_insert_eq; eauto|rewrite lookup_insert_ne by done; eauto].
Qed.

Lemma put_revocations_until jti e js x t : revoked_until jti e t -> (jti ∈ js -> e <= x) ->
  revoked_until jti e (with_revocations (foldl (fun l j => put_revocation j x l) (at_revocations t) js) t).
Proof.
  revert t. induction js as [|j js IH]; intros t Ht Hx; simpl; [done|].
  apply (IH (with_revocations (put_revocation j x (at_revocations t)) t)); [|set_solver].
  apply put_revocation_until; [done|]. intros ->. apply Hx. by left.
Qed.

Section until.
Context (jti : string) (e : time).
Abbreviation lasting m := (st_keeps (fun d : DB W AuthTables => revoked_until jti e (db_tables d)) m (fun _ => True)).

Lemma lasting_then {A B} (m : ST (DB W AuthTables) error A) (f : A -> ST (DB W AuthTables) error B) :
  lasting m -> (forall a, lasting (f a)) -> lasting (m ≫= f).
Proof. intros Hm Hf. eapply keeps_bind; [exact Hm|]. intros a _. apply Hf. Qed.
Lemma lasting_record {A B} (m : ST (DB W AuthTables) error (option A * option B)) err : lasting m -> lasting (with_record m err).
Proof.
  intros Hm d r d' HI. unfold with_record. destruct (m d) as [x d1] eqn:E. destruct (Hm d x d1 HI E) as [? _].
  destruct x; by intros [= <- <-].
Qed.

(** The other statements leave the revocations alone. *)
Lemma lasting_frame {A} (f : time -> AuthTables -> result dberr (A * AuthTables)) :
  (forall now t a t', f now t = Ok (a, t') -> at_revocations t' = at_revocations t) -> lasting (stmt drv f).
Proof.
  intros Hf. apply keeps_stmt. intros now t a t' [Hk (x & Hx & Hle)] E. unfold revoked_until, revocations_of.
  rewrite (Hf _ _ _ _ E). split; [done|]. exists x. by split.
Qed.

Ltac last_long :=
  repeat first
    [ apply keeps_inTx | apply lasting_record | apply keeps_wrapped | apply keeps_or_not_found | apply lasting_then; [|intros ?]
    | eapply keeps_attempt | apply keeps_query | by apply keeps_lift | by apply keeps_ret | by apply keeps_fail
    | (apply lasting_frame; unfold update_session_rows; intros ? ? ? ? E; cbv zeta in E; repeat case_match; by simplify_eq)
    | case_match ].

Lemma auth_pg_op_lasting op : keeps_revocation jti e op -> lasting (auth_pg_op op).
Proof.
  intros Hop.
  destruct op; simpl;
    unfold SessionPg_Create, SessionPg_UpdateSession, SessionPg_DeleteSessionsByUser, SessionPg_RevokeSessionIfActive,
      SessionPg_DeleteExpiredSessions, SessionPg_Execute, CodePg_Create, CodePg_MarkUsed, CodePg_DeleteExpiredCodes,
      CodePg_Execute, TokenPg_Create, TokenPg_DeleteBySessionID, TokenPg_DeleteExpiredTokens, TokenPg_DeleteUsedTokens,
      TokenPg_Execute, UserPg_Save, UserPg_FindOrCreateByTenantAndEmail, UserPg_Delete, TRLPg_RevokeToken,
      TRLPg_RevokeSessionTokens, SessionPg_updateSession; last_long.
  - apply keeps_stmt. intros now0 t a0 t' Ht E. case_match; simplify_eq. by apply put_revocation_until.
  - apply keeps_stmt. intros now0 t a0 t' Ht E. repeat case_match; simplify_eq. apply put_revocations_until; [done|].
    intros [_ ?]%list_elem_of_filter. by apply Hop.
Qed.
End until.

(** The call revokes the token until [e]. *)
Definition revokes_token (op : AuthPgOp) (jti : string) (e : time) : Prop :=
  match op with
  | PgRevokeToken now j ttl => j = jti /\ e = ts (time_Add now ttl)
  | PgRevokeSessionTokens now js ttl => jti ∈ js /\ jti <> "" /\ e = ts (time_Add now ttl)
  | _ => False
  end.

Lemma put_revocations_map js x l : keyed rv_Jti l ->
  tmap rv_Jti rv_ExpiresAt (foldl (fun l j => put_revocation j x l) l js) = foldl (fun m j => <[j := x]> m) (tmap rv_Jti rv_ExpiresAt l) js.
Proof.
  revert l. induction js as [|j js IH]; intros l Hk; simpl; [done|]. destruct (put_revocation_map j x l Hk) as [Hk' Hm].
  by rewrite IH, Hm.
Qed.

Lemma revoke_ok op jti e d d1 : auth_integrity (db_tables d) -> revokes_token op jti e -> auth_pg_op op d = (Ok tt, d1) ->
  revoked_until jti e (db_tables d1).
Proof.
  intros Hi Hrev Hop. assert (auth_integrity (db_tables d1)) as Hi1 by (by apply (auth_pg_op_keeps op d (Ok tt) d1)).
  split; [apply Hi1|]. unfold revocations_of. destruct op; simpl in Hrev, Hop; try done.
  - destruct Hrev as [<- ->]. unfold TRLPg_RevokeToken, wrapped, mbind, st_bind, st_lift in Hop. destruct (validateTTL ttl); [|done].
    destruct (UpsertTokenRevocation _ _ _ d) as [r d2] eqn:Hx. destruct r; simplify_eq.
    apply stmt_cases in Hx as (n & _ & [(? & [=] & _)|[(? & ? & ? & _ & [=] & _)|[(? & _ & [=] & _)|(b & t & Hf & [= <-] & Ht)]]]).
    destruct (varchar _ _); [done|]. injection Hf as Hf. rewrite Ht, <- Hf. simpl. destruct (put_revocation_map jti0 (ts (time_Add now ttl)) _ (ai_revocations _ Hi)) as [_ ->].
    rewrite lookup_insert_eq. eauto with lia.
  - destruct Hrev as (Hin & Hne & ->). unfold TRLPg_RevokeSessionTokens, wrapped, mbind, st_bind, st_lift in Hop.
    assert (jti ∈ filter (fun j => str_empty j = false) jtis) as Hin2.
    { apply list_elem_of_filter. split; [by apply bool_decide_eq_false|done]. }
    destruct jtis as [|j0 js0]; [by apply elem_of_nil in Hin|]. simpl (length _ =? 0)%nat in Hop. cbv iota in Hop.
    destruct (validateTTL ttl); [|done]. destruct (filter _ _) as [|j1 js1] eqn:Ef; [by apply elem_of_nil in Hin2|].
    simpl (length _ =? 0)%nat in Hop. cbv iota beta in Hop. clear Ef. remember (j1 :: js1) as js eqn:Ejs. clear Ejs.
    destruct (UpsertTokenRevocations drv _ _ d) as [r d2] eqn:Hx. destruct r; simplify_eq.
    apply stmt_cases in Hx as (n & _ & [(? & [=] & _)|[(? & ? & ? & _ & [=] & _)|[(? & _ & [=] & _)|(b & t & Hf & [= <-] & Ht)]]]).
    destruct (constraints _); [done|]. destruct (bool_decide _); [|done]. injection Hf as Hf. rewrite Ht, <- Hf. cbn [at_revocations with_revocations].
    rewrite put_revocations_map by apply Hi. exists (ts (time_Add now ttl)). split; [|lia].
    by rewrite foldl_insert_lookup, decide_True.
Qed.

Lemma IsRevoked_until jti e t d : revoked_until jti e (db_tables d) -> t <= e ->
  (TRLPg_IsRevoked drv t jti d).1 = Ok true \/ exists err, (TRLPg_IsRevoked drv t jti d).1 = Err err /\ infra err.
Proof.
  intros [Hk (x & Hx & Hle)] Ht. unfold TRLPg_IsRevoked, attempt, mbind, st_bind.
  destruct (GetTokenRevocationExpiresAt drv jti d) as [r d1] eqn:Hq. apply query_cases in Hq as [_ [(m & ->)| ->]].
  { right. eexists. split; [done|infra]. }
  pose proof (one_row_key rv_Jti rv_ExpiresAt (at_revocations (db_tables d)) jti Hk) as Ho. fold (revocations_of (db_tables d)) in Ho.
  destruct (one_row _) as [row|err]; [|destruct Ho as (_ & Hn & _); congruence]. destruct Ho as (_ & _ & Hl & _). cbn.
  assert (time_After t (rv_ExpiresAt row) = false) as ->; [|by left]. apply Z.ltb_ge. assert (rv_ExpiresAt row = x) by congruence. lia.
Qed.

(** A revoked token stays revoked: once [RevokeToken] or [RevokeSessionTokens] has
    returned success, then after any further calls on the stores, whatever fails in
    them, a check made before the revocation ends reports the token as revoked or
    reports an error of the infrastructure, never that the token is valid. *)
Theorem pg_revocation_lasts (op : AuthPgOp) (jti : string) (e t : time) (d d1 : DB W AuthTables) (ops : list AuthPgOp) :
  auth_integrity (db_tables d) -> revokes_token op jti e -> auth_pg_op op d = (Ok tt, d1) ->
  Forall (keeps_revocation jti e) ops -> t <= e ->
  (TRLPg_IsRevoked drv t jti (auth_pg_run ops d1)).1 = Ok true \/
  exists err, (TRLPg_IsRevoked drv t jti (auth_pg_run ops d1)).1 = Err err /\ infra err.
Proof.
  intros Hi Hrev Hop Hops Ht. apply (IsRevoked_until jti e); [|done]. pose proof (revoke_ok op jti e d d1 Hi Hrev Hop) as Hu. clear Hop.
  revert d1 Hu. unfold auth_pg_run. induction Hops as [|o ops Ho _ IH]; intros d1 Hu; simpl; [done|]. apply IH.
  destruct (auth_pg_op o d1) as [r d2] eqn:E. by apply (auth_pg_op_lasting jti e o Ho d1 r d2).
Qed.
End safety.

(** ** Examples *)

Module AuthSqlExample.
Import PgExample.

Definition tables : AuthTables :=
  mkAT [mkUserRow 1 3 "a@b.io" "A" "B" true "active" 0 0] [] [] [] [] [3%N] [2%N] [].
Definition session : Session :=
  mkSession 10 1 2 3 ["openid"] SessionStatusActive None "" (mkBinding "" "" "" "") 1234 9999999 1234 None.

(** Create; an [Execute] whose COMMIT is lost; [FindByID]. *)
Definition ops : list SessionOp :=
  [SoCreate session; SoExecute 10 Session_CanRevoke (fun s => Session_ApplyRevocation s 2777); SoFindByID 10].
Definition start : DB (list outcome) AuthTables := mkDB tables [Done; Done; Done; DoneUnseen "connection reset"].

Lemma start_wf : sessions_wf (db_tables start).
Proof. split; simpl; constructor. Qed.
Lemma ops_ok : Forall session_op_ok ops.
Proof.
  repeat constructor; simpl; unfold scopes_ok; repeat constructor.
  all: unfold Session_ApplyRevocation; by case_match.
Qed.

(** The revocation is in the table, at microsecond precision. *)
Lemma session_store_refines_witness :
  (exists s, (sessions_of (db_tables (session_trace (scripted 0) ops start).2)) !! 10%N = Some s /\
     s_Status s = SessionStatusRevoked /\ s_RevokedAt s = Some 2000) /\
  let '(tr, d') := session_trace (scripted 0) ops start in
  session_history (sessions_of (db_tables start)) tr (sessions_of (db_tables d')).
Proof.
  split; [vm_compute; eexists; split; [reflexivity|split; reflexivity]|].
  exact (proj1 (session_store_refines (scripted 0) ops start start_wf ops_ok)).
Defined.

Definition db0 : DB unit AuthTables := mkDB tables tt.
Definition revoke : AuthPgOp := PgRevokeSessionTokens 1000 ["j1"; ""; "j2"] 5000.

Lemma db0_integrity : auth_integrity (db_tables db0).
Proof.
  split; unfold keyed; simpl; repeat constructor; try apply not_elem_of_nil.
Qed.

Lemma pg_revocation_lasts_witness :
  (TRLPg_IsRevoked (driver 0) 6000 "j2" (auth_pg_run (driver 0) [PgDeleteExpiredSessions 99; PgDeleteUser 1] (auth_pg_op (driver 0) revoke db0).2)).1 = Ok true.
Proof.
  destruct (pg_revocation_lasts (driver 0) revoke "j2" 6000 6000 db0 (auth_pg_op (driver 0) revoke db0).2 [PgDeleteExpiredSessions 99; PgDeleteUser 1])
    as [H|(err & H & _)].
  - exact db0_integrity.
  - simpl. split_and!; [set_solver|done|done].
  - vm_compute. reflexivity.
  - repeat constructor.
  - lia.
  - exact H.
  - vm_compute in H. discriminate H.
Defined.

(** Revoking a list with a repeated token identifier fails as a whole, where the
    in-memory list revokes it. *)
Lemma repeated_jti_not_revoked :
  let '(r, d) := TRLPg_RevokeSessionTokens (driver 0) 1000 ["j1"; "j1"] 5000 db0 in
  is_Ok r = false /\ (TRLPg_IsRevoked (driver 0) 1000 "j1" d).1 = Ok false /\
  TRL_IsRevoked 1000 (TRL_RevokeSessionTokens 1000 (NewInMemoryTRL []) ["j1"; "j1"] 5000).2 "j1" = true.
Proof. vm_compute. done. Qed.

End AuthSqlExample.
