(* ===== verification/TxLocks.v ===== *)
(** * Concurrent [Execute] calls on one table
    [Execute] of [internal/auth/store/authorization-code/store_postgres.go],
    [internal/auth/store/refresh-token/store_postgres.go] and
    [internal/auth/store/session/store_postgres.go], as interleaved steps

    [AuthSql] runs a transaction as one step.  Here the requests of several threads
    interleave: a transaction reads its row with [SELECT ... FOR UPDATE], which waits
    until no other transaction holds the row and then sees its last committed
    version, validates it, writes the changed row, and commits.  It may fail and be
    rolled back at any point, and its COMMIT may succeed although the caller sees an
    error.  Meanwhile rows are inserted under new keys and deleted by the cleanup,
    which waits for the lock too. *)
From S2P Require Import Prelude Errors AuthModels SqlDb.
Open Scope Z_scope.

Section locks.
Context {K A : Type} `{Countable K}.

(** The arguments of a call of [Execute]. *)
Record Call := mkCall {
  call_key : K;
  call_validate : A -> res unit;
  call_mutate : A -> A;
}.

(** Where a call is. *)
Inductive Thread :=
| Waiting (c : Call)
| Locked (c : Call) (a : A)
| Written (c : Call) (a : A)
| Finished (c : Call) (r : res A).

(** What happened, in the order of the effects on the committed table. *)
Inductive LogEntry :=
| LExec (tid : nat) (c : Call) (r : res A)
| LInsert (k : K) (a : A)
| LDelete (k : K).

Record LState := mkLS {
  lk_rows : gmap K A;
  lk_locks : gmap K nat;
  lk_threads : gmap nat Thread;
  lk_seen : gset K;
  lk_log : list LogEntry;
}.

(** A transaction by itself. *)
Definition atomic_execute (c : Call) (rows : gmap K A) : res A * gmap K A :=
  match rows !! call_key c with
  | None => (Err (EVal ErrNotFound), rows)
  | Some a =>
      match call_validate c a with
      | Err e => (Err e, rows)
      | Ok _ => (Ok (call_mutate c a), <[call_key c := call_mutate c a]> rows)
      end
  end.

Definition set_thread (tid : nat) (th : Thread) (s : LState) : LState :=
  mkLS (lk_rows s) (lk_locks s) (<[tid := th]> (lk_threads s)) (lk_seen s) (lk_log s).
Definition logged (e : LogEntry) (s : LState) : LState :=
  mkLS (lk_rows s) (lk_locks s) (lk_threads s) (lk_seen s) (lk_log s ++ [e]).
Definition unlock (k : K) (s : LState) : LState :=
  mkLS (lk_rows s) (delete k (lk_locks s)) (lk_threads s) (lk_seen s) (lk_log s).
Definition lock (k : K) (tid : nat) (s : LState) : LState :=
  mkLS (lk_rows s) (<[k := tid]> (lk_locks s)) (lk_threads s) (lk_seen s) (lk_log s).
Definition set_committed (m : gmap K A) (s : LState) : LState :=
  mkLS m (lk_locks s) (lk_threads s) (lk_seen s) (lk_log s).

Inductive lk_step : LState -> LState -> Prop :=
(** A request arrives. *)
| lk_call s tid c : lk_threads s !! tid = None -> lk_step s (set_thread tid (Waiting c) s)
(** [SELECT ... FOR UPDATE]: no row. *)
| lk_missing s tid c : lk_threads s !! tid = Some (Waiting c) -> lk_rows s !! call_key c = None ->
    lk_step s (logged (LExec tid c (Err (EVal ErrNotFound))) (set_thread tid (Finished c (Err (EVal ErrNotFound))) s))
(** [SELECT ... FOR UPDATE]: the lock is free. *)
| lk_lock s tid c a : lk_threads s !! tid = Some (Waiting c) -> lk_locks s !! call_key c = None ->
    lk_rows s !! call_key c = Some a -> lk_step s (lock (call_key c) tid (set_thread tid (Locked c a) s))
(** Validation fails: rollback. *)
| lk_reject s tid c a e : lk_threads s !! tid = Some (Locked c a) -> call_validate c a = Err e ->
    lk_step s (logged (LExec tid c (Err e)) (unlock (call_key c) (set_thread tid (Finished c (Err e)) s)))
(** UPDATE in the transaction. *)
| lk_write s tid c a : lk_threads s !! tid = Some (Locked c a) -> call_validate c a = Ok tt ->
    lk_step s (set_thread tid (Written c a) s)
(** COMMIT, with [r] what the caller sees: the record, or an error of the driver. *)
| lk_commit s tid c a r : lk_threads s !! tid = Some (Written c a) -> r = Ok (call_mutate c a) \/ (exists e, r = Err e /\ infra e) ->
    lk_step s (logged (LExec tid c (Ok (call_mutate c a)))
                (unlock (call_key c)
                   (set_committed (<[call_key c := call_mutate c a]> (lk_rows s)) (set_thread tid (Finished c r) s))))
(** A statement fails, the request is cancelled, the connection is lost: rollback. *)
| lk_abort_waiting s tid c e : lk_threads s !! tid = Some (Waiting c) -> infra e ->
    lk_step s (set_thread tid (Finished c (Err e)) s)
| lk_abort s tid c a e th : lk_threads s !! tid = Some th -> th = Locked c a \/ th = Written c a -> infra e ->
    lk_step s (unlock (call_key c) (set_thread tid (Finished c (Err e)) s))
(** Other statements on the table, which commit by themselves. *)
| lk_insert s k a : k ∉ lk_seen s ->
    lk_step s (mkLS (<[k := a]> (lk_rows s)) (lk_locks s) (lk_threads s) ({[k]} ∪ lk_seen s) (lk_log s ++ [LInsert k a]))
| lk_delete s k : lk_locks s !! k = None ->
    lk_step s (logged (LDelete k) (set_committed (delete k (lk_rows s)) s)).

Definition lk_init (rows : gmap K A) : LState := mkLS rows ∅ ∅ (dom rows) [].
Definition lk_reach (rows : gmap K A) (s : LState) : Prop := rtc lk_step (lk_init rows) s.

(** ** Every history is a sequence of whole transactions *)

Inductive replays : gmap K A -> gset K -> list LogEntry -> gmap K A -> gset K -> Prop :=
| rp_nil m seen : replays m seen [] m seen
| rp_exec m seen tid c r m1 l m' seen' : atomic_execute c m = (r, m1) -> replays m1 seen l m' seen' ->
    replays m seen (LExec tid c r :: l) m' seen'
| rp_insert m seen k a l m' seen' : k ∉ seen -> replays (<[k := a]> m) ({[k]} ∪ seen) l m' seen' ->
    replays m seen (LInsert k a :: l) m' seen'
| rp_delete m seen k l m' seen' : replays (delete k m) seen l m' seen' -> replays m seen (LDelete k :: l) m' seen'.

Lemma replays_app m seen l m1 seen1 l' m2 seen2 :
  replays m seen l m1 seen1 -> replays m1 seen1 l' m2 seen2 -> replays m seen (l ++ l') m2 seen2.
Proof. induction 1; intros Hl; simpl; [done|..]; econstructor; eauto. Qed.

Lemma replays_snoc_exec m seen l m1 seen1 tid c r m2 :
  replays m seen l m1 seen1 -> atomic_execute c m1 = (r, m2) -> replays m seen (l ++ [LExec tid c r]) m2 seen1.
Proof. intros Hl Hc. eapply replays_app; [done|]. econstructor; [done|constructor]. Qed.

(** Who holds which row. *)
Definition holds (th : Thread) (c : Call) (a : A) : Prop := th = Locked c a \/ th = Written c a.

Record lk_inv (rows0 : gmap K A) (s : LState) : Prop := {
  li_replay : replays rows0 (dom rows0) (lk_log s) (lk_rows s) (lk_seen s);
  li_seen : dom (lk_rows s) ⊆ lk_seen s;
  li_holds : forall tid th c a, lk_threads s !! tid = Some th -> holds th c a ->
    lk_locks s !! call_key c = Some tid /\ lk_rows s !! call_key c = Some a;
  li_written : forall tid c a, lk_threads s !! tid = Some (Written c a) -> call_validate c a = Ok tt;
  li_done : forall tid c a, lk_threads s !! tid = Some (Finished c (Ok a)) -> LExec tid c (Ok a) ∈ lk_log s;
}.

(** Two threads hold different rows. *)
Lemma holds_fresh rows0 s tid th c a : lk_inv rows0 s -> lk_threads s !! tid = Some th -> holds th c a ->
  forall tid' th' c' a', lk_threads s !! tid' = Some th' -> holds th' c' a' -> tid' <> tid -> call_key c' <> call_key c.
Proof.
  intros Hi Ht Hh tid' th' c' a' Ht' Hh' Hne Heq. destruct (li_holds _ _ Hi _ _ _ _ Ht Hh) as [E1 _].
  destruct (li_holds _ _ Hi _ _ _ _ Ht' Hh') as [E2 _]. rewrite Heq in E2. congruence.
Qed.

Lemma lk_inv_init rows : lk_inv rows (lk_init rows).
Proof. split; simpl; try done; [constructor|..]; intros; by rewrite lookup_empty in *. Qed.

(** A thread that holds nothing changes its state. *)
Lemma lk_inv_thread rows0 s tid th :
  lk_inv rows0 s ->
  (forall c a, holds th c a -> lk_locks s !! call_key c = Some tid /\ lk_rows s !! call_key c = Some a) ->
  (forall c a, th = Written c a -> call_validate c a = Ok tt) -> (forall c a, th = Finished c (Ok a) -> LExec tid c (Ok a) ∈ lk_log s) ->
  lk_inv rows0 (set_thread tid th s).
Proof.
  intros [J1 J2 J3 J4 J5] Ha Hb Hc. split; simpl; try done.
  - intros t th' c a [[<- <-]|[_ Ht]]%lookup_insert_Some Hh; eauto.
  - intros t c a [[<- ->]|[_ Ht]]%lookup_insert_Some; eauto.
  - intros t c a [[<- ->]|[_ Ht]]%lookup_insert_Some; eauto.
Qed.

(** A thread gives up its row. *)
Lemma lk_inv_release rows0 s tid th c a r : lk_inv rows0 s -> lk_threads s !! tid = Some th -> holds th c a ->
  (forall x, r = Ok x -> LExec tid c (Ok x) ∈ lk_log s) ->
  lk_inv rows0 (unlock (call_key c) (set_thread tid (Finished c r) s)).
Proof.
  intros Hi Hth Hh Hr. pose proof (holds_fresh _ _ _ _ _ _ Hi Hth Hh) as Hfr.
  destruct Hi as [J1 J2 J3 J4 J5]. split; simpl; try done.
  - intros t th' c' a' [[<- <-]|[Hne Ht]]%lookup_insert_Some Hh'; [by destruct Hh'|].
    destruct (J3 _ _ _ _ Ht Hh'). split; [|done]. rewrite lookup_delete_ne; [done|]. intros E. by apply (Hfr t th' c' a').
  - intros t c' a' [[<- [=]]|[_ Ht]]%lookup_insert_Some; eauto.
  - intros t c' a' [[<- [= -> ->]]|[_ Ht]]%lookup_insert_Some; eauto.
Qed.

Lemma lk_inv_log_exec rows0 s tid c r : lk_inv rows0 s -> atomic_execute c (lk_rows s) = (r, lk_rows s) ->
  lk_inv rows0 (logged (LExec tid c r) s).
Proof.
  intros [J1 J2 J3 J4 J5] Hc. split; simpl; try done; [by eapply replays_snoc_exec|]. intros t c' a' Ht. apply elem_of_app. left. eauto.
Qed.

Lemma lk_inv_commit rows0 s tid c a r : lk_inv rows0 s -> lk_threads s !! tid = Some (Written c a) ->
  (forall x, r = Ok x -> x = call_mutate c a) ->
  lk_inv rows0 (logged (LExec tid c (Ok (call_mutate c a)))
                (unlock (call_key c) (set_committed (<[call_key c := call_mutate c a]> (lk_rows s)) (set_thread tid (Finished c r) s)))).
Proof.
  intros Hi Hth Hr. assert (holds (Written c a) c a) as Hh by (by right).
  pose proof (holds_fresh _ _ _ _ _ _ Hi Hth Hh) as Hfr.
  destruct (li_holds _ _ Hi _ _ _ _ Hth Hh) as [_ Hrow]. pose proof (li_written _ _ Hi _ _ _ Hth) as Hv.
  destruct Hi as [J1 J2 J3 J4 J5]. split; simpl.
  - eapply replays_snoc_exec; [done|]. unfold atomic_execute. by rewrite Hrow, Hv.
  - rewrite dom_insert. assert (call_key c ∈ dom (lk_rows s)) by (apply elem_of_dom; eauto). set_solver.
  - intros t th' c' a' [[<- <-]|[Hne Ht]]%lookup_insert_Some Hh'; [by destruct Hh'|].
    destruct (J3 _ _ _ _ Ht Hh'). assert (call_key c' <> call_key c) by (by apply (Hfr t th' c' a')).
    rewrite lookup_delete_ne, lookup_insert_ne by done. done.
  - intros t c' a' [[<- [=]]|[_ Ht]]%lookup_insert_Some; eauto.
  - intros t c' a' [[<- [= -> ->]]|[_ Ht]]%lookup_insert_Some; apply elem_of_app; [right|left; eauto].
    rewrite (Hr a' eq_refl). by apply list_elem_of_singleton.
Qed.

Ltac held := intros; unfold holds in *; destruct_or?; simplify_eq; auto.

Lemma lk_step_inv rows0 s s' : lk_inv rows0 s -> lk_step s s' -> lk_inv rows0 s'.
Proof.
  intros Hi Hs. destruct Hs as [s tid c Hn|s tid c Ht Hn|s tid c a Ht Hl Hr|s tid c a e Ht Hv|s tid c a Ht Hv|s tid c a r Ht Hr|
    s tid c e Ht He|s tid c a e th Ht Hth He|s k a Hk|s k Hk].
  - apply lk_inv_thread; [done|..]; held.
  - apply lk_inv_log_exec; [apply lk_inv_thread; [done|..]; held|]. by unfold atomic_execute; simpl; rewrite Hn.
  - destruct Hi as [J1 J2 J3 J4 J5]. split; simpl; try done.
    + intros t th c' a' [[<- <-]|[Hne Ht']]%lookup_insert_Some Hh.
      * destruct Hh as [[= <- <-]|[=]]. by rewrite lookup_insert_eq.
      * destruct (J3 _ _ _ _ Ht' Hh). split; [|done]. rewrite lookup_insert_ne; [done|]. intros E. rewrite E in Hl. congruence.
    + intros t c' a' [[_ [=]]|[_ Ht']]%lookup_insert_Some; eauto.
    + intros t c' a' [[_ [=]]|[_ Ht']]%lookup_insert_Some; eauto.
  - assert (holds (Locked c a) c a) as Hh by (by left). destruct (li_holds _ _ Hi _ _ _ _ Ht Hh) as [_ Hrow].
    apply lk_inv_log_exec; [by eapply lk_inv_release|]. unfold atomic_execute. simpl. by rewrite Hrow, Hv.
  - apply lk_inv_thread; [done|held..]. eapply li_holds; [done|done|by left].
  - apply lk_inv_commit; [done|done|]. intros x ->. destruct Hr as [[= ->]|(e & [=] & _)]. done.
  - apply lk_inv_thread; [done|..]; held.
  - by eapply lk_inv_release.
  - destruct Hi as [J1 J2 J3 J4 J5]. split; simpl; try done.
    + eapply replays_app; [done|]. constructor; [done|constructor].
    + rewrite dom_insert. set_solver.
    + intros t th c' a' Ht' Hh. destruct (J3 _ _ _ _ Ht' Hh) as [? Hr]. split; [done|]. rewrite lookup_insert_ne; [done|].
      intros ->. apply Hk, J2, elem_of_dom. eauto.
    + intros t c' a' Ht'. apply elem_of_app. left. eauto.
  - destruct Hi as [J1 J2 J3 J4 J5]. split; simpl; try done.
    + eapply replays_app; [done|]. constructor. constructor.
    + rewrite dom_delete. set_solver.
    + intros t th c' a' Ht' Hh. destruct (J3 _ _ _ _ Ht' Hh) as [? Hr]. split; [done|]. rewrite lookup_delete_ne; [done|].
      intros ->. congruence.
    + intros t c' a' Ht'. apply elem_of_app. left. eauto.
Qed.

Lemma lk_reach_inv rows s : lk_reach rows s -> lk_inv rows s.
Proof.
  intros Hr. unfold lk_reach in Hr. remember (lk_init rows) as s0 eqn:E. assert (lk_inv rows s0) as H0 by (subst; apply lk_inv_init).
  clear E. induction Hr as [|s1 s2 s3 Hs _ IH]; [done|]. apply IH. by eapply lk_step_inv.
Qed.

(** ** Spent rows *)

(** A row that no call may change any more, or that is gone for good. *)
Definition spent (P : A -> Prop) (m : gmap K A) (seen : gset K) (k : K) : Prop :=
  k ∈ seen /\ forall a, m !! k = Some a -> P a.

Definition succeeds_on (k : K) (e : LogEntry) : Prop :=
  match e with LExec _ c (Ok _) => call_key c = k | _ => False end.

Lemma replays_spent (P : A -> Prop) (ok : Call -> Prop) m seen l m' seen' k :
  (forall c a, ok c -> P a -> call_validate c a <> Ok tt) ->
  replays m seen l m' seen' -> (forall tid c r, LExec tid c r ∈ l -> ok c) -> spent P m seen k ->
  Forall (fun e => ~ succeeds_on k e) l.
Proof.
  intros HP Hrep. induction Hrep as [|m seen tid c r m1 l m' seen' Hc _ IH|m seen k' a l m' seen' Hk _ IH|m seen k' l m' seen' _ IH];
    intros Hok Hsp; [constructor|..].
  - assert (ok c) as Hokc by (eapply Hok; apply elem_of_cons; by left). destruct Hsp as [Hs Hp]. unfold atomic_execute in Hc.
    revert Hc. destruct (m !! call_key c) as [b|] eqn:Hb; [destruct (call_validate c b) as [[]|] eqn:Hv|]; intros [= <- <-].
    + assert (call_key c <> k) as Hne by (intros <-; exact (HP c b Hokc (Hp b Hb) Hv)).
      constructor; [exact Hne|]. apply IH; [set_solver|]. split; [done|]. intros a. rewrite lookup_insert_ne by done. apply Hp.
    + constructor; [by intros []|]. apply IH; [set_solver|]. by split.
    + constructor; [by intros []|]. apply IH; [set_solver|]. by split.
  - constructor; [by intros []|]. apply IH; [set_solver|]. destruct Hsp as [Hs Hp]. split; [set_solver|].
    intros x [[-> _]|[_ Hx]]%lookup_insert_Some; [done|by apply Hp].
  - constructor; [by intros []|]. apply IH; [set_solver|]. destruct Hsp as [Hs Hp]. split; [done|]. intros x [_ Hx]%lookup_delete_Some. by apply Hp.
Qed.

(** When every successful call leaves a row no call accepts, a key has one success. *)
Lemma replays_single_use (P : A -> Prop) (ok : Call -> Prop) m seen l m' seen' k l1 e1 l2 e2 l3 :
  (forall c a, ok c -> P a -> call_validate c a <> Ok tt) -> (forall c a, ok c -> P (call_mutate c a)) ->
  dom m ⊆ seen -> replays m seen l m' seen' -> (forall tid c r, LExec tid c r ∈ l -> ok c) ->
  l = l1 ++ e1 :: l2 ++ e2 :: l3 -> succeeds_on k e1 -> succeeds_on k e2 -> False.
Proof.
  intros HP HM Hd Hrep. revert l1 Hd. induction Hrep as [|m seen tid c r m1 l m' seen' Hc Hr IH|m seen k' a l m' seen' Hk Hr IH|m seen k' l m' seen' Hr IH];
    intros l1 Hd Hok Hl H1 H2.
  - by destruct l1.
  - assert (dom m1 ⊆ seen) as Hd1.
    { revert Hc. unfold atomic_execute. destruct (m !! call_key c) eqn:Hb; [case_match|]; intros [= <- <-]; try done. rewrite dom_insert.
      assert (call_key c ∈ dom m) by (apply elem_of_dom; eauto). set_solver. }
    destruct l1 as [|e0 l1]; simplify_eq/=.
    + destruct r as [x|]; [|done]. simpl in H1. subst k.
      assert (spent P m1 seen (call_key c)) as Hsp.
      { revert Hc. unfold atomic_execute. destruct (m !! call_key c) as [b|] eqn:Hb; [|done]. destruct (call_validate c b); [|done].
        intros [= <- <-].
        split; [apply Hd, elem_of_dom; eauto|]. intros y. rewrite lookup_insert_eq. intros [= <-]. apply HM. eapply Hok. apply elem_of_cons. by left. }
      pose proof (replays_spent P ok _ _ _ _ _ (call_key c) HP Hr ltac:(set_solver) Hsp) as Hf.
      rewrite Forall_forall in Hf. apply (Hf e2); [set_solver|done].
    + eapply IH; [done|set_solver|done..].
  - destruct l1 as [|e0 l1]; simplify_eq/=; [done|]. eapply IH; [set_solver|set_solver|done..].
  - destruct l1 as [|e0 l1]; simplify_eq/=; [done|]. eapply IH; [set_solver|set_solver|done..].
Qed.

(** Two different successes are two entries of the log. *)
Lemma two_entries {X} (l : list X) (x y : X) : x ∈ l -> y ∈ l -> x <> y ->
  (exists l1 l2 l3, l = l1 ++ x :: l2 ++ y :: l3) \/ (exists l1 l2 l3, l = l1 ++ y :: l2 ++ x :: l3).
Proof.
  intros (l1 & l2 & ->)%list_elem_of_split [Hy|[->|Hy]%elem_of_cons]%elem_of_app Hne; [|done|].
  - apply list_elem_of_split in Hy as (l3 & l4 & ->). right. exists l3, l4, l2. by rewrite <- app_assoc.
  - apply list_elem_of_split in Hy as (l3 & l4 & ->). left. by exists l1, l3, l4.
Qed.

(** Concurrent calls that each spend the row they change: at most one succeeds. *)
Lemma lk_single_use (P : A -> Prop) (ok : Call -> Prop) rows s tid1 tid2 c1 c2 a1 a2 :
  (forall c a, ok c -> P a -> call_validate c a <> Ok tt) -> (forall c a, ok c -> P (call_mutate c a)) ->
  lk_reach rows s -> (forall tid c r, LExec tid c r ∈ lk_log s -> ok c) ->
  lk_threads s !! tid1 = Some (Finished c1 (Ok a1)) -> lk_threads s !! tid2 = Some (Finished c2 (Ok a2)) ->
  call_key c1 = call_key c2 -> tid1 = tid2.
Proof.
  intros HP HM Hr Hok H1 H2 Hk. apply lk_reach_inv in Hr as Hi. destruct (decide (tid1 = tid2)) as [|Hne]; [done|]. exfalso.
  pose proof (li_replay _ _ Hi) as Hrep.
  destruct (two_entries _ _ _ (li_done _ _ Hi _ _ _ H1) (li_done _ _ Hi _ _ _ H2)) as [(l1 & l2 & l3 & Hl)|(l1 & l2 & l3 & Hl)]; [congruence|..].
  - by eapply (replays_single_use P ok _ _ _ _ _ (call_key c1) l1 _ l2 _ l3).
  - by eapply (replays_single_use P ok _ _ _ _ _ (call_key c1) l1 _ l2 _ l3).
Qed.
End locks.

Arguments Call : clear implicits.
Arguments LState K A {_ _}.

(** ** Codes and refresh tokens *)

(** The call the token exchange makes: [validate] is [ValidateForConsume], [mutate]
    is [MarkUsed]. *)
Definition consume_code (code redirectURI : string) (now : time) : Call string AuthorizationCodeRecord :=
  mkCall code (fun a => AuthCode_ValidateForConsume a redirectURI now) (fun a => (AuthCode_MarkUsed a).2).
Definition consume_token (token : string) (now : time) : Call string RefreshTokenRecord :=
  mkCall token (fun t => RefreshToken_ValidateForConsume t now) (fun t => (RefreshToken_MarkUsed t now).2).

(** C20: Concurrent exchanges on PostgreSQL: whatever the interleaving of their
    transactions, whatever fails, and whether or not rows are added and expired rows
    are deleted meanwhile, every state the table goes through is that of whole
    exchanges one after the other, and of the exchanges of a code at most one gets it. *)
Theorem code_race_has_one_winner (rows : gmap string AuthorizationCodeRecord) (s : LState string AuthorizationCodeRecord) :
  lk_reach rows s -> (forall tid c r, LExec tid c r ∈ lk_log s -> exists code uri now, c = consume_code code uri now) ->
  replays rows (dom rows) (lk_log s) (lk_rows s) (lk_seen s) /\
  forall tid1 tid2 code uri1 uri2 now1 now2 a1 a2,
    lk_threads s !! tid1 = Some (Finished (consume_code code uri1 now1) (Ok a1)) ->
    lk_threads s !! tid2 = Some (Finished (consume_code code uri2 now2) (Ok a2)) -> tid1 = tid2.
Proof.
  intros Hr Hok. split; [by apply li_replay, lk_reach_inv|]. intros tid1 tid2 code uri1 uri2 now1 now2 a1 a2 H1 H2.
  eapply (lk_single_use (fun a => ac_Used a = true) (fun c => exists code uri now, c = consume_code code uri now)); [..|done|done|done]; try done.
  - intros c a (? & ? & ? & ->) Hu. simpl. unfold AuthCode_ValidateForConsume. rewrite Hu. repeat case_match; done.
  - intros c a (? & ? & ? & ->). simpl. unfold AuthCode_MarkUsed. by case_match.
Qed.

Lemma token_race_has_one_winner (rows : gmap string RefreshTokenRecord) (s : LState string RefreshTokenRecord) :
  lk_reach rows s -> (forall tid c r, LExec tid c r ∈ lk_log s -> exists token now, c = consume_token token now) ->
  forall tid1 tid2 token now1 now2 a1 a2,
    lk_threads s !! tid1 = Some (Finished (consume_token token now1) (Ok a1)) ->
    lk_threads s !! tid2 = Some (Finished (consume_token token now2) (Ok a2)) -> tid1 = tid2.
Proof.
  intros Hr Hok tid1 tid2 token now1 now2 a1 a2 H1 H2.
  eapply (lk_single_use (fun a => rt_Used a = true) (fun c => exists token now, c = consume_token token now)); [..|done|done|done]; try done.
  - intros c a (? & ? & ->) Hu. simpl. unfold RefreshToken_ValidateForConsume. rewrite Hu. repeat case_match; done.
  - intros c a (? & ? & ->). simpl. unfold RefreshToken_MarkUsed. by case_match.
Qed.

(** ** Example: two exchanges of one code, the second waiting for the first *)

Definition race_code : AuthorizationCodeRecord := mkCode 1 "authz_a" 7 "https://app/cb" 100 false 0.
Definition race_rows : gmap string AuthorizationCodeRecord := {["authz_a" := race_code]}.
Definition race_call : Call string AuthorizationCodeRecord := consume_code "authz_a" "https://app/cb" 5.
Definition race_used : error := New CodeUnauthorized "authorization code already used".
Definition race_end : LState string AuthorizationCodeRecord :=
  let s := set_thread 2 (Waiting race_call) (set_thread 1 (Waiting race_call) (lk_init race_rows)) in
  let s := lock "authz_a" 1 (set_thread 1 (Locked race_call race_code) s) in
  let s := set_thread 1 (Written race_call race_code) s in
  let used := call_mutate race_call race_code in
  let s := logged (LExec 1 race_call (Ok used))
    (unlock "authz_a" (set_committed (<["authz_a" := used]> (lk_rows s)) (set_thread 1 (Finished race_call (Ok used)) s))) in
  let s := lock "authz_a" 2 (set_thread 2 (Locked race_call used) s) in
  logged (LExec 2 race_call (Err race_used)) (unlock "authz_a" (set_thread 2 (Finished race_call (Err race_used)) s)).

Lemma race_reach : lk_reach race_rows race_end.
Proof.
  unfold lk_reach, race_end. cbv zeta.
  eapply rtc_l; [by apply (lk_call _ 1 race_call)|]. eapply rtc_l; [by apply (lk_call _ 2 race_call)|].
  eapply rtc_l; [by apply (lk_lock _ 1 race_call race_code)|]. eapply rtc_l; [by apply (lk_write _ 1 race_call race_code)|].
  eapply rtc_l; [by eapply (lk_commit _ 1 race_call race_code); [|left]|].
  eapply rtc_l; [by apply (lk_lock _ 2 race_call (call_mutate race_call race_code))|].
  eapply rtc_l; [by apply (lk_reject _ 2 race_call (call_mutate race_call race_code) race_used)|]. apply rtc_refl.
Qed.

Lemma race_calls tid c r : LExec tid c r ∈ lk_log race_end -> exists code uri now, c = consume_code code uri now.
Proof.
  intros Hin. assert (c = race_call) as ->; [|by eexists _, _, _].
  cbn in Hin. apply elem_of_cons in Hin as [[= _ -> _]|Hin]; [done|]. by apply list_elem_of_singleton in Hin as [= _ -> _].
Qed.

Lemma code_race_has_one_winner_witness :
  lk_reach race_rows race_end /\ lk_threads race_end !! 1%nat = Some (Finished race_call (Ok (call_mutate race_call race_code))) /\
  replays race_rows (dom race_rows) (lk_log race_end) (lk_rows race_end) (lk_seen race_end).
Proof. split; [exact race_reach|]. split; [done|]. apply (code_race_has_one_winner race_rows race_end race_reach race_calls). Defined.
