(* ===== verification/TenantSql.v ===== *)
(** * The SQL stores of tenants and clients
    [internal/tenant/store/tenant/postgres.go], [internal/tenant/store/client/postgres.go],
    the queries of [internal/tenant/store/sqlc/], [cmd/server/tenant_tx.go] and, on top
    of them, [CreateTenant] and [CreateClient] of [internal/tenant/service/]

    The tables have the columns, keys, checks and references of [migrations/000001],
    [000002], [000010] and [000011].  A store called with a context that carries a
    transaction runs its statements in it, except [Execute], which begins its own.
    The security publisher only buffers events, outside any transaction, so the buffer
    is part of the world and not of the tables. *)
From S2P Require Import Prelude Errors Tenant SqlDb.
Open Scope Z_scope.

(** ** Rows *)

Record TenantRow := mkTenantRow {
  tr_ID : uuid; tr_Name : string; tr_Status : string; tr_CreatedAt : time; tr_UpdatedAt : time;
}.

Record ClientRow := mkClientRow {
  clr_ID : uuid;
  clr_TenantID : uuid;
  clr_Name : string;
  clr_OauthClientID : string;
  clr_ClientSecretHash : option string;
  clr_RedirectUris : string;
  clr_AllowedGrants : string;
  clr_AllowedScopes : string;
  clr_Status : string;
  clr_CreatedAt : time;
  clr_UpdatedAt : time;
}.

Record TenantTables := mkTT { tt_tenants : list TenantRow; tt_clients : list ClientRow }.

Definition LifeStatus_text (s : LifeStatus) : string :=
  match s with LifeActive => "active" | LifeInactive => "inactive" | LifeOther x => x end.
Definition LifeStatus_of (s : string) : LifeStatus :=
  if bool_decide (s = "active") then LifeActive else if bool_decide (s = "inactive") then LifeInactive else LifeOther s.

Section tenantsql.
Context {W : Type} (drv : Driver W) `{!PgTypes, !StringsJson}.
(** [lower] of the database. *)
Context (lower : string -> string).
(** [Emit] of the security publisher. *)
Context (emit : string -> uuid -> W -> W).

Abbreviation QT A := (ST (DB W TenantTables) dberr A) (only parsing).
Abbreviation STn A := (ST (DB W TenantTables) error A) (only parsing).

(** ** The schema *)

Definition tenant_columns (r : TenantRow) : option string :=
  constraints
    [varchar 128 (tr_Name r); varchar 20 (tr_Status r); check_that ((1 <=? char_length (tr_Name r)) && (char_length (tr_Name r) <=? 128));
     check_that (has ["active"; "inactive"] (tr_Status r))].

Definition json_not_empty (c : string) : bool := match jsonb_array_length c with Some n => 0 <? n | None => false end.

Definition client_columns (r : ClientRow) : option string :=
  constraints
    [varchar 128 (clr_Name r); varchar 255 (clr_OauthClientID r);
     match clr_ClientSecretHash r with Some h => varchar 255 h | None => None end; varchar 20 (clr_Status r);
     check_that ((1 <=? char_length (clr_Name r)) && (char_length (clr_Name r) <=? 128));
     check_that (1 <=? char_length (clr_OauthClientID r)); check_that (has ["active"; "inactive"] (clr_Status r));
     check_that (json_not_empty (clr_RedirectUris r)); check_that (json_not_empty (clr_AllowedGrants r));
     check_that (json_not_empty (clr_AllowedScopes r))].

(** The JSON values as the columns keep them. *)
Definition client_stored (r : ClientRow) : result dberr ClientRow :=
  match jsonb (clr_RedirectUris r), jsonb (clr_AllowedGrants r), jsonb (clr_AllowedScopes r) with
  | Some u, Some g, Some s =>
      Ok (mkClientRow (clr_ID r) (clr_TenantID r) (clr_Name r) (clr_OauthClientID r) (clr_ClientSecretHash r) u g s
            (clr_Status r) (ts (clr_CreatedAt r)) (ts (clr_UpdatedAt r)))
  | _, _, _ => Err (PgError "22P02")
  end.

(** ** Queries *)

Definition CountTenants : QT Z := query drv (fun t => Ok (Z.of_nat (length (tt_tenants t)))).

Definition sql_CreateTenant (arg : TenantRow) : QT unit :=
  stmt drv (fun _ t =>
    let r := mkTenantRow (tr_ID arg) (tr_Name arg) (tr_Status arg) (ts (tr_CreatedAt arg)) (ts (tr_UpdatedAt arg)) in
    match constraints [tenant_columns r; unique_that (negb (has (tr_ID <$> tt_tenants t) (tr_ID r)));
                       unique_that (negb (has ((fun x => lower (tr_Name x)) <$> tt_tenants t) (lower (tr_Name r))))] with
    | Some c => Err (PgError c)
    | None => Ok (tt, mkTT (tt_tenants t ++ [r]) (tt_clients t))
    end).

Definition GetTenantByID (id : uuid) : QT TenantRow :=
  query drv (fun t => one_row (select_where (fun r => bool_decide (tr_ID r = id)) (tt_tenants t))).
Definition sql_GetTenantByName (name : string) : QT TenantRow :=
  query drv (fun t => one_row (select_where (fun r => bool_decide (lower (tr_Name r) = lower name)) (tt_tenants t))).
Definition GetTenantForUpdate (id : uuid) : QT TenantRow :=
  query drv (fun t => one_row (select_where (fun r => bool_decide (tr_ID r = id)) (tt_tenants t))).

Definition UpdateTenant (id : uuid) (name status : string) (updatedAt : time) : QT Z :=
  stmt drv (fun _ t =>
    let P := fun r => bool_decide (tr_ID r = id) in
    if rows_affected P (tt_tenants t) =? 0 then Ok (0, t)
    else
      match constraints [tenant_columns (mkTenantRow id name status 0 0);
                         unique_that (negb (has ((fun x => lower (tr_Name x)) <$> delete_where P (tt_tenants t)) (lower name)))] with
      | Some c => Err (PgError c)
      | None =>
          Ok (rows_affected P (tt_tenants t),
              mkTT (update_where P (fun r => mkTenantRow (tr_ID r) name status (tr_CreatedAt r) (ts updatedAt)) (tt_tenants t)) (tt_clients t))
      end).

Definition sql_CreateClient (arg : ClientRow) : QT unit :=
  stmt drv (fun _ t =>
    match client_stored arg with
    | Err e => Err e
    | Ok r =>
        match constraints [client_columns r; unique_that (negb (has (clr_ID <$> tt_clients t) (clr_ID r)));
                           unique_that (negb (has (clr_OauthClientID <$> tt_clients t) (clr_OauthClientID r)));
                           refers_to (has (tr_ID <$> tt_tenants t) (clr_TenantID r))] with
        | Some c => Err (PgError c)
        | None => Ok (tt, mkTT (tt_tenants t) (tt_clients t ++ [r]))
        end
    end).

Definition GetClientByID (id : uuid) : QT ClientRow :=
  query drv (fun t => one_row (select_where (fun r => bool_decide (clr_ID r = id)) (tt_clients t))).
Definition GetClientForUpdate (id : uuid) : QT ClientRow :=
  query drv (fun t => one_row (select_where (fun r => bool_decide (clr_ID r = id)) (tt_clients t))).
Definition GetClientByTenantAndID (id tenantID : uuid) : QT ClientRow :=
  query drv (fun t => one_row (select_where (fun r => bool_decide (clr_ID r = id) && bool_decide (clr_TenantID r = tenantID)) (tt_clients t))).
Definition GetClientByOAuthClientID (oauthClientID : string) : QT ClientRow :=
  query drv (fun t => one_row (select_where (fun r => bool_decide (clr_OauthClientID r = oauthClientID)) (tt_clients t))).
Definition CountClientsByTenant (tenantID : uuid) : QT Z :=
  query drv (fun t => Ok (rows_affected (fun r => bool_decide (clr_TenantID r = tenantID)) (tt_clients t))).

(** The tenant and the creation time of a client are not assigned. *)
Definition update_client_row (arg r : ClientRow) : ClientRow :=
  mkClientRow (clr_ID r) (clr_TenantID r) (clr_Name arg) (clr_OauthClientID arg) (clr_ClientSecretHash arg) (clr_RedirectUris arg)
    (clr_AllowedGrants arg) (clr_AllowedScopes arg) (clr_Status arg) (clr_CreatedAt r) (clr_UpdatedAt arg).

Definition update_client_rows (arg : ClientRow) (t : TenantTables) : result dberr (Z * TenantTables) :=
  let P := fun r => bool_decide (clr_ID r = clr_ID arg) in
  match client_stored arg with
  | Err e => Err e
  | Ok a =>
      if rows_affected P (tt_clients t) =? 0 then Ok (0, t)
      else
        match constraints [client_columns a;
                           unique_that (negb (has (clr_OauthClientID <$> delete_where P (tt_clients t)) (clr_OauthClientID a)))] with
        | Some c => Err (PgError c)
        | None => Ok (rows_affected P (tt_clients t), mkTT (tt_tenants t) (update_where P (update_client_row a) (tt_clients t)))
        end
  end.

Definition sql_UpdateClient (arg : ClientRow) : QT Z := stmt drv (fun _ => update_client_rows arg).

(** ** The tenant store *)

Definition toTenant (r : TenantRow) : Tenant :=
  mkTenant (tr_ID r) (tr_Name r) (LifeStatus_of (tr_Status r)) (tr_CreatedAt r) (tr_UpdatedAt r).

Definition TenantPg_CreateIfNameAvailable (tenant : option Tenant) : STn unit :=
  match tenant with
  | None => st_fail (EOther "tenant is required")
  | Some x =>
      r ← attempt (sql_CreateTenant (mkTenantRow (tn_ID x) (tn_Name x) (LifeStatus_text (tn_Status x)) (tn_CreatedAt x) (tn_UpdatedAt x)));
      match r with
      | Ok _ => mret tt
      | Err e =>
          if isUniqueViolation e then st_fail (EWrap "tenant name must be unique" (EVal ErrAlreadyUsed))
          else st_fail (EWrap "create tenant" (db_error e))
      end
  end.

Definition TenantPg_FindByID (tenantID : uuid) : STn Tenant :=
  r ← or_not_found (EVal ErrNotFound) "find tenant by id" (GetTenantByID tenantID); mret (toTenant r).
Definition TenantPg_FindByName (name : string) : STn Tenant :=
  r ← or_not_found (EVal ErrNotFound) "find tenant by name" (sql_GetTenantByName name); mret (toTenant r).
Definition TenantPg_Count : STn Z := wrapped "count tenants" CountTenants.

Definition TenantPg_update (x : Tenant) : STn unit :=
  rows ← wrapped "update tenant" (UpdateTenant (tn_ID x) (tn_Name x) (LifeStatus_text (tn_Status x)) (tn_UpdatedAt x));
  if rows =? 0 then st_fail (EVal ErrNotFound) else mret tt.

Definition TenantPg_Update (tenant : option Tenant) : STn unit :=
  match tenant with None => st_fail (EOther "tenant is required") | Some x => TenantPg_update x end.

Definition tenant_tx_error (prefix : string) (m : string) : error := EWrap prefix (EOther m).

Definition TenantPg_Execute (tenantID : uuid) (validate : Tenant -> res unit) (mutate : Tenant -> Tenant) : STn Tenant :=
  inTx drv (tenant_tx_error "begin tenant execute tx") (tenant_tx_error "commit tenant execute")
    (row ← or_not_found (EVal ErrNotFound) "find tenant for execute" (GetTenantForUpdate tenantID);
     tenant ← st_lift (Ok (toTenant row));
     _ ← st_lift (validate tenant);
     let tenant := mutate tenant in
     TenantPg_update tenant;; mret (TxCommit tenant)).

(** ** The client store *)

Definition nullString (s : string) : option string := if str_empty s then None else Some s.

Definition unmarshalJSONIfPresent (data field : string) : res (list string) :=
  if str_empty data then Ok []
  else match strings_Unmarshal data with Err e => Err (EWrap ("unmarshal " +:+ field) e) | Ok l => Ok l end.

Definition toClient (r : ClientRow) : res Client :=
  uris ← unmarshalJSONIfPresent (clr_RedirectUris r) "redirect_uris";
  grants ← unmarshalJSONIfPresent (clr_AllowedGrants r) "allowed_grants";
  scopes ← unmarshalJSONIfPresent (clr_AllowedScopes r) "allowed_scopes";
  Ok (mkClient (clr_ID r) (clr_TenantID r) (clr_Name r) (clr_OauthClientID r) (default "" (clr_ClientSecretHash r)) uris grants scopes
        (LifeStatus_of (clr_Status r)) (clr_CreatedAt r) (clr_UpdatedAt r)).

Definition marshal_field (field : string) (l : list string) : res string :=
  match strings_Marshal l with Err e => Err (EWrap ("marshal " +:+ field) e) | Ok b => Ok b end.

(** The parameters of INSERT and UPDATE. *)
Definition client_params (c : Client) : res ClientRow :=
  uris ← marshal_field "redirect uris" (cl_RedirectURIs c);
  grants ← marshal_field "allowed grants" (cl_AllowedGrants c);
  scopes ← marshal_field "allowed scopes" (cl_AllowedScopes c);
  Ok (mkClientRow (cl_ID c) (cl_TenantID c) (cl_Name c) (cl_OAuthClientID c) (nullString (cl_ClientSecretHash c)) uris grants scopes
        (LifeStatus_text (cl_Status c)) (cl_CreatedAt c) (cl_UpdatedAt c)).

Definition ClientPg_Create (client : option Client) : STn unit :=
  match client with
  | None => st_fail (EOther "client is required")
  | Some c =>
      params ← st_lift (client_params c);
      r ← attempt (sql_CreateClient params);
      match r with
      | Ok _ => mret tt
      | Err e =>
          if isUniqueViolation e then st_fail (EWrap "client already exists" (EVal ErrAlreadyUsed))
          else st_fail (EWrap "create client" (db_error e))
      end
  end.

Definition ClientPg_updateClient (c : Client) : STn unit :=
  params ← st_lift (client_params c);
  rows ← wrapped "update client" (sql_UpdateClient params);
  if rows =? 0 then st_fail (EVal ErrNotFound) else mret tt.

Definition ClientPg_Update (client : option Client) : STn unit :=
  match client with None => st_fail (EOther "client is required") | Some c => ClientPg_updateClient c end.

Definition scan_client (r : ClientRow) : res Client :=
  match toClient r with Err e => Err (EWrap "scan client" e) | Ok c => Ok c end.

Definition ClientPg_Execute (clientID : uuid) (validate : Client -> res unit) (mutate : Client -> Client) : STn Client :=
  inTx drv (tenant_tx_error "begin client execute tx") (tenant_tx_error "commit client execute")
    (row ← or_not_found (EVal ErrNotFound) "find client for execute" (GetClientForUpdate clientID);
     client ← st_lift (scan_client row);
     _ ← st_lift (validate client);
     let client := mutate client in
     ClientPg_updateClient client;; mret (TxCommit client)).

Definition ClientPg_FindByID (clientID : uuid) : STn Client :=
  r ← or_not_found (EVal ErrNotFound) "find client by id" (GetClientByID clientID); st_lift (toClient r).
Definition ClientPg_FindByTenantAndID (tenantID clientID : uuid) : STn Client :=
  r ← or_not_found (EVal ErrNotFound) "find client by tenant and id" (GetClientByTenantAndID clientID tenantID); st_lift (toClient r).
Definition ClientPg_FindByOAuthClientID (oauthClientID : string) : STn Client :=
  r ← or_not_found (EVal ErrNotFound) "find client by oauth_client_id" (GetClientByOAuthClientID oauthClientID); st_lift (toClient r).
Definition ClientPg_CountByTenant (tenantID : uuid) : STn Z := wrapped "count clients by tenant" (CountClientsByTenant tenantID).

(** ** The transaction of the services *)

(** [RunInTx] of [cmd/server/tenant_tx.go]; errors of [BeginTx] and [Commit] are
    returned as they are.  The five-second timeout is one of the failures of the driver. *)
Definition TenantPg_RunInTx {A} (ctx : TenantCtx) (fn : STn A) : STn A :=
  match tx_Err ctx with
  | Some e => st_fail (Wrap e CodeTimeout "transaction aborted: context cancelled")
  | None => inTx drv EOther EOther (a ← fn; mret (TxCommit a))
  end.

Definition pg_map_err {A} (f : error -> error) (m : STn A) : STn A := fun d =>
  match m d with (Ok a, d') => (Ok a, d') | (Err e, d') => (Err (f e), d') end.

(** [emitToAudit] with a publisher configured. *)
Definition emit_event (event : string) (tenantID : uuid) : STn unit := fun d =>
  (Ok tt, mkDB (db_tables d) (emit event tenantID (db_world d))).

Definition Pg_CreateTenant (ctx : TenantCtx) (name : string) : STn Tenant :=
  let name := TrimSpace name in
  TenantPg_RunInTx ctx (
    t ← st_lift (NewTenant (tx_ID ctx) name (tx_Now ctx));
    pg_map_err (fun e => if errors_Is e ErrAlreadyUsed || HasCode e CodeConflict
                         then New CodeConflict "tenant name must be unique"
                         else Wrap e CodeInternal "failed to create tenant")
      (TenantPg_CreateIfNameAvailable (Some t));;
    emit_event "tenant_created" (tn_ID t);;
    mret t).

Section create_client.
Context (url_Parse : string -> option (string * string)) (bcrypt : string -> res string).

Definition Pg_CreateClient (ctx : TenantCtx) (cmd : CreateClientCommand) : STn (Client * string) :=
  match CreateClientCommand_Validate url_Parse cmd with
  | Err e => st_fail (Wrap e CodeValidation "invalid client request")
  | Ok _ =>
      TenantPg_RunInTx ctx (
        tenant ← pg_map_err wrapTenantErr (TenantPg_FindByID (cc_TenantID cmd));
        if negb (Tenant_IsActive tenant)
        then st_fail (New CodeValidation "cannot create client under inactive tenant")
        else
          '(secretValue, secretHash) ← st_lift (generateSecret bcrypt ctx (cc_Public cmd));
          newClient ← st_lift (NewClient (tx_ID ctx) (cc_TenantID cmd) (cc_Name cmd) (tx_OAuthID ctx) secretHash
                                 (cc_RedirectURIs cmd) (cc_AllowedGrants cmd) (cc_AllowedScopes cmd) (tx_Now ctx));
          pg_map_err (fun e => Wrap e CodeInternal "failed to create client") (ClientPg_Create (Some newClient));;
          emit_event "client_created" (cl_TenantID newClient);;
          mret (newClient, secretValue))
  end.
End create_client.

(** ** The schema holds *)

Record tenant_integrity (t : TenantTables) : Prop := {
  ti_tenants : keyed tr_ID (tt_tenants t);
  ti_names : keyed (fun r => lower (tr_Name r)) (tt_tenants t);
  ti_clients : keyed clr_ID (tt_clients t);
  ti_oauth : keyed clr_OauthClientID (tt_clients t);
  ti_refs : Forall (fun r => clr_TenantID r ∈ tr_ID <$> tt_tenants t) (tt_clients t);
}.

Abbreviation tkeeps m := (st_keeps (fun d : DB W TenantTables => tenant_integrity (db_tables d)) m (fun _ => True)).

Lemma sql_CreateTenant_keeps arg : tkeeps (sql_CreateTenant arg).
Proof.
  apply keeps_stmt. intros now t a t' Hi Hf. cbv zeta in Hf. destruct (constraints _) eqn:Hc; simplify_eq. constraints_split.
  destruct Hi as [J1 J2 J3 J4 J5]. split; simpl; try done; [by apply keyed_insert|by apply keyed_insert|].
  eapply Forall_impl; [exact J5|]. intros r. rewrite fmap_app. simpl. set_solver.
Qed.


Lemma UpdateTenant_keeps id name status at_ : tkeeps (UpdateTenant id name status at_).
Proof.
  apply keeps_stmt. intros now t a t' Hi Hf. cbv zeta in Hf. destruct (_ =? 0); [by simplify_eq|].
  destruct (constraints _) eqn:Hc; simplify_eq. constraints_split. destruct Hi as [J1 J2 J3 J4 J5].
  split; simpl; try done.
  - by apply keyed_update.
  - by apply (keyed_update_unique tr_ID _ _ id (lower name)).
  - by rewrite update_keys.
Qed.

Lemma sql_CreateClient_keeps arg : tkeeps (sql_CreateClient arg).
Proof.
  apply keeps_stmt. intros now t a t' Hi Hf. destruct (client_stored arg); [|done].
  destruct (constraints _) eqn:Hc; simplify_eq. constraints_split. destruct Hi as [J1 J2 J3 J4 J5].
  split; simpl; try done; [by apply keyed_insert|by apply keyed_insert|by apply Forall_snoc].
Qed.

Lemma sql_UpdateClient_keeps arg : tkeeps (sql_UpdateClient arg).
Proof.
  apply keeps_stmt. intros now t a t' Hi Hf. unfold update_client_rows in Hf. destruct (client_stored arg) as [r|] eqn:Hs; [|done].
  destruct (_ =? 0); [by simplify_eq|]. destruct (constraints _) eqn:Hc; simplify_eq. constraints_split. destruct Hi as [J1 J2 J3 J4 J5].
  split; simpl; try done.
  - by apply keyed_update.
  - by apply (keyed_update_unique clr_ID _ _ (clr_ID arg) (clr_OauthClientID r)).
  - by apply Forall_update.
Qed.

Inductive TenantPgOp :=
| PgCreateTenant (ctx : TenantCtx) (name : string)
| PgUpdateTenant (t : option Tenant)
| PgExecuteTenant (tenantID : uuid) (validate : Tenant -> res unit) (mutate : Tenant -> Tenant)
| PgCreateClient (c : option Client)
| PgUpdateClient (c : option Client)
| PgExecuteClient (clientID : uuid) (validate : Client -> res unit) (mutate : Client -> Client).

Definition tenant_pg_op (op : TenantPgOp) : STn unit :=
  match op with
  | PgCreateTenant ctx name => _ ← Pg_CreateTenant ctx name; mret tt
  | PgUpdateTenant t => TenantPg_Update t
  | PgExecuteTenant i v m => _ ← TenantPg_Execute i v m; mret tt
  | PgCreateClient c => ClientPg_Create c
  | PgUpdateClient c => ClientPg_Update c
  | PgExecuteClient i v m => _ ← ClientPg_Execute i v m; mret tt
  end.

Lemma tkeeps_then {A B} (m : STn A) (f : A -> STn B) : tkeeps m -> (forall a, tkeeps (f a)) -> tkeeps (m ≫= f).
Proof. intros Hm Hf. eapply keeps_bind; [exact Hm|]. intros a _. apply Hf. Qed.
Lemma tkeeps_map_err {A} f (m : STn A) : tkeeps m -> tkeeps (pg_map_err f m).
Proof.
  intros Hm d r d' HI. unfold pg_map_err. destruct (m d) as [x d1] eqn:E. destruct (Hm d x d1 HI E) as [? _].
  destruct x; by intros [= <- <-].
Qed.
Lemma tkeeps_emit e i : tkeeps (emit_event e i).
Proof. by intros d r d' HI [= <- <-]. Qed.

Ltac tkeep :=
  repeat first
    [ solve [auto 1 using sql_CreateTenant_keeps, UpdateTenant_keeps, sql_CreateClient_keeps, sql_UpdateClient_keeps, tkeeps_emit]
    | apply keeps_inTx | apply keeps_wrapped | apply keeps_or_not_found | apply tkeeps_map_err | apply tkeeps_then; [|intros ?]
    | eapply keeps_attempt | apply keeps_query | by apply keeps_lift | by apply keeps_ret | by apply keeps_fail | case_match ].

Lemma tenant_pg_op_keeps op : tkeeps (tenant_pg_op op).
Proof.
  destruct op; simpl;
    unfold Pg_CreateTenant, TenantPg_RunInTx, TenantPg_CreateIfNameAvailable, TenantPg_Update, TenantPg_Execute, TenantPg_update,
      ClientPg_Create, ClientPg_Update, ClientPg_Execute, ClientPg_updateClient; tkeep.
Qed.

(** Whatever fails, and whatever the callers validate and change: tenants and clients
    keep their keys, no two tenants have names that differ only in case, no two
    clients have the same OAuth identifier, and every client has its tenant. *)
Theorem tenant_schema_holds (w : W) (ops : list TenantPgOp) :
  tenant_integrity (db_tables (foldl (fun d op => (tenant_pg_op op d).2) (mkDB (mkTT [] []) w) ops)).
Proof.
  assert (tenant_integrity (db_tables (mkDB (mkTT [] []) w))) as Hi by (split; unfold keyed; simpl; constructor).
  revert Hi. generalize (mkDB (mkTT [] []) w). induction ops as [|op ops IH]; intros d Hd; simpl; [done|]. apply IH.
  destruct (tenant_pg_op op d) as [r d'] eqn:E. by apply (tenant_pg_op_keeps op d r d').
Qed.

(** ** [Execute] is atomic validate-then-mutate *)

Context `{!PgLaws}.

Definition tenants_of (t : TenantTables) : gmap uuid Tenant := tmap tr_ID toTenant (tt_tenants t).

Definition pg_tenant (x : Tenant) : Tenant :=
  mkTenant (tn_ID x) (tn_Name x) (LifeStatus_of (LifeStatus_text (tn_Status x))) (tn_CreatedAt x) (ts (tn_UpdatedAt x)).

Lemma row_there {K R} `{EqDecision K} (key : R -> K) (l : list R) row : row ∈ l ->
  (rows_affected (fun r => bool_decide (key r = key row)) l =? 0) = false.
Proof.
  intros Hin. apply Z.eqb_neq. intros Hz. pose proof (proj1 (rows_affected_0 _ _) Hz row Hin) as Hb. simpl in Hb. by bools.
Qed.

Lemma tenant_update_spec (m : Tenant -> Tenant) k row d r d' :
  (forall x, tn_ID (m x) = tn_ID x /\ tn_CreatedAt (m x) = tn_CreatedAt x) -> keyed tr_ID (tt_tenants (db_tables d)) ->
  row ∈ tt_tenants (db_tables d) -> tr_ID row = k -> TenantPg_update (m (toTenant row)) d = (r, d') ->
  (exists e, r = Err e /\ infra e)
  \/ (r = Ok tt /\ keyed tr_ID (tt_tenants (db_tables d')) /\
      tenants_of (db_tables d') = <[k := pg_tenant (m (toTenant row))]> (tenants_of (db_tables d))).
Proof.
  intros Hm Hk Hin <-. destruct (Hm (toTenant row)) as [Hid Hcr]. unfold TenantPg_update, wrapped, mbind, st_bind.
  destruct (UpdateTenant _ _ _ _ d) as [x d1] eqn:Hx. rewrite Hid in Hx. unfold UpdateTenant in Hx. simpl in Hx.
  apply stmt_cases in Hx as (now & _ & [(e & -> & _)|[(e & a & t & _ & -> & _)|[(e & _ & -> & _)|(a & t & Hf & -> & Ht)]]]).
  1-3: intros [= <- <-]; left; eexists; split; [done|infra].
  cbv zeta in Hf. rewrite row_there in Hf by done. destruct (constraints _); [done|]. injection Hf as <- <-.
  rewrite row_there by done. intros [= <- <-]. right. split; [done|]. rewrite Ht. simpl. split; [by apply keyed_update|].
  unfold tenants_of. simpl. rewrite tmap_update_row by done. unfold pg_tenant. by rewrite Hid, Hcr.
Qed.

(** The SQL [Execute] on tenants is an atomic validate-then-mutate: it fails without
    effect, or it succeeds with the reply lost, or it does what the in-memory store
    does, at the precision of the database. *)
Lemma tenant_execute_agrees id v m d r d' :
  (forall x, tn_ID (m x) = tn_ID x /\ tn_CreatedAt (m x) = tn_CreatedAt x) -> keyed tr_ID (tt_tenants (db_tables d)) ->
  TenantPg_Execute id v m d = (r, d') ->
  keyed tr_ID (tt_tenants (db_tables d')) /\ agrees tenants_of d r d' (execute_spec pg_tenant id v m (tenants_of (db_tables d))).
Proof.
  intros Hm Hk Hx.
  exact (execute_row_spec drv tt_tenants tr_ID toTenant pg_tenant (fun t => keyed tr_ID (tt_tenants t)) (fun r => Ok (toTenant r)) id v m
    TenantPg_update "begin tenant execute tx" "commit tenant execute" "find tenant for execute" (fun _ H => H) (fun _ _ _ _ => eq_refl)
    (fun row d r d' Hk Hin Hid Hu => tenant_update_spec m id row d r d' Hm Hk Hin Hid Hu) d r d' Hk Hx).
Qed.

(** Clients. *)
Definition texts_ok (c : Client) : Prop :=
  Forall (fun x => text_ok x = true) (cl_RedirectURIs c) /\ Forall (fun x => text_ok x = true) (cl_AllowedGrants c) /\
  Forall (fun x => text_ok x = true) (cl_AllowedScopes c).

Definition row_client (r : ClientRow) : Client :=
  match toClient r with Ok c => c | Err _ => mkClient (clr_ID r) 0 "" "" "" [] [] [] LifeInactive 0 0 end.

Definition pg_client (c : Client) : Client :=
  mkClient (cl_ID c) (cl_TenantID c) (cl_Name c) (cl_OAuthClientID c) (cl_ClientSecretHash c) (cl_RedirectURIs c) (cl_AllowedGrants c)
    (cl_AllowedScopes c) (LifeStatus_of (LifeStatus_text (cl_Status c))) (cl_CreatedAt c) (ts (cl_UpdatedAt c)).

Record clients_wf (t : TenantTables) : Prop := {
  cw_keyed : keyed clr_ID (tt_clients t);
  cw_rows : Forall (fun r => scan_client r = Ok (row_client r) /\ texts_ok (row_client r)) (tt_clients t);
}.

Definition clients_of (t : TenantTables) : gmap uuid Client := tmap clr_ID row_client (tt_clients t).

(** A list of strings comes back as it was written. *)
Lemma list_column field l b c : Forall (fun x => text_ok x = true) l -> strings_Marshal l = Ok b -> jsonb b = Some c ->
  unmarshalJSONIfPresent c field = Ok l.
Proof.
  intros Hl Hb Hc. destruct (strings_json l b c Hl Hb Hc) as (Hu & Hne & _). unfold unmarshalJSONIfPresent.
  destruct (str_empty c) eqn:E; [|by rewrite Hu]. apply bool_decide_eq_true in E. destruct l; [done|]. by destruct Hne.
Qed.

Lemma client_params_ok c : exists p, client_params c = Ok p /\ clr_ID p = cl_ID c.
Proof.
  unfold client_params, marshal_field. destruct (strings_Marshal_ok (cl_RedirectURIs c)) as [b1 ->].
  destruct (strings_Marshal_ok (cl_AllowedGrants c)) as [b2 ->]. destruct (strings_Marshal_ok (cl_AllowedScopes c)) as [b3 ->].
  by eexists.
Qed.

Lemma stored_client c p a row : texts_ok c -> client_params c = Ok p -> client_stored p = Ok a ->
  clr_ID row = cl_ID c -> clr_TenantID row = cl_TenantID c -> clr_CreatedAt row = cl_CreatedAt c ->
  toClient (update_client_row a row) = Ok (pg_client c).
Proof.
  intros (L1 & L2 & L3) Hp Ha Hid Htn Hcr. unfold client_params, marshal_field in Hp.
  destruct (strings_Marshal (cl_RedirectURIs c)) as [b1|] eqn:E1; [|done].
  destruct (strings_Marshal (cl_AllowedGrants c)) as [b2|] eqn:E2; [|done].
  destruct (strings_Marshal (cl_AllowedScopes c)) as [b3|] eqn:E3; [|done]. injection Hp as <-. unfold client_stored in Ha. simpl in Ha.
  destruct (jsonb b1) as [c1|] eqn:F1; [|done]. destruct (jsonb b2) as [c2|] eqn:F2; [|done].
  destruct (jsonb b3) as [c3|] eqn:F3; [|done]. injection Ha as <-. unfold toClient, update_client_row. simpl.
  rewrite (list_column _ _ _ _ L1 E1 F1), (list_column _ _ _ _ L2 E2 F2), (list_column _ _ _ _ L3 E3 F3). cbn.
  unfold pg_client. rewrite Hid, Htn, Hcr. f_equal. f_equal. unfold nullString. destruct (str_empty _) eqn:E; [|done].
  by apply bool_decide_eq_true in E.
Qed.

Definition client_change_ok (m : Client -> Client) : Prop :=
  forall c, cl_ID (m c) = cl_ID c /\ cl_TenantID (m c) = cl_TenantID c /\ cl_CreatedAt (m c) = cl_CreatedAt c /\ (texts_ok c -> texts_ok (m c)).

Lemma toClient_fields r c : toClient r = Ok c -> cl_ID c = clr_ID r /\ cl_TenantID c = clr_TenantID r /\ cl_CreatedAt c = clr_CreatedAt r.
Proof.
  unfold toClient, mbind, result_bind.
  destruct (unmarshalJSONIfPresent (clr_RedirectUris r) _); [|done]. destruct (unmarshalJSONIfPresent (clr_AllowedGrants r) _); [|done].
  destruct (unmarshalJSONIfPresent (clr_AllowedScopes r) _); [|done]. by intros [= <-].
Qed.

Lemma row_client_of r c : toClient r = Ok c -> row_client r = c /\ scan_client r = Ok c.
Proof. unfold row_client, scan_client. by intros ->. Qed.

Lemma client_update_spec (m : Client -> Client) k row d r d' : client_change_ok m -> clients_wf (db_tables d) ->
  row ∈ tt_clients (db_tables d) -> clr_ID row = k -> ClientPg_updateClient (m (row_client row)) d = (r, d') ->
  (exists e, r = Err e /\ infra e)
  \/ (r = Ok tt /\ clients_wf (db_tables d') /\
      clients_of (db_tables d') = <[k := pg_client (m (row_client row))]> (clients_of (db_tables d))).
Proof.
  intros Hm [Hk Hrows] Hin <-. pose proof (proj1 (Forall_forall _ _) Hrows row Hin) as [Hscan Htx].
  assert (toClient row = Ok (row_client row)) as Hto. { unfold scan_client in Hscan. destruct (toClient row) eqn:E; [|done]. by injection Hscan as ->. }
  destruct (toClient_fields _ _ Hto) as (F1 & F2 & F3). destruct (Hm (row_client row)) as (G1 & G2 & G3 & G4).
  unfold ClientPg_updateClient, wrapped, mbind, st_bind, st_lift.
  destruct (client_params_ok (m (row_client row))) as (p & Hp & Hpid). rewrite Hp.
  destruct (sql_UpdateClient p d) as [x d1] eqn:Hx.
  apply stmt_cases in Hx as (now & _ & [(e & -> & _)|[(e & a & t & _ & -> & _)|[(e & _ & -> & _)|(a & t & Hf & -> & Ht)]]]).
  1-3: intros [= <- <-]; left; eexists; split; [done|infra].
  unfold update_client_rows in Hf. destruct (client_stored p) as [a0|] eqn:Hs; [|done].
  assert (clr_ID p = clr_ID row) as Epid by congruence. rewrite Epid in Hf. rewrite row_there in Hf by done.
  destruct (constraints _); [done|]. injection Hf as <- <-. rewrite row_there by done. intros [= <- <-]. right. split; [done|]. rewrite Ht.
  assert (forall x, x ∈ tt_clients (db_tables d) -> clr_ID x = clr_ID row -> x = row) as Huniq by (intros; by apply (keyed_inj clr_ID _ x row Hk)).
  assert (toClient (update_client_row a0 row) = Ok (pg_client (m (row_client row)))) as Hnew.
  { eapply stored_client; [by apply G4|done|done|congruence|congruence|congruence]. }
  destruct (row_client_of _ _ Hnew) as [Hrc Hsc]. split; [split; simpl|].
  - by apply keyed_update.
  - apply Forall_update; [done|]. intros x Hx _ Hb. bools. rewrite (Huniq x Hx Hb), Hrc. split; [done|].
    destruct (G4 Htx) as (? & ? & ?). by split_and!.
  - unfold clients_of. simpl. rewrite tmap_update_row by done. by rewrite Hrc.
Qed.

Lemma client_execute_agrees id v m d r d' : client_change_ok m -> clients_wf (db_tables d) ->
  ClientPg_Execute id v m d = (r, d') ->
  clients_wf (db_tables d') /\ agrees clients_of d r d' (execute_spec pg_client id v m (clients_of (db_tables d))).
Proof.
  intros Hm Hw Hx.
  refine (execute_row_spec drv tt_clients clr_ID row_client pg_client clients_wf scan_client id v m
    ClientPg_updateClient "begin client execute tx" "commit client execute" "find client for execute" cw_keyed _
    (fun row d r d' Hk Hin Hid Hu => client_update_spec m id row d r d' Hm Hk Hin Hid Hu) d r d' Hw Hx).
  intros t row [_ Hr] Hin. rewrite Forall_forall in Hr. by destruct (Hr row Hin).
Qed.

(** ** Creating a tenant *)

Definition tenant_row (x : Tenant) : TenantRow :=
  mkTenantRow (tn_ID x) (tn_Name x) (LifeStatus_text (tn_Status x)) (ts (tn_CreatedAt x)) (ts (tn_UpdatedAt x)).
Definition with_tenant (x : Tenant) (t : TenantTables) : TenantTables := mkTT (tt_tenants t ++ [tenant_row x]) (tt_clients t).
Definition name_taken (t : TenantTables) (name : string) : bool := has ((fun x => lower (tr_Name x)) <$> tt_tenants t) (lower name).

Lemma create_if_available_cases x d r d' : TenantPg_CreateIfNameAvailable (Some x) d = (r, d') ->
  (exists e, r = Err e /\ (db_tables d' = db_tables d \/ infra e /\ db_tables d' = with_tenant x (db_tables d)))
  \/ (r = Ok tt /\ db_tables d' = with_tenant x (db_tables d) /\ name_taken (db_tables d) (tn_Name x) = false).
Proof.
  simpl. unfold attempt, mbind, st_bind. destruct (sql_CreateTenant _ d) as [q d1] eqn:Hq.
  apply stmt_cases in Hq as (now & _ & [(e & -> & Ht)|[(e & a & t & Hf & -> & Ht)|[(e & Hf & -> & Ht)|(a & t & Hf & -> & Ht)]]]); simpl.
  - intros [= <- <-]. left. eexists. split; [done|]. by left.
  - cbv zeta in Hf. destruct (constraints _); [done|]. injection Hf as <-. intros [= <- <-]. left. eexists. split; [done|]. right.
    split; [infra|]. by rewrite Ht.
  - destruct (isUniqueViolation e); intros [= <- <-]; left; eexists; (split; [done|by left]).
  - cbv zeta in Hf. destruct (constraints _) eqn:Hc; [done|]. injection Hf as <-. intros [= <- <-]. right. split; [done|].
    constraints_split. by rewrite Ht.
Qed.

Lemma create_works x d : healthy drv -> tenant_columns (tenant_row x) = None -> has (tr_ID <$> tt_tenants (db_tables d)) (tn_ID x) = false ->
  exists d', TenantPg_CreateIfNameAvailable (Some x) d =
    (if name_taken (db_tables d) (tn_Name x) then Err (EWrap "tenant name must be unique" (EVal ErrAlreadyUsed)) else Ok tt, d').
Proof.
  intros Hh Hc Hid. simpl. unfold attempt, mbind, st_bind, sql_CreateTenant.
  match goal with |- context [stmt drv ?f d] => destruct (stmt_healthy drv f d Hh) as (now & w & ->) end.
  cbv zeta. simpl. fold (tenant_row x). unfold constraints. rewrite Hc. simpl. rewrite Hid. simpl. fold (name_taken (db_tables d) (tn_Name x)).
  by destruct (name_taken (db_tables d) (tn_Name x)); eexists.
Qed.

(** Creating a tenant on SQL: success means that exactly the new row was added and
    that no tenant had the name in any case; an error leaves the tables alone, unless
    only the reply to COMMIT or to the INSERT was lost.  When the server works, a
    valid name gives the tenant if it is free and a conflict if it is taken. *)
Theorem pg_create_tenant_exact (ctx : TenantCtx) (name : string) (d : DB W TenantTables) :
  let '(r, d') := Pg_CreateTenant ctx name d in
  ((exists t, r = Ok t /\ NewTenant (tx_ID ctx) (TrimSpace name) (tx_Now ctx) = Ok t /\ db_tables d' = with_tenant t (db_tables d) /\
      name_taken (db_tables d) (TrimSpace name) = false)
   \/ (exists e, r = Err e /\ (db_tables d' = db_tables d \/
        exists t, NewTenant (tx_ID ctx) (TrimSpace name) (tx_Now ctx) = Ok t /\ infra e /\ db_tables d' = with_tenant t (db_tables d)))) /\
  (healthy drv -> tx_Err ctx = None -> has (tr_ID <$> tt_tenants (db_tables d)) (tx_ID ctx) = false ->
   forall t, NewTenant (tx_ID ctx) (TrimSpace name) (tx_Now ctx) = Ok t -> tenant_columns (tenant_row t) = None ->
   r = if name_taken (db_tables d) (TrimSpace name) then Err (New CodeConflict "tenant name must be unique") else Ok t).
Proof.
  destruct (Pg_CreateTenant ctx name d) as [r d'] eqn:Hr. unfold Pg_CreateTenant, TenantPg_RunInTx in Hr.
  assert (forall t, NewTenant (tx_ID ctx) (TrimSpace name) (tx_Now ctx) = Ok t -> tn_Name t = TrimSpace name /\ tn_ID t = tx_ID ctx) as Hnew.
  { unfold NewTenant. intros t E. repeat case_match; by simplify_eq. }
  split.
  - destruct (tx_Err ctx); [injection Hr as <- <-; right; eexists; split; [done|by left]|].
    apply inTx_cases in Hr as [(e & -> & Ht)|(w & br & d1 & Hbody & Htx)]; [right; eexists; split; [done|by left]|].
    unfold mbind at 1 2, st_bind, st_lift in Hbody. destruct (NewTenant _ _ _) as [t|e] eqn:Hn.
    2: { injection Hbody as <- <-. destruct Htx as [(? & [= <-] & -> & Ht)|Htx]; [|naive_solver]. right. eexists. split; [done|by left]. }
    unfold mbind at 1, st_bind, pg_map_err in Hbody. destruct (TenantPg_CreateIfNameAvailable (Some t) _) as [x d2] eqn:Hx.
    destruct (create_if_available_cases _ _ _ _ Hx) as [(e & -> & _)|(-> & Ht2 & Hfree)]; simpl in Hbody; injection Hbody as <- <-.
    { destruct Htx as [(? & [= <-] & -> & Ht)|Htx]; [|naive_solver]. right. eexists. split; [done|by left]. }
    simpl in Ht2. destruct (Hnew t eq_refl) as [Hnm _]. rewrite Hnm in Hfree. simpl in Hfree.
    destruct Htx as [?|[?|[(a & e & [= <-] & -> & Ht)|[(a & e & [= <-] & -> & Ht)|(a & [= <-] & -> & Ht)]]]]; [naive_solver|naive_solver| | |].
    + right. eexists. split; [done|by left].
    + right. eexists. split; [done|right]. exists t. rewrite Ht. by split_and!.
    + left. exists t. rewrite Ht. by split_and!.
  - intros Hh Hnone Hid t Hn Hcol. destruct (Hnew t Hn) as [Hnm Htid]. rewrite Hnone in Hr. unfold inTx in Hr.
    destruct (Hh (db_world d)) as (Hb & _ & _). destruct (drv_begin drv (db_world d)) as [o w]. simpl in Hb. subst o.
    unfold mbind at 1 2, st_bind, st_lift in Hr. rewrite Hn in Hr. unfold mbind at 1, st_bind, pg_map_err in Hr.
    destruct (create_works t (mkDB (db_tables d) w) Hh Hcol ltac:(by rewrite Htid)) as [d2 Hc]. rewrite Hc, Hnm in Hr. simpl in Hr.
    destruct (name_taken _ _); [by injection Hr as <- _|]. simpl in Hr. destruct (Hh (emit "tenant_created" (tn_ID t) (db_world d2))) as (_ & _ & Hcm).
    destruct (drv_commit drv _) as [o w2]. simpl in Hcm. subst o. by injection Hr as <- _.
Qed.
End tenantsql.

(** ** Examples *)

Module TenantSqlExample.
Import PgExample.

(** A driver in a world that also holds the events of the publisher. *)
Definition logging {W} (drv : Driver W) : Driver (W * list (string * uuid)) :=
  mkDriver (fun w => let '(r, w1) := drv_begin drv w.1 in (r, (w1, w.2))) (fun w => let '(r, w1) := drv_stmt drv w.1 in (r, (w1, w.2)))
    (fun w => let '(r, w1) := drv_commit drv w.1 in (r, (w1, w.2))) (fun w => drv_now drv w.1).
Definition log_event {W} (event : string) (tenantID : uuid) (w : W * list (string * uuid)) : W * list (string * uuid) :=
  (w.1, w.2 ++ [(event, tenantID)]).

Definition lower_id (s : string) : string := s.
Definition ctx : TenantCtx := mkTenantCtx 5000 None None 7 "oauth-1" (Ok "secret").

(** The COMMIT fails after the event was handed to the publisher: the audit trail
    reports the creation of a tenant that does not exist. *)
Lemma rolled_back_tenant_is_audited :
  let d0 := mkDB (mkTT [] []) ([Done; NotDone "connection reset"], []) in
  let '(r, d) := Pg_CreateTenant (logging (scripted 0)) lower_id log_event ctx "Acme" d0 in
  is_Ok r = false /\ tt_tenants (db_tables d) = [] /\ (db_world d).2 = [("tenant_created", 7%N)].
Proof. vm_compute. done. Qed.
End TenantSqlExample.
