(* ===== verification/RegistrySql.v ===== *)
(** * The SQL registry cache
    [internal/evidence/registry/store/store_postgres.go] and the queries of
    [internal/evidence/registry/store/sqlc/cache.sql.go]

    The cache the server uses when a database is configured.  Its rows are the last
    records saved, by national identifier and mode; a row is served while its check is
    not older than the time to live.  Metrics are not modelled. *)
From S2P Require Import Prelude Errors LRU RegistryCache Registry Orchestrator Ring AuditTrail RegistryService SqlDb.
Open Scope Z_scope.

Record CitizenCacheRow := mkCitizenRow {
  cc_NationalID : string;
  cc_FullName : string;
  cc_DateOfBirth : string;
  cc_Address : string;
  cc_Valid : bool;
  cc_Source : string;
  cc_CheckedAt : time;
  cc_Regulated : bool;
}.

Record SanctionsCacheRow := mkSanctionsRow {
  sn_NationalID : string; sn_Listed : bool; sn_Source : string; sn_CheckedAt : time;
}.

Record CacheTables := mkCT { ct_citizens : list CitizenCacheRow; ct_sanctions : list SanctionsCacheRow }.

Section registrysql.
Context {W : Type} (drv : Driver W) `{!PgTypes} (cacheTTL : duration).

Abbreviation QC A := (ST (DB W CacheTables) dberr A) (only parsing).
Abbreviation SC A := (ST (DB W CacheTables) error A) (only parsing).

(** ** Queries *)

Definition GetCitizenCache (nationalID : string) (regulated : bool) (checkedAt : time) : QC CitizenCacheRow :=
  query drv (fun t => one_row (select_where (fun r =>
    bool_decide (cc_NationalID r = nationalID) && Bool.eqb (cc_Regulated r) regulated && (ts checkedAt <=? cc_CheckedAt r)) (ct_citizens t))).

Definition GetSanctionsCache (nationalID : string) (checkedAt : time) : QC SanctionsCacheRow :=
  query drv (fun t => one_row (select_where (fun r =>
    bool_decide (sn_NationalID r = nationalID) && (ts checkedAt <=? sn_CheckedAt r)) (ct_sanctions t))).

Definition citizen_key (r : CitizenCacheRow) : string * bool := (cc_NationalID r, cc_Regulated r).

(** The key column is [VARCHAR(20)], the others are [TEXT]. *)
Definition citizen_text (r : CitizenCacheRow) : option string :=
  constraints [varchar 20 (cc_NationalID r); if text_ok (cc_FullName r) then None else Some invalid_text;
               if text_ok (cc_DateOfBirth r) then None else Some invalid_text; if text_ok (cc_Address r) then None else Some invalid_text;
               if text_ok (cc_Source r) then None else Some invalid_text].

Definition UpsertCitizenCache (arg : CitizenCacheRow) : QC unit :=
  stmt drv (fun _ t =>
    let r := mkCitizenRow (cc_NationalID arg) (cc_FullName arg) (cc_DateOfBirth arg) (cc_Address arg) (cc_Valid arg) (cc_Source arg)
               (ts (cc_CheckedAt arg)) (cc_Regulated arg) in
    match citizen_text r with
    | Some c => Err (PgError c)
    | None => Ok (tt, mkCT (upsert_row citizen_key r (ct_citizens t)) (ct_sanctions t))
    end).

Definition UpsertSanctionsCache (arg : SanctionsCacheRow) : QC unit :=
  stmt drv (fun _ t =>
    let r := mkSanctionsRow (sn_NationalID arg) (sn_Listed arg) (sn_Source arg) (ts (sn_CheckedAt arg)) in
    match constraints [varchar 20 (sn_NationalID r); if text_ok (sn_Source r) then None else Some invalid_text] with
    | Some c => Err (PgError c)
    | None => Ok (tt, mkCT (ct_citizens t) (upsert_row sn_NationalID r (ct_sanctions t)))
    end).

(** ** The cache *)

Definition toCitizenRecord (r : CitizenCacheRow) : models_CitizenRecord :=
  mkCR (cc_NationalID r) (cc_FullName r) (cc_DateOfBirth r) (cc_Address r) (cc_Valid r) (cc_Source r) (cc_CheckedAt r).
Definition toSanctionsRecord (r : SanctionsCacheRow) : models_SanctionsRecord :=
  mkSR (sn_NationalID r) (sn_Listed r) (sn_Source r) (sn_CheckedAt r).

(** [now] is the clock of the request. *)
Definition CachePg_FindCitizen (now : time) (nationalID : string) (regulated : bool) : SC models_CitizenRecord :=
  let cutoff := time_Add now (- cacheTTL) in
  r ← or_not_found (EVal ErrCacheNotFound) "find citizen cache" (GetCitizenCache nationalID regulated cutoff);
  mret (toCitizenRecord r).

Definition CachePg_SaveCitizen (key : string) (record : option models_CitizenRecord) (regulated : bool) : SC unit :=
  match record with
  | None => st_fail (EOther "citizen record is required")
  | Some r =>
      wrapped "save citizen cache"
        (UpsertCitizenCache (mkCitizenRow key (crec_FullName r) (crec_DateOfBirth r) (crec_Address r) (crec_Valid r) (crec_Source r)
                               (crec_CheckedAt r) regulated))
  end.

Definition CachePg_FindSanction (now : time) (nationalID : string) : SC models_SanctionsRecord :=
  let cutoff := time_Add now (- cacheTTL) in
  r ← or_not_found (EVal ErrCacheNotFound) "find sanctions cache" (GetSanctionsCache nationalID cutoff);
  mret (toSanctionsRecord r).

Definition CachePg_SaveSanction (key : string) (record : option models_SanctionsRecord) : SC unit :=
  match record with
  | None => st_fail (EOther "sanctions record is required")
  | Some r => wrapped "save sanctions cache" (UpsertSanctionsCache (mkSanctionsRow key (srec_Listed r) (srec_Source r) (srec_CheckedAt r)))
  end.

(** ** What a hit is *)

Inductive CacheOp :=
| CoSaveCitizen (key : string) (r : models_CitizenRecord) (regulated : bool)
| CoSaveSanction (key : string) (r : models_SanctionsRecord).

Definition cache_op (op : CacheOp) : SC unit :=
  match op with
  | CoSaveCitizen k r m => CachePg_SaveCitizen k (Some r) m
  | CoSaveSanction k r => CachePg_SaveSanction k (Some r)
  end.

Definition cache_run (ops : list CacheOp) (d : DB W CacheTables) : DB W CacheTables := foldl (fun d op => (cache_op op d).2) d ops.

(** The record as the cache gives it back: its identifier is the key. *)
Definition served_citizen (key : string) (r : models_CitizenRecord) : models_CitizenRecord :=
  mkCR key (crec_FullName r) (crec_DateOfBirth r) (crec_Address r) (crec_Valid r) (crec_Source r) (ts (crec_CheckedAt r)).
Definition served_sanction (key : string) (r : models_SanctionsRecord) : models_SanctionsRecord :=
  mkSR key (srec_Listed r) (srec_Source r) (ts (srec_CheckedAt r)).

(** Rows come from saves. *)
Record from_saves (ops : list CacheOp) (t : CacheTables) : Prop := {
  fs_keyed : keyed citizen_key (ct_citizens t);
  fs_skeyed : keyed sn_NationalID (ct_sanctions t);
  fs_citizens : forall r, r ∈ ct_citizens t ->
    exists x, CoSaveCitizen (cc_NationalID r) x (cc_Regulated r) ∈ ops /\ toCitizenRecord r = served_citizen (cc_NationalID r) x;
  fs_sanctions : forall r, r ∈ ct_sanctions t ->
    exists x, CoSaveSanction (sn_NationalID r) x ∈ ops /\ toSanctionsRecord r = served_sanction (sn_NationalID r) x;
}.

Lemma cache_op_keeps ops op : op ∈ ops -> st_keeps (fun d : DB W CacheTables => from_saves ops (db_tables d)) (cache_op op) (fun _ => True).
Proof.
  intros Hop. destruct op as [k x m|k x]; simpl; apply keeps_wrapped, keeps_stmt; intros now t a t' [H1 H2 H3 H4] Hf; cbv zeta in Hf.
  - destruct (citizen_text _); simplify_eq.
    set (r := mkCitizenRow k (crec_FullName x) (crec_DateOfBirth x) (crec_Address x) (crec_Valid x) (crec_Source x) (ts (crec_CheckedAt x)) m).
    destruct (upsert_row_spec citizen_key r _ H1) as (Hk & _ & Hin & _).
    split; simpl; [done|done| |done]. intros y Hy. destruct (Hin y Hy) as [->|?]; [|auto]. by exists x.
  - destruct (constraints _); simplify_eq.
    set (r := mkSanctionsRow k (srec_Listed x) (srec_Source x) (ts (srec_CheckedAt x))).
    destruct (upsert_row_spec sn_NationalID r _ H2) as (Hk & _ & Hin & _).
    split; simpl; [done|done|done|]. intros y Hy. destruct (Hin y Hy) as [->|?]; [|auto]. by exists x.
Qed.

Lemma cache_run_saves all ops d : (forall op, op ∈ ops -> op ∈ all) -> from_saves all (db_tables d) -> from_saves all (db_tables (cache_run ops d)).
Proof.
  unfold cache_run. revert d. induction ops as [|op ops IH]; intros d Hsub Hd; simpl; [done|].
  apply IH; [set_solver|]. destruct (cache_op op d) as [r d'] eqn:E. apply (cache_op_keeps all op ltac:(set_solver) d r d' Hd E).
Qed.

(** A save is served as long as it is fresh, and not later. *)
Lemma saved_citizen_served ops d now k m r : healthy drv -> from_saves ops (db_tables d) ->
  citizen_text (mkCitizenRow k (crec_FullName r) (crec_DateOfBirth r) (crec_Address r) (crec_Valid r) (crec_Source r) (ts (crec_CheckedAt r)) m) = None ->
  (CachePg_FindCitizen now k m (cache_op (CoSaveCitizen k r m) d).2).1 =
  if ts (now - cacheTTL) <=? ts (crec_CheckedAt r) then Ok (served_citizen k r) else Err (EVal ErrCacheNotFound).
Proof.
  intros Hh Hfs Htx. simpl. unfold wrapped, UpsertCitizenCache.
  match goal with |- context [stmt drv ?f d] => destruct (stmt_healthy drv f d Hh) as (n & w1 & ->) end. cbv zeta. simpl. rewrite Htx. simpl.
  set (row := mkCitizenRow k (crec_FullName r) (crec_DateOfBirth r) (crec_Address r) (crec_Valid r) (crec_Source r) (ts (crec_CheckedAt r)) m).
  destruct (upsert_row_spec citizen_key row _ (fs_keyed _ _ Hfs)) as (Hk & Hr & _ & _).
  unfold CachePg_FindCitizen, or_not_found, mbind, st_bind, GetCitizenCache.
  match goal with |- context [query drv ?f ?d1] => destruct (query_healthy drv f d1 Hh) as (w2 & ->) end. simpl. unfold time_Add.
  replace (now + - cacheTTL) with (now - cacheTTL) by lia.
  destruct (one_row _) as [y|e] eqn:Ho.
  - apply one_row_in in Ho as [Hin Hb]. bools. match goal with Hm : Bool.eqb _ _ = true |- _ => apply Bool.eqb_prop in Hm end.
    assert (y = row) as -> by (apply (keyed_inj citizen_key _ y row Hk Hin Hr); unfold citizen_key; simpl; congruence).
    simpl in *. rewrite (proj2 (Z.leb_le _ _)) by done. done.
  - unfold one_row, select_where in Ho. destruct (filter _ _) as [|y l] eqn:E; [|done]. injection Ho as <-.
    destruct (ts (now - cacheTTL) <=? ts (crec_CheckedAt r)) eqn:El; [|done]. exfalso.
    assert (row ∈ ([] : list CitizenCacheRow)) as Hin by (rewrite <- E; apply list_elem_of_filter; split; [|done]; simpl;
      rewrite bool_decide_eq_true_2, Bool.eqb_reflx, El by done; done). by apply elem_of_nil in Hin.
Qed.

(** What the SQL cache serves.  A hit is a record that was saved under the same
    identifier and in the same mode, checked no longer ago than the time to live
    (at the precision of the database), with its time at that precision and with the
    identifier it is stored under in place of its own.  When the database works, a
    record just saved is served as long as it is fresh, and not later. *)
Theorem pg_cache_hits_exact (ops : list CacheOp) (w : W) (now : time) (k : string) (m : bool) :
  let d := cache_run ops (mkDB (mkCT [] []) w) in
  (forall x, (CachePg_FindCitizen now k m d).1 = Ok x ->
     exists r, CoSaveCitizen k r m ∈ ops /\ x = served_citizen k r /\ ts (now - cacheTTL) <= ts (crec_CheckedAt r)) /\
  (forall x, (CachePg_FindSanction now k d).1 = Ok x ->
     exists r, CoSaveSanction k r ∈ ops /\ x = served_sanction k r /\ ts (now - cacheTTL) <= ts (srec_CheckedAt r)) /\
  (healthy drv -> forall r, citizen_text (mkCitizenRow k (crec_FullName r) (crec_DateOfBirth r) (crec_Address r) (crec_Valid r) (crec_Source r)
                               (ts (crec_CheckedAt r)) m) = None ->
     (CachePg_FindCitizen now k m (cache_op (CoSaveCitizen k r m) d).2).1 =
     if ts (now - cacheTTL) <=? ts (crec_CheckedAt r) then Ok (served_citizen k r) else Err (EVal ErrCacheNotFound)).
Proof.
  cbv zeta. set (d := cache_run ops (mkDB (mkCT [] []) w)).
  assert (from_saves ops (db_tables d)) as Hfs.
  { apply cache_run_saves; [done|]. split; unfold keyed; simpl; try constructor; intros r Hr; by apply elem_of_nil in Hr. }
  split_and!.
  - intros x. unfold CachePg_FindCitizen, or_not_found, mbind, st_bind. destruct (GetCitizenCache _ _ _ d) as [q d1] eqn:Hq.
    apply query_cases in Hq as [_ [(e & ->)| ->]]; [done|]. destruct (one_row _) as [row|e] eqn:Ho; [|by destruct e]. intros [= <-].
    apply one_row_in in Ho as [Hin Hb]. bools. destruct (fs_citizens _ _ Hfs row Hin) as (r & Hop & Hx).
    match goal with Hm : Bool.eqb _ _ = true |- _ => apply Bool.eqb_prop in Hm; subst m end. subst k. exists r. split_and!; [done|done|].
    apply (f_equal crec_CheckedAt) in Hx. unfold time_Add in *. simpl in Hx. rewrite <- Hx. by rewrite <- Z.add_opp_r.
  - intros x. unfold CachePg_FindSanction, or_not_found, mbind, st_bind. destruct (GetSanctionsCache _ _ d) as [q d1] eqn:Hq.
    apply query_cases in Hq as [_ [(e & ->)| ->]]; [done|]. destruct (one_row _) as [row|e] eqn:Ho; [|by destruct e]. intros [= <-].
    apply one_row_in in Ho as [Hin Hb]. bools. destruct (fs_sanctions _ _ Hfs row Hin) as (r & Hop & Hx). subst k. exists r. split_and!; [done|done|].
    apply (f_equal srec_CheckedAt) in Hx. unfold time_Add in *. simpl in Hx. rewrite <- Hx. by rewrite <- Z.add_opp_r.
  - intros Hh r Htx. by apply (saved_citizen_served ops).
Qed.

(** In regulated mode the service blanks the identifier of the record it caches; the
    cache hands it back. *)
Lemma pg_cache_restores_identifier w now k r : healthy drv -> crec_NationalID r = "" -> k <> "" ->
  citizen_text (mkCitizenRow k (crec_FullName r) (crec_DateOfBirth r) (crec_Address r) (crec_Valid r) (crec_Source r)
                  (ts (crec_CheckedAt r)) true) = None ->
  ts (now - cacheTTL) <= ts (crec_CheckedAt r) ->
  exists x, (CachePg_FindCitizen now k true (cache_op (CoSaveCitizen k r true) (mkDB (mkCT [] []) w)).2).1 = Ok x /\
    crec_NationalID x = k /\ crec_NationalID x <> crec_NationalID r.
Proof.
  intros Hh Hr Hk Htx Hle. exists (served_citizen k r).
  rewrite (saved_citizen_served []); [|done| |done].
  2:{ split; unfold keyed; simpl; try constructor; intros y Hy; by apply elem_of_nil in Hy. }
   rewrite (proj2 (Z.leb_le _ _)) by done. simpl. by rewrite Hr.
Qed.

(** ** The cache behind the service's interface *)

Definition pg_has_citizen (d : DB W CacheTables) (k : string) (m : bool) (x : models_CitizenRecord) : Prop :=
  exists r, r ∈ ct_citizens (db_tables d) /\ citizen_key r = (k, m) /\ toCitizenRecord r = x.
Definition pg_has_sanction (d : DB W CacheTables) (k : string) (x : models_SanctionsRecord) : Prop :=
  exists r, r ∈ ct_sanctions (db_tables d) /\ sn_NationalID r = k /\ toSanctionsRecord r = x.
Definition pg_cache_ok (d : DB W CacheTables) : Prop :=
  keyed citizen_key (ct_citizens (db_tables d)) /\ keyed sn_NationalID (ct_sanctions (db_tables d)).

Lemma pg_find_citizen now k m d r d' : CachePg_FindCitizen now k m d = (r, d') ->
  db_tables d' = db_tables d /\ forall x, r = Ok x -> pg_has_citizen d k m x.
Proof.
  unfold CachePg_FindCitizen, or_not_found, mbind, st_bind, mret, st_ret. destruct (GetCitizenCache _ _ _ d) as [q d1] eqn:Hq.
  apply query_cases in Hq as [Ht [(e & ->)| ->]]; [by intros [= <- <-]|]. destruct (one_row _) as [row|e] eqn:Ho.
  - intros [= <- <-]. split; [done|]. intros x [= <-]. apply one_row_in in Ho as [Hin Hb]. bools.
    match goal with Hm : Bool.eqb _ _ = true |- _ => apply Bool.eqb_prop in Hm; subst m end. subst k. by exists row.
  - destruct e; intros [= <- <-]; by split.
Qed.

Lemma pg_find_sanction now k d r d' : CachePg_FindSanction now k d = (r, d') ->
  db_tables d' = db_tables d /\ forall x, r = Ok x -> pg_has_sanction d k x.
Proof.
  unfold CachePg_FindSanction, or_not_found, mbind, st_bind, mret, st_ret. destruct (GetSanctionsCache _ _ d) as [q d1] eqn:Hq.
  apply query_cases in Hq as [Ht [(e & ->)| ->]]; [by intros [= <- <-]|]. destruct (one_row _) as [row|e] eqn:Ho.
  - intros [= <- <-]. split; [done|]. intros x [= <-]. apply one_row_in in Ho as [Hin Hb]. bools. subst k. by exists row.
  - destruct e; intros [= <- <-]; by split.
Qed.

(** After a save the tables are as before or have the row. *)
Lemma pg_save_citizen k x m d r d' : CachePg_SaveCitizen k (Some x) m d = (r, d') ->
  db_tables d' = db_tables d \/ db_tables d' = mkCT (upsert_row citizen_key (mkCitizenRow k (crec_FullName x) (crec_DateOfBirth x)
    (crec_Address x) (crec_Valid x) (crec_Source x) (ts (crec_CheckedAt x)) m) (ct_citizens (db_tables d))) (ct_sanctions (db_tables d)).
Proof.
  simpl. unfold wrapped. destruct (UpsertCitizenCache _ d) as [q d1] eqn:E. intros Hr.
  assert (d' = d1) as -> by (destruct q; by injection Hr). unfold UpsertCitizenCache in E. apply stmt_cases in E as (now & _ & E). cbv zeta in E.
  destruct (citizen_text _); [naive_solver|].
  destruct E as [(? & _ & ?)|[(? & ? & ? & [= <- <-] & _ & ?)|[(? & [=] & _)|(? & ? & [= <- <-] & _ & ?)]]]; auto.
Qed.

Lemma pg_save_sanction k x d r d' : CachePg_SaveSanction k (Some x) d = (r, d') ->
  db_tables d' = db_tables d \/ db_tables d' = mkCT (ct_citizens (db_tables d))
    (upsert_row sn_NationalID (mkSanctionsRow k (srec_Listed x) (srec_Source x) (ts (srec_CheckedAt x))) (ct_sanctions (db_tables d))).
Proof.
  simpl. unfold wrapped. destruct (UpsertSanctionsCache _ d) as [q d1] eqn:E. intros Hr.
  assert (d' = d1) as -> by (destruct q; by injection Hr). unfold UpsertSanctionsCache in E. apply stmt_cases in E as (now & _ & E). cbv zeta in E.
  destruct (constraints _); [naive_solver|].
  destruct E as [(? & _ & ?)|[(? & ? & ? & [= <- <-] & _ & ?)|[(? & [=] & _)|(? & ? & [= <- <-] & _ & ?)]]]; auto.
Qed.

Program Definition pg_cache_store : CacheStore (DB W CacheTables) := {|
  cache_FindCitizen := CachePg_FindCitizen;
  cache_SaveCitizen _ k x m := CachePg_SaveCitizen k (Some x) m;
  cache_FindSanction := CachePg_FindSanction;
  cache_SaveSanction _ k x := CachePg_SaveSanction k (Some x);
  cache_ok := pg_cache_ok;
  has_citizen := pg_has_citizen;
  has_sanction := pg_has_sanction;
  cache_citizen_form := served_citizen;
  cache_sanction_form := served_sanction;
  cache_restores_id := true;
|}.
Next Obligation. done. Qed.
Next Obligation. done. Qed.
Next Obligation.
  intros now k m c r c' [Hk Hs] [Ht Hx]%pg_find_citizen. unfold pg_cache_ok, pg_has_citizen at 1 2, pg_has_sanction. rewrite Ht. by split_and!.
Qed.
Next Obligation.
  intros now k c r c' [Hk Hs] [Ht Hx]%pg_find_sanction. unfold pg_cache_ok, pg_has_citizen, pg_has_sanction at 1 2. rewrite Ht. by split_and!.
Qed.
Next Obligation.
  intros _ k x m c r c' [Hk Hs] [Ht|Ht]%pg_save_citizen; unfold pg_cache_ok, pg_has_citizen, pg_has_sanction; rewrite Ht; [by split_and!; auto|].
  match goal with |- context [upsert_row citizen_key ?row _] => destruct (upsert_row_spec citizen_key row _ Hk) as (Hk' & _ & Hin & _) end.
  split_and!; [done|done| |done]. intros k' m' x' (y & Hy & [= <- <-] & <-). apply Hin in Hy as [->|Hy]; [by right|left; eauto].
Qed.
Next Obligation.
  intros _ k x c r c' [Hk Hs] [Ht|Ht]%pg_save_sanction; unfold pg_cache_ok, pg_has_citizen, pg_has_sanction; rewrite Ht; [by split_and!; auto|].
  match goal with |- context [upsert_row sn_NationalID ?row _] => destruct (upsert_row_spec sn_NationalID row _ Hs) as (Hk' & _ & Hin & _) end.
  split_and!; [done|done|done|]. intros k' x' (y & Hy & <- & <-). apply Hin in Hy as [->|Hy]; [by right|left; eauto].
Qed.
End registrysql.
