(* ===== verification/ConsentSql.v ===== *)
(** * Consent on PostgreSQL
    [internal/consent/store/store_postgres.go], the queries of
    [internal/consent/store/sqlc/consents.sql.go], [cmd/server/consent_tx.go], and the
    operations of [internal/consent/service/service.go] over them

    The table of consents has the columns, the key, the unique index on user and
    purpose, the check and the reference of [migrations/000007].  Requests that change
    consents run in one transaction.  A history interleaves the requests with the
    creation of users and with their deletion, which the reference cascades to their
    consents.  Generated identifiers and the audit publisher
    belong to the world: neither is rolled back. *)
From S2P Require Import Prelude Errors Consent SqlDb.
Open Scope Z_scope.

Record ConsentRow := mkConsentRow {
  kr_ID : uuid; kr_UserID : uuid; kr_Purpose : string; kr_GrantedAt : time; kr_ExpiresAt : option time; kr_RevokedAt : option time;
}.

(** [kt_users] are the identifiers of the table of users, which the auth component
    fills and empties. *)
Record ConsentTables := mkKT { kt_consents : list ConsentRow; kt_users : list uuid }.

Definition scope_key (r : ConsentRow) : uuid * string := (kr_UserID r, kr_Purpose r).

Section consentsql.
Context {W : Type} (drv : Driver W) `{!PgTypes}.
(** [uuid.New] and the audit publisher. *)
Context (newID : W -> uuid * W) (emit : ConsentEvent -> W -> W).

Abbreviation QK A := (ST (DB W ConsentTables) dberr A) (only parsing).
Abbreviation SK A := (ST (DB W ConsentTables) error A) (only parsing).

(** ** Queries *)

Definition consent_columns (r : ConsentRow) : option string :=
  constraints [varchar 50 (kr_Purpose r); check_that (has validConsentPurposes (kr_Purpose r))].

Definition at_scope (userID : uuid) (purpose : string) (r : ConsentRow) : bool :=
  bool_decide (scope_key r = (userID, purpose)).

Definition DeleteConsentsByUser (userID : uuid) : QK unit :=
  stmt drv (fun _ t => Ok (tt, mkKT (delete_where (fun r => bool_decide (kr_UserID r = userID)) (kt_consents t)) (kt_users t))).

Definition GetConsentByScope (userID : uuid) (purpose : string) : QK ConsentRow :=
  query drv (fun t => with_text purpose (one_row (select_where (at_scope userID purpose) (kt_consents t)))).
Definition GetConsentByScopeForUpdate (userID : uuid) (purpose : string) : QK ConsentRow :=
  query drv (fun t => with_text purpose (one_row (select_where (at_scope userID purpose) (kt_consents t)))).

(** [ON CONFLICT (user_id, purpose) DO NOTHING RETURNING id]: no row when there was one. *)
Definition InsertConsent (arg : ConsentRow) : QK uuid :=
  stmt drv (fun _ t =>
    let r := mkConsentRow (kr_ID arg) (kr_UserID arg) (kr_Purpose arg) (ts (kr_GrantedAt arg)) (ts <$> kr_ExpiresAt arg) (ts <$> kr_RevokedAt arg) in
    match consent_columns r with
    | Some c => Err (PgError c)
    | None =>
        if has (scope_key <$> kt_consents t) (scope_key r) then Err ErrNoRows
        else
          match constraints [unique_that (negb (has (kr_ID <$> kt_consents t) (kr_ID r))); refers_to (has (kt_users t) (kr_UserID r))] with
          | Some c => Err (PgError c)
          | None => Ok (kr_ID r, mkKT (kt_consents t ++ [r]) (kt_users t))
          end
    end).

Definition ListConsentsByUser (userID : uuid) : QK (list ConsentRow) :=
  query drv (fun t => Ok (select_where (fun r => bool_decide (kr_UserID r = userID)) (kt_consents t))).
Definition ListConsentsByUserAndPurpose (userID : uuid) (purpose : string) : QK (list ConsentRow) :=
  query drv (fun t => with_text purpose (Ok (select_where (at_scope userID purpose) (kt_consents t)))).

Definition revocable_row (userID : uuid) (at_ : time) (r : ConsentRow) : bool :=
  bool_decide (kr_UserID r = userID) && (match kr_RevokedAt r with None => true | Some _ => false end)
  && (match kr_ExpiresAt r with None => true | Some e => at_ <=? e end).

Definition RevokeAllConsentsByUser (userID : uuid) (revokedAt : time) : QK Z :=
  stmt drv (fun _ t =>
    let P := revocable_row userID (ts revokedAt) in
    Ok (rows_affected P (kt_consents t),
        mkKT (update_where P (fun r => mkConsentRow (kr_ID r) (kr_UserID r) (kr_Purpose r) (kr_GrantedAt r) (kr_ExpiresAt r) (Some (ts revokedAt)))
                (kt_consents t)) (kt_users t))).

Definition UpdateConsent (arg : ConsentRow) : QK Z :=
  stmt drv (fun _ t =>
    let P := fun r => bool_decide (kr_ID r = kr_ID arg) && at_scope (kr_UserID arg) (kr_Purpose arg) r in
    with_text (kr_Purpose arg)
      (Ok (rows_affected P (kt_consents t),
           mkKT (update_where P (fun r => mkConsentRow (kr_ID r) (kr_UserID r) (kr_Purpose r) (ts (kr_GrantedAt arg)) (ts <$> kr_ExpiresAt arg)
                                           (ts <$> kr_RevokedAt arg)) (kt_consents t)) (kt_users t)))).

(** ** The store *)

Definition toConsent (r : ConsentRow) : ConsentRecord :=
  mkConsent (kr_ID r) (kr_UserID r) (kr_Purpose r) (kr_GrantedAt r) (kr_ExpiresAt r) (kr_RevokedAt r).
Definition consent_params (c : ConsentRecord) : ConsentRow :=
  mkConsentRow (cr_ID c) (cr_UserID c) (cr_Purpose c) (cr_GrantedAt c) (cr_ExpiresAt c) (cr_RevokedAt c).

(** The record is given the stored identifier, which is its own. *)
Definition ConsentPg_Save (consent : option ConsentRecord) : SK ConsentRecord :=
  match consent with
  | None => st_fail (EOther "consent record is required")
  | Some c =>
      storedID ← or_not_found (EVal ErrConflict) "save consent" (InsertConsent (consent_params c));
      mret (mkConsent storedID (cr_UserID c) (cr_Purpose c) (cr_GrantedAt c) (cr_ExpiresAt c) (cr_RevokedAt c))
  end.

Definition ConsentPg_FindByScope (scope : ConsentScope) : SK ConsentRecord :=
  r ← or_not_found (EVal ErrNotFound) "find consent" (GetConsentByScope (sc_UserID scope) (sc_Purpose scope)); mret (toConsent r).

Definition ConsentPg_ListByUser (userID : uuid) (f : option RecordFilter) : SK (list ConsentRecord) :=
  rows ← wrapped "list consents"
    match f with
    | Some (mkFilter (Some p) _) => ListConsentsByUserAndPurpose userID p
    | _ => ListConsentsByUser userID
    end;
  mret (toConsent <$> rows).

Definition ConsentPg_updateConsent (c : ConsentRecord) : SK unit :=
  rows ← wrapped "update consent" (UpdateConsent (consent_params c));
  if rows =? 0 then st_fail (EVal ErrNotFound) else mret tt.

Definition ConsentPg_Update (consent : option ConsentRecord) : SK unit :=
  match consent with None => st_fail (EOther "consent record is required") | Some c => ConsentPg_updateConsent c end.

Definition ConsentPg_RevokeAllByUser (userID : uuid) (now : time) : SK Z := wrapped "revoke all consents" (RevokeAllConsentsByUser userID now).

Definition ConsentPg_executeWithTx {A} (scope : ConsentScope) (validate : ConsentRecord -> res A)
    (mutate : A -> ConsentRecord -> bool * ConsentRecord) : SK (ConsentRecord * A) :=
  row ← or_not_found (EVal ErrNotFound) "find consent for execute" (GetConsentByScopeForUpdate (sc_UserID scope) (sc_Purpose scope));
  a ← st_lift (validate (toConsent row));
  let '(changed, r) := mutate a (toConsent row) in
  if negb changed then mret (r, a) else ConsentPg_updateConsent r;; mret (r, a).

(** [in_tx]: the store is bound to a transaction. *)
Definition ConsentPg_Execute {A} (in_tx : bool) (scope : ConsentScope) (validate : ConsentRecord -> res A)
    (mutate : A -> ConsentRecord -> bool * ConsentRecord) : SK (ConsentRecord * A) :=
  if in_tx then ConsentPg_executeWithTx scope validate mutate
  else inTx drv (fun m => EWrap "begin consent execute tx" (EOther m)) (fun m => EWrap "commit consent execute" (EOther m))
         (x ← ConsentPg_executeWithTx scope validate mutate; mret (TxCommit x)).

Definition ConsentPg_DeleteByUser (userID : uuid) : SK unit := wrapped "delete consents by user" (DeleteConsentsByUser userID).

(** ** The transaction runner

    The five-second deadline is one of the failures of the driver. *)
Definition ConsentPg_RunInTx {A} (ctx : ConsentCtx) (fn : SK A) : SK A :=
  match cx_err ctx with
  | Some e => st_fail (Wrap e CodeTimeout "transaction aborted: context cancelled")
  | None => inTx drv EOther EOther (a ← fn; mret (TxCommit a))
  end.

(** ** The service *)

Section service.
Context (cfg : ConsentConfig).

Definition pg_uuid_New : SK uuid := fun d => let '(i, w) := newID (db_world d) in (Ok i, mkDB (db_tables d) w).
Definition pg_emitAudit (e : ConsentEvent) : SK unit := fun d => (Ok tt, mkDB (db_tables d) (emit e (db_world d))).

Definition pg_wrap {A} (c : Code) (msg : string) (m : SK A) : SK A := fun d =>
  match m d with (Ok a, d') => (Ok a, d') | (Err e, d') => (Err (Wrap e c msg), d') end.

Definition Pg_createGrantTx (scope : ConsentScope) (now : time) : SK ConsentRecord :=
  consentID ← pg_uuid_New;
  match NewRecord consentID (sc_UserID scope) (sc_Purpose scope) now (Some (time_Add now (cc_consentTTL cfg))) with
  | Err e => st_fail (Wrap e CodeInternal "failed to create consent record")
  | Ok r =>
      saved ← st_try (ConsentPg_Save (Some r));
      match saved with
      | Ok r' => mret r'
      | Err e => if errors_Is e ErrConflict then st_fail e else st_fail (Wrap e CodeInternal "failed to save consent")
      end
  end.

Fixpoint pg_upsert_attempts (attempts : nat) (scope : ConsentScope) (now : time) : SK (ConsentRecord * option grantEffect) :=
  match attempts with
  | O => st_fail (New CodeConflict "consent grant conflict")
  | S attempts' =>
      executed ← st_try (ConsentPg_Execute true scope
        (fun existing => EvaluateGrant existing now (cc_grantIdempotencyWindow cfg) (cc_reGrantCooldown cfg) (cc_consentTTL cfg))
        (fun eval existing => if negb (ge_Changed eval) then (false, existing) else (true, default existing (ge_Updated eval))));
      match executed with
      | Ok (r, eval) => if negb (ge_Changed eval) then mret (r, None) else mret (r, Some (mkEffect r (ge_WasActive eval) now))
      | Err e =>
          if errors_Is e ErrNotFound then
            created ← st_try (Pg_createGrantTx scope now);
            match created with
            | Ok r => mret (r, Some (mkEffect r false now))
            | Err e2 => if errors_Is e2 ErrConflict then pg_upsert_attempts attempts' scope now else st_fail e2
            end
          else
            match errors_As e with
            | Some _ => st_fail e
            | None => st_fail (Wrap e CodeInternal "failed to update consent")
            end
      end
  end.

Definition Pg_upsertGrantTx (ctx : ConsentCtx) (scope : ConsentScope) : SK (ConsentRecord * option grantEffect) :=
  pg_upsert_attempts 2 scope (cx_now ctx).

Fixpoint pg_each_scope {A} (userID : uuid) (purposes : list Purpose) (fn : ConsentScope -> SK A) : SK (list A) :=
  match purposes with
  | [] => mret []
  | p :: rest =>
      scope ← st_lift (scopeForPurpose userID p);
      a ← fn scope;
      l ← pg_each_scope userID rest fn;
      mret (a :: l)
  end.

Fixpoint pg_emit_grants (l : list (ConsentRecord * option grantEffect)) : SK unit :=
  match l with
  | [] => mret tt
  | (_, Some f) :: rest =>
      pg_emitAudit (mkConsentEvent (cr_UserID (gf_record f)) (cr_Purpose (gf_record f)) AuditActionConsentGranted "granted" (gf_timestamp f));;
      pg_emit_grants rest
  | (_, None) :: rest => pg_emit_grants rest
  end.

Definition Pg_Grant (ctx : ConsentCtx) (userID : uuid) (purposes : list Purpose) : SK (list ConsentRecord) :=
  if IsNil userID then st_fail (New CodeUnauthorized "user ID required")
  else if (length purposes =? 0)%nat then st_fail (New CodeBadRequest "purposes array must not be empty")
  else
    _ ← st_lift (validatePurposes purposes);
    granted ← ConsentPg_RunInTx ctx (pg_each_scope userID purposes (Pg_upsertGrantTx ctx));
    pg_emit_grants granted;;
    mret (granted.*1).

Definition Pg_tryRevokeScopeTx (scope : ConsentScope) (now : time) : SK (option ConsentRecord * bool) :=
  executed ← st_try (ConsentPg_Execute true scope
    (fun existing => if negb (Consent_CanRevoke existing now) then Ok None else updated ← RevokeAt existing now; Ok (Some updated))
    (fun updated existing => match updated with None => (false, existing) | Some u => (true, u) end));
  match executed with
  | Ok (r, updated) => mret (Some r, match updated with Some _ => true | None => false end)
  | Err e =>
      if errors_Is e ErrNotFound then mret (None, false)
      else
        match errors_As e with
        | Some _ => st_fail e
        | None => st_fail (Wrap e CodeInternal "failed to revoke consent")
        end
  end.

Fixpoint pg_emit_revokes (userID : uuid) (now : time) (l : list ConsentRecord) : SK unit :=
  match l with
  | [] => mret tt
  | r :: rest =>
      pg_emitAudit (mkConsentEvent userID (cr_Purpose r) AuditActionConsentRevoked "revoked" now);;
      pg_emit_revokes userID now rest
  end.

Definition Pg_Revoke (ctx : ConsentCtx) (userID : uuid) (purposes : list Purpose) : SK (list ConsentRecord) :=
  if IsNil userID then st_fail (New CodeUnauthorized "user ID required")
  else
    _ ← st_lift (validatePurposes purposes);
    results ← ConsentPg_RunInTx ctx (pg_each_scope userID purposes (fun scope => Pg_tryRevokeScopeTx scope (cx_now ctx)));
    let revoked := revoked_records results in
    pg_emit_revokes userID (cx_now ctx) revoked;;
    mret revoked.

Definition Pg_RevokeAll (ctx : ConsentCtx) (userID : uuid) : SK Z :=
  if IsNil userID then st_fail (New CodeBadRequest "user ID required")
  else
    revokedCount ← ConsentPg_RunInTx ctx (pg_wrap CodeInternal "failed to revoke consents" (ConsentPg_RevokeAllByUser userID (cx_now ctx)));
    (if 0 <? revokedCount then pg_emitAudit (mkConsentEvent userID "" AuditActionConsentRevoked "revoked" (cx_now ctx)) else mret tt);;
    mret revokedCount.

Definition Pg_DeleteAll (ctx : ConsentCtx) (userID : uuid) : SK unit :=
  if IsNil userID then st_fail (New CodeBadRequest "user ID required")
  else
    ConsentPg_RunInTx ctx (pg_wrap CodeInternal "failed to delete all consents" (ConsentPg_DeleteByUser userID));;
    pg_emitAudit (mkConsentEvent userID "" AuditActionConsentDeleted "deleted" (cx_now ctx)).

Definition Pg_List (ctx : ConsentCtx) (userID : uuid) (f : option RecordFilter) : SK (list ConsentRecord) :=
  if IsNil userID then st_fail (New CodeUnauthorized "user ID required")
  else
    let storeFilter := match f with Some (mkFilter p (Some _)) => Some (mkFilter p None) | _ => f end in
    records ← pg_wrap CodeInternal "failed to list consents" (ConsentPg_ListByUser userID storeFilter);
    match f with
    | Some (mkFilter None None) | None => mret records
    | Some _ => mret (filterRecords records f (cx_now ctx))
    end.

Definition pg_recordConsentCheckOutcome (ctx : ConsentCtx) (userID : uuid) (purpose : Purpose) (passed : bool) : SK unit :=
  pg_emitAudit (mkConsentEvent userID purpose (if passed then AuditActionConsentCheckPassed else AuditActionConsentCheckFailed)
    (if passed then "granted" else "denied") (cx_now ctx)).

Definition Pg_Require (ctx : ConsentCtx) (userID : uuid) (purpose : Purpose) : SK unit :=
  if IsNil userID then st_fail (New CodeUnauthorized "user ID required")
  else if negb (Purpose_IsValid purpose) then st_fail (New CodeBadRequest "invalid purpose")
  else
    match NewConsentScope userID purpose with
    | Err _ => st_fail (New CodeBadRequest "invalid consent scope")
    | Ok scope =>
        found ← st_try (ConsentPg_FindByScope scope);
        match found with
        | Err e =>
            if errors_Is e ErrNotFound
            then pg_recordConsentCheckOutcome ctx userID purpose false;;
                 st_fail (New CodeMissingConsent "consent not granted for required purpose")
            else st_fail (Wrap e CodeInternal "failed to read consent")
        | Ok r =>
            match ComputeStatus r (cx_now ctx) with
            | StatusRevoked => pg_recordConsentCheckOutcome ctx userID purpose false;; st_fail (New CodeInvalidConsent "consent revoked")
            | StatusExpired => pg_recordConsentCheckOutcome ctx userID purpose false;; st_fail (New CodeInvalidConsent "consent expired")
            | StatusActive => pg_recordConsentCheckOutcome ctx userID purpose true
            end
        end
    end.

(** ** The contract

    A consent on disk is its grant, expiry and revocation times, at the precision of
    the database. *)

Definition pg_entry : Type := time * option time * option time.
Definition entry_of_row (r : ConsentRow) : pg_entry := (kr_GrantedAt r, kr_ExpiresAt r, kr_RevokedAt r).
Definition consents_of (t : ConsentTables) : gmap (uuid * string) pg_entry := tmap scope_key entry_of_row (kt_consents t).

Definition past (x : option time) (now : time) : bool := match x with Some e => e <? now | None => false end.
Definition pg_fresh (now : time) : pg_entry := (ts now, Some (ts (now + cc_consentTTL cfg)), None).

(** [None]: refused. *)
Definition pg_grant1 (now : time) (e : option pg_entry) : option pg_entry :=
  match e with
  | None => Some (pg_fresh now)
  | Some (_, _, Some r) => if now - r <? cc_reGrantCooldown cfg then None else Some (pg_fresh now)
  | Some (g, x, None) =>
      if negb (past x now) && (now - g <? cc_grantIdempotencyWindow cfg) then Some (g, x, None) else Some (pg_fresh now)
  end.

Definition pg_revoke1 (now : time) (e : pg_entry) : pg_entry :=
  match e with
  | (g, x, None) => if past x now then e else (g, x, Some (ts now))
  | _ => e
  end.

(** A change of one purpose after the other, refused as a whole if one is. *)
Fixpoint each_purpose (u : uuid) (f : option pg_entry -> option (option pg_entry)) (ps : list Purpose)
    (m : gmap (uuid * string) pg_entry) : option (gmap (uuid * string) pg_entry) :=
  match ps with
  | [] => Some m
  | p :: rest => x ← f (m !! (u, p)); each_purpose u f rest (partial_alter (fun _ => x) (u, p) m)
  end.

Definition pg_grant (now : time) (u : uuid) := each_purpose u (fun e => Some <$> pg_grant1 now e).
Definition pg_revoke (now : time) (u : uuid) := each_purpose u (fun e => Some (pg_revoke1 now <$> e)).

(** The comparison of [RevokeAll] is made by the database, at its precision. *)
Definition pg_revoke_all (now : time) (u : uuid) (m : gmap (uuid * string) pg_entry) : gmap (uuid * string) pg_entry :=
  map_imap (fun k e => Some (match e with (g, x, r) =>
    if bool_decide (k.1 = u) && (match r with None => true | Some _ => false end) && negb (past x (ts now)) then (g, x, Some (ts now)) else e end)) m.
Definition pg_delete_all (u : uuid) (m : gmap (uuid * string) pg_entry) : gmap (uuid * string) pg_entry := filter (fun kv => kv.1.1 <> u) m.

(** What [Require] makes of an entry. *)
Definition pg_require (now : time) (e : option pg_entry) : verdict :=
  match e with
  | None => VMissing
  | Some (_, _, Some _) => VRevoked
  | Some (_, x, None) => if past x now then VExpired else VGranted
  end.

(** ** Identifiers

    [uuid.New] never repeats an identifier and never returns the nil one. *)
Class UuidLaws := {
  used : W -> gset uuid;
  used_new : forall w, (newID w).1 ∉ used w /\ (newID w).1 <> 0%N /\ ({[(newID w).1]} ∪ used w) ⊆ used (newID w).2;
  used_begin : forall w, used w ⊆ used (drv_begin drv w).2;
  used_stmt : forall w, used w ⊆ used (drv_stmt drv w).2;
  used_commit : forall w, used w ⊆ used (drv_commit drv w).2;
  used_emit : forall e w, used w ⊆ used (emit e w);
}.

Context `{!UuidLaws} (Hts : forall t, ts (ts t) = ts t) (Hpurposes : Forall (fun p => text_ok p = true) validConsentPurposes) (Hcfg : consent_cfg_ok cfg).

Record pg_wf (d : DB W ConsentTables) : Prop := {
  pw_scope : keyed scope_key (kt_consents (db_tables d));
  pw_id : keyed kr_ID (kt_consents (db_tables d));
  pw_used : forall r, r ∈ kt_consents (db_tables d) -> kr_ID r ∈ used (db_world d);
  pw_ts : forall r, r ∈ kt_consents (db_tables d) ->
    ts (kr_GrantedAt r) = kr_GrantedAt r /\ (ts <$> kr_ExpiresAt r) = kr_ExpiresAt r /\ (ts <$> kr_RevokedAt r) = kr_RevokedAt r;
}.

Definition grows (d d' : DB W ConsentTables) : Prop :=
  used (db_world d) ⊆ used (db_world d') /\ kt_users (db_tables d') = kt_users (db_tables d).

Abbreviation life d := (consents_of (db_tables d)).

Lemma grows_refl d : grows d d.
Proof. by split. Qed.
Lemma grows_trans d1 d2 d3 : grows d1 d2 -> grows d2 d3 -> grows d1 d3.
Proof. intros [H1 H2] [H3 H4]. split; [set_solver|congruence]. Qed.

(** The same table in a later world. *)
Lemma wf_later d d' : pg_wf d -> db_tables d' = db_tables d -> used (db_world d) ⊆ used (db_world d') -> pg_wf d' /\ grows d d'.
Proof. intros [H1 H2 H3 H4] Ht Hu. split; [split; rewrite Ht; auto|split; [done|by rewrite Ht]]. Qed.

Lemma ts_option (x : option time) : (ts <$> (ts <$> x)) = (ts <$> x).
Proof. destruct x; simpl; by rewrite ?Hts. Qed.

Lemma query_keeps {A} (f : ConsentTables -> result dberr A) d r d' : pg_wf d -> query drv f d = (r, d') ->
  pg_wf d' /\ grows d d' /\ db_tables d' = db_tables d /\
  ((exists m, r = Err (DriverError m)) \/ r = f (db_tables d)) /\ (healthy drv -> r = f (db_tables d)).
Proof.
  intros Hwf Hq. assert (used (db_world d) ⊆ used (db_world d')) as Hu.
  { pose proof (stmt_world drv (fun _ t => match f t with Ok a => Ok (a, t) | Err e => Err e end) d) as Hw. unfold query in Hq. rewrite Hq in Hw.
    simpl in Hw. rewrite Hw. apply used_stmt. }
  pose proof (query_cases drv f d r d' Hq) as [Ht Hr]. destruct (wf_later d d' Hwf Ht Hu). split_and!; try done.
  intros Hh. destruct (query_healthy drv f d Hh) as (w & E). congruence.
Qed.

(** A statement that keeps the tables well formed. *)
Lemma stmt_keeps {A} (f : ConsentTables -> result dberr (A * ConsentTables)) d r d' : pg_wf d ->
  (forall a t, f (db_tables d) = Ok (a, t) -> pg_wf (mkDB t (db_world d)) /\ kt_users t = kt_users (db_tables d)) ->
  stmt drv (fun _ => f) d = (r, d') ->
  pg_wf d' /\ grows d d' /\
  ((exists m, r = Err (DriverError m)) \/ (exists e, f (db_tables d) = Err e /\ r = Err e)
   \/ (exists a, f (db_tables d) = Ok (a, db_tables d') /\ r = Ok a)) /\
  (healthy drv -> r = match f (db_tables d) with Ok (a, _) => Ok a | Err e => Err e end).
Proof.
  intros Hwf Hf Hs. assert (used (db_world d) ⊆ used (db_world d')) as Hu.
  { pose proof (stmt_world drv (fun _ => f) d) as Hw. rewrite Hs in Hw. simpl in Hw. rewrite Hw. apply used_stmt. }
  assert (healthy drv -> r = match f (db_tables d) with Ok (a, _) => Ok a | Err e => Err e end) as Hh.
  { intros Hh. destruct (stmt_healthy drv (fun _ => f) d Hh) as (n & w & E). rewrite Hs in E.
    destruct (f (db_tables d)) as [[a t]|e]; congruence. }
  assert (forall a, f (db_tables d) = Ok (a, db_tables d') -> pg_wf d' /\ grows d d') as Hw.
  { intros a Ha. destruct (Hf a _ Ha) as [Hw Hus].
    destruct (wf_later (mkDB (db_tables d') (db_world d)) d' Hw eq_refl Hu). split; [done|]. split; [done|]. by rewrite Hus. }
  apply stmt_cases in Hs as (now & _ & [(m & -> & Ht)|[(m & a & t & Ha & -> & Ht)|[(e & He & -> & Ht)|(a & t & Ha & -> & Ht)]]]);
    [destruct (wf_later d d' Hwf Ht Hu)|subst t; destruct (Hw a Ha)|destruct (wf_later d d' Hwf Ht Hu)|subst t; destruct (Hw a Ha)]; eauto 12.
Qed.

Lemma purpose_text p : Purpose_IsValid p = true -> text_ok p = true /\ p ∈ validConsentPurposes.
Proof.
  intros Hp. assert (p ∈ validConsentPurposes) as Hin by (unfold Purpose_IsValid in Hp; by apply has_true).
  split; [|done]. rewrite Forall_forall in Hpurposes. by apply Hpurposes.
Qed.

(** The row of a scope. *)
Lemma scope_row u p t : keyed scope_key (kt_consents t) ->
  match one_row (select_where (at_scope u p) (kt_consents t)) with
  | Ok r => r ∈ kt_consents t /\ scope_key r = (u, p) /\ consents_of t !! (u, p) = Some (entry_of_row r)
  | Err e => e = ErrNoRows /\ consents_of t !! (u, p) = None
  end.
Proof. intros Hk. pose proof (one_row_key scope_key entry_of_row (kt_consents t) (u, p) Hk) as Ho. unfold at_scope. destruct (one_row _); naive_solver. Qed.

(** The times of a record, and as the columns keep them. *)
Definition times_of (c : ConsentRecord) : pg_entry := (cr_GrantedAt c, cr_ExpiresAt c, cr_RevokedAt c).
Definition entry_of_record (c : ConsentRecord) : pg_entry := (ts (cr_GrantedAt c), ts <$> cr_ExpiresAt c, ts <$> cr_RevokedAt c).

(** Update of a record found in its scope. *)
Lemma update_row u p row c d r d' : pg_wf d -> row ∈ kt_consents (db_tables d) -> scope_key row = (u, p) -> text_ok p = true ->
  cr_ID c = kr_ID row -> cr_UserID c = u -> cr_Purpose c = p -> ConsentPg_updateConsent c d = (r, d') ->
  pg_wf d' /\ grows d d' /\
  ((exists e, r = Err e /\ infra e /\ ~ healthy drv) \/ (r = Ok tt /\ life d' = <[(u, p) := entry_of_record c]> (life d))).
Proof.
  intros Hwf Hin Hk Htx Hid Hu Hp. unfold ConsentPg_updateConsent, mbind, st_bind, wrapped.
  destruct (UpdateConsent (consent_params c) d) as [q d1] eqn:Hq. unfold UpdateConsent in Hq. cbv zeta in Hq. simpl in Hq.
  rewrite Hp in Hq. unfold with_text in Hq. rewrite Htx in Hq.
  set (P := fun r => bool_decide (kr_ID r = cr_ID c) && at_scope (cr_UserID c) p r) in Hq.
  set (f := fun r => mkConsentRow (kr_ID r) (kr_UserID r) (kr_Purpose r) (ts (cr_GrantedAt c)) (ts <$> cr_ExpiresAt c) (ts <$> cr_RevokedAt c)) in Hq.
  assert (update_where P f (kt_consents (db_tables d)) = update_where (fun r => bool_decide (scope_key r = scope_key row)) f (kt_consents (db_tables d))) as HP.
  { apply list_fmap_ext. intros i x Hx%list_elem_of_lookup_2. unfold P, at_scope. rewrite Hu, <- Hk, Hid.
    case_bool_decide as E; [done|]. rewrite bool_decide_eq_false_2; [done|]. intros E2. apply E.
    by rewrite (keyed_inj scope_key _ x row (pw_scope _ Hwf) Hx Hin E2). }
  assert (rows_affected P (kt_consents (db_tables d)) <> 0) as Hrows.
  { rewrite rows_affected_0. intros Hno. specialize (Hno row Hin). unfold P, at_scope in Hno. rewrite Hid, Hu, Hk in Hno.
    rewrite !bool_decide_eq_true_2 in Hno by done. done. }
  apply stmt_keeps in Hq as (Hwf1 & Hg & Hr & Hh); [|done|].
  - destruct Hr as [(m & ->)|[(e & He & _)|(n & [= <- Ht] & ->)]]; [|done|].
    + intros [= <- <-]. split_and!; [done|done|]. left. eexists. split_and!; [done|infra|]. intros Hhe. specialize (Hh Hhe). simpl in Hh. done.
    + rewrite (proj2 (Z.eqb_neq _ _)) by done. intros [= <- <-]. split_and!; [done|done|]. right. split; [done|].
      unfold consents_of. rewrite <- Ht. cbn [kt_consents]. rewrite HP, tmap_update_row; [|apply Hwf|done|done]. by rewrite Hk.
  - intros a t [= <- <-]. destruct Hwf as [W1 W2 W3 W4]. split; [|done]. split; cbn [db_tables db_world kt_consents].
    + by apply keyed_update.
    + by apply keyed_update.
    + intros x (y & -> & Hy)%list_elem_of_fmap. destruct (P y); exact (W3 y Hy).
    + intros x (y & -> & Hy)%list_elem_of_fmap. destruct (P y); [|by apply W4]. unfold f. simpl. by rewrite Hts, !ts_option.
Qed.

Lemma row_times d row : pg_wf d -> row ∈ kt_consents (db_tables d) -> times_of (toConsent row) = entry_of_record (toConsent row).
Proof. intros Hwf Hin. destruct (pw_ts _ Hwf row Hin) as (E1 & E2 & E3). unfold times_of, entry_of_record. simpl. by rewrite E1, E2, E3. Qed.

Section execute.
Context {A : Type} (u : uuid) (p : string) (v : ConsentRecord -> res A) (mu : A -> ConsentRecord -> bool * ConsentRecord).
Hypothesis Hmu : forall c a, v c = Ok a -> cr_ID (mu a c).2 = cr_ID c /\ cr_UserID (mu a c).2 = cr_UserID c /\ cr_Purpose (mu a c).2 = cr_Purpose c.

Lemma execute_cases d r d' : pg_wf d -> text_ok p = true -> ConsentPg_executeWithTx (mkScope u p) v mu d = (r, d') ->
  pg_wf d' /\ grows d d' /\
  ((exists e, r = Err e /\ infra e /\ ~ healthy drv)
   \/ (r = Err (EVal ErrNotFound) /\ life d !! (u, p) = None /\ life d' = life d)
   \/ exists c, life d !! (u, p) = Some (times_of c) /\ times_of c = entry_of_record c /\
       match v c with
       | Err e => r = Err e /\ life d' = life d
       | Ok a => r = Ok ((mu a c).2, a) /\ life d' = if (mu a c).1 then <[(u, p) := entry_of_record (mu a c).2]> (life d) else life d
       end).
Proof.
  intros Hwf Htx. unfold ConsentPg_executeWithTx, mbind, st_bind, or_not_found. cbn [sc_UserID sc_Purpose].
  destruct (GetConsentByScopeForUpdate u p d) as [q d1] eqn:Hq. unfold GetConsentByScopeForUpdate in Hq.
  apply query_keeps in Hq as (Hwf1 & Hg1 & Ht1 & Hr & Hh); [|done]. unfold with_text in Hr, Hh. rewrite Htx in Hr, Hh.
  pose proof (scope_row u p (db_tables d) (pw_scope _ Hwf)) as Ho. destruct Hr as [(m & ->)| ->].
  { intros [= <- <-]. split_and!; [done|done|]. left. eexists. split_and!; [done|infra|]. intros Hhe. specialize (Hh Hhe).
    rewrite <- Hh in Ho. by destruct Ho. }
  destruct (one_row _) as [row|e].
  2: { destruct Ho as [-> Hn]. intros [= <- <-]. split_and!; [done|done|]. right. left. by rewrite Ht1. }
  destruct Ho as (Hin & Hk & Hl). unfold st_lift.
  destruct (v (toConsent row)) as [a|e] eqn:Hv.
  2: { intros [= <- <-]. split_and!; [done|done|]. right. right. exists (toConsent row). rewrite Hv, Ht1. split_and!; [exact Hl|exact (row_times d row Hwf Hin)|done..]. }
  destruct (mu a (toConsent row)) as [ch c] eqn:Hm. destruct ch; simpl.
  2: { intros [= <- <-]. split_and!; [done|done|]. right. right. exists (toConsent row). rewrite Hv, Hm, Ht1. split_and!; [exact Hl|exact (row_times d row Hwf Hin)|done..]. }
  destruct (Hmu _ _ Hv) as (I1 & I2 & I3). rewrite Hm in I1, I2, I3. simpl in I1, I2, I3. injection Hk as Hu Hp.
  pose proof Hin as Hin0. rewrite <- Ht1 in Hin. destruct (ConsentPg_updateConsent c d1) as [z d2] eqn:Hupd.
  destruct (update_row u p row c d1 z d2 Hwf1 Hin) as (Hwf2 & Hg2 & Hz); [unfold scope_key; congruence|congruence..|].
  intros Hend. assert (grows d d2) by (by eapply grows_trans).
  destruct Hz as [(e & -> & Hi & Hn)|(-> & Hlife)]; injection Hend as <- <-; (split_and!; [done|done|]); [left; eauto|].
  right. right. exists (toConsent row). rewrite Hv, Hm. simpl. split_and!; [exact Hl|exact (row_times d row Hwf Hin0)|done|]. by rewrite Hlife, Ht1.
Qed.
End execute.

(** [does u m f]: in a transaction, the computation has the effect of [f] or fails;
    when the database works and the user exists, it fails only when [f] refuses, and
    then with a bad request. *)
Definition does {A} (u : uuid) (m : SK A) (f : gmap (uuid * string) pg_entry -> option (gmap (uuid * string) pg_entry)) : Prop :=
  forall d r d', pg_wf d -> m d = (r, d') ->
  pg_wf d' /\ grows d d' /\
  match r with
  | Ok _ => f (life d) = Some (life d')
  | Err e => healthy drv -> u ∈ kt_users (db_tables d) -> f (life d) = None /\ code_of e = Some CodeBadRequest
  end.

(** One purpose. *)
Definition one_purpose (u : uuid) (f : option pg_entry -> option (option pg_entry)) (p : string)
    (m : gmap (uuid * string) pg_entry) : option (gmap (uuid * string) pg_entry) :=
  x ← f (m !! (u, p)); Some (partial_alter (fun _ => x) (u, p) m).

Lemma each_scope_does {A} u f (fn : ConsentScope -> SK A) ps : IsNil u = false -> forallb Purpose_IsValid ps = true ->
  (forall p, Purpose_IsValid p = true -> does u (fn (mkScope u p)) (one_purpose u f p)) ->
  does u (pg_each_scope u ps fn) (each_purpose u f ps).
Proof.
  intros Hu Hps Hfn. induction ps as [|p ps IH]; simpl; intros d r d' Hwf.
  { intros [= <- <-]. split_and!; [done|apply grows_refl|done]. }
  simpl in Hps. apply andb_true_iff in Hps as [Hp Hps]. specialize (IH Hps).
  rewrite scopeForPurpose_valid by done. unfold mbind at 1, st_bind at 1, st_lift. unfold mbind at 1, st_bind at 1.
  destruct (fn (mkScope u p) d) as [x d1] eqn:E1. destruct (Hfn p Hp d x d1 Hwf E1) as (Hwf1 & Hg1 & Hx).
  unfold one_purpose in Hx. destruct x as [a|e].
  - destruct (f (life d !! (u, p))) as [y|]; [|done]. simpl in Hx. injection Hx as Hx.
    unfold mbind at 1, st_bind. destruct (pg_each_scope u ps fn d1) as [z d2] eqn:E2. destruct (IH d1 z d2 Hwf1 E2) as (Hwf2 & Hg2 & Hz).
    assert (grows d d2) by (by eapply grows_trans). simpl. rewrite Hx.
    destruct z as [l|e]; intros [= <- <-]; split_and!; try done. intros Hh Hin. apply Hz; [done|]. by rewrite (proj2 Hg1).
  - intros [= <- <-]. split_and!; [done|done|]. intros Hh Hin. destruct (Hx Hh Hin) as [Hf Hc]. split; [|done].
    by destruct (f (life d !! (u, p))).
Qed.

Lemma valid_columns r : Purpose_IsValid (kr_Purpose r) = true -> consent_columns r = None.
Proof.
  intros Hp. destruct (purpose_text _ Hp) as [Htx Hin]. unfold consent_columns.
  assert (Forall (fun p => (50 <? char_length p) = false) validConsentPurposes) as Hlen by (repeat constructor).
  rewrite Forall_forall in Hlen. apply constraints_None. repeat constructor.
  - unfold varchar. by rewrite Htx, Hlen.
  - apply check_that_None. by apply has_true.
Qed.

Lemma insert_cases arg d r d' : pg_wf d -> kr_ID arg ∈ used (db_world d) -> kr_ID arg ∉ kr_ID <$> kt_consents (db_tables d) ->
  Purpose_IsValid (kr_Purpose arg) = true -> life d !! scope_key arg = None -> InsertConsent arg d = (r, d') ->
  pg_wf d' /\ grows d d' /\
  match r with
  | Ok _ => life d' = <[scope_key arg := (ts (kr_GrantedAt arg), ts <$> kr_ExpiresAt arg, ts <$> kr_RevokedAt arg)]> (life d)
  | Err e => e <> ErrNoRows /\ ~ (healthy drv /\ kr_UserID arg ∈ kt_users (db_tables d))
  end.
Proof.
  intros Hwf Hus Hid Hp Hnone Hq. unfold InsertConsent in Hq. cbv zeta in Hq.
  set (row := mkConsentRow (kr_ID arg) (kr_UserID arg) (kr_Purpose arg) (ts (kr_GrantedAt arg)) (ts <$> kr_ExpiresAt arg) (ts <$> kr_RevokedAt arg)) in Hq.
  rewrite (valid_columns row Hp : consent_columns row = None) in Hq.
  assert (forall x, x ∈ kt_consents (db_tables d) -> scope_key x <> scope_key row) as Hno by (exact (proj1 (tmap_None scope_key entry_of_row _ _) Hnone)).
  destruct (tmap_insert scope_key entry_of_row (kt_consents (db_tables d)) row (pw_scope _ Hwf) Hno) as [Hk1 Hm1].
  apply (stmt_keeps (fun t => if has (scope_key <$> kt_consents t) (scope_key row) then Err ErrNoRows
    else match constraints [unique_that (negb (has (kr_ID <$> kt_consents t) (kr_ID row))); refers_to (has (kt_users t) (kr_UserID row))] with
         | Some c => Err (PgError c) | None => Ok (kr_ID row, mkKT (kt_consents t ++ [row]) (kt_users t)) end)) in Hq as (Hwf1 & Hg & Hr & Hh); [|done|].
  all: rewrite (proj2 (has_false (scope_key <$> kt_consents (db_tables d)) (scope_key row))) in * by
    (intros (x & Hx & Hin)%list_elem_of_fmap; by apply (Hno x)).
  all: rewrite (proj2 (has_false (kr_ID <$> kt_consents (db_tables d)) (kr_ID row))) in * by done.
  - split_and!; [done|done|]. destruct r as [a|e].
    + destruct Hr as [(m & Hr)|[(e & _ & Hr)|(n & Ht & _)]]; [done|done|]. destruct (constraints _); [done|]. injection Ht as _ Ht.
      unfold consents_of. rewrite <- Ht. exact Hm1.
    + split.
      * destruct Hr as [(m & Hr)|[(e' & He & Hr)|(n & _ & Hr)]]; [congruence| |done]. destruct (constraints _); [|done]. congruence.
      * intros [Hhe Huser]. specialize (Hh Hhe). simpl in Hh. rewrite (proj2 (has_true (kt_users (db_tables d)) (kr_UserID arg)) Huser) in Hh. done.
  - intros a t Ha. destruct (constraints _); [done|]. injection Ha as _ <-. split; [|done]. destruct Hwf as [W1 W2 W3 W4].
    split; cbn [db_tables db_world kt_consents]; [done| | |].
    + apply keyed_insert; [done|]. by apply has_false.
    + intros x [Hx| ->%list_elem_of_singleton]%elem_of_app; auto.
    + intros x [Hx| ->%list_elem_of_singleton]%elem_of_app; [auto|]. unfold row. simpl. by rewrite Hts, !ts_option.
Qed.

(** Insertion of the record of a new grant. *)
Lemma createGrant_cases u p now d r d' : pg_wf d -> IsNil u = false -> Purpose_IsValid p = true -> time_IsZero now = false ->
  life d !! (u, p) = None -> Pg_createGrantTx (mkScope u p) now d = (r, d') ->
  pg_wf d' /\ grows d d' /\
  match r with
  | Ok _ => life d' = <[(u, p) := pg_fresh now]> (life d)
  | Err e => errors_Is e ErrConflict = false /\ ~ (healthy drv /\ u ∈ kt_users (db_tables d))
  end.
Proof.
  intros Hwf Hu Hp Hz Hnone. unfold Pg_createGrantTx. cbn [sc_UserID sc_Purpose]. unfold mbind at 1, st_bind at 1, pg_uuid_New.
  destruct (used_new (db_world d)) as (Hnew & Hnil & Hmono). destruct (newID (db_world d)) as [i w]. simpl in *.
  unfold NewRecord. rewrite (proj2 (N.eqb_neq i 0%N) Hnil : IsNil i = false), Hu, Hp, Hz. simpl. times.
  destruct (Z.ltb_spec (now + cc_consentTTL cfg) now) as [Hlt|_]; [destruct Hcfg as [? _]; lia|].
  set (d0 := mkDB (db_tables d) w). assert (pg_wf d0 /\ grows d d0) as [Hwf0 Hg0] by (apply wf_later; [done|done|set_solver]).
  assert (i ∉ kr_ID <$> kt_consents (db_tables d)) as Hi by (intros (x & -> & Hx)%list_elem_of_fmap; by apply Hnew, (pw_used _ Hwf)).
  unfold ConsentPg_Save, st_try, or_not_found, mbind, st_bind. unfold consent_params. simpl.
  match goal with |- context [InsertConsent ?arg d0] => destruct (InsertConsent arg d0) as [q d1] eqn:Hq end.
  apply insert_cases in Hq as (Hwf1 & Hg1 & Hr); [|done|set_solver|done|done|done].
  assert (grows d d1) by (by eapply grows_trans). destruct q as [x|e].
  - intros [= <- <-]. split_and!; [done|done|]. exact Hr.
  - destruct Hr as [Hne Hh]. destruct e as [ |c|m]; [done|..]; intros [= <- <-]; done.
Qed.

Lemma evaluate_pg c now e : time_IsZero now = false -> e = Some (times_of c) ->
  let ev := EvaluateGrant c now (cc_grantIdempotencyWindow cfg) (cc_reGrantCooldown cfg) (cc_consentTTL cfg) in
  match pg_grant1 now e with
  | None => exists m, ev = Err (New CodeBadRequest m)
  | Some y =>
      exists b, (ev = Ok (mkEval None false b) /\ Some y = e)
      \/ (ev = Ok (mkEval (Some (mkConsent (cr_ID c) (cr_UserID c) (cr_Purpose c) now (Some (now + cc_consentTTL cfg)) None)) true b) /\ y = pg_fresh now)
  end.
Proof.
  intros Hz ->. destruct Hcfg as (H1 & H2 & H3). cbv zeta. unfold EvaluateGrant, Consent_IsActive, CanReGrant, RenewAt, expired_at.
  rewrite Hz, time_Sub_ltb by done. destruct (Z.leb_spec (cc_consentTTL cfg) 0) as [|_]; [lia|]. unfold pg_grant1, times_of.
  destruct (cr_RevokedAt c) as [v|]; simpl.
  - rewrite Z.leb_antisym, time_Sub_ltb by done. destruct (now - v <? cc_reGrantCooldown cfg); simpl; [by eexists|]. exists false. by right.
  - unfold past. times. destruct (match cr_ExpiresAt c with Some e => e <? now | None => false end); simpl; [exists false; by right|].
    destruct (now - cr_GrantedAt c <? cc_grantIdempotencyWindow cfg); simpl; exists true; [by left|by right].
Qed.

(** The entry itself is written back. *)
Lemma alter_same (m : gmap (uuid * string) pg_entry) k e : m !! k = e -> partial_alter (fun _ => e) k m = m.
Proof. intros <-. by apply partial_alter_self. Qed.

Lemma upsert_does ctx u p : IsNil u = false -> Purpose_IsValid p = true -> time_IsZero (cx_now ctx) = false ->
  does u (Pg_upsertGrantTx ctx (mkScope u p)) (one_purpose u (fun e => Some <$> pg_grant1 (cx_now ctx) e) p).
Proof.
  intros Hu Hp Hz d r d' Hwf. destruct (purpose_text p Hp) as [Htx _]. unfold Pg_upsertGrantTx. set (now := cx_now ctx) in *. cbn [pg_upsert_attempts].
  unfold mbind at 1, st_bind at 1, st_try at 1, ConsentPg_Execute at 1. destruct (ConsentPg_executeWithTx _ _ _ d) as [x d1] eqn:Hx.
  apply execute_cases in Hx as (Hwf1 & Hg1 & Hx); [| |done|done].
  2: { intros c a Ha. pose proof (evaluate_pg c now _ Hz eq_refl) as He. cbv zeta in He. rewrite Ha in He.
       destruct (pg_grant1 _ _); [|naive_solver].
       destruct He as (b & [[[= ->] _]|[[= ->] _]]); done. }
  unfold one_purpose. destruct Hx as [(e & -> & Hi & Hn)|[(-> & Hnone & Hsame)|(c & Hl & _ & Hx)]].
  - destruct Hi as [Hi1 Hi2]. rewrite Hi1, Hi2. intros [= <- <-]. split_and!; done.
  - simpl. unfold mbind at 1, st_bind at 1, st_try. destruct (Pg_createGrantTx _ _ d1) as [y d2] eqn:Hy. rewrite <- Hsame in Hnone.
    apply createGrant_cases in Hy as (Hwf2 & Hg2 & Hy); [|done..]. assert (grows d d2) by (by eapply grows_trans).
    destruct y as [y|e].
    + intros [= <- <-]. split_and!; [done|done|]. rewrite Hsame in Hnone. rewrite Hnone. simpl. f_equal. rewrite Hy, Hsame. done.
    + destruct Hy as [-> Hh]. intros [= <- <-]. split_and!; [done|done|]. intros Hhe Hin. destruct Hh. split; [done|]. by rewrite (proj2 Hg1).
  - pose proof (evaluate_pg c now _ Hz Hl) as He. cbv zeta in He. destruct (pg_grant1 now (life d !! (u, p))) as [y|].
    + destruct He as (b & [[Hev Hyy]|[Hev Hyy]]); rewrite Hev in Hx; simpl in Hx; destruct Hx as [-> Hlife]; simpl; intros [= <- <-];
        (split_and!; [done|done|]); simpl; f_equal; rewrite Hlife.
      * rewrite Hyy. by apply alter_same.
      * by rewrite Hyy.
    + destruct He as (m & He). rewrite He in Hx. destruct Hx as [-> Hlife]. simpl. intros [= <- <-]. split_and!; done.
Qed.

Lemma revoke_does u p now : IsNil u = false -> Purpose_IsValid p = true -> time_IsZero now = false ->
  does u (Pg_tryRevokeScopeTx (mkScope u p) now) (one_purpose u (fun e => Some (pg_revoke1 now <$> e)) p).
Proof.
  intros Hu Hp Hz d r d' Hwf. destruct (purpose_text p Hp) as [Htx _]. unfold Pg_tryRevokeScopeTx.
  unfold mbind at 1, st_bind at 1, st_try at 1, ConsentPg_Execute at 1. destruct (ConsentPg_executeWithTx _ _ _ d) as [x d1] eqn:Hx.
  apply execute_cases in Hx as (Hwf1 & Hg1 & Hx); [| |done|done].
  2: { intros c a. unfold RevokeAt. rewrite Hz. destruct (Consent_CanRevoke c now); simpl; intros [= <-]; done. }
  unfold one_purpose. destruct Hx as [(e & -> & Hi & Hn)|[(-> & Hnone & Hsame)|(c & Hl & Hfix & Hx)]].
  - destruct Hi as [Hi1 Hi2]. rewrite Hi1, Hi2. intros [= <- <-]. split_and!; done.
  - simpl. intros [= <- <-]. split_and!; [done|done|]. rewrite Hnone. simpl. f_equal. rewrite Hsame. by apply alter_same.
  - unfold RevokeAt in Hx. rewrite Hz in Hx. rewrite Hl. change (pg_revoke1 now <$> Some (times_of c)) with (Some (pg_revoke1 now (times_of c))).
    assert (pg_revoke1 now (times_of c) = if Consent_CanRevoke c now then (cr_GrantedAt c, cr_ExpiresAt c, Some (ts now)) else times_of c) as ->.
    { unfold pg_revoke1, times_of, Consent_CanRevoke, expired_at, past. times. destruct (cr_RevokedAt c); [done|].
      by destruct (match cr_ExpiresAt c with Some e => e <? now | None => false end). }
    destruct (Consent_CanRevoke c now); simpl in Hx; destruct Hx as [-> Hlife]; simpl; intros [= <- <-]; (split_and!; [done|done|]); f_equal.
    + rewrite Hlife. injection Hfix as F1 F2 _. unfold entry_of_record. simpl. by rewrite <- F1, <- F2.
    + rewrite Hlife. by apply alter_same.
Qed.

(** ** Requests *)

(** What a request that changes consents by [f] may do: report success and have made
    the whole change; report an error and have changed nothing, or, when only the reply
    to the COMMIT was lost, have made the whole change.  When the database works, it
    fails only if [f] refuses, and then with a bad request. *)
Definition pg_outcome {A : Type} (u : uuid) (f : gmap (uuid * string) pg_entry -> option (gmap (uuid * string) pg_entry))
    (d : DB W ConsentTables) (r : res A) (d' : DB W ConsentTables) : Prop :=
  match r with
  | Ok _ => f (life d) = Some (life d')
  | Err e =>
      (life d' = life d \/ f (life d) = Some (life d')) /\
      (healthy drv -> u ∈ kt_users (db_tables d) -> life d' = life d /\ f (life d) = None /\ code_of e = Some CodeBadRequest)
  end.

Lemma runInTx_outcome {A} ctx u (m : SK A) f d r d' : cx_err ctx = None -> does u m f -> pg_wf d ->
  ConsentPg_RunInTx ctx m d = (r, d') -> pg_wf d' /\ grows d d' /\ pg_outcome u f d r d'.
Proof.
  intros Hctx Hm Hwf. unfold ConsentPg_RunInTx. rewrite Hctx. unfold inTx. pose proof (used_begin (db_world d)) as Hub.
  destruct (drv_begin drv (db_world d)) as [b w] eqn:Hb. simpl in Hub. destruct b as [e|].
  { intros [= <- <-]. destruct (wf_later d (mkDB (db_tables d) w) Hwf eq_refl Hub). split_and!; [done|done|]. split; [by left|].
    intros Hh _. destruct (Hh (db_world d)) as [Hn _]. by rewrite Hb in Hn. }
  destruct (wf_later d (mkDB (db_tables d) w) Hwf eq_refl Hub) as [Hwf0 Hg0]. unfold mbind, st_bind.
  destruct (m (mkDB (db_tables d) w)) as [x d1] eqn:E. destruct (Hm _ _ _ Hwf0 E) as (Hwf1 & Hg1 & Hx). simpl in Hx.
  assert (used (db_world d) ⊆ used (db_world d1)) as Hu1 by (destruct Hg1; simpl in *; set_solver).
  destruct x as [a|e].
  - change ((mret (TxCommit a) : ST (DB W ConsentTables) error (txres A)) d1) with (Ok (E := error) (TxCommit a), d1).
    cbv iota beta. pose proof (used_commit (db_world d1)) as Huc. destruct (drv_commit drv (db_world d1)) as [[ |e|e] w2] eqn:Hc; simpl in Huc; intros [= <- <-].
    + destruct (wf_later d1 (mkDB (db_tables d1) w2) Hwf1 eq_refl Huc). split_and!; [done| |done]. eapply grows_trans; [exact Hg0|by eapply grows_trans].
    + destruct (wf_later d (mkDB (db_tables d) w2) Hwf eq_refl ltac:(simpl; set_solver)). split_and!; [done|done|]. split; [by left|].
      intros Hh _. destruct (Hh (db_world d1)) as (_ & _ & Hn). by rewrite Hc in Hn.
    + destruct (wf_later d1 (mkDB (db_tables d1) w2) Hwf1 eq_refl Huc). split_and!; [done| |].
      * eapply grows_trans; [exact Hg0|by eapply grows_trans].
      * split; [by right|]. intros Hh _. destruct (Hh (db_world d1)) as (_ & _ & Hn). by rewrite Hc in Hn.
  - intros [= <- <-]. destruct (wf_later d (rolled_back (db_tables d) d1) Hwf eq_refl Hu1). split_and!; [done|done|]. split; [by left|].
    intros Hh Hin. split; [done|]. by apply Hx.
Qed.

(** A computation that only talks to the audit publisher. *)
Definition quiet {A} (m : SK A) : Prop :=
  forall d r d', m d = (r, d') -> is_Ok r = true /\ db_tables d' = db_tables d /\ used (db_world d) ⊆ used (db_world d').

Lemma quiet_ret {A} (a : A) : quiet (mret a).
Proof. by intros d r d' [= <- <-]. Qed.
Lemma quiet_emit e : quiet (pg_emitAudit e).
Proof. intros d r d' [= <- <-]. split_and!; [done|done|]. apply used_emit. Qed.
Lemma quiet_bind {A B} (m : SK A) (k : A -> SK B) : quiet m -> (forall a, quiet (k a)) -> quiet (m ≫= k).
Proof.
  intros Hm Hk d r d'. unfold mbind, st_bind. destruct (m d) as [[a|e] d1] eqn:E; destruct (Hm _ _ _ E) as (? & Ht & Hu); [|done].
  intros E2. destruct (Hk a _ _ _ E2) as (? & Ht2 & Hu2). split_and!; [done|congruence|set_solver].
Qed.
Lemma quiet_grants l : quiet (pg_emit_grants l).
Proof. induction l as [|[c [f|]] l IH]; simpl; [apply quiet_ret|apply quiet_bind; [apply quiet_emit|done]|done]. Qed.
Lemma quiet_revokes u now l : quiet (pg_emit_revokes u now l).
Proof. induction l as [|c l IH]; simpl; [apply quiet_ret|apply quiet_bind; [apply quiet_emit|done]]. Qed.

Lemma quiet_after {A B} (m : SK A) (k : A -> SK B) u f d r d' :
  (forall x d1, m d = (x, d1) -> pg_wf d1 /\ grows d d1 /\ pg_outcome u f d x d1) -> (forall a, quiet (k a)) -> (m ≫= k) d = (r, d') ->
  pg_wf d' /\ grows d d' /\ pg_outcome u f d r d'.
Proof.
  intros Hm Hk. unfold mbind, st_bind. destruct (m d) as [x d1] eqn:E. destruct (Hm x d1 eq_refl) as (Hwf & Hg & Ho). destruct x as [a|e].
  - intros E2. destruct (Hk a _ _ _ E2) as (Hok & Ht & Hu). destruct (wf_later d1 d' Hwf Ht Hu). destruct r as [y|e]; [|done].
    split_and!; [done|by eapply grows_trans|]. simpl in *. by rewrite Ht.
  - by intros [= <- <-].
Qed.

Lemma revokeAll_does u now : does u (pg_wrap CodeInternal "failed to revoke consents" (ConsentPg_RevokeAllByUser u now)) (fun m => Some (pg_revoke_all now u m)).
Proof.
  intros d r d' Hwf. unfold pg_wrap, ConsentPg_RevokeAllByUser, wrapped. destruct (RevokeAllConsentsByUser u now d) as [q d1] eqn:Hq.
  unfold RevokeAllConsentsByUser in Hq. cbv zeta in Hq. apply stmt_keeps in Hq as (Hwf1 & Hg & Hr & Hh); [|done|].
  - destruct Hr as [(m & ->)|[(e & He & _)|(n & [= <- Ht] & ->)]]; [|done|].
    + intros [= <- <-]. split_and!; [done|done|]. intros Hhe. by specialize (Hh Hhe).
    + intros [= <- <-]. split_and!; [done|done|]. f_equal. unfold consents_of. rewrite <- Ht. cbn [kt_consents].
      symmetry. apply tmap_update_where; [apply Hwf|done|]. intros x _. unfold revocable_row, entry_of_row, past. simpl.
      destruct (bool_decide (kr_UserID x = u)); simpl; [|done]. destruct (kr_RevokedAt x) eqn:E1; simpl; [by rewrite E1|].
      destruct (kr_ExpiresAt x) as [e|] eqn:E2; simpl; [|done]. rewrite Z.leb_antisym. destruct (e <? ts now); simpl; by rewrite ?E1, ?E2.
  - intros a t [= <- <-]. destruct Hwf as [W1 W2 W3 W4]. split; [|done]. split; cbn [db_tables db_world kt_consents].
    + by apply keyed_update.
    + by apply keyed_update.
    + intros x (y & -> & Hy)%list_elem_of_fmap. destruct (revocable_row _ _ y); exact (W3 y Hy).
    + intros x (y & -> & Hy)%list_elem_of_fmap. destruct (revocable_row _ _ y); [|by apply W4]. destruct (W4 y Hy) as (? & ? & _). simpl. by rewrite Hts.
Qed.

Lemma deleteAll_does u : does u (pg_wrap CodeInternal "failed to delete all consents" (ConsentPg_DeleteByUser u)) (fun m => Some (pg_delete_all u m)).
Proof.
  intros d r d' Hwf. unfold pg_wrap, ConsentPg_DeleteByUser, wrapped. destruct (DeleteConsentsByUser u d) as [q d1] eqn:Hq.
  unfold DeleteConsentsByUser in Hq.
  destruct (tmap_delete scope_key entry_of_row (fun r => bool_decide (kr_UserID r = u)) (fun kv => bool_decide (kv.1.1 = u))
              (kt_consents (db_tables d)) (pw_scope _ Hwf)) as [Hk Hm]; [done|].
  apply stmt_keeps in Hq as (Hwf1 & Hg & Hr & Hh); [|done|].
  - destruct Hr as [(m & ->)|[(e & He & _)|(n & [= <- Ht] & ->)]]; [|done|].
    + intros [= <- <-]. split_and!; [done|done|]. intros Hhe. by specialize (Hh Hhe).
    + intros [= <- <-]. split_and!; [done|done|]. f_equal. unfold consents_of. rewrite <- Ht. cbn [kt_consents]. rewrite Hm.
      unfold pg_delete_all. apply map_filter_ext. intros k x _. simpl. by rewrite bool_decide_eq_false.
  - intros a t [= <- <-]. destruct Hwf as [W1 W2 W3 W4]. split; [|done]. split; cbn [db_tables db_world kt_consents]; [done|by apply keyed_delete| |].
    all: intros x [_ Hx]%list_elem_of_filter; auto.
Qed.

Definition pg_step (op : consent_op) : SK unit :=
  match op with
  | OGrant ctx u ps => answer (fun _ => tt) (Pg_Grant ctx u ps)
  | ORevoke ctx u ps => answer (fun _ => tt) (Pg_Revoke ctx u ps)
  | ORevokeAll ctx u => answer (fun _ => tt) (Pg_RevokeAll ctx u)
  | ODeleteAll ctx u => Pg_DeleteAll ctx u
  | ORequire ctx u p => Pg_Require ctx u p
  end.

(** The table of users changes between the requests: the auth stores insert and delete
    users, and [ON DELETE CASCADE] takes the consents of a deleted user along. *)
Definition insert_user (u : uuid) : QK unit :=
  stmt drv (fun _ t =>
    if has (kt_users t) u then Err (PgError unique_violation) else Ok (tt, mkKT (kt_consents t) (kt_users t ++ [u]))).
Definition delete_user (u : uuid) : QK unit :=
  stmt drv (fun _ t =>
    Ok (tt, mkKT (delete_where (fun r => bool_decide (kr_UserID r = u)) (kt_consents t)) (filter (fun x => x <> u) (kt_users t)))).

Inductive pg_event := PRequest (op : consent_op) | PInsertUser (u : uuid) | PDeleteUser (u : uuid).

Definition pg_event_step (d : DB W ConsentTables) (ev : pg_event) : DB W ConsentTables :=
  match ev with
  | PRequest op => (pg_step op d).2
  | PInsertUser u => (insert_user u d).2
  | PDeleteUser u => (delete_user u d).2
  end.

Definition pg_run (evs : list pg_event) (d : DB W ConsentTables) : DB W ConsentTables := foldl pg_event_step d evs.

Definition event_clock (ev : pg_event) : Prop :=
  match ev with PRequest op => time_IsZero (cx_now (op_ctx op)) = false | _ => True end.

(** The change a request asks for. *)
Definition pg_spec (op : consent_op) (m : gmap (uuid * string) pg_entry) : option (gmap (uuid * string) pg_entry) :=
  match op with
  | OGrant ctx u ps => pg_grant (cx_now ctx) u ps m
  | ORevoke ctx u ps => pg_revoke (cx_now ctx) u ps m
  | ORevokeAll ctx u => Some (pg_revoke_all (cx_now ctx) u m)
  | ODeleteAll ctx u => Some (pg_delete_all u m)
  | ORequire _ _ _ => Some m
  end.

Definition op_user (op : consent_op) : uuid :=
  match op with OGrant _ u _ | ORevoke _ u _ | ORevokeAll _ u | ODeleteAll _ u | ORequire _ u _ => u end.

(** A request with a user and valid purposes, and a live context. *)
Definition op_valid (op : consent_op) : Prop :=
  IsNil (op_user op) = false /\ cx_err (op_ctx op) = None /\
  match op with
  | OGrant _ _ ps => ps <> [] /\ forallb Purpose_IsValid ps = true
  | ORevoke _ _ ps => forallb Purpose_IsValid ps = true
  | ORequire _ _ p => Purpose_IsValid p = true
  | _ => True
  end.

Definition changes (op : consent_op) : bool := match op with ORequire _ _ _ => false | _ => true end.

Lemma answer_outcome {A B} (g : A -> B) (m : SK A) u f d : pg_wf d ->
  (forall x d1, m d = (x, d1) -> pg_wf d1 /\ grows d d1 /\ pg_outcome u f d x d1) ->
  forall r d', answer g m d = (r, d') -> pg_wf d' /\ grows d d' /\ pg_outcome u f d r d'.
Proof. intros Hwf Hm r d' (x & E & ->)%answer_cases. destruct (Hm x d' E) as (? & ? & ?). split_and!; [done|done|]. by destruct x. Qed.

Lemma pg_step_outcome op d r d' : pg_wf d -> op_valid op -> time_IsZero (cx_now (op_ctx op)) = false -> changes op = true ->
  pg_step op d = (r, d') -> pg_wf d' /\ grows d d' /\ pg_outcome (op_user op) (pg_spec op) d r d'.
Proof.
  intros Hwf (Hu & Hctx & Hv) Hz Hch. destruct op as [ctx u ps|ctx u ps|ctx u|ctx u|]; [| | | |done]; simpl in *.
  - apply answer_outcome; [done|]. intros x d1. destruct Hv as [Hne Hv]. unfold Pg_Grant. rewrite Hu, validatePurposes_spec, Hv.
    destruct ps as [|p ps]; [done|]. cbn [length Nat.eqb]. unfold mbind at 1, st_bind at 1, st_lift.
    apply quiet_after; [|intros l; apply quiet_bind; [apply quiet_grants|intros; apply quiet_ret]].
    intros y d2. apply runInTx_outcome; [done| |done]. apply each_scope_does; [done|done|]. intros. by apply upsert_does.
  - apply answer_outcome; [done|]. intros x d1. unfold Pg_Revoke. rewrite Hu, validatePurposes_spec, Hv. unfold mbind at 1, st_bind at 1, st_lift.
    apply quiet_after; [|intros l; apply quiet_bind; [apply quiet_revokes|intros; apply quiet_ret]].
    intros y d2. apply runInTx_outcome; [done| |done]. apply each_scope_does; [done|done|]. intros. by apply revoke_does.
  - apply answer_outcome; [done|]. intros x d1. unfold Pg_RevokeAll. rewrite Hu.
    apply quiet_after; [|intros n; apply quiet_bind; [destruct (0 <? n); [apply quiet_emit|apply quiet_ret]|intros; apply quiet_ret]].
    intros y d2. apply runInTx_outcome; [done|apply revokeAll_does|done].
  - unfold Pg_DeleteAll. rewrite Hu. apply quiet_after; [|intros; apply quiet_emit].
    intros y d2. apply runInTx_outcome; [done|apply deleteAll_does|done].
Qed.

Lemma require_cases ctx u p d r d' : pg_wf d -> Pg_Require ctx u p d = (r, d') ->
  pg_wf d' /\ grows d d' /\ life d' = life d /\
  (IsNil u = false -> Purpose_IsValid p = true ->
   r = verdict_result (pg_require (cx_now ctx) (life d !! (u, p))) \/ (~ healthy drv /\ exists e, r = Err e /\ code_of e = Some CodeInternal)).
Proof.
  intros Hwf. unfold Pg_Require. destruct (IsNil u) eqn:Hu; [intros [= <- <-]; split_and!; [done|apply grows_refl|done|done]|].
  destruct (Purpose_IsValid p) eqn:Hp; [|intros [= <- <-]; split_and!; [done|apply grows_refl|done|done]].
  cbn [negb]. unfold NewConsentScope. rewrite Hu, Hp. cbn [negb]. destruct (purpose_text p Hp) as [Htx _].
  unfold mbind at 1, st_bind at 1, st_try, ConsentPg_FindByScope, mbind at 1, st_bind at 1, or_not_found. cbn [sc_UserID sc_Purpose].
  destruct (GetConsentByScope u p d) as [q d1] eqn:Hq. unfold GetConsentByScope in Hq.
  apply query_keeps in Hq as (Hwf1 & Hg1 & Ht1 & Hr & Hh); [|done]. unfold with_text in Hr, Hh. rewrite Htx in Hr, Hh.
  pose proof (scope_row u p (db_tables d) (pw_scope _ Hwf)) as Ho.
  assert (forall e d2, mkDB (db_tables d1) (emit e (db_world d1)) = d2 -> pg_wf d2 /\ grows d d2 /\ life d2 = life d) as Hemit.
  { intros e d2 <-. destruct (wf_later d1 (mkDB (db_tables d1) (emit e (db_world d1))) Hwf1 eq_refl (used_emit e _)).
    split_and!; [done|by eapply grows_trans|by rewrite <- Ht1]. }
  destruct Hr as [(m & ->)| ->].
  { intros [= <- <-]. split_and!; [done|done|by rewrite Ht1|]. intros _ _. right. split; [|by eexists].
    intros Hhe. specialize (Hh Hhe). rewrite <- Hh in Ho. by destruct Ho. }
  unfold pg_recordConsentCheckOutcome, pg_emitAudit. destruct (one_row _) as [row|e].
  - destruct Ho as (_ & _ & Hl). simpl. intros Hend.
    assert (exists e, mkDB (db_tables d1) (emit e (db_world d1)) = d' /\ r = verdict_result (pg_require (cx_now ctx) (Some (entry_of_row row)))) as (e & Hd & ->).
    { revert Hend. unfold ComputeStatus, pg_require, entry_of_row, expired_at, past, time_Before. simpl. destruct (kr_RevokedAt row).
      - intros [= <- <-]. by eexists.
      - destruct (match kr_ExpiresAt row with Some e => e <? cx_now ctx | None => false end); intros [= <- <-]; by eexists. }
    destruct (Hemit e d' Hd) as (? & ? & ?). split_and!; [done|done|done|]. intros _ _. left. by rewrite Hl.
  - destruct Ho as [-> Hl]. simpl. intros [= <- Hd]. destruct (Hemit _ d' Hd) as (? & ? & ?). split_and!; [done|done|done|]. intros _ _. left. by rewrite Hl.
Qed.

(** A request that is not valid does nothing. *)
Lemma invalid_step op d : changes op = true -> op_valid op \/ exists e, pg_step op d = (Err e, d).
Proof.
  intros Hch. unfold op_valid. destruct (IsNil (op_user op)) eqn:Hu.
  { right. destruct op; simpl in *; try done; unfold answer, Pg_Grant, Pg_Revoke, Pg_RevokeAll, Pg_DeleteAll; rewrite Hu; by eexists. }
  destruct (cx_err (op_ctx op)) as [e|] eqn:Hx.
  { right. destruct op as [ctx u ps|ctx u ps|ctx u|ctx u|]; simpl in *; try done; unfold answer, Pg_Grant, Pg_Revoke, Pg_RevokeAll, Pg_DeleteAll, ConsentPg_RunInTx; rewrite Hu, Hx; try by eexists.
    - destruct (length ps =? 0)%nat; [by eexists|]. rewrite validatePurposes_spec. destruct (forallb _ _); by eexists.
    - rewrite validatePurposes_spec. destruct (forallb _ _); by eexists. }
  destruct op as [ctx u ps|ctx u ps|ctx u|ctx u|]; simpl in *; try done; try (left; done).
  - destruct (forallb Purpose_IsValid ps) eqn:Hv.
    + destruct ps as [|p ps]; [|by left]. right. unfold answer, Pg_Grant. rewrite Hu. by eexists.
    + right. unfold answer, Pg_Grant. rewrite Hu, validatePurposes_spec, Hv. destruct (length ps =? 0)%nat; by eexists.
  - destruct (forallb Purpose_IsValid ps) eqn:Hv; [by left|]. right. unfold answer, Pg_Revoke. rewrite Hu, validatePurposes_spec, Hv. by eexists.
Qed.

Lemma pg_step_wf op d r d' : pg_wf d -> time_IsZero (cx_now (op_ctx op)) = false -> pg_step op d = (r, d') -> pg_wf d' /\ grows d d'.
Proof.
  intros Hwf Hz E. destruct (changes op) eqn:Hch.
  - destruct (invalid_step op d Hch) as [Hv|(e & Hn)].
    + by destruct (pg_step_outcome op d r d' Hwf Hv Hz Hch E) as (? & ? & _).
    + rewrite Hn in E. injection E as _ <-. split; [done|apply grows_refl].
  - destruct op as [| | | |ctx u p]; try done. by destruct (require_cases ctx u p d r d' Hwf E) as (? & ? & _).
Qed.

Lemma user_stmt_wf (f : ConsentTables -> result dberr (unit * ConsentTables)) d : pg_wf d ->
  (forall t t', f t = Ok (tt, t') -> kt_consents t' = kt_consents t \/ exists P, kt_consents t' = delete_where P (kt_consents t)) ->
  pg_wf (stmt drv (fun _ => f) d).2.
Proof.
  intros [W1 W2 W3 W4] Hf. pose proof (stmt_world drv (fun _ => f) d) as Hw. destruct (stmt drv (fun _ => f) d) as [r d'] eqn:E. simpl in *.
  assert (kt_consents (db_tables d') = kt_consents (db_tables d) \/ exists P, kt_consents (db_tables d') = delete_where P (kt_consents (db_tables d))) as Ht.
  { apply stmt_cases in E as (now & _ & [(m & _ & ->)|[(m & [] & t & Ha & _ & ->)|[(e & _ & _ & ->)|([] & t & Ha & _ & ->)]]]); eauto. }
  assert (used (db_world d) ⊆ used (db_world d')) as Hu by (rewrite Hw; apply used_stmt).
  destruct Ht as [Ht|[P Ht]]; split; rewrite Ht; try done; try (by apply keyed_delete); intros x Hx;
    try (apply list_elem_of_filter in Hx as [_ Hx]); auto.
Qed.

Lemma pg_run_wf evs d : pg_wf d -> Forall event_clock evs -> pg_wf (pg_run evs d).
Proof.
  intros Hwf Hops. revert d Hwf. unfold pg_run. induction Hops as [|ev evs Hop _ IH]; intros d Hwf; simpl; [done|].
  apply IH. destruct ev as [op|u|u]; simpl.
  - destruct (pg_step op d) as [r d1] eqn:E. by destruct (pg_step_wf op d r d1 Hwf Hop E).
  - apply user_stmt_wf; [done|]. intros t t'. destruct (has _ _); [done|]. intros [= <-]. by left.
  - apply user_stmt_wf; [done|]. intros t t' [= <-]. right. by eexists.
Qed.

(** A deletion of a user that is done takes the consents of that user and no others. *)
Lemma delete_user_cascades u d r d' : pg_wf d -> delete_user u d = (r, d') ->
  life d' = life d \/ life d' = pg_delete_all u (life d).
Proof.
  intros Hwf (now & _ & Hc)%stmt_cases.
  destruct (tmap_delete scope_key entry_of_row (fun r => bool_decide (kr_UserID r = u)) (fun kv => bool_decide (kv.1.1 = u))
              (kt_consents (db_tables d)) (pw_scope _ Hwf)) as [_ Hm]; [done|].
  assert (tmap scope_key entry_of_row (delete_where (fun r => bool_decide (kr_UserID r = u)) (kt_consents (db_tables d))) =
    pg_delete_all u (life d)) as Hd.
  { rewrite Hm. unfold pg_delete_all. apply map_filter_ext. intros k x _. simpl. by rewrite bool_decide_eq_false. }
  destruct Hc as [(m & _ & E)|[(m & a & t & [= _ <-] & _ & E)|[(e & [=] & _)|(a & t & [= _ <-] & _ & E)]]]; rewrite E; auto.
Qed.

(** C26: Consent on PostgreSQL.  After any history of requests, of users created and deleted
    (with the cascade to their consents) and of failures, a request that
    reports success has made exactly the change it asks for, of all its purposes; one
    that reports an error has changed nothing, or made the whole change when only the
    reply to its COMMIT was lost; while the database works, only a grant in its cooldown
    is refused, as a bad request and with no purpose granted.  [Require] answers what the
    times of the consent say, or that the database failed, and changes nothing. *)
Theorem pg_consent_refines (users : list uuid) (w : W) (evs : list pg_event) (op : consent_op) :
  Forall event_clock (evs ++ [PRequest op]) -> op_valid op ->
  let d := pg_run evs (mkDB (mkKT [] users) w) in
  let '(r, d') := pg_step op d in
  match op with
  | ORequire ctx u p =>
      life d' = life d /\
      (r = verdict_result (pg_require (cx_now ctx) (life d !! (u, p)))
       \/ (~ healthy drv /\ exists e, r = Err e /\ code_of e = Some CodeInternal))
  | _ => pg_outcome (op_user op) (pg_spec op) d r d'
  end.
Proof.
  intros [Hops [Hop _]%Forall_cons]%Forall_app Hv. cbv zeta. set (d := pg_run evs _).
  assert (pg_wf d) as Hwf. { apply pg_run_wf; [|done]. split; unfold keyed; simpl; [apply NoDup_nil_2|apply NoDup_nil_2|..]; intros r Hr; by apply elem_of_nil in Hr. }
  destruct (pg_step op d) as [r d'] eqn:E. destruct (changes op) eqn:Hch.
  - destruct (pg_step_outcome op d r d' Hwf Hv Hop Hch E) as (_ & _ & Ho). by destruct op.
  - destruct op as [| | | |ctx u p]; try done. destruct (require_cases ctx u p d r d' Hwf E) as (_ & _ & Hl & Hr).
    split; [done|]. destruct Hv as (Hu & _ & Hp). by apply Hr.
Qed.
End service.
End consentsql.

Module ConsentSqlExample.
Import PgExample.

(** The world counts the identifiers handed out. *)
Definition counting (now : time) : Driver N := mkDriver (fun w => (None, w)) (fun w => (Done, w)) (fun w => (Done, w)) (fun _ => now).
Definition next (w : N) : uuid * N := (N.succ w, N.succ w).
Definition ignore (e : ConsentEvent) (w : N) : N := w.

#[local] Instance counting_laws now : UuidLaws (counting now) next ignore.
Proof.
  refine {| used := fun w => list_to_set (N.of_nat <$> seq 1 (N.to_nat w)) |}; try done.
  intros w. unfold next. simpl. split_and!; [|lia|].
  - rewrite elem_of_list_to_set, list_elem_of_fmap. intros (n & Hn & Hin%elem_of_seq). lia.
  - intros x. rewrite elem_of_union, elem_of_singleton, !elem_of_list_to_set, !list_elem_of_fmap.
    intros [->|(n & -> & Hin%elem_of_seq)]; [exists (N.to_nat (N.succ w))|exists n]; (split; [lia|]); apply elem_of_seq; lia.
Defined.

Definition cfg : ConsentConfig := Consent_New [].
Definition at_ (t : time) : ConsentCtx := mkConsentCtx (t * 1000) None None.
Definition history : list pg_event :=
  [PInsertUser 7; PInsertUser 8; PRequest (OGrant (at_ 5) 8 [PurposeLogin]); PRequest (OGrant (at_ 10) 7 [PurposeDecision]);
   PDeleteUser 8; PRequest (ORevoke (at_ 20) 7 [PurposeDecision])].
Definition d : DB N ConsentTables := pg_run (counting 0) next ignore cfg history (mkDB (mkKT [] []) 0%N).

(** A grant of two purposes, one of them in its cooldown. *)
Lemma pg_consent_refines_witness :
  let '(r, d') := pg_step (counting 0) next ignore cfg (OGrant (at_ 30) 7 [PurposeLogin; PurposeDecision]) d in
  pg_outcome (counting 0) 7 (pg_spec cfg (OGrant (at_ 30) 7 [PurposeLogin; PurposeDecision])) d r d' /\
  is_Ok r = false /\ consents_of (db_tables d') = consents_of (db_tables d).
Proof.
  pose proof (pg_consent_refines (counting 0) next ignore cfg ts_idem ltac:(repeat constructor) ltac:(apply Consent_New_ok; constructor)
    [] 0%N history (OGrant (at_ 30) 7 [PurposeLogin; PurposeDecision]) ltac:(repeat constructor) ltac:(by repeat split)) as H.
  fold d in H. cbv zeta in H. revert H. destruct (pg_step _ _ _ _ _ d) as [r d'] eqn:E. intros H. split; [exact H|].
  vm_compute in E. injection E as <- <-. split; vm_compute; reflexivity.
Defined.
End ConsentSqlExample.
