(* ===== verification/RateSql.v ===== *)
(** * The rate-limit stores on PostgreSQL
    [internal/ratelimit/store/bucket/store_postgres.go], [globalthrottle/store_postgres.go],
    [authlockout/store_postgres.go], [allowlist/store_postgres.go], the queries of
    [internal/ratelimit/store/sqlc/], and the atomic path of
    [internal/ratelimit/service/authlockout/service.go]

    The tables are those of [migrations/000010].  The advisory lock of [AllowN] is held
    to the end of its transaction, so the calls for one key run one after the other. *)
From S2P Require Import Prelude Errors Keys SlidingWindow BucketStore Lockout Throttle RequestLimit SqlDb.
Open Scope Z_scope.

Record EventRow := mkEventRow { ev_Key : string; ev_OccurredAt : time; ev_Cost : Z; ev_WindowSeconds : Z }.
Record ThrottleRow := mkThrottleRow { gr_BucketType : string; gr_BucketStart : time; gr_Count : Z }.
Record LockoutRow := mkLockoutRow {
  lr_Identifier : string; lr_FailureCount : Z; lr_DailyFailures : Z; lr_LockedUntil : option time; lr_LastFailureAt : time;
  lr_RequiresCaptcha : bool;
}.
Record AllowRow := mkAllowRow {
  wr_ID : string; wr_EntryType : string; wr_Identifier : string; wr_Reason : string; wr_ExpiresAt : option time; wr_CreatedAt : time;
  wr_CreatedBy : uuid;
}.

Record RateTables := mkRT {
  rt_events : list EventRow; rt_throttle : list ThrottleRow; rt_lockouts : list LockoutRow; rt_allowlist : list AllowRow;
  rt_users : list uuid;
}.

Definition with_events (l : list EventRow) (t : RateTables) : RateTables := mkRT l (rt_throttle t) (rt_lockouts t) (rt_allowlist t) (rt_users t).
Definition with_throttle (l : list ThrottleRow) (t : RateTables) : RateTables := mkRT (rt_events t) l (rt_lockouts t) (rt_allowlist t) (rt_users t).
Definition with_lockouts (l : list LockoutRow) (t : RateTables) : RateTables := mkRT (rt_events t) (rt_throttle t) l (rt_allowlist t) (rt_users t).
Definition with_allowlist (l : list AllowRow) (t : RateTables) : RateTables := mkRT (rt_events t) (rt_throttle t) (rt_lockouts t) l (rt_users t).

(** [int32(x)]. *)
Definition to_int32 (x : Z) : Z := (x + 2 ^ 31) mod 2 ^ 32 - 2 ^ 31.

Section ratesql.
Context {W : Type} (drv : Driver W) `{!PgTypes}.

Abbreviation QR A := (ST (DB W RateTables) dberr A) (only parsing).
Abbreviation SR A := (ST (DB W RateTables) error A) (only parsing).

(** ** Buckets *)

Definition of_key (key : string) (r : EventRow) : bool := bool_decide (ev_Key r = key).
Definition total_cost (l : list EventRow) : Z := foldr (fun r n => ev_Cost r + n) 0 l.
Definition earliest (l : list EventRow) : option time :=
  foldr (fun r m => Some (match m with None => ev_OccurredAt r | Some t => Z.min (ev_OccurredAt r) t end)) None l.

(** [pg_advisory_xact_lock]. *)
Definition LockRateLimitKey (key : string) : QR unit := query drv (fun _ => with_text key (Ok tt)).

Definition DeleteRateLimitEventsBefore (key : string) (occurredAt : time) : QR unit :=
  stmt drv (fun _ t => with_text key
    (Ok (tt, with_events (delete_where (fun r => of_key key r && (ev_OccurredAt r <? ts occurredAt)) (rt_events t)) t))).
Definition DeleteRateLimitEventsByKey (key : string) : QR unit :=
  stmt drv (fun _ t => with_text key (Ok (tt, with_events (delete_where (of_key key) (rt_events t)) t))).

(** Of the newest events any one may be first; the order of the table decides. *)
Definition newer_event (a b : EventRow) : Prop := ev_OccurredAt b <= ev_OccurredAt a.
#[local] Instance newer_event_dec : RelDecision newer_event.
Proof. intros a b. unfold newer_event. apply _. Defined.
Definition GetLatestRateLimitWindowSeconds (key : string) : QR Z :=
  query drv (fun t => with_text key
    match merge_sort newer_event (select_where (of_key key) (rt_events t)) with [] => Err ErrNoRows | r :: _ => Ok (ev_WindowSeconds r) end).

Definition InsertRateLimitEvent (arg : EventRow) : QR unit :=
  stmt drv (fun _ t => with_text (ev_Key arg)
    (Ok (tt, with_events (rt_events t ++ [mkEventRow (ev_Key arg) (ts (ev_OccurredAt arg)) (ev_Cost arg) (ev_WindowSeconds arg)]) t))).

(** A value the driver scanned into an [interface{}]. *)
Inductive scanned := VNil | VTime (t : time) | VText (s : string) | VOther (type_name : string).

Definition MinRateLimitOccurredAt (key : string) : QR scanned :=
  query drv (fun t => with_text key
    (Ok match earliest (select_where (of_key key) (rt_events t)) with None => VNil | Some m => VTime m end)).
Definition SumRateLimitCost (key : string) : QR Z :=
  query drv (fun t => with_text key (Ok (total_cost (select_where (of_key key) (rt_events t))))).
Definition SumRateLimitCostSince (key : string) (occurredAt : time) : QR Z :=
  query drv (fun t => with_text key
    (Ok (total_cost (select_where (fun r => of_key key r && (ts occurredAt <=? ev_OccurredAt r)) (rt_events t))))).

(** [time.Parse] with the two layouts. *)
Context (parse_RFC3339Nano parse_RFC3339 : string -> res time).

Definition parseTimestamp (value : string) : res time :=
  match parse_RFC3339Nano value with Ok t => Ok t | Err _ => parse_RFC3339 value end.

Definition parseNullableTime (value : scanned) : res (option time) :=
  match value with
  | VNil => Ok None
  | VTime t => Ok (Some t)
  | VText s => t ← parseTimestamp s; Ok (Some t)
  | VOther n => Err (EOther ("unexpected time value: " +:+ n))
  end.

Definition plain_tx_error (prefix m : string) : error := EWrap prefix (EOther m).

(** The statements between [BeginTx] and [Commit]. *)
Definition allow_tx (now : time) (key : string) (cost limit : Z) (windowDuration : duration) (cutoff : time) (windowSeconds : Z)
    : SR (txres (Z * bool * Z * time)) :=
  wrapped "acquire rate limit lock" (LockRateLimitKey key);;
  wrapped "cleanup rate limit events" (DeleteRateLimitEventsBefore key cutoff);;
  current ← wrapped "count rate limit events" (SumRateLimitCost key);
  oldestRaw ← wrapped "oldest rate limit event" (MinRateLimitOccurredAt key);
  oldest ← st_lift (match parseNullableTime oldestRaw with Ok o => Ok o | Err e => Err (EWrap "oldest rate limit event" e) end);
  let allowed := wrap64 (current + cost) <=? limit in
  let resetAt := match allowed, oldest with
                 | false, Some o => time_Add o windowDuration
                 | _, _ => time_Add now windowDuration
                 end in
  if allowed then
    let cost := Z.min 1000 cost in
    let windowSeconds := Z.max 10000 windowSeconds in
    wrapped "insert rate limit event" (InsertRateLimitEvent (mkEventRow key now (to_int32 cost) (to_int32 windowSeconds)));;
    mret (TxCommit (current, allowed, cost, resetAt))
  else mret (TxCommit (current, allowed, cost, resetAt)).

Definition BucketPg_AllowN (now : time) (key : string) (cost limit : Z) (windowDuration : duration) : SR RateLimitResult :=
  if str_empty key then st_fail (EOther "rate limit key is required")
  else if (limit <=? 0) || (cost <=? 0) then st_fail (EOther "rate limit cost and limit must be positive")
  else if windowDuration <=? 0 then st_fail (EOther "rate limit window must be positive")
  else
    let cutoff := time_Add now (- windowDuration) in
    let windowSeconds := int_Seconds windowDuration in
    '(current, allowed, cost, resetAt) ← inTx drv (plain_tx_error "begin rate limit tx") (plain_tx_error "commit rate limit tx")
      (allow_tx now key cost limit windowDuration cutoff windowSeconds);
    let remaining := if (allowed : bool) then limit - (current + cost) else 0 in
    mret (mkRLR allowed false limit remaining resetAt (retryAfterSeconds allowed resetAt now)).

Definition BucketPg_Allow (now : time) (key : string) (limit : Z) (window : duration) : SR RateLimitResult :=
  BucketPg_AllowN now key 1 limit window.

Definition BucketPg_Reset (key : string) : SR unit :=
  if str_empty key then st_fail (EOther "rate limit key is required")
  else wrapped "reset rate limit" (DeleteRateLimitEventsByKey key).

Definition BucketPg_GetCurrentCount (now : time) (key : string) : SR Z :=
  if str_empty key then st_fail (EOther "rate limit key is required")
  else
    w ← attempt (GetLatestRateLimitWindowSeconds key);
    match w with
    | Err ErrNoRows => mret 0
    | Err e => st_fail (EWrap "get rate limit window" (db_error e))
    | Ok windowSeconds =>
        let cutoff := time_Add now (- (windowSeconds * Second)) in
        wrapped "get rate limit count" (SumRateLimitCostSince key cutoff)
    end.

(** ** The global throttle *)

Definition of_type (bucketType : string) (r : ThrottleRow) : bool := bool_decide (gr_BucketType r = bucketType).

Definition GetGlobalThrottleBucket (bucketType : string) : QR ThrottleRow :=
  query drv (fun t => with_text bucketType (one_row (select_where (of_type bucketType) (rt_throttle t)))).
Definition GetGlobalThrottleBucketForUpdate (bucketType : string) : QR ThrottleRow :=
  query drv (fun t => with_text bucketType (one_row (select_where (of_type bucketType) (rt_throttle t)))).
Definition InsertGlobalThrottleBucket (bucketType : string) (bucketStart : time) : QR unit :=
  stmt drv (fun _ t =>
    match varchar 20 bucketType with
    | Some c => Err (PgError c)
    | None =>
        if has (gr_BucketType <$> rt_throttle t) bucketType then Ok (tt, t)
        else Ok (tt, with_throttle (rt_throttle t ++ [mkThrottleRow bucketType (ts bucketStart) 0]) t)
    end).
Definition UpdateGlobalThrottleBucket (bucketType : string) (bucketStart : time) (count : Z) : QR unit :=
  stmt drv (fun _ t => with_text bucketType
    (Ok (tt, with_throttle (update_where (of_type bucketType) (fun r => mkThrottleRow (gr_BucketType r) (ts bucketStart) count) (rt_throttle t)) t))).

Definition bucketSecond : string := "second".
Definition bucketHour : string := "hour".

Definition ensureBucketCurrent (bucketType : string) (row : ThrottleRow) (current : time) : SR (time * Z) :=
  if gr_BucketStart row =? current then mret (gr_BucketStart row, gr_Count row)
  else
    wrapped "reset" (UpdateGlobalThrottleBucket bucketType current 0);;
    mret (current, 0).

Definition initBucket (bucketType : string) (current : time) : SR (result error ThrottleRow) :=
  inserted ← attempt (InsertGlobalThrottleBucket bucketType current);
  match inserted with
  | Err e => mret (Err (EWrap "insert" (db_error e)))
  | Ok _ =>
      row ← attempt (GetGlobalThrottleBucketForUpdate bucketType);
      mret (match row with Ok r => Ok r | Err e => Err (db_error e) end)
  end.

Definition loadBucket (bucketType : string) (current : time) : SR (time * Z) :=
  row ← attempt (GetGlobalThrottleBucketForUpdate bucketType);
  row ← match row with
        | Ok r => mret (Ok r)
        | Err ErrNoRows => initBucket bucketType current
        | Err e => mret (Err (db_error e))
        end;
  match row with
  | Err e => st_fail (EWrap "load global throttle bucket" e)
  | Ok r => ensureBucketCurrent bucketType r current
  end.

Definition updateBucket (bucketType : string) (bucketStart : time) (count : Z) : SR unit :=
  wrapped "update global throttle bucket" (UpdateGlobalThrottleBucket bucketType bucketStart (to_int32 (Z.min 1000 count))).

(** [Truncate] to seconds and hours; the zero time is a whole number of both before
    the epoch. *)
Definition truncate (d now : Z) : time := now / d * d.

Section throttle.
Context (perSecondLimit perHourLimit : Z).

Definition ThrottlePg_IncrementGlobal (now : time) : SR (Z * bool) :=
  let currentSecond := truncate Second now in
  let currentHour := truncate Hour now in
  inTx drv (plain_tx_error "begin global throttle tx") (plain_tx_error "commit global throttle tx") (
    '(secStart, secCount) ← loadBucket bucketSecond currentSecond;
    '(hourStart, hourCount) ← loadBucket bucketHour currentHour;
    if perSecondLimit <? secCount + 1 then mret (TxCommit (secCount, true))
    else if perHourLimit <? hourCount + 1 then mret (TxCommit (hourCount, true))
    else
      let secCount := secCount + 1 in
      let hourCount := hourCount + 1 in
      updateBucket bucketSecond secStart secCount;;
      updateBucket bucketHour hourStart hourCount;;
      mret (TxCommit (secCount, false))).

Definition ThrottlePg_GetGlobalCount (now : time) : SR Z :=
  row ← attempt (GetGlobalThrottleBucket bucketSecond);
  match row with
  | Err ErrNoRows => mret 0
  | Err e => st_fail (EWrap "get global count" (db_error e))
  | Ok r => if negb (gr_BucketStart r =? truncate Second now) then mret 0 else mret (gr_Count r)
  end.
End throttle.

(** ** Lockouts *)

Definition of_identifier (identifier : string) (r : LockoutRow) : bool := bool_decide (lr_Identifier r = identifier).
Definition numeric_out_of_range : string := "22003".

Definition sql_GetAuthLockout (identifier : string) : QR LockoutRow :=
  query drv (fun t => with_text identifier (one_row (select_where (of_identifier identifier) (rt_lockouts t)))).
Definition clear_rows (identifier : string) (t : RateTables) : RateTables :=
  with_lockouts (delete_where (of_identifier identifier) (rt_lockouts t)) t.
Definition DeleteAuthLockout (identifier : string) : QR unit :=
  stmt drv (fun _ t => with_text identifier (Ok (tt, clear_rows identifier t))).

(** [INSERT ... ON CONFLICT (identifier) DO UPDATE ... RETURNING]. *)
Definition upsert_lockout (fresh : LockoutRow) (change : LockoutRow -> LockoutRow) (t : RateTables) : result dberr (LockoutRow * RateTables) :=
  match varchar 255 (lr_Identifier fresh) with
  | Some c => Err (PgError c)
  | None =>
      match find (of_identifier (lr_Identifier fresh)) (rt_lockouts t) with
      | None => Ok (fresh, with_lockouts (rt_lockouts t ++ [fresh]) t)
      | Some r =>
          let r' := change r in
          if (2147483647 <? lr_FailureCount r') || (2147483647 <? lr_DailyFailures r') then Err (PgError numeric_out_of_range)
          else Ok (r', with_lockouts (update_where (of_identifier (lr_Identifier fresh)) change (rt_lockouts t)) t)
      end
  end.

Definition GetOrCreateAuthLockout (identifier : string) (lastFailureAt : time) : QR LockoutRow :=
  stmt drv (fun _ => upsert_lockout (mkLockoutRow identifier 0 0 None (ts lastFailureAt) false) (fun r => r)).

Definition count_failure (lastFailureAt : time) (r : LockoutRow) : LockoutRow :=
  mkLockoutRow (lr_Identifier r) (lr_FailureCount r + 1) (lr_DailyFailures r + 1) (lr_LockedUntil r) (ts lastFailureAt) (lr_RequiresCaptcha r).
Definition record_failure_rows (identifier : string) (lastFailureAt : time) : RateTables -> result dberr (LockoutRow * RateTables) :=
  upsert_lockout (mkLockoutRow identifier 1 1 None (ts lastFailureAt) false) (count_failure lastFailureAt).
Definition sql_RecordFailureAtomic (identifier : string) (lastFailureAt : time) : QR LockoutRow :=
  stmt drv (fun _ => record_failure_rows identifier lastFailureAt).

Definition UpsertAuthLockout (arg : LockoutRow) : QR unit :=
  stmt drv (fun _ t =>
    let fresh := mkLockoutRow (lr_Identifier arg) (lr_FailureCount arg) (lr_DailyFailures arg) (ts <$> lr_LockedUntil arg)
                   (ts (lr_LastFailureAt arg)) (lr_RequiresCaptcha arg) in
    match upsert_lockout fresh (fun _ => fresh) t with Ok (_, t') => Ok (tt, t') | Err e => Err e end).

(** The server's clock decides whether a lock has ended. *)
Definition lockable (identifier : string) (dailyFailures : Z) (now : time) (r : LockoutRow) : bool :=
  of_identifier identifier r && (dailyFailures <=? lr_DailyFailures r)
  && (match lr_LockedUntil r with None => true | Some u => u <? now end).
Definition set_lock (lockedUntil : time) (r : LockoutRow) : LockoutRow :=
  mkLockoutRow (lr_Identifier r) (lr_FailureCount r) (lr_DailyFailures r) (Some (ts lockedUntil)) (lr_LastFailureAt r) (lr_RequiresCaptcha r).
Definition apply_lock_rows (identifier : string) (lockedUntil : time) (dailyFailures : Z) (now : time) (t : RateTables) : Z * RateTables :=
  (rows_affected (lockable identifier dailyFailures now) (rt_lockouts t),
   with_lockouts (update_where (lockable identifier dailyFailures now) (set_lock lockedUntil) (rt_lockouts t)) t).
Definition ApplyHardLock (identifier : string) (lockedUntil : time) (dailyFailures : Z) : QR Z :=
  stmt drv (fun now t => with_text identifier (Ok (apply_lock_rows identifier lockedUntil dailyFailures now t))).

Definition captcha_due (identifier : string) (dailyFailures : Z) (r : LockoutRow) : bool :=
  of_identifier identifier r && negb (lr_RequiresCaptcha r) && (dailyFailures <=? lr_DailyFailures r).
Definition set_captcha (r : LockoutRow) : LockoutRow :=
  mkLockoutRow (lr_Identifier r) (lr_FailureCount r) (lr_DailyFailures r) (lr_LockedUntil r) (lr_LastFailureAt r) true.
Definition captcha_rows (identifier : string) (dailyFailures : Z) (t : RateTables) : Z * RateTables :=
  (rows_affected (captcha_due identifier dailyFailures) (rt_lockouts t),
   with_lockouts (update_where (captcha_due identifier dailyFailures) set_captcha (rt_lockouts t)) t).
Definition SetRequiresCaptcha (identifier : string) (dailyFailures : Z) : QR Z :=
  stmt drv (fun _ t => with_text identifier (Ok (captcha_rows identifier dailyFailures t))).

Definition failed_before (cutoff : time) (r : LockoutRow) : bool := lr_LastFailureAt r <? ts cutoff.
Definition reset_daily_rows (cutoff : time) (t : RateTables) : RateTables :=
  with_lockouts (update_where (failed_before cutoff) (fun r =>
    mkLockoutRow (lr_Identifier r) (lr_FailureCount r) 0 (lr_LockedUntil r) (lr_LastFailureAt r) (lr_RequiresCaptcha r)) (rt_lockouts t)) t.
Definition reset_count_rows (cutoff : time) (t : RateTables) : RateTables :=
  with_lockouts (update_where (failed_before cutoff) (fun r =>
    mkLockoutRow (lr_Identifier r) 0 (lr_DailyFailures r) (lr_LockedUntil r) (lr_LastFailureAt r) (lr_RequiresCaptcha r)) (rt_lockouts t)) t.
Definition ResetDailyFailuresBefore (cutoff : time) : QR unit := stmt drv (fun _ t => Ok (tt, reset_daily_rows cutoff t)).
Definition ResetFailureCountBefore (cutoff : time) : QR unit := stmt drv (fun _ t => Ok (tt, reset_count_rows cutoff t)).
Definition SumDailyFailuresBefore (cutoff : time) : QR Z :=
  query drv (fun t => Ok (foldr (fun r n => lr_DailyFailures r + n) 0 (select_where (failed_before cutoff) (rt_lockouts t)))).
Definition SumFailureCountBefore (cutoff : time) : QR Z :=
  query drv (fun t => Ok (foldr (fun r n => lr_FailureCount r + n) 0 (select_where (failed_before cutoff) (rt_lockouts t)))).

Definition toAuthLockout (r : LockoutRow) : AuthLockout :=
  mkLockout (lr_Identifier r) (lr_FailureCount r) (lr_DailyFailures r) (lr_LockedUntil r) (lr_LastFailureAt r) (lr_RequiresCaptcha r).

Definition LockoutPg_Get (identifier : string) : SR (option AuthLockout) :=
  r ← attempt (sql_GetAuthLockout identifier);
  match r with
  | Ok row => mret (Some (toAuthLockout row))
  | Err ErrNoRows => mret None
  | Err e => st_fail (EWrap "get auth lockout" (db_error e))
  end.
Definition LockoutPg_GetOrCreate (identifier : string) (now : time) : SR AuthLockout :=
  r ← wrapped "get or create auth lockout" (GetOrCreateAuthLockout identifier now); mret (toAuthLockout r).
Definition LockoutPg_Clear (identifier : string) : SR unit := wrapped "clear auth lockout" (DeleteAuthLockout identifier).
Definition LockoutPg_Update (record : option AuthLockout) : SR unit :=
  match record with
  | None => st_fail (EOther "auth lockout record is required")
  | Some r =>
      wrapped "update auth lockout"
        (UpsertAuthLockout (mkLockoutRow (al_Identifier r) (to_int32 (Z.min 1000 (al_FailureCount r))) (to_int32 (Z.min 1000 (al_DailyFailures r)))
                              (al_LockedUntil r) (al_LastFailureAt r) (al_RequiresCaptcha r)))
  end.
Definition LockoutPg_RecordFailureAtomic (identifier : string) (now : time) : SR AuthLockout :=
  r ← wrapped "record failure atomic" (sql_RecordFailureAtomic identifier now); mret (toAuthLockout r).
Definition LockoutPg_ApplyHardLockAtomic (identifier : string) (lockedUntil : time) (dailyThreshold : Z) : SR bool :=
  rows ← wrapped "apply hard lock atomic" (ApplyHardLock identifier lockedUntil (to_int32 (Z.min 1000 dailyThreshold))); mret (0 <? rows).
Definition LockoutPg_SetRequiresCaptchaAtomic (identifier : string) (lockoutThreshold : Z) : SR bool :=
  rows ← wrapped "set requires captcha atomic" (SetRequiresCaptcha identifier (to_int32 lockoutThreshold)); mret (0 <? rows).
Definition LockoutPg_ResetFailureCount (cutoff : time) : SR Z :=
  inTx drv (plain_tx_error "begin reset failure count") (plain_tx_error "commit reset failure count") (
    total ← wrapped "sum failure count" (SumFailureCountBefore cutoff);
    wrapped "reset failure count" (ResetFailureCountBefore cutoff);;
    mret (TxCommit total)).
Definition LockoutPg_ResetDailyFailures (cutoff : time) : SR Z :=
  inTx drv (plain_tx_error "begin reset daily failures") (plain_tx_error "commit reset daily failures") (
    total ← wrapped "sum daily failures" (SumDailyFailuresBefore cutoff);
    wrapped "reset daily failures" (ResetDailyFailuresBefore cutoff);;
    mret (TxCommit total)).

(** ** Allowlist *)

Definition allow_key (r : AllowRow) : string * string := (wr_EntryType r, wr_Identifier r).
Definition allow_live (now : time) (r : AllowRow) : bool := match wr_ExpiresAt r with None => true | Some e => ts now <? e end.

Definition DeleteAllowlistEntry (entryType identifier : string) : QR unit :=
  stmt drv (fun _ t => with_text identifier
    (Ok (tt, with_allowlist (delete_where (fun r => bool_decide (allow_key r = (entryType, identifier))) (rt_allowlist t)) t))).
Definition DeleteExpiredAllowlistEntries (now : time) : QR unit :=
  stmt drv (fun _ t => Ok (tt, with_allowlist (delete_where (fun r => negb (allow_live now r)) (rt_allowlist t)) t)).
Definition sql_IsAllowlisted (identifier : string) (now : time) : QR bool :=
  query drv (fun t => with_text identifier
    (Ok (existsb (fun r => bool_decide (wr_Identifier r = identifier) && allow_live now r) (rt_allowlist t)))).
Definition ListAllowlistEntries (now : time) : QR (list AllowRow) :=
  query drv (fun t => Ok (select_where (allow_live now) (rt_allowlist t))).

Definition allow_columns (r : AllowRow) : option string :=
  constraints [varchar 64 (wr_ID r); varchar 20 (wr_EntryType r); varchar 255 (wr_Identifier r);
               if text_ok (wr_Reason r) then None else Some invalid_text].
Definition UpsertAllowlistEntry (arg : AllowRow) : QR unit :=
  stmt drv (fun _ t =>
    let r := mkAllowRow (wr_ID arg) (wr_EntryType arg) (wr_Identifier arg) (wr_Reason arg) (ts <$> wr_ExpiresAt arg) (ts (wr_CreatedAt arg)) (wr_CreatedBy arg) in
    match allow_columns r with
    | Some c => Err (PgError c)
    | None =>
        if has (allow_key <$> rt_allowlist t) (allow_key r) then
          Ok (tt, with_allowlist (update_where (fun x => bool_decide (allow_key x = allow_key r)) (fun x =>
            mkAllowRow (wr_ID x) (wr_EntryType x) (wr_Identifier x) (wr_Reason r) (wr_ExpiresAt r) (wr_CreatedAt x) (wr_CreatedBy x)) (rt_allowlist t)) t)
        else
          match constraints [unique_that (negb (has (wr_ID <$> rt_allowlist t) (wr_ID r))); refers_to (has (rt_users t) (wr_CreatedBy r))] with
          | Some c => Err (PgError c)
          | None => Ok (tt, with_allowlist (rt_allowlist t ++ [r]) t)
          end
    end).

(** The creator of an entry is kept beside it. *)
Definition AllowPg_Add (entry : option (AllowlistEntry * uuid)) : SR unit :=
  match entry with
  | None => st_fail (EOther "allowlist entry is required")
  | Some (e, createdBy) =>
      wrapped "add allowlist entry"
        (UpsertAllowlistEntry (mkAllowRow (ale_ID e) (AllowlistEntryType_text (ale_Type e)) (ale_Identifier e) (ale_Reason e) (ale_ExpiresAt e)
                                 (ale_CreatedAt e) createdBy))
  end.
Definition AllowPg_Remove (entryType : AllowlistEntryType) (identifier : string) : SR unit :=
  wrapped "remove allowlist entry" (DeleteAllowlistEntry (AllowlistEntryType_text entryType) identifier).
Definition AllowPg_IsAllowlisted (identifier : string) (now : time) : SR bool :=
  if str_empty identifier then mret false else wrapped "check allowlist" (sql_IsAllowlisted identifier now).
Definition AllowPg_List (now : time) : SR (list AllowRow) := wrapped "list allowlist entries" (ListAllowlistEntries now).
Definition AllowPg_RemoveExpiredAt (now : time) : SR unit := wrapped "cleanup allowlist entries" (DeleteExpiredAllowlistEntries now).

(** ** The lockout service over the atomic store *)

Section lockout_service.
Context (cfg : AuthLockoutConfig) (log_audit : string -> string -> W -> W).

Definition rs_wrap {A} (msg : string) (m : SR A) : SR A := fun d =>
  match m d with (Ok a, d') => (Ok a, d') | (Err e, d') => (Err (Wrap e CodeInternal msg), d') end.
Definition rs_LogAudit (event identifier : string) : SR unit := fun d => (Ok tt, mkDB (db_tables d) (log_audit event identifier (db_world d))).

Definition locked_record (current : AuthLockout) (lockedUntil : time) : AuthLockout :=
  mkLockout (al_Identifier current) (al_FailureCount current) (al_DailyFailures current) (Some lockedUntil) (al_LastFailureAt current)
    (al_RequiresCaptcha current).

Definition recordFailureAtomic (key identifier : string) (now : time) : SR AuthLockout :=
  current ← rs_wrap "failed to record auth failure" (LockoutPg_RecordFailureAtomic key now);
  current ← (if AuthLockout_ShouldHardLock current (lc_HardLockThreshold cfg) then
      let lockedUntil := time_Add now (lc_HardLockDuration cfg) in
      applied ← rs_wrap "failed to apply hard lock" (LockoutPg_ApplyHardLockAtomic key lockedUntil (lc_HardLockThreshold cfg));
      if (applied : bool) then
        rs_LogAudit "auth_lockout_triggered" identifier;;
        mret (locked_record current lockedUntil)
      else mret current
    else mret current);
  if AuthLockout_ShouldRequireCaptcha current (lc_CaptchaAfterLockouts cfg) && negb (al_RequiresCaptcha current) then
    applied ← rs_wrap "failed to set captcha requirement"
      (LockoutPg_SetRequiresCaptchaAtomic key (wrap64 (lc_CaptchaAfterLockouts cfg * lc_HardLockThreshold cfg)));
    mret (if (applied : bool) then AuthLockout_MarkRequiresCaptcha current else current)
  else mret current.

Definition Pg_RecordFailure (identifier ip : string) (now : time) : SR AuthLockout :=
  recordFailureAtomic (lockout_key identifier ip) identifier now.

Definition Pg_Clear (identifier ip : string) : SR unit :=
  rs_wrap "failed to clear auth failures" (LockoutPg_Clear (lockout_key identifier ip));;
  rs_LogAudit "auth_lockout_cleared" identifier.

Definition Pg_Check (identifier ip : string) (now : time) : SR AuthRateLimitResult :=
  failureRecord ← rs_wrap "failed to get auth lockout record" (LockoutPg_Get (lockout_key identifier ip));
  let record := default zero_lockout failureRecord in
  if AuthLockout_IsLockedAt record now then
    let until := default zero_time (al_LockedUntil record) in
    let retryAfter := Z.max (int_Seconds (time_Sub until now)) 0 in
    rs_LogAudit "auth_lockout_triggered" identifier;;
    mret (buildAuthResult false 0 0 retryAfter until record)
  else if AuthLockout_IsAttemptLimitReached record (lc_AttemptsPerWindow cfg) then
    let resetAt := ResetTime (config_BackoffPolicy cfg) (al_LastFailureAt record) in
    let retryAfter := Z.max (int_Seconds (time_Sub resetAt now)) 0 in
    mret (buildAuthResult false 0 0 retryAfter resetAt record)
  else
    let delay := GetProgressiveBackoff cfg (al_FailureCount record) in
    let remaining := Z.min (AuthLockout_RemainingAttempts record (lc_AttemptsPerWindow cfg)) (lc_AttemptsPerWindow cfg) in
    mret (buildAuthResult true (lc_AttemptsPerWindow cfg) remaining (int_Milliseconds delay) (time_Add now (lc_WindowDuration cfg)) record).
End lockout_service.
End ratesql.
