(* ===== verification/RateSqlSafety.v ===== *)
(** * What the SQL rate limits guarantee

    The bucket store enforces its limit across failures for costs of up to a thousand;
    the throttle forgets what exceeds a thousand; the atomic lockout cannot be bypassed
    by concurrency, over histories of requests, clears and clean-up resets. *)
From S2P Require Import Prelude Errors Keys SlidingWindow BucketStore Lockout Throttle RequestLimit SqlDb RateSql.
Open Scope Z_scope.

Section bucket.
Context {W : Type} (drv : Driver W) `{!PgTypes} (Hmono : forall t u, t <= u -> ts t <= ts u).
Context (parse1 parse2 : string -> res time).

Abbreviation AllowN := (BucketPg_AllowN drv parse1 parse2).
Abbreviation of_k k l := (select_where (of_key k) l) (only parsing).

(** The effect of a call whose statements succeed. *)
Definition kept_events (now : time) (key : string) (windowDuration : duration) (t : RateTables) : list EventRow :=
  delete_where (fun r => of_key key r && (ev_OccurredAt r <? ts (now - windowDuration))) (rt_events t).

Definition allow_spec (now : time) (key : string) (cost limit : Z) (windowDuration : duration) (t : RateTables) : RateLimitResult * RateTables :=
  let kept := kept_events now key windowDuration t in
  let current := total_cost (of_k key kept) in
  if wrap64 (current + cost) <=? limit then
    let cost := Z.min 1000 cost in
    (mkRLR true false limit (limit - (current + cost)) (now + windowDuration) 0,
     with_events (kept ++ [mkEventRow key (ts now) (to_int32 cost) (to_int32 (Z.max 10000 (int_Seconds windowDuration)))]) t)
  else
    let resetAt := match earliest (of_k key kept) with Some o => o + windowDuration | None => now + windowDuration end in
    (mkRLR false false limit 0 resetAt (retryAfterSeconds false resetAt now), with_events kept t).

Section call.
Context (now : time) (key : string) (cost limit : Z) (window : duration).
Abbreviation works := (healthy drv /\ text_ok key = true).

Lemma with_text_Ok {A} (x : A) y : with_text key (Ok x) = Ok y -> y = x.
Proof. unfold with_text. destruct (text_ok key); [by intros [= ->]|done]. Qed.
Lemma with_text_works {A} (x : A) : works -> with_text key (Ok x) = Ok x.
Proof. intros [_ E]. unfold with_text. by rewrite E. Qed.

Definition tx_spec (t : RateTables) : (Z * bool * Z * time) * RateTables :=
  let kept := kept_events now key window t in
  let current := total_cost (of_k key kept) in
  if wrap64 (current + cost) <=? limit
  then ((current, true, Z.min 1000 cost, now + window), (allow_spec now key cost limit window t).2)
  else ((current, false, cost, rl_ResetAt (allow_spec now key cost limit window t).1), (allow_spec now key cost limit window t).2).

Lemma allow_tx_runs : runs works (allow_tx drv parse1 parse2 now key cost limit window (time_Add now (- window)) (int_Seconds window))
  (fun t => (TxCommit (tx_spec t).1, (tx_spec t).2)).
Proof.
  unfold allow_tx. eapply runs_ext.
  { refine (runs_bind _ _ _ _ _ _ _); [apply (runs_query _ _ _ _ (fun _ => tt)); [by intros ? [] _|intros Hw; split; [apply Hw|intros; by apply with_text_works]]|intros ?].
    refine (runs_bind _ _ _ _ _ _ _); [apply (runs_stmt _ _ _ _ (fun t => (tt, with_events (kept_events now key window t) t))); [|]|intros ?].
    { intros t x Hx%with_text_Ok. by rewrite Hx. }
    { intros Hw. split; [apply Hw|]. intros t. by apply with_text_works. }
    refine (runs_bind _ _ _ _ _ _ _); [apply (runs_query _ _ _ _ (fun t => total_cost (of_k key (rt_events t)))); [by intros t a1 Ha%with_text_Ok|intros Hw; split; [apply Hw|intros; by apply with_text_works]]|intros current].
    refine (runs_bind_if _ (fun v => exists o, v = match o with None => VNil | Some m => VTime m end) _ _ _ _ _ _ _);
      [apply (runs_query _ _ _ _ (fun t => match earliest (of_k key (rt_events t)) with None => VNil | Some m => VTime m end));
         [by intros t a1 Ha%with_text_Ok|intros Hw; split; [apply Hw|intros; by apply with_text_works]]|intros t; simpl; eauto|intros v Hv].
    refine (runs_bind _ _ _ _ (fun oldest t =>
      if wrap64 (current + cost) <=? limit
      then (TxCommit (current, true, Z.min 1000 cost, now + window),
            with_events (rt_events t ++ [mkEventRow key (ts now) (to_int32 (Z.min 1000 cost)) (to_int32 (Z.max 10000 (int_Seconds window)))]) t)
      else (TxCommit (current, false, cost, match oldest with Some o => o + window | None => now + window end), t)) _ _);
      [apply (runs_lift _ _ (match v with VTime m => Some m | _ => None end)); destruct Hv as ([m|] & ->); done|intros oldest].
    destruct (wrap64 (current + cost) <=? limit); [|times; destruct oldest; apply runs_ret].
    eapply runs_ext.
    - refine (runs_bind _ _ _ _ _ _ _); [apply (runs_stmt _ _ _ _ (fun t => (tt, with_events (rt_events t ++
        [mkEventRow key (ts now) (to_int32 (Z.min 1000 cost)) (to_int32 (Z.max 10000 (int_Seconds window)))]) t)))|intros ?; apply runs_ret].
      + intros t x Hx%with_text_Ok. by rewrite Hx.
      + intros Hw. split; [apply Hw|]. intros t. by apply with_text_works.
    - done. }
  intros t. unfold tx_spec, allow_spec. simpl. set (kept := kept_events now key window t). 
  destruct (wrap64 (total_cost (of_k key kept) + cost) <=? limit); [done|]. simpl. destruct (earliest (of_k key kept)); done.
Qed.

Lemma tx_result t :
  (let '(current, allowed, cost, resetAt) := (tx_spec t).1 in
   mkRLR allowed false limit (if (allowed : bool) then limit - (current + cost) else 0) resetAt (retryAfterSeconds allowed resetAt now)) =
  (allow_spec now key cost limit window t).1 /\ (tx_spec t).2 = (allow_spec now key cost limit window t).2.
Proof. unfold tx_spec, allow_spec. cbv zeta. by destruct (wrap64 _ <=? limit). Qed.

Lemma AllowN_cases d r d' : key <> "" -> 0 < limit -> 0 < cost -> 0 < window -> AllowN now key cost limit window d = (r, d') ->
  ((exists e, r = Err e /\ infra e /\ (db_tables d' = db_tables d \/ db_tables d' = (allow_spec now key cost limit window (db_tables d)).2))
   \/ (r = Ok (allow_spec now key cost limit window (db_tables d)).1 /\ db_tables d' = (allow_spec now key cost limit window (db_tables d)).2)) /\
  (works -> r = Ok (allow_spec now key cost limit window (db_tables d)).1).
Proof.
  intros Hk Hl Hc Hw. unfold BucketPg_AllowN. unfold str_empty. rewrite bool_decide_eq_false_2 by done.
  rewrite (proj2 (Z.leb_gt limit 0)), (proj2 (Z.leb_gt cost 0)), (proj2 (Z.leb_gt window 0)) by lia. cbn [orb].
  unfold mbind, st_bind. destruct (inTx _ _ _ _ d) as [x d1] eqn:E.
  apply (runs_inTx drv works _ _ _ tx_spec) in E as [Hx Hh]; [|intros; infra|intros; infra|by intros []|apply allow_tx_runs].
  destruct (tx_result (db_tables d)) as [H1 H2]. rewrite H2 in Hx.
  destruct Hx as [(e & -> & Hi & Ht)|[-> Ht]].
  - intros [= <- <-]. split; [by left; eauto|]. intros Hwk. by specialize (Hh Hwk).
  - revert H1. destruct (tx_spec (db_tables d)).1 as [[[current allowed] c] resetAt]. intros <- [= <- <-]. split; [by right|done].
Qed.
End call.

(** ** Histories of one key *)

Record BCall := mkBCall { bc_key : string; bc_cost : Z; bc_limit : Z; bc_window : duration; bc_now : time }.

(** The cost admitted at the times that satisfy a condition. *)
Definition admitted_cost (P : time -> bool) (log : list (time * Z)) : Z := foldr (fun x n => if P x.1 then x.2 + n else n) 0 log.

Section key.
Context (k : string) (L : Z) (D : duration).

Definition bucket_step (c : BCall) (s : list (time * Z) * DB W RateTables) : list (time * Z) * DB W RateTables :=
  let '(r, d') := AllowN (bc_now c) (bc_key c) (bc_cost c) (bc_limit c) (bc_window c) s.2 in
  (match r with
   | Ok res => if rl_Allowed res && bool_decide (bc_key c = k) then s.1 ++ [(bc_now c, bc_cost c)] else s.1
   | Err _ => s.1
   end, d').
Definition bucket_run (calls : list BCall) (s : list (time * Z) * DB W RateTables) : list (time * Z) * DB W RateTables :=
  foldl (fun s c => bucket_step c s) s calls.

(** Calls with a key and positive arguments; those for [k] all with the same limit and
    window, and with a cost the table keeps, which is one of at most 1000. *)
Definition call_ok (c : BCall) : Prop :=
  bc_key c <> "" /\ 0 < bc_limit c /\ 0 < bc_cost c /\ 0 < bc_window c /\
  (bc_key c = k -> bc_limit c = L /\ bc_window c = D /\ bc_cost c <= 1000).

(** The clock does not go back between calls for [k]. *)
Fixpoint kclock (last : time) (calls : list BCall) : Prop :=
  match calls with
  | [] => True
  | c :: rest => if decide (bc_key c = k) then last <= bc_now c /\ kclock (bc_now c) rest else kclock last rest
  end.

Definition rows_since (x : time) (l : list EventRow) : Z := total_cost (select_where (fun r => of_key k r && (x <=? ev_OccurredAt r)) l).
Definition logged_since (x : time) (log : list (time * Z)) : Z := admitted_cost (fun y => x <=? ts y) log.

Lemma total_app l l' : total_cost (l ++ l') = total_cost l + total_cost l'.
Proof. unfold total_cost. induction l as [|r l IH]; simpl; [done|]. rewrite IH. lia. Qed.
Lemma select_app (P : EventRow -> bool) l l' : select_where P (l ++ l') = select_where P l ++ select_where P l'.
Proof. unfold select_where. apply filter_app. Qed.
Lemma total_one (P : EventRow -> bool) r : total_cost (select_where P [r]) = if P r then ev_Cost r else 0.
Proof. unfold select_where. rewrite filter_cons. destruct (P r); case_decide; try done. simpl. lia. Qed.
Lemma total_kept (Q P : EventRow -> bool) l : (forall r, P r = true -> Q r = false) ->
  total_cost (select_where Q (delete_where P l)) = total_cost (select_where Q l).
Proof.
  intros HPQ. unfold select_where, delete_where. induction l as [|r l IH]; [done|]. rewrite !filter_cons.
  destruct (P r) eqn:EP; repeat case_decide; rewrite ?filter_cons; repeat case_decide; try done; simpl; rewrite ?IH; try done.
  by rewrite HPQ in *.
Qed.
Lemma total_swap (Q P : EventRow -> bool) l : total_cost (select_where Q (delete_where P l)) = total_cost (select_where (fun r => Q r && negb (P r)) l).
Proof.
  unfold select_where, delete_where. induction l as [|r l IH]; [done|]. rewrite !filter_cons.
  destruct (P r) eqn:EP, (Q r) eqn:EQ; simpl; repeat case_decide; try done; rewrite ?filter_cons; repeat case_decide; try congruence; try done; simpl; by rewrite IH.
Qed.
Lemma select_ext (P Q : EventRow -> bool) l : (forall r, P r = Q r) -> select_where P l = select_where Q l.
Proof. intros HPQ. unfold select_where. apply list_filter_iff. intros r. by rewrite HPQ. Qed.

Lemma admitted_app P l l' : admitted_cost P (l ++ l') = admitted_cost P l + admitted_cost P l'.
Proof. unfold admitted_cost. induction l as [|x l IH]; simpl; [done|]. rewrite IH. destruct (P x.1); lia. Qed.
Lemma admitted_mono (P Q : time -> bool) log : Forall (fun x => 0 < x.2) log -> (forall x, P x = true -> Q x = true) ->
  admitted_cost P log <= admitted_cost Q log.
Proof.
  intros Hpos HPQ. unfold admitted_cost. induction Hpos as [|x log Hx _ IH]; simpl; [lia|].
  destruct (P x.1) eqn:E; [rewrite (HPQ _ E)|destruct (Q x.1)]; lia.
Qed.

Definition rows_positive (l : list EventRow) : Prop := Forall (fun r => of_key k r = true -> 0 < ev_Cost r) l.

Lemma total_bounds Q l : rows_positive l -> (forall r, Q r = true -> of_key k r = true) ->
  0 <= total_cost (select_where Q l) <= total_cost (select_where (of_key k) l).
Proof.
  intros Hpos HQ. unfold select_where. induction Hpos as [|r l Hr _ IH]; simpl; [lia|]. rewrite !filter_cons.
  destruct (Q r) eqn:EQ; [rewrite (HQ r EQ) in *|destruct (of_key k r)]; repeat case_decide; try done; simpl; try lia.
  all: specialize (Hr eq_refl); lia.
Qed.

Lemma kept_total now t : total_cost (of_k k (kept_events now k D t)) = rows_since (ts (now - D)) (rt_events t).
Proof.
  unfold kept_events, rows_since. rewrite total_swap. f_equal. apply select_ext. intros r. destruct (of_key k r); simpl; [|done].
  by rewrite Z.leb_antisym.
Qed.
Lemma kept_since now t x : ts (now - D) <= x -> rows_since x (kept_events now k D t) = rows_since x (rt_events t).
Proof.
  intros Hx. unfold rows_since, kept_events. apply total_kept. intros r Hr. bools. destruct (of_key k r); [|done]. simpl. apply Z.leb_gt. lia.
Qed.

Lemma allow_spec_key now c t : rows_positive (rt_events t) -> total_cost (of_k k (rt_events t)) <= L -> 0 < c <= 1000 -> 0 < L -> L + 1000 <= max_int64 ->
  let cur := rows_since (ts (now - D)) (rt_events t) in
  let after := rt_events (allow_spec now k c L D t).2 in
  0 <= cur /\ rl_Allowed (allow_spec now k c L D t).1 = (cur + c <=? L) /\ rows_positive after /\
  total_cost (of_k k after) = cur + (if cur + c <=? L then c else 0) /\
  (forall x, ts (now - D) <= x -> rows_since x after = rows_since x (rt_events t) + (if (cur + c <=? L) && (x <=? ts now) then c else 0)).
Proof.
  intros Hpos Htot Hc HL Hmax. cbv zeta.
  assert (0 <= rows_since (ts (now - D)) (rt_events t) <= L) as Hcur.
  { pose proof (total_bounds (fun r => of_key k r && (ts (now - D) <=? ev_OccurredAt r)) (rt_events t) Hpos) as Hb. unfold rows_since.
    assert (forall r, of_key k r && (ts (now - D) <=? ev_OccurredAt r) = true -> of_key k r = true) as Hi by (intros r Hr; by bools). specialize (Hb Hi). lia. }
  assert (rows_positive (kept_events now k D t)) as Hkp.
  { unfold kept_events. by apply Forall_delete. }
  unfold allow_spec. cbv zeta. rewrite kept_total. rewrite wrap64_id by (unfold min_int64 in *; lia).
  set (cur := rows_since (ts (now - D)) (rt_events t)) in *. split; [lia|]. destruct (cur + c <=? L) eqn:E; simpl.
  - assert (to_int32 (Z.min 1000 c) = c) as Hint.
    { unfold to_int32. rewrite Z.min_r by lia. rewrite Z.mod_small by lia. lia. }
    rewrite Hint. split_and!; [done| | |].
    + apply Forall_snoc; [done|]. simpl. lia.
    + rewrite select_app, total_app, kept_total, total_one. unfold of_key. simpl. by rewrite bool_decide_eq_true_2 by done.
    + intros x Hx. unfold rows_since at 1. rewrite select_app, total_app, total_one. fold (rows_since x (kept_events now k D t)). rewrite kept_since by done.
      unfold of_key. simpl. by rewrite bool_decide_eq_true_2 by done.
  - split_and!; [done|done| |].
    + rewrite kept_total. fold cur. lia.
    + intros x Hx. rewrite kept_since by done. lia.
Qed.

(** Calls for other keys. *)
Lemma allow_spec_other now k' c l w t : k' <> k -> let after := rt_events (allow_spec now k' c l w t).2 in
  (forall Q, (forall r, Q r = true -> of_key k r = true) -> total_cost (select_where Q after) = total_cost (select_where Q (rt_events t))) /\
  (rows_positive (rt_events t) -> rows_positive after).
Proof.
  intros Hne. cbv zeta.
  assert (forall Q, (forall r, Q r = true -> of_key k r = true) -> total_cost (select_where Q (kept_events now k' w t)) = total_cost (select_where Q (rt_events t))) as Hkept.
  { intros Q HQ. unfold kept_events. apply total_kept. intros r Hr. bools. destruct (Q r) eqn:EQ; [|done]. specialize (HQ r EQ).
    unfold of_key in *. bools. congruence. }
  assert (rows_positive (rt_events t) -> rows_positive (kept_events now k' w t)) as Hkp by (intros; unfold kept_events; by apply Forall_delete).
  unfold allow_spec. cbv zeta. destruct (wrap64 _ <=? l); simpl; [|by split].
  assert (of_key k (mkEventRow k' (ts now) (to_int32 (Z.min 1000 c)) (to_int32 (Z.max 10000 (int_Seconds w)))) = false) as Hno
    by (unfold of_key; simpl; by apply bool_decide_eq_false_2).
  split.
  - intros Q HQ. rewrite select_app, total_app, (Hkept Q HQ), total_one.
    destruct (Q _) eqn:Ed; [rewrite (HQ _ Ed) in Hno; done|lia].
  - intros Hp. apply Forall_snoc; [by apply Hkp|intros Hx; by rewrite Hno in Hx].
Qed.

(** ** The bound *)

Definition in_span (t : time) (y : time) : bool := (t - D <=? y) && (y <=? t).

Record bucket_inv (last : time) (s : list (time * Z) * DB W RateTables) : Prop := {
  bi_pos : Forall (fun x => 0 < x.2) s.1;
  bi_rows : rows_positive (rt_events (db_tables s.2));
  bi_total : total_cost (of_k k (rt_events (db_tables s.2))) <= L;
  bi_le : forall x, ts (last - D) <= x -> logged_since x s.1 <= rows_since x (rt_events (db_tables s.2));
  bi_eq : healthy drv -> text_ok k = true -> forall x, ts (last - D) <= x -> logged_since x s.1 = rows_since x (rt_events (db_tables s.2));
  bi_load : forall t, admitted_cost (in_span t) s.1 <= L;
}.

Context (HL : 0 < L) (Hmax : L + 1000 <= max_int64).

(** An admission keeps every span of time below the limit. *)
Lemma load_step log now c : Forall (fun x => 0 < x.2) log -> (forall t, admitted_cost (in_span t) log <= L) ->
  logged_since (ts (now - D)) log + c <= L -> forall t, admitted_cost (in_span t) (log ++ [(now, c)]) <= L.
Proof.
  intros Hpos Hload Hroom t. rewrite admitted_app. unfold admitted_cost at 2. simpl. unfold in_span at 2.
  destruct (Z.leb_spec (t - D) now); simpl; [|specialize (Hload t); lia]. destruct (Z.leb_spec now t); [|specialize (Hload t); lia].
  assert (admitted_cost (in_span t) log <= logged_since (ts (now - D)) log); [|lia].
  apply admitted_mono; [done|]. intros x Hx. unfold in_span in Hx. bools. apply Z.leb_le, Hmono. lia.
Qed.

Lemma logged_snoc x log now c : logged_since x (log ++ [(now, c)]) = logged_since x log + (if x <=? ts now then c else 0).
Proof. unfold logged_since. rewrite admitted_app. unfold admitted_cost at 2. simpl. destruct (x <=? ts now); lia. Qed.

Lemma bucket_inv_key c last s : bucket_inv last s -> call_ok c -> bc_key c = k -> last <= bc_now c -> bucket_inv (bc_now c) (bucket_step c s).
Proof.
  intros [I1 I2 I3 I4 I5 I6] (Hne & Hl & Hc0 & Hw & HLD) Hk Hlast. destruct (HLD Hk) as (El & Ew & Hc1).
  pose proof (conj Hc0 Hc1) as Hc. unfold bucket_step. rewrite Hk, El, Ew in *.
  destruct s as [log d]. simpl in *. set (now := bc_now c) in *.
  assert (ts (last - D) <= ts (now - D)) as Hcut by (apply Hmono; lia).
  destruct (AllowN now k (bc_cost c) L D d) as [r d'] eqn:E. rewrite bool_decide_eq_true_2 by done.
  apply AllowN_cases in E as [Hcase Hwork]; [|done|done|lia|done].
  destruct (allow_spec_key now (bc_cost c) (db_tables d) I2 I3 Hc HL Hmax) as (Hcur & Hal & Hp & Htot & Hsince). cbv zeta in *.
  set (cur := rows_since (ts (now - D)) (rt_events (db_tables d))) in *.
  set (after := (allow_spec now k (bc_cost c) L D (db_tables d)).2) in *.
  assert (total_cost (of_k k (rt_events after)) <= L) as Htl by (rewrite Htot; destruct (Z.leb_spec (cur + bc_cost c) L); lia || (assert (cur <= L); [|lia]; unfold cur, rows_since; etransitivity; [apply total_bounds; [done|intros x Hx; by bools]|done])).
  destruct Hcase as [(e & -> & _ & [Ht|Ht])|[-> Ht]].
  - split; simpl; rewrite ?Ht; try done.
    + intros x Hx. apply I4. lia.
    + intros Hh Htx x Hx. apply I5; [done|done|lia].
  - split; simpl; rewrite ?Ht; try done.
    + intros x Hx. rewrite Hsince by done. specialize (I4 x). destruct ((cur + bc_cost c <=? L) && (x <=? ts now)); lia.
    + intros Hh Htx. by specialize (Hwork (conj Hh Htx)).
  - rewrite Hal. destruct (Z.leb_spec (cur + bc_cost c) L) as [Hroom|Hroom]; simpl.
    + assert (logged_since (ts (now - D)) log + bc_cost c <= L) by (specialize (I4 (ts (now - D)) Hcut); unfold cur in Hroom; lia).
      split; simpl; rewrite ?Ht; try done.
      * apply Forall_snoc; [done|]. simpl. lia.
      * intros x Hx. rewrite logged_snoc, Hsince by done. specialize (I4 x ltac:(lia)). simpl. destruct (x <=? ts now); lia.
      * intros Hh Htx x Hx. rewrite logged_snoc, Hsince by done. rewrite (I5 Hh Htx x) by lia. done.
      * by apply load_step.
    + split; simpl; rewrite ?Ht; try done.
      * intros x Hx. rewrite Hsince by done. specialize (I4 x ltac:(lia)). simpl. lia.
      * intros Hh Htx x Hx. rewrite Hsince by done. rewrite (I5 Hh Htx x) by lia. simpl. lia.
Qed.

Lemma bucket_inv_other c last s : bucket_inv last s -> call_ok c -> bc_key c <> k -> bucket_inv last (bucket_step c s).
Proof.
  intros [I1 I2 I3 I4 I5 I6] (Hne & Hl & Hc & Hw & _) Hk. unfold bucket_step. destruct s as [log d]. simpl in *.
  destruct (AllowN _ _ _ _ _ d) as [r d'] eqn:E. apply AllowN_cases in E as [Hcase _]; [|done|done|lia|done].
  rewrite bool_decide_eq_false_2 by done.
  assert (match r with Ok res => if rl_Allowed res && false then log ++ [(bc_now c, bc_cost c)] else log | Err _ => log end = log) as ->
    by (destruct r; rewrite ?andb_false_r; done).
  destruct (allow_spec_other (bc_now c) (bc_key c) (bc_cost c) (bc_limit c) (bc_window c) (db_tables d) Hk) as [Hsame Hp]. cbv zeta in *.
  assert (db_tables d' = db_tables d \/ db_tables d' = (allow_spec (bc_now c) (bc_key c) (bc_cost c) (bc_limit c) (bc_window c) (db_tables d)).2) as [Ht|Ht]
    by naive_solver.
  - by split; simpl; rewrite ?Ht.
  - assert (forall x, rows_since x (rt_events (db_tables d')) = rows_since x (rt_events (db_tables d))) as Hr
      by (intros x; rewrite Ht; apply Hsame; intros y Hy; by bools).
    split; simpl; try done.
    + rewrite Ht. auto.
    + rewrite Ht, Hsame; auto.
    + intros x Hx. rewrite Hr. auto.
    + intros Hh Htx x Hx. rewrite Hr. auto.
Qed.

Lemma bucket_run_inv calls last s : bucket_inv last s -> Forall call_ok calls -> kclock last calls ->
  exists last', bucket_inv last' (bucket_run calls s) /\ forall c, bc_key c = k -> kclock last (calls ++ [c]) -> last' <= bc_now c.
Proof.
  intros Hi Hok. unfold bucket_run. revert last s Hi. induction Hok as [|c calls Hc _ IH]; intros last s Hi Hclk; simpl.
  { exists last. split; [done|]. intros c Hk. rewrite decide_True by done. tauto. }
  simpl in Hclk. destruct (decide (bc_key c = k)) as [Hk|Hk].
  - destruct Hclk as [Hle Hclk]. destruct (IH (bc_now c) (bucket_step c s)) as (last' & Hl & Hn); [by apply (bucket_inv_key c last)|done|].
    exists last'. split; [done|]. intros c' Hk' [_ Hcl]. by apply Hn.
  - apply (IH last); [by apply bucket_inv_other|done].
Qed.

Lemma bucket_inv_start last w : bucket_inv last ([], mkDB (mkRT [] [] [] [] []) w).
Proof. split; simpl; try done; unfold rows_positive, logged_since, rows_since; simpl; try constructor; intros; unfold admitted_cost; simpl; lia || done. Qed.

(** C28: The SQL bucket store enforces its limit for costs of up to 1000.  Take a key whose
    calls all ask for the same limit and window and cost at most 1000 each, with a clock
    that does not go back between them (the requests of one class of endpoints are such,
    at a cost of 1).  Whatever the interleaving with calls for other keys and whatever
    fails, the calls of the key that are reported admitted cost no more than the limit in
    any period of the length of the window; and while the database works a call is
    answered, and admitted exactly if it fits into the limit beside what was admitted
    within the window before it.  (A larger cost is stored as 1000, so that the limit does
    not hold: [pg_bucket_undercounts].) *)
Theorem pg_bucket_limit (w : W) (start : time) (calls : list BCall) (c : BCall) :
  Forall call_ok (calls ++ [c]) -> bc_key c = k -> kclock start (calls ++ [c]) ->
  let s := bucket_run calls ([], mkDB (mkRT [] [] [] [] []) w) in
  (forall t, admitted_cost (in_span t) s.1 <= L) /\
  (healthy drv -> text_ok k = true ->
   exists res, (AllowN (bc_now c) k (bc_cost c) L D s.2).1 = Ok res /\
     rl_Allowed res = (logged_since (ts (bc_now c - D)) s.1 + bc_cost c <=? L)).
Proof.
  intros [Hok [Hc _]%Forall_cons]%Forall_app Hk Hclk. cbv zeta.
  assert (kclock start calls) as Hclk0.
  { clear -Hclk. revert start Hclk. induction calls as [|x l IH]; intros start; simpl; [done|]. destruct (decide (bc_key x = k)); naive_solver. }
  destruct (bucket_run_inv calls start _ (bucket_inv_start start w) Hok Hclk0) as (last & [I1 I2 I3 I4 I5 I6] & Hlast).
  specialize (Hlast c Hk Hclk). split; [done|]. intros Hh Htx. set (s := bucket_run calls _) in *.
  destruct Hc as (Hne & Hl & Hc0 & Hw & HLD). destruct (HLD Hk) as (El & Ew & Hc1). pose proof (conj Hc0 Hc1) as Hc. rewrite Hk, El, Ew in *.
  destruct (AllowN (bc_now c) k (bc_cost c) L D s.2) as [r d'] eqn:E. apply AllowN_cases in E as [_ Hwork]; [|done|done|lia|done].
  exists (allow_spec (bc_now c) k (bc_cost c) L D (db_tables s.2)).1. split; [by apply Hwork|].
  destruct (allow_spec_key (bc_now c) (bc_cost c) (db_tables s.2) I2 I3 Hc HL Hmax) as (_ & Hal & _). cbv zeta in Hal. rewrite Hal.
  rewrite (I5 Hh Htx); [done|]. apply Hmono. lia.
Qed.
End key.
End bucket.

(** ** The global throttle *)

Lemma one_row_find {R} (P : R -> bool) l : one_row (select_where P l) = match find P l with Some r => Ok r | None => Err ErrNoRows end.
Proof.
  unfold one_row, select_where. induction l as [|r l IH]; [done|]. rewrite filter_cons. simpl.
  destruct (P r); case_decide; done.
Qed.

Section throttle.
Context {W : Type} (drv : Driver W) `{!PgTypes}.
Context (Hsec : forall n, ts (n * Second) = n * Second) (Htext : text_ok bucketSecond = true /\ text_ok bucketHour = true).
Context (psl phl : Z).

Abbreviation Increment := (ThrottlePg_IncrementGlobal drv psl phl).

Definition throttle_of (t : RateTables) : gmap string (time * Z) := tmap gr_BucketType (fun r => (gr_BucketStart r, gr_Count r)) (rt_throttle t).

(** The count of a bucket for the current second or hour. *)
Definition current_count (m : gmap string (time * Z)) (bucketType : string) (current : time) : Z :=
  match m !! bucketType with Some (s, n) => if s =? current then n else 0 | None => 0 end.

Definition load_rows (bucketType : string) (current : time) (l : list ThrottleRow) : list ThrottleRow :=
  match find (of_type bucketType) l with
  | None => l ++ [mkThrottleRow bucketType (ts current) 0]
  | Some r =>
      if gr_BucketStart r =? current then l
      else update_where (of_type bucketType) (fun r => mkThrottleRow (gr_BucketType r) (ts current) 0) l
  end.
Definition load_count (bucketType : string) (current : time) (l : list ThrottleRow) : Z :=
  match find (of_type bucketType) l with Some r => if gr_BucketStart r =? current then gr_Count r else 0 | None => 0 end.

Lemma find_snoc (P : ThrottleRow -> bool) l r : find P l = None -> P r = true -> find P (l ++ [r]) = Some r.
Proof. intros Hn Hr. induction l as [|x l IH]; simpl in *; [by rewrite Hr|]. destruct (P x); [done|auto]. Qed.

Lemma ensure_runs bucketType row current : text_ok bucketType = true ->
  runs (healthy drv) (ensureBucketCurrent drv bucketType row current)
    (fun t => ((current, if gr_BucketStart row =? current then gr_Count row else 0),
               if gr_BucketStart row =? current then t
               else with_throttle (update_where (of_type bucketType) (fun r => mkThrottleRow (gr_BucketType r) (ts current) 0) (rt_throttle t)) t)).
Proof.
  intros Htx. unfold ensureBucketCurrent. destruct (Z.eqb_spec (gr_BucketStart row) current) as [->|]; [apply runs_ret|].
  eapply runs_ext; [refine (runs_bind _ _ _ _ _ _ _)|].
  - apply (runs_stmt _ _ _ _ (fun t => (tt, with_throttle (update_where (of_type bucketType) (fun r => mkThrottleRow (gr_BucketType r) (ts current) 0) (rt_throttle t)) t)));
      unfold with_text; rewrite Htx; [by intros t x [= <-]|done].
  - intros ?. apply runs_ret.
  - done.
Qed.

Lemma get_cases bucketType d q d1 : text_ok bucketType = true -> GetGlobalThrottleBucketForUpdate drv bucketType d = (q, d1) ->
  db_tables d1 = db_tables d /\
  let found := match find (of_type bucketType) (rt_throttle (db_tables d)) with Some r => Ok r | None => Err ErrNoRows end in
  ((exists m, q = Err (DriverError m)) \/ q = found) /\ (healthy drv -> q = found).
Proof.
  intros Htx Hq. unfold GetGlobalThrottleBucketForUpdate in Hq.
  set (f := fun t => with_text bucketType (one_row (select_where (of_type bucketType) (rt_throttle t)))) in Hq.
  assert (f (db_tables d) = match find (of_type bucketType) (rt_throttle (db_tables d)) with Some r => Ok r | None => Err ErrNoRows end) as Hf
    by (unfold f, with_text; rewrite Htx; apply one_row_find).
  pose proof (query_cases drv f d q d1 Hq) as [Ht Hc]. cbv zeta. rewrite <- Hf. split_and!; [done|done|].
  intros Hh. destruct (query_healthy drv f d Hh) as (w & E). congruence.
Qed.

Lemma load_runs bucketType current : ts current = current -> text_ok bucketType = true -> varchar 20 bucketType = None ->
  runs (healthy drv) (loadBucket drv bucketType current)
    (fun t => ((current, load_count bucketType current (rt_throttle t)), with_throttle (load_rows bucketType current (rt_throttle t)) t)).
Proof.
  intros Hts Htx Hvc d r d'. unfold loadBucket, mbind at 1, st_bind at 1, attempt at 1.
  destruct (GetGlobalThrottleBucketForUpdate drv bucketType d) as [q d1] eqn:Hq.
  apply get_cases in Hq as (Ht1 & Hc & Hh); [|done]. cbv zeta in Hc, Hh. unfold load_rows, load_count.
  destruct Hc as [(m & ->)| ->].
  { intros [= <- <-]. split; [left; eexists; split; [done|infra]|]. intros He. specialize (Hh He). by destruct (find _ _). }
  destruct (find _ (rt_throttle (db_tables d))) as [row|] eqn:Hf.
  - intros E. destruct (ensure_runs bucketType row current Htx d1 r d' E) as [H1 H2]. rewrite Ht1 in H1, H2. simpl in *.
    split; [|done]. destruct H1 as [?|[-> Hd]]; [by left|]. right. split; [done|]. rewrite Hd.
    destruct (gr_BucketStart row =? current); [by destruct (db_tables d)|done].
  - unfold mbind at 1, st_bind at 1, initBucket, mbind at 1, st_bind at 1, attempt at 1.
    destruct (InsertGlobalThrottleBucket drv bucketType current d1) as [ins d2] eqn:Hi. unfold InsertGlobalThrottleBucket in Hi. rewrite Hvc in Hi.
    assert (has (gr_BucketType <$> rt_throttle (db_tables d1)) bucketType = false) as Hhas.
    { rewrite Ht1. apply has_false. intros (x & Hx & Hin)%list_elem_of_fmap. apply list_elem_of_In in Hin.
      pose proof (find_none _ _ Hf x Hin) as Hb. unfold of_type in Hb. by bools. }
    assert (healthy drv -> ins = Ok tt) as Hih.
    { intros He. destruct (stmt_healthy drv (fun _ t => if has (gr_BucketType <$> rt_throttle t) bucketType then Ok (tt, t)
        else Ok (tt, with_throttle (rt_throttle t ++ [mkThrottleRow bucketType (ts current) 0]) t)) d1 He) as (n & w & E). rewrite Hhas in E. congruence. }
    apply stmt_cases in Hi as (n & _ & Hi). rewrite Hhas in Hi.
    assert ((exists m, ins = Err (DriverError m)) \/ (ins = Ok tt /\ db_tables d2 = with_throttle (rt_throttle (db_tables d) ++ [mkThrottleRow bucketType (ts current) 0]) (db_tables d)))
      as [(m & ->)|[-> Ht2]] by (rewrite <- Ht1; naive_solver).
    { intros [= <- <-]. split; [left; eexists; split; [done|infra]|]. intros He. by specialize (Hih He). }
    unfold mbind at 1, st_bind at 1, attempt at 1. destruct (GetGlobalThrottleBucketForUpdate drv bucketType d2) as [q2 d3] eqn:Hq2.
    apply get_cases in Hq2 as (Ht3 & Hc2 & Hh2); [|done]. cbv zeta in Hc2, Hh2.
    rewrite Ht2 in Hc2, Hh2. cbn [with_throttle rt_throttle] in Hc2, Hh2. rewrite find_snoc in Hc2, Hh2 by (try done; unfold of_type; simpl; by apply bool_decide_eq_true_2).
    destruct Hc2 as [(m & ->)| ->].
    { intros [= <- <-]. split; [left; eexists; split; [done|infra]|]. intros He. by specialize (Hh2 He). }
    intros E. destruct (ensure_runs bucketType _ current Htx d3 r d' E) as [H1 H2]. simpl in *. rewrite Hts, Z.eqb_refl in *.
    split; [|done]. destruct H1 as [?|[-> Hd]]; [by left|]. right. split; [done|]. by rewrite Hd, Ht3, Ht2.
Qed.

Lemma load_map bucketType current l : ts current = current -> keyed gr_BucketType l ->
  let m := tmap gr_BucketType (fun r => (gr_BucketStart r, gr_Count r)) in
  keyed gr_BucketType (load_rows bucketType current l) /\
  load_count bucketType current l = current_count (m l) bucketType current /\
  m (load_rows bucketType current l) = <[bucketType := (current, current_count (m l) bucketType current)]> (m l).
Proof.
  intros Hts Hk. cbv zeta. unfold load_rows, load_count, current_count.
  pose proof (one_row_key gr_BucketType (fun r => (gr_BucketStart r, gr_Count r)) l bucketType Hk) as Ho.
  change (fun r => bool_decide (gr_BucketType r = bucketType)) with (of_type bucketType) in Ho. rewrite one_row_find in Ho.
  destruct (find (of_type bucketType) l) as [row|] eqn:Hf.
  - destruct Ho as (Hin & Hty & -> & _). destruct (Z.eqb_spec (gr_BucketStart row) current) as [Es|Es].
    + split_and!; [done|done|]. symmetry. apply insert_id. rewrite <- Es. apply tmap_Some; [done|]. eauto.
    + split_and!; [by apply keyed_update|done|]. subst bucketType.
      change (of_type (gr_BucketType row)) with (fun r => bool_decide (gr_BucketType r = gr_BucketType row)).
      rewrite tmap_update_row by done. simpl. by rewrite Hts.
  - destruct Ho as (_ & Hn & _). rewrite Hn. destruct (tmap_insert gr_BucketType (fun r => (gr_BucketStart r, gr_Count r)) l (mkThrottleRow bucketType (ts current) 0) Hk) as [H1 H2].
    { intros x Hx Heq. apply list_elem_of_In in Hx. pose proof (find_none _ _ Hf x Hx) as Hb. unfold of_type in Hb. bools. done. }
    split_and!; [done|done|]. rewrite H2. simpl. by rewrite Hts.
Qed.

Definition cap (n : Z) : Z := to_int32 (Z.min 1000 n).
Definition put_rows (bucketType : string) (start : time) (n : Z) (l : list ThrottleRow) : list ThrottleRow :=
  update_where (of_type bucketType) (fun r => mkThrottleRow (gr_BucketType r) (ts start) (cap n)) l.

Definition incr_rows (now : time) (l : list ThrottleRow) : (Z * bool) * list ThrottleRow :=
  let cs := truncate Second now in
  let ch := truncate Hour now in
  let l1 := load_rows bucketSecond cs l in
  let l2 := load_rows bucketHour ch l1 in
  let n1 := load_count bucketSecond cs l in
  let n2 := load_count bucketHour ch l1 in
  if psl <? n1 + 1 then ((n1, true), l2)
  else if phl <? n2 + 1 then ((n2, true), l2)
  else ((n1 + 1, false), put_rows bucketHour ch (n2 + 1) (put_rows bucketSecond cs (n1 + 1) l2)).

(** The same on the map of buckets. *)
Definition incr_spec (now : time) (m : gmap string (time * Z)) : (Z * bool) * gmap string (time * Z) :=
  let cs := truncate Second now in
  let ch := truncate Hour now in
  let n1 := current_count m bucketSecond cs in
  let n2 := current_count m bucketHour ch in
  let m1 := <[bucketHour := (ch, n2)]> (<[bucketSecond := (cs, n1)]> m) in
  if psl <? n1 + 1 then ((n1, true), m1)
  else if phl <? n2 + 1 then ((n2, true), m1)
  else ((n1 + 1, false), <[bucketHour := (ch, cap (n2 + 1))]> (<[bucketSecond := (cs, cap (n1 + 1))]> m1)).

Lemma put_runs bucketType start n : text_ok bucketType = true ->
  runs (healthy drv) (updateBucket drv bucketType start n) (fun t => (tt, with_throttle (put_rows bucketType start n (rt_throttle t)) t)).
Proof.
  intros Htx. unfold updateBucket. apply (runs_stmt _ _ _ _ (fun t => (tt, with_throttle (put_rows bucketType start n (rt_throttle t)) t)));
    unfold with_text; rewrite Htx; [by intros t x [= <-]|done].
Qed.

Lemma truncated_second now : ts (truncate Second now) = truncate Second now.
Proof. apply Hsec. Qed.
Lemma truncated_hour now : ts (truncate Hour now) = truncate Hour now.
Proof. unfold truncate. replace (now / Hour * Hour) with (now / Hour * 3600 * Second) by (unfold Hour, Minute, Second; lia). apply Hsec. Qed.

Lemma bucket_types : varchar 20 bucketSecond = None /\ varchar 20 bucketHour = None.
Proof. destruct Htext as [H1 H2]. unfold varchar. rewrite H1, H2. done. Qed.

Lemma increment_rows now d r d' : Increment now d = (r, d') ->
  let out := incr_rows now (rt_throttle (db_tables d)) in
  ((exists e, r = Err e /\ infra e /\ (db_tables d' = db_tables d \/ db_tables d' = with_throttle out.2 (db_tables d)))
   \/ (r = Ok out.1 /\ db_tables d' = with_throttle out.2 (db_tables d))) /\ (healthy drv -> r = Ok out.1).
Proof.
  intros E. cbv zeta. unfold ThrottlePg_IncrementGlobal in E. destruct Htext as [T1 T2]. destruct bucket_types as [V1 V2].
  apply (runs_inTx drv (healthy drv) _ _ _ (fun t => ((incr_rows now (rt_throttle t)).1, with_throttle (incr_rows now (rt_throttle t)).2 t))) in E; [done|intros; infra|intros; infra|done|].
  set (finish := fun (s h : time * Z) (t : RateTables) =>
    if psl <? s.2 + 1 then (TxCommit (s.2, true), t)
    else if phl <? h.2 + 1 then (TxCommit (h.2, true), t)
    else (TxCommit (s.2 + 1, false), with_throttle (put_rows bucketHour h.1 (h.2 + 1) (put_rows bucketSecond s.1 (s.2 + 1) (rt_throttle t))) t)).
  set (hour := fun t => ((truncate Hour now, load_count bucketHour (truncate Hour now) (rt_throttle t)),
    with_throttle (load_rows bucketHour (truncate Hour now) (rt_throttle t)) t)).
  eapply runs_ext.
  { refine (runs_bind _ _ _ _ (fun s t => finish s (hour t).1 (hour t).2) _ _); [apply load_runs; [apply truncated_second|done|done]|]. intros [secStart secCount].
    refine (runs_bind _ _ _ hour (fun h t => finish (secStart, secCount) h t) _ _); [apply load_runs; [apply truncated_hour|done|done]|]. intros [hourStart hourCount].
    unfold finish. cbn [fst snd]. destruct (psl <? secCount + 1); [apply runs_ret|]. destruct (phl <? hourCount + 1); [apply runs_ret|].
    eapply runs_ext.
    - refine (runs_bind _ _ _ _ _ _ _); [by apply put_runs|]. intros ?. refine (runs_bind _ _ _ _ _ _ _); [by apply put_runs|]. intros ?. apply runs_ret.
    - done. }
  intros t. unfold incr_rows, finish, hour. simpl. destruct (psl <? _); [done|]. by destruct (phl <? _).
Qed.

Lemma put_map bucketType start n l : ts start = start -> keyed gr_BucketType l -> bucketType ∈ gr_BucketType <$> l ->
  let m := tmap gr_BucketType (fun r => (gr_BucketStart r, gr_Count r)) in
  keyed gr_BucketType (put_rows bucketType start n l) /\ m (put_rows bucketType start n l) = <[bucketType := (start, cap n)]> (m l) /\
  gr_BucketType <$> put_rows bucketType start n l = gr_BucketType <$> l.
Proof.
  intros Hts Hk (row & -> & Hin)%list_elem_of_fmap. cbv zeta. unfold put_rows. split_and!; [by apply keyed_update| |].
  - change (of_type (gr_BucketType row)) with (fun r => bool_decide (gr_BucketType r = gr_BucketType row)). rewrite tmap_update_row by done. simpl. by rewrite Hts.
  - by apply update_keys.
Qed.

Lemma tmap_key l bucketType x : tmap gr_BucketType (fun r => (gr_BucketStart r, gr_Count r)) l !! bucketType = Some x -> keyed gr_BucketType l ->
  bucketType ∈ gr_BucketType <$> l.
Proof. intros Hl Hk. apply tmap_Some in Hl as (r & Hr & <- & _); [|done]. by apply list_elem_of_fmap_2. Qed.

Lemma incr_map now l : keyed gr_BucketType l ->
  let m := tmap gr_BucketType (fun r => (gr_BucketStart r, gr_Count r)) in
  keyed gr_BucketType (incr_rows now l).2 /\ (incr_rows now l).1 = (incr_spec now (m l)).1 /\ m (incr_rows now l).2 = (incr_spec now (m l)).2.
Proof.
  intros Hk. cbv zeta. unfold incr_rows, incr_spec. cbv zeta.
  destruct (load_map bucketSecond (truncate Second now) l (truncated_second now) Hk) as (K1 & C1 & M1).
  destruct (load_map bucketHour (truncate Hour now) _ (truncated_hour now) K1) as (K2 & C2 & M2). rewrite C1, C2. rewrite M1 in M2 |- *.
  set (m := tmap gr_BucketType _ l) in *.
  assert (current_count (<[bucketSecond:=(truncate Second now, current_count m bucketSecond (truncate Second now))]> m) bucketHour (truncate Hour now)
          = current_count m bucketHour (truncate Hour now)) as Hh by (unfold current_count at 1; by rewrite lookup_insert_ne).
  rewrite Hh in M2 |- *. destruct (psl <? _); [done|]. destruct (phl <? _); [done|]. cbn [fst snd].
  destruct (put_map bucketSecond (truncate Second now) (current_count m bucketSecond (truncate Second now) + 1) _ (truncated_second now) K2) as (K3 & M3 & E3).
  { eapply tmap_key; [|done]. rewrite M2, lookup_insert_ne, lookup_insert_eq by done. done. }
  destruct (put_map bucketHour (truncate Hour now) (current_count m bucketHour (truncate Hour now) + 1) _ (truncated_hour now) K3) as (K4 & M4 & _).
  { rewrite E3. eapply tmap_key; [|done]. by rewrite M2, lookup_insert_eq. }
  split_and!; [done|done|]. by rewrite M4, M3, M2.
Qed.

Abbreviation buckets d := (throttle_of (db_tables d)).
Abbreviation rows_keyed d := (keyed gr_BucketType (rt_throttle (db_tables d))).

Lemma increment_cases now d r d' : rows_keyed d -> Increment now d = (r, d') ->
  rows_keyed d' /\
  ((exists e, r = Err e /\ infra e /\ (buckets d' = buckets d \/ buckets d' = (incr_spec now (buckets d)).2))
   \/ (r = Ok (incr_spec now (buckets d)).1 /\ buckets d' = (incr_spec now (buckets d)).2)) /\
  (healthy drv -> r = Ok (incr_spec now (buckets d)).1).
Proof.
  intros Hk E. apply increment_rows in E as [Hc Hh]. cbv zeta in Hc, Hh.
  destruct (incr_map now (rt_throttle (db_tables d)) Hk) as (K & R & M). rewrite R in Hc, Hh. fold (throttle_of (db_tables d)) in *.
  split_and!; [|destruct Hc as [(e & -> & Hi & [Ht|Ht])|[-> Ht]]|done].
  - destruct Hc as [(e & _ & _ & [Ht|Ht])|[_ Ht]]; by rewrite Ht.
  - left. exists e. split_and!; [done|done|left; by rewrite Ht].
  - left. exists e. split_and!; [done|done|right]. by rewrite Ht, <- M.
  - right. split; [done|]. by rewrite Ht, <- M.
Qed.

Definition throttle_pg_step (now : time) (s : list time * DB W RateTables) : list time * DB W RateTables :=
  let '(r, d') := Increment now s.2 in
  (match r with Ok (_, false) => s.1 ++ [now] | _ => s.1 end, d').
Definition throttle_pg_run (nows : list time) (s : list time * DB W RateTables) : list time * DB W RateTables :=
  foldl (fun s now => throttle_pg_step now s) s nows.

Definition admitted_at (sec : time) (log : list time) : Z := Z.of_nat (length (filter (fun y => truncate Second y = sec) log)).
Fixpoint clock_from (last : time) (nows : list time) : Prop :=
  match nows with [] => True | n :: rest => last <= n /\ clock_from n rest end.

Lemma admitted_snoc sec log now : admitted_at sec (log ++ [now]) = admitted_at sec log + (if decide (truncate Second now = sec) then 1 else 0).
Proof. unfold admitted_at. rewrite filter_app, length_app, filter_cons. case_decide; simpl; lia. Qed.
Lemma admitted_none sec log : (forall y, y ∈ log -> truncate Second y < sec) -> admitted_at sec log = 0.
Proof.
  intros Hlt. unfold admitted_at. rewrite filter_none; [done|]. apply Forall_forall. intros y Hy Heq. specialize (Hlt y Hy). lia.
Qed.
Lemma truncate_mono t u : t <= u -> truncate Second t <= truncate Second u.
Proof. intros Htu. unfold truncate. apply Z.mul_le_mono_nonneg_r; [unfold Second; lia|]. apply Z.div_le_mono; [unfold Second; lia|done]. Qed.
Lemma cap_small n : 0 <= n <= 1000 -> cap n = n.
Proof. intros Hn. unfold cap, to_int32. rewrite Z.min_r by lia. rewrite Z.mod_small by lia. lia. Qed.

Record throttle_pg_inv (last : time) (s : list time * DB W RateTables) : Prop := {
  ti_keyed : rows_keyed s.2;
  ti_limit : forall sec, admitted_at sec s.1 <= psl;
  ti_bucket : match buckets s.2 !! bucketSecond with
              | None => s.1 = []
              | Some (b, n) => b <= truncate Second last /\ 0 <= n <= psl /\ admitted_at b s.1 <= n /\ forall y, y ∈ s.1 -> truncate Second y <= b
              end;
}.

Context (Hpsl : 0 <= psl <= 1000).

Lemma throttle_step_inv last now s : last <= now -> throttle_pg_inv last s -> throttle_pg_inv now (throttle_pg_step now s).
Proof.
  intros Hle [I1 I2 I3]. unfold throttle_pg_step. destruct s as [log d]. simpl in *. destruct (Increment now d) as [r d'] eqn:E.
  apply increment_cases in E as (K & Hc & _); [|done]. pose proof (truncate_mono last now Hle) as Htr. set (cs := truncate Second now) in *.
  set (n1 := current_count (buckets d) bucketSecond cs).
  assert (0 <= n1 <= psl /\ admitted_at cs log <= n1 /\ forall y, y ∈ log -> truncate Second y <= cs) as (Hn1 & Hadm & Hold).
  { unfold n1, current_count. destruct (buckets d !! bucketSecond) as [[b n]|].
    - destruct I3 as (Hb & Hn & Ha & Hy). destruct (Z.eqb_spec b cs) as [->|Hne]; [done|]. split_and!; [lia|lia| |].
      + rewrite admitted_none; [lia|]. intros y Hin. specialize (Hy y Hin). lia.
      + intros y Hin. specialize (Hy y Hin). lia.
    - subst log. split_and!; [lia|lia|done|]. intros y Hy. by apply elem_of_nil in Hy. }
  assert (buckets d' = buckets d -> throttle_pg_inv now (log, d')) as Hsame.
  { intros Hb. split; simpl; [done|done|]. rewrite Hb. destruct (buckets d !! bucketSecond) as [[b n]|]; [|done].
    destruct I3 as (? & ? & ? & ?). split_and!; try done; lia. }
  assert (forall log' n, buckets d' !! bucketSecond = Some (cs, n) -> (forall sec, admitted_at sec log' <= psl) -> 0 <= n <= psl -> admitted_at cs log' <= n ->
    (forall y, y ∈ log' -> truncate Second y <= cs) -> throttle_pg_inv now (log', d')) as Hnew.
  { intros log' n Hl H1 H2 H3 H4. split; simpl; [done|done|]. rewrite Hl. split_and!; try done; lia. }
  unfold incr_spec in Hc. cbv zeta in Hc. fold cs in Hc. fold n1 in Hc. set (n2 := current_count (buckets d) bucketHour (truncate Hour now)) in Hc.
  destruct (Z.ltb_spec psl (n1 + 1)) as [Hfull|Hroom]; [|destruct (Z.ltb_spec phl (n2 + 1)) as [Hh|Hh]]; simpl in Hc.
  - assert (forall x, buckets d' = x -> x = <[bucketHour:=(truncate Hour now, n2)]> (<[bucketSecond:=(cs, n1)]> (buckets d)) -> throttle_pg_inv now (log, d')) as Hb.
    { intros x <- Hx. apply (Hnew log n1); try done; try lia. by rewrite Hx, lookup_insert_ne, lookup_insert_eq. }
    destruct Hc as [(e & -> & _ & [Hd|Hd])|[-> Hd]]; [by apply Hsame|by apply (Hb _ Hd)|by apply (Hb _ Hd)].
  - assert (forall x, buckets d' = x -> x = <[bucketHour:=(truncate Hour now, n2)]> (<[bucketSecond:=(cs, n1)]> (buckets d)) -> throttle_pg_inv now (log, d')) as Hb.
    { intros x <- Hx. apply (Hnew log n1); try done; try lia. by rewrite Hx, lookup_insert_ne, lookup_insert_eq. }
    destruct Hc as [(e & -> & _ & [Hd|Hd])|[-> Hd]]; [by apply Hsame|by apply (Hb _ Hd)|by apply (Hb _ Hd)].
  - rewrite (cap_small (n1 + 1)) in Hc by lia.
    assert (forall x, x = <[bucketHour:=(truncate Hour now, cap (n2 + 1))]> (<[bucketSecond:=(cs, n1 + 1)]> (<[bucketHour:=(truncate Hour now, n2)]> (<[bucketSecond:=(cs, n1)]> (buckets d)))) ->
      x !! bucketSecond = Some (cs, n1 + 1)) as Hl by (intros x ->; by rewrite lookup_insert_ne, lookup_insert_eq).
    destruct Hc as [(e & -> & _ & [Hd|Hd])|[-> Hd]]; [by apply Hsame| |].
    + apply (Hnew log (n1 + 1)); try done; try lia. by apply Hl.
    + apply (Hnew _ (n1 + 1)); try lia; [by apply Hl| | |].
      * intros sec. rewrite admitted_snoc. specialize (I2 sec). fold cs. case_decide as Ec; [subst sec; lia|lia].
      * rewrite admitted_snoc. fold cs. rewrite decide_True by done. lia.
      * intros y [Hy| ->%list_elem_of_singleton]%elem_of_app; [auto|done].
Qed.

(** The SQL throttle enforces a limit of up to a thousand requests per second: whatever
    fails, no more requests are reported admitted in one second, as long as the clock
    does not go back. *)
Theorem pg_throttle_limit (w : W) (start : time) (nows : list time) (sec : time) : clock_from start nows ->
  admitted_at sec (throttle_pg_run nows ([], mkDB (mkRT [] [] [] [] []) w)).1 <= psl.
Proof.
  intros Hclk. assert (exists last, throttle_pg_inv last (throttle_pg_run nows ([], mkDB (mkRT [] [] [] [] []) w))) as [last [_ Hl _]]; [|done].
  assert (throttle_pg_inv start ([], mkDB (mkRT [] [] [] [] []) w)) as H0.
  { split; simpl; [apply NoDup_nil_2| |done]. intros. unfold admitted_at. simpl. lia. }
  revert H0 Hclk. generalize ([] : list time, mkDB (mkRT [] [] [] [] []) w). revert start. unfold throttle_pg_run.
  induction nows as [|n nows IH]; intros start s Hs; simpl; [by exists start|]. intros [Hle Hclk]. apply (IH n); [by apply (throttle_step_inv start)|done].
Qed.
End throttle.

Section throttle_cap.
Context {W : Type} (drv : Driver W) `{!PgTypes}.
Context (Hsec : forall n, ts (n * Second) = n * Second) (Htext : text_ok bucketSecond = true /\ text_ok bucketHour = true).
Context (psl phl : Z) (Hbig : 1001 <= psl /\ 1001 <= phl).

Lemma cap_range n : 0 <= n -> 0 <= cap n <= 1000.
Proof. intros Hn. unfold cap, to_int32. rewrite Z.mod_small by lia. lia. Qed.

Lemma current_capped m ty cur : map_Forall (fun _ x => 0 <= x.2 <= 1000) m -> 0 <= current_count m ty cur <= 1000.
Proof.
  intros Hm. unfold current_count. destruct (m !! ty) as [[b n]|] eqn:E; [|lia]. specialize (Hm _ _ E). simpl in Hm. destruct (b =? cur); lia.
Qed.

Definition capped (d : DB W RateTables) : Prop :=
  keyed gr_BucketType (rt_throttle (db_tables d)) /\ map_Forall (fun _ x => 0 <= x.2 <= 1000) (throttle_of (db_tables d)).

Lemma capped_step now d r d' : capped d -> ThrottlePg_IncrementGlobal drv psl phl now d = (r, d') -> capped d' /\ forall n, r <> Ok (n, true).
Proof.
  intros [Hk Hm] E. apply (increment_cases drv Hsec Htext) in E as (K & Hc & _); [|done].
  unfold incr_spec in Hc. cbv zeta in Hc. pose proof (current_capped _ bucketSecond (truncate Second now) Hm) as H1.
  pose proof (current_capped _ bucketHour (truncate Hour now) Hm) as H2.
  rewrite (proj2 (Z.ltb_ge psl _)), (proj2 (Z.ltb_ge phl _)) in Hc by lia. simpl in Hc. split.
  - split; [done|]. destruct Hc as [(e & _ & _ & [->| ->])|[_ ->]]; [done|..]; repeat apply map_Forall_insert_2; simpl; try done; apply cap_range; lia.
  - intros n. destruct Hc as [(e & -> & _)|[-> _]]; [done|]. congruence.
Qed.

(** Counts above a thousand are stored as a thousand, so a higher limit, such as the
    configured ten thousand, never blocks anything. *)
Lemma pg_throttle_never_blocks w nows now n :
  (ThrottlePg_IncrementGlobal drv psl phl now (throttle_pg_run drv psl phl nows ([], mkDB (mkRT [] [] [] [] []) w)).2).1 <> Ok (n, true).
Proof.
  assert (capped (throttle_pg_run drv psl phl nows ([], mkDB (mkRT [] [] [] [] []) w)).2) as Hs.
  { assert (capped ([] : list time, mkDB (mkRT [] [] [] [] []) w).2) as H0 by (split; [apply NoDup_nil_2|apply map_Forall_empty]).
    revert H0. generalize ([] : list time, mkDB (mkRT [] [] [] [] []) w). unfold throttle_pg_run.
    induction nows as [|x nows IH]; intros s Hs; simpl; [done|]. apply IH. unfold throttle_pg_step.
    destruct (ThrottlePg_IncrementGlobal drv psl phl x s.2) as [r d'] eqn:E. by destruct (capped_step x s.2 r d' Hs E). }
  destruct (ThrottlePg_IncrementGlobal drv psl phl now _) as [r d'] eqn:E. by destruct (capped_step now _ r d' Hs E) as [_ Hn].
Qed.
End throttle_cap.

(** ** Concurrent failures

    Requests that record a failure at the same time, one step per statement.  A request
    may fail at any statement, which has had its effect or not.  Between the statements
    the rows may be cleared (a successful sign-in) and reset (the clean-up), and locks
    may run out. *)

Section lockout.
Context `{!PgTypes} (cfg : AuthLockoutConfig).

Inductive at_stmt := PRecord | PLock (current : AuthLockout) | PCaptcha (current : AuthLockout) | PDone (current : AuthLockout) | PFailed.
(** [fl_locked]: the server's clock when the lock statement was served, and whether it
    set the lock. *)
Record Failing := mkFailing { fl_key : string; fl_now : time; fl_at : at_stmt; fl_locked : option (time * bool) }.
Record LoState := mkLo { lo_tables : RateTables; lo_threads : gmap nat Failing }.

Abbreviation T := (lc_HardLockThreshold cfg).
Definition lock_end (now : time) : time := time_Add now (lc_HardLockDuration cfg).

Definition continue (tid : nat) (f : Failing) (p : at_stmt) (l : option (time * bool)) (t : RateTables) (s : LoState) : LoState :=
  mkLo t (<[tid := mkFailing (fl_key f) (fl_now f) p l]> (lo_threads s)).

(** The effect of the statement a request is about to run. *)
Inductive effect (f : Failing) : RateTables -> RateTables -> at_stmt -> option (time * bool) -> Prop :=
| eff_record t row t' : fl_at f = PRecord -> record_failure_rows (fl_key f) (fl_now f) t = Ok (row, t') ->
    effect f t t' (if AuthLockout_ShouldHardLock (toAuthLockout row) T then PLock (toAuthLockout row) else PCaptcha (toAuthLockout row))
      (fl_locked f)
| eff_lock t current clock : fl_at f = PLock current ->
    let r := apply_lock_rows (fl_key f) (lock_end (fl_now f)) (to_int32 (Z.min 1000 T)) clock t in
    effect f t r.2 (PCaptcha (if 0 <? r.1 then locked_record current (lock_end (fl_now f)) else current))
      (Some (clock, 0 <? r.1))
| eff_captcha t current : fl_at f = PCaptcha current ->
    AuthLockout_ShouldRequireCaptcha current (lc_CaptchaAfterLockouts cfg) && negb (al_RequiresCaptcha current) = true ->
    effect f t (captcha_rows (fl_key f) (to_int32 (wrap64 (lc_CaptchaAfterLockouts cfg * T))) t).2
      (PDone (if 0 <? (captcha_rows (fl_key f) (to_int32 (wrap64 (lc_CaptchaAfterLockouts cfg * T))) t).1
              then AuthLockout_MarkRequiresCaptcha current else current)) (fl_locked f)
| eff_no_captcha t current : fl_at f = PCaptcha current ->
    AuthLockout_ShouldRequireCaptcha current (lc_CaptchaAfterLockouts cfg) && negb (al_RequiresCaptcha current) = false ->
    effect f t t (PDone current) (fl_locked f).

(** A step of a request. *)
Inductive lo_request : LoState -> LoState -> Prop :=
| lo_call s tid key now : lo_threads s !! tid = None ->
    lo_request s (mkLo (lo_tables s) (<[tid := mkFailing key now PRecord None]> (lo_threads s)))
| lo_run s tid f t p l : lo_threads s !! tid = Some f -> effect f (lo_tables s) t p l -> lo_request s (continue tid f p l t s)
| lo_error s tid f : lo_threads s !! tid = Some f -> (forall r, fl_at f <> PDone r) ->
    lo_request s (continue tid f PFailed (fl_locked f) (lo_tables s) s)
| lo_lost s tid f t p l : lo_threads s !! tid = Some f -> effect f (lo_tables s) t p l -> lo_request s (continue tid f PFailed l t s).

(** [Clear] of a key, and the resets of the clean-up. *)
Inductive lo_maintain : LoState -> LoState -> Prop :=
| lo_clear s key : lo_maintain s (mkLo (clear_rows key (lo_tables s)) (lo_threads s))
| lo_reset_count s cutoff : lo_maintain s (mkLo (reset_count_rows cutoff (lo_tables s)) (lo_threads s))
| lo_reset_daily s cutoff : lo_maintain s (mkLo (reset_daily_rows cutoff (lo_tables s)) (lo_threads s)).

Definition lo_step (s s' : LoState) : Prop := lo_request s s' \/ lo_maintain s s'.

Definition lo_start : LoState := mkLo (mkRT [] [] [] [] []) ∅.
Definition lo_reach (s : LoState) : Prop := rtc lo_step lo_start s.

(** *** The row of a key *)

Definition row_of (k : string) (t : RateTables) : option LockoutRow := find (of_identifier k) (rt_lockouts t).
Definition count_of (k : string) (t : RateTables) : Z := match row_of k t with Some r => lr_FailureCount r | None => 0 end.
Definition daily_of (k : string) (t : RateTables) : Z := match row_of k t with Some r => lr_DailyFailures r | None => 0 end.
Definition lock_of (k : string) (t : RateTables) : option time := row_of k t ≫= lr_LockedUntil.

(** Steps in which the key's row is neither cleared nor reset. *)
Definition lo_quiet (k : string) (s s' : LoState) : Prop :=
  lo_request s s' \/ (lo_maintain s s' /\ row_of k (lo_tables s') = row_of k (lo_tables s)).

Lemma find_update k (P : LockoutRow -> bool) f l : (forall r, lr_Identifier (f r) = lr_Identifier r) ->
  find (of_identifier k) (update_where P f l) = (fun r => if P r then f r else r) <$> find (of_identifier k) l.
Proof.
  intros Hf. unfold update_where. induction l as [|r l IH]; [done|]. rewrite fmap_cons. simpl.
  assert (of_identifier k (if P r then f r else r) = of_identifier k r) as -> by (unfold of_identifier; destruct (P r); by rewrite ?Hf).
  by destruct (of_identifier k r).
Qed.
Lemma find_snoc_row k l r : find (of_identifier k) (l ++ [r]) =
  match find (of_identifier k) l with Some x => Some x | None => if of_identifier k r then Some r else None end.
Proof. induction l as [|x l IH]; simpl; [by destruct (of_identifier k r)|]. by destruct (of_identifier k x). Qed.
Lemma row_of_key k t r : row_of k t = Some r -> lr_Identifier r = k.
Proof. intros [_ E]%find_some. unfold of_identifier in E. by bools. Qed.

Lemma record_row k key now t row t' : record_failure_rows key now t = Ok (row, t') ->
  (key = k -> row_of k t' = Some row /\ lr_FailureCount row = count_of k t + 1 /\ lr_LockedUntil row = lock_of k t /\
              lr_DailyFailures row = daily_of k t + 1) /\
  (key <> k -> row_of k t' = row_of k t).
Proof.
  unfold record_failure_rows, upsert_lockout. simpl. destruct (varchar 255 key); [done|]. fold (row_of key t).
  unfold count_of, daily_of, lock_of. destruct (row_of key t) as [r|] eqn:E.
  - destruct ((2147483647 <? _) || _); [done|]. intros [= <- <-].
    assert (row_of k (with_lockouts (update_where (of_identifier key) (count_failure now) (rt_lockouts t)) t) =
            (fun r => if of_identifier key r then count_failure now r else r) <$> row_of k t) as -> by (unfold row_of; simpl; by apply find_update).
    split.
    + intros ->. rewrite E. simpl. unfold of_identifier. rewrite (row_of_key _ _ _ E), bool_decide_eq_true_2 by done. naive_solver.
    + intros Hne. destruct (row_of k t) as [r'|] eqn:Er; [|done]. apply row_of_key in Er. simpl. unfold of_identifier.
      by rewrite bool_decide_eq_false_2 by congruence.
  - intros [= <- <-]. set (fresh := mkLockoutRow key 1 1 None (ts now) false).
    assert (row_of k (with_lockouts (rt_lockouts t ++ [fresh]) t) =
            match row_of k t with Some x => Some x | None => if of_identifier k fresh then Some fresh else None end) as ->
      by (unfold row_of; simpl; by apply find_snoc_row).
    split.
    + intros ->. rewrite E. unfold of_identifier. simpl. rewrite bool_decide_eq_true_2 by done. naive_solver.
    + intros Hne. destruct (row_of k t); [done|]. unfold of_identifier. simpl. by rewrite bool_decide_eq_false_2 by done.
Qed.
Lemma lock_row k key until n clock t : row_of k (apply_lock_rows key until n clock t).2 =
  (fun r => if lockable key n clock r then set_lock until r else r) <$> row_of k t.
Proof. unfold row_of, apply_lock_rows. simpl. by apply find_update. Qed.
Lemma captcha_row k key n t : row_of k (captcha_rows key n t).2 = (fun r => if captcha_due key n r then set_captcha r else r) <$> row_of k t.
Proof. unfold row_of, captcha_rows. simpl. by apply find_update. Qed.
Lemma captcha_same k key n t : let t' := (captcha_rows key n t).2 in
  count_of k t' = count_of k t /\ daily_of k t' = daily_of k t /\ lock_of k t' = lock_of k t.
Proof. cbv zeta. unfold count_of, daily_of, lock_of. rewrite captcha_row. destruct (row_of k t) as [r|]; [simpl|done]. by destruct (captcha_due key n r). Qed.
Lemma lock_same k key until n clock t : let t' := (apply_lock_rows key until n clock t).2 in
  count_of k t' = count_of k t /\ daily_of k t' = daily_of k t.
Proof. cbv zeta. unfold count_of, daily_of. rewrite lock_row. destruct (row_of k t) as [r|]; [simpl|done]. by destruct (lockable key n clock r). Qed.

(** A lock statement for a key whose failures have reached the threshold: either it sets
    the lock, or the key has a lock that is not over on the server's clock. *)
Lemma lock_effect k until n clock t : n <= daily_of k t -> 1 <= n ->
  let r := apply_lock_rows k until n clock t in
  (0 < r.1 /\ lock_of k r.2 = Some (ts until)) \/ (exists u, lock_of k r.2 = Some u /\ lock_of k t = Some u /\ clock <= u).
Proof.
  intros Hd Hn. cbv zeta. unfold lock_of, daily_of in *. rewrite lock_row. destruct (row_of k t) as [r|] eqn:E; [|lia]. simpl.
  pose proof (row_of_key _ _ _ E) as Hid. destruct (lockable k n clock r) eqn:El.
  - left. split; [|done]. unfold apply_lock_rows, rows_affected. simpl. unfold row_of in E. apply find_some in E as [Hin _].
    apply list_elem_of_In in Hin.
    assert (r ∈ select_where (lockable k n clock) (rt_lockouts t)) as Hs by (by apply list_elem_of_filter).
    destruct (select_where _ _); [by apply elem_of_nil in Hs|simpl; lia].
  - right. unfold lockable, of_identifier in El. rewrite Hid, bool_decide_eq_true_2, (proj2 (Z.leb_le _ _) Hd) in El by done. simpl in El.
    destruct (lr_LockedUntil r) as [u|]; [|done]. exists u. bools. split_and!; done || lia.
Qed.

(** A lock statement for any key: the lock changes only when it was over, and to the
    request's own. *)
Lemma lock_change k key until n clock t : let r := apply_lock_rows key until n clock t in
  lock_of k r.2 = lock_of k t \/ (key = k /\ 0 < r.1 /\ lock_of k r.2 = Some (ts until)).
Proof.
  cbv zeta. unfold lock_of. rewrite lock_row. destruct (row_of k t) as [r|] eqn:E; [simpl|by left]. destruct (lockable key n clock r) eqn:El; [|by left].
  right. pose proof (row_of_key _ _ _ E) as Hid. split_and!; [|..|done].
  - unfold lockable, of_identifier in El. bools. congruence.
  - unfold apply_lock_rows, rows_affected. simpl. unfold row_of in E. apply find_some in E as [Hin _]. apply list_elem_of_In in Hin.
    assert (r ∈ select_where (lockable key n clock) (rt_lockouts t)) as Hs by (by apply list_elem_of_filter).
    destruct (select_where _ _); [by apply elem_of_nil in Hs|simpl; lia].
Qed.

(** *** The invariant of a key *)

Definition result_of (p : at_stmt) : option AuthLockout := match p with PLock c | PCaptcha c | PDone c => Some c | _ => None end.
Definition past_lock (p : at_stmt) : bool := match p with PCaptcha _ | PDone _ => true | _ => false end.
Definition before_lock (p : at_stmt) : bool := match p with PRecord | PLock _ => true | _ => false end.

(** Counts are not negative, and a request that has not locked has no lock time. *)
Record lo_base (s : LoState) : Prop := {
  lb_counts : forall k, 0 <= count_of k (lo_tables s) /\ 0 <= daily_of k (lo_tables s);
  lb_locked : forall tid f, lo_threads s !! tid = Some f -> before_lock (fl_at f) = true -> fl_locked f = None;
}.

Lemma counts_effect f t t' p l k : effect f t t' p l ->
  (count_of k t' = count_of k t /\ daily_of k t' = daily_of k t) \/
  (fl_at f = PRecord /\ fl_key f = k /\ count_of k t' = count_of k t + 1 /\ daily_of k t' = daily_of k t + 1).
Proof.
  intros [t0 row t1 Hp Hr|t0 c clock Hp|t0 c Hp _|t0 c Hp _].
  - apply (record_row k) in Hr as [Hk Hne]. destruct (decide (fl_key f = k)) as [E|E].
    + destruct (Hk E) as (Hrow & Hc & _ & Hd). right. unfold count_of at 1, daily_of at 1. by rewrite Hrow.
    + left. unfold count_of, daily_of. by rewrite Hne.
  - left. apply lock_same.
  - left. destruct (captcha_same k (fl_key f) (to_int32 (wrap64 (lc_CaptchaAfterLockouts cfg * T))) t0) as (? & ? & _). done.
  - by left.
Qed.

Lemma find_delete k key l : find (of_identifier k) (delete_where (of_identifier key) l) = if decide (k = key) then None else find (of_identifier k) l.
Proof.
  unfold delete_where. induction l as [|r l IH]; [by case_decide|]. rewrite filter_cons. simpl. unfold of_identifier in *.
  destruct (bool_decide_reflect (lr_Identifier r = key)) as [E|E]; simpl.
  - rewrite IH. case_decide as Hk; [done|]. rewrite bool_decide_eq_false_2 by congruence. done.
  - destruct (bool_decide_reflect (lr_Identifier r = k)) as [E2|E2]; [|done]. rewrite decide_False by congruence. done.
Qed.

Lemma maintain_base s s' : lo_base s -> lo_maintain s s' -> lo_base s'.
Proof.
  intros [Hc Hl] Hm. destruct Hm as [s key|s cutoff|s cutoff]; (split; [|exact Hl]); intros k; specialize (Hc k);
    unfold count_of, daily_of, row_of in *; simpl.
  - rewrite find_delete. by case_decide.
  - rewrite find_update by done. destruct (find _ _) as [r|]; [simpl|done]. destruct (failed_before cutoff r); simpl; [lia|done].
  - rewrite find_update by done. destruct (find _ _) as [r|]; [simpl|done]. destruct (failed_before cutoff r); simpl; [lia|done].
Qed.

Lemma request_base s s' : lo_base s -> lo_request s s' -> lo_base s'.
Proof.
  intros [Hc Hl] Hr.
  assert (forall f t t' p l, effect f t t' p l -> before_lock (fl_at f) = true -> before_lock p = true -> l = fl_locked f) as Hkeep.
  { intros f t t' p l []; done. }
  assert (forall f t t' p l, effect f t t' p l -> before_lock p = true -> before_lock (fl_at f) = true) as Hback.
  { intros f t t' p l [t0 row t1 ->|t0 c cl ->|t0 c ->|t0 c ->]; done. }
  assert (forall f t t' p l, effect f t t' p l -> (forall k, 0 <= count_of k t /\ 0 <= daily_of k t) ->
    forall k, 0 <= count_of k t' /\ 0 <= daily_of k t') as Hcounts.
  { intros f t t' p l He Hx k. specialize (Hx k). destruct (counts_effect _ _ _ _ _ k He) as [[-> ->]|(_ & _ & -> & ->)]; lia. }
  destruct Hr as [s tid key now Hfree|s tid f t p l Hf He|s tid f Hf Hp|s tid f t p l Hf He]; split; simpl; try by eauto.
  all: intros i g [[<- <-]|[_ Hg]]%lookup_insert_Some Hb; simpl in *; try done; try by eapply Hl.
  rewrite (Hkeep _ _ _ _ _ He); [|by eapply Hback|done]. eapply Hl; [done|]. by eapply Hback.
Qed.

Lemma lo_base_reach s : lo_reach s -> lo_base s.
Proof.
  unfold lo_reach. revert s. apply (rtc_ind_r (R := lo_step) (fun s => lo_base s) lo_start).
  - split; [done|]. intros tid f Hf. simpl in Hf. by rewrite lookup_empty in Hf.
  - intros s s' _ [Hr|Hm] Hb; [by eapply request_base|by eapply maintain_base].
Qed.

(** *** Failures since a state *)

Section since.
Context (k : string) (s0 : LoState) (B0 : lo_base s0) (HT : 1 <= T <= 1000).
Abbreviation F0 := (count_of k (lo_tables s0)).
Abbreviation D0 := (daily_of k (lo_tables s0)).

Lemma threshold_int32 : to_int32 (Z.min 1000 T) = T.
Proof. unfold to_int32. rewrite Z.min_r by lia. rewrite Z.mod_small by lia. lia. Qed.

(** The number a request on the key that began since was given. *)
Definition ticket (s : LoState) (tid : nat) (n : Z) : Prop :=
  lo_threads s0 !! tid = None /\
  exists f c, lo_threads s !! tid = Some f /\ fl_key f = k /\ result_of (fl_at f) = Some c /\ al_FailureCount c = n.

(** The lock of a request on the key that set it since. *)
Definition set_since (s : LoState) (u : time) : Prop :=
  exists tid f clock, lo_threads s !! tid = Some f /\ fl_key f = k /\ fl_locked f = Some (clock, true) /\
    u = ts (lock_end (fl_now f)) /\ forall f0, lo_threads s0 !! tid = Some f0 -> fl_locked f0 = None.

(** The key is locked, and was not already free again when the request locked. *)
Definition locked_for (s : LoState) (f : Failing) : Prop :=
  exists u, lock_of k (lo_tables s) = Some u /\
    ((exists clock b, fl_locked f = Some (clock, b) /\ clock <= u) \/ set_since s u).

Record lo_inv (s : LoState) : Prop := {
  li_base : lo_base s;
  li_count : F0 <= count_of k (lo_tables s) /\ daily_of k (lo_tables s) - D0 = count_of k (lo_tables s) - F0;
  li_ticket : forall tid n, ticket s tid n -> F0 < n <= count_of k (lo_tables s);
  li_distinct : forall i j n, ticket s i n -> ticket s j n -> i = j;
  li_threads : forall tid f0, lo_threads s0 !! tid = Some f0 -> exists f, lo_threads s !! tid = Some f /\
    (fl_locked f0 <> None -> fl_locked f = fl_locked f0 /\ before_lock (fl_at f) = false);
  li_locked : forall tid n f, ticket s tid n -> lo_threads s !! tid = Some f -> past_lock (fl_at f) = true -> F0 + T <= n ->
    locked_for s f;
}.

Lemma lo_inv_start : lo_inv s0.
Proof.
  split; [done|lia|..].
  - intros tid n (Hn & f & c & Hf & _). congruence.
  - intros i j n (Hn & f & c & Hf & _). congruence.
  - intros tid f0 Hf. exists f0. split; [done|]. intros Hl. split; [done|]. destruct (before_lock (fl_at f0)) eqn:E; [|done].
    by destruct Hl, (lb_locked _ B0 tid f0).
  - intros tid n f (Hn & g & c & Hg & _). congruence.
Qed.

Lemma ticket_insert t tid g s i n : ticket (mkLo t (<[tid := g]> (lo_threads s))) i n <->
  (i = tid /\ lo_threads s0 !! tid = None /\ fl_key g = k /\ exists c, result_of (fl_at g) = Some c /\ al_FailureCount c = n) \/ (i <> tid /\ ticket s i n).
Proof.
  unfold ticket. simpl. destruct (decide (i = tid)) as [->|Hne].
  - rewrite lookup_insert_eq. split; [intros (? & f & c & [= <-] & ? & ? & ?); left; naive_solver|intros [(_ & ? & ? & c & ? & ?)|[? _]]; [naive_solver|done]].
  - rewrite lookup_insert_ne by done. split; [intros; by right|naive_solver].
Qed.

(** What a step of a request has to keep. *)
Record keeps (s : LoState) (tid : nat) (f g : Failing) (t : RateTables) : Prop := {
  ke_key : fl_key g = fl_key f /\ fl_now g = fl_now f;
  ke_count : (count_of k t = count_of k (lo_tables s) /\ daily_of k t = daily_of k (lo_tables s)) \/
    (count_of k t = count_of k (lo_tables s) + 1 /\ daily_of k t = daily_of k (lo_tables s) + 1);
  ke_ticket : forall c, lo_threads s0 !! tid = None -> fl_key g = k -> result_of (fl_at g) = Some c ->
    ticket s tid (al_FailureCount c) \/ count_of k (lo_tables s) < al_FailureCount c <= count_of k t;
  ke_locked : fl_locked g = fl_locked f \/ before_lock (fl_at f) = true;
  ke_before : before_lock (fl_at g) = true -> before_lock (fl_at f) = true;
  ke_lock : lock_of k t = lock_of k (lo_tables s) \/
    (fl_key g = k /\ before_lock (fl_at f) = true /\ lock_of k t = Some (ts (lock_end (fl_now g))) /\ exists clock, fl_locked g = Some (clock, true));
  ke_own : forall c, lo_threads s0 !! tid = None -> fl_key g = k -> past_lock (fl_at g) = true -> result_of (fl_at g) = Some c ->
    F0 + T <= al_FailureCount c -> locked_for (mkLo t (<[tid := g]> (lo_threads s))) g;
}.

(** Locks set since stay known as such. *)
Lemma set_since_insert s tid f g t u : lo_inv s -> lo_threads s !! tid = Some f -> keeps s tid f g t ->
  set_since s u -> set_since (mkLo t (<[tid := g]> (lo_threads s))) u.
Proof.
  intros I Hf K (j & h & clock & Hj & Hk & Hl & Hu & H0). destruct (decide (j = tid)) as [->|Hne].
  - rewrite Hf in Hj. injection Hj as <-. destruct (ke_key _ _ _ _ _ K) as [E1 E2]. exists tid, g, clock. simpl. rewrite lookup_insert_eq, E1, E2.
    split_and!; try done. destruct (ke_locked _ _ _ _ _ K) as [->|Hb]; [done|]. by rewrite (lb_locked _ (li_base _ I) tid f Hf Hb) in Hl.
  - exists j, h, clock. simpl. by rewrite lookup_insert_ne.
Qed.

Lemma locked_since s tid f g t h : lo_inv s -> lo_threads s !! tid = Some f -> keeps s tid f g t ->
  locked_for s h -> locked_for (mkLo t (<[tid := g]> (lo_threads s))) h.
Proof.
  intros I Hf K (u & Hu & Hor). destruct (ke_lock _ _ _ _ _ K) as [E|(Hk & Hb & E & clock & Hl)].
  - exists u. simpl. rewrite E. split; [done|]. destruct Hor as [?|Hs]; [by left|]. right. by eapply set_since_insert.
  - eexists. simpl. split; [exact E|]. right. exists tid, g, clock. simpl. rewrite lookup_insert_eq. split_and!; try done.
    intros f0 H0. destruct (li_threads _ I tid f0 H0) as (f' & Hf' & Hx). rewrite Hf in Hf'. injection Hf' as <-.
    destruct (fl_locked f0) eqn:E0; [|done]. destruct Hx as [_ Hx]; [done|]. by rewrite Hb in Hx.
Qed.

Lemma inv_move s tid f g t : lo_inv s -> lo_threads s !! tid = Some f -> lo_base (mkLo t (<[tid := g]> (lo_threads s))) ->
  keeps s tid f g t -> lo_inv (mkLo t (<[tid := g]> (lo_threads s))).
Proof.
  intros I Hf B K. pose proof (li_count _ I) as Hc. split; simpl; [done|destruct (ke_count _ _ _ _ _ K) as [[-> ->]|[-> ->]]; lia|..].
  - intros i n [(-> & Hn & Hk & c & Hr & <-)|[_ Ht]]%ticket_insert.
    + destruct (ke_ticket _ _ _ _ _ K c Hn Hk Hr) as [Ht%(li_ticket _ I)|?]; [|lia]. destruct (ke_count _ _ _ _ _ K) as [[-> _]|[-> _]]; lia.
    + apply (li_ticket _ I) in Ht. destruct (ke_count _ _ _ _ _ K) as [[-> _]|[-> _]]; lia.
  - assert (forall c j, lo_threads s0 !! tid = None -> fl_key g = k -> result_of (fl_at g) = Some c -> j <> tid -> ticket s j (al_FailureCount c) -> False) as Hx.
    { intros c j Hn Hk Hr Hj Ht. destruct (ke_ticket _ _ _ _ _ K c Hn Hk Hr) as [Ht'|Hb]; [by apply Hj, (li_distinct _ I j tid (al_FailureCount c))|].
      apply (li_ticket _ I) in Ht. lia. }
    intros i j n [(-> & Hn & Hk & c & Hr & <-)|[Hi Ht]]%ticket_insert [(-> & Hn' & Hk' & c' & Hr' & E)|[Hj Ht']]%ticket_insert; [done| | |].
    + by destruct (Hx c j).
    + subst n. by destruct (Hx c' i).
    + by apply (li_distinct _ I i j n).
  - intros i f0 H0. destruct (li_threads _ I i f0 H0) as (h & Hh & Hx). destruct (decide (i = tid)) as [->|Hne].
    + rewrite Hf in Hh. injection Hh as <-. exists g. rewrite lookup_insert_eq. split; [done|]. intros Hl. destruct (Hx Hl) as [E Hb].
      destruct (ke_locked _ _ _ _ _ K) as [->|Hb']; [|by rewrite Hb in Hb']. split; [done|].
      destruct (before_lock (fl_at g)) eqn:Eg; [|done]. by rewrite (ke_before _ _ _ _ _ K Eg) in Hb.
    + exists h. by rewrite lookup_insert_ne.
  - intros i n h [(-> & Hn & Hk & c & Hr & <-)|[Hi Ht]]%ticket_insert Hh Hp HTn.
    + rewrite lookup_insert_eq in Hh. injection Hh as <-. by apply (ke_own _ _ _ _ _ K c).
    + rewrite lookup_insert_ne in Hh by done. eapply locked_since; [done..|]. by eapply (li_locked _ I i n h).
Qed.

Lemma own_ticket s tid f c : lo_threads s !! tid = Some f -> lo_threads s0 !! tid = None -> fl_key f = k -> result_of (fl_at f) = Some c ->
  ticket s tid (al_FailureCount c).
Proof. intros Hf H0 Hk Hr. split; [done|]. by exists f, c. Qed.

Lemma record_keeps s tid f row t : lo_inv s -> lo_threads s !! tid = Some f -> fl_at f = PRecord ->
  record_failure_rows (fl_key f) (fl_now f) (lo_tables s) = Ok (row, t) ->
  keeps s tid f (mkFailing (fl_key f) (fl_now f)
    (if AuthLockout_ShouldHardLock (toAuthLockout row) T then PLock (toAuthLockout row) else PCaptcha (toAuthLockout row)) (fl_locked f)) t.
Proof.
  intros I Hf Hp Hr. apply (record_row k) in Hr as [Hk Hne]. pose proof (lb_counts _ B0 k) as Hb.
  assert (forall c, result_of (if AuthLockout_ShouldHardLock (toAuthLockout row) T then PLock (toAuthLockout row) else PCaptcha (toAuthLockout row)) = Some c ->
    c = toAuthLockout row) as Hres by (intros c; destruct (AuthLockout_ShouldHardLock _ _); by intros [= <-]).
  split; simpl; [done|..].
  - destruct (decide (fl_key f = k)) as [E|E].
    + destruct (Hk E) as (Hrow & Hc & _ & Hd). right. unfold count_of at 1, daily_of at 1. by rewrite Hrow.
    + left. unfold count_of, daily_of. by rewrite Hne.
  - intros c _ E ->%Hres. destruct (Hk E) as (Hrow & Hc & _). right. unfold count_of at 2. rewrite Hrow. simpl. lia.
  - by left.
  - by rewrite Hp.
  - left. destruct (decide (fl_key f = k)) as [E|E].
    + destruct (Hk E) as (Hrow & _ & Hl & _). unfold lock_of at 1. by rewrite Hrow.
    + unfold lock_of. by rewrite Hne.
  - intros c _ E Hpast Hc HTc. rewrite (Hres c Hc) in HTc. unfold AuthLockout_ShouldHardLock in Hpast. simpl in Hpast, HTc.
    destruct (Z.leb_spec T (lr_FailureCount row)); [done|lia].
Qed.

Lemma lock_keeps s tid f current clock : lo_inv s -> lo_threads s !! tid = Some f -> fl_at f = PLock current ->
  let r := apply_lock_rows (fl_key f) (lock_end (fl_now f)) (to_int32 (Z.min 1000 T)) clock (lo_tables s) in
  let c' := if 0 <? r.1 then locked_record current (lock_end (fl_now f)) else current in
  keeps s tid f (mkFailing (fl_key f) (fl_now f) (PCaptcha c') (Some (clock, 0 <? r.1))) r.2.
Proof.
  intros I Hf Hp. rewrite threshold_int32. cbv zeta. set (r := apply_lock_rows _ _ _ _ _).
  destruct (lock_same k (fl_key f) (lock_end (fl_now f)) T clock (lo_tables s)) as [Hc Hd]. fold r in Hc, Hd.
  assert (forall c, (if 0 <? r.1 then locked_record current (lock_end (fl_now f)) else current) = c -> al_FailureCount c = al_FailureCount current) as Hcount
    by (intros c <-; by destruct (0 <? r.1)).
  split; simpl; [done|by left|..].
  - intros c H0 E [= Hc']. left. rewrite (Hcount c Hc'). eapply own_ticket; [done..|]. by rewrite Hp.
  - right. by rewrite Hp.
  - by rewrite Hp.
  - destruct (lock_change k (fl_key f) (lock_end (fl_now f)) T clock (lo_tables s)) as [E|(E & Hpos & E2)]; [by left|right].
    fold r in Hpos, E2. rewrite Hp. split_and!; try done. exists clock. do 2 f_equal. by apply Z.ltb_lt.
  - intros c H0 E _ [= Hc'] HTc. rewrite (Hcount c Hc') in HTc.
    assert (ticket s tid (al_FailureCount current)) as Ht by (eapply own_ticket; [done..|by rewrite Hp]).
    apply (li_ticket _ I) in Ht. pose proof (li_count _ I) as Hi. pose proof (lb_counts _ B0 k) as Hb.
    destruct (lock_effect k (lock_end (fl_now f)) T clock (lo_tables s)) as [[Hpos Hl]|(u & Hl & _ & Hu)]; [lia|lia|..];
      rewrite <- E in Hl; fold r in Hl.
    + rewrite <- E in Hpos. fold r in Hpos. eexists. split; [simpl; rewrite E in Hl; exact Hl|]. right. exists tid. eexists _, clock. simpl. rewrite lookup_insert_eq.
      split_and!; [done|done| |done|by rewrite H0]. simpl. do 2 f_equal. by apply Z.ltb_lt.
    + exists u. simpl. split; [by rewrite E in Hl|]. left. by exists clock, (0 <? r.1).
Qed.

(** A statement that leaves counts and locks alone. *)
Lemma still_keeps s tid f p t : lo_inv s -> lo_threads s !! tid = Some f -> fl_at f <> PRecord ->
  count_of k t = count_of k (lo_tables s) -> daily_of k t = daily_of k (lo_tables s) -> lock_of k t = lock_of k (lo_tables s) ->
  before_lock p = false -> (past_lock p = true -> past_lock (fl_at f) = true) ->
  (forall c, result_of p = Some c -> exists c', result_of (fl_at f) = Some c' /\ al_FailureCount c' = al_FailureCount c) ->
  keeps s tid f (mkFailing (fl_key f) (fl_now f) p (fl_locked f)) t.
Proof.
  intros I Hf Hp Hc Hd Hl Hb Hpast Hres. split; simpl; try by left.
  - done.
  - intros c H0 E Hr. left. destruct (Hres c Hr) as (c' & Hr' & <-). by eapply own_ticket.
  - by rewrite Hb.
  - intros c H0 E Hpp Hr HTc. destruct (Hres c Hr) as (c' & Hr' & E'). rewrite <- E' in HTc.
    destruct (li_locked _ I tid (al_FailureCount c') f) as (u & Hu & Hor); [by eapply own_ticket|done|by apply Hpast|done|].
    exists u. simpl. rewrite Hl. split; [done|]. destruct Hor as [?|(j & h & clock & Hj & Hk & Hlk & Hend & H00)]; [by left|right].
    destruct (decide (j = tid)) as [->|Hne].
    + rewrite Hf in Hj. injection Hj as <-. exists tid. eexists _, clock. simpl. rewrite lookup_insert_eq. by split_and!.
    + exists j, h, clock. simpl. by rewrite lookup_insert_ne.
Qed.

Lemma effect_keeps s tid f t p l : lo_inv s -> lo_threads s !! tid = Some f -> effect f (lo_tables s) t p l ->
  keeps s tid f (mkFailing (fl_key f) (fl_now f) p l) t.
Proof.
  intros I Hf He. remember (lo_tables s) as t0 eqn:Et.
  destruct He as [t0 row t1 Hp Hr|t0 c clock Hp|t0 c Hp _|t0 c Hp _]; subst t0.
  - by apply record_keeps.
  - by apply lock_keeps.
  - destruct (captcha_same k (fl_key f) (to_int32 (wrap64 (lc_CaptchaAfterLockouts cfg * T))) (lo_tables s)) as (Hc & Hd & Hl).
    apply still_keeps; try done; [by rewrite Hp..|]. intros c' [= <-]. rewrite Hp. exists c. split; [done|]. by destruct (0 <? _).
  - apply still_keeps; try done; [by rewrite Hp..|]. intros c' [= <-]. rewrite Hp. by exists c.
Qed.

(** A request that fails, with the effect of its statement or without. *)
Lemma failed_keeps s tid f p l t : keeps s tid f (mkFailing (fl_key f) (fl_now f) p l) t ->
  keeps s tid f (mkFailing (fl_key f) (fl_now f) PFailed l) t.
Proof. intros [H1 H2 H3 H4 H5 H6 H7]. split; simpl in *; done. Qed.

Lemma error_keeps s tid f : lo_inv s -> lo_threads s !! tid = Some f ->
  keeps s tid f (mkFailing (fl_key f) (fl_now f) PFailed (fl_locked f)) (lo_tables s).
Proof. intros I Hf. split; simpl; try done; by left. Qed.

Lemma lo_inv_call s tid key now : lo_inv s -> lo_threads s !! tid = None ->
  lo_inv (mkLo (lo_tables s) (<[tid := mkFailing key now PRecord None]> (lo_threads s))).
Proof.
  intros I Hfree. set (g := mkFailing key now PRecord None).
  assert (forall i f, lo_threads s !! i = Some f -> (<[tid := g]> (lo_threads s)) !! i = Some f) as Hold.
  { intros i f Hi. rewrite lookup_insert_ne; [done|]. intros <-. congruence. }
  assert (forall i n, ticket (mkLo (lo_tables s) (<[tid := g]> (lo_threads s))) i n -> ticket s i n) as Ht.
  { intros i n [(-> & _ & _ & c & [=] & _)|[_ Ht]]%ticket_insert. done. }
  split; simpl.
  - eapply request_base; [apply I|]. by apply lo_call.
  - apply I.
  - intros i n Hi%Ht. by apply (li_ticket _ I i).
  - intros i j n Hi%Ht Hj%Ht. by apply (li_distinct _ I i j n).
  - intros i f0 H0. destruct (li_threads _ I i f0 H0) as (h & Hh & Hx). exists h. split; [by apply Hold|done].
  - intros i n h Hi%Ht Hh Hp HTn. destruct Hi as (H00 & h' & c & Hh' & Hi). pose proof (Hold i h' Hh') as E. simpl in Hh.
    rewrite E in Hh. injection Hh as <-. destruct (li_locked _ I i n h') as (u & Hu & Hor); [split; [done|by exists h', c]|done..|].
    exists u. split; [done|]. destruct Hor as [?|(j & w & clock & Hj & Hw)]; [by left|right]. exists j, w, clock. split; [by apply Hold|done].
Qed.

Lemma lo_inv_step s s' : lo_inv s -> lo_quiet k s s' -> lo_inv s'.
Proof.
  intros I [Hr|[Hm Hrow]].
  - pose proof (request_base s s' (li_base _ I) Hr) as B. revert I B.
    destruct Hr as [s tid key now Hfree|s tid f t p l Hf E|s tid f Hf _|s tid f t p l Hf E]; intros I B; unfold continue in *.
    + by apply lo_inv_call.
    + eapply inv_move; [done..|]. by apply effect_keeps.
    + eapply inv_move; [done..|]. by apply error_keeps.
    + eapply inv_move; [done..|]. eapply failed_keeps. by apply effect_keeps.
  - assert (lo_threads s' = lo_threads s) as Hth by (by destruct Hm).
    assert (count_of k (lo_tables s') = count_of k (lo_tables s) /\ daily_of k (lo_tables s') = daily_of k (lo_tables s) /\
            lock_of k (lo_tables s') = lock_of k (lo_tables s)) as (Ec & Ed & El) by (unfold count_of, daily_of, lock_of; by rewrite Hrow).
    pose proof (maintain_base s s' (li_base _ I) Hm) as B.
    assert (forall i n, ticket s' i n -> ticket s i n) as Ht by (unfold ticket; by rewrite Hth).
    split; rewrite ?Ec, ?Ed, ?Hth; try apply I; [done|..].
    + intros i n Hi%Ht. by apply (li_ticket _ I i).
    + intros i j n Hi%Ht Hj%Ht. by apply (li_distinct _ I i j n).
    + intros i n f Hi%Ht Hf Hp HTn. destruct (li_locked _ I i n f Hi Hf Hp HTn) as (u & Hu & Hor). exists u. rewrite El. split; [done|].
      unfold set_since in *. by rewrite Hth.
Qed.

Lemma lo_inv_since s : rtc (lo_quiet k) s0 s -> lo_inv s.
Proof.
  revert s. apply (rtc_ind_r (R := lo_quiet k) (fun s => lo_inv s) s0); [apply lo_inv_start|].
  intros s s' _ Hs I. by eapply lo_inv_step.
Qed.

(** *** Distinct numbers reach the threshold *)

Lemma below_bounded (l : list nat) (n : nat) : NoDup l -> (forall x, x ∈ l -> (x < n)%nat) -> (length l <= n)%nat.
Proof.
  intros Hnd Hl. rewrite <- (length_seq n 0). apply submseteq_length, NoDup_submseteq; [done|]. intros x Hx%Hl. apply elem_of_seq. lia.
Qed.

Definition number (s : LoState) (tid : nat) : Z :=
  match lo_threads s !! tid with Some f => match result_of (fl_at f) with Some c => al_FailureCount c | None => 0 end | None => 0 end.
Lemma ticket_number s tid n : ticket s tid n -> number s tid = n.
Proof. intros (_ & f & c & Hf & _ & Hc & <-). unfold number. by rewrite Hf, Hc. Qed.

Lemma threshold_reached s (tids : list nat) : lo_inv s -> NoDup tids -> Z.of_nat (length tids) = T ->
  (forall i, i ∈ tids -> exists n, ticket s i n) -> exists i, i ∈ tids /\ F0 + T <= number s i.
Proof.
  intros I Hnd Hlen Ht. destruct (decide (Exists (fun i => F0 + T <= number s i) tids)) as [He|Hno]; [by apply Exists_exists|exfalso].
  assert (forall i, i ∈ tids -> ticket s i (number s i) /\ F0 < number s i < F0 + T) as Hall.
  { intros i Hi. destruct (Ht i Hi) as (n & Hn). rewrite (ticket_number _ _ _ Hn). split; [done|]. split; [by apply (li_ticket _ I i)|].
    apply Z.lt_nge. intros Hle. apply Hno, Exists_exists. exists i. by rewrite (ticket_number _ _ _ Hn). }
  pose (index i := Z.to_nat (number s i - F0 - 1)).
  assert (length (index <$> tids) <= Z.to_nat (T - 1))%nat as Hb; [|rewrite length_fmap in Hb; lia].
  apply below_bounded.
  - clear Hlen Hno Ht. induction Hnd as [|i l Hi Hnd IH]; [constructor|]. rewrite fmap_cons. constructor; [|apply IH; intros j Hj; apply Hall; by right].
    intros (j & E & Hj)%list_elem_of_fmap. unfold index in E. destruct (Hall i ltac:(by left)) as [Hti Hbi]. destruct (Hall j ltac:(by right)) as [Htj Hbj].
    assert (number s i = number s j) as En by lia. rewrite En in Hti. apply Hi. by rewrite (li_distinct _ I i j _ Hti Htj).
  - intros x (i & -> & Hi)%list_elem_of_fmap. unfold index. destruct (Hall i Hi). lia.
Qed.
End since.

(** *** Refusal *)

Lemma locked_refused {W} (drv : Driver W) (log_audit : string -> string -> W -> W) id ip (now u : time) d : healthy drv -> text_ok (lockout_key id ip) = true ->
  lock_of (lockout_key id ip) (db_tables d) = Some u -> now < u ->
  exists res, (Pg_Check drv cfg log_audit id ip now d).1 = Ok res /\ rl_Allowed (arl_Result res) = false.
Proof.
  intros Hh Htx Hl Hu. unfold Pg_Check, mbind, st_bind, rs_wrap, LockoutPg_Get, mbind, st_bind, attempt, sql_GetAuthLockout.
  match goal with |- context [query drv ?f d] => destruct (query_healthy drv f d Hh) as (w & ->) end.
  unfold lock_of, row_of in Hl. unfold with_text. rewrite Htx, one_row_find. destruct (find _ _) as [r|]; [|done]. simpl in *.
  unfold AuthLockout_IsLockedAt. simpl. rewrite Hl. unfold time_Before. rewrite (proj2 (Z.ltb_lt now u) Hu). simpl. eauto.
Qed.

(** C27: The lockout cannot be bypassed by concurrency.  Start from any state that requests,
    clears and resets have led to, where an earlier lock of the key may have run out.
    However the requests that record failures interleave from there, whichever of them
    fail, and whatever happens to other keys: once as many requests for a key as the
    threshold have begun and reported success, without the key's row having been cleared
    or reset in between, the key is locked: until the end of a lock that was set since,
    or of an older one that was not over yet on the server's clock when one of these
    requests came to lock.  Sign-ins on the key are refused until then.  (A request that
    reports an error may have been counted without having locked.) *)
Theorem lockout_not_bypassed (s0 s : LoState) (tids : list nat) (identifier ip : string) :
  let k := lockout_key identifier ip in
  1 <= T <= 1000 -> lo_reach s0 -> rtc (lo_quiet k) s0 s -> NoDup tids -> Z.of_nat (length tids) = T ->
  (forall i, i ∈ tids -> lo_threads s0 !! i = None /\
     exists f c, lo_threads s !! i = Some f /\ fl_key f = k /\ fl_at f = PDone c) ->
  exists u, lock_of k (lo_tables s) = Some u /\
    ((exists i f clock b, i ∈ tids /\ lo_threads s !! i = Some f /\ fl_locked f = Some (clock, b) /\ clock <= u) \/
     (exists tid f clock, lo_threads s !! tid = Some f /\ fl_key f = k /\ u = ts (lock_end (fl_now f)) /\
        fl_locked f = Some (clock, true) /\ forall f0, lo_threads s0 !! tid = Some f0 -> fl_locked f0 = None)) /\
    forall W (drv : Driver W) log_audit w now, healthy drv -> text_ok k = true -> now < u ->
      exists res, (Pg_Check drv cfg log_audit identifier ip now (mkDB (lo_tables s) w)).1 = Ok res /\ rl_Allowed (arl_Result res) = false.
Proof.
  intros k HT H0 Hs Hnd Hlen Hdone. pose proof (lo_base_reach s0 H0) as B0.
  pose proof (lo_inv_since k s0 B0 HT s Hs) as I.
  assert (forall i, i ∈ tids -> exists n, ticket k s0 s i n) as Htick.
  { intros i (Hn & f & c & Hf & Hk & Hp)%Hdone. exists (al_FailureCount c). split; [done|]. exists f, c. by rewrite Hp. }
  destruct (threshold_reached k s0 HT s tids I Hnd Hlen Htick) as (i & Hi & HTi). destruct (Hdone i Hi) as (_ & f & c & Hf & Hk & Hp).
  destruct (Htick i Hi) as (n & Hn). rewrite (ticket_number _ _ _ _ _ Hn) in HTi.
  destruct (li_locked _ _ _ I i n f Hn Hf) as (u & Hu & Hor); [by rewrite Hp|done|].
  exists u. split_and!; [done| |].
  - destruct Hor as [(clock & b & Hl & Hle)|(tid & g & clock & Hg & Hkg & Hlg & Hend & H00)].
    + left. by exists i, f, clock, b.
    + right. by exists tid, g, clock.
  - intros W drv log_audit w now Hh Htx Hlt. by apply (locked_refused drv log_audit identifier ip now u).
Qed.
(** *** The service runs these steps *)

Section runs_steps.
Context {W : Type} (drv : Driver W) (s0 : LoState) (tid : nat) (key : string) (now : time).

Definition reaches (d : DB W RateTables) (p : at_stmt) : Prop :=
  exists s l, rtc lo_step s0 s /\ lo_tables s = db_tables d /\ lo_threads s = <[tid := mkFailing key now p l]> (lo_threads s0).

Lemma reaches_step (d : DB W RateTables) p l s (d' : DB W RateTables) p' l' : rtc lo_step s0 s -> lo_tables s = db_tables d ->
  lo_threads s = <[tid := mkFailing key now p l]> (lo_threads s0) ->
  lo_request s (continue tid (mkFailing key now p l) p' l' (db_tables d') s) -> reaches d' p'.
Proof.
  intros Hr Ht Hth Hs. exists (continue tid (mkFailing key now p l) p' l' (db_tables d') s), l'. split_and!; [|done|].
  - eapply rtc_r; [done|]. by left.
  - unfold continue. simpl. by rewrite Hth, insert_insert_eq.
Qed.

(** One statement of a request. *)
Lemma reaches_stmt {A B} (g : A -> B) (f : time -> RateTables -> result dberr (A * RateTables)) m1 m2 (d d' : DB W RateTables) r p (next : B -> at_stmt) : reaches d p ->
  (forall x, p <> PDone x) ->
  (forall clock a t l, f clock (db_tables d) = Ok (a, t) -> exists l', effect (mkFailing key now p l) (db_tables d) t (next (g a)) l') ->
  rs_wrap m1 (a ← wrapped m2 (stmt drv f); mret (g a)) d = (r, d') ->
  reaches d' (match r with Ok a => next a | Err _ => PFailed end).
Proof.
  intros (s & l & Hr & Ht & Hth) Hp Hf. unfold rs_wrap, mbind, st_bind, wrapped. destruct (stmt drv f d) as [q d1] eqn:E.
  assert (lo_threads s !! tid = Some (mkFailing key now p l)) as Hs by (rewrite Hth; apply lookup_insert_eq).
  apply stmt_cases in E as (clock & _ & [(m & -> & E)|[(m & a & t & Ef & -> & E)|[(e & _ & -> & E)|(a & t & Ef & -> & E)]]]);
    intros [= <- <-].
  - eapply (reaches_step d p l s); [done..|]. rewrite E, <- Ht. by apply (lo_error _ _ (mkFailing key now p l)).
  - destruct (Hf clock a t l Ef) as [l' He]. eapply (reaches_step d p l s); [done..|]. apply (lo_lost _ _ _ _ (next (g a)) l'); [done|]. rewrite Ht, E. exact He.
  - eapply (reaches_step d p l s); [done..|]. rewrite E, <- Ht. by apply (lo_error _ _ (mkFailing key now p l)).
  - destruct (Hf clock a t l Ef) as [l' He]. eapply (reaches_step d p l s); [done..|]. apply (lo_run _ _ _ _ _ l'); [done|]. rewrite Ht, E. exact He.
Qed.

Lemma text_effect {A B} (x : A * B) a b : with_text key (Ok x) = Ok (a, b) -> a = x.1 /\ b = x.2.
Proof. by intros <-%with_text_Ok. Qed.

Lemma reaches_lock log_audit identifier c d r d' : reaches d (PLock c) ->
  (let lockedUntil := time_Add now (lc_HardLockDuration cfg) in
   applied ← rs_wrap "failed to apply hard lock" (LockoutPg_ApplyHardLockAtomic drv key lockedUntil T);
   if (applied : bool) then rs_LogAudit log_audit "auth_lockout_triggered" identifier;; mret (locked_record c lockedUntil) else mret c) d = (r, d') ->
  reaches d' (match r with Ok c' => PCaptcha c' | Err _ => PFailed end).
Proof.
  intros Hr. cbv zeta. unfold mbind at 1, st_bind at 1. destruct (rs_wrap _ _ d) as [q d1] eqn:E.
  unfold LockoutPg_ApplyHardLockAtomic, ApplyHardLock in E.
  apply (reaches_stmt _ _ _ _ _ _ _ (PLock c) (fun b => PCaptcha (if (b : bool) then locked_record c (lock_end now) else c)) Hr) in E; [|done|].
  - destruct q as [[|]|e]; intros [= <- <-]; done.
  - intros clock a t l [-> ->]%text_effect. eexists. by apply (eff_lock (mkFailing key now (PLock c) l)).
Qed.

Lemma reaches_captcha c d r d' : reaches d (PCaptcha c) ->
  (if AuthLockout_ShouldRequireCaptcha c (lc_CaptchaAfterLockouts cfg) && negb (al_RequiresCaptcha c) then
    applied ← rs_wrap "failed to set captcha requirement"
      (LockoutPg_SetRequiresCaptchaAtomic drv key (wrap64 (lc_CaptchaAfterLockouts cfg * T)));
    mret (if (applied : bool) then AuthLockout_MarkRequiresCaptcha c else c)
  else mret c) d = (r, d') ->
  reaches d' (match r with Ok c' => PDone c' | Err _ => PFailed end).
Proof.
  intros Hr. destruct (_ && _) eqn:Ed.
  - unfold mbind at 1, st_bind at 1. destruct (rs_wrap _ _ d) as [q d1] eqn:E. unfold LockoutPg_SetRequiresCaptchaAtomic, SetRequiresCaptcha in E.
    apply (reaches_stmt _ _ _ _ _ _ _ (PCaptcha c) (fun b => PDone (if (b : bool) then AuthLockout_MarkRequiresCaptcha c else c)) Hr) in E; [|done|].
    + destruct q as [b|e]; intros [= <- <-]; done.
    + intros clock a t l [-> ->]%text_effect. eexists. by apply (eff_captcha (mkFailing key now (PCaptcha c) l)).
  - intros [= <- <-]. destruct Hr as (s & l & Hr & Ht & Hth). eapply (reaches_step d (PCaptcha c) l s); [done..|].
    apply lo_run; [rewrite Hth; apply lookup_insert_eq|]. rewrite Ht. by apply (eff_no_captcha (mkFailing key now (PCaptcha c) l)).
Qed.

(** A call of the service is a run of the steps of one request. *)
Lemma record_runs_steps log_audit identifier d r d' : reaches d PRecord ->
  recordFailureAtomic drv cfg log_audit key identifier now d = (r, d') -> reaches d' (match r with Ok c => PDone c | Err _ => PFailed end).
Proof.
  intros Hr. unfold recordFailureAtomic. unfold mbind at 1, st_bind at 1. destruct (rs_wrap _ _ d) as [q d1] eqn:E.
  unfold LockoutPg_RecordFailureAtomic, sql_RecordFailureAtomic in E.
  apply (reaches_stmt _ _ _ _ _ _ _ PRecord (fun c => if AuthLockout_ShouldHardLock c T then PLock c else PCaptcha c) Hr) in E;
    [|done|intros clock a t l Ha; eexists; by apply (eff_record (mkFailing key now PRecord l))].
  destruct q as [c|e]; [|by intros [= <- <-]]. destruct (AuthLockout_ShouldHardLock c T).
  - unfold mbind at 1, st_bind at 1. match goal with |- context [let '(r, s') := ?m d1 in _] => destruct (m d1) as [q2 d2] eqn:E2 end.
    apply reaches_lock in E2; [|done]. destruct q2 as [c2|e]; [|by intros [= <- <-]]. by apply reaches_captcha.
  - by apply reaches_captcha.
Qed.

(** Clearing and resetting are steps too, or change nothing. *)
Lemma clear_runs_step log_audit identifier ip d r d' th : Pg_Clear drv log_audit identifier ip d = (r, d') ->
  db_tables d' = db_tables d \/ lo_maintain (mkLo (db_tables d) th) (mkLo (db_tables d') th).
Proof.
  unfold Pg_Clear, rs_wrap, LockoutPg_Clear, DeleteAuthLockout, mbind, st_bind, wrapped, rs_LogAudit.
  destruct (stmt drv _ d) as [q d1] eqn:E.
  assert (db_tables d1 = db_tables d \/ db_tables d1 = clear_rows (lockout_key identifier ip) (db_tables d)) as Ht.
  { apply stmt_cases in E as (clock & _ & [(m & -> & E)|[(m & a & t & Ef & -> & E)|[(e & _ & -> & E)|(a & t & Ef & -> & E)]]]);
      [by left| |by left|]; rewrite E; apply with_text_Ok in Ef; simplify_eq; by right. }
  assert (db_tables d' = db_tables d1 -> db_tables d' = db_tables d \/ lo_maintain (mkLo (db_tables d) th) (mkLo (db_tables d') th)) as Hd.
  { intros ->. destruct Ht as [->|Ht]; [by left|right]. rewrite Ht. apply (lo_clear (mkLo (db_tables d) th)). }
  destruct q as [a|e]; intros [= <- <-]; by apply Hd.
Qed.

Lemma reset_runs_step (rows : time -> RateTables -> RateTables) p1 p2 b c sum cutoff d r d' :
  inTx drv (plain_tx_error b) (plain_tx_error c)
    (total ← wrapped p1 (query drv (fun t => Ok (sum t)));
     wrapped p2 (stmt drv (fun _ t => Ok (tt, rows cutoff t)));; mret (TxCommit (total : Z))) d = (r, d') ->
  db_tables d' = db_tables d \/ db_tables d' = rows cutoff (db_tables d).
Proof.
  intros E. apply (runs_inTx drv False _ _ _ (fun t => (sum t, rows cutoff t))) in E as [[(e & _ & _ & [?|?])|[_ ?]] _];
    [by left|by right|by right|intros; infra|intros; infra|done|].
  eapply runs_ext.
  - refine (runs_bind _ _ _ _ _ _ _); [apply (runs_query _ _ _ _ sum); [by intros t a [= <-]|done]|intros total].
    refine (runs_bind _ _ _ _ _ _ _); [apply (runs_stmt _ _ _ _ (fun t => (tt, rows cutoff t))); [by intros t x [= <-]|done]|intros ?; apply runs_ret].
  - done.
Qed.

Lemma reset_count_runs_step cutoff d r d' th : LockoutPg_ResetFailureCount drv cutoff d = (r, d') ->
  db_tables d' = db_tables d \/ lo_maintain (mkLo (db_tables d) th) (mkLo (db_tables d') th).
Proof.
  intros [?|E]%reset_runs_step; [by left|right]. rewrite E. apply (lo_reset_count (mkLo (db_tables d) th)).
Qed.
Lemma reset_daily_runs_step cutoff d r d' th : LockoutPg_ResetDailyFailures drv cutoff d = (r, d') ->
  db_tables d' = db_tables d \/ lo_maintain (mkLo (db_tables d) th) (mkLo (db_tables d') th).
Proof.
  intros [?|E]%reset_runs_step; [by left|right]. rewrite E. apply (lo_reset_daily (mkLo (db_tables d) th)).
Qed.
End runs_steps.
End lockout.


(** ** Examples *)

Module RateSqlExample.
Import PgExample.

Definition cfg : AuthLockoutConfig := mkLockoutCfg 5 (15 * Minute) 2 (15 * Minute) 3 (250 * Millisecond).
Definition k : string := lockout_key "alice@example.com" "10.0.0.1".

Definition call (tid : nat) (now : time) (s : LoState) : LoState :=
  if decide (lo_threads s !! tid = None) then mkLo (lo_tables s) (<[tid := mkFailing k now PRecord None]> (lo_threads s)) else s.
(** The next statement of a request, served at the given time of the server. *)
Definition run (clock : time) (tid : nat) (s : LoState) : LoState :=
  match lo_threads s !! tid with
  | None => s
  | Some f =>
      match fl_at f with
      | PRecord =>
          match record_failure_rows (fl_key f) (fl_now f) (lo_tables s) with
          | Ok (row, t) => continue tid f (if AuthLockout_ShouldHardLock (toAuthLockout row) (lc_HardLockThreshold cfg) then PLock (toAuthLockout row) else PCaptcha (toAuthLockout row)) (fl_locked f) t s
          | Err _ => s
          end
      | PLock c =>
          let r := apply_lock_rows (fl_key f) (lock_end cfg (fl_now f)) (to_int32 (Z.min 1000 (lc_HardLockThreshold cfg))) clock (lo_tables s) in
          continue tid f (PCaptcha (if 0 <? r.1 then locked_record c (lock_end cfg (fl_now f)) else c)) (Some (clock, 0 <? r.1)) r.2 s
      | PCaptcha c => if AuthLockout_ShouldRequireCaptcha c (lc_CaptchaAfterLockouts cfg) && negb (al_RequiresCaptcha c) then s else continue tid f (PDone c) (fl_locked f) (lo_tables s) s
      | _ => s
      end
  end.

Definition steps (s s' : LoState) : Prop := s' = s \/ lo_request cfg s s'.
Lemma call_steps tid now s : steps s (call tid now s).
Proof. unfold call. case_decide; [right; by apply lo_call|by left]. Qed.
Lemma run_steps clock tid s : steps s (run clock tid s).
Proof.
  unfold run. destruct (lo_threads s !! tid) as [f|] eqn:Hf; [|by left]. destruct (fl_at f) eqn:Hp; try by left.
  - destruct (record_failure_rows _ _ _) as [[row t]|e] eqn:E; [|by left]. right. apply lo_run; [done|]. by constructor.
  - right. apply lo_run; [done|]. by constructor.
  - destruct (_ && _) eqn:E; [by left|]. right. apply lo_run; [done|]. by constructor.
Qed.
Lemma reach_steps s s' : lo_reach cfg s -> steps s s' -> lo_reach cfg s'.
Proof. intros Hr [->|Hs]; [done|]. eapply rtc_r; [done|]. by left. Qed.
Lemma quiet_steps s0 s s' : rtc (lo_quiet cfg k) s0 s -> steps s s' -> rtc (lo_quiet cfg k) s0 s'.
Proof. intros Hr [->|Hs]; [done|]. eapply rtc_r; [done|]. by left. Qed.

(** Two failures whose statements alternate lock the key. *)
Definition interleaved : LoState :=
  run 0 0 (run 0 1 (run 0 1 (run 0 0 (run 0 1 (run 0 0 (call 1 20000 (call 0 10000 lo_start))))))).
(** The clean-up resets the counts; the lock has run out an hour later. *)
Definition cleaned : LoState :=
  let t := reset_daily_rows Hour (reset_count_rows Hour (lo_tables interleaved)) in mkLo t (lo_threads interleaved).
(** Two more failures lock the key again. *)
Definition locked_again : LoState :=
  let c := Hour in
  run c 2 (run c 3 (run c 3 (run c 2 (run c 3 (run c 2 (call 3 (Hour + 20000) (call 2 (Hour + 10000) cleaned))))))).

Lemma interleaved_reach : lo_reach cfg interleaved.
Proof. unfold interleaved. repeat first [apply rtc_refl | eapply reach_steps; [|first [apply run_steps | apply call_steps]]]. Qed.

Lemma cleaned_reach : lo_reach cfg cleaned.
Proof.
  eapply rtc_r; [|right; apply (lo_reset_daily (mkLo (reset_count_rows Hour (lo_tables interleaved)) (lo_threads interleaved)))].
  eapply rtc_r; [exact interleaved_reach|]. right. apply (lo_reset_count interleaved).
Qed.

Lemma lockout_not_bypassed_witness :
  lock_of k (lo_tables cleaned) = Some (ts (lock_end cfg 20000)) /\ ts (lock_end cfg 20000) < Hour /\
  exists u, lock_of k (lo_tables locked_again) = Some u /\ Hour < u.
Proof.
  split; [vm_compute; reflexivity|]. split; [vm_compute; reflexivity|].
  destruct (lockout_not_bypassed cfg cleaned locked_again [2; 3]%nat "alice@example.com" "10.0.0.1") as (u & Hu & _).
  - done.
  - exact cleaned_reach.
  - unfold locked_again. repeat first [apply rtc_refl | eapply quiet_steps; [|first [apply run_steps | apply call_steps]]].
  - by apply (bool_decide_unpack _).
  - done.
  - intros i Hi. assert (i = 2%nat \/ i = 3%nat) as [-> | ->] by set_solver; split; vm_compute; eauto 10.
  - exists u. split; [exact Hu|]. vm_compute in Hu. injection Hu as <-. vm_compute. reflexivity.
Defined.

Definition no_parse (s : string) : res time := Err (EOther s).
Definition bcall (now : time) : BCall := mkBCall "k" 1 2 (60 * Second) (now * Second).

Lemma pg_bucket_limit_witness :
  (forall t, admitted_cost (in_span (60 * Second) t) (bucket_run (driver 0) no_parse no_parse "k" [bcall 1; bcall 2] ([], mkDB (mkRT [] [] [] [] []) tt)).1 <= 2) /\
  (BucketPg_AllowN (driver 0) no_parse no_parse (3 * Second) "k" 1 2 (60 * Second) (bucket_run (driver 0) no_parse no_parse "k" [bcall 1; bcall 2] ([], mkDB (mkRT [] [] [] [] []) tt)).2).1
    = Ok (mkRLR false false 2 0 (61 * Second) 58).
Proof.
  split; [|by vm_compute].
  apply (pg_bucket_limit (driver 0) (ts_mono) no_parse no_parse "k" 2 (60 * Second) ltac:(lia) ltac:(done) tt 0 [bcall 1; bcall 2] (bcall 3)); [|done|by vm_compute].
  repeat constructor; done.
Defined.

(** Costs above 1000 are stored as 1000: two calls of cost 2000 are both admitted under
    a limit of 3000 in one window. *)
Definition costly (now : time) : BCall := mkBCall "k" 2000 3000 (60 * Second) (now * Second).
Theorem pg_bucket_undercounts :
  admitted_cost (in_span (60 * Second) (2 * Second))
    (bucket_run (driver 0) no_parse no_parse "k" [costly 1; costly 2] ([], mkDB (mkRT [] [] [] [] []) tt)).1 = 4000.
Proof. vm_compute. reflexivity. Qed.

Lemma ts_second n : ts (n * Second) = n * Second.
Proof. simpl. change Second with (1000000 * 1000). by rewrite Z.mul_assoc, Z.div_mul. Qed.

Lemma pg_throttle_limit_witness :
  admitted_at 1 (throttle_pg_run (driver 0) 2 100 [Second; Second; Second] ([], mkDB (mkRT [] [] [] [] []) tt)).1 <= 2 /\
  admitted_at Second (throttle_pg_run (driver 0) 2 100 [Second; Second; Second] ([], mkDB (mkRT [] [] [] [] []) tt)).1 = 2.
Proof.
  split; [|by vm_compute].
  apply (pg_throttle_limit (driver 0) ts_second (conj eq_refl eq_refl) 2 100 ltac:(lia) tt 0); done.
Defined.
End RateSqlExample.
