(* ===== verification/VcSql.v ===== *)
(** * The SQL credential store
    [internal/evidence/vc/store/store_postgres.go] and the queries of
    [internal/evidence/vc/store/sqlc/credentials.sql.go]

    The store of [VC] when a database is configured.  The claims are a JSON column; for
    age credentials the two claims also have columns of their own, and only these are
    read back.  A row goes with the user it is about.  [encoding/json] on claims, what
    the driver hands out for a JSON column read into an interface and the order in
    which the server scans a table are arguments. *)
From S2P Require Import Prelude Errors Registry VC SqlDb.
Open Scope Z_scope.

(** A row of [vc_credentials]. *)
Record VcCredential := mkVcRow {
  vr_ID : string;
  vr_Type : string;
  vr_SubjectID : uuid;
  vr_Issuer : string;
  vr_IssuedAt : time;
  vr_Claims : string;
  vr_IsOver18 : option bool;
  vr_VerifiedVia : option string;
}.

(** What a scan into an [interface{}] gives. *)
Inductive RawClaims :=
| RawNil
| RawBytes (b : string)
| RawString (s : string)
| RawMessage (b : string)
| RawOther (typ : string).

(** A row of the two queries, as the store passes it on. *)
Record credentialRow := mkCredRow {
  crw_ID : string;
  crw_Type : string;
  crw_SubjectID : uuid;
  crw_Issuer : string;
  crw_IssuedAt : time;
  crw_Claims : RawClaims;
  crw_IsOver18 : option bool;
  crw_VerifiedVia : option string;
}.

Record VcTables := mkVcT { vt_users : list uuid; vt_credentials : list VcCredential }.

(** [json.Marshal] and [json.Unmarshal] on claims; null reads as no claims. *)
Class ClaimsJson := {
  claims_Marshal : gmap string goany -> res string;
  claims_Unmarshal : string -> res (gmap string goany);
}.

Section vcsql.
Context {W : Type} (drv : Driver W) `{!PgTypes, !ClaimsJson}.
Context (scan_any : string -> RawClaims) (scan_order : list VcCredential -> list VcCredential).

Abbreviation QV A := (ST (DB W VcTables) dberr A) (only parsing).
Abbreviation SV A := (ST (DB W VcTables) error A) (only parsing).

(** ** Queries *)

(** The columns selected: no claims for age credentials. *)
Definition selected (r : VcCredential) : credentialRow :=
  mkCredRow (vr_ID r) (vr_Type r) (vr_SubjectID r) (vr_Issuer r) (vr_IssuedAt r)
    (if bool_decide (vr_Type r = "AgeOver18") then RawNil else scan_any (vr_Claims r)) (vr_IsOver18 r) (vr_VerifiedVia r).

Definition GetCredentialByID (id : string) : QV credentialRow :=
  query drv (fun t => with_text id (
    match one_row (select_where (fun r => bool_decide (vr_ID r = id)) (vt_credentials t)) with
    | Ok r => Ok (selected r)
    | Err e => Err e
    end)).

(** [ORDER BY issued_at DESC LIMIT 1]: of equally recent rows, the first one scanned. *)
Fixpoint newest (l : list VcCredential) : option VcCredential :=
  match l with
  | [] => None
  | r :: l' =>
      match newest l' with
      | None => Some r
      | Some r' => if vr_IssuedAt r <? vr_IssuedAt r' then Some r' else Some r
      end
  end.

Definition GetCredentialBySubjectAndType (subject : uuid) (credType : string) : QV credentialRow :=
  query drv (fun t => with_text credType (
    match newest (select_where (fun r => bool_decide (vr_SubjectID r = subject) && bool_decide (vr_Type r = credType))
                    (scan_order (vt_credentials t))) with
    | Some r => Ok (selected r)
    | None => Err ErrNoRows
    end)).

Definition nullable_text (s : option string) : option string :=
  match s with Some v => if text_ok v then None else Some invalid_text | None => None end.

(** The widths of the columns and the reference to [users]. *)
Definition credential_refused (t : VcTables) (r : VcCredential) : option string :=
  constraints [varchar 64 (vr_ID r); varchar 64 (vr_Type r); varchar 255 (vr_Issuer r); nullable_text (vr_VerifiedVia r);
               refers_to (has (vt_users t) (vr_SubjectID r))].

Definition invalid_json : string := "22P02".

(** The row as the columns keep it. *)
Definition kept_row (arg : VcCredential) : option VcCredential :=
  match jsonb (vr_Claims arg) with
  | Some c => Some (mkVcRow (vr_ID arg) (vr_Type arg) (vr_SubjectID arg) (vr_Issuer arg) (ts (vr_IssuedAt arg)) c
                      (vr_IsOver18 arg) (vr_VerifiedVia arg))
  | None => None
  end.

Definition UpsertCredential (arg : VcCredential) : QV unit :=
  stmt drv (fun _ t =>
    match kept_row arg with
    | None => Err (PgError invalid_json)
    | Some r =>
        match credential_refused t r with
        | Some c => Err (PgError c)
        | None => Ok (tt, mkVcT (vt_users t) (upsert_row vr_ID r (vt_credentials t)))
        end
    end).

(** ** The store *)

(** A claim of another type, and an empty source, leave the column null. *)
Definition extractAgeOver18Claims (credential : CredentialRecord) : option bool * option string :=
  if negb (bool_decide (cred_Type credential = CredentialTypeAgeOver18)) then (None, None)
  else (match cred_Claims credential !! "is_over_18" with Some (AnyBool b) => Some b | _ => None end,
        match cred_Claims credential !! "verified_via" with
        | Some (AnyString v) => if str_empty v then None else Some v
        | _ => None
        end).

Definition credential_params (credential : CredentialRecord) (claimsBytes : string) : VcCredential :=
  let '(isOver18, verifiedVia) := extractAgeOver18Claims credential in
  mkVcRow (cred_ID credential) (cred_Type credential) (cred_Subject credential) (cred_Issuer credential)
    (cred_IssuedAt credential) claimsBytes isOver18 verifiedVia.

Definition VcPg_Save (credential : CredentialRecord) : SV unit :=
  match claims_Marshal (cred_Claims credential) with
  | Err e => st_fail (EWrap "marshal credential claims" e)
  | Ok claimsBytes => wrapped "save credential" (UpsertCredential (credential_params credential claimsBytes))
  end.

Definition Vc_parseClaims (raw : RawClaims) : res string :=
  match raw with
  | RawNil => Ok ""
  | RawBytes b => Ok b
  | RawString s => Ok s
  | RawMessage b => Ok b
  | RawOther typ => Err (EOther ("unexpected claims type: " +:+ typ))
  end.

Definition set_if {A} (key : string) (v : option A) (f : A -> goany) (m : gmap string goany) : gmap string goany :=
  match v with Some x => <[key := f x]> m | None => m end.

Definition toCredentialRecord (row : credentialRow) : res CredentialRecord :=
  claimsBytes ← Vc_parseClaims (crw_Claims row);
  claims ← (if str_empty claimsBytes then Ok ∅
            else match claims_Unmarshal claimsBytes with Ok m => Ok m | Err e => Err (EWrap "unmarshal credential claims" e) end);
  Ok (mkCred (crw_ID row) (crw_Type row) (crw_SubjectID row) (crw_Issuer row) (crw_IssuedAt row)
    (if bool_decide (crw_Type row = CredentialTypeAgeOver18)
     then set_if "verified_via" (match crw_VerifiedVia row with Some v => if str_empty v then None else Some v | None => None end) AnyString
            (set_if "is_over_18" (crw_IsOver18 row) AnyBool claims)
     else claims)).

Definition VcPg_FindByID (credentialID : string) : SV CredentialRecord :=
  row ← or_not_found (EVal ErrNotFound) "find credential by id" (GetCredentialByID credentialID);
  st_lift (toCredentialRecord row).

Definition VcPg_FindBySubjectAndType (subject : uuid) (credType : CredentialType) : SV CredentialRecord :=
  row ← or_not_found (EVal ErrNotFound) "find credential by subject and type" (GetCredentialBySubjectAndType subject credType);
  st_lift (toCredentialRecord row).

(** ** Histories *)

(** Saves, and what the user store does to the tables. *)
Inductive VcOp :=
| VoSave (c : CredentialRecord)
| VoUser (u : uuid)
| VoDeleteUser (u : uuid).

(** [ON DELETE CASCADE]. *)
Definition vc_op (op : VcOp) : SV unit :=
  match op with
  | VoSave c => VcPg_Save c
  | VoUser u => wrapped "save user" (stmt drv (fun _ t => Ok (tt, mkVcT (u :: vt_users t) (vt_credentials t))))
  | VoDeleteUser u => wrapped "delete user" (stmt drv (fun _ t =>
      Ok (tt, mkVcT (delete_where (fun x => bool_decide (x = u)) (vt_users t))
                (delete_where (fun r => bool_decide (vr_SubjectID r = u)) (vt_credentials t)))))
  end.

Definition vc_run (ops : list VcOp) (d : DB W VcTables) : DB W VcTables := foldl (fun d op => (vc_op op d).2) d ops.

(** The row a credential is kept as. *)
Definition kept_as (c : CredentialRecord) (r : VcCredential) : Prop :=
  exists b, claims_Marshal (cred_Claims c) = Ok b /\ kept_row (credential_params c b) = Some r.

Record vc_tables_ok (ops : list VcOp) (t : VcTables) : Prop := {
  vo_keyed : keyed vr_ID (vt_credentials t);
  vo_users : forall r, r ∈ vt_credentials t -> vr_SubjectID r ∈ vt_users t;
  vo_saved : forall r, r ∈ vt_credentials t -> exists c, VoSave c ∈ ops /\ kept_as c r;
}.

Lemma vc_op_keeps ops op : op ∈ ops -> st_keeps (fun d : DB W VcTables => vc_tables_ok ops (db_tables d)) (vc_op op) (fun _ => True).
Proof.
  intros Hop. destruct op as [c|u|u]; simpl; [unfold VcPg_Save; destruct (claims_Marshal _) as [b|e] eqn:Hb; [|apply keeps_fail]|..];
    apply keeps_wrapped, keeps_stmt; intros now t a t' [H1 H2 H3] Hf; simplify_eq.
  - destruct (kept_row _) as [r|] eqn:Hr; [|done]. destruct (credential_refused t r) eqn:Hc; simplify_eq.
    assert (vr_SubjectID r ∈ vt_users t) as Hu.
    { unfold credential_refused in Hc. by constraints_split. }
    destruct (upsert_row_spec vr_ID r _ H1) as (Hk & _ & Hin & _).
    split; simpl; [done|intros x [-> |?]%Hin; auto..]. exists c. split; [done|]. by exists b.
  - split; simpl; [done| |done]. intros r Hr. right. auto.
  - split; simpl; [by apply NoDup_fmap_filter| |]; intros r [Hp Hr]%list_elem_of_filter; [|auto].
    apply list_elem_of_filter. split; [done|auto].
Qed.

Lemma vc_run_ok all ops d : (forall op, op ∈ ops -> op ∈ all) -> vc_tables_ok all (db_tables d) -> vc_tables_ok all (db_tables (vc_run ops d)).
Proof.
  unfold vc_run. revert d. induction ops as [|op ops IH]; intros d Hsub Hd; simpl; [done|].
  apply IH; [set_solver|]. destruct (vc_op op d) as [r d'] eqn:E. apply (vc_op_keeps all op ltac:(set_solver) d r d' Hd E).
Qed.

Lemma newest_spec l : match newest l with
  | None => l = []
  | Some r => r ∈ l /\ forall x, x ∈ l -> vr_IssuedAt x <= vr_IssuedAt r
  end.
Proof.
  induction l as [|r l IH]; simpl; [done|]. destruct (newest l) as [r'|]; [|subst l; split; [by left|by intros x ->%list_elem_of_singleton]].
  destruct IH as [Hin Hall]. destruct (vr_IssuedAt r <? vr_IssuedAt r') eqn:E; bools; (split; [set_solver|]);
    intros x [-> |Hx]%elem_of_cons; try lia; pose proof (Hall x Hx); lia.
Qed.

(** ** What the store serves *)

(** The credential [x] is [c], with its time at the precision of the database; of an age
    credential the two claims are what they were. *)
Record serves (c x : CredentialRecord) : Prop := {
  sv_ID : cred_ID x = cred_ID c;
  sv_Type : cred_Type x = cred_Type c;
  sv_Subject : cred_Subject x = cred_Subject c;
  sv_Issuer : cred_Issuer x = cred_Issuer c;
  sv_IssuedAt : cred_IssuedAt x = ts (cred_IssuedAt c);
  sv_Claims : cred_Type c = CredentialTypeAgeOver18 ->
    AgeOver18ClaimsFromMap (cred_Claims x) = AgeOver18ClaimsFromMap (cred_Claims c);
}.

Lemma age_columns c : cred_Type c = CredentialTypeAgeOver18 ->
  let '(o, v) := extractAgeOver18Claims c in
  AgeOver18ClaimsFromMap (set_if "verified_via" (match v with Some v => if str_empty v then None else Some v | None => None end) AnyString
                            (set_if "is_over_18" o AnyBool ∅)) = AgeOver18ClaimsFromMap (cred_Claims c).
Proof.
  intros Ht. unfold extractAgeOver18Claims. rewrite bool_decide_eq_true_2 by done. simpl. unfold AgeOver18ClaimsFromMap.
  destruct (cred_Claims c !! "is_over_18") as [[s|b|s]|]; destruct (cred_Claims c !! "verified_via") as [[v|b'|v]|]; simpl;
    try (destruct (str_empty v) eqn:E; [apply bool_decide_eq_true in E as -> |simpl; rewrite E]; simpl);
    rewrite ?lookup_insert_eq, ?lookup_insert_ne, ?lookup_insert_eq, ?lookup_empty by done; done.
Qed.

Lemma kept_serves c r x : kept_as c r -> toCredentialRecord (selected r) = Ok x -> serves c x.
Proof.
  intros (b & _ & Hr) Hx. unfold kept_row in Hr. destruct (jsonb _) as [j|]; [|done]. simplify_eq.
  unfold toCredentialRecord, selected, credential_params in Hx. pose proof (age_columns c) as Hage.
  destruct (extractAgeOver18Claims c) as [o v]. simpl in Hx.
  apply result_bind_Ok in Hx as (cb & Hcb & Hx). apply result_bind_Ok in Hx as (cl & Hcl & Hx). injection Hx as <-.
  split; simpl; try done. intros Ht. rewrite bool_decide_eq_true_2 in Hcb |- * by done. simpl in Hcb. injection Hcb as <-.
  simpl in Hcl. injection Hcl as <-. by apply Hage.
Qed.

(** An age credential that is kept can be read. *)
Lemma age_row_reads c r : kept_as c r -> cred_Type c = CredentialTypeAgeOver18 -> exists x, toCredentialRecord (selected r) = Ok x.
Proof.
  intros (b & _ & Hr) Ht. unfold kept_row in Hr. destruct (jsonb _) as [j|]; [|done]. simplify_eq.
  unfold toCredentialRecord, selected, credential_params. destruct (extractAgeOver18Claims c) as [o v]. simpl. rewrite Ht. simpl. eauto.
Qed.

Lemma find_id_row id d x : (VcPg_FindByID id d).1 = Ok x ->
  exists r, r ∈ vt_credentials (db_tables d) /\ vr_ID r = id /\ toCredentialRecord (selected r) = Ok x.
Proof.
  unfold VcPg_FindByID, or_not_found, mbind, st_bind. destruct (GetCredentialByID id d) as [q d1] eqn:Hq.
  apply query_cases in Hq as [_ [(e & ->)| ->]]; [done|]. unfold with_text. destruct (text_ok id); [|done].
  destruct (one_row _) as [r|e] eqn:Ho; [|by destruct e]. apply one_row_in in Ho as [Hin Hb]. bools. simpl. eauto.
Qed.

Lemma find_newest_row u t d x : (forall l, scan_order l ≡ₚ l) -> (VcPg_FindBySubjectAndType u t d).1 = Ok x ->
  exists r, r ∈ vt_credentials (db_tables d) /\ vr_SubjectID r = u /\ vr_Type r = t /\ toCredentialRecord (selected r) = Ok x /\
    forall y, y ∈ vt_credentials (db_tables d) -> vr_SubjectID y = u -> vr_Type y = t -> vr_IssuedAt y <= vr_IssuedAt r.
Proof.
  intros Hperm. unfold VcPg_FindBySubjectAndType, or_not_found, mbind, st_bind.
  destruct (GetCredentialBySubjectAndType u t d) as [q d1] eqn:Hq.
  apply query_cases in Hq as [_ [(e & ->)| ->]]; [done|]. unfold with_text. destruct (text_ok t); [|done].
  match goal with |- context [newest ?l] => pose proof (newest_spec l) as Hn; destruct (newest l) as [r|] end; [|done].
  destruct Hn as [Hin Hall]. apply list_elem_of_filter in Hin as [Hb Hin]. rewrite Hperm in Hin. bools. simpl. intros Hx.
  exists r. split_and!; try done. intros y Hy Hu Ht. apply Hall, list_elem_of_filter. rewrite Hperm. split; [|done].
  by rewrite !bool_decide_eq_true_2.
Qed.

Lemma row_fields r x : toCredentialRecord (selected r) = Ok x ->
  cred_ID x = vr_ID r /\ cred_Type x = vr_Type r /\ cred_Subject x = vr_SubjectID r /\ cred_IssuedAt x = vr_IssuedAt r.
Proof.
  unfold toCredentialRecord. intros Hx. apply result_bind_Ok in Hx as (cb & _ & Hx). apply result_bind_Ok in Hx as (cl & _ & Hx).
  by injection Hx as <-.
Qed.

(** What is served loads as the credential that was saved. *)
Lemma served_loads c x : credential_ok c -> crd_credType c = CredentialTypeAgeOver18 -> time_IsZero (ts (crd_issuedAt c)) = false ->
  serves (ToModel c) x ->
  FromModel x = Ok (mkCredential (crd_id c) (crd_credType c) (crd_subject c) (crd_issuer c) (ts (crd_issuedAt c)) (crd_claims c) false).
Proof.
  intros [K1 K2 K3 _ _] Ht Hz [S1 S2 S3 S4 S5 S6]. simpl in *. unfold FromModel, NewIssuedAt, claimsFromMap. rewrite S5, Hz. simpl.
  unfold mbind, result_bind. rewrite S2, bool_decide_eq_true_2 by done. unfold Credential_New.
  rewrite S1, S3, S4, (S6 Ht), claims_round_trip, K1, K2, K3, Hz. done.
Qed.

Lemma saved_row c d : healthy drv -> keyed vr_ID (vt_credentials (db_tables d)) -> (VcPg_Save c d).1 = Ok tt ->
  exists r, kept_as c r /\ vr_ID r = cred_ID c /\ text_ok (vr_ID r) = true /\ r ∈ vt_credentials (db_tables (VcPg_Save c d).2) /\
    keyed vr_ID (vt_credentials (db_tables (VcPg_Save c d).2)).
Proof.
  intros Hh Hk. unfold VcPg_Save. destruct (claims_Marshal _) as [b|e] eqn:Hb; [|done]. unfold wrapped, UpsertCredential.
  match goal with |- context [stmt drv ?f d] => destruct (stmt_healthy drv f d Hh) as (n & w1 & ->) end.
  destruct (kept_row _) as [r|] eqn:Hr; [|done]. destruct (credential_refused _ r) eqn:Hc; [done|]. simpl. intros _.
  destruct (upsert_row_spec vr_ID r _ Hk) as (Hk' & Hin & _). exists r. split_and!; [by exists b| | |done..].
  2:{ unfold credential_refused in Hc. constraints_split. unfold varchar in *. by destruct (text_ok (vr_ID r)). }
  unfold kept_row, credential_params in Hr. destruct (extractAgeOver18Claims c), (jsonb _); by simplify_eq.
Qed.

Lemma found_row r x d : healthy drv -> keyed vr_ID (vt_credentials (db_tables d)) -> r ∈ vt_credentials (db_tables d) ->
  text_ok (vr_ID r) = true -> toCredentialRecord (selected r) = Ok x -> (VcPg_FindByID (vr_ID r) d).1 = Ok x.
Proof.
  intros Hh Hk Hin Htx Hx. unfold VcPg_FindByID, or_not_found, mbind, st_bind, GetCredentialByID.
  match goal with |- context [query drv ?f d] => destruct (query_healthy drv f d Hh) as (w2 & ->) end. unfold with_text. rewrite Htx.
  destruct (one_row _) as [y|e] eqn:Ho.
  - apply one_row_in in Ho as [Hy Hb]. bools. by rewrite (keyed_inj vr_ID _ y r Hk Hy Hin).
  - exfalso. unfold one_row, select_where in Ho. destruct (filter _ _) as [|y l] eqn:E; [|done].
    assert (r ∈ ([] : list VcCredential)) as Hn; [|by apply elem_of_nil in Hn].
    rewrite <- E. apply list_elem_of_filter. by rewrite bool_decide_eq_true_2.
Qed.

(** C32: Credentials in the database.  After any history of saves, new users and deleted
    users, with statements failing as they may: a credential found by its identifier was
    saved under that identifier, is about a user that still exists, and has the type,
    the subject, the issuer, the time (at the precision of the database) and, for an age
    credential, the claims it was saved with, so that no age claim is made up; the one
    found by subject and type is one of these and no other of the same subject and type
    is more recent.  An age credential that was saved is found again, when the database
    works, as the same credential. *)
Theorem pg_credentials_exact (ops : list VcOp) (w : W) (Hperm : forall l, scan_order l ≡ₚ l) :
  let d := vc_run ops (mkDB (mkVcT [] []) w) in
  (forall id x, (VcPg_FindByID id d).1 = Ok x ->
     exists c, VoSave c ∈ ops /\ cred_ID c = id /\ serves c x /\ cred_Subject x ∈ vt_users (db_tables d)) /\
  (forall u t x, (VcPg_FindBySubjectAndType u t d).1 = Ok x ->
     (exists c, VoSave c ∈ ops /\ serves c x) /\ matches u t x /\ u ∈ vt_users (db_tables d) /\
     forall id y, (VcPg_FindByID id d).1 = Ok y -> matches u t y -> cred_IssuedAt y <= cred_IssuedAt x) /\
  (forall c, healthy drv -> credential_ok c -> crd_credType c = CredentialTypeAgeOver18 -> time_IsZero (ts (crd_issuedAt c)) = false ->
     (VcPg_Save (ToModel c) d).1 = Ok tt ->
     exists x, (VcPg_FindByID (crd_id c) (VcPg_Save (ToModel c) d).2).1 = Ok x /\ serves (ToModel c) x /\
       FromModel x = Ok (mkCredential (crd_id c) (crd_credType c) (crd_subject c) (crd_issuer c) (ts (crd_issuedAt c)) (crd_claims c) false)).
Proof.
  cbv zeta. set (d := vc_run ops (mkDB (mkVcT [] []) w)).
  assert (vc_tables_ok ops (db_tables d)) as [Hk Hu Hs].
  { apply vc_run_ok; [done|]. split; [constructor|by intros r Hr%elem_of_nil..]. }
  split_and!.
  - intros id x (r & Hr & <- & Hx)%find_id_row. destruct (Hs r Hr) as (c & Hc & Hkc). destruct (row_fields r x Hx) as (F1 & _ & F3 & _).
    pose proof (kept_serves c r x Hkc Hx) as Hsv. exists c. split_and!; [done| |done|rewrite F3; auto].
    by rewrite <- (sv_ID _ _ Hsv).
  - intros u t x (r & Hr & <- & <- & Hx & Hall)%find_newest_row; [|done]. destruct (Hs r Hr) as (c & Hc & Hkc).
    destruct (row_fields r x Hx) as (_ & F2 & F3 & F4). split_and!; [eauto using kept_serves|done|auto|].
    intros id y (r' & Hr' & _ & Hy)%find_id_row [M1 M2]. destruct (row_fields r' y Hy) as (_ & G2 & G3 & G4).
    rewrite F4, G4. apply Hall; congruence.
  - intros c Hh Hok Ht Hz Hsave. destruct (saved_row (ToModel c) d Hh Hk Hsave) as (r & Hkr & Hid & Htx & Hin & Hk').
    destruct (age_row_reads (ToModel c) r Hkr Ht) as (x & Hx). pose proof (kept_serves _ r x Hkr Hx) as Hsv.
    exists x. split_and!; [|done|by apply served_loads]. simpl in Hid. rewrite <- Hid.
    by apply found_row.
Qed.

(** The other claims of an age credential are written but never read. *)
Lemma age_claims_dropped c r x : kept_as c r -> cred_Type c = CredentialTypeAgeOver18 -> toCredentialRecord (selected r) = Ok x ->
  forall k, k <> "is_over_18" -> k <> "verified_via" -> cred_Claims x !! k = None.
Proof.
  intros (b & _ & Hr) Ht Hx k K1 K2. unfold kept_row in Hr. destruct (jsonb _) as [j|]; [|done]. simplify_eq.
  unfold toCredentialRecord, selected, credential_params in Hx. destruct (extractAgeOver18Claims c) as [o v]. simpl in Hx.
  rewrite Ht in Hx. simpl in Hx. injection Hx as <-. simpl. unfold set_if.
  destruct o, v as [v|]; try destruct (str_empty v); rewrite ?lookup_insert_ne by done; by rewrite lookup_empty.
Qed.
End vcsql.

(** ** A history *)

Module VcSqlExample.
Import PgExample.
(** The claims of age credentials have columns of their own, so that any text will do. *)
#[local] Instance claims_json : ClaimsJson := {|
  claims_Marshal := fun _ => Ok "{}";
  claims_Unmarshal := fun _ => Ok ∅;
|}.

Definition cred : Credential := mkCredential "vc_1" CredentialTypeAgeOver18 7%N IssuerCredo 1700000000000000123 (mkClaims true "national_registry") false.
Definition older_cred : Credential := mkCredential "vc_0" CredentialTypeAgeOver18 7%N IssuerCredo 1600000000000000123 (mkClaims true "") false.
Definition start : DB unit VcTables := mkDB (mkVcT [] []) tt.
Abbreviation dr := (driver 1700000000000000000).
Abbreviation history := [VoUser 7%N; VoSave (ToModel older_cred); VoUser 8%N; VoDeleteUser 8%N].

Lemma pg_credentials_exact_witness :
  exists x, (VcPg_FindByID dr RawBytes "vc_1" (VcPg_Save dr (ToModel cred) (vc_run dr history start)).2).1 = Ok x /\
    FromModel x = Ok (mkCredential "vc_1" CredentialTypeAgeOver18 7%N IssuerCredo 1700000000000000000 (mkClaims true "national_registry") false).
Proof.
  destruct (pg_credentials_exact dr RawBytes (fun l => l) history tt (fun l => Permutation_refl l)) as (_ & _ & Hrt).
  destruct (Hrt cred) as (x & Hx & _ & Hl); [by intros w|by split|done|done|vm_compute; reflexivity|].
  exists x. split; [exact Hx|exact Hl].
Defined.
End VcSqlExample.
