(* ===== verification/Cleanup.v ===== *)
(** * Clean-up workers: [internal/auth/workers/cleanup] and [internal/ratelimit/workers/cleanup]

    A worker runs once per tick of its timer until its context ends; the ticks, with the
    time each run reads, and the end are a list of events.  The stores are records of
    operations, implemented by the in-memory stores and by the SQL stores. *)
From S2P Require Import Prelude Errors Keys SlidingWindow Lockout RequestLimit AuthModels TRL AuthStores AuthService AuthSafety SqlDb RateSql AuthSql.
Local Open Scope Z_scope.

Inductive WorkerEvent := Tick (now : time) | Cancelled (err : error).

(** ** Auth artifacts *)

Record CleanupStores (S : Type) := mkCleanupStores {
  cl_DeleteExpiredCodes : time -> ST S error Z;
  cl_DeleteExpiredTokens : time -> ST S error Z;
  cl_DeleteUsedTokens : ST S error Z;
  cl_DeleteExpiredSessions : time -> ST S error Z;
}.
Arguments cl_DeleteExpiredCodes {S}.
Arguments cl_DeleteExpiredTokens {S}.
Arguments cl_DeleteUsedTokens {S}.
Arguments cl_DeleteExpiredSessions {S}.

Record CleanupResult := mkCleanup {
  cu_DeletedAuthorizationCodes : Z; cu_DeletedRefreshTokens : Z; cu_DeletedUsedRefreshTokens : Z; cu_DeletedSessions : Z;
}.

(** [WithCleanupInterval] and the constructor. *)
Definition WithCleanupInterval (interval current : duration) : duration := if 0 <? interval then interval else current.
Definition Cleanup_New (intervals : list duration) : duration := foldl (fun d i => WithCleanupInterval i d) (5 * Minute) intervals.

(** [errors.Join]: the texts, one per line. *)
Definition errors_Join (errs : list error) : option error :=
  match errs with
  | [] => None
  | e :: rest => Some (EOther (foldl (fun s e => s +:+ String (Ascii.ascii_of_nat 10) (Error_text e)) (Error_text e) rest))
  end.

Section auth_cleanup.
Context {S : Type} (stores : CleanupStores S).

(** One deletion: its count, zero when it failed, and its error. *)
Definition attempt_deletion (msg : string) (m : ST S error Z) (s : S) : (Z * list error) * S :=
  match m s with
  | (Ok n, s') => ((n, []), s')
  | (Err e, s') => ((0, [EWrap msg e]), s')
  end.

Definition RunOnce (now : time) (s : S) : (CleanupResult * option error) * S :=
  let '((codes, e1), s) := attempt_deletion "delete expired authorization codes" (cl_DeleteExpiredCodes stores now) s in
  let '((expired, e2), s) := attempt_deletion "delete expired refresh tokens" (cl_DeleteExpiredTokens stores now) s in
  let '((used, e3), s) := attempt_deletion "delete used refresh tokens" (cl_DeleteUsedTokens stores) s in
  let '((sessions, e4), s) := attempt_deletion "delete expired sessions" (cl_DeleteExpiredSessions stores now) s in
  ((mkCleanup codes expired used sessions, errors_Join (e1 ++ e2 ++ e3 ++ e4)), s).

(** The result of [Start], if the worker has ended. *)
Fixpoint Start (events : list WorkerEvent) (s : S) : option error * S :=
  match events with
  | [] => (None, s)
  | Cancelled err :: _ => (Some err, s)
  | Tick now :: rest => Start rest (RunOnce now s).2
  end.
End auth_cleanup.

Definition memory_stores : CleanupStores AuthState :=
  mkCleanupStores _ CodeStore_DeleteExpiredCodes TokenStore_DeleteExpiredTokens TokenStore_DeleteUsedTokens SessionStore_DeleteExpiredSessions.

(** What a run at [now] leaves. *)
Definition code_live (now : time) (kv : string * AuthorizationCodeRecord) : Prop := time_Before (ac_ExpiresAt kv.2) now = false.
Definition token_live (now : time) (kv : string * RefreshTokenRecord) : Prop := time_Before (rt_ExpiresAt kv.2) now = false /\ rt_Used kv.2 = false.
Definition session_live (now : time) (kv : uuid * Session) : Prop := time_Before (s_ExpiresAt kv.2) now = false.
#[global] Instance code_live_dec now kv : Decision (code_live now kv).
Proof. unfold code_live. apply _. Defined.
#[global] Instance token_live_dec now kv : Decision (token_live now kv).
Proof. unfold token_live. apply _. Defined.
#[global] Instance session_live_dec now kv : Decision (session_live now kv).
Proof. unfold session_live. apply _. Defined.

Definition cleaned (now : time) (s : AuthState) : AuthState :=
  mkAuth (as_users s) (filter (session_live now) (as_sessions s)) (filter (code_live now) (as_codes s)) (filter (token_live now) (as_tokens s))
    (as_trl s) (as_audit s).

Lemma filter_both (P Q : string * RefreshTokenRecord -> Prop) `{!forall x, Decision (P x), !forall x, Decision (Q x)} (m : gmap string RefreshTokenRecord) :
  filter (fun kv => Q kv) (filter (fun kv => P kv) m) = filter (fun kv => P kv /\ Q kv) m.
Proof. apply map_eq. intros i. apply option_eq. intros x. rewrite !map_lookup_filter_Some. tauto. Qed.

Definition removed {K A} `{Countable K} (m m' : gmap K A) : Z := Z.of_nat (size m) - Z.of_nat (size m').
Definition unexpired (now : time) (s : AuthState) : gmap string RefreshTokenRecord :=
  filter (fun kv : string * RefreshTokenRecord => time_Before (rt_ExpiresAt kv.2) now = false) (as_tokens s).

(** A run of the worker over the in-memory stores removes exactly the authorization
    codes and sessions that have expired and the refresh tokens that have expired or are
    used, reports their numbers without an error, and touches nothing else. *)
Theorem auth_cleanup_exact (now : time) (s : AuthState) :
  RunOnce memory_stores now s =
  ((mkCleanup (removed (as_codes s) (as_codes (cleaned now s))) (removed (as_tokens s) (unexpired now s))
      (removed (unexpired now s) (as_tokens (cleaned now s))) (removed (as_sessions s) (as_sessions (cleaned now s))), None), cleaned now s).
Proof.
  unfold RunOnce, attempt_deletion, removed, unexpired, cleaned. simpl. st_unfold.
  assert (filter (fun kv : string * RefreshTokenRecord => rt_Used kv.2 = false)
    (filter (fun kv : string * RefreshTokenRecord => time_Before (rt_ExpiresAt kv.2) now = false) (as_tokens s)) = filter (token_live now) (as_tokens s)) as ->
    by apply filter_both.
  done.
Qed.

(** The worker ends with its context, and has run once for each tick before. *)
Lemma Start_ends {S} (stores : CleanupStores S) ticks err rest s :
  Start stores ((Tick <$> ticks) ++ Cancelled err :: rest) s = (Some err, foldl (fun s now => (RunOnce stores now s).2) s ticks).
Proof. revert s. induction ticks as [|now ticks IH]; intros s; [done|]. simpl. apply IH. Qed.

(** Each deletion is tried whatever became of the ones before it. *)
Lemma RunOnce_independent {S} (stores : CleanupStores S) now s e s1 :
  cl_DeleteExpiredCodes stores now s = (Err e, s1) ->
  exists res err, RunOnce stores now s = ((res, Some err), (cl_DeleteExpiredSessions stores now
    (cl_DeleteUsedTokens stores (cl_DeleteExpiredTokens stores now s1).2).2).2) /\ cu_DeletedAuthorizationCodes res = 0.
Proof.
  intros Hc. unfold RunOnce, attempt_deletion. rewrite Hc. destruct (cl_DeleteExpiredTokens stores now s1) as [[n2|e2] s2]; simpl;
    destruct (cl_DeleteUsedTokens stores s2) as [[n3|e3] s3]; simpl; destruct (cl_DeleteExpiredSessions stores now s3) as [[n4|e4] s4]; simpl; eauto.
Qed.

(** The worker over the SQL stores. *)
Section sql.
Context {W : Type} (drv : Driver W) `{!PgTypes}.
Definition sql_stores : CleanupStores (DB W AuthTables) :=
  mkCleanupStores _ (CodePg_DeleteExpiredCodes drv) (TokenPg_DeleteExpiredTokens drv) (TokenPg_DeleteUsedTokens drv) (SessionPg_DeleteExpiredSessions drv).
End sql.

(** ** Lockout counters *)

Record LockoutCleanupStore (S : Type) := mkLockoutCleanup {
  lu_ResetFailureCount : time -> ST S error Z;
  lu_ResetDailyFailures : time -> ST S error Z;
}.
Arguments lu_ResetFailureCount {S}.
Arguments lu_ResetDailyFailures {S}.

Record LockoutCleanupResult := mkLockoutResult { lc_FailuresReset : Z; lc_DailyFailuresReset : Z }.

Section lockout_cleanup.
Context {S : Type} (store : LockoutCleanupStore S) (cfg : AuthLockoutConfig).

Definition Lockout_RunOnce (now : time) : ST S error LockoutCleanupResult :=
  let windowCutoff := time_Add now (- lc_WindowDuration cfg) in
  let dailyCutoff := time_Add now (- (24 * Hour)) in
  failuresReset ← lu_ResetFailureCount store windowCutoff;
  dailyReset ← lu_ResetDailyFailures store dailyCutoff;
  mret (mkLockoutResult failuresReset dailyReset).

Fixpoint Lockout_Start (events : list WorkerEvent) (s : S) : option error * S :=
  match events with
  | [] => (None, s)
  | Cancelled err :: _ => (Some err, s)
  | Tick now :: rest => Lockout_Start rest (Lockout_RunOnce now s).2
  end.
End lockout_cleanup.

Definition memory_lockout : LockoutCleanupStore LockState := mkLockoutCleanup _ lockstore_ResetFailureCount lockstore_ResetDailyFailures.
Definition sql_lockout {W} (drv : Driver W) `{!PgTypes} : LockoutCleanupStore (DB W RateTables) :=
  mkLockoutCleanup _ (LockoutPg_ResetFailureCount drv) (LockoutPg_ResetDailyFailures drv).

(** What a run leaves of a record: the counters of failures that are too old are
    cleared, the lock and the CAPTCHA requirement stay. *)
Definition aged (cfg : AuthLockoutConfig) (now : time) (r : AuthLockout) : AuthLockout :=
  mkLockout (al_Identifier r)
    (if al_LastFailureAt r <? now - lc_WindowDuration cfg then 0 else al_FailureCount r)
    (if al_LastFailureAt r <? now - 24 * Hour then 0 else al_DailyFailures r)
    (al_LockedUntil r) (al_LastFailureAt r) (al_RequiresCaptcha r).

Theorem lockout_cleanup_exact (cfg : AuthLockoutConfig) (now : time) (s : LockState) :
  exists res, Lockout_RunOnce memory_lockout cfg now s = (Ok res, mkLS (aged cfg now <$> lk_records s) (lk_audit s)).
Proof.
  unfold Lockout_RunOnce. simpl. unfold lockstore_ResetFailureCount, lockstore_ResetDailyFailures. st_unfold. eexists. do 2 f_equal.
  rewrite <- map_fmap_compose. apply map_fmap_ext. intros i r _. unfold compose, reset_daily, reset_failures, aged, time_Before, time_Add.
  rewrite !Z.add_opp_r. destruct (al_LastFailureAt r <? now - lc_WindowDuration cfg); simpl; destruct (al_LastFailureAt r <? now - 24 * Hour); simpl; by destruct r.
Qed.

(** An identity that is locked stays locked through a clean-up. *)
Lemma cleanup_keeps_lock cfg now s id ip t : 
  AuthLockout_IsLockedAt (default zero_lockout (lk_records s !! lockout_key id ip)) t = true ->
  AuthLockout_IsLockedAt (default zero_lockout (lk_records (Lockout_RunOnce memory_lockout cfg now s).2 !! lockout_key id ip)) t = true.
Proof.
  destruct (lockout_cleanup_exact cfg now s) as (res & ->). simpl. rewrite lookup_fmap.
  destruct (lk_records s !! lockout_key id ip) as [r|]; done.
Qed.

(** ** The allowlist *)

Fixpoint Allowlist_StartCleanup (events : list WorkerEvent) (s : InMemoryAllowlistStore) : option error * InMemoryAllowlistStore :=
  match events with
  | [] => (None, s)
  | Cancelled err :: _ => (Some err, s)
  | Tick now :: rest => Allowlist_StartCleanup rest (Allowlist_RemoveExpiredAt s now)
  end.

(** Over the database a statement that fails ends the worker. *)
Fixpoint AllowPg_StartCleanup {W} (drv : Driver W) `{!PgTypes} (events : list WorkerEvent) (s : DB W RateTables) : option error * DB W RateTables :=
  match events with
  | [] => (None, s)
  | Cancelled err :: _ => (Some err, s)
  | Tick now :: rest =>
      match AllowPg_RemoveExpiredAt drv now s with
      | (Err e, s') => (Some e, s')
      | (Ok _, s') => AllowPg_StartCleanup drv rest s'
      end
  end.

Lemma removal_unseen s t identifier now : t <= now ->
  Allowlist_IsAllowlisted (Allowlist_RemoveExpiredAt s t) identifier now = Allowlist_IsAllowlisted s identifier now.
Proof.
  intros Ht. unfold Allowlist_IsAllowlisted. destruct (str_empty identifier); [done|].
  assert (forall k, match Allowlist_RemoveExpiredAt s t !! k with Some e => negb (AllowlistEntry_IsExpiredAt e now) | None => false end =
                    match s !! k with Some e => negb (AllowlistEntry_IsExpiredAt e now) | None => false end) as Hk.
  { intros k. unfold Allowlist_RemoveExpiredAt. rewrite map_lookup_filter. destruct (s !! k) as [e|]; [|done]. simpl.
    destruct (AllowlistEntry_IsExpiredAt e t) eqn:E; simplify_option_eq; [|done].
    unfold AllowlistEntry_IsExpiredAt, time_After in *. destruct (ale_ExpiresAt e); [|done]. apply Z.ltb_lt in E. symmetry. apply negb_false_iff, Z.ltb_lt. lia. }
  simpl. by rewrite !Hk.
Qed.

(** The removal of expired entries is never seen: whatever the ticks so far, the list gives
    the answers it would give without the worker. *)
Lemma allowlist_cleanup_unseen events s identifier now : (forall t, Tick t ∈ events -> t <= now) ->
  Allowlist_IsAllowlisted (Allowlist_StartCleanup events s).2 identifier now = Allowlist_IsAllowlisted s identifier now.
Proof.
  revert s. induction events as [|[t|err] events IH]; intros s Ht; simpl; [done| |done].
  rewrite IH by set_solver. apply removal_unseen, Ht. set_solver.
Qed.

(** ** Clean-up and replay *)

(** A refresh token that was rotated is replayed: its session is revoked.  When the
    worker has run in between, the replay is an unknown token and the session lives. *)
Lemma cleanup_hides_replay :
  let replay s := AuthExample.refresh_run 210 "r1" "r3" s in
  let status s := s_Status <$> as_sessions (replay s).2 !! 10%N in
  status AuthExample.s2 = Some SessionStatusRevoked /\
  status (RunOnce memory_stores 205 AuthExample.s2).2 = Some SessionStatusActive /\ is_Ok (replay (RunOnce memory_stores 205 AuthExample.s2).2).1 = false.
Proof. vm_compute. done. Qed.
