(* ===== verification/Requests.v ===== *)
(** * Requests: [pkg/platform/httputil/decode.go], [pkg/platform/validation/limits.go],
    [pkg/platform/strings] and the request types of the handlers
    ([internal/consent/handler/requests.go], [internal/tenant/handler/requests.go],
    [internal/decision/handler/requests.go], [internal/evidence/*/handler/handler.go],
    [internal/ratelimit/models/requests.go])

    A request type implements some of the interfaces [Sanitizable], [Normalizable] and
    [Validatable]; the class [RequestOps] holds what a type implements.  A method on a
    pointer receiver returns the value it leaves behind.  Decoding JSON is an argument of
    the handlers. *)
From S2P Require Import Prelude Errors Keys Breaker Ring SlidingWindow BucketStore Lockout Throttle RequestLimit RateAdmin LRU RegistryCache Registry AuthModels TRL AuthStores AuthService AuthSafety Consent Tenant Decision AuditTrail VC Http RateMiddleware AuthHandler.
Local Open Scope Z_scope.

(** ** [httputil] *)

Class RequestOps (T : Type) := mkOps {
  op_Sanitize : option (T -> T);
  op_Normalize : option (T -> T);
  op_Validate : option (T -> res unit * T);
}.

Definition PrepareRequest {T} `{!RequestOps T} (req : T) : res unit * T :=
  let req := match op_Sanitize with Some f => f req | None => req end in
  let req := match op_Normalize with Some f => f req | None => req end in
  match op_Validate with Some f => f req | None => (Ok tt, req) end.

(** The response of a refusal, or the request. *)
Definition DecodeJSON {T} (decoded : option T) (h : gmap string string) : HttpResult + T :=
  match decoded with
  | None => inl (WriteError (New CodeBadRequest "invalid request body") h)
  | Some req => inr req
  end.

Definition DecodeAndPrepare {T} `{!RequestOps T} (decoded : option T) (h : gmap string string) : HttpResult + T :=
  match DecodeJSON decoded h with
  | inl r => inl r
  | inr req =>
      match PrepareRequest req with
      | (Err e, _) =>
          inl (match errors_As e with
               | Some _ => WriteError e h
               | None => WriteError (New CodeValidation (Error_text e)) h
               end)
      | (Ok _, req) => inr req
      end
  end.

Definition RequireUserID (c : RCtx) : res uuid :=
  if IsNil (rc_UserID c) then Err (New CodeInternal "authentication context error") else Ok (rc_UserID c).

(** ** [validation] *)

Abbreviation str_len s := (Z.of_nat (String.length s)).

Definition MaxScopes : Z := 20.
Definition MaxRedirectURIs : Z := 10.
Definition MaxPurposes : Z := 50.
Definition MaxGrants : Z := 10.
Definition MaxScopeLength : Z := 100.
Definition MaxRedirectURILength : Z := 2048.
Definition MaxTenantIDLength : Z := 100.

Definition CheckSliceCount (fieldName : string) (count max : Z) : res unit :=
  if max <? count then Err (New CodeValidation ("too many " +:+ fieldName +:+ ": max " +:+ pretty max +:+ " allowed")) else Ok tt.
Definition CheckStringLength (fieldName value : string) (max : Z) : res unit :=
  if max <? str_len value then Err (New CodeValidation (fieldName +:+ " exceeds max length of " +:+ pretty max)) else Ok tt.
Fixpoint CheckEachStringLength (fieldName : string) (values : list string) (max : Z) : res unit :=
  match values with
  | [] => Ok tt
  | v :: rest =>
      if max <? str_len v then Err (New CodeValidation (fieldName +:+ " exceeds max length of " +:+ pretty max))
      else CheckEachStringLength fieldName rest max
  end.

(** ** [strutil] *)

Section strings.
Context (ToLower : string -> string).

Fixpoint dedupe_lower (seen values : list string) : list string :=
  match values with
  | [] => []
  | v :: rest =>
      let trimmed := ToLower (TrimSpace v) in
      if str_empty trimmed then dedupe_lower seen rest
      else if slices_Contains seen trimmed then dedupe_lower seen rest
      else trimmed :: dedupe_lower (trimmed :: seen) rest
  end.
Definition DedupeAndTrimLower (values : list string) : list string := dedupe_lower [] values.
Definition TrimSpacePtr (s : option string) : option string := match s with None => None | Some s => Some (TrimSpace s) end.
Definition DedupeAndTrimPtr (values : option (list string)) : option (list string) :=
  match values with None => None | Some l => Some (DedupeAndTrim l) end.
Definition DedupeAndTrimLowerPtr (values : option (list string)) : option (list string) :=
  match values with None => None | Some l => Some (DedupeAndTrimLower l) end.
End strings.

(** ** Consent *)

Record GrantRequest := mkGrantRequest { gq_Purposes : list string }.
Record RevokeRequest := mkRevokeRequest { vq_Purposes : list string }.

(** The element is kept under its trimmed form; an empty one is kept too. *)
Fixpoint dedupe_purposes (seen purposes : list string) : list string :=
  match purposes with
  | [] => []
  | p :: rest =>
      let normalized := TrimSpace p in
      if slices_Contains seen normalized then dedupe_purposes seen rest
      else normalized :: dedupe_purposes (normalized :: seen) rest
  end.
Definition dedupePurposes (purposes : list string) : list string := dedupe_purposes [] purposes.

Fixpoint validate_purpose_syntax (purposes : list string) : res unit :=
  match purposes with
  | [] => Ok tt
  | p :: rest =>
      if str_empty p then Err (New CodeValidation "invalid purpose")
      else
        match ParseConsentPurpose p with
        | Err _ => Err (New CodeValidation "invalid purpose")
        | Ok _ => validate_purpose_syntax rest
        end
  end.
Definition request_validatePurposes (purposes : list string) : res unit :=
  if MaxPurposes <? Z.of_nat (length purposes)
  then Err (New CodeValidation ("too many purposes: max " +:+ pretty MaxPurposes +:+ " allowed"))
  else if (length purposes =? 0)%nat then Err (New CodeValidation "purposes are required")
  else validate_purpose_syntax purposes.

Fixpoint toDomainPurposes (purposes : list string) : res (list string) :=
  match purposes with
  | [] => Ok []
  | p :: rest =>
      match ParseConsentPurpose p with
      | Err e => Err e
      | Ok purpose => match toDomainPurposes rest with Err e => Err e | Ok l => Ok (purpose :: l) end
      end
  end.

Definition GrantRequest_Normalize (r : GrantRequest) : GrantRequest := mkGrantRequest (dedupePurposes (gq_Purposes r)).
Definition GrantRequest_Validate (r : GrantRequest) : res unit := request_validatePurposes (gq_Purposes r).
Definition GrantRequest_ToPurposes (r : GrantRequest) : res (list string) := toDomainPurposes (gq_Purposes r).
Definition RevokeRequest_Normalize (r : RevokeRequest) : RevokeRequest := mkRevokeRequest (dedupePurposes (vq_Purposes r)).
Definition RevokeRequest_Validate (r : RevokeRequest) : res unit := request_validatePurposes (vq_Purposes r).
Definition RevokeRequest_ToPurposes (r : RevokeRequest) : res (list string) := toDomainPurposes (vq_Purposes r).

#[global] Instance GrantRequest_ops : RequestOps GrantRequest :=
  mkOps _ None (Some GrantRequest_Normalize) (Some (fun r => (GrantRequest_Validate r, r))).
#[global] Instance RevokeRequest_ops : RequestOps RevokeRequest :=
  mkOps _ None (Some RevokeRequest_Normalize) (Some (fun r => (RevokeRequest_Validate r, r))).

(** ** Tenants and clients *)

Definition maxNameLength : Z := 128.

Record CreateTenantRequest := mkCreateTenantRequest { tcq_Name : string }.
Definition CreateTenantRequest_Normalize (r : CreateTenantRequest) : CreateTenantRequest := mkCreateTenantRequest (TrimSpace (tcq_Name r)).
Definition CreateTenantRequest_Validate (r : CreateTenantRequest) : res unit :=
  match CheckStringLength "name" (tcq_Name r) maxNameLength with
  | Err e => Err e
  | Ok _ => if str_empty (tcq_Name r) then Err (New CodeValidation "name is required") else Ok tt
  end.
#[global] Instance CreateTenantRequest_ops : RequestOps CreateTenantRequest :=
  mkOps _ None (Some CreateTenantRequest_Normalize) (Some (fun r => (CreateTenantRequest_Validate r, r))).

(** [ccq_tenantID] is the unexported field, nil until [Validate] sets it. *)
Record CreateClientRequest := mkCreateClientRequest {
  ccq_TenantID : string; ccq_Name : string; ccq_RedirectURIs : list string; ccq_AllowedGrants : list string;
  ccq_AllowedScopes : list string; ccq_Public : bool; ccq_tenantID : uuid;
}.
Record UpdateClientRequest := mkUpdateClientRequest {
  ucq_Name : option string; ucq_RedirectURIs : option (list string); ucq_AllowedGrants : option (list string);
  ucq_AllowedScopes : option (list string); ucq_RotateSecret : bool;
}.

(** The first error of a list of checks. *)
Fixpoint first_error (checks : list (res unit)) : res unit :=
  match checks with
  | [] => Ok tt
  | Err e :: _ => Err e
  | Ok _ :: rest => first_error rest
  end.

Section clients.
Context (ToLower : string -> string) (uuid_Parse : string -> option uuid) (url_Parse : string -> option (string * string)).

Definition CreateClientRequest_Normalize (r : CreateClientRequest) : CreateClientRequest :=
  mkCreateClientRequest (TrimSpace (ccq_TenantID r)) (TrimSpace (ccq_Name r)) (DedupeAndTrim (ccq_RedirectURIs r))
    (DedupeAndTrimLower ToLower (ccq_AllowedGrants r)) (DedupeAndTrim (ccq_AllowedScopes r)) (ccq_Public r) (ccq_tenantID r).

Definition Create_validateSizeLimits (r : CreateClientRequest) : res unit :=
  first_error
    [CheckStringLength "tenant_id" (ccq_TenantID r) MaxTenantIDLength;
     CheckStringLength "name" (ccq_Name r) maxNameLength;
     CheckSliceCount "redirect URIs" (Z.of_nat (length (ccq_RedirectURIs r))) MaxRedirectURIs;
     CheckSliceCount "grant types" (Z.of_nat (length (ccq_AllowedGrants r))) MaxGrants;
     CheckSliceCount "scopes" (Z.of_nat (length (ccq_AllowedScopes r))) MaxScopes;
     CheckEachStringLength "redirect URI" (ccq_RedirectURIs r) MaxRedirectURILength;
     CheckEachStringLength "scope" (ccq_AllowedScopes r) MaxScopeLength].

Definition Create_validateRequired (r : CreateClientRequest) : res unit :=
  if str_empty (ccq_TenantID r) then Err (New CodeValidation "tenant_id is required")
  else if str_empty (ccq_Name r) then Err (New CodeValidation "name is required")
  else if (length (ccq_RedirectURIs r) =? 0)%nat then Err (New CodeValidation "at least one redirect_uri is required")
  else Ok tt.

Fixpoint urls_parse (uris : list string) : res unit :=
  match uris with
  | [] => Ok tt
  | uri :: rest =>
      match url_Parse uri with None => Err (New CodeValidation "invalid redirect_uri format") | Some _ => urls_parse rest end
  end.

Definition Create_validateSyntax (r : CreateClientRequest) : res unit * CreateClientRequest :=
  match ParseTenantID uuid_Parse (ccq_TenantID r) with
  | Err _ => (Err (New CodeValidation "invalid tenant_id"), r)
  | Ok tenantID =>
      (urls_parse (ccq_RedirectURIs r),
       mkCreateClientRequest (ccq_TenantID r) (ccq_Name r) (ccq_RedirectURIs r) (ccq_AllowedGrants r) (ccq_AllowedScopes r) (ccq_Public r)
         tenantID)
  end.

Definition CreateClientRequest_Validate (r : CreateClientRequest) : res unit * CreateClientRequest :=
  match Create_validateSizeLimits r with
  | Err e => (Err e, r)
  | Ok _ => match Create_validateRequired r with Err e => (Err e, r) | Ok _ => Create_validateSyntax r end
  end.

Definition CreateClientRequest_ToCommand (r : CreateClientRequest) : res CreateClientCommand :=
  match (if IsNil (ccq_tenantID r) then ParseTenantID uuid_Parse (ccq_TenantID r) else Ok (ccq_tenantID r)) with
  | Err e => Err e
  | Ok tenantID => Ok (mkCreate tenantID (ccq_Name r) (ccq_RedirectURIs r) (ccq_AllowedGrants r) (ccq_AllowedScopes r) (ccq_Public r))
  end.

Definition UpdateClientRequest_Normalize (r : UpdateClientRequest) : UpdateClientRequest :=
  mkUpdateClientRequest (TrimSpacePtr (ucq_Name r)) (DedupeAndTrimPtr (ucq_RedirectURIs r))
    (DedupeAndTrimLowerPtr ToLower (ucq_AllowedGrants r)) (DedupeAndTrimPtr (ucq_AllowedScopes r)) (ucq_RotateSecret r).

Definition Update_validateSizeLimits (r : UpdateClientRequest) : res unit :=
  first_error
    (match ucq_Name r with Some n => [CheckStringLength "name" n maxNameLength] | None => [] end ++
     match ucq_RedirectURIs r with
     | Some l => [CheckSliceCount "redirect URIs" (Z.of_nat (length l)) MaxRedirectURIs; CheckEachStringLength "redirect URI" l MaxRedirectURILength]
     | None => []
     end ++
     match ucq_AllowedGrants r with Some l => [CheckSliceCount "grant types" (Z.of_nat (length l)) MaxGrants] | None => [] end ++
     match ucq_AllowedScopes r with
     | Some l => [CheckSliceCount "scopes" (Z.of_nat (length l)) MaxScopes; CheckEachStringLength "scope" l MaxScopeLength]
     | None => []
     end).

Definition Update_validateSyntax (r : UpdateClientRequest) : res unit :=
  match ucq_RedirectURIs r with None => Ok tt | Some l => urls_parse l end.

Definition UpdateClientRequest_Validate (r : UpdateClientRequest) : res unit :=
  match Update_validateSizeLimits r with Err e => Err e | Ok _ => Update_validateSyntax r end.

Definition UpdateClientRequest_ToCommand (r : UpdateClientRequest) : UpdateClientCommand :=
  mkUpdate (ucq_Name r) (ucq_RedirectURIs r) (ucq_AllowedGrants r) (ucq_AllowedScopes r) (ucq_RotateSecret r).

Definition CreateClientRequest_ops : RequestOps CreateClientRequest :=
  mkOps _ None (Some CreateClientRequest_Normalize) (Some CreateClientRequest_Validate).
Definition UpdateClientRequest_ops : RequestOps UpdateClientRequest :=
  mkOps _ None (Some UpdateClientRequest_Normalize) (Some (fun r => (UpdateClientRequest_Validate r, r))).
End clients.

(** ** Decisions *)

Record handler_EvaluateRequest := mkEvaluateRequest {
  hq_Purpose : string; hq_NationalID : string; hq_parsedPurpose : DPurpose; hq_parsedNationalID : string;
}.

Definition handler_EvaluateRequest_Validate (r : handler_EvaluateRequest) : res unit * handler_EvaluateRequest :=
  if 20 <? str_len (hq_NationalID r) then (Err (New CodeValidation "national_id must be at most 20 characters"), r)
  else
    let r := mkEvaluateRequest (TrimSpace (hq_Purpose r)) (hq_NationalID r) (hq_parsedPurpose r) (hq_parsedNationalID r) in
    if str_empty (hq_Purpose r) then (Err (New CodeValidation "purpose is required"), r)
    else
      match ParsePurpose (hq_Purpose r) with
      | Err e => (Err e, r)
      | Ok purpose =>
          let r := mkEvaluateRequest (hq_Purpose r) (TrimSpace (hq_NationalID r)) purpose (hq_parsedNationalID r) in
          match purpose with
          | PurposeAgeVerification | PurposeSanctionsScreening =>
              if str_empty (hq_NationalID r) then (Err (New CodeValidation "context.national_id is required"), r)
              else
                match ParseNationalID (hq_NationalID r) with
                | Err e => (Err e, r)
                | Ok nationalID => (Ok tt, mkEvaluateRequest (hq_Purpose r) (hq_NationalID r) (hq_parsedPurpose r) nationalID)
                end
          | _ => (Ok tt, r)
          end
      end.
#[global] Instance handler_EvaluateRequest_ops : RequestOps handler_EvaluateRequest :=
  mkOps _ None None (Some handler_EvaluateRequest_Validate).

(** ** The registry *)

Record CitizenLookupRequest := mkCitizenLookup { clq_NationalID : string; clq_parsed : string }.
Record SanctionsCheckRequest := mkSanctionsCheck { sq_NationalID : string; sq_parsed : string }.

Definition CitizenLookupRequest_Validate (r : CitizenLookupRequest) : res unit * CitizenLookupRequest :=
  match ParseNationalID (clq_NationalID r) with
  | Err e => (Err (New CodeBadRequest (Error_text e)), r)
  | Ok parsed => (Ok tt, mkCitizenLookup (clq_NationalID r) parsed)
  end.
Definition SanctionsCheckRequest_Validate (r : SanctionsCheckRequest) : res unit * SanctionsCheckRequest :=
  match ParseNationalID (sq_NationalID r) with
  | Err e => (Err (New CodeBadRequest (Error_text e)), r)
  | Ok parsed => (Ok tt, mkSanctionsCheck (sq_NationalID r) parsed)
  end.
#[global] Instance CitizenLookupRequest_ops : RequestOps CitizenLookupRequest := mkOps _ None None (Some CitizenLookupRequest_Validate).
#[global] Instance SanctionsCheckRequest_ops : RequestOps SanctionsCheckRequest := mkOps _ None None (Some SanctionsCheckRequest_Validate).

(** ** Credentials *)

Record handler_IssueRequest := mkIssueBody { iq_Type : string; iq_NationalID : string; iq_parsedType : string; iq_parsedNationalID : string }.
Record VerifyRequest := mkVerifyBody { yq_CredentialID : string; yq_parsedCredentialID : string }.

Definition handler_IssueRequest_Validate (r : handler_IssueRequest) : res unit * handler_IssueRequest :=
  if 20 <? str_len (iq_NationalID r) then (Err (New CodeValidation "national_id must be 6-20 characters"), r)
  else if str_empty (iq_Type r) then (Err (New CodeValidation "type is required"), r)
  else if str_empty (iq_NationalID r) then (Err (New CodeValidation "national_id is required"), r)
  else
    match ParseCredentialType (iq_Type r) with
    | Err e => (Err (New CodeValidation (Error_text e)), r)
    | Ok parsedType =>
        match ParseNationalID (iq_NationalID r) with
        | Err e => (Err (New CodeValidation (Error_text e)), r)
        | Ok parsedNationalID => (Ok tt, mkIssueBody (iq_Type r) (iq_NationalID r) parsedType parsedNationalID)
        end
    end.

Section verify.
Context (uuid_valid : string -> bool).
Definition VerifyRequest_Validate (r : VerifyRequest) : res unit * VerifyRequest :=
  if 64 <? str_len (yq_CredentialID r) then (Err (New CodeValidation "credential_id is too long"), r)
  else if str_empty (yq_CredentialID r) then (Err (New CodeValidation "credential_id is required"), r)
  else
    match ParseCredentialID uuid_valid (yq_CredentialID r) with
    | Err e => (Err (New CodeBadRequest (Error_text e)), r)
    | Ok parsedID => (Ok tt, mkVerifyBody (yq_CredentialID r) parsedID)
    end.
Definition VerifyRequest_ops : RequestOps VerifyRequest := mkOps _ None None (Some VerifyRequest_Validate).
End verify.
#[global] Instance handler_IssueRequest_ops : RequestOps handler_IssueRequest := mkOps _ None None (Some handler_IssueRequest_Validate).

(** ** Rate limits and quotas *)

Record UpdateQuotaTierRequest := mkUpdateQuotaTier { uq_Tier : string }.

Section limits.
Context (ToLower : string -> string) (valid_ip : string -> bool) (wall : time).

Definition RemoveAllowlistRequest_Normalize (r : RemoveAllowlistRequest) : RemoveAllowlistRequest :=
  mkRemReq (TrimSpace (ToLower (rar_Type r))) (TrimSpace (rar_Identifier r)).
Definition UpdateQuotaTierRequest_Normalize (r : UpdateQuotaTierRequest) : UpdateQuotaTierRequest :=
  mkUpdateQuotaTier (TrimSpace (ToLower (uq_Tier r))).
Definition UpdateQuotaTierRequest_Validate (r : UpdateQuotaTierRequest) : res unit :=
  if negb (QuotaTier_IsValid (uq_Tier r))
  then Err (New CodeValidation "tier must be 'free', 'starter', 'business', or 'enterprise'") else Ok tt.

Definition AddAllowlistRequest_ops : RequestOps AddAllowlistRequest :=
  mkOps _ None (Some (AddAllowlistRequest_Normalize ToLower)) (Some (fun r => (AddAllowlistRequest_ValidateAt valid_ip r wall, r))).
Definition RemoveAllowlistRequest_ops : RequestOps RemoveAllowlistRequest :=
  mkOps _ None (Some RemoveAllowlistRequest_Normalize) (Some (fun r => (RemoveAllowlistRequest_Validate valid_ip r, r))).
Definition ResetRateLimitRequest_ops : RequestOps ResetRateLimitRequest :=
  mkOps _ None (Some (ResetRateLimitRequest_Normalize ToLower)) (Some (fun r => (ResetRateLimitRequest_Validate valid_ip r, r))).
Definition UpdateQuotaTierRequest_ops : RequestOps UpdateQuotaTierRequest :=
  mkOps _ None (Some UpdateQuotaTierRequest_Normalize) (Some (fun r => (UpdateQuotaTierRequest_Validate r, r))).
End limits.
