(* ===== verification/Endpoints.v ===== *)
(** * The other endpoints: [internal/consent/handler], [internal/tenant/handler],
    [internal/decision/handler], [internal/evidence/registry/handler],
    [internal/evidence/vc/handler], [internal/ratelimit/handler] and [internal/admin]

    Each handler takes the interface of its service as a record of operations on the
    program's state, as the Go handlers take an interface.  A nil pointer that a handler
    would follow is a panic.  Formatting a time and marshalling claims are arguments. *)
From S2P Require Import Prelude Errors Keys Breaker Ring SlidingWindow BucketStore Lockout Throttle RequestLimit RateAdmin LRU RegistryCache Registry AuthModels TRL AuthStores AuthService AuthSafety Consent Tenant Decision AuditTrail VC Http RateMiddleware AuthHandler Requests.
Local Open Scope Z_scope.

(** The common steps of a handler: the answer of a service, a requirement, and a decoded
    request. *)
Definition reply {S A} (h : gmap string string) (m : res A * S) (ok : A -> HttpResult) : HttpResult * S :=
  match m with (Err e, s) => (WriteError e h, s) | (Ok a, s) => (ok a, s) end.
Definition required {S A} (h : gmap string string) (x : res A) (s : S) (next : A -> HttpResult * S) : HttpResult * S :=
  match x with Err e => (WriteError e h, s) | Ok a => next a end.
Definition prepared {S T} (x : HttpResult + T) (s : S) (next : T -> HttpResult * S) : HttpResult * S :=
  match x with inl r => (r, s) | inr req => next req end.

Definition optional_time (k : string) (t : option time) : list (string * jval) := match t with Some t => [(k, JTime t)] | None => [] end.
Definition optional_bool (k : string) (b : option bool) : list (string * jval) := match b with Some b => [(k, JBool b)] | None => [] end.

(** ** Consent *)

Record ConsentPort (S : Type) := mkConsentPort {
  cp_Grant : RCtx -> uuid -> list string -> ST S error (list ConsentRecord);
  cp_Revoke : RCtx -> uuid -> list string -> ST S error (list ConsentRecord);
  cp_RevokeAll : RCtx -> uuid -> ST S error Z;
  cp_DeleteAll : RCtx -> uuid -> ST S error unit;
  cp_List : RCtx -> uuid -> option RecordFilter -> ST S error (list ConsentRecord);
}.
Arguments cp_Grant {S}.
Arguments cp_Revoke {S}.
Arguments cp_RevokeAll {S}.
Arguments cp_DeleteAll {S}.
Arguments cp_List {S}.

Definition ConsentStatus_text (s : ConsentStatus) : string :=
  match s with StatusActive => "active" | StatusExpired => "expired" | StatusRevoked => "revoked" end.

(** The template, split at its verb. *)
Definition formatActionMessage (before after : string) (count : Z) : string :=
  before +:+ pretty count +:+ after +:+ (if count =? 1 then "" else "s").

Section consent.
Context {S : Type} (consent : ConsentPort S) (uuid_String : uuid -> string) (uuid_Parse : string -> option uuid) (clock : time).
Context (decode_grant : Request -> option GrantRequest) (decode_revoke : Request -> option RevokeRequest).
Context (URLParam : Request -> string -> string).

Definition grant_json (now : time) (r : ConsentRecord) : list (string * jval) :=
  [("purpose", JString (cr_Purpose r)); ("granted_at", JTime (cr_GrantedAt r))] ++ optional_time "expires_at" (cr_ExpiresAt r) ++
  [("status", JString (ConsentStatus_text (ComputeStatus r now)))].
Definition toGrantResponse (records : list ConsentRecord) (now : time) : list (string * jval) :=
  [("granted", JArray (grant_json now <$> records));
   ("message", JString (formatActionMessage "Consent granted for " " purpose" (Z.of_nat (length records))))].

Definition revoked_json (now : time) (r : ConsentRecord) : option (list (string * jval)) :=
  match cr_RevokedAt r with
  | Some t => Some [("purpose", JString (cr_Purpose r)); ("revoked_at", JTime t); ("status", JString (ConsentStatus_text (ComputeStatus r now)))]
  | None => None
  end.
Definition toRevokeResponse (records : list ConsentRecord) (now : time) : list (string * jval) :=
  let revoked := omap (revoked_json now) records in
  [("revoked", JArray revoked);
   ("message", JString (formatActionMessage "Consent revoked for " " purpose" (Z.of_nat (length revoked))))].

Definition consent_json (now : time) (r : ConsentRecord) : list (string * jval) :=
  [("id", JString (uuid_String (cr_ID r))); ("purpose", JString (cr_Purpose r)); ("granted_at", JTime (cr_GrantedAt r))] ++
  optional_time "expires_at" (cr_ExpiresAt r) ++ optional_time "revoked_at" (cr_RevokedAt r) ++
  [("status", JString (ConsentStatus_text (ComputeStatus r now)))].
Definition toListResponse (records : list ConsentRecord) (now : time) : list (string * jval) :=
  [("consents", JArray (consent_json now <$> records))].

Definition HandleGrantConsent : Handler S := fun r c h s =>
  required h (RequireUserID c) s (fun userID =>
  prepared (DecodeAndPrepare (decode_grant r) h) s (fun grantReq =>
  match GrantRequest_ToPurposes grantReq with
  | Err e => (WriteError (New CodeValidation (Error_text e)) h, s)
  | Ok purposes =>
      reply h (cp_Grant consent c userID purposes s) (fun records => WriteJSON 200 (toGrantResponse records (Now clock c)) h)
  end)).

Definition HandleRevokeConsent : Handler S := fun r c h s =>
  required h (RequireUserID c) s (fun userID =>
  prepared (DecodeAndPrepare (decode_revoke r) h) s (fun revokeReq =>
  match RevokeRequest_ToPurposes revokeReq with
  | Err e => (WriteError (New CodeValidation (Error_text e)) h, s)
  | Ok purposes =>
      reply h (cp_Revoke consent c userID purposes s) (fun records => WriteJSON 200 (toRevokeResponse records (Now clock c)) h)
  end)).

Definition revoked_all_json (count : Z) : list (string * jval) :=
  [("revoked", JNull); ("message", JString (formatActionMessage "Consent revoked for " " purpose" count))].

Definition HandleRevokeAllConsents : Handler S := fun r c h s =>
  required h (RequireUserID c) s (fun userID =>
  reply h (cp_RevokeAll consent c userID s) (fun count => WriteJSON 200 (revoked_all_json count) h)).

Definition HandleAdminRevokeAllConsents : Handler S := fun r c h s =>
  if negb (rc_AdminAuthorized c) then (WriteError (New CodeUnauthorized "admin token required") h, s)
  else
    match ParseUserID uuid_Parse (URLParam r "user_id") with
    | Err _ => (WriteError (New CodeBadRequest "invalid user id") h, s)
    | Ok userID => reply h (cp_RevokeAll consent c userID s) (fun count => WriteJSON 200 (revoked_all_json count) h)
    end.

Definition HandleDeleteAllConsents : Handler S := fun r c h s =>
  required h (RequireUserID c) s (fun userID =>
  reply h (cp_DeleteAll consent c userID s) (fun _ => WriteJSON 200 [("message", JString "All consents deleted")] h)).

Definition parseRecordFilter (status purpose : string) : res (option RecordFilter) :=
  let status := TrimSpace status in
  let purpose := TrimSpace purpose in
  let parsedStatus :=
    if str_empty status then Ok None
    else match ParseStatus status with Err _ => Err (New CodeValidation "invalid status filter") | Ok st => Ok (Some st) end in
  match parsedStatus with
  | Err e => Err e
  | Ok st =>
      let parsedPurpose :=
        if str_empty purpose then Ok None
        else match ParseConsentPurpose purpose with Err _ => Err (New CodeValidation "invalid purpose filter") | Ok p => Ok (Some p) end in
      match parsedPurpose with
      | Err e => Err e
      | Ok p => match st, p with None, None => Ok None | _, _ => Ok (Some (mkFilter p st)) end
      end
  end.

Definition HandleGetConsents : Handler S := fun r c h s =>
  required h (RequireUserID c) s (fun userID =>
  required h (parseRecordFilter (Get (req_Query r) "status") (Get (req_Query r) "purpose")) s (fun filter =>
  reply h (cp_List consent c userID filter s) (fun records => WriteJSON 200 (toListResponse records (Now clock c)) h))).
End consent.

(** ** Tenants and clients *)

Record TenantPort (S : Type) := mkTenantPort {
  tp_CreateTenant : RCtx -> string -> ST S error Tenant;
  tp_GetTenantDetails : RCtx -> uuid -> ST S error TenantDetails;
  tp_GetTenantByName : RCtx -> string -> ST S error (option Tenant);
  tp_DeactivateTenant : RCtx -> uuid -> ST S error Tenant;
  tp_ReactivateTenant : RCtx -> uuid -> ST S error Tenant;
  tp_CreateClient : RCtx -> CreateClientCommand -> ST S error (Client * string);
  tp_GetClient : RCtx -> uuid -> ST S error Client;
  tp_UpdateClient : RCtx -> uuid -> UpdateClientCommand -> ST S error (Client * string);
  tp_DeactivateClient : RCtx -> uuid -> ST S error Client;
  tp_ReactivateClient : RCtx -> uuid -> ST S error Client;
  tp_RotateClientSecret : RCtx -> uuid -> ST S error (Client * string);
}.
Arguments tp_CreateTenant {S}.
Arguments tp_GetTenantDetails {S}.
Arguments tp_GetTenantByName {S}.
Arguments tp_DeactivateTenant {S}.
Arguments tp_ReactivateTenant {S}.
Arguments tp_CreateClient {S}.
Arguments tp_GetClient {S}.
Arguments tp_UpdateClient {S}.
Arguments tp_DeactivateClient {S}.
Arguments tp_ReactivateClient {S}.
Arguments tp_RotateClientSecret {S}.

Definition LifeStatus_text (s : LifeStatus) : string :=
  match s with LifeActive => "active" | LifeInactive => "inactive" | LifeOther s => s end.

Section tenants.
Context {S : Type} (service : TenantPort S) (uuid_String : uuid -> string) (uuid_Parse : string -> option uuid).
Context (ToLower : string -> string) (url_Parse : string -> option (string * string)).
Context (decode_tenant : Request -> option CreateTenantRequest) (decode_client : Request -> option CreateClientRequest).
Context (decode_update : Request -> option UpdateClientRequest) (URLParam : Request -> string -> string).

Definition toTenantResponse (t : Tenant) : list (string * jval) :=
  [("id", JString (uuid_String (tn_ID t))); ("name", JString (tn_Name t)); ("status", JString (LifeStatus_text (tn_Status t)));
   ("created_at", JTime (tn_CreatedAt t)); ("updated_at", JTime (tn_UpdatedAt t))].
Definition toTenantDetailsResponse (td : TenantDetails) : list (string * jval) :=
  toTenantResponse (td_Tenant td) ++ [("user_count", JInt (td_UserCount td)); ("client_count", JInt (td_ClientCount td))].
Definition toClientResponse (client : Client) (secret : string) : list (string * jval) :=
  [("id", JString (uuid_String (cl_ID client))); ("tenant_id", JString (uuid_String (cl_TenantID client))); ("name", JString (cl_Name client));
   ("client_id", JString (cl_OAuthClientID client))] ++ optional_field "client_secret" secret ++
  [("redirect_uris", JStrings (cl_RedirectURIs client)); ("allowed_grants", JStrings (cl_AllowedGrants client));
   ("allowed_scopes", JStrings (cl_AllowedScopes client)); ("status", JString (LifeStatus_text (cl_Status client)));
   ("public_client", JBool (negb (Client_IsConfidential client)))].

Definition HandleCreateTenant : Handler S := fun r c h s =>
  prepared (DecodeAndPrepare (decode_tenant r) h) s (fun req =>
  reply h (tp_CreateTenant service c (tcq_Name req) s) (fun tenant =>
    WriteJSON 201 [("tenant_id", JString (uuid_String (tn_ID tenant))); ("tenant", JObject (toTenantResponse tenant))] h)).

(** [id.ParseTenantID] and [id.ParseClientID] of the path. *)
Definition with_tenant_id (r : Request) (h : gmap string string) (s : S) (next : uuid -> HttpResult * S) : HttpResult * S :=
  match ParseTenantID uuid_Parse (URLParam r "id") with
  | Err _ => (WriteError (New CodeBadRequest "invalid tenant id") h, s)
  | Ok u => next u
  end.
Definition with_client_id (r : Request) (h : gmap string string) (s : S) (next : uuid -> HttpResult * S) : HttpResult * S :=
  match ParseClientID uuid_Parse (URLParam r "id") with
  | Err _ => (WriteError (New CodeBadRequest "invalid client id") h, s)
  | Ok u => next u
  end.

Definition HandleGetTenant : Handler S := fun r c h s =>
  with_tenant_id r h s (fun tenantID =>
  reply h (tp_GetTenantDetails service c tenantID s) (fun res => WriteJSON 200 (toTenantDetailsResponse res) h)).
Definition HandleGetTenantByName : Handler S := fun r c h s =>
  reply h (tp_GetTenantByName service c (URLParam r "name") s) (fun tenant =>
    match tenant with Some t => WriteJSON 200 (toTenantResponse t) h | None => Panics h end).
Definition HandleDeactivateTenant : Handler S := fun r c h s =>
  with_tenant_id r h s (fun tenantID =>
  reply h (tp_DeactivateTenant service c tenantID s) (fun tenant => WriteJSON 200 (toTenantResponse tenant) h)).
Definition HandleReactivateTenant : Handler S := fun r c h s =>
  with_tenant_id r h s (fun tenantID =>
  reply h (tp_ReactivateTenant service c tenantID s) (fun tenant => WriteJSON 200 (toTenantResponse tenant) h)).

Definition HandleCreateClient : Handler S := fun r c h s =>
  prepared (@DecodeAndPrepare _ (CreateClientRequest_ops ToLower uuid_Parse url_Parse) (decode_client r) h) s (fun req =>
  required h (CreateClientRequest_ToCommand uuid_Parse req) s (fun cmd =>
  reply h (tp_CreateClient service c cmd s) (fun '(client, secret) => WriteJSON 201 (toClientResponse client secret) h))).
Definition HandleGetClient : Handler S := fun r c h s =>
  with_client_id r h s (fun clientID =>
  reply h (tp_GetClient service c clientID s) (fun client => WriteJSON 200 (toClientResponse client "") h)).
Definition HandleUpdateClient : Handler S := fun r c h s =>
  with_client_id r h s (fun clientID =>
  prepared (@DecodeAndPrepare _ (UpdateClientRequest_ops ToLower url_Parse) (decode_update r) h) s (fun req =>
  reply h (tp_UpdateClient service c clientID (UpdateClientRequest_ToCommand req) s) (fun '(client, secret) =>
    WriteJSON 200 (toClientResponse client secret) h))).
Definition HandleDeactivateClient : Handler S := fun r c h s =>
  with_client_id r h s (fun clientID =>
  reply h (tp_DeactivateClient service c clientID s) (fun client => WriteJSON 200 (toClientResponse client "") h)).
Definition HandleReactivateClient : Handler S := fun r c h s =>
  with_client_id r h s (fun clientID =>
  reply h (tp_ReactivateClient service c clientID s) (fun client => WriteJSON 200 (toClientResponse client "") h)).
Definition HandleRotateClientSecret : Handler S := fun r c h s =>
  with_client_id r h s (fun clientID =>
  reply h (tp_RotateClientSecret service c clientID s) (fun '(client, secret) => WriteJSON 200 (toClientResponse client secret) h)).
End tenants.

(** ** Decisions *)

Section decisions.
Context {S : Type} (evaluate : RCtx -> EvaluateRequest -> ST S error EvaluateResult).
Context (decode_evaluate : Request -> option handler_EvaluateRequest).

Definition FromResult (result : EvaluateResult) : list (string * jval) :=
  let e := er_Evidence result in
  [("status", JString (DecisionOutcome_text (er_Status result))); ("reason", JString (er_Reason result));
   ("conditions", JStrings (er_Conditions result));
   ("evidence", JObject (optional_bool "citizen_valid" (es_CitizenValid e) ++ [("sanctions_listed", JBool (es_SanctionsListed e))] ++
      optional_bool "has_credential" (es_HasCredential e) ++ optional_bool "is_over_18" (es_IsOver18 e)));
   ("evaluated_at", JTime (er_EvaluatedAt result))].

Definition HandleEvaluate : Handler S := fun r c h s =>
  if IsNil (rc_UserID c) then (WriteError (New CodeUnauthorized "authentication required") h, s)
  else
    prepared (DecodeAndPrepare (decode_evaluate r) h) s (fun req =>
    reply h (evaluate c (mkEvalReq (rc_UserID c) (hq_parsedPurpose req) (hq_parsedNationalID req)) s) (fun result =>
      WriteJSON 200 (FromResult result) h)).
End decisions.

(** ** The registry *)

Record RegistryPort (S : Type) := mkRegistryPort {
  gp_Citizen : RCtx -> uuid -> string -> ST S error models_CitizenRecord;
  gp_Sanctions : RCtx -> uuid -> string -> ST S error models_SanctionsRecord;
}.
Arguments gp_Citizen {S}.
Arguments gp_Sanctions {S}.

Section registry.
Context {S : Type} (service : RegistryPort S) (uuid_String : uuid -> string) (RFC3339 : time -> string).
(** [opsTracker.Track], which may be absent: action, subject, request. *)
Context (opsTracker : option (string -> string -> string -> S -> S)).
Context (decode_citizen : Request -> option CitizenLookupRequest) (decode_sanctions : Request -> option SanctionsCheckRequest).

Definition registry_emitAudit (action subject requestID : string) (s : S) : S :=
  match opsTracker with None => s | Some track => track action subject requestID s end.

Definition citizen_json (r : models_CitizenRecord) : list (string * jval) :=
  optional_field "national_id" (crec_NationalID r) ++ optional_field "full_name" (crec_FullName r) ++
  optional_field "date_of_birth" (crec_DateOfBirth r) ++ optional_field "address" (crec_Address r) ++
  [("valid", JBool (crec_Valid r)); ("source", JString (crec_Source r)); ("checked_at", JString (RFC3339 (crec_CheckedAt r)))].
Definition sanctions_json (r : models_SanctionsRecord) : list (string * jval) :=
  [("national_id", JString (srec_NationalID r)); ("listed", JBool (srec_Listed r)); ("source", JString (srec_Source r));
   ("checked_at", JString (RFC3339 (srec_CheckedAt r)))].

Definition HandleCitizenLookup : Handler S := fun r c h s =>
  required h (RequireUserID c) s (fun userID =>
  prepared (DecodeAndPrepare (decode_citizen r) h) s (fun req =>
  match gp_Citizen service c userID (clq_parsed req) s with
  | (Err e, s) => (WriteError e h, s)
  | (Ok record, s) => (WriteJSON 200 (citizen_json record) h, registry_emitAudit "registry_citizen_checked" (uuid_String userID) (rc_RequestID c) s)
  end)).
Definition HandleSanctionsLookup : Handler S := fun r c h s =>
  required h (RequireUserID c) s (fun userID =>
  prepared (DecodeAndPrepare (decode_sanctions r) h) s (fun req =>
  reply h (gp_Sanctions service c userID (sq_parsed req) s) (fun record => WriteJSON 200 (sanctions_json record) h))).

Definition redactNationalID (nid : string) : string :=
  if str_len nid <=? 4 then "****" else "****" +:+ String.substring (String.length nid - 4) 4 nid.
End registry.

(** ** Credentials *)

Section credentials.
Context {S : Type} (issue : RCtx -> IssueRequest -> ST S error CredentialRecord) (verify : RCtx -> string -> ST S error VerifyResult).
Context (uuid_String : uuid -> string) (uuid_valid : string -> bool) (claims_json : gmap string goany -> jval).
Context (decode_issue : Request -> option handler_IssueRequest) (decode_verify : Request -> option VerifyRequest).

Definition issued_json (cr : CredentialRecord) : list (string * jval) :=
  [("credential_id", JString (cred_ID cr)); ("type", JString (cred_Type cr)); ("subject", JString (uuid_String (cred_Subject cr)));
   ("issuer", JString (cred_Issuer cr)); ("issued_at", JTime (cred_IssuedAt cr)); ("claims", claims_json (cred_Claims cr))].

Definition HandleIssue : Handler S := fun r c h s =>
  if IsNil (rc_UserID c) then (WriteError (New CodeUnauthorized "authentication required") h, s)
  else
    prepared (DecodeAndPrepare (decode_issue r) h) s (fun req =>
    reply h (issue c (mkIssue (rc_UserID c) (iq_parsedType req) (iq_parsedNationalID req)) s) (fun cr => WriteJSON 200 (issued_json cr) h)).

(** A struct is never empty for [omitempty], a map is when it has no entries. *)
Definition verified_json (valid : bool) (cr : option CredentialRecord) (reason : string) : list (string * jval) :=
  [("valid", JBool valid)] ++ optional_field "credential_id" (match cr with Some x => cred_ID x | None => "" end) ++
  optional_field "type" (match cr with Some x => cred_Type x | None => "" end) ++
  optional_field "subject" (match cr with Some x => uuid_String (cred_Subject x) | None => "" end) ++
  [("issued_at", JTime (match cr with Some x => cred_IssuedAt x | None => zero_time end))] ++
  match cr with Some x => if bool_decide (cred_Claims x = ∅) then [] else [("claims", claims_json (cred_Claims x))] | None => [] end ++
  optional_field "reason" reason.

Definition HandleVerify : Handler S := fun r c h s =>
  if IsNil (rc_UserID c) then (WriteError (New CodeUnauthorized "authentication required") h, s)
  else
    prepared (@DecodeAndPrepare _ (VerifyRequest_ops uuid_valid) (decode_verify r) h) s (fun req =>
    match verify c (yq_parsedCredentialID req) s with
    | (Err e, s) =>
        if HasCode e CodeNotFound then (WriteJSON 404 (verified_json false None "credential_not_found") h, s)
        else (WriteError e h, s)
    | (Ok result, s) => (WriteJSON 200 (verified_json (ver_Valid result) (Some (ver_Credential result)) "") h, s)
    end).
End credentials.

(** ** Rate limits and quotas *)

(** An entry and the administrator who created it. *)
Record LimitPort (S : Type) := mkLimitPort {
  lp_AddToAllowlist : RCtx -> AddAllowlistRequest -> uuid -> ST S error AllowlistEntry;
  lp_RemoveFromAllowlist : RCtx -> RemoveAllowlistRequest -> ST S error unit;
  lp_ListAllowlist : RCtx -> ST S error (list (AllowlistEntry * uuid));
  lp_ResetRateLimit : RCtx -> ResetRateLimitRequest -> ST S error unit;
}.
Arguments lp_AddToAllowlist {S}.
Arguments lp_RemoveFromAllowlist {S}.
Arguments lp_ListAllowlist {S}.
Arguments lp_ResetRateLimit {S}.

Record QuotaPort (S : Type) := mkQuotaPort {
  qp_Check : RCtx -> string -> ST S error APIKeyQuota;
  qp_Reset : RCtx -> string -> ST S error unit;
  qp_List : RCtx -> ST S error (list APIKeyQuota);
  qp_UpdateTier : RCtx -> string -> string -> ST S error unit;
}.
Arguments qp_Check {S}.
Arguments qp_Reset {S}.
Arguments qp_List {S}.
Arguments qp_UpdateTier {S}.

Definition ParseAPIKeyID (s : string) : res string :=
  if str_empty s then Err (New CodeInvalidInput "API key ID cannot be empty") else Ok s.

(** The decoders fail on a body of more than 64 KB, which [http.MaxBytesReader] cuts. *)
Section limits.
Context {S : Type} (service : LimitPort S) (quotas : QuotaPort S) (uuid_String : uuid -> string).
Context (ToLower : string -> string) (valid_ip : string -> bool) (clock : time).
Context (decode_add : Request -> option AddAllowlistRequest) (decode_remove : Request -> option RemoveAllowlistRequest).
Context (decode_reset : Request -> option ResetRateLimitRequest) (decode_tier : Request -> option UpdateQuotaTierRequest).
Context (URLParam : Request -> string -> string).

Definition HandleAddAllowlist : Handler S := fun r c h s =>
  prepared (@DecodeAndPrepare _ (AddAllowlistRequest_ops ToLower valid_ip clock) (decode_add r) h) s (fun req =>
  reply h (lp_AddToAllowlist service c req (rc_UserID c) s) (fun entry =>
    WriteJSON 200 ([("allowlisted", JBool true); ("identifier", JString (ale_Identifier entry))] ++
                   optional_time "expires_at" (ale_ExpiresAt entry)) h)).

Definition HandleRemoveAllowlist : Handler S := fun r c h s =>
  prepared (@DecodeAndPrepare _ (RemoveAllowlistRequest_ops ToLower valid_ip) (decode_remove r) h) s (fun req =>
  reply h (lp_RemoveFromAllowlist service c req s) (fun _ => Responds (mkResponse 204 h NoBody))).

Definition entry_json (e : AllowlistEntry * uuid) : list (string * jval) :=
  [("id", JString (ale_ID e.1)); ("type", JString (AllowlistEntryType_text (ale_Type e.1))); ("identifier", JString (ale_Identifier e.1));
   ("reason", JString (ale_Reason e.1))] ++ optional_time "expires_at" (ale_ExpiresAt e.1) ++
  [("created_at", JTime (ale_CreatedAt e.1)); ("created_by", JString (uuid_String e.2))].

Definition write_list (status : Z) (objects : list (list (string * jval))) (h : gmap string string) : HttpResult :=
  Responds (mkResponse status (<["Content-Type" := "application/json"]> h) (JsonList objects)).

Definition HandleListAllowlist : Handler S := fun r c h s =>
  reply h (lp_ListAllowlist service c s) (fun entries => write_list 200 (entry_json <$> entries) h).

Definition HandleResetRateLimit : Handler S := fun r c h s =>
  prepared (@DecodeAndPrepare _ (ResetRateLimitRequest_ops ToLower valid_ip) (decode_reset r) h) s (fun req =>
  reply h (lp_ResetRateLimit service c req s) (fun _ => Responds (mkResponse 204 h NoBody))).

Definition requireAPIKeyFromPath (r : Request) : res string :=
  match ParseAPIKeyID (URLParam r "api_key") with
  | Err _ => Err (New CodeBadRequest "invalid api_key format")
  | Ok k => Ok k
  end.

Definition toQuotaUsageResponse (q : APIKeyQuota) : list (string * jval) :=
  [("api_key_id", JString (q_APIKeyID q)); ("tier", JString (q_Tier q)); ("usage", JInt (q_CurrentUsage q)); ("limit", JInt (q_MonthlyLimit q));
   ("remaining", JInt (Z.max (q_MonthlyLimit q - q_CurrentUsage q) 0)); ("reset_at", JTime (q_PeriodEnd q))].

Definition HandleGetQuota : Handler S := fun r c h s =>
  required h (requireAPIKeyFromPath r) s (fun apiKeyID =>
  reply h (qp_Check quotas c apiKeyID s) (fun quota => WriteJSON 200 (toQuotaUsageResponse quota) h)).
Definition HandleResetQuota : Handler S := fun r c h s =>
  required h (requireAPIKeyFromPath r) s (fun apiKeyID =>
  reply h (qp_Reset quotas c apiKeyID s) (fun _ => WriteJSON 200 [("status", JString "reset")] h)).
Definition HandleListQuotas : Handler S := fun r c h s =>
  reply h (qp_List quotas c s) (fun l => write_list 200 (toQuotaUsageResponse <$> l) h).
Definition HandleUpdateQuotaTier : Handler S := fun r c h s =>
  required h (requireAPIKeyFromPath r) s (fun apiKeyID =>
  prepared (@DecodeAndPrepare _ (UpdateQuotaTierRequest_ops ToLower) (decode_tier r) h) s (fun req =>
  reply h (qp_UpdateTier quotas c apiKeyID (uq_Tier req) s) (fun _ =>
    WriteJSON 200 [("status", JString "updated"); ("tier", JString (uq_Tier req))] h))).
End limits.

(** ** Administration views *)

Record AdminUserView := mkUserView {
  auv_ID : string; auv_TenantID : string; auv_Email : string; auv_FirstName : string; auv_LastName : string; auv_Verified : bool; auv_Active : bool;
}.
Record AdminSessionView := mkSessionView {
  asv_ID : string; asv_UserID : string; asv_CreatedAt : time; asv_ExpiresAt : time; asv_Active : bool;
}.
Record AdminUser := mkAdminUser {
  au_ID : uuid; au_TenantID : uuid; au_Email : string; au_FirstName : string; au_LastName : string; au_Verified : bool; au_Active : bool;
}.
Record AdminSession := mkAdminSession {
  an_ID : uuid; an_UserID : uuid; an_CreatedAt : time; an_ExpiresAt : time; an_Active : bool;
}.

(** The auth stores as the administration sees them; the maps are keyed by the text of
    an identifier. *)
Record AdminStores (S : Type) := mkAdminStores {
  st_ListAllUsers : ST S error (gmap string AdminUserView);
  st_ListAllSessions : ST S error (gmap string AdminSessionView);
  st_ListByUser : uuid -> ST S error (list AdminSessionView);
  st_audit_ListAll : ST S error (list AuditEvent);
  st_audit_ListRecent : Z -> ST S error (list AuditEvent);
}.
Arguments st_ListAllUsers {S}.
Arguments st_ListAllSessions {S}.
Arguments st_ListByUser {S}.
Arguments st_audit_ListAll {S}.
Arguments st_audit_ListRecent {S}.

Record Stats := mkStats { sts_TotalUsers : Z; sts_ActiveSessions : Z; sts_VCsIssued : Z; sts_DecisionsMade : Z; sts_Timestamp : time }.
Record AdminUserInfo := mkAdminUserInfo {
  inf_ID : uuid; inf_Email : string; inf_FirstName : string; inf_LastName : string; inf_SessionCount : Z; inf_LastActive : time; inf_Verified : bool;
}.

Section admin.
Context {S : Type} (stores : AdminStores S) (uuid_Parse : string -> option uuid) (uuid_String : uuid -> string) (clock : time).
Context (Atoi : string -> option Z) (event_json : AuditEvent -> list (string * jval)).

(** An identifier whose error is ignored is nil. *)
Definition parsed_or_nil (x : res uuid) : uuid := match x with Ok u => u | Err _ => 0%N end.

Definition mapUser (u : AdminUserView) : AdminUser :=
  mkAdminUser (parsed_or_nil (ParseUserID uuid_Parse (auv_ID u))) (parsed_or_nil (ParseTenantID uuid_Parse (auv_TenantID u)))
    (auv_Email u) (auv_FirstName u) (auv_LastName u) (auv_Verified u) (auv_Active u).
Definition mapSession (x : AdminSessionView) : AdminSession :=
  mkAdminSession (parsed_or_nil (ParseSessionID uuid_Parse (asv_ID x))) (parsed_or_nil (ParseUserID uuid_Parse (asv_UserID x)))
    (asv_CreatedAt x) (asv_ExpiresAt x) (asv_Active x).

Definition UserStoreAdapter_ListAll : ST S error (gmap uuid AdminUser) :=
  users ← st_ListAllUsers stores;
  mret (foldr (fun kv m => <[parsed_or_nil (ParseUserID uuid_Parse kv.1) := mapUser kv.2]> m) ∅ (map_to_list users)).
Definition SessionStoreAdapter_ListAll : ST S error (gmap uuid AdminSession) :=
  sessions ← st_ListAllSessions stores;
  mret (foldr (fun kv m => <[parsed_or_nil (ParseSessionID uuid_Parse kv.1) := mapSession kv.2]> m) ∅ (map_to_list sessions)).
Definition SessionStoreAdapter_ListByUser (userID : uuid) : ST S error (list AdminSession) :=
  sessions ← st_ListByUser stores userID; mret (mapSession <$> sessions).

Definition count_where {A} (P : A -> bool) (l : list A) : Z := Z.of_nat (length (List.filter P l)).

Definition GetStats : ST S error Stats :=
  users ← UserStoreAdapter_ListAll;
  sessions ← SessionStoreAdapter_ListAll;
  events ← st_try (st_audit_ListAll stores);
  let events := match events with Ok l => l | Err _ => [] end in
  mret (mkStats (Z.of_nat (size users)) (count_where (fun x => time_After (an_ExpiresAt x.2) clock) (map_to_list sessions))
          (count_where (fun e => bool_decide (ae_Action e = "vc_issued")) events)
          (count_where (fun e => bool_decide (ae_Action e = "decision_made")) events) clock).

Definition last_active (sessions : list AdminSession) : time :=
  foldl (fun last x => if time_After (an_CreatedAt x) last then an_CreatedAt x else last) zero_time sessions.

(** The users in the unspecified order of a Go map. *)
Fixpoint user_infos (users : list AdminUser) : ST S error (list AdminUserInfo) :=
  match users with
  | [] => mret []
  | u :: rest =>
      found ← st_try (SessionStoreAdapter_ListByUser (au_ID u));
      let sessions := match found with Ok l => l | Err _ => [] end in
      l ← user_infos rest;
      mret (mkAdminUserInfo (au_ID u) (au_Email u) (au_FirstName u) (au_LastName u) (Z.of_nat (length sessions)) (last_active sessions)
              (au_Verified u) :: l)
  end.
Definition GetAllUsers : ST S error (list AdminUserInfo) :=
  users ← UserStoreAdapter_ListAll; user_infos (map_to_list users).*2.
Definition GetRecentAuditEvents (limit : Z) : ST S error (list AuditEvent) := st_audit_ListRecent stores limit.

Definition stats_json (x : Stats) : list (string * jval) :=
  [("total_users", JInt (sts_TotalUsers x)); ("active_sessions", JInt (sts_ActiveSessions x)); ("vcs_issued", JInt (sts_VCsIssued x));
   ("decisions_made", JInt (sts_DecisionsMade x)); ("timestamp", JTime (sts_Timestamp x))].
Definition toUserInfoResponse (u : AdminUserInfo) : list (string * jval) :=
  [("id", JString (uuid_String (inf_ID u))); ("email", JString (inf_Email u)); ("first_name", JString (inf_FirstName u));
   ("last_name", JString (inf_LastName u)); ("session_count", JInt (inf_SessionCount u)); ("last_active", JTime (inf_LastActive u));
   ("verified", JBool (inf_Verified u))].
Definition toUsersListResponse (users : list AdminUserInfo) : list (string * jval) :=
  [("users", JArray (toUserInfoResponse <$> users)); ("total", JInt (Z.of_nat (length users)))].

Definition admin_reply {A} (h : gmap string string) (msg : string) (m : res A * S) (ok : A -> HttpResult) : HttpResult * S :=
  match m with (Err _, s) => (WriteJSON 500 [("error", JString msg)] h, s) | (Ok a, s) => (ok a, s) end.

Definition HandleGetStats : Handler S := fun r c h s =>
  admin_reply h "failed to get stats" (GetStats s) (fun x => WriteJSON 200 (stats_json x) h).
Definition HandleGetAllUsers : Handler S := fun r c h s =>
  admin_reply h "failed to get users" (GetAllUsers s) (fun users => WriteJSON 200 (toUsersListResponse users) h).

Definition audit_limit (limitStr : string) : Z :=
  if str_empty limitStr then 50
  else match Atoi limitStr with Some n => if 0 <? n then n else 50 | None => 50 end.
Definition HandleGetRecentAuditEvents : Handler S := fun r c h s =>
  admin_reply h "failed to get audit events" (GetRecentAuditEvents (audit_limit (Get (req_Query r) "limit")) s) (fun events =>
    WriteJSON 200 [("events", JArray (event_json <$> events)); ("total", JInt (Z.of_nat (length events)))] h).
End admin.
