(* ===== verification/Routes.v ===== *)
(** * The routes: [registerRoutes] and [setupAdminRouter] of [cmd/server/main.go]

    Every endpoint of the two servers with the group that guards it, and what holds of
    all of them: the application's state changes only through the three public auth
    endpoints, for a request with a valid token, or for one with the administration
    token; refusals of malformed requests; consents and their owners; client secrets.
    Matching a path to an endpoint is the router's ([chi]). *)
From S2P Require Import Prelude Errors Keys Breaker Ring SlidingWindow BucketStore Lockout Throttle RequestLimit RateAdmin LRU RegistryCache Registry AuthModels TRL AuthStores AuthService AuthSafety Consent Tenant Decision AuditTrail VC Http RateMiddleware AuthHandler Requests Endpoints.
Local Open Scope Z_scope.

Inductive Endpoint :=
| EpAuthorize | EpToken | EpRevoke
| EpUserInfo | EpListSessions | EpGetConsents
| EpRevokeSession | EpLogoutAll | EpGrantConsent | EpRevokeConsent | EpRevokeAllConsents | EpDeleteAllConsents
| EpCitizenLookup | EpSanctionsLookup | EpIssue | EpVerify | EpEvaluate
| EpAdminDeleteUser | EpAdminRevokeAllConsents
| EpCreateTenant | EpGetTenant | EpGetTenantByName | EpDeactivateTenant | EpReactivateTenant
| EpCreateClient | EpGetClient | EpUpdateClient | EpDeactivateClient | EpReactivateClient | EpRotateClientSecret
| EpStats | EpAllUsers | EpRecentAuditEvents.

#[global] Instance Endpoint_eq_dec : EqDecision Endpoint.
Proof. solve_decision. Defined.

(** The groups of the main server, and the routes of the administration server alone. *)
Inductive Group := GroupAuth | GroupRead | GroupSensitive | GroupAdmin | GroupMonitoring.

#[global] Instance Group_eq_dec : EqDecision Group.
Proof. solve_decision. Defined.

Definition group_of (e : Endpoint) : Group :=
  match e with
  | EpAuthorize | EpToken | EpRevoke => GroupAuth
  | EpUserInfo | EpListSessions | EpGetConsents => GroupRead
  | EpRevokeSession | EpLogoutAll | EpGrantConsent | EpRevokeConsent | EpRevokeAllConsents | EpDeleteAllConsents
  | EpCitizenLookup | EpSanctionsLookup | EpIssue | EpVerify | EpEvaluate => GroupSensitive
  | EpStats | EpAllUsers | EpRecentAuditEvents => GroupMonitoring
  | _ => GroupAdmin
  end.

(** [tenantHandler.Register] mounts its routes on both servers. *)
Definition is_tenant_route (e : Endpoint) : bool :=
  match e with
  | EpCreateTenant | EpGetTenant | EpGetTenantByName | EpDeactivateTenant | EpReactivateTenant | EpCreateClient | EpGetClient
  | EpUpdateClient | EpDeactivateClient | EpReactivateClient | EpRotateClientSecret => true
  | _ => false
  end.

Section routes.
Context {L F X Addr Prefix : Type} `{!RateLimiter L, !RateLimiter F}.
Context (ParseMediaType : string -> option string).
Context (ParseAddr : string -> option Addr) (Prefix_Contains : Prefix -> Addr -> bool).
Context (uuid_String : uuid -> string) (uuid_Parse : string -> option uuid).
Context (validator : string -> res JWTClaims) (isTokenRevoked : string -> X -> res bool).
Context (device : DeviceConfig) (clock : time) (newID adminToken : string).
Abbreviation Server := (Middleware L F * X)%type (only parsing).
(** The client limit of the public group, when it is configured. *)
Context (client_limit : Handler Server -> Handler Server).

Definition on_app (hd : Handler X) : Handler Server := fun r c h s => let '(res, x) := hd r c h s.2 in (res, (s.1, x)).

Abbreviation setup := (setupRouter ParseMediaType ParseAddr Prefix_Contains device clock newID).
Abbreviation protected class hd := (protected_group ParseMediaType ParseAddr Prefix_Contains uuid_String uuid_Parse validator isTokenRevoked device clock newID class hd).

Definition registerRoutes (app : Endpoint -> Handler X) (e : Endpoint) : option (Handler Server) :=
  match group_of e with
  | GroupAuth => Some (setup (ExtractVersion APIVersionV1 (RateLimit clock ClassAuth (client_limit (on_app (app e))))))
  | GroupRead => Some (protected ClassRead (on_app (app e)))
  | GroupSensitive => Some (protected ClassSensitive (on_app (app e)))
  | GroupAdmin =>
      if str_empty adminToken then None
      else Some (setup (ExtractVersion APIVersionV1 (RateLimitAuthenticated uuid_String clock ClassWrite
                          (RequireAdminToken adminToken (on_app (app e))))))
  | GroupMonitoring => None
  end.

Definition registerAdminRoutes (app : Endpoint -> Handler X) (e : Endpoint) : option (Handler Server) :=
  if str_empty adminToken then None
  else if is_tenant_route e || bool_decide (group_of e = GroupMonitoring)
  then Some (setupAdminRouter ParseMediaType clock newID adminToken (on_app (app e)))
  else None.

(** ** Guards *)

Definition has_admin_token (r : Request) : Prop := adminToken <> "" /\ Get (req_Header r) "X-Admin-Token" = adminToken.
Definition has_user_token (r : Request) (x : X) (userID : uuid) : Prop :=
  exists token claims p, grants uuid_Parse validator (Some isTokenRevoked) r x token claims p /\ pc_UserID p = userID.

Lemma on_app_keeps (hd : Handler X) (Q : X -> Prop) r c h s : Q (hd r c h s.2).2 -> Q (on_app hd r c h s).2.2.
Proof. unfold on_app. by destruct (hd r c h s.2). Qed.

Lemma RequireAdminToken_keeps (n : Handler Server) (Q : Server -> Prop) r c h s :
  (Get (req_Header r) "X-Admin-Token" = adminToken -> forall c, Q (n r c h s).2) -> Q s ->
  Q (RequireAdminToken adminToken n r c h s).2.
Proof. intros Hn HQ. unfold RequireAdminToken. case_bool_decide; simpl; [by apply Hn|done]. Qed.

Lemma admin_group_keeps (n : Handler Server) (Q : X -> Prop) r host port h m x :
  host <> "" -> HasPrefix host "[" = false -> colon_free port = true -> req_RemoteAddr r = JoinHostPort host port ->
  (Get (req_Header r) "X-Admin-Token" = adminToken -> forall c h m, Q (n r c h (m, x)).2.2) -> Q x ->
  Q (setup (ExtractVersion APIVersionV1 (RateLimitAuthenticated uuid_String clock ClassWrite (RequireAdminToken adminToken n))) r background h (m, x)).2.2.
Proof.
  intros Hne Hb Hp Hr Hn HQ. apply (setupRouter_keeps ParseMediaType ParseAddr Prefix_Contains device clock newID r host port (fun s => Q s.2)); try done.
  intros c h' _. unfold ExtractVersion, RateLimitAuthenticated.
  assert (forall c h m, Q (RequireAdminToken adminToken n r c h (m, x)).2.2) as HR.
  { intros c1 h1 m1. apply (RequireAdminToken_keeps n (fun s => Q s.2)); [|done]. intros Ht c2. by apply Hn. }
  destruct (mw_disabled m); [by apply HR|]. destruct (checkBothLimits _ _ _ _ m) as [v m'].
  apply (enforce_keeps _ _ _ (fun _ s => s.2 = x) (fun s => Q s.2)); [|done|done].
  intros c2 h2 [m2 x2] Hx. simpl in Hx. subst x2. apply HR.
Qed.

Lemma admin_server_keeps (n : Handler Server) (Q : X -> Prop) r h m x :
  (Get (req_Header r) "X-Admin-Token" = adminToken -> forall c h m, Q (n r c h (m, x)).2.2) -> Q x ->
  Q (setupAdminRouter ParseMediaType clock newID adminToken n r background h (m, x)).2.2.
Proof.
  intros Hn HQ. unfold setupAdminRouter, requesttime_Middleware, Recovery, RequestID, ContentTypeJSON.
  destruct (has_json_body_method _ && _ && _); [done|].
  assert (forall c h m, Q (RequireAdminToken adminToken n r c h (m, x)).2.2) as HR.
  { intros c1 h1 m1. apply (RequireAdminToken_keeps n (fun s => Q s.2)); [|done]. intros Ht c2. by apply Hn. }
  assert (forall c h, Q (RateLimit clock ClassAdmin (RequireAdminToken adminToken n) r c h (m, x)).2.2) as HL.
  { intros c1 h1. unfold RateLimit. destruct (mw_disabled m); [by apply HR|]. destruct (checkIPRateLimit _ _ _ m) as [v m'].
    apply (enforce_keeps _ _ _ (fun _ s => s.2 = x) (fun s => Q s.2)); [|done|done].
    intros c2 h2 [m2 x2] Hx. simpl in Hx. subst x2. apply HR. }
  match goal with |- context [RateLimit clock ClassAdmin _ r ?c ?h' _] => specialize (HL c h') end.
  by destruct (RateLimit clock ClassAdmin _ r _ _ _) as [[] s'].
Qed.

(** C21: The application's state is changed by authorized requests only.  Whatever the
    handlers behind the routes do, a request to an endpoint of a protected group leaves
    the state as it found it unless it carries a token that the validator accepts and
    that is not revoked, and a request to an administrative endpoint, on either server,
    unless it carries the configured administration token, which is not empty; only the
    three public auth endpoints are open. *)
Theorem state_changes_are_authorized (app : Endpoint -> Handler X) (e : Endpoint) (hd : Handler Server) (r : Request)
    (host port : string) (h : gmap string string) (m : Middleware L F) (x : X) :
  host <> "" -> HasPrefix host "[" = false -> colon_free port = true -> req_RemoteAddr r = JoinHostPort host port ->
  registerRoutes app e = Some hd \/ registerAdminRoutes app e = Some hd ->
  let x' := (hd r background h (m, x)).2.2 in
  match group_of e with
  | GroupAuth => e = EpAuthorize \/ e = EpToken \/ e = EpRevoke
  | GroupRead | GroupSensitive => x' = x \/ exists u, has_user_token r x u
  | GroupAdmin | GroupMonitoring => x' = x \/ has_admin_token r
  end.
Proof.
  intros Hne Hb Hp Hr Hd. cbv zeta. unfold registerRoutes, registerAdminRoutes in Hd.
  assert (forall class n, (protected class n r background h (m, x)).2.2 = x \/ exists u, has_user_token r x u) as Hprot.
  { intros class n. apply (protected_group_keeps ParseMediaType ParseAddr Prefix_Contains uuid_String uuid_Parse validator isTokenRevoked device
      clock newID class r host port (fun s => s.2 = x \/ exists u, has_user_token r x u)); try done; [|by left].
    intros c h' s (_ & _ & _ & _ & token & claims & p & Hg & Hu & _). right. by exists (pc_UserID p), token, claims, p. }
  assert (str_empty adminToken = false -> Get (req_Header r) "X-Admin-Token" = adminToken -> has_admin_token r) as Hadm.
  { intros Ha Ht. split; [|done]. intros ->. done. }
  destruct (group_of e) eqn:Hg.
  - by destruct e; simpl in Hg; try discriminate Hg; auto.
  - destruct Hd as [[= <-]|Hd]; [apply Hprot|]. destruct e; simpl in *; try discriminate Hg; by destruct (str_empty adminToken).
  - destruct Hd as [[= <-]|Hd]; [apply Hprot|]. destruct e; simpl in *; try discriminate Hg; by destruct (str_empty adminToken).
  - destruct (str_empty adminToken) eqn:Ha; [by destruct Hd|]. destruct Hd as [[= <-]|Hd].
    + apply (admin_group_keeps _ (fun y => y = x \/ has_admin_token r) r host port); try done; [|by left]. intros Ht c h' m'. right. auto.
    + destruct (is_tenant_route e || _); [|done]. injection Hd as <-.
      apply (admin_server_keeps _ (fun y => y = x \/ has_admin_token r)); [|by left]. intros Ht c h' m'. right. auto.
  - destruct Hd as [Hd|Hd]; [done|]. destruct (str_empty adminToken) eqn:Ha; [done|]. destruct (is_tenant_route e || _); [|done]. injection Hd as <-.
    apply (admin_server_keeps _ (fun y => y = x \/ has_admin_token r)); [|by left]. intros Ht c h' m'. right. auto.
Qed.
End routes.

(** ** Consents and their owners *)

Section only_user.
Context (cfg : ConsentConfig) (newID : nat -> uuid) (accepts : ConsentEvent -> bool) (u : uuid).

(** A computation that changes the consents of [u] alone. *)
Definition only_user {A} (m : ST ConsentState error A) : Prop :=
  forall s u', u' <> u -> records_of (cs_consents (m s).2) u' = records_of (cs_consents s) u'.

Lemma only_ret {A} (a : A) : only_user (mret a).
Proof. done. Qed.
Lemma only_fail {A} e : only_user (st_fail e : ST ConsentState error A).
Proof. done. Qed.
Lemma only_lift {A} (x : res A) : only_user (st_lift x).
Proof. done. Qed.
Lemma only_gets {A} (f : ConsentState -> A) : only_user (st_gets f).
Proof. done. Qed.
Lemma only_bind {A B} (m : ST ConsentState error A) (f : A -> ST ConsentState error B) :
  only_user m -> (forall a, only_user (f a)) -> only_user (m ≫= f).
Proof.
  intros Hm Hf s u' Hu. unfold mbind, st_bind. specialize (Hm s u' Hu). destruct (m s) as [[a|e] s1]; simpl in *; [|done].
  by rewrite (Hf a s1 u' Hu).
Qed.
Lemma only_bind_gets {A B} (g : ConsentState -> A) (f : A -> ST ConsentState error B) :
  (forall s u', u' <> u -> records_of (cs_consents (f (g s) s).2) u' = records_of (cs_consents s) u') -> only_user (st_gets g ≫= f).
Proof. intros Hf s u' Hu. unfold mbind, st_bind, st_gets. by apply Hf. Qed.
Lemma only_try {A} (m : ST ConsentState error A) : only_user m -> only_user (st_try m).
Proof. intros Hm s u' Hu. specialize (Hm s u' Hu). unfold st_try. by destruct (m s). Qed.
Lemma only_audit e : only_user (emitAudit accepts e).
Proof. intros s u' Hu. unfold emitAudit, st_modify. simpl. by destruct (accepts e). Qed.
Lemma only_uuid : only_user (uuid_New newID).
Proof. done. Qed.
Lemma only_tx {A} ctx (m : ST ConsentState error A) : only_user m -> only_user (Consent_RunInTx ctx m).
Proof. intros Hm. unfold Consent_RunInTx. by repeat case_match. Qed.

Lemma records_of_other cm x u' : u' <> u -> records_of (<[u := x]> cm) u' = records_of cm u'.
Proof. intros Hu. by rewrite records_of_insert, decide_False. Qed.

Lemma only_save c : cr_UserID c = u -> only_user (Consent_Save c).
Proof.
  intros Hc s u' Hu. unfold Consent_Save. st_unfold. rewrite Hc. destruct (records_of (cs_consents s) u !! _); simpl; by rewrite records_of_other.
Qed.
Lemma only_execute {A} scope validate (mutate : A -> ConsentRecord -> bool * ConsentRecord) : sc_UserID scope = u ->
  only_user (Consent_Execute scope validate mutate).
Proof.
  intros Hs s u' Hu. unfold Consent_Execute. st_unfold. rewrite Hs. destruct (records_of (cs_consents s) u !! _) as [r|]; [|done].
  destruct (validate r) as [a|e]; [|done]. destruct (mutate a r) as [[] r']; simpl; [by rewrite records_of_other|done].
Qed.

Lemma only_create scope now : sc_UserID scope = u -> only_user (createGrantTx cfg newID scope now).
Proof.
  intros Hs. unfold createGrantTx. apply only_bind; [apply only_uuid|]. intros consentID.
  destruct (NewRecord _ _ _ _ _) as [r|e] eqn:Hr; [|apply only_fail].
  assert (cr_UserID r = u) by (unfold NewRecord in Hr; repeat case_match; by simplify_eq/=).
  apply only_bind; [apply only_try; by apply only_save|]. intros [[]|e]; [apply only_ret|]. case_match; apply only_fail.
Qed.
Lemma only_upsert n scope now : sc_UserID scope = u -> only_user (upsert_attempts cfg newID n scope now).
Proof.
  intros Hs. induction n as [|n IH]; [apply only_fail|]. cbn [upsert_attempts].
  apply only_bind; [apply only_try; by apply only_execute|]. intros [[r eval]|e]; [case_match; apply only_ret|].
  destruct (errors_Is e ErrNotFound); [|case_match; apply only_fail].
  apply only_bind; [apply only_try; by apply only_create|]. intros [r|e2]; [apply only_ret|]. case_match; [done|apply only_fail].
Qed.
Lemma only_each {A} purposes (fn : ConsentScope -> ST ConsentState error A) :
  (forall scope, sc_UserID scope = u -> only_user (fn scope)) -> only_user (each_scope u purposes fn).
Proof.
  intros Hf. induction purposes as [|p rest IH]; [apply only_ret|]. cbn [each_scope].
  intros s u' Hu. unfold mbind at 1, st_bind at 1, st_lift. destruct (scopeForPurpose u p) as [scope|e] eqn:Hsc; [|done].
  assert (sc_UserID scope = u) as Hs by (unfold scopeForPurpose, NewConsentScope in Hsc; repeat case_match; by simplify_eq/=).
  apply only_bind; [by apply Hf| |done]. intros a. apply only_bind; [apply IH|]. intros l. apply only_ret.
Qed.
Lemma only_emit_grants l : only_user (emit_grants accepts l).
Proof. induction l as [|[r [f|]] l IH]; [apply only_ret| |apply IH]. simpl. apply only_bind; [apply only_audit|]. intros _. apply IH. Qed.
Lemma only_emit_revokes v now l : only_user (emit_revokes accepts v now l).
Proof. induction l as [|r l IH]; [apply only_ret|]. simpl. apply only_bind; [apply only_audit|]. intros _. apply IH. Qed.

Lemma only_Grant ctx ps : only_user (Grant cfg newID accepts ctx u ps).
Proof.
  unfold Grant. destruct (IsNil u); [apply only_fail|]. destruct (_ =? _)%nat; [apply only_fail|].
  apply only_bind; [apply only_lift|]. intros _. apply only_bind.
  - apply only_tx, only_each. intros scope Hs. by apply only_upsert.
  - intros l. apply only_bind; [apply only_emit_grants|]. intros _. apply only_ret.
Qed.
Lemma only_Revoke ctx ps : only_user (Revoke accepts ctx u ps).
Proof.
  unfold Revoke. destruct (IsNil u); [apply only_fail|]. apply only_bind; [apply only_lift|]. intros _. apply only_bind.
  - apply only_tx, only_each. intros scope Hs. unfold tryRevokeScopeTx. apply only_bind; [apply only_try; by apply only_execute|].
    intros [[r x]|e]; [apply only_ret|]. repeat case_match; (apply only_ret || apply only_fail).
  - intros l. apply only_bind; [apply only_emit_revokes|]. intros _. apply only_ret.
Qed.
Lemma only_RevokeAll ctx : only_user (RevokeAll accepts ctx u).
Proof.
  unfold RevokeAll. destruct (IsNil u); [apply only_fail|]. apply only_bind.
  - apply only_tx. intros s u' Hu. unfold Consent_RevokeAllByUser. st_unfold. destruct (cs_consents s !! u); [|done]. simpl. by rewrite records_of_other.
  - intros n. apply only_bind; [|intros _; apply only_ret]. case_match; [apply only_audit|apply only_ret].
Qed.
Lemma only_DeleteAll ctx : only_user (DeleteAll accepts ctx u).
Proof.
  unfold DeleteAll. destruct (IsNil u); [apply only_fail|]. apply only_bind; [|intros _; apply only_audit].
  apply only_tx. intros s u' Hu. unfold Consent_DeleteByUser, records_of. st_unfold. by rewrite lookup_delete_ne.
Qed.
Lemma only_List ctx f s : (Consent_List ctx u f s).2 = s.
Proof. unfold Consent_List. destruct (IsNil u); [done|]. st_unfold. destruct f as [[[p|] [st|]]|]; done. Qed.
End only_user.

Section consents.
Context {L F R Addr Prefix : Type} `{!RateLimiter L, !RateLimiter F}.
Context (ParseMediaType : string -> option string).
Context (ParseAddr : string -> option Addr) (Prefix_Contains : Prefix -> Addr -> bool).
Context (uuid_String : uuid -> string) (uuid_Parse : string -> option uuid).
(** The application: the consent service's state and the rest. *)
Abbreviation X := (ConsentState * R)%type (only parsing).
Context (validator : string -> res JWTClaims) (isTokenRevoked : string -> X -> res bool).
Context (device : DeviceConfig) (clock : time) (newID adminToken : string).
Context (client_limit : Handler (Middleware L F * X) -> Handler (Middleware L F * X)).
Context (cfg : ConsentConfig) (new_consent : nat -> uuid) (accepts : ConsentEvent -> bool).
(** The error of the request's context, before and after the lock of the transaction. *)
Context (cancelled : RCtx -> option error * option error).
Context (decode_grant : Request -> option GrantRequest) (decode_revoke : Request -> option RevokeRequest).
Context (URLParam : Request -> string -> string) (app : Endpoint -> Handler X).

Definition on_consent {A} (m : ST ConsentState error A) : ST X error A := st_zoom fst (fun c s => (c, s.2)) m.
Definition consent_ctx (c : RCtx) : ConsentCtx := mkConsentCtx (Now clock c) (cancelled c).1 (cancelled c).2.
Definition wired_consent : ConsentPort X := mkConsentPort _
  (fun c u ps => on_consent (Grant cfg new_consent accepts (consent_ctx c) u ps))
  (fun c u ps => on_consent (Revoke accepts (consent_ctx c) u ps))
  (fun c u => on_consent (RevokeAll accepts (consent_ctx c) u))
  (fun c u => on_consent (DeleteAll accepts (consent_ctx c) u))
  (fun c u f => on_consent (Consent_List (consent_ctx c) u f)).

Definition consent_app (e : Endpoint) : Handler X :=
  match e with
  | EpGrantConsent => HandleGrantConsent wired_consent clock decode_grant
  | EpRevokeConsent => HandleRevokeConsent wired_consent clock decode_revoke
  | EpRevokeAllConsents => HandleRevokeAllConsents wired_consent
  | EpDeleteAllConsents => HandleDeleteAllConsents wired_consent
  | EpGetConsents => HandleGetConsents wired_consent uuid_String clock
  | EpAdminRevokeAllConsents => HandleAdminRevokeAllConsents wired_consent uuid_Parse URLParam
  | _ => app e
  end.
Definition is_consent_route (e : Endpoint) : bool :=
  match e with
  | EpGrantConsent | EpRevokeConsent | EpRevokeAllConsents | EpDeleteAllConsents | EpGetConsents | EpAdminRevokeAllConsents => true
  | _ => false
  end.

Abbreviation consents_of s u := (records_of (cs_consents s.1) u) (only parsing).

Lemma on_consent_only {A} u (m : ST ConsentState error A) (s : X) u' : only_user u m -> u' <> u ->
  consents_of (on_consent m s).2 u' = consents_of s u'.
Proof. intros Hm Hu. unfold on_consent, st_zoom. specialize (Hm s.1 u' Hu). by destruct (m s.1). Qed.

Lemma reply_state {A} h (m : res A * X) ok : (reply h m ok).2 = m.2.
Proof. by destruct m as [[] s]. Qed.

(** An endpoint of the consent handler changes the consents of the user in the context. *)
Lemma consent_handler_own e r c h s u' : is_consent_route e = true -> e <> EpAdminRevokeAllConsents -> u' <> rc_UserID c ->
  consents_of (consent_app e r c h s).2 u' = consents_of s u'.
Proof.
  intros He Hne Hu. destruct e; try discriminate He; try done; simpl;
    unfold HandleGetConsents, HandleGrantConsent, HandleRevokeConsent, HandleRevokeAllConsents, HandleDeleteAllConsents;
    unfold RequireUserID; destruct (IsNil (rc_UserID c)); try done; cbn [required].
  - destruct (parseRecordFilter _ _) as [f|e]; [cbn [required]|done]. rewrite reply_state. simpl. unfold on_consent, st_zoom.
    pose proof (only_List (rc_UserID c) (consent_ctx c) f s.1) as Hl. destruct (Consent_List _ _ _ s.1) as [res x]. simpl in *. by subst.
  - unfold prepared. destruct (DecodeAndPrepare _ _) as [resp|req]; [done|]. destruct (GrantRequest_ToPurposes req) as [ps|e]; [|done].
    rewrite reply_state. by apply (on_consent_only (rc_UserID c)); [apply only_Grant|].
  - unfold prepared. destruct (DecodeAndPrepare _ _) as [resp|req]; [done|]. destruct (RevokeRequest_ToPurposes req) as [ps|e]; [|done].
    rewrite reply_state. by apply (on_consent_only (rc_UserID c)); [apply only_Revoke|].
  - rewrite reply_state. by apply (on_consent_only (rc_UserID c)); [apply only_RevokeAll|].
  - rewrite reply_state. by apply (on_consent_only (rc_UserID c)); [apply only_DeleteAll|].
Qed.
Lemma consent_handler_admin r c h s u' : ParseUserID uuid_Parse (URLParam r "user_id") <> Ok u' ->
  consents_of (consent_app EpAdminRevokeAllConsents r c h s).2 u' = consents_of s u'.
Proof.
  intros Hu. simpl. unfold HandleAdminRevokeAllConsents. destruct (negb _); [done|]. destruct (ParseUserID _ _) as [u|e] eqn:E; [|done].
  rewrite reply_state. apply (on_consent_only u); [apply only_RevokeAll|]. congruence.
Qed.

(** C22: Nobody but its owner and the administration touches a consent: through the whole
    stack, a request to any consent endpoint leaves the consents of a user as they
    were unless it carries a valid, unrevoked token of that user, or it is the
    administrative revocation for that user with the administration token. *)
Theorem consents_change_by_owner (e : Endpoint) (hd : Handler (Middleware L F * X)) (r : Request) (host port : string)
    (h : gmap string string) (m : Middleware L F) (x : X) (u : uuid) :
  host <> "" -> HasPrefix host "[" = false -> colon_free port = true -> req_RemoteAddr r = JoinHostPort host port ->
  is_consent_route e = true ->
  registerRoutes ParseMediaType ParseAddr Prefix_Contains uuid_String uuid_Parse validator isTokenRevoked device clock newID adminToken
    client_limit consent_app e = Some hd ->
  consents_of (hd r background h (m, x)).2.2 u = consents_of x u \/
  has_user_token uuid_Parse validator isTokenRevoked r x u \/
  (e = EpAdminRevokeAllConsents /\ has_admin_token adminToken r /\ ParseUserID uuid_Parse (URLParam r "user_id") = Ok u).
Proof.
  intros Hne Hb Hp Hr He Hd. unfold registerRoutes in Hd. 
  destruct (decide (e = EpAdminRevokeAllConsents)) as [->|Hna].
  - simpl in Hd. destruct (str_empty adminToken) eqn:Ha; [done|]. injection Hd as <-.
    apply (admin_group_keeps ParseMediaType ParseAddr Prefix_Contains uuid_String device clock newID adminToken _
      (fun y => consents_of y u = consents_of x u \/ has_user_token uuid_Parse validator isTokenRevoked r x u \/
        (EpAdminRevokeAllConsents = EpAdminRevokeAllConsents /\ has_admin_token adminToken r /\ ParseUserID uuid_Parse (URLParam r "user_id") = Ok u)) r host port);
      try done; [|by left].
    intros Ht c h' m'. apply on_app_keeps. simpl.
    assert (ParseUserID uuid_Parse (URLParam r "user_id") = Ok u \/ ParseUserID uuid_Parse (URLParam r "user_id") <> Ok u) as [E|E]
      by (destruct (ParseUserID _ _) as [v|]; [destruct (decide (v = u)) as [->|]; [by left|right; congruence]|by right]).
    + right; right. split_and!; [done| |done]. split; [|done]. intros ->. done.
    + left. by apply (consent_handler_admin r c h' x u).
  - assert (exists class, hd = protected_group ParseMediaType ParseAddr Prefix_Contains uuid_String uuid_Parse validator isTokenRevoked device clock newID class (on_app (consent_app e))) as (class & ->)
      by (destruct e; try discriminate He; try done; simpl in Hd; injection Hd as <-; eauto).
    apply (protected_group_keeps ParseMediaType ParseAddr Prefix_Contains uuid_String uuid_Parse validator isTokenRevoked device clock newID class r host port
      (fun s => consents_of s.2 u = consents_of x u \/ has_user_token uuid_Parse validator isTokenRevoked r x u \/
        (e = EpAdminRevokeAllConsents /\ has_admin_token adminToken r /\ ParseUserID uuid_Parse (URLParam r "user_id") = Ok u))); try done; [|by left].
    intros c h' [m' x'] (Hx & _ & _ & _ & token & claims & p & Hg & Hu & _). simpl in Hx. subst x'.
    destruct (decide (pc_UserID p = u)) as [Ep|Ep]; [right; left; by exists token, claims, p|]. left.
    apply on_app_keeps. simpl. apply consent_handler_own; [done|done|congruence].
Qed.
End consents.

(** ** Client secrets *)

Section secrets.
Context {R : Type} (uuid_String : uuid -> string) (uuid_Parse : string -> option uuid) (ToLower : string -> string).
Context (url_Parse : string -> option (string * string)) (bcrypt : string -> res string) (publisher : bool).
Context (userCounter : option (uuid -> res Z)).
(** The identifiers and the secret generated for the request, its time and errors. *)
Context (tenant_ctx : RCtx -> TenantCtx).
Context (decode_tenant : Request -> option CreateTenantRequest) (decode_client : Request -> option CreateClientRequest).
Context (decode_update : Request -> option UpdateClientRequest) (URLParam : Request -> string -> string).
Abbreviation X := (TenantState * R)%type (only parsing).
Context (app : Endpoint -> Handler X).

Definition on_tenant {A} (m : ST TenantState error A) : ST X error A := st_zoom fst (fun c s => (c, s.2)) m.
Definition wired_tenant : TenantPort X := mkTenantPort _
  (fun c name => on_tenant (CreateTenant ToLower publisher (tenant_ctx c) name))
  (fun c u => on_tenant (GetTenantDetails userCounter u))
  (fun c name => on_tenant (GetTenantByName ToLower name))
  (fun c u => on_tenant (DeactivateTenant publisher (tenant_ctx c) u))
  (fun c u => on_tenant (ReactivateTenant publisher (tenant_ctx c) u))
  (fun c cmd => on_tenant (CreateClient url_Parse bcrypt publisher (tenant_ctx c) cmd))
  (fun c u => on_tenant (GetClient u))
  (fun c u cmd => on_tenant (UpdateClient url_Parse bcrypt publisher (tenant_ctx c) u cmd))
  (fun c u => on_tenant (DeactivateClient publisher (tenant_ctx c) u))
  (fun c u => on_tenant (ReactivateClient publisher (tenant_ctx c) u))
  (fun c u => on_tenant (RotateClientSecret bcrypt publisher (tenant_ctx c) u)).

Definition tenant_app (e : Endpoint) : Handler X :=
  match e with
  | EpCreateTenant => HandleCreateTenant wired_tenant uuid_String decode_tenant
  | EpGetTenant => HandleGetTenant wired_tenant uuid_String uuid_Parse URLParam
  | EpGetTenantByName => HandleGetTenantByName wired_tenant uuid_String URLParam
  | EpDeactivateTenant => HandleDeactivateTenant wired_tenant uuid_String uuid_Parse URLParam
  | EpReactivateTenant => HandleReactivateTenant wired_tenant uuid_String uuid_Parse URLParam
  | EpCreateClient => HandleCreateClient wired_tenant uuid_String uuid_Parse ToLower url_Parse decode_client
  | EpGetClient => HandleGetClient wired_tenant uuid_String uuid_Parse URLParam
  | EpUpdateClient => HandleUpdateClient wired_tenant uuid_String uuid_Parse ToLower url_Parse decode_update URLParam
  | EpDeactivateClient => HandleDeactivateClient wired_tenant uuid_String uuid_Parse URLParam
  | EpReactivateClient => HandleReactivateClient wired_tenant uuid_String uuid_Parse URLParam
  | EpRotateClientSecret => HandleRotateClientSecret wired_tenant uuid_String uuid_Parse URLParam
  | _ => app e
  end.

Definition shows (res : HttpResult) (key v : string) : Prop :=
  match res with
  | Responds resp => match resp_Body resp with JsonBody fields => (key, JString v) ∈ fields | _ => False end
  | Panics _ => False
  end.

Lemma client_shows client secret status h v :
  shows (WriteJSON status (toClientResponse uuid_String client secret) h) "client_secret" v -> v = secret /\ secret <> "".
Proof.
  simpl. unfold toClientResponse, optional_field. destruct (str_empty secret) eqn:E; intros Hin.
  - exfalso. repeat (apply elem_of_cons in Hin as [Hin|Hin]; [by simplify_eq|]). by apply elem_of_nil in Hin.
  - apply elem_of_app in Hin as [Hin|Hin].
    + exfalso. repeat (apply elem_of_cons in Hin as [Hin|Hin]; [by simplify_eq|]). by apply elem_of_nil in Hin.
    + simpl in Hin. apply elem_of_cons in Hin as [Hin|Hin].
      * injection Hin as ->. split; [done|]. by intros ->.
      * exfalso. repeat (apply elem_of_cons in Hin as [Hin|Hin]; [by simplify_eq|]). by apply elem_of_nil in Hin.
Qed.
Lemma error_shows e h v : ~ shows (WriteError e h) "client_secret" v.
Proof.
  unfold WriteError. destruct (errors_As e) as [[c m]|]; simpl.
  - intros [Hin|Hin]%elem_of_cons; [by simplify_eq|]. destruct (negb (str_empty m) && _); [|by apply elem_of_nil in Hin].
    apply list_elem_of_singleton in Hin. by simplify_eq.
  - intros Hin%list_elem_of_singleton. by simplify_eq.
Qed.
Lemma tenant_shows t status h v : ~ shows (WriteJSON status (toTenantResponse uuid_String t) h) "client_secret" v.
Proof. simpl. intros Hin. repeat (apply elem_of_cons in Hin as [Hin|Hin]; [by simplify_eq|]). by apply elem_of_nil in Hin. Qed.

Lemma prepare_shows {T} `{!RequestOps T} (d : option T) h resp v : DecodeAndPrepare d h = inl resp -> ~ shows resp "client_secret" v.
Proof.
  unfold DecodeAndPrepare, DecodeJSON. destruct d as [req|]; [|intros [= <-]; apply error_shows].
  destruct (PrepareRequest req) as [[]]; [done|]. intros [= <-]. case_match; apply error_shows.
Qed.

Definition fresh_or_none (ctx : TenantCtx) (secret : string) : Prop := secret = "" \/ tx_Secret ctx = Ok secret.

Lemma generateSecret_fresh ctx b secret hash : generateSecret bcrypt ctx b = Ok (secret, hash) -> fresh_or_none ctx secret.
Proof.
  unfold generateSecret. destruct b; [intros [= <- <-]; by left|]. destruct (tx_Secret ctx) as [v|] eqn:E; [|done].
  destruct (secrets_Hash _ v); [|done]. intros [= <- <-]. by right.
Qed.

(** A computation whose second result is fresh. *)
Definition gives_fresh (ctx : TenantCtx) (m : ST TenantState error (Client * string)) : Prop :=
  forall s client secret s', m s = (Ok (client, secret), s') -> fresh_or_none ctx secret.
Lemma gives_bind {A} ctx (m : ST TenantState error A) f : (forall a, gives_fresh ctx (f a)) -> gives_fresh ctx (m ≫= f).
Proof. intros Hf s client secret s'. unfold mbind, st_bind. destruct (m s) as [[a|e] s1]; [apply Hf|done]. Qed.
Lemma gives_secret ctx (x : res (string * string)) f : (forall secret hash, x = Ok (secret, hash) -> gives_fresh ctx (f (secret, hash))) ->
  gives_fresh ctx (st_lift x ≫= f).
Proof. intros Hf s client secret s'. unfold mbind, st_bind, st_lift. destruct x as [[v hash]|e]; [by apply Hf|done]. Qed.
Lemma gives_ret ctx client secret : fresh_or_none ctx secret -> gives_fresh ctx (mret (client, secret)).
Proof. by intros Hf s c v s' [= _ <- _]. Qed.
Lemma gives_fail ctx e : gives_fresh ctx (st_fail e).
Proof. done. Qed.

Lemma CreateClient_fresh ctx cmd : gives_fresh ctx (CreateClient url_Parse bcrypt publisher ctx cmd).
Proof.
  unfold CreateClient. destruct (CreateClientCommand_Validate _ _); [|apply gives_fail]. unfold Tenant_RunInTx.
  destruct (tx_Err ctx); [apply gives_fail|]. destruct (tx_ErrLocked ctx); [apply gives_fail|].
  apply gives_bind. intros tenant. destruct (negb _); [apply gives_fail|]. apply gives_secret. intros secret hash Hg.
  (apply gives_bind; intros ?). (apply gives_bind; intros ?). (apply gives_bind; intros ?). apply gives_ret. by eapply generateSecret_fresh.
Qed.
Lemma UpdateClient_fresh ctx u cmd : gives_fresh ctx (UpdateClient url_Parse bcrypt publisher ctx u cmd).
Proof.
  unfold UpdateClient. apply gives_bind. intros _. destruct (UpdateClientCommand_Validate _ _); [|apply gives_fail].
  apply gives_secret. intros secret hash Hg. do 2 (apply gives_bind; intros ?). apply gives_ret.
  unfold rotation_secret in Hg. destruct (uc_RotateSecret cmd); [by eapply generateSecret_fresh|]. injection Hg as <- <-. by left.
Qed.
Lemma Rotate_fresh ctx u : gives_fresh ctx (RotateClientSecret bcrypt publisher ctx u).
Proof.
  unfold RotateClientSecret. apply gives_bind. intros _. apply gives_secret. intros secret hash Hg. do 2 (apply gives_bind; intros ?).
  apply gives_ret. by eapply generateSecret_fresh.
Qed.

Lemma reply_shows_client c h (m : ST TenantState error (Client * string)) (s : X) status v : gives_fresh (tenant_ctx c) m ->
  shows (reply h (on_tenant m s) (fun '(client, secret) => WriteJSON status (toClientResponse uuid_String client secret) h)).1 "client_secret" v ->
  v <> "" /\ tx_Secret (tenant_ctx c) = Ok v.
Proof.
  intros Hm. unfold on_tenant, st_zoom. destruct (m s.1) as [[[client secret]|e] s1] eqn:E; cbn [reply fst]; [|by intros ?%error_shows].
  intros [-> Hne]%client_shows. destruct (Hm _ _ _ _ E) as [->|Hx]; [done|]. by split.
Qed.
Lemma reply_shows_none {A} h (m : ST TenantState error A) (s : X) ok v : (forall a, ~ shows (ok a) "client_secret" v) ->
  ~ shows (reply h (on_tenant m s) ok).1 "client_secret" v.
Proof. intros Hok. unfold on_tenant, st_zoom. destruct (m s.1) as [[a|e] s1]; cbn [reply fst]; [apply Hok|apply error_shows]. Qed.

Lemma tenant_id_shows r h s (next : uuid -> HttpResult * X) v : shows (with_tenant_id uuid_Parse URLParam r h s next).1 "client_secret" v ->
  exists u, shows (next u).1 "client_secret" v.
Proof. unfold with_tenant_id. destruct (ParseTenantID _ _) as [u|e]; [by exists u|by intros ?%error_shows]. Qed.
Lemma client_id_shows r h s (next : uuid -> HttpResult * X) v : shows (with_client_id uuid_Parse URLParam r h s next).1 "client_secret" v ->
  exists u, shows (next u).1 "client_secret" v.
Proof. unfold with_client_id. destruct (ParseClientID _ _) as [u|e]; [by exists u|by intros ?%error_shows]. Qed.
Lemma prepared_shows {T} `{!RequestOps T} (d : option T) h s (next : T -> HttpResult * X) v :
  shows (prepared (DecodeAndPrepare d h) s next).1 "client_secret" v -> exists req, shows (next req).1 "client_secret" v.
Proof. unfold prepared. destruct (DecodeAndPrepare d h) as [resp|req] eqn:E; [by intros ?%(prepare_shows _ _ _ _ E)|by exists req]. Qed.

(** A client secret leaves the program once.  Of all tenant and client endpoints, in
    every state and for every request, only the creation, the update and the rotation of
    a client answer with a client secret, and the one they show is the (nonempty) secret
    generated for that very request, never one stored before. *)
Theorem client_secret_shown_once (e : Endpoint) (r : Request) (c : RCtx) (h : gmap string string) (s : X) (v : string) :
  is_tenant_route e = true -> shows (tenant_app e r c h s).1 "client_secret" v ->
  (e = EpCreateClient \/ e = EpUpdateClient \/ e = EpRotateClientSecret) /\ v <> "" /\ tx_Secret (tenant_ctx c) = Ok v.
Proof.
  assert (forall A (m : ST TenantState error A) ok P, (forall a, ~ shows (ok a) "client_secret" v) -> shows (reply h (on_tenant m s) ok).1 "client_secret" v -> P) as Hno
    by (intros A m ok P Hok Hs; by destruct (reply_shows_none h m s ok v Hok)).
  assert (forall client status, ~ shows (WriteJSON status (toClientResponse uuid_String client "") h) "client_secret" v) as Hcl
    by (intros client status [_ Hne]%client_shows; done).
  intros He. destruct e; try discriminate He; cbn [tenant_app]; intros Hs.
  - apply prepared_shows in Hs as (req & Hs). eapply Hno, Hs. intros t Hin. simpl in Hin.
    repeat (apply elem_of_cons in Hin as [Hin|Hin]; [by simplify_eq|]). by apply elem_of_nil in Hin.
  - apply tenant_id_shows in Hs as (u & Hs). eapply Hno, Hs. intros td Hin. simpl in Hin.
    repeat (apply elem_of_cons in Hin as [Hin|Hin]; [by simplify_eq|]). by apply elem_of_nil in Hin.
  - eapply Hno, Hs. intros [t|]; [apply tenant_shows|by intros []].
  - apply tenant_id_shows in Hs as (u & Hs). eapply Hno, Hs. intros t. apply tenant_shows.
  - apply tenant_id_shows in Hs as (u & Hs). eapply Hno, Hs. intros t. apply tenant_shows.
  - unfold HandleCreateClient in Hs. apply prepared_shows in Hs as (req & Hs). destruct (CreateClientRequest_ToCommand _ req) as [cmd|e]; [|by apply error_shows in Hs].
    cbn [required] in Hs. apply (reply_shows_client c) in Hs; [|apply CreateClient_fresh]. split; [by left|done].
  - apply client_id_shows in Hs as (u & Hs). eapply Hno, Hs. intros client. apply Hcl.
  - apply client_id_shows in Hs as (u & Hs). apply prepared_shows in Hs as (req & Hs). apply (reply_shows_client c) in Hs; [|apply UpdateClient_fresh].
    split; [by right; left|done].
  - apply client_id_shows in Hs as (u & Hs). eapply Hno, Hs. intros client. apply Hcl.
  - apply client_id_shows in Hs as (u & Hs). eapply Hno, Hs. intros client. apply Hcl.
  - apply client_id_shows in Hs as (u & Hs). apply (reply_shows_client c) in Hs; [|apply Rotate_fresh]. split; [by right; right|done].
Qed.
End secrets.

(** ** Malformed requests *)

(** Errors that are the client's: domain errors answered with 400. *)
Definition client_error (e : error) : Prop := exists c m, errors_As e = Some (c, m) /\ DomainCodeToHTTPStatus c = 400.

(** A request type whose preparation fails only with such errors: every type that a
    handler decodes with [DecodeAndPrepare].  ([AuthorizationRequest] and [TokenRequest]
    are only decoded by their handlers, with [DecodeJSON]; the service prepares them
    after the client's rate limit has been counted.) *)
Class ClientErrors (T : Type) `{!RequestOps T} : Prop :=
  prepare_client_error : forall (req : T) e req', PrepareRequest req = (Err e, req') -> client_error e.

Definition checks {A} (x : res A) : Prop := forall e, x = Err e -> client_error e.

Lemma client_error_New c m : DomainCodeToHTTPStatus c = 400 -> client_error (New c m).
Proof. intros Hc. by exists c, m. Qed.

(** Every branch that fails fails with a new error. *)
Ltac client_error := repeat (case_match; simplify_eq/=); solve [by apply client_error_New | by eauto].
Ltac prepare_with tac := intros req e req'; unfold PrepareRequest; simpl; tac; intros Hp; client_error.

#[global] Instance CreateTenantRequest_client : ClientErrors CreateTenantRequest.
Proof. prepare_with ltac:(unfold CreateTenantRequest_Validate, CheckStringLength). Qed.
#[global] Instance CitizenLookupRequest_client : ClientErrors CitizenLookupRequest.
Proof. prepare_with ltac:(unfold CitizenLookupRequest_Validate). Qed.
#[global] Instance SanctionsCheckRequest_client : ClientErrors SanctionsCheckRequest.
Proof. prepare_with ltac:(unfold SanctionsCheckRequest_Validate). Qed.
#[global] Instance handler_IssueRequest_client : ClientErrors handler_IssueRequest.
Proof. prepare_with ltac:(unfold handler_IssueRequest_Validate). Qed.
#[global] Instance handler_EvaluateRequest_client : ClientErrors handler_EvaluateRequest.
Proof. prepare_with ltac:(unfold handler_EvaluateRequest_Validate, ParsePurpose, ParseNationalID; cbv zeta; simpl). Qed.
#[global] Instance VerifyRequest_client uuid_valid : @ClientErrors _ (VerifyRequest_ops uuid_valid).
Proof. prepare_with ltac:(unfold VerifyRequest_Validate). Qed.
#[global] Instance UpdateQuotaTierRequest_client ToLower : @ClientErrors _ (UpdateQuotaTierRequest_ops ToLower).
Proof. prepare_with ltac:(unfold UpdateQuotaTierRequest_Validate). Qed.

#[global] Instance RevokeTokenRequest_ops : RequestOps RevokeTokenRequest :=
  mkOps _ None (Some RevokeTokenRequest_Normalize) (Some (fun r => (RevokeTokenRequest_Validate r, r))).
#[global] Instance RevokeTokenRequest_client : ClientErrors RevokeTokenRequest.
Proof. prepare_with ltac:(unfold RevokeTokenRequest_Validate). Qed.

Lemma purposes_checks l : checks (request_validatePurposes l).
Proof.
  intros e. unfold request_validatePurposes. case_match; [intros [= <-]; by apply client_error_New|].
  case_match; [intros [= <-]; by apply client_error_New|]. clear. induction l as [|p l IH]; simpl; [done|].
  intros Hp. client_error.
Qed.
#[global] Instance GrantRequest_client : ClientErrors GrantRequest.
Proof. intros req e req'. unfold PrepareRequest. simpl. intros [= Hp _]. by apply purposes_checks in Hp. Qed.
#[global] Instance RevokeRequest_client : ClientErrors RevokeRequest.
Proof. intros req e req'. unfold PrepareRequest. simpl. intros [= Hp _]. by apply purposes_checks in Hp. Qed.

Lemma entry_checks valid_ip t i : checks (validateAllowlistEntry valid_ip t i).
Proof. intros e. unfold validateAllowlistEntry. intros Hp. client_error. Qed.
#[global] Instance AddAllowlistRequest_client ToLower valid_ip wall : @ClientErrors _ (AddAllowlistRequest_ops ToLower valid_ip wall).
Proof.
  intros req e req'. unfold PrepareRequest. simpl. intros [= Hp _]. revert Hp. unfold AddAllowlistRequest_ValidateAt.
  destruct (validateAllowlistEntry _ _ _) eqn:E; [intros Hp; client_error|intros [= <-]; by apply entry_checks in E].
Qed.
#[global] Instance RemoveAllowlistRequest_client ToLower valid_ip : @ClientErrors _ (RemoveAllowlistRequest_ops ToLower valid_ip).
Proof. intros req e req'. unfold PrepareRequest. simpl. intros [= Hp _]. by apply entry_checks in Hp. Qed.
#[global] Instance ResetRateLimitRequest_client ToLower valid_ip : @ClientErrors _ (ResetRateLimitRequest_ops ToLower valid_ip).
Proof.
  intros req e req'. unfold PrepareRequest. simpl. intros [= Hp _]. revert Hp. unfold ResetRateLimitRequest_Validate.
  destruct (validateAllowlistEntry _ _ _) eqn:E; [intros Hp; client_error|intros [= <-]; by apply entry_checks in E].
Qed.

Lemma string_checks f v n : checks (CheckStringLength f v n).
Proof. intros e. unfold CheckStringLength. intros Hp. client_error. Qed.
Lemma count_checks f v n : checks (CheckSliceCount f v n).
Proof. intros e. unfold CheckSliceCount. intros Hp. client_error. Qed.
Lemma each_checks f l n : checks (CheckEachStringLength f l n).
Proof. intros e. induction l as [|v l IH]; simpl; [done|]. intros Hp. client_error. Qed.
Lemma urls_checks url_Parse l : checks (urls_parse url_Parse l).
Proof. intros e. induction l as [|v l IH]; simpl; [done|]. intros Hp. client_error. Qed.
Lemma first_checks l : Forall checks l -> checks (first_error l).
Proof. induction 1 as [|[[]|e] l Hx _ IH]; simpl; [done|done|]. by intros e' [= <-]; apply Hx. Qed.
Create HintDb checks.
#[export] Hint Resolve string_checks count_checks each_checks urls_checks : checks.

#[global] Instance CreateClientRequest_client ToLower uuid_Parse url_Parse : @ClientErrors _ (CreateClientRequest_ops ToLower uuid_Parse url_Parse).
Proof.
  intros req e req'. unfold PrepareRequest. simpl. unfold CreateClientRequest_Validate.
  destruct (Create_validateSizeLimits _) eqn:E1; [|intros [= <- _]; revert E1; apply first_checks; repeat constructor; auto with checks].
  unfold Create_validateRequired, Create_validateSyntax. intros Hp. repeat (case_match; simplify_eq/=); try by apply client_error_New.
  eapply urls_checks. eassumption.
Qed.
#[global] Instance UpdateClientRequest_client ToLower url_Parse : @ClientErrors _ (UpdateClientRequest_ops ToLower url_Parse).
Proof.
  intros req e req'. unfold PrepareRequest. simpl. unfold UpdateClientRequest_Validate. intros [= Hp _]. revert Hp.
  destruct (Update_validateSizeLimits _) eqn:E1.
  - unfold Update_validateSyntax. destruct (ucq_RedirectURIs _); [apply urls_checks|done].
  - intros [= <-]. revert E1. unfold Update_validateSizeLimits. apply first_checks.
    repeat apply Forall_app_2; case_match; repeat constructor; auto with checks.
Qed.

(** A malformed request stops at the door: for every type that a handler decodes and
    prepares, a body that was read and does not decode or does not validate is answered
    with status 400 and a JSON error that names a code, the request is not handed on,
    and the state is untouched. *)
Theorem malformed_requests_refused {S T : Type} `{!RequestOps T} `{!ClientErrors T} (decoded : option T) (h : gmap string string) (s : S)
    (next : T -> HttpResult * S) :
  (exists req, PrepareRequest <$> decoded = Some (Ok tt, req) /\ prepared (DecodeAndPrepare decoded h) s next = next req) \/
  (exists fields code, prepared (DecodeAndPrepare decoded h) s next = (WriteJSON 400 fields h, s) /\ fields !! 0%nat = Some ("error", JString code)).
Proof.
  assert (forall e, client_error e -> exists fields code, WriteError e h = WriteJSON 400 fields h /\ fields !! 0%nat = Some ("error", JString code)) as Hw.
  { intros e (c & m & He & Hc). unfold WriteError. rewrite He, Hc. eauto. }
  unfold DecodeAndPrepare, DecodeJSON. destruct decoded as [req|]; simpl.
  - destruct (PrepareRequest req) as [[[]|e] req'] eqn:E; simpl; [left; eauto|right].
    pose proof (prepare_client_error _ _ _ E) as He. destruct (Hw e He) as (fields & code & Hr & Hf). exists fields, code.
    destruct He as (c & m & Ha & _). by rewrite Ha, Hr.
  - right. destruct (Hw (New CodeBadRequest "invalid request body")) as (fields & code & Hr & Hf); [by apply client_error_New|].
    exists fields, code. by rewrite Hr.
Qed.

(** ** Examples *)

Module RouteExample.
Definition parse (s : string) : option uuid := Some (N.of_nat (String.length s)).
Definition validate (token : string) : res JWTClaims := Ok (mkClaims token "uxx" "" "jti" "v1").
Definition open_list {X} (jti : string) (x : X) : res bool := Ok false.
Definition request (token : string) : Request :=
  mkRequest "DELETE" "/v1/auth/consent" "10.0.0.1:4000" {[ "Authorization" := "Bearer " +:+ token ]} ∅ None ∅.
Definition no_device : DeviceConfig := mkDeviceConfig None "".
Definition idle {X} (e : Endpoint) : Handler X := fun _ _ h s => (WriteJSON 200 [] h, s).
Definition no_limit {X} (n : Handler X) : Handler X := n.

(** Every handler adds to a counter. *)
Definition counting (e : Endpoint) : Handler nat := fun _ _ h s => (WriteJSON 200 [] h, S s).
Definition counted (e : Endpoint) : Handler (Middleware MwExample.Script MwExample.Counter * nat) :=
  default (fun _ _ h s => (WriteJSON 404 [] h, s))
    (registerRoutes (Addr := string) (Prefix := string) Some Some (fun _ _ => false) (fun _ => "u") parse (fun _ => Err (EOther "bad token")) open_list
       no_device 100 "id" "admin" no_limit counting e).

Lemma state_changes_are_authorized_witness :
  (counted EpCreateTenant (request "xx") background ∅ (MwExample.outage, 5%nat)).2.2 = 5%nat \/ has_admin_token "admin" (request "xx").
Proof.
  apply (state_changes_are_authorized (Addr := string) (Prefix := string) Some Some (fun _ _ => false) (fun _ => "u") parse (fun _ => Err (EOther "bad token"))
    open_list no_device 100 "id" "admin" no_limit counting EpCreateTenant (counted EpCreateTenant) (request "xx") "10.0.0.1" "4000"); try done. by left.
Defined.

(** User 2 deletes all consents: those of user 7 stay. *)
Definition consent_routes (e : Endpoint) : Handler (Middleware MwExample.Script MwExample.Counter * (ConsentState * unit)) :=
  default (fun _ _ h s => (WriteJSON 404 [] h, s))
    (registerRoutes (Addr := string) (Prefix := string) Some Some (fun _ _ => false) (fun _ => "u") parse validate open_list
       no_device 100 "id" "admin" no_limit
       (consent_app (fun _ => "u") parse 100 ConsentExample.cfg ConsentExample.newID ConsentExample.accepts (fun _ => (None, None))
          (fun _ => None) (fun _ => None) (fun _ _ => "user") idle) e).

Lemma consents_change_by_owner_witness :
  records_of (cs_consents (consent_routes EpDeleteAllConsents (request "xx") background ∅ (MwExample.outage, (ConsentExample.s, tt))).2.2.1) 7 =
  records_of (cs_consents ConsentExample.s) 7 \/
  has_user_token parse validate open_list (request "xx") (ConsentExample.s, tt) 7 \/
  (EpDeleteAllConsents = EpAdminRevokeAllConsents /\ has_admin_token "admin" (request "xx") /\ ParseUserID parse "user" = Ok 7%N).
Proof.
  apply (consents_change_by_owner (Addr := string) (Prefix := string) Some Some (fun _ _ => false) (fun _ => "u") parse validate open_list no_device 100 "id"
    "admin" no_limit ConsentExample.cfg ConsentExample.newID ConsentExample.accepts (fun _ => (None, None)) (fun _ => None) (fun _ => None)
    (fun _ _ => "user") idle EpDeleteAllConsents (consent_routes EpDeleteAllConsents) (request "xx") "10.0.0.1" "4000"); done.
Defined.

(** What the requests of user 2 and user 7 leave of the consents of user 7. *)
Example consents_deleted_by_owner :
  size (records_of (cs_consents ConsentExample.s) 7) = 2%nat /\
  size (records_of (cs_consents (consent_routes EpDeleteAllConsents (request "xx") background ∅ (MwExample.outage, (ConsentExample.s, tt))).2.2.1) 7) = 2%nat /\
  size (records_of (cs_consents (consent_routes EpDeleteAllConsents (request "xxxxxxx") background ∅ (MwExample.outage, (ConsentExample.s, tt))).2.2.1) 7) = 0%nat.
Proof. vm_compute. done. Qed.

Lemma malformed_requests_refused_witness :
  (exists req, PrepareRequest <$> Some (mkGrantRequest ["nonsense"]) = Some (Ok tt, req) /\
     prepared (DecodeAndPrepare (Some (mkGrantRequest ["nonsense"])) ∅) tt (fun _ => (Panics ∅, tt)) = (Panics ∅, tt)) \/
  (exists fields code, prepared (DecodeAndPrepare (Some (mkGrantRequest ["nonsense"])) ∅) tt (fun _ => (Panics ∅, tt)) = (WriteJSON 400 fields ∅, tt) /\
     fields !! 0%nat = Some ("error", JString code)).
Proof. apply (malformed_requests_refused (Some (mkGrantRequest ["nonsense"])) ∅ tt (fun _ => (Panics ∅, tt))). Defined.

(** A new confidential client of an active tenant. *)
Definition bcrypt (s : string) : res string := Ok ("hash of " +:+ s).
Definition tctx (c : RCtx) : TenantCtx := mkTenantCtx 100 None None 9 "oauth" (Ok "s3cret").
Definition tenants0 : TenantState := (CreateTenant id true (mkTenantCtx 50 None None 7 "" (Ok "")) "Acme" (mkTS ∅ ∅ ∅ ∅ ∅ ∅ 0 [])).2.
Definition client_body : CreateClientRequest :=
  mkCreateClientRequest "acme-id" "Web" ["https://app.example.com/cb"] ["authorization_code"] ["openid"] false 0.
Definition clients (e : Endpoint) : Handler (TenantState * unit) :=
  tenant_app (fun _ => "u") parse id (fun _ => Some ("https", "app.example.com")) bcrypt true None tctx (fun _ => None) (fun _ => Some client_body)
    (fun _ => None) (fun _ _ => "nine-----") idle e.

Lemma client_secret_shown_once_witness :
  (EpCreateClient = EpCreateClient \/ EpCreateClient = EpUpdateClient \/ EpCreateClient = EpRotateClientSecret) /\ "s3cret" <> "" /\
  tx_Secret (tctx background) = Ok "s3cret".
Proof.
  apply (client_secret_shown_once (fun _ => "u") parse id (fun _ => Some ("https", "app.example.com")) bcrypt true None tctx (fun _ => None)
    (fun _ => Some client_body) (fun _ => None) (fun _ _ => "nine-----") idle EpCreateClient (request "xx") background ∅ (tenants0, tt)); [done|].
  vm_compute. set_solver.
Defined.
End RouteExample.
