(* ===== verification/Redis.v ===== *)
(** * The Redis server under the Redis stores
    [github.com/redis/go-redis] and the server, as far as
    [internal/auth/store/session/store_redis.go],
    [internal/auth/store/revocation/store_redis.go] and
    [internal/evidence/registry/store/store_redis.go] use them

    A key holds a string or a set of strings and may expire.  The server serves one
    command at a time; between two commands of one process it may have served any
    writes of others.  A command fails, or is done, or is done while its reply is lost;
    the commands the stores use are idempotent, so that a command the client repeats
    counts once.  Which happens, the clock of the server and the clock of the process are
    decided by a driver acting on a world [W] that the model does not constrain. *)
From S2P Require Import Prelude Errors SqlDb.
Open Scope Z_scope.

Inductive rval := RStr (s : string) | RSet (members : gset string).

Record rentry := mkREntry { re_val : rval; re_expires : option time }.

Abbreviation keyspace := (gmap string rentry) (only parsing).

(** The errors of a command: [redis.Nil], [redis.TxFailedErr], a reply of the server, a
    failure of the connection. *)
Inductive rerr := Nil | TxFailedErr | WrongType | ConnError (msg : string).

Definition redis_error (e : rerr) : error :=
  match e with
  | Nil => EOther "redis: nil"
  | TxFailedErr => EOther "redis: transaction failed"
  | WrongType => EOther "WRONGTYPE Operation against a key holding the wrong kind of value"
  | ConnError m => EOther m
  end.

Record RDriver (W : Type) := mkRDriver {
  rd_cmd : W -> outcome * W;
  (** The clock of the server when the command is served. *)
  rd_now : W -> time;
  (** [time.Now()] of the process. *)
  rd_wall : W -> time;
  (** The writes of others served since the last command: the new entry of a key, or
      its deletion. *)
  rd_others : W -> list (string * option rentry);
  (** A time to live as SET and as EXPIRE keep it, and as TTL reports it: clients and
      server use whole milliseconds and seconds. *)
  rd_px : duration -> duration;
  rd_ex : duration -> duration;
  rd_left : duration -> duration;
  (** The members a server picks at random. *)
  rd_pick : W -> Z -> gset string -> list string;
  (** The next cursor and the keys of a page of SCAN. *)
  rd_page : W -> Z -> gmap string rentry -> Z * list string;
}.
Arguments mkRDriver {W}.
Arguments rd_cmd {W}.
Arguments rd_now {W}.
Arguments rd_wall {W}.
Arguments rd_others {W}.
Arguments rd_px {W}.
Arguments rd_ex {W}.
Arguments rd_left {W}.
Arguments rd_pick {W}.
Arguments rd_page {W}.

(** [rd_touched]: the keys others wrote since the last WATCH. *)
Record RDB (W : Type) := mkRDB { rd_keys : keyspace; rd_touched : list string; rd_world : W }.
Arguments mkRDB {W}.
Arguments rd_keys {W}.
Arguments rd_touched {W}.
Arguments rd_world {W}.

(** ** Expiry *)

Definition expired (now : time) (e : rentry) : bool := match re_expires e with Some t => t <? now | None => false end.
(** The entry of a key that has not expired. *)
Definition live (now : time) (ks : keyspace) (k : string) : option rentry :=
  match ks !! k with Some e => if expired now e then None else Some e | None => None end.

(** ** Commands *)

Section commands.
Context {W : Type} (drv : RDriver W).
Abbreviation RM A := (ST (RDB W) rerr A) (only parsing).

Definition apply_write (ks : keyspace) (kw : string * option rentry) : keyspace := partial_alter (fun _ => kw.2) kw.1 ks.
Definition by_others (ls : list (string * option rentry)) (ks : keyspace) : keyspace := foldl apply_write ks ls.

(** A command served after the writes of others. *)
Definition cmd {A} (f : time -> keyspace -> list string -> result rerr A * keyspace) : RM A := fun d =>
  let w := rd_world d in
  let ks := by_others (rd_others drv w) (rd_keys d) in
  let touched := rd_touched d ++ (rd_others drv w).*1 in
  let '(o, w') := rd_cmd drv w in
  let '(r, ks') := f (rd_now drv w) ks touched in
  match o with
  | Done => (r, mkRDB ks' touched w')
  | NotDone m => (Err (ConnError m), mkRDB ks touched w')
  | DoneUnseen m => (Err (ConnError m), mkRDB ks' touched w')
  end.

Definition GET (k : string) : RM string :=
  cmd (fun now ks _ => (match live now ks k with
                        | Some (mkREntry (RStr s) _) => Ok s
                        | Some _ => Err WrongType
                        | None => Err Nil
                        end, ks)).

(** A time to live that is not positive means none. *)
Definition set_entry (now : time) (v : string) (ttl : duration) : rentry :=
  mkREntry (RStr v) (if 0 <? ttl then Some (now + rd_px drv ttl) else None).
Definition SET (k v : string) (ttl : duration) : RM unit :=
  cmd (fun now ks _ => (Ok tt, <[k := set_entry now v ttl]> ks)).

Definition EXISTS (k : string) : RM Z :=
  cmd (fun now ks _ => (Ok (match live now ks k with Some _ => 1 | None => 0 end), ks)).

Definition DEL (k : string) : RM unit := cmd (fun _ ks _ => (Ok tt, delete k ks)).

Definition SADD (k m : string) : RM unit :=
  cmd (fun now ks _ => match live now ks k with
                       | Some (mkREntry (RSet s) t) => (Ok tt, <[k := mkREntry (RSet ({[m]} ∪ s)) t]> ks)
                       | Some _ => (Err WrongType, ks)
                       | None => (Ok tt, <[k := mkREntry (RSet {[m]}) None]> ks)
                       end).

(** An empty set is no key. *)
Definition SREM (k : string) (ms : list string) : RM unit :=
  cmd (fun now ks _ => match live now ks k with
                       | Some (mkREntry (RSet s) t) =>
                           let s' := s ∖ list_to_set ms in
                           (Ok tt, if decide (s' = ∅) then delete k ks else <[k := mkREntry (RSet s') t]> ks)
                       | Some _ => (Err WrongType, ks)
                       | None => (Ok tt, ks)
                       end).

(** A time to live that is not positive deletes the key. *)
Definition EXPIRE (k : string) (ttl : duration) : RM unit :=
  cmd (fun now ks _ => (Ok tt, match live now ks k with
                               | Some e => if rd_ex drv ttl <=? 0 then delete k ks
                                           else <[k := mkREntry (re_val e) (Some (now + rd_ex drv ttl))]> ks
                               | None => ks
                               end)).

(** What is left; -1 without expiry, -2 without a key, as a [time.Duration]. *)
Definition TTL (k : string) : RM duration :=
  cmd (fun now ks _ => (Ok (match live now ks k with
                            | Some (mkREntry _ (Some t)) => rd_left drv (t - now)
                            | Some (mkREntry _ None) => -1
                            | None => -2
                            end), ks)).

Definition set_of (now : time) (ks : keyspace) (k : string) : result rerr (gset string) :=
  match live now ks k with
  | Some (mkREntry (RSet s) _) => Ok s
  | Some _ => Err WrongType
  | None => Ok ∅
  end.
Definition SMEMBERS (k : string) : RM (list string) :=
  cmd (fun now ks _ => (match set_of now ks k with Ok s => Ok (elements s) | Err e => Err e end, ks)).
Definition SRANDMEMBER (k : string) (n : Z) : RM (list string) := fun d =>
  cmd (fun now ks _ => (match set_of now ks k with Ok s => Ok (rd_pick drv (rd_world d) n s) | Err e => Err e end, ks)) d.
Definition SCAN (cursor : Z) (prefix : string) : RM (Z * list string) := fun d =>
  cmd (fun now ks _ => let '(next, keys) := rd_page drv (rd_world d) cursor ks in
                       (Ok (next, filter (fun k => String.prefix prefix k = true) keys), ks)) d.

Definition WATCH (k : string) : RM unit := fun d =>
  let '(r, d') := cmd (fun _ ks _ => (Ok tt, ks)) d in (r, mkRDB (rd_keys d') [] (rd_world d')).

(** MULTI, SET and EXEC: nothing is done when the watched key was written by others, or
    was there and has expired. *)
Definition EXEC_SET (k v : string) (ttl : duration) : RM unit :=
  cmd (fun now ks touched =>
    if has touched k || match ks !! k with Some e => expired now e | None => false end
    then (Err TxFailedErr, ks)
    else (Ok tt, <[k := set_entry now v ttl]> ks)).

(** A pipeline: every command is sent, and has a result of its own. *)
Fixpoint pipeline {A} (cmds : list (RM A)) : ST (RDB W) rerr (list (result rerr A)) := fun d =>
  match cmds with
  | [] => (Ok [], d)
  | c :: cmds' =>
      let '(r, d1) := c d in
      match pipeline cmds' d1 with
      | (Ok rs, d2) => (Ok (r :: rs), d2)
      | (Err e, d2) => (Err e, d2)
      end
  end.
(** The error [Exec] returns is the first one. *)
Fixpoint first_error {A} (rs : list (result rerr A)) : option rerr :=
  match rs with [] => None | Err e :: _ => Some e | Ok _ :: rs' => first_error rs' end.
Definition exec {A} (cmds : list (RM A)) : RM unit := fun d =>
  match pipeline cmds d with
  | (Ok rs, d') => (match first_error rs with Some e => Err e | None => Ok tt end, d')
  | (Err e, d') => (Err e, d')
  end.

Definition attemptR {E A} (m : RM A) : ST (RDB W) E (result rerr A) := fun d => let '(r, d') := m d in (Ok r, d').
(** [fmt.Errorf(prefix + ": %w", err)] *)
Definition wrappedR {A} (prefix : string) (m : RM A) : ST (RDB W) error A := fun d =>
  match m d with (Ok a, d') => (Ok a, d') | (Err e, d') => (Err (EWrap prefix (redis_error e)), d') end.
Definition plainR {A} (m : RM A) : ST (RDB W) error A := fun d =>
  match m d with (Ok a, d') => (Ok a, d') | (Err e, d') => (Err (redis_error e), d') end.
(** [time.Until], on the clock of the process. *)
Definition time_Until (t : time) (d : RDB W) : duration := time_Sub t (rd_wall drv (rd_world d)).

(** ** Lemmas *)

Lemma by_others_untouched ls ks k : k ∉ ls.*1 -> by_others ls ks !! k = ks !! k.
Proof.
  unfold by_others. revert ks. induction ls as [|[k' e] ls IH]; intros ks Hk; simpl; [done|].
  rewrite fmap_cons, not_elem_of_cons in Hk. destruct Hk as [Hne Hk]. rewrite IH by done. unfold apply_write. simpl.
  by rewrite lookup_partial_alter_ne.
Qed.

Lemma by_others_app l1 l2 ks : by_others (l1 ++ l2) ks = by_others l2 (by_others l1 ks).
Proof. apply foldl_app. Qed.

(** How a command ends. *)
Lemma cmd_cases {A} (f : time -> keyspace -> list string -> result rerr A * keyspace) d r d' :
  cmd f d = (r, d') ->
  let w := rd_world d in
  let ks := by_others (rd_others drv w) (rd_keys d) in
  let touched := rd_touched d ++ (rd_others drv w).*1 in
  let x := f (rd_now drv w) ks touched in
  rd_touched d' = touched /\ rd_world d' = (rd_cmd drv w).2 /\
  ((exists m, r = Err (ConnError m) /\ rd_keys d' = ks) \/ (exists m, r = Err (ConnError m) /\ rd_keys d' = x.2) \/
   (r = x.1 /\ rd_keys d' = x.2)).
Proof.
  unfold cmd. intros Hc. cbv zeta. destruct (rd_cmd drv (rd_world d)) as [o w']. destruct (f _ _ _) as [x ks'].
  destruct o; simplify_eq; simpl; eauto 10.
Qed.

(** The world after [n] commands, and the writes of others served with them. *)
Fixpoint world_after (n : nat) (w : W) : W :=
  match n with O => w | S n' => world_after n' (rd_cmd drv w).2 end.
Fixpoint served (n : nat) (w : W) : list (string * option rentry) :=
  match n with O => [] | S n' => rd_others drv w ++ served n' (rd_cmd drv w).2 end.

Lemma world_after_add n m w : world_after (n + m) w = world_after m (world_after n w).
Proof. revert w. induction n as [|n IH]; intros w; [done|]. apply IH. Qed.

Lemma served_add n m w : served (n + m) w = served n w ++ served m (world_after n w).
Proof. revert w. induction n as [|n IH]; intros w; [done|]. simpl. by rewrite IH, app_assoc. Qed.

(** Between the two states [n] commands were sent and only others wrote: exactly
    what the server served them. *)
Definition only_others_in (n : nat) (d d' : RDB W) : Prop :=
  rd_world d' = world_after n (rd_world d) /\ rd_keys d' = by_others (served n (rd_world d)) (rd_keys d) /\
  rd_touched d' = rd_touched d ++ (served n (rd_world d)).*1.
Definition only_others (d d' : RDB W) : Prop := exists n, only_others_in n d d'.

Lemma only_others_in_trans n m d1 d2 d3 :
  only_others_in n d1 d2 -> only_others_in m d2 d3 -> only_others_in (n + m) d1 d3.
Proof.
  intros (W1 & K1 & T1) (W2 & K2 & T2). unfold only_others_in.
  by rewrite world_after_add, served_add, by_others_app, W2, K2, K1, T2, T1, W1, fmap_app, app_assoc.
Qed.

Lemma only_others_refl d : only_others d d.
Proof. exists 0%nat. unfold only_others_in. simpl. by rewrite app_nil_r. Qed.

Lemma only_others_trans d1 d2 d3 : only_others d1 d2 -> only_others d2 d3 -> only_others d1 d3.
Proof. intros [n H1] [m H2]. exists (n + m)%nat. by eapply only_others_in_trans. Qed.

Lemma only_others_untouched d d' k : only_others d d' -> k ∉ rd_touched d' -> rd_keys d' !! k = rd_keys d !! k.
Proof. intros (n & _ & -> & ->) Hk. apply by_others_untouched. set_solver. Qed.

Lemma only_others_touched d d' : only_others d d' -> rd_touched d ⊆ rd_touched d'.
Proof. intros (n & _ & _ & ->). set_solver. Qed.

(** A command that writes nothing. *)
Definition reads {E A} (m : ST (RDB W) E A) : Prop := forall d r d', m d = (r, d') -> only_others d d'.

Lemma cmd_reads {A} (f : time -> keyspace -> list string -> result rerr A * keyspace) :
  (forall now ks l, (f now ks l).2 = ks) -> reads (cmd f).
Proof.
  intros Hf d r d' (Ht & Hw & Hc)%cmd_cases. exists 1%nat. unfold only_others_in. simpl. rewrite app_nil_r.
  split_and!; [done| |done]. destruct Hc as [(m & _ & ->)|[(m & _ & ->)|[_ ->]]]; [done|by rewrite Hf..].
Qed.

Lemma GET_reads k : reads (GET k).
Proof. by apply cmd_reads. Qed.
Lemma TTL_reads k : reads (TTL k).
Proof. by apply cmd_reads. Qed.

(** What a successful GET saw. *)
Lemma GET_Ok k d s d' : GET k d = (Ok s, d') ->
  exists e, rd_keys d' !! k = Some e /\ re_val e = RStr s /\ expired (rd_now drv (rd_world d)) e = false.
Proof.
  intros (_ & _ & Hc)%cmd_cases. destruct Hc as [(m & ? & _)|[(m & ? & _)|[Hr ->]]]; [done..|]. simpl in *. unfold live in Hr.
  destruct (by_others _ _ !! k) as [e|]; [|done]. destruct (expired _ e) eqn:He; [done|]. destruct e as [[x|x] t]; simplify_eq.
  by exists (mkREntry (RStr x) t).
Qed.

(** ** Keys others leave alone *)

Definition quiet (k : string) : Prop := forall w, k ∉ (rd_others drv w).*1.

Lemma cmd_quiet {A} (f : time -> keyspace -> list string -> result rerr A * keyspace) k d : quiet k ->
  (forall now ks l, (f now ks l).2 !! k = ks !! k) -> rd_keys (cmd f d).2 !! k = rd_keys d !! k.
Proof.
  intros Hq Hf. destruct (cmd f d) as [r d'] eqn:E. apply cmd_cases in E as (_ & _ & Hc). simpl.
  destruct Hc as [(m & _ & ->)|[(m & _ & ->)|[_ ->]]]; rewrite ?Hf; apply by_others_untouched, Hq.
Qed.

Lemma SET_quiet k k' v ttl d : quiet k -> k <> k' -> rd_keys (SET k' v ttl d).2 !! k = rd_keys d !! k.
Proof. intros Hq Hne. apply cmd_quiet; [done|]. intros now ks l. simpl. by rewrite lookup_insert_ne. Qed.

Lemma GET_quiet k k' d : quiet k -> rd_keys (GET k' d).2 !! k = rd_keys d !! k.
Proof. intros Hq. by apply cmd_quiet. Qed.

(** A GET of a key nobody else writes. *)
Lemma GET_exact k d : quiet k ->
  (exists m, (GET k d).1 = Err (ConnError m)) \/
  (GET k d).1 = match live (rd_now drv (rd_world d)) (rd_keys d) k with
                | Some (mkREntry (RStr s) _) => Ok s | Some _ => Err WrongType | None => Err Nil end.
Proof.
  intros Hq. destruct (GET k d) as [r d'] eqn:E. apply cmd_cases in E as (_ & _ & Hc). simpl.
  destruct Hc as [(m & -> & _)|[(m & -> & _)|[-> _]]]; [eauto..|]. right. simpl. unfold live.
  by rewrite by_others_untouched by apply Hq.
Qed.

Lemma SET_Ok k v ttl d d' : SET k v ttl d = (Ok tt, d') -> rd_keys d' !! k = Some (set_entry (rd_now drv (rd_world d)) v ttl).
Proof.
  intros (_ & _ & Hc)%cmd_cases. destruct Hc as [(m & ? & _)|[(m & ? & _)|[_ ->]]]; [done..|]. simpl. by rewrite lookup_insert_eq.
Qed.

Lemma cmd_world {A} (f : time -> keyspace -> list string -> result rerr A * keyspace) d : rd_world (cmd f d).2 = (rd_cmd drv (rd_world d)).2.
Proof. destruct (cmd f d) as [r d'] eqn:E. apply cmd_cases in E as (_ & Hw & _). exact Hw. Qed.

Lemma exec_cons_Ok {A} (c : RM A) (cs : list (RM A)) d d' : exec (c :: cs) d = (Ok tt, d') ->
  exists a d1, c d = (Ok a, d1) /\ exec cs d1 = (Ok tt, d').
Proof.
  unfold exec. simpl. destruct (c d) as [r d1]. destruct (pipeline cs d1) as [[rs|e] d2] eqn:Hp; [|done]. destruct r as [a|e]; simpl; [|done].
  intros Hx. exists a, d1. by rewrite Hp.
Qed.

Lemma pipeline_world {A} (cs : list (RM A)) (I : RDB W -> Prop) :
  (forall c d, c ∈ cs -> I d -> I (c d).2) -> forall d, I d -> I (exec cs d).2.
Proof.
  intros Hc d Hd. assert (I (pipeline cs d).2) as Hp.
  { revert d Hd. induction cs as [|c cs IH]; intros d Hd; simpl; [done|]. pose proof (Hc c d ltac:(by left) Hd) as H1.
    destruct (c d) as [r d1]. assert (I (pipeline cs d1).2) as H2 by (apply IH; [|done]; intros c' d2 Hin; apply Hc; by right).
    by destruct (pipeline cs d1) as [[rs|e] d2]. }
  unfold exec. by destruct (pipeline cs d) as [[rs|e] d2].
Qed.

(** The clock of the server does not run backwards. *)
Definition clock_runs : Prop := forall w, rd_now drv w <= rd_now drv (rd_cmd drv w).2.
Definition server_time (d : RDB W) : time := rd_now drv (rd_world d).

Lemma cmd_time {A} (f : time -> keyspace -> list string -> result rerr A * keyspace) d : clock_runs -> server_time d <= server_time (cmd f d).2.
Proof. intros Hc. unfold server_time. rewrite cmd_world. apply Hc. Qed.

(** A key set with a time to live lives so long, up to a millisecond. *)
Definition keeps_ttl : Prop := forall ttl, 0 < ttl -> ttl - Millisecond < rd_px drv ttl.

(** The key was set between two times, with a time to live. *)
Definition set_between (t0 t1 : time) (k v : string) (ttl : duration) (d : RDB W) : Prop :=
  exists t, t0 <= t <= t1 /\ rd_keys d !! k = Some (set_entry t v ttl).

(** A pipeline of SETs sets all its keys. *)
Lemma exec_sets keys k v ttl d d' : clock_runs -> quiet k -> k ∈ keys ->
  exec ((fun x => SET x v ttl) <$> keys) d = (Ok tt, d') -> set_between (server_time d) (server_time d') k v ttl d'.
Proof.
  intros Hc Hq. revert d. induction keys as [|x keys IH]; intros d Hin; [by apply elem_of_nil in Hin|]. rewrite fmap_cons.
  intros ([] & d1 & Hs & He)%exec_cons_Ok. pose proof (cmd_time (fun now ks _ => (Ok tt, <[x := set_entry now v ttl]> ks)) d Hc) as Ht.
  change (cmd _ d) with (SET x v ttl d) in Ht. rewrite Hs in Ht. simpl in Ht.
  destruct (decide (k ∈ keys)) as [Hk|Hk]; [destruct (IH d1 Hk He) as (t & ? & ?); exists t; split; [lia|done]|].
  apply elem_of_cons in Hin as [-> |Hin]; [|done]. apply SET_Ok in Hs. exists (server_time d).
  destruct (pipeline_world ((fun y => SET y v ttl) <$> keys)
    (fun d2 => server_time d1 <= server_time d2 /\ rd_keys d2 !! x = rd_keys d1 !! x)) with (d := d1) as [H1 H2]; [|done|].
  - intros c d2 (y & -> & Hy)%list_elem_of_fmap [H1 H2]. split; [|rewrite SET_quiet; [done|done|congruence]].
    etransitivity; [exact H1|]. by apply cmd_time.
  - rewrite He in H1, H2. simpl in H1, H2. rewrite H2, Hs. split; [lia|done].
Qed.
End commands.
