(* ===== verification/RedisStores.v ===== *)
(** * The Redis stores
    [internal/auth/store/session/store_redis.go],
    [internal/auth/store/revocation/store_redis.go],
    [internal/evidence/registry/store/store_redis.go]

    Sessions, the token revocation list and the registry cache kept in [Redis].  A
    session is a JSON text under its own key and a member of a set kept per user; an
    update under an optimistic lock is done only when nobody else wrote the session
    meanwhile.  [encoding/json] on the stored values and the texts of UUIDs are
    arguments.  Metrics are not modelled. *)
From S2P Require Import Prelude Errors LRU RegistryCache AuthModels TRL SqlDb AuthSql Redis.
Open Scope Z_scope.

(** ** Sessions *)

Definition sessionKeyPrefix : string := "session:".
Definition userSessionKeyPrefix : string := "user_sessions:".
Definition maxSessionsPerUser : Z := 100.
Definition defaultSessionTTL : duration := 30 * 24 * Hour.

Record sessionJSON := mkSJ {
  sj_ID : string;
  sj_UserID : string;
  sj_ClientID : string;
  sj_TenantID : string;
  sj_RequestedScope : list string;
  sj_Status : string;
  sj_LastRefreshedAt : option Z;
  sj_LastAccessTokenJTI : string;
  sj_DeviceID : string;
  sj_DeviceFingerprintHash : string;
  sj_DeviceDisplayName : string;
  sj_ApproximateLocation : string;
  sj_CreatedAt : Z;
  sj_ExpiresAt : Z;
  sj_LastSeenAt : Z;
  sj_RevokedAt : option Z;
}.

#[global] Instance sessionJSON_eq_dec : EqDecision sessionJSON.
Proof. solve_decision. Defined.

(** [json.Marshal] and [json.Unmarshal], and [UUID.String] and [uuid.Parse]. *)
Class SessionCodec := {
  session_Marshal : sessionJSON -> res string;
  session_Unmarshal : string -> res sessionJSON;
  sc_uuid_String : uuid -> string;
  sc_uuid_Parse : string -> res uuid;
}.

(** [UnixNano] is an [int64]; [time.Unix(0, n)] is the time [n]. *)
Definition UnixNano (t : time) : Z := wrap64 t.

Section session.
Context {W : Type} (drv : RDriver W) `{!SessionCodec}.
Abbreviation RS A := (ST (RDB W) error A) (only parsing).

Definition sessionToJSON (s : Session) : sessionJSON :=
  mkSJ (sc_uuid_String (s_ID s)) (sc_uuid_String (s_UserID s)) (sc_uuid_String (s_ClientID s)) (sc_uuid_String (s_TenantID s))
    (s_RequestedScope s) (SessionStatus_text (s_Status s)) (UnixNano <$> s_LastRefreshedAt s) (s_LastAccessTokenJTI s)
    (db_DeviceID (s_Binding s)) (db_FingerprintHash (s_Binding s)) (db_DisplayName (s_Binding s)) (db_ApproximateLocation (s_Binding s))
    (UnixNano (s_CreatedAt s)) (UnixNano (s_ExpiresAt s)) (UnixNano (s_LastSeenAt s)) (UnixNano <$> s_RevokedAt s).

Definition parse_id (text label : string) : res uuid :=
  match sc_uuid_Parse text with Ok u => Ok u | Err e => Err (EWrap ("parse " +:+ label +:+ " id") e) end.

Definition sessionFromJSON (j : sessionJSON) : res Session :=
  sessionID ← parse_id (sj_ID j) "session";
  userID ← parse_id (sj_UserID j) "user";
  clientID ← parse_id (sj_ClientID j) "client";
  tenantID ← parse_id (sj_TenantID j) "tenant";
  Ok (mkSession sessionID userID clientID tenantID (sj_RequestedScope j) (SessionStatus_of (sj_Status j)) (sj_LastRefreshedAt j)
        (sj_LastAccessTokenJTI j)
        (mkBinding (sj_DeviceID j) (sj_DeviceFingerprintHash j) (sj_DeviceDisplayName j) (sj_ApproximateLocation j))
        (sj_CreatedAt j) (sj_ExpiresAt j) (sj_LastSeenAt j) (sj_RevokedAt j)).

Definition sessionKey (sessionID : uuid) : string := sessionKeyPrefix +:+ sc_uuid_String sessionID.
Definition userSessionsKey (userID : uuid) : string := userSessionKeyPrefix +:+ sc_uuid_String userID.

Definition getOrComputeTTL (key : string) (session : Session) : RS duration := fun d =>
  let '(r, d1) := TTL drv key d in
  (match r with
   | Ok ttl => if 0 <? ttl then Ok ttl
               else if 0 <? time_Until drv (s_ExpiresAt session) d1 then Ok (time_Until drv (s_ExpiresAt session) d1) else Ok defaultSessionTTL
   | Err _ => if 0 <? time_Until drv (s_ExpiresAt session) d1 then Ok (time_Until drv (s_ExpiresAt session) d1) else Ok defaultSessionTTL
   end, d1).

Definition deserialize (data : string) : res Session :=
  j ← match session_Unmarshal data with Ok j => Ok j | Err e => Err (EWrap "unmarshal session" e) end;
  sessionFromJSON j.

(** Nothing for a failed command or malformed data. *)
Definition deserializeSessionCmd (r : result rerr string) : option Session :=
  match r with
  | Err _ => None
  | Ok data => match deserialize data with Ok s => Some s | Err _ => None end
  end.

Definition marshalSession (s : Session) : res string :=
  match session_Marshal (sessionToJSON s) with Ok b => Ok b | Err e => Err (EWrap "marshal session" e) end.

Definition SessionRedis_Create (session : option Session) : RS unit :=
  match session with
  | None => st_fail (EOther "session is required")
  | Some s =>
      data ← st_lift (marshalSession s);
      ttl ← st_gets (time_Until drv (s_ExpiresAt s));
      let ttl := if ttl <=? 0 then defaultSessionTTL else ttl in
      wrappedR "create session" (exec [SET drv (sessionKey (s_ID s)) data ttl;
                                       SADD drv (userSessionsKey (s_UserID s)) (sc_uuid_String (s_ID s));
                                       EXPIRE drv (userSessionsKey (s_UserID s)) (wrap64 (ttl + Hour))])
  end.

Definition session_missing : error := EWrap "session not found" (EVal ErrNotFound).

Definition SessionRedis_FindByID (sessionID : uuid) : RS Session :=
  r ← attemptR (GET drv (sessionKey sessionID));
  match r with
  | Err Nil => st_fail session_missing
  | Err e => st_fail (EWrap "find session by id" (redis_error e))
  | Ok data => st_lift (deserialize data)
  end.

(** The identifiers of the sessions that are gone, and the sessions of the others. *)
Fixpoint sort_replies (ids : list string) (rs : list (result rerr string)) : list string * list Session :=
  match ids, rs with
  | i :: ids', r :: rs' =>
      let '(gone, sessions) := sort_replies ids' rs' in
      match r with
      | Err Nil => (i :: gone, sessions)
      | _ => match deserializeSessionCmd r with Some s => (gone, s :: sessions) | None => (gone, sessions) end
      end
  | _, _ => ([], [])
  end.

(** The goroutine that removes the identifiers of the sessions that are gone is served
    at some later time; [cleanup] says whether it is before the method returns. *)
Definition SessionRedis_ListByUser (cleanup : bool) (userID : uuid) : RS (list Session) :=
  sessionIDs ← wrappedR "list session ids by user" (SRANDMEMBER drv (userSessionsKey userID) maxSessionsPerUser);
  if (length sessionIDs =? 0)%nat then mret []
  else
    rs ← plainR (pipeline ((fun i => GET drv (sessionKeyPrefix +:+ i)) <$> sessionIDs));
    let '(expiredIDs, sessions) := sort_replies sessionIDs rs in
    (if (0 <? Z.of_nat (length expiredIDs)) && cleanup
     then _ ← attemptR (SREM drv (userSessionsKey userID) expiredIDs); mret tt else mret tt);;
    mret sessions.

Definition SessionRedis_UpdateSession (session : option Session) : RS unit :=
  match session with
  | None => st_fail (EOther "session is required")
  | Some s =>
      let key := sessionKey (s_ID s) in
      exists_ ← wrappedR "check session exists" (EXISTS drv key);
      if exists_ =? 0 then st_fail session_missing
      else
        data ← st_lift (marshalSession s);
        ttl ← getOrComputeTTL key s;
        wrappedR "update session" (SET drv key data ttl)
  end.

Definition SessionRedis_DeleteSessionsByUser (userID : uuid) : RS unit :=
  sessionIDs ← wrappedR "list session ids for delete" (SMEMBERS drv (userSessionsKey userID));
  if (length sessionIDs =? 0)%nat then st_fail session_missing
  else wrappedR "delete sessions by user"
         (exec (((fun i => DEL drv (sessionKeyPrefix +:+ i)) <$> sessionIDs) ++ [DEL drv (userSessionsKey userID)])).

(** The body of the optimistic lock; errors of [validate] pass through. *)
Definition execute_watched (key : string) (validate : Session -> res unit) (mutate : Session -> Session) : RS Session :=
  r ← attemptR (GET drv key);
  match r with
  | Err Nil => st_fail (EVal ErrNotFound)
  | Err e => st_fail (EWrap "get session for execute" (redis_error e))
  | Ok data =>
      session ← st_lift (deserialize data);
      _ ← st_lift (validate session);
      let session := mutate session in
      newData ← st_lift (marshalSession session);
      ttl ← getOrComputeTTL key session;
      _ ← plainR (EXEC_SET drv key newData ttl);
      mret session
  end.

Definition SessionRedis_Execute (sessionID : uuid) (validate : Session -> res unit) (mutate : Session -> Session) : RS Session :=
  _ ← plainR (WATCH drv (sessionKey sessionID));
  execute_watched (sessionKey sessionID) validate mutate.

Definition SessionRedis_RevokeSessionIfActive (sessionID : uuid) (now : time) : RS unit :=
  _ ← SessionRedis_Execute sessionID
        (fun s => match Session_CanRevoke s with Err _ => Err (EVal ErrSessionRevoked) | Ok _ => Ok tt end)
        (fun s => Session_ApplyRevocation s now);
  mret tt.

(** Keys expire by themselves. *)
Definition SessionRedis_DeleteExpiredSessions (now : time) : RS Z := mret 0.

Definition add_sessions (rs : list (result rerr string)) (m : gmap uuid Session) : gmap uuid Session :=
  foldl (fun m r => match deserializeSessionCmd r with Some s => <[s_ID s := s]> m | None => m end) m rs.

(** The pages of SCAN until the cursor is 0 again, at most [fuel] of them. *)
Fixpoint list_pages (fuel : nat) (cursor : Z) (sessions : gmap uuid Session) : RS (option (gmap uuid Session)) :=
  match fuel with
  | O => mret None
  | S fuel' =>
      page ← wrappedR "scan sessions" (SCAN drv cursor sessionKeyPrefix);
      let '(nextCursor, keys) := page in
      sessions ← (if (length keys =? 0)%nat then mret sessions
                  else
                    rs ← plainR (pipeline ((fun k => GET drv k) <$> keys));
                    match first_error rs with
                    | Some Nil | None => mret (add_sessions rs sessions)
                    | Some e => st_fail (EWrap "get sessions" (redis_error e))
                    end);
      if nextCursor =? 0 then mret (Some sessions) else list_pages fuel' nextCursor sessions
  end.
Definition SessionRedis_ListAll (fuel : nat) : RS (option (gmap uuid Session)) := list_pages fuel 0 ∅.
End session.

(** ** The token revocation list *)

Definition revokedTokenKeyPrefix : string := "trl:jti:".

Section trl.
Context {W : Type} (drv : RDriver W).
Abbreviation RT A := (ST (RDB W) error A) (only parsing).

Definition TRLRedis_RevokeToken (jti : string) (ttl : duration) : RT unit :=
  _ ← st_lift (validateTTL ttl);
  if str_empty jti then mret tt
  else plainR (SET drv (revokedTokenKeyPrefix +:+ jti) "1" ttl).

Definition TRLRedis_IsRevoked (jti : string) : RT bool :=
  if str_empty jti then mret false
  else
    r ← attemptR (GET drv (revokedTokenKeyPrefix +:+ jti));
    match r with
    | Err Nil => mret false
    | Err e => st_fail (redis_error e)
    | Ok _ => mret true
    end.

Definition TRLRedis_RevokeSessionTokens (sessionID : string) (jtis : list string) (ttl : duration) : RT unit :=
  if (length jtis =? 0)%nat then mret tt
  else
    _ ← st_lift (validateTTL ttl);
    plainR (exec ((fun j => SET drv (revokedTokenKeyPrefix +:+ j) "1" ttl) <$> filter (fun j => str_empty j = false) jtis)).
End trl.

(** ** The registry cache *)

Definition redisCitizenKeyPrefix : string := "registry:citizen:".
Definition redisSanctionKeyPrefix : string := "registry:sanction:".

(** [encoding/json] on a record type. *)
Class RecordCodec (R : Type) := { record_Marshal : R -> res string; record_Unmarshal : string -> res R }.

Definition citizenKey (nationalID : string) (regulated : bool) : string :=
  redisCitizenKeyPrefix +:+ nationalID +:+ ":" +:+ (if regulated then "true" else "false").
Definition sanctionKey (nationalID : string) : string := redisSanctionKeyPrefix +:+ nationalID.

Section cache.
Context {W : Type} (drv : RDriver W) (cacheTTL : duration) `{!RecordCodec models_CitizenRecord, !RecordCodec models_SanctionsRecord}.
Abbreviation RC A := (ST (RDB W) error A) (only parsing).

Definition getJSON {R} `{!RecordCodec R} (key recordType : string) : RC R :=
  r ← attemptR (GET drv key);
  match r with
  | Err Nil => st_fail (EVal ErrCacheNotFound)
  | Err e => st_fail (EWrap ("find " +:+ recordType +:+ " cache") (redis_error e))
  | Ok data =>
      match record_Unmarshal data with
      | Ok x => mret x
      | Err e => st_fail (EWrap ("decode " +:+ recordType +:+ " cache") e)
      end
  end.

Definition setJSON {R} `{!RecordCodec R} (key : string) (value : R) (recordType : string) : RC unit :=
  match record_Marshal value with
  | Err e => st_fail (EWrap ("encode " +:+ recordType +:+ " cache") e)
  | Ok payload => wrappedR ("save " +:+ recordType +:+ " cache") (SET drv key payload cacheTTL)
  end.

Definition CacheRedis_FindCitizen (nationalID : string) (regulated : bool) : RC models_CitizenRecord :=
  getJSON (citizenKey nationalID regulated) "citizen".
Definition CacheRedis_SaveCitizen (key : string) (record : option models_CitizenRecord) (regulated : bool) : RC unit :=
  match record with
  | None => st_fail (EOther "citizen record is required")
  | Some r => setJSON (citizenKey key regulated) r "citizen"
  end.
Definition CacheRedis_FindSanction (nationalID : string) : RC models_SanctionsRecord := getJSON (sanctionKey nationalID) "sanctions".
Definition CacheRedis_SaveSanction (key : string) (record : option models_SanctionsRecord) : RC unit :=
  match record with
  | None => st_fail (EOther "sanctions record is required")
  | Some r => setJSON (sanctionKey key) r "sanctions"
  end.
End cache.
