(* ===== verification/RedisSafety.v ===== *)
(** * What the Redis stores guarantee
    [internal/auth/store/session/store_redis.go],
    [internal/auth/store/revocation/store_redis.go],
    [internal/evidence/registry/store/store_redis.go]

    An update under the optimistic lock is atomic whatever others do; sessions, revocations
    and cached records are found as long as, and only as long as, they were stored for. *)
From S2P Require Import Prelude Errors LRU RegistryCache AuthModels TRL SqlDb AuthSql Redis RedisStores.
Open Scope Z_scope.

(** ** Sessions *)

Section session.
Context {W : Type} (drv : RDriver W) `{!SessionCodec}.
Implicit Types (d : RDB W).

(** The session stored under an identifier at a time. *)
Definition stored (now : time) (ks : gmap string rentry) (sessionID : uuid) (s : Session) : Prop :=
  exists e data, ks !! sessionKey sessionID = Some e /\ expired now e = false /\ re_val e = RStr data /\ deserialize data = Ok s.

Lemma plainR_Ok {A} (m : ST (RDB W) rerr A) d r d' : plainR m d = (r, d') ->
  exists x, m d = (x, d') /\ match x with Ok a => r = Ok a | Err e => r = Err (redis_error e) end.
Proof. unfold plainR. destruct (m d) as [[a|e] d1]; intros [= <- <-]; by eexists. Qed.

Lemma ttl_reads key s : reads drv (getOrComputeTTL drv key s).
Proof.
  intros d r d'. unfold getOrComputeTTL. destruct (TTL drv key d) as [x d1] eqn:E. intros [= _ <-]. by apply TTL_reads in E.
Qed.

Lemma getOrComputeTTL_Ok key s d : exists ttl, (getOrComputeTTL drv key s d).1 = Ok ttl.
Proof. unfold getOrComputeTTL. destruct (TTL drv key d) as [x d1]. repeat case_match; eauto. Qed.

(** The transaction, when only others wrote since the key was read. *)
Lemma exec_set_cases key v ttl d0 d1 r d2 :
  only_others drv d0 d1 -> EXEC_SET drv key v ttl d1 = (r, d2) ->
  (exists e, r = Err e /\ only_others drv d0 d2) \/
  (exists d, only_others drv d0 d /\ rd_world d2 = rd_world d /\ rd_keys d !! key = rd_keys d0 !! key /\
     (forall e, rd_keys d !! key = Some e -> expired (rd_now drv (rd_world d1)) e = false) /\
     rd_keys d2 = <[key := set_entry drv (rd_now drv (rd_world d1)) v ttl]> (rd_keys d) /\ (r = Ok tt \/ exists m, r = Err (ConnError m))).
Proof.
  intros H01 (Ht & Hw & Hc)%cmd_cases. set (w := rd_world d1) in *.
  set (d := mkRDB (by_others (rd_others drv w) (rd_keys d1)) (rd_touched d1 ++ (rd_others drv w).*1) (rd_cmd drv w).2).
  assert (only_others drv d0 d) as H0d.
  { eapply only_others_trans; [done|]. exists 1%nat. unfold only_others_in. simpl. by rewrite app_nil_r. }
  assert (rd_keys d2 = rd_keys d -> only_others drv d0 d2) as Hsame.
  { intros Hk. destruct H0d as (n & Hn & K & T). exists n. unfold only_others_in. by rewrite Hk, Ht, Hw. }
  destruct Hc as [(m & -> & Hk)|Hc]; [left; eauto|]. simpl in Hc.
  destruct (has _ key || _) eqn:Hb; simpl in Hc; [left; destruct Hc as [(m & -> & Hk)|[-> Hk]]; eauto|right].
  apply orb_false_iff in Hb as [Hn He]. exists d. split_and!; [done|done| | |by destruct Hc as [(m & _ & ->)|[_ ->]]|destruct Hc as [(m & -> & _)|[-> _]]; eauto].
  - eapply only_others_untouched; [done|]. intros Hin%has_true. simpl in Hin. by rewrite Hn in Hin.
  - intros e Hd. simpl in Hd. by rewrite Hd in He.
Qed.

(** The body of the lock. *)
Lemma execute_watched_cases sessionID validate mutate d0 r d' :
  execute_watched drv (sessionKey sessionID) validate mutate d0 = (r, d') ->
  (exists e, r = Err e /\ only_others drv d0 d') \/
  (exists d now s data ttl, only_others drv d0 d /\ rd_world d' = rd_world d /\ stored now (rd_keys d) sessionID s /\ validate s = Ok tt /\
     marshalSession (mutate s) = Ok data /\ rd_keys d' = <[sessionKey sessionID := set_entry drv now data ttl]> (rd_keys d) /\
     (r = Ok (mutate s) \/ exists m, r = Err (redis_error (ConnError m)))).
Proof.
  unfold execute_watched, attemptR, mbind, st_bind, st_lift. destruct (GET drv _ d0) as [x d1] eqn:Hg. pose proof (GET_reads drv _ _ _ _ Hg) as H01.
  destruct x as [data|[]]; try (intros [= <- <-]; left; by eauto).
  destruct (deserialize data) as [s|e] eqn:Hs; [|intros [= <- <-]; left; by eauto].
  destruct (validate s) as [[]|e] eqn:Hv; [|intros [= <- <-]; left; by eauto].
  destruct (marshalSession (mutate s)) as [b|e] eqn:Hm; [|intros [= <- <-]; left; by eauto].
  destruct (getOrComputeTTL drv _ _ d1) as [y d2] eqn:Ht. pose proof (ttl_reads _ _ _ _ _ Ht) as H12.
  destruct y as [ttl|e]; [|intros [= <- <-]; left; eexists; split; [done|]; eapply only_others_trans; [exact H01|exact H12]].
  destruct (plainR _ d2) as [z d3] eqn:Hp. apply plainR_Ok in Hp as (z' & Hx & Hz). apply GET_Ok in Hg as (e & Hk & Hval & _).
  apply (exec_set_cases _ _ _ d1) in Hx as [(e' & -> & Ho)|(d & Hd & Hwd & Hsame & Hlive & Hkeys & Hr)]; [| |done].
  - subst z. intros [= <- <-]. left. eexists. split; [done|]. eapply only_others_trans; [exact H01|exact Ho].
  - intros Hret. assert (d3 = d') as <- by (by destruct z; injection Hret as _ ?). right. exists d, (rd_now drv (rd_world d2)), s, b, ttl. split_and!; try done.
    + eapply only_others_trans; [exact H01|exact Hd].
    + exists e, data. rewrite Hsame. split_and!; try done. apply Hlive. by rewrite Hsame.
    + destruct Hr as [-> | (m & ->)]; subst z; injection Hret as <-; eauto.
Qed.

(** C23: Updates are atomic.  Whatever others write to the server between the commands of an
    [Execute], and whichever of its commands fail: the keyspace afterwards holds all the
    writes of others that the server served during the call, in their order, and either
    nothing else has happened and an error is reported; or, after the last of those
    writes, the session was stored, was accepted by [validate] and was replaced, alone, by
    its mutation, which is what is returned unless the reply of the server is lost.  So no
    update of others is lost and none of the call's is based on a stale session. *)
Theorem redis_execute_atomic (sessionID : uuid) (validate : Session -> res unit) (mutate : Session -> Session) d :
  let '(r, d') := SessionRedis_Execute drv sessionID validate mutate d in
  exists n, rd_world d' = world_after drv n (rd_world d) /\
  let ks := by_others (served drv n (rd_world d)) (rd_keys d) in
  (exists e, r = Err e /\ rd_keys d' = ks) \/
  (exists now s data ttl,
     stored now ks sessionID s /\ validate s = Ok tt /\ marshalSession (mutate s) = Ok data /\
     rd_keys d' = <[sessionKey sessionID := set_entry drv now data ttl]> ks /\
     (r = Ok (mutate s) \/ exists m, r = Err (redis_error (ConnError m)))).
Proof.
  destruct (SessionRedis_Execute _ _ _ _ _) as [r d'] eqn:E. unfold SessionRedis_Execute, mbind, st_bind in E.
  destruct (plainR _ d) as [x dw] eqn:Hw. apply plainR_Ok in Hw as (x' & Hw & Hx). unfold WATCH in Hw.
  destruct (cmd drv _ d) as [y d1] eqn:Hc. apply cmd_reads in Hc as (n0 & W0 & K0 & _); [|done]. injection Hw as <- <-.
  destruct y as [[]|e]; subst x.
  - apply execute_watched_cases in E as [(e & -> & n & Wn & K & _)|(d2 & now & s & b & ttl & (n & Wn & K & _) & Wd & Hst & Hv & Hm & Hk & Hr)];
      simpl in Wn, K; exists (n0 + n)%nat; cbv zeta; rewrite world_after_add, served_add, by_others_app, <- W0, <- K0.
    + split; [done|]. left. by exists e.
    + split; [by rewrite Wd|]. right. exists now, s, b, ttl. by rewrite <- K.
  - simplify_eq. exists n0. split; [done|]. left. by exists (redis_error e).
Qed.

(** ** Storing and finding *)

Record codec_laws (utf8 : string -> bool) : Prop := {
  cl_uuid : forall u, sc_uuid_Parse (sc_uuid_String u) = Ok u;
  cl_json : forall j b, Forall (fun s => utf8 s = true)
      (sj_RequestedScope j ++ [sj_ID j; sj_UserID j; sj_ClientID j; sj_TenantID j; sj_Status j; sj_LastAccessTokenJTI j; sj_DeviceID j;
                               sj_DeviceFingerprintHash j; sj_DeviceDisplayName j; sj_ApproximateLocation j]) ->
    session_Marshal j = Ok b -> session_Unmarshal b = Ok j;
  cl_uuid_text : forall u, utf8 (sc_uuid_String u) = true;
}.

Definition fits64 (t : time) : Prop := min_int64 <= t <= max_int64.

(** The times are between the years 1678 and 2262, the texts are valid UTF-8 and the
    status is one the code knows or no name of one. *)
Record representable (utf8 : string -> bool) (s : Session) : Prop := {
  rp_times : fits64 (s_CreatedAt s) /\ fits64 (s_ExpiresAt s) /\ fits64 (s_LastSeenAt s);
  rp_optional : forall t, s_LastRefreshedAt s = Some t \/ s_RevokedAt s = Some t -> fits64 t;
  rp_status : SessionStatus_of (SessionStatus_text (s_Status s)) = s_Status s;
  rp_texts : Forall (fun x => utf8 x = true)
    (s_RequestedScope s ++ [SessionStatus_text (s_Status s); s_LastAccessTokenJTI s; db_DeviceID (s_Binding s);
                            db_FingerprintHash (s_Binding s); db_DisplayName (s_Binding s); db_ApproximateLocation (s_Binding s)]);
}.

Lemma optional_nano o : (forall t, o = Some t -> fits64 t) -> UnixNano <$> o = o.
Proof. intros Ho. destruct o as [t|]; [|done]. simpl. f_equal. by apply wrap64_id, Ho. Qed.

Lemma session_json_roundtrip utf8 s b : codec_laws utf8 -> representable utf8 s -> marshalSession s = Ok b -> deserialize b = Ok s.
Proof.
  intros [Hu Hj Ht] [(T1 & T2 & T3) To Hst Htx] Hm. unfold marshalSession in Hm. destruct (session_Marshal _) as [x|] eqn:E; simplify_eq.
  unfold deserialize. rewrite (Hj (sessionToJSON s) b); [| |done].
  - simpl. unfold sessionFromJSON, parse_id, sessionToJSON. simpl. rewrite !Hu. simpl. rewrite Hst, !optional_nano by naive_solver.
    unfold UnixNano. rewrite !wrap64_id by done. by destruct s as [????????[]].
  - simpl. rewrite Forall_app in Htx |- *. rewrite !Forall_cons in Htx |- *. rewrite !Ht. naive_solver.
Qed.

(** The time to live of a new session. *)
Definition session_ttl (s : Session) d : duration :=
  if time_Until drv (s_ExpiresAt s) d <=? 0 then defaultSessionTTL else time_Until drv (s_ExpiresAt s) d.

Definition healthyR : Prop := forall w, (rd_cmd drv w).1 = Done.

Lemma healthy_GET k d : healthyR -> forall m, (GET drv k d).1 <> Err (ConnError m).
Proof.
  intros Hh m. unfold GET, cmd. specialize (Hh (rd_world d)). destruct (rd_cmd drv (rd_world d)) as [o w]. simpl in *. subst o. simpl.
  by repeat case_match.
Qed.

Lemma created_entry s data d d' : quiet drv (sessionKey (s_ID s)) -> marshalSession s = Ok data ->
  SessionRedis_Create drv (Some s) d = (Ok tt, d') ->
  rd_keys d' !! sessionKey (s_ID s) = Some (set_entry drv (server_time drv d) data (session_ttl s d)).
Proof.
  intros Hq Hm. unfold SessionRedis_Create, mbind, st_bind, st_lift. rewrite Hm. simpl. unfold wrappedR. fold (session_ttl s d).
  destruct (exec _ d) as [[[]|e] d2] eqn:He; [|done]. intros [= <-].
  apply exec_cons_Ok in He as ([] & d3 & H1 & He). apply exec_cons_Ok in He as ([] & d4 & H2 & He). apply exec_cons_Ok in He as ([] & d5 & H3 & He).
  injection He as <-. apply SET_Ok in H1. unfold server_time. rewrite <- H1.
  assert (sessionKey (s_ID s) <> userSessionsKey (s_UserID s)) as Hne by (unfold sessionKey, userSessionsKey; done).
  transitivity (rd_keys d4 !! sessionKey (s_ID s)).
  - replace d5 with (EXPIRE drv (userSessionsKey (s_UserID s)) (wrap64 (session_ttl s d + Hour)) d4).2 by (by rewrite H3).
    apply cmd_quiet; [done|]. intros now ks l. simpl. repeat case_match; rewrite ?lookup_delete_ne, ?lookup_insert_ne by done; done.
  - replace d4 with (SADD drv (userSessionsKey (s_UserID s)) (sc_uuid_String (s_ID s)) d3).2 by (by rewrite H2).
    apply cmd_quiet; [done|]. intros now ks l. simpl. repeat case_match; simpl; rewrite ?lookup_insert_ne by done; done.
Qed.

(** A session is kept for its lifetime.  When the server works and nobody else writes the
    key, a session that was created is found, field by field the same, until the time to
    live computed from its expiry has passed on the clock of the server, and is reported
    as missing from then on. *)
Theorem redis_session_kept (utf8 : string -> bool) s d d' :
  codec_laws utf8 -> representable utf8 s -> healthyR -> quiet drv (sessionKey (s_ID s)) ->
  SessionRedis_Create drv (Some s) d = (Ok tt, d') ->
  forall d2, rd_keys d2 = rd_keys d' ->
  (SessionRedis_FindByID drv (s_ID s) d2).1 =
    if server_time drv d2 <=? server_time drv d + rd_px drv (session_ttl s d) then Ok s else Err session_missing.
Proof.
  intros Hl Hr Hh Hq Hc d2 Hk. destruct (marshalSession s) as [data|e] eqn:Hm; [|by unfold SessionRedis_Create, mbind, st_bind, st_lift in Hc; rewrite Hm in Hc].
  pose proof (created_entry s data d d' Hq Hm Hc) as He. rewrite <- Hk in He.
  unfold SessionRedis_FindByID, attemptR, mbind, st_bind. pose proof (GET_exact drv (sessionKey (s_ID s)) d2 Hq) as Hg.
  pose proof (healthy_GET (sessionKey (s_ID s)) d2 Hh) as Hn. destruct (GET drv _ d2) as [r d3]. simpl in Hg, Hn.
  destruct Hg as [(m & ->)| ->]; [by destruct (Hn m)|]. unfold live. rewrite He. unfold expired, set_entry, server_time.
  assert (0 < session_ttl s d) as Hp by (unfold session_ttl, defaultSessionTTL, Hour; destruct (time_Until _ _ _ <=? 0) eqn:E; bools; lia).
  rewrite (proj2 (Z.ltb_lt _ _) Hp). simpl. rewrite Z.ltb_antisym.
  destruct (rd_now drv (rd_world d2) <=? _); simpl; [|done]. by rewrite (session_json_roundtrip utf8 s data).
Qed.
End session.

(** ** Revoked tokens *)

Section trl.
Context {W : Type} (drv : RDriver W).
Implicit Types (d : RDB W).

Inductive TrlOp :=
| ToRevoke (jti : string) (ttl : duration)
| ToRevokeSession (sessionID : string) (jtis : list string) (ttl : duration)
| ToCheck (jti : string).

Definition trl_op (op : TrlOp) : ST (RDB W) error unit :=
  match op with
  | ToRevoke j ttl => TRLRedis_RevokeToken drv j ttl
  | ToRevokeSession sid js ttl => TRLRedis_RevokeSessionTokens drv sid js ttl
  | ToCheck j => _ ← TRLRedis_IsRevoked drv j; mret tt
  end.

Definition trl_run (ops : list TrlOp) d : RDB W := foldl (fun d op => (trl_op op d).2) d ops.

Definition op_revokes (op : TrlOp) (jti : string) : option duration :=
  match op with
  | ToRevoke j ttl => if decide (j = jti) then Some ttl else None
  | ToRevokeSession _ js ttl => if decide (jti ∈ js) then Some ttl else None
  | ToCheck _ => None
  end.

Abbreviation trl_key j := (revokedTokenKeyPrefix +:+ j).

Lemma trl_key_inj j j' : trl_key j = trl_key j' -> j = j'.
Proof. unfold revokedTokenKeyPrefix. simpl. intros Hk. by injection Hk. Qed.

Lemma plainR_state {A} (m : ST (RDB W) rerr A) d : (plainR m d).2 = (m d).2.
Proof. unfold plainR. by destruct (m d) as [[|] ?]. Qed.

(** An operation on other tokens. *)
Lemma trl_op_other op jti d : quiet drv (trl_key jti) -> op_revokes op jti = None ->
  rd_keys (trl_op op d).2 !! trl_key jti = rd_keys d !! trl_key jti.
Proof.
  intros Hq Ho. destruct op as [j ttl|sid js ttl|j]; simpl in *.
  - unfold TRLRedis_RevokeToken, mbind, st_bind, st_lift. destruct (validateTTL ttl); [|done]. destruct (str_empty j); [done|].
    rewrite plainR_state. apply SET_quiet; [done|]. intros ->%trl_key_inj. by rewrite decide_True in Ho.
  - unfold TRLRedis_RevokeSessionTokens, mbind, st_bind, st_lift. destruct (length js =? 0)%nat; [done|]. destruct (validateTTL ttl); [|done].
    rewrite plainR_state. apply (pipeline_world _ (fun d2 => rd_keys d2 !! trl_key jti = rd_keys d !! trl_key jti)); [|done].
    intros c d2 (j & -> & [_ Hj]%list_elem_of_filter)%list_elem_of_fmap <-. apply SET_quiet; [done|]. intros ->%trl_key_inj.
    by rewrite decide_True in Ho.
  - unfold TRLRedis_IsRevoked, mbind, st_bind, attemptR. destruct (str_empty j); [done|]. pose proof (GET_quiet drv (trl_key jti) (trl_key j) d Hq) as Hg.
    destruct (GET drv _ d) as [[|[]] d1]; done.
Qed.

Lemma trl_run_other ops jti d : quiet drv (trl_key jti) -> (forall op, op ∈ ops -> op_revokes op jti = None) ->
  rd_keys (trl_run ops d) !! trl_key jti = rd_keys d !! trl_key jti.
Proof.
  intros Hq. unfold trl_run. revert d. induction ops as [|op ops IH]; intros d Ho; simpl; [done|].
  rewrite IH by (intros op' Hin; apply Ho; by right). apply trl_op_other; [done|]. apply Ho. by left.
Qed.

(** A revocation that reports success. *)
Lemma trl_op_sets op jti ttl d d' : clock_runs drv -> quiet drv (trl_key jti) -> jti <> "" -> op_revokes op jti = Some ttl ->
  trl_op op d = (Ok tt, d') -> 0 < ttl /\ set_between drv (server_time drv d) (server_time drv d') (trl_key jti) "1" ttl d'.
Proof.
  intros Hc Hq Hj Ho Hop.
  assert (0 < ttl) as Hp.
  { destruct op as [j t|sid js t|j]; simpl in *; [..|done]; case_decide as Hin; simplify_eq.
    - unfold TRLRedis_RevokeToken, mbind, st_bind, st_lift, validateTTL in Hop. destruct (ttl <=? 0) eqn:E; [done|]. bools. lia.
    - unfold TRLRedis_RevokeSessionTokens, mbind, st_bind, st_lift, validateTTL in Hop. destruct js; [by apply elem_of_nil in Hin|]. simpl in Hop.
      destruct (ttl <=? 0) eqn:E; [done|]. bools. lia. }
  split; [done|]. destruct op as [j t|sid js t|j]; simpl in *; [..|done]; case_decide as Hin; simplify_eq.
  - unfold TRLRedis_RevokeToken, mbind, st_bind, st_lift, validateTTL in Hop. rewrite (proj2 (Z.leb_gt _ _)) in Hop by lia.
    unfold str_empty in Hop. rewrite bool_decide_eq_false_2 in Hop by done. unfold plainR in Hop.
    destruct (SET drv _ _ _ d) as [[[]|e] d1] eqn:Hs; simplify_eq. exists (server_time drv d). split; [|by apply SET_Ok in Hs].
    pose proof (cmd_time drv (fun now ks _ => (Ok tt, <[trl_key jti := set_entry drv now "1" ttl]> ks)) d Hc) as Ht.
    change (cmd drv _ d) with (SET drv (trl_key jti) "1" ttl d) in Ht. rewrite Hs in Ht. simpl in Ht. lia.
  - unfold TRLRedis_RevokeSessionTokens, mbind, st_bind, st_lift, validateTTL in Hop. destruct js as [|j0 js]; [by apply elem_of_nil in Hin|].
    simpl in Hop. rewrite (proj2 (Z.leb_gt _ _)) in Hop by lia. unfold plainR in Hop.
    destruct (exec _ d) as [[[]|e] d1] eqn:Hs; simplify_eq. set (valid := filter (fun j => str_empty j = false) (j0 :: js)) in Hs.
    replace ((fun j => SET drv (trl_key j) "1" ttl) <$> valid) with ((fun x => SET drv x "1" ttl) <$> ((fun j => trl_key j) <$> valid)) in Hs
      by (by rewrite <- list_fmap_compose).
    apply (exec_sets drv) with (k := trl_key jti) in Hs; [done..|]. apply list_elem_of_fmap. exists jti. split; [done|].
    apply list_elem_of_filter. split; [by apply bool_decide_eq_false_2|done].
Qed.

(** C24: Revoked tokens stay revoked.  After a revocation of a token, alone or with the other
    tokens of a session, that reported success, and as long as the token is not revoked
    again: no answer says that it is not revoked before its time to live, up to a
    millisecond, has passed since the request was served, and none says that it is once
    that time has passed since the reply; between the two either answer may come.  Other
    operations and failures of the server do not matter.  A failed check is an error, not
    an answer. *)
Theorem redis_revocation_exact (op : TrlOp) (jti : string) (ttl : duration) (ops : list TrlOp) d d1 :
  clock_runs drv -> keeps_ttl drv -> quiet drv (trl_key jti) -> jti <> "" -> op_revokes op jti = Some ttl -> trl_op op d = (Ok tt, d1) ->
  (forall op', op' ∈ ops -> op_revokes op' jti = None) ->
  let d2 := trl_run ops d1 in
  ttl - Millisecond < rd_px drv ttl /\
  (server_time drv d2 <= server_time drv d + rd_px drv ttl -> (TRLRedis_IsRevoked drv jti d2).1 <> Ok false) /\
  (server_time drv d1 + rd_px drv ttl < server_time drv d2 -> (TRLRedis_IsRevoked drv jti d2).1 <> Ok true).
Proof.
  intros Hc Hkt Hq Hj Ho Hop Hops. cbv zeta. set (d2 := trl_run ops d1).
  destruct (trl_op_sets op jti ttl d d1 Hc Hq Hj Ho Hop) as (Hp & t & Ht & He).
  pose proof (trl_run_other ops jti d1 Hq Hops) as Hk. fold d2 in Hk. rewrite He in Hk.
  split; [by apply Hkt|]. unfold TRLRedis_IsRevoked, str_empty. rewrite bool_decide_eq_false_2 by done.
  unfold attemptR, mbind, st_bind. pose proof (GET_exact drv (trl_key jti) d2 Hq) as Hg. destruct (GET drv _ d2) as [r d3]. simpl in Hg.
  destruct Hg as [(m & ->)| ->]; [done|]. unfold live. rewrite Hk. unfold expired, set_entry. rewrite (proj2 (Z.ltb_lt _ _) Hp). simpl.
  fold (server_time drv d2). destruct (t + rd_px drv ttl <? server_time drv d2) eqn:E; bools; simpl; split; intros Hlt; try done; lia.
Qed.
End trl.

(** ** Cached records *)

Section cache.
Context {W : Type} (drv : RDriver W) (cacheTTL : duration) `{!RecordCodec models_CitizenRecord, !RecordCodec models_SanctionsRecord}.
Implicit Types (d : RDB W).

Inductive CacheSave :=
| RcSaveCitizen (key : string) (r : models_CitizenRecord) (regulated : bool)
| RcSaveSanction (key : string) (r : models_SanctionsRecord).

Definition cache_save_op (op : CacheSave) : ST (RDB W) error unit :=
  match op with
  | RcSaveCitizen k r m => CacheRedis_SaveCitizen drv cacheTTL k (Some r) m
  | RcSaveSanction k r => CacheRedis_SaveSanction drv cacheTTL k (Some r)
  end.

Definition cache_saves (ops : list CacheSave) d : RDB W := foldl (fun d op => (cache_save_op op d).2) d ops.

(** The key and the text an operation writes. *)
Definition writes_text (op : CacheSave) (key payload : string) : Prop :=
  match op with
  | RcSaveCitizen k r m => key = citizenKey k m /\ record_Marshal r = Ok payload
  | RcSaveSanction k r => key = sanctionKey k /\ record_Marshal r = Ok payload
  end.

Lemma mode_suffix a b : a +:+ ":true" <> b +:+ ":false".
Proof.
  revert b. induction a as [|c a IH]; intros b E.
  - apply (f_equal String.length) in E. rewrite !string_length_app in E. simpl in E. lia.
  - destruct b as [|c' b]; [|injection E as _ E; by apply (IH b)].
    destruct a as [|c2 a]; [done|]. apply (f_equal String.length) in E. simpl in E. rewrite !string_length_app in E. simpl in E. lia.
Qed.

Lemma citizenKey_inj a m b n : citizenKey a m = citizenKey b n -> a = b /\ m = n.
Proof.
  unfold citizenKey, redisCitizenKeyPrefix. simpl. intros E. repeat (injection E as E; idtac).
  destruct m, n.
  - split; [by apply (string_app_cancel_r a b ":true")|done].
  - by destruct (mode_suffix a b).
  - by destruct (mode_suffix b a).
  - split; [by apply (string_app_cancel_r a b ":false")|done].
Qed.

Lemma citizen_not_sanction a m b : citizenKey a m <> sanctionKey b.
Proof. done. Qed.

Lemma sanctionKey_inj a b : sanctionKey a = sanctionKey b -> a = b.
Proof. unfold sanctionKey, redisSanctionKeyPrefix. simpl. intros E. by injection E. Qed.

Lemma cache_op_entry op d key : (forall k, quiet drv k) ->
  rd_keys (cache_save_op op d).2 !! key = rd_keys d !! key \/
  exists payload, writes_text op key payload /\ rd_keys (cache_save_op op d).2 !! key = Some (set_entry drv (server_time drv d) payload cacheTTL).
Proof.
  intros Hq.
  assert (forall k v p (m := wrappedR p (SET drv k v cacheTTL)), rd_keys (m d).2 !! key = rd_keys d !! key \/
    (key = k /\ rd_keys (m d).2 !! key = Some (set_entry drv (server_time drv d) v cacheTTL))) as Hset.
  { intros k v p. cbv zeta. unfold wrappedR. destruct (SET drv k v cacheTTL d) as [r d'] eqn:E.
    assert (rd_keys d' !! key = rd_keys d !! key \/ (key = k /\ rd_keys d' !! key = Some (set_entry drv (server_time drv d) v cacheTTL))) as Hc;
      [|by destruct r].
    apply cmd_cases in E as (_ & _ & Hc). destruct Hc as [(m & _ & ->)|Hc]; [left; apply by_others_untouched, Hq|].
    assert (rd_keys d' = <[k := set_entry drv (server_time drv d) v cacheTTL]> (by_others (rd_others drv (rd_world d)) (rd_keys d))) as ->
      by (by destruct Hc as [(m & _ & ->)|[_ ->]]).
    destruct (decide (key = k)) as [-> |Hne]; [right; by rewrite lookup_insert_eq|left]. rewrite lookup_insert_ne by done.
    apply by_others_untouched, Hq. }
  destruct op as [k r m|k r]; simpl; unfold setJSON; destruct (record_Marshal r) as [b|e] eqn:Hm; try (by left);
    match goal with |- context [wrappedR ?p (SET _ ?k' ?v _)] => destruct (Hset k' v p) as [?|[-> ?]] end; eauto.
Qed.

(** What the server holds was saved, at the time it was served. *)
Lemma cache_saves_entries ops key e d : (forall k, quiet drv k) -> rd_keys d = ∅ -> rd_keys (cache_saves ops d) !! key = Some e ->
  exists ops1 op ops2 payload, ops = ops1 ++ op :: ops2 /\ writes_text op key payload /\
    e = set_entry drv (server_time drv (cache_saves ops1 d)) payload cacheTTL.
Proof.
  intros Hq Hd. induction ops as [|op ops IH] using rev_ind; [simpl; rewrite Hd; by rewrite lookup_empty|].
  unfold cache_saves at 1. rewrite foldl_app. simpl. fold (cache_saves ops d). intros He.
  destruct (cache_op_entry op (cache_saves ops d) key Hq) as [Hk|(p & Hw & Hk)].
  - rewrite Hk in He. destruct (IH He) as (o1 & o & o2 & p & -> & Hw & ->). exists o1, o, (o2 ++ [op]), p. by rewrite <- app_assoc.
  - rewrite Hk in He. simplify_eq. by exists ops, op, [], p.
Qed.

Lemma getJSON_exact {R} `{!RecordCodec R} key typ d : quiet drv key ->
  (exists e, (getJSON (R := R) drv key typ d).1 = Err e /\ e <> EVal ErrCacheNotFound) \/
  match live (server_time drv d) (rd_keys d) key with
  | Some (mkREntry (RStr b) _) => match record_Unmarshal b with Ok x => (getJSON (R := R) drv key typ d).1 = Ok x | Err _ => False end
  | Some _ => False
  | None => (getJSON (R := R) drv key typ d).1 = Err (EVal ErrCacheNotFound)
  end.
Proof.
  intros Hq. unfold getJSON, attemptR, mbind, st_bind. pose proof (GET_exact drv key d Hq) as Hg. destruct (GET drv key d) as [r d1]. simpl in Hg.
  destruct Hg as [(m & ->)| ->]; [left; by eexists|]. unfold server_time.
  destruct (live _ _ key) as [[[b|x] t]|]; simpl; [|left; by eexists|by right].
  destruct (record_Unmarshal b) as [x|e]; [by right|left; by eexists].
Qed.

(** A hit of a key that was written by one kind of save. *)
Lemma hit_was_saved {R} `{!RecordCodec R} ops key typ d x : (forall k, quiet drv k) -> rd_keys d = ∅ -> 0 < cacheTTL ->
  let d' := cache_saves ops d in
  (getJSON (R := R) drv key typ d').1 = Ok x ->
  exists ops1 op ops2 b, ops = ops1 ++ op :: ops2 /\ writes_text op key b /\ record_Unmarshal b = Ok x /\
    server_time drv d' <= server_time drv (cache_saves ops1 d) + rd_px drv cacheTTL.
Proof.
  intros Hq Hd Hp d' Hx. destruct (getJSON_exact (R := R) key typ d' (Hq key)) as [(e & He & _)|Hl]; [congruence|].
  unfold live in Hl. destruct (rd_keys d' !! key) as [e|] eqn:Hk; [|congruence].
  destruct (cache_saves_entries ops key e d Hq Hd Hk) as (o1 & op & o2 & b & Hops & Hw & ->).
  unfold expired, set_entry in Hl. rewrite (proj2 (Z.ltb_lt _ _) Hp) in Hl. simpl in Hl.
  destruct (_ <? server_time drv d') eqn:E; [congruence|]. bools. exists o1, op, o2, b. split_and!; [done..| |lia].
  destruct (record_Unmarshal b); [congruence|done].
Qed.

(** What the Redis cache serves.  A hit is the JSON text of a record that was saved under
    the same identifier, and for citizens in the same mode, read back, and no longer ago
    than the time to live on the clock of the server; a record just saved is served, when
    the server works, as long as it is fresh, and not later, with the identifier it was
    saved with, blank or not. *)
Theorem redis_cache_hits_exact (ops : list CacheSave) d :
  (forall k, quiet drv k) -> rd_keys d = ∅ -> 0 < cacheTTL ->
  let d' := cache_saves ops d in
  (forall k m x, (CacheRedis_FindCitizen drv k m d').1 = Ok x ->
     exists ops1 r ops2 b, ops = ops1 ++ RcSaveCitizen k r m :: ops2 /\ record_Marshal r = Ok b /\ record_Unmarshal b = Ok x /\
       server_time drv d' <= server_time drv (cache_saves ops1 d) + rd_px drv cacheTTL) /\
  (forall k x, (CacheRedis_FindSanction drv k d').1 = Ok x ->
     exists ops1 r ops2 b, ops = ops1 ++ RcSaveSanction k r :: ops2 /\ record_Marshal r = Ok b /\ record_Unmarshal b = Ok x /\
       server_time drv d' <= server_time drv (cache_saves ops1 d) + rd_px drv cacheTTL) /\
  (forall k r m b d1 d2, healthyR drv -> record_Marshal r = Ok b -> record_Unmarshal b = Ok r ->
     CacheRedis_SaveCitizen drv cacheTTL k (Some r) m d' = (Ok tt, d1) -> rd_keys d2 = rd_keys d1 ->
     (CacheRedis_FindCitizen drv k m d2).1 =
       if server_time drv d2 <=? server_time drv d' + rd_px drv cacheTTL then Ok r else Err (EVal ErrCacheNotFound)).
Proof.
  intros Hq Hd Hp d'. split_and!.
  - intros k m x Hx. destruct (hit_was_saved ops _ _ d x Hq Hd Hp Hx) as (o1 & op & o2 & b & Hops & Hw & Hu & Ht).
    destruct op as [k' r m'|k' r]; simpl in Hw; destruct Hw as [Hk Hm]; [|by apply citizen_not_sanction in Hk].
    apply citizenKey_inj in Hk as [-> ->]. by exists o1, r, o2, b.
  - intros k x Hx. destruct (hit_was_saved ops _ _ d x Hq Hd Hp Hx) as (o1 & op & o2 & b & Hops & Hw & Hu & Ht).
    destruct op as [k' r m'|k' r]; simpl in Hw; destruct Hw as [Hk Hm]; [by symmetry in Hk; apply citizen_not_sanction in Hk|].
    apply sanctionKey_inj in Hk as ->. by exists o1, r, o2, b.
  - intros k r m b d1 d2 Hh Hm Hu Hs Hk. unfold CacheRedis_SaveCitizen, setJSON, wrappedR in Hs. rewrite Hm in Hs.
    destruct (SET drv _ b cacheTTL d') as [[[]|e] d3] eqn:E; simplify_eq. apply SET_Ok in E. rewrite <- Hk in E.
    unfold CacheRedis_FindCitizen, getJSON, attemptR, mbind, st_bind. pose proof (GET_exact drv (citizenKey k m) d2 (Hq _)) as Hg.
    pose proof (healthy_GET drv (citizenKey k m) d2 Hh) as Hn. destruct (GET drv _ d2) as [q d4]. simpl in Hg, Hn.
    destruct Hg as [(msg & ->)| ->]; [by destruct (Hn msg)|]. unfold live. rewrite E. unfold expired, set_entry.
    rewrite (proj2 (Z.ltb_lt _ _) Hp). simpl. fold (server_time drv d2) (server_time drv d'). rewrite Z.ltb_antisym.
    destruct (server_time drv d2 <=? _); simpl; [|done]. by rewrite Hu.
Qed.
End cache.

(** ** Examples *)

Module RedisExample.

(** A server that works; the world is its clock, which the example moves by hand. *)
Definition server : RDriver time :=
  mkRDriver (fun w => (Done, w)) (fun w => w) (fun w => w) (fun _ => []) (fun x => x) (fun x => x) (fun x => x) (fun _ n s => take (Z.to_nat n) (elements s))
    (fun _ _ ks => (0, (map_to_list ks).*1)).

Definition at_time (t : time) (d : RDB time) : RDB time := mkRDB (rd_keys d) (rd_touched d) t.

Definition binding : DeviceBinding := mkBinding "d" "f" "n" "l".
Definition session (id : uuid) (expires : time) : Session :=
  mkSession id 7 1 2 ["openid"] SessionStatusActive None "" binding 0 expires 0 None.
Definition long_session : Session := session 1 (100 * Hour).
Definition short_session : Session := session 2 (1 * Hour).

(** The bits of an identifier, and the JSON texts of two sessions. *)
Fixpoint bits (p : positive) : string :=
  match p with xH => "." | xO p' => String (Ascii.ascii_of_nat 48) (bits p') | xI p' => String (Ascii.ascii_of_nat 49) (bits p') end.
Fixpoint of_bits (s : string) : option positive :=
  match s with
  | EmptyString => None
  | String c s' =>
      if Ascii.eqb c (Ascii.ascii_of_nat 46) then Some xH
      else match of_bits s' with Some p => Some (if Ascii.eqb c (Ascii.ascii_of_nat 48) then xO p else xI p) | None => None end
  end.
Definition name (u : uuid) : string := match u with N0 => "z" | Npos p => String (Ascii.ascii_of_nat 110) (bits p) end.
Definition of_name (s : string) : res uuid :=
  match s with
  | "z" => Ok 0%N
  | String _ s' => match of_bits s' with Some p => Ok (Npos p) | None => Err (EOther "uuid") end
  | EmptyString => Err (EOther "uuid")
  end.
Lemma name_of u : of_name (name u) = Ok u.
Proof.
  destruct u as [|p]; [done|]. simpl. assert (of_bits (bits p) = Some p) as ->; [|done].
  induction p as [p IH|p IH|]; simpl; [by rewrite IH..|done].
Qed.
Definition sessions_json (name : uuid -> string) (s : Session) : sessionJSON :=
  mkSJ (name (s_ID s)) (name (s_UserID s)) (name (s_ClientID s)) (name (s_TenantID s)) (s_RequestedScope s) "active" None ""
    "d" "f" "n" "l" 0 (s_ExpiresAt s) 0 None.
#[local] Instance codec : SessionCodec := {|
  session_Marshal := fun j => if decide (j = sessions_json name long_session) then Ok "L"
                              else if decide (j = sessions_json name short_session) then Ok "S" else Err (EOther "json");
  session_Unmarshal := fun b => if decide (b = "L") then Ok (sessions_json name long_session)
                                else if decide (b = "S") then Ok (sessions_json name short_session) else Err (EOther "json");
  sc_uuid_String := name;
  sc_uuid_Parse := of_name;
|}.

Definition empty (t : time) : RDB time := mkRDB ∅ [] t.

(** The set of the sessions of a user expires with the session created last: when this one
    is shorter, the older session is still found by its identifier, but the sessions of
    the user can neither be listed nor deleted. *)
Lemma user_index_expires_first :
  let d1 := (SessionRedis_Create server (Some long_session) (empty 0)).2 in
  let d2 := at_time (3 * Hour) (SessionRedis_Create server (Some short_session) d1).2 in
  (SessionRedis_FindByID server 1 d2).1 = Ok long_session /\
  (SessionRedis_ListByUser server true 7 d2).1 = Ok [] /\
  (SessionRedis_DeleteSessionsByUser server 7 d2).1 = Err session_missing /\
  (SessionRedis_FindByID server 1 (SessionRedis_DeleteSessionsByUser server 7 d2).2).1 = Ok long_session.
Proof. vm_compute. done. Qed.

Lemma redis_revocation_exact_witness :
  let d1 := (trl_op server (ToRevokeSession "s" ["a"; ""; "b"] (2 * Hour)) (empty 0)).2 in
  (TRLRedis_IsRevoked server "b" (trl_run server [ToCheck "b"; ToRevoke "c" Second] d1)).1 <> Ok false.
Proof.
  destruct (redis_revocation_exact server (ToRevokeSession "s" ["a"; ""; "b"] (2 * Hour)) "b" (2 * Hour) [ToCheck "b"; ToRevoke "c" Second]
    (empty 0) (trl_op server (ToRevokeSession "s" ["a"; ""; "b"] (2 * Hour)) (empty 0)).2) as (_ & Hno & _).
  - intros w. simpl. lia.
  - intros x Hx. unfold Millisecond. simpl. lia.
  - intros w. simpl. apply not_elem_of_nil.
  - done.
  - vm_compute. reflexivity.
  - vm_compute. reflexivity.
  - intros op [-> | [-> | Hx%elem_of_nil]%elem_of_cons]%elem_of_cons; [done..|done].
  - apply Hno. vm_compute. discriminate.
Defined.

Lemma codec_ok : codec_laws (fun _ => true).
Proof.
  split; [exact name_of| |done]. intros j b _. simpl. destruct (decide (j = _)) as [-> |]; [by intros [= <-]|].
  destruct (decide (j = _)) as [-> |]; [by intros [= <-]|done].
Qed.

Lemma long_ok : representable (fun _ => true) long_session.
Proof. split; [unfold fits64; vm_compute; intuition discriminate|naive_solver|done|by repeat constructor]. Qed.

Lemma redis_session_kept_witness :
  let d := empty 0 in
  (SessionRedis_FindByID server 1 (at_time (99 * Hour) (SessionRedis_Create server (Some long_session) d).2)).1 = Ok long_session.
Proof.
  refine (redis_session_kept server (fun _ => true) long_session (empty 0) (SessionRedis_Create server (Some long_session) (empty 0)).2
    codec_ok long_ok _ _ _ (at_time (99 * Hour) (SessionRedis_Create server (Some long_session) (empty 0)).2) _).
  - intros w. reflexivity.
  - intros w. simpl. apply not_elem_of_nil.
  - vm_compute. reflexivity.
  - reflexivity.
Defined.
End RedisExample.
