(* ===== verification/Kafka.v ===== *)
(** * Kafka: the producer, the consumer and the audit queries
    [internal/platform/kafka/producer/producer.go],
    [internal/platform/kafka/consumer/consumer.go] and the reading side of
    [pkg/platform/audit/store/postgres/store.go] with its queries in
    [sqlc/audit.sql.go]

    The producer under the outbox worker, the consumer that feeds the audit handler of
    [Outbox], and the queries on what the handler stored.  The Kafka clients are
    arguments: records of functions on a world [W], and for the consumer the documented
    meaning of a fetch and of a commit. *)
From S2P Require Import Prelude Errors SqlDb Ring AuditTrail Outbox.
Open Scope Z_scope.

(** A record of a topic.  The producer sets the first three fields and the headers. *)
Record KRecord := mkKRecord {
  kr_Topic : string;
  kr_Partition : Z;
  kr_Offset : Z;
  kr_Key : string;
  kr_Value : string;
  kr_Headers : list (string * string);
  kr_Timestamp : time;
}.

#[global] Instance KRecord_eq_dec : EqDecision KRecord.
Proof. solve_decision. Defined.

(** ** The producer *)

Record ProducerClient (W : Type) := mkPClient {
  pc_ProduceSync : KRecord -> ST W error unit;
  (** The record is buffered; failures are reported to a callback that logs them. *)
  pc_Produce : KRecord -> W -> W;
  pc_Flush : duration -> ST W error unit;
  pc_Ping : ST W error unit;
  pc_Close : W -> W;
  pc_Buffered : W -> Z;
}.
Arguments pc_ProduceSync {W}.
Arguments pc_Produce {W}.
Arguments pc_Flush {W}.
Arguments pc_Ping {W}.
Arguments pc_Close {W}.
Arguments pc_Buffered {W}.
Arguments mkPClient {W}.

(** The interface the outbox worker publishes through. *)
Class KafkaProducer (P : Type) := {
  kp_Produce : Message -> ST P error unit;
  kp_ProduceAsync : Message -> ST P error unit;
  kp_Flush : duration -> P -> Z * P;
  kp_Close : ST P error unit;
  kp_Healthy : P -> bool * P;
  kp_Len : P -> Z;
}.

Section producer.
Context {W : Type} (client : ProducerClient W).

Record Producer := mkProducer { pr_closed : bool; pr_world : W }.

(** The headers in the order in which Go ranges over the map. *)
Definition message_record (msg : Message) : KRecord :=
  mkKRecord (msg_Topic msg) 0 0 (msg_Key msg) (msg_Value msg) (map_to_list (msg_Headers msg)) zero_time.

Definition on_client {A} (m : ST W error A) : ST Producer error A := fun p =>
  let '(r, w) := m (pr_world p) in (r, mkProducer (pr_closed p) w).

Definition Producer_Produce (msg : Message) : ST Producer error unit := fun p =>
  if pr_closed p then (Err (EOther "producer is closed"), p)
  else match on_client (pc_ProduceSync client (message_record msg)) p with
       | (Ok _, p') => (Ok tt, p')
       | (Err e, p') => (Err (EWrap "produce message" e), p')
       end.

Definition Producer_ProduceAsync (msg : Message) : ST Producer error unit := fun p =>
  if pr_closed p then (Err (EOther "producer is closed"), p)
  else (Ok tt, mkProducer false (pc_Produce client (message_record msg) (pr_world p))).

Definition Producer_Flush (timeout : duration) (p : Producer) : Z * Producer :=
  match on_client (pc_Flush client timeout) p with (Ok _, p') => (0, p') | (Err _, p') => (1, p') end.

(** What cannot be flushed within thirty seconds is logged. *)
Definition Producer_Close : ST Producer error unit := fun p =>
  if pr_closed p then (Ok tt, p)
  else let '(_, w) := pc_Flush client (30 * Second) (pr_world p) in (Ok tt, mkProducer true (pc_Close client w)).

Definition Producer_Healthy (p : Producer) : bool * Producer :=
  if pr_closed p then (false, p)
  else match on_client (pc_Ping client) p with (Ok _, p') => (true, p') | (Err _, p') => (false, p') end.

Definition Producer_Len (p : Producer) : Z := pc_Buffered client (pr_world p).

#[global] Instance franz_producer : KafkaProducer Producer := {|
  kp_Produce := Producer_Produce;
  kp_ProduceAsync := Producer_ProduceAsync;
  kp_Flush := Producer_Flush;
  kp_Close := Producer_Close;
  kp_Healthy := Producer_Healthy;
  kp_Len := Producer_Len;
|}.

(** A closed producer sends nothing, refuses every message and stays closed. *)
Lemma closed_producer_sends_nothing p : let p' := (Producer_Close p).2 in
  (forall msg, Producer_Produce msg p' = (Err (EOther "producer is closed"), p')) /\
  (forall msg, Producer_ProduceAsync msg p' = (Err (EOther "producer is closed"), p')) /\
  Producer_Close p' = (Ok tt, p') /\ Producer_Healthy p' = (false, p').
Proof.
  cbv zeta. assert (pr_closed (Producer_Close p).2 = true) as Hc.
  { unfold Producer_Close. destruct (pr_closed p) eqn:E; [done|]. by destruct (pc_Flush client _ _). }
  unfold Producer_Produce, Producer_ProduceAsync, Producer_Healthy. rewrite Hc. split_and!; [done..| |done].
  unfold Producer_Close at 1. by rewrite Hc.
Qed.
End producer.

(** The producer that discards everything. *)
Inductive NoopProducer := mkNoop.
#[global] Instance noop_producer : KafkaProducer NoopProducer := {|
  kp_Produce := fun _ p => (Ok tt, p);
  kp_ProduceAsync := fun _ p => (Ok tt, p);
  kp_Flush := fun _ p => (0, p);
  kp_Close := fun p => (Ok tt, p);
  kp_Healthy := fun p => (true, p);
  kp_Len := fun _ => 0;
|}.

(** ** The consumer *)

Record ConsumedMessage := mkConsumed {
  cm_Topic : string;
  cm_Partition : Z;
  cm_Offset : Z;
  cm_Key : string;
  cm_Value : string;
  cm_Headers : gmap string string;
  cm_Timestamp : time;
}.

Inductive Fetches := ClientClosed | Fetched (errors : list (string * Z * error)) (records : list KRecord).

Record ConsumerClient (W : Type) := mkCClient {
  cc_PollFetches : W -> Fetches * W;
  cc_CommitRecords : KRecord -> ST W error unit;
  cc_Close : W -> W;
  cc_Ping : ST W error unit;
}.
Arguments cc_PollFetches {W}.
Arguments cc_CommitRecords {W}.
Arguments cc_Close {W}.
Arguments cc_Ping {W}.
Arguments mkCClient {W}.

Section consumer.
Context {A W : Type} (client : ConsumerClient W) (handler : ConsumedMessage -> ST A error unit).

(** [co_handed]: the calls of the handler and whether they succeeded. *)
Record Consumer := mkConsumer { co_app : A; co_world : W; co_closed : bool; co_handed : list (KRecord * bool) }.

(** A header given twice has its last value. *)
Definition record_message (r : KRecord) : ConsumedMessage :=
  mkConsumed (kr_Topic r) (kr_Partition r) (kr_Offset r) (kr_Key r) (kr_Value r)
    (foldl (fun m h => <[h.1 := h.2]> m) ∅ (kr_Headers r)) (kr_Timestamp r).

(** An error of the handler or of the commit is logged. *)
Definition handleRecord (r : KRecord) (c : Consumer) : Consumer :=
  match handler (record_message r) (co_app c) with
  | (Err _, a) => mkConsumer a (co_world c) (co_closed c) (co_handed c ++ [(r, false)])
  | (Ok _, a) =>
      let '(_, w) := cc_CommitRecords client r (co_world c) in
      mkConsumer a w (co_closed c) (co_handed c ++ [(r, true)])
  end.

Definition Consumer_poll (c : Consumer) : Consumer :=
  let '(f, w) := cc_PollFetches client (co_world c) in
  let c := mkConsumer (co_app c) w (co_closed c) (co_handed c) in
  match f with
  | ClientClosed => c
  | Fetched _ records => foldl (fun c r => handleRecord r c) c records
  end.

(** The loop for as many rounds as the context lives. *)
Fixpoint Consumer_run (rounds : nat) (c : Consumer) : Consumer :=
  match rounds with O => c | S n => Consumer_run n (Consumer_poll c) end.

(** [Stop]: [drained] says whether the loop ends before the context of the caller. *)
Definition Consumer_Stop (drained : bool) (ctxErr : error) : ST Consumer error unit := fun c =>
  if co_closed c then (Ok tt, c)
  else (if drained then Ok tt else Err ctxErr, mkConsumer (co_app c) (cc_Close client (co_world c)) true (co_handed c)).

Definition Consumer_Healthy (c : Consumer) : bool * Consumer :=
  if co_closed c then (false, c)
  else let '(r, w) := cc_Ping client (co_world c) in (is_Ok r, mkConsumer (co_app c) w (co_closed c) (co_handed c)).
End consumer.
Arguments mkConsumer {A W}.
Arguments co_app {A W}.
Arguments co_world {A W}.
Arguments co_closed {A W}.
Arguments co_handed {A W}.

(** Partitions. *)
Definition kr_tp (r : KRecord) : string * Z := (kr_Topic r, kr_Partition r).

(** What the client documents: a fetch returns the records of a partition in their order
    from the position of the consumer and moves it; a commit of a record sets the
    committed offset of its partition to the next one; a new session of the group starts
    at the committed offsets. *)
Class ConsumerLaws {W : Type} (client : ConsumerClient W) := {
  cw_log : string * Z -> Z -> option KRecord;
  cw_position : W -> string * Z -> Z;
  cw_committed : W -> string * Z -> Z;
  cw_restart : W -> W;
  cw_log_at : forall tp o r, cw_log tp o = Some r -> kr_tp r = tp /\ kr_Offset r = o;
  cw_poll : forall w f w', cc_PollFetches client w = (f, w') ->
    (forall tp, cw_committed w' tp = cw_committed w tp) /\
    match f with
    | ClientClosed => forall tp, cw_position w' tp = cw_position w tp
    | Fetched _ rs => (forall tp, cw_position w tp <= cw_position w' tp) /\
        (forall r, r ∈ rs -> kr_Offset r < cw_position w' (kr_tp r) /\ cw_log (kr_tp r) (kr_Offset r) = Some r) /\
        (forall tp o r, cw_position w tp <= o < cw_position w' tp -> cw_log tp o = Some r -> r ∈ rs) /\
        (forall l1 r l2, rs = l1 ++ r :: l2 -> forall o r', cw_position w (kr_tp r) <= o < kr_Offset r -> cw_log (kr_tp r) o = Some r' -> r' ∈ l1)
    end;
  cw_commit : forall r w x w', cc_CommitRecords client r w = (x, w') ->
    (forall tp, cw_position w' tp = cw_position w tp) /\
    (forall tp, tp <> kr_tp r -> cw_committed w' tp = cw_committed w tp) /\
    (cw_committed w' (kr_tp r) = kr_Offset r + 1 \/ (is_Ok x = false /\ cw_committed w' (kr_tp r) = cw_committed w (kr_tp r)));
  cw_restarts : forall w tp, cw_committed (cw_restart w) tp = cw_committed w tp /\ cw_position (cw_restart w) tp = cw_committed w tp;
}.

Section delivery.
Context {A W : Type} (client : ConsumerClient W) `{!ConsumerLaws client} (handler : ConsumedMessage -> ST A error unit).
Implicit Types (c : @Consumer A W).

(** A poll; a crash after some records of a batch, and a new session; a new session. *)
Inductive ConsumerStep := KPoll | KCrash (n : nat) | KRestart.

Definition with_world (w : W) c : Consumer := mkConsumer (co_app c) w (co_closed c) (co_handed c).

Definition crashed_poll (n : nat) c : Consumer :=
  let '(f, w) := cc_PollFetches client (co_world c) in
  match f with
  | ClientClosed => with_world w c
  | Fetched _ rs => foldl (fun c r => handleRecord client handler r c) (with_world w c) (take n rs)
  end.

Definition consumer_step c (s : ConsumerStep) : Consumer :=
  match s with
  | KPoll => Consumer_poll client handler c
  | KCrash n => let c' := crashed_poll n c in with_world (cw_restart (co_world c')) c'
  | KRestart => with_world (cw_restart (co_world c)) c
  end.

Definition handed_over c (r : KRecord) : Prop := exists ok, (r, ok) ∈ co_handed c.

(** Everything below the committed offset was handed over, and everything below the
    position, which is not behind it. *)
Record delivery_inv (start : string * Z -> Z) c : Prop := {
  di_committed : forall tp o r, start tp <= o < cw_committed (co_world c) tp -> cw_log tp o = Some r -> handed_over c r;
  di_position : forall tp o r, start tp <= o < cw_position (co_world c) tp -> cw_log tp o = Some r -> handed_over c r;
  di_behind : forall tp, cw_committed (co_world c) tp <= cw_position (co_world c) tp;
}.

Lemma handleRecord_spec r c : let c' := handleRecord client handler r c in
  (forall x, handed_over c x -> handed_over c' x) /\ handed_over c' r /\
  (forall tp, cw_position (co_world c') tp = cw_position (co_world c) tp) /\
  (forall tp, cw_committed (co_world c') tp = cw_committed (co_world c) tp \/ (tp = kr_tp r /\ cw_committed (co_world c') tp = kr_Offset r + 1)).
Proof.
  unfold handleRecord, handed_over. cbv zeta. destruct (handler (record_message r) (co_app c)) as [[[]|e] a].
  - destruct (cc_CommitRecords client r (co_world c)) as [x w] eqn:Hc. apply cw_commit in Hc as (Hp & Ho & Hr). simpl. split_and!; [set_solver..|done|].
    intros tp. destruct (decide (tp = kr_tp r)) as [-> |Hne]; [|left; auto]. destruct Hr as [Hr|[_ Hr]]; auto.
  - simpl. split_and!; [set_solver..|done|]. auto.
Qed.

(** The records of a batch, one after the other. *)
Lemma batch_inv start w c rs rs0 l0 : (forall tp, cw_position w tp <= cw_position (co_world c) tp) -> rs0 = l0 ++ rs ->
  (forall tp o r, start tp <= o < cw_position w tp -> cw_log tp o = Some r -> handed_over c r) ->
  (forall tp o r, start tp <= o < cw_committed (co_world c) tp -> cw_log tp o = Some r -> handed_over c r) ->
  (forall tp, cw_committed (co_world c) tp <= cw_position (co_world c) tp) ->
  (forall r, r ∈ rs0 -> kr_Offset r < cw_position (co_world c) (kr_tp r) /\ cw_log (kr_tp r) (kr_Offset r) = Some r) ->
  (forall l1 r l2, rs0 = l1 ++ r :: l2 -> forall o r', cw_position w (kr_tp r) <= o < kr_Offset r -> cw_log (kr_tp r) o = Some r' -> r' ∈ l1) ->
  (forall r, r ∈ l0 -> handed_over c r) ->
  let c' := foldl (fun c r => handleRecord client handler r c) c rs in
  (forall tp, cw_position (co_world c') tp = cw_position (co_world c) tp) /\
  (forall r, handed_over c r \/ r ∈ rs -> handed_over c' r) /\
  (forall tp o r, start tp <= o < cw_committed (co_world c') tp -> cw_log tp o = Some r -> handed_over c' r) /\
  (forall tp, cw_committed (co_world c') tp <= cw_position (co_world c') tp).
Proof.
  revert c l0. induction rs as [|r rs IH]; intros c l0 Hw Hrs Hstart Hcom Hbeh Hlog Hord Hl0; simpl.
  { split_and!; [done| |done|done]. intros r [?|Hr]; [done|by apply elem_of_nil in Hr]. }
  destruct (handleRecord_spec r c) as (Hkeep & Hr & Hpos & Hc). set (c1 := handleRecord client handler r c) in *.
  destruct (Hlog r ltac:(set_solver)) as [Hlt Hlr].
  destruct (IH c1 (l0 ++ [r])) as (P1 & P2 & P3 & P4).
  - intros tp. by rewrite Hpos.
  - by rewrite <- app_assoc.
  - intros tp o x Ho Hx. apply Hkeep. by apply (Hstart tp o).
  - intros tp o x Ho Hx. destruct (Hc tp) as [E|[-> E]]; rewrite E in Ho; [apply Hkeep; by apply (Hcom tp o)|].
    destruct (decide (o = kr_Offset r)) as [-> |Hne]; [by rewrite Hlr in Hx; simplify_eq|].
    destruct (decide (o < cw_position w (kr_tp r))); [apply Hkeep, (Hstart (kr_tp r) o); [lia|done]|]. apply Hkeep, Hl0, (Hord l0 r rs Hrs o); [lia|done].
  - intros tp. rewrite Hpos. destruct (Hc tp) as [-> |[-> ->]]; [done|lia].
  - intros x Hx. rewrite Hpos. by apply Hlog.
  - done.
  - intros x [Hx| ->%list_elem_of_singleton]%elem_of_app; auto.
  - split_and!; [intros tp; by rewrite P1| |done|done]. intros x [Hx|[-> |Hx]%elem_of_cons]; apply P2; auto.
Qed.

(** A batch of which all or only some records are handled. *)
Lemma crashed_poll_inv start n c : delivery_inv start c -> let c' := crashed_poll n c in
  (forall tp o r, start tp <= o < cw_committed (co_world c') tp -> cw_log tp o = Some r -> handed_over c' r) /\
  (forall tp, cw_committed (co_world c') tp <= cw_position (co_world c') tp) /\
  ((forall f w rs, cc_PollFetches client (co_world c) = (Fetched f rs, w) -> (length rs <= n)%nat) ->
   forall tp o r, start tp <= o < cw_position (co_world c') tp -> cw_log tp o = Some r -> handed_over c' r).
Proof.
  intros [H1 H2 H3]. unfold crashed_poll. destruct (cc_PollFetches client (co_world c)) as [f w] eqn:Hp. pose proof (cw_poll _ _ _ Hp) as [Hcm Hf].
  destruct f as [|errs rs]; cbv zeta.
  - split_and!; simpl.
    + intros tp o r. rewrite Hcm. apply H1.
    + intros tp. rewrite Hcm, Hf. apply H3.
    + intros _ tp o r. rewrite Hf. apply H2.
  - destruct Hf as (Hmono & Hlog & Hall & Hord).
    destruct (batch_inv start (co_world c) (with_world w c) (take n rs) (take n rs) []) as (P1 & P2 & P3 & P4); simpl; try done.
    + intros tp o r. rewrite Hcm. apply H1.
    + intros tp. rewrite Hcm. etransitivity; [apply H3|apply Hmono].
    + intros r Hr. apply Hlog. rewrite <- (take_drop n rs). set_solver.
    + intros l1 r l2 El o r' Ho Hr'. apply (Hord l1 r (l2 ++ drop n rs)) with (o := o); [|done|done].
      rewrite <- (take_drop n rs) at 1. rewrite El. by rewrite <- app_assoc.
    + intros r Hr. by apply elem_of_nil in Hr.
    + split_and!; [done|done|]. intros Hlen tp o r Ho Hr. specialize (Hlen _ _ _ eq_refl).
      rewrite P1 in Ho. simpl in Ho. apply P2. destruct (decide (o < cw_position (co_world c) tp)); [left; apply (H2 tp o r); [lia|done]|].
      right. rewrite take_ge by done. apply (Hall tp o); [lia|done].
Qed.

Lemma consumer_step_inv start c s : delivery_inv start c -> delivery_inv start (consumer_step c s).
Proof.
  intros Hinv. assert (forall c', (forall tp o r, start tp <= o < cw_committed (co_world c') tp -> cw_log tp o = Some r -> handed_over c' r) ->
    delivery_inv start (with_world (cw_restart (co_world c')) c')) as Hrestart.
  { intros c' Hc. split; simpl; [intros tp o r|intros tp o r|intros tp]; destruct (cw_restarts (co_world c') tp) as [E1 E2];
      rewrite ?E1, ?E2; [apply Hc|apply Hc|lia]. }
  destruct s as [|n|]; simpl.
  - destruct (cc_PollFetches client (co_world c)) as [f w] eqn:Hp.
    set (n := match f with Fetched _ rs => length rs | ClientClosed => O end).
    destruct (crashed_poll_inv start n c Hinv) as (P1 & P2 & P3).
    assert (crashed_poll n c = Consumer_poll client handler c) as E.
    { unfold crashed_poll, Consumer_poll. rewrite Hp. destruct f as [|errs rs]; [done|]. by rewrite take_ge. }
    rewrite E in P1, P2, P3. split; [done| |done]. apply P3. intros errs w' rs Hrs. rewrite Hp in Hrs. by simplify_eq.
  - apply Hrestart. by apply crashed_poll_inv.
  - apply Hrestart, Hinv.
Qed.

(** Nothing is passed over without being handed to the handler: after any history of polls,
    of crashes after any number of the records of a batch and of new sessions, every record
    of a partition between the offset the consumer started at and the committed offset
    was given to the handler at least once.  Whether the handler succeeded is not part of
    this: see [audit_event_passed_over]. *)
Theorem consumer_hands_over_all (steps : list ConsumerStep) c (start : string * Z -> Z) tp o r :
  (forall tp, cw_committed (co_world c) tp = start tp /\ cw_position (co_world c) tp = start tp) ->
  let c' := foldl consumer_step c steps in
  start tp <= o < cw_committed (co_world c') tp -> cw_log tp o = Some r -> exists ok, (r, ok) ∈ co_handed c'.
Proof.
  intros Hs. assert (delivery_inv start c) as Hinv.
  { split; [intros tp' o' r' Ho'|intros tp' o' r' Ho'|intros tp']; destruct (Hs tp') as [E1 E2]; lia. }
  cbv zeta. assert (delivery_inv start (foldl consumer_step c steps)) as [H1 _ _]; [|apply H1].
  clear Hs. revert c Hinv. induction steps as [|s steps IH]; intros c Hinv; simpl; [done|]. by apply IH, consumer_step_inv.
Qed.
End delivery.

(** ** The audit queries *)

Section queries.
Context {W : Type} (db : W -> outcome * W).
Abbreviation OB A := (ST (@ObState W) error A) (only parsing).

(** [ORDER BY timestamp DESC]. *)
Definition newer_row (a b : AuditRow) : Prop := row_Timestamp b <= row_Timestamp a.
#[local] Instance newer_row_dec : RelDecision newer_row.
Proof. intros a b. unfold newer_row. apply _. Defined.
#[local] Instance newer_row_total : Total newer_row.
Proof. intros a b. unfold newer_row. lia. Qed.
#[local] Instance newer_row_trans : Transitive newer_row.
Proof. intros a b c. unfold newer_row. lia. Qed.

Definition by_time (s : @ObState W) : list AuditRow := merge_sort newer_row (map_to_list (ob_events s)).*2.

Definition ListAuditEvents : OB (list AuditRow) := sql db (fun s => Ok (by_time s, s)).

Definition ListAuditEventsByUser (userID : option uuid) : OB (list AuditRow) :=
  sql db (fun s => Ok (match userID with
                       | Some u => filter (fun r => row_UserID r = Some u) (by_time s)
                       | None => []
                       end, s)).

Definition wrap_int32 (z : Z) : Z := (z + 2 ^ 31) mod 2 ^ 32 - 2 ^ 31.

Definition ListRecentAuditEvents (limit : Z) : OB (list AuditRow) :=
  sql db (fun s => if limit <? 0 then Err (PgError "2201W") else Ok (take (Z.to_nat limit) (by_time s), s)).

Definition mapAuditEvents (rows : list AuditRow) : list AuditEvent := toAuditEvent <$> rows.

Definition query_events (m : OB (list AuditRow)) : OB (list AuditEvent) :=
  rows ← wrap_st "query audit events" m; mret (mapAuditEvents rows).

Definition Store_ListByUser (userID : uuid) : OB (list AuditEvent) := query_events (ListAuditEventsByUser (Some userID)).
Definition Store_ListAll : OB (list AuditEvent) := query_events ListAuditEvents.
Definition Store_ListRecent (limit : Z) : OB (list AuditEvent) := query_events (ListRecentAuditEvents (wrap_int32 (Z.min 1000 limit))).

(** The events of the table. *)
Definition audit_table (s : @ObState W) : list AuditEvent := toAuditEvent <$> (map_to_list (ob_events s)).*2.

Definition most_recent_first (l : list AuditEvent) : Prop := StronglySorted (fun a b => ae_Timestamp b <= ae_Timestamp a) l.

Lemma query_events_Ok m s l : (query_events m s).1 = Ok l -> exists rows, (m s).1 = Ok rows /\ l = mapAuditEvents rows.
Proof.
  unfold query_events, wrap_st, mbind, st_bind. destruct (m s) as [[rows|e] s']; simpl; [|done]. intros [= <-]. by exists rows.
Qed.

Lemma sql_Ok {A} (f : @ObState W -> result dberr (A * @ObState W)) s a :
  (sql db f s).1 = Ok a -> exists s0 s1, ob_events s0 = ob_events s /\ f s0 = Ok (a, s1).
Proof.
  destruct (sql db f s) as [r s'] eqn:E. simpl. intros ->.
  apply sql_cases in E as (s0 & _ & _ & _ & He & [(e & [=] & _)|(a' & Hf & [[= ->]|[e [=]]])]). eauto.
Qed.

Lemma events_sorted l : StronglySorted newer_row l -> most_recent_first (mapAuditEvents l).
Proof.
  unfold most_recent_first, mapAuditEvents. induction 1 as [|r l Hs IH Hr]; [constructor|]. rewrite fmap_cons. constructor; [done|].
  apply Forall_fmap. eapply Forall_impl; [exact Hr|]. done.
Qed.

Lemma StronglySorted_take {A} (R : A -> A -> Prop) n l : StronglySorted R l -> StronglySorted R (take n l).
Proof.
  intros Hs. revert n. induction Hs as [|x l Hs IH Hx]; intros [|n]; simpl; try constructor; [done|]. by apply Forall_take.
Qed.

Lemma StronglySorted_filter_rows u l : StronglySorted newer_row l -> StronglySorted newer_row (filter (fun r => row_UserID r = Some u) l).
Proof.
  induction 1 as [|x l Hs IH Hx]; [constructor|]. rewrite filter_cons. case_decide; [|done]. constructor; [done|].
  rewrite Forall_forall in Hx |- *. intros y Hy. apply list_elem_of_filter in Hy as [_ Hy]. auto.
Qed.

Lemma user_events u (l : list AuditRow) : u <> 0%N ->
  toAuditEvent <$> filter (fun r => row_UserID r = Some u) l = filter (fun e => ae_UserID e = u) (toAuditEvent <$> l).
Proof.
  intros Hu. induction l as [|r l IH]; [done|]. rewrite fmap_cons, !filter_cons. simpl.
  destruct (row_UserID r) as [v|]; simpl; repeat case_decide; rewrite ?fmap_cons, ?IH; try done; naive_solver.
Qed.

Lemma StronglySorted_split {A} (R : A -> A -> Prop) l1 l2 : StronglySorted R (l1 ++ l2) -> forall x y, x ∈ l1 -> y ∈ l2 -> R x y.
Proof.
  induction l1 as [|z l1 IH]; simpl; intros Hs x y Hx Hy; [by apply elem_of_nil in Hx|].
  apply StronglySorted_inv in Hs as [Hs Hz]. apply elem_of_cons in Hx as [-> |Hx]; [|eauto].
  rewrite Forall_forall in Hz. apply Hz. set_solver.
Qed.

(** The audit log is read in full and in order.  The list of all events is what the table
    holds, most recent first; the list of a user is the events of that user; the recent
    ones are a prefix of such a list, as long as asked for but at most a thousand, so that
    no event left out is more recent than one returned. *)
Theorem audit_reads_exact (s : @ObState W) :
  (forall l, (Store_ListAll s).1 = Ok l -> most_recent_first l /\ l ≡ₚ audit_table s) /\
  (forall u l, (Store_ListByUser u s).1 = Ok l -> u <> 0%N ->
     most_recent_first l /\ l ≡ₚ filter (fun e => ae_UserID e = u) (audit_table s)) /\
  (forall n l, (Store_ListRecent n s).1 = Ok l -> 0 <= n ->
     most_recent_first l /\ exists rest, l ++ rest ≡ₚ audit_table s /\
       length l = min (Z.to_nat (Z.min 1000 n)) (length (audit_table s)) /\
       forall e e', e ∈ l -> e' ∈ rest -> ae_Timestamp e' <= ae_Timestamp e).
Proof.
  split_and!.
  - intros l (rows & Hr & ->)%query_events_Ok. apply sql_Ok in Hr as (s0 & s1 & Hs & Hr). injection Hr as <- _. unfold by_time, audit_table. rewrite Hs.
    split; [apply events_sorted, StronglySorted_merge_sort; apply _|]. unfold mapAuditEvents. by rewrite merge_sort_Permutation.
  - intros u l (rows & Hr & ->)%query_events_Ok Hu. apply sql_Ok in Hr as (s0 & s1 & Hs & Hr). injection Hr as <- _. unfold by_time, audit_table. rewrite Hs.
    split; [apply events_sorted, StronglySorted_filter_rows, StronglySorted_merge_sort; apply _|].
    unfold mapAuditEvents. rewrite merge_sort_Permutation. by rewrite user_events.
  - intros n l (rows & Hr & ->)%query_events_Ok Hn. apply sql_Ok in Hr as (s0 & s1 & Hs & Hr).
    assert (wrap_int32 (Z.min 1000 n) = Z.min 1000 n) as E by (unfold wrap_int32; rewrite Z.mod_small; lia). rewrite E in Hr.
    rewrite (proj2 (Z.ltb_ge _ _)) in Hr by lia. simpl in Hr. injection Hr as <- _. unfold by_time, audit_table. rewrite Hs.
    set (q := merge_sort newer_row (map_to_list (ob_events s)).*2). set (k := Z.to_nat (Z.min 1000 n)).
    assert (StronglySorted newer_row q) as Hq by (apply StronglySorted_merge_sort; apply _).
    assert (q ≡ₚ (map_to_list (ob_events s)).*2) as Hp by apply merge_sort_Permutation.
    split; [by apply events_sorted, StronglySorted_take|]. exists (toAuditEvent <$> drop k q). unfold mapAuditEvents. split_and!.
    + by rewrite <- fmap_app, take_drop, Hp.
    + rewrite !length_fmap, length_take, Hp. by rewrite length_fmap.
    + rewrite <- (take_drop k q) in Hq. intros e e' (x & -> & Hx)%list_elem_of_fmap (y & -> & Hy)%list_elem_of_fmap.
      exact (StronglySorted_split newer_row _ _ Hq x y Hx Hy).
Qed.
End queries.

(** ** A failed message *)

Module KafkaExample.
Import OutboxExample.

(** One partition with two records; the world is the position and the committed offset. *)
Definition rec (o : Z) : KRecord := mkKRecord "audit" 0 o (show (Z.to_N o)) "{}" [] 0.
Definition broker : ConsumerClient (Z * Z) :=
  mkCClient (fun w => (Fetched [] (rec <$> filter (fun o => w.1 <= o) [0; 1]), (Z.max w.1 2, w.2)))
    (fun r w => if decide (kr_tp r = ("audit", 0)) then (Ok tt, (w.1, kr_Offset r + 1)) else (Err (EOther "unknown partition"), w))
    (fun w => w) (fun w => (Ok tt, w)).
Definition new_session (w : Z * Z) : Z * Z := (w.2, w.2).

Definition log (tp : string * Z) (o : Z) : option KRecord := if decide (tp = ("audit", 0) /\ o ∈ [0; 1]) then Some (rec o) else None.
Definition of_audit (f : Z * Z -> Z) (w : Z * Z) (tp : string * Z) : Z := if decide (tp = ("audit", 0)) then f w else 0.

Lemma fetched_in_order p l1 r l2 : rec <$> filter (fun o => p <= o) [0; 1] = l1 ++ r :: l2 ->
  forall o r', p <= o < kr_Offset r -> log ("audit", 0) o = Some r' -> r' ∈ l1.
Proof.
  intros Hs o r' Ho Hl. unfold log in Hl. case_decide as Hd; [|done]. destruct Hd as [_ Hin]. injection Hl as <-.
  rewrite !filter_cons, filter_nil in Hs. apply elem_of_cons in Hin as [-> |Hin%list_elem_of_singleton].
  - rewrite decide_True in Hs by lia. destruct l1 as [|x l1]; [|injection Hs as <- _; by left].
    exfalso. injection Hs as <- _. simpl in Ho. lia.
  - exfalso. subst o. assert (r ∈ l1 ++ r :: l2) as Hr by set_solver. rewrite <- Hs in Hr. apply list_elem_of_fmap in Hr as (y & -> & Hy).
    simpl in Ho. repeat case_decide; set_unfold; lia.
Qed.

#[local] Program Instance broker_laws : ConsumerLaws broker := {|
  cw_log := log;
  cw_position := of_audit fst;
  cw_committed := of_audit snd;
  cw_restart := new_session;
|}.
Next Obligation. intros tp o r. unfold log. case_decide as Hd; [|done]. destruct Hd as [-> _]. by intros [= <-]. Qed.
Next Obligation.
  intros w f w' [= <- <-]. unfold of_audit. split; [done|]. split_and!.
  - intros tp. case_decide; simpl; lia.
  - intros r (o & -> & [Ho Hin]%list_elem_of_filter)%list_elem_of_fmap. rewrite decide_True by done. simpl. split; [set_unfold; lia|].
    unfold log. by rewrite decide_True.
  - intros tp o r. unfold log. case_decide as Hd; case_decide as Hl; try done; [|lia]. destruct Hl as [_ Hin]. simpl. intros Ho [= <-].
    apply list_elem_of_fmap. exists o. split; [done|]. apply list_elem_of_filter. split; [lia|done].
  - intros l1 r l2 Hs o r' Ho Hl. assert (r ∈ rec <$> filter (fun o => w.1 <= o) [0; 1]) as Hr by (rewrite Hs; set_solver).
    apply list_elem_of_fmap in Hr as (x & -> & _). rewrite decide_True in Ho by done. by eapply fetched_in_order.
Qed.
Next Obligation.
  intros r w x w' Hc. simpl in Hc. unfold of_audit. case_decide as Hd; simplify_eq; [|naive_solver]. split_and!; [done| |].
  - intros tp Hne. case_decide; [congruence|done].
  - by left.
Qed.
Next Obligation. intros w tp. unfold of_audit. by case_decide. Qed.

(** A database that refuses one statement, and then works. *)
Definition flaky (w : nat) : outcome * nat := match w with O => (Done, O) | S n => (NotDone "connection refused", n) end.
Definition audit_handler (m : ConsumedMessage) : ST (@ObState nat) error unit :=
  Handle flaky parse (fun _ => Some 9) unmarshal (mkMessage (cm_Topic m) (cm_Key m) (cm_Value m) (cm_Headers m)).

Definition start : @Consumer (@ObState nat) (Z * Z) := mkConsumer (ob_empty 1%nat) (0, 0) false [].
Definition after_poll := Consumer_poll broker audit_handler start.
Definition after_restart := Consumer_poll broker audit_handler
  (mkConsumer (co_app after_poll) (new_session (co_world after_poll)) false (co_handed after_poll)).

(** The handler fails for the first record of a batch and is not committed, but the commit of
    the second one covers both: the first event is never stored, also not after a new
    session. *)
Lemma audit_event_passed_over :
  co_handed after_poll = [(rec 0, false); (rec 1, true)] /\ (co_world after_poll).2 = 2 /\
  ob_events (co_app after_restart) !! 0%N = None /\ is_Some (ob_events (co_app after_restart) !! 1%N) /\
  co_handed after_restart = co_handed after_poll.
Proof. vm_compute. split_and!; try reflexivity. by eexists. Qed.

Lemma consumer_hands_over_all_witness : exists ok, (rec 0, ok) ∈ co_handed (foldl (consumer_step broker audit_handler) start [KCrash 1; KPoll; KRestart]).
Proof.
  apply (consumer_hands_over_all broker audit_handler [KCrash 1; KPoll; KRestart] start (fun _ => 0) ("audit", 0) 0).
  - intros tp. simpl. unfold of_audit. by case_decide.
  - vm_compute. split; [discriminate|reflexivity].
  - reflexivity.
Defined.
End KafkaExample.
