(* ===== verification/Config.v ===== *)
(** * Configuration and assembly
    [internal/platform/config/config.go] and the parts of [cmd/server/main.go] that decide
    from it: [buildInfra], [initPhase2Infra], [initializeJWTService], [buildAuthModule] and
    the start of the admin server

    The environment is a map from names to values; an unset variable and an empty one are
    the same to the code; names of environments and schemes are ASCII.  [time.ParseDuration] and [strconv.Atoi] are arguments, and so are
    the connections to the database, Redis and Kafka.  The theorems say what a server that
    starts in a given environment accepts, through the modules it is built from. *)
From S2P Require Import Prelude Errors SqlDb Ring AuditTrail Outbox AuthModels AuthService Http Jwt RateMiddleware Routes.
Open Scope Z_scope.

(** ** Settings *)

Record DatabaseSettings := mkDatabase { dbc_URL : string; dbc_MaxOpenConns : Z; dbc_MaxIdleConns : Z; dbc_ConnMaxLifetime : duration }.
Record KafkaSettings := mkKafka {
  kfc_Brokers : string; kfc_AuditTopic : string; kfc_Acks : string; kfc_Retries : Z; kfc_DeliveryTimeout : duration; kfc_ConsumerGroup : string;
}.
Record OutboxSettings := mkOutbox { obc_PollInterval : duration; obc_BatchSize : Z; obc_RetentionDays : Z }.
Record RedisSettings := mkRedis {
  rdc_URL : string; rdc_PoolSize : Z; rdc_MinIdleConns : Z; rdc_DialTimeout : duration; rdc_ReadTimeout : duration; rdc_WriteTimeout : duration;
}.
Record AuthSettings := mkAuthSettings {
  auc_JWTSigningKey : string;
  auc_JWTIssuerBaseURL : string;
  auc_JWTAudience : string;
  auc_TokenTTL : duration;
  auc_SessionTTL : duration;
  auc_TokenRevocationCleanupInterval : duration;
  auc_AuthCleanupInterval : duration;
  auc_AllowedRedirectSchemes : list string;
  auc_DeviceBindingEnabled : bool;
  auc_DeviceCookieName : string;
  auc_DeviceCookieMaxAge : Z;
}.
Record ConsentSettings := mkConsentSettings { coc_ConsentTTL : duration; coc_ConsentGrantWindow : duration; coc_ReGrantCooldown : duration }.
Record RegistrySettings := mkRegistrySettings {
  rgc_CacheTTL : duration; rgc_CitizenRegistryURL : string; rgc_CitizenAPIKey : string; rgc_SanctionsRegistryURL : string;
  rgc_SanctionsAPIKey : string; rgc_RegistryTimeout : duration;
}.
Record SecuritySettings := mkSecurity { sec_RegulatedMode : bool; sec_AdminAPIToken : string }.
Record ServerConfig := mkServerConfig {
  sc_Addr : string;
  sc_Environment : string;
  sc_DemoMode : bool;
  sc_Auth : AuthSettings;
  sc_Consent : ConsentSettings;
  sc_Registry : RegistrySettings;
  sc_Security : SecuritySettings;
  sc_DisableRateLimiting : bool;
  sc_Database : DatabaseSettings;
  sc_Redis : RedisSettings;
  sc_Kafka : KafkaSettings;
  sc_Outbox : OutboxSettings;
}.

(** ** Text *)

(** [strings.Split] at a character. *)
Fixpoint split_at (sep : Ascii.ascii) (s : string) : list string :=
  match s with
  | EmptyString => [""]
  | String c s' =>
      if Ascii.eqb c sep then "" :: split_at sep s'
      else match split_at sep s' with h :: t => String c h :: t | [] => [String c ""] end
  end.
Definition comma : Ascii.ascii := Ascii.ascii_of_nat 44.
Definition dot : Ascii.ascii := Ascii.ascii_of_nat 46.

Fixpoint strings_Contains (s sub : string) : bool :=
  String.prefix sub s || match s with EmptyString => false | String _ s' => strings_Contains s' sub end.

(** ** Loading *)

Section config.
Context (ParseDuration : string -> option duration) (Atoi : string -> option Z).

Abbreviation Env := (gmap string string) (only parsing).

Definition Getenv (env : Env) (key : string) : string := default "" (env !! key).

Definition getEnv (env : Env) (key defaultValue : string) : string :=
  if str_empty (Getenv env key) then defaultValue else Getenv env key.

Definition parseDuration (env : Env) (key : string) (defaultValue : duration) : duration :=
  if str_empty (Getenv env key) then defaultValue else default defaultValue (ParseDuration (Getenv env key)).

Definition parseInt (env : Env) (key : string) (defaultValue : Z) : Z :=
  if str_empty (Getenv env key) then defaultValue
  else match Atoi (Getenv env key) with Some n => if 0 <? n then n else defaultValue | None => defaultValue end.

Definition development (environment : string) : bool :=
  slices_Contains ["local"; "dev"; "development"; "demo"; "testing"; "test"] (string_lower environment).

Definition parseAllowedRedirectSchemes (raw environment : string) : list string :=
  let normalized := filter (fun s => str_empty s = false) ((fun p => string_lower (TrimSpace p)) <$> split_at comma raw) in
  if negb (str_empty raw) && (0 <? Z.of_nat (length normalized)) then normalized
  else if development environment then ["http"; "https"] else ["https"].

Definition loadAuthConfig (env : Env) (environment : string) (demoMode : bool) : AuthSettings :=
  let jwtSigningKey := Getenv env "JWT_SIGNING_KEY" in
  let jwtIssuerBaseURL := getEnv env "JWT_ISSUER_BASE_URL" "http://localhost:8080" in
  mkAuthSettings
    (if demoMode then "demo-signing-key-change-me-locally"
     else if str_empty jwtSigningKey then "dev-secret-key-change-in-production" else jwtSigningKey)
    (if demoMode then "http://localhost:8080" else jwtIssuerBaseURL)
    (getEnv env "JWT_AUDIENCE" "credo-client")
    (parseDuration env "TOKEN_TTL" (15 * Minute))
    (parseDuration env "SESSION_TTL" (24 * Hour))
    (parseDuration env "TOKEN_REVOCATION_CLEANUP_INTERVAL" (5 * Minute))
    (parseDuration env "AUTH_CLEANUP_INTERVAL" (5 * Minute))
    (parseAllowedRedirectSchemes (Getenv env "ALLOWED_REDIRECT_SCHEMES") environment)
    (bool_decide (Getenv env "DEVICE_BINDING_ENABLED" = "true"))
    (getEnv env "DEVICE_COOKIE_NAME" "__Secure-Device-ID")
    (parseInt env "DEVICE_COOKIE_MAX_AGE" 31536000).

Definition loadConsentConfig (env : Env) : ConsentSettings :=
  mkConsentSettings (parseDuration env "CONSENT_TTL" (365 * 24 * Hour)) (parseDuration env "CONSENT_GRANT_WINDOW" (5 * Minute))
    (parseDuration env "CONSENT_REGRANT_COOLDOWN" (5 * Minute)).

Definition loadRegistryConfig (env : Env) : RegistrySettings :=
  mkRegistrySettings (parseDuration env "REGISTRY_CACHE_TTL" (5 * Minute)) (getEnv env "CITIZEN_REGISTRY_URL" "http://localhost:8081")
    (getEnv env "CITIZEN_REGISTRY_API_KEY" "citizen-registry-secret-key") (getEnv env "SANCTIONS_REGISTRY_URL" "http://localhost:8082")
    (getEnv env "SANCTIONS_REGISTRY_API_KEY" "sanctions-registry-secret-key") (parseDuration env "REGISTRY_TIMEOUT" (5 * Second)).

Definition loadSecurityConfig (env : Env) (environment : string) (demoMode : bool) : SecuritySettings :=
  let regulatedEnv := Getenv env "REGULATED_MODE" in
  let regulated := if negb (str_empty regulatedEnv) then bool_decide (regulatedEnv = "true") else false in
  let adminToken := Getenv env "ADMIN_API_TOKEN" in
  mkSecurity regulated (if str_empty adminToken then (if development environment then "demo-admin-token" else "") else adminToken).

Definition loadDatabaseConfig (env : Env) : DatabaseSettings :=
  mkDatabase (Getenv env "DATABASE_URL") (parseInt env "DB_MAX_OPEN_CONNS" 25) (parseInt env "DB_MAX_IDLE_CONNS" 5)
    (parseDuration env "DB_CONN_MAX_LIFETIME" (5 * Minute)).

Definition loadKafkaConfig (env : Env) : KafkaSettings :=
  mkKafka (Getenv env "KAFKA_BROKERS") (getEnv env "KAFKA_AUDIT_TOPIC" "credo.audit.events") (getEnv env "KAFKA_ACKS" "all")
    (parseInt env "KAFKA_RETRIES" 3) (parseDuration env "KAFKA_DELIVERY_TIMEOUT" (30 * Second))
    (getEnv env "KAFKA_CONSUMER_GROUP" "credo-audit-consumer").

Definition loadOutboxConfig (env : Env) : OutboxSettings :=
  mkOutbox (parseDuration env "OUTBOX_POLL_INTERVAL" (100 * Millisecond)) (parseInt env "OUTBOX_BATCH_SIZE" 100)
    (parseInt env "OUTBOX_RETENTION_DAYS" 7).

Definition loadRedisConfig (env : Env) : RedisSettings :=
  mkRedis (Getenv env "REDIS_URL") (parseInt env "REDIS_POOL_SIZE" 10) (parseInt env "REDIS_MIN_IDLE_CONNS" 2)
    (parseDuration env "REDIS_DIAL_TIMEOUT" (5 * Second)) (parseDuration env "REDIS_READ_TIMEOUT" (3 * Second))
    (parseDuration env "REDIS_WRITE_TIMEOUT" (3 * Second)).

Definition refusing (key : string) : error := EOther ("refusing to start demo env with production variables: " +:+ key).

(** The variables in the order of [os.Environ]. *)
Definition validateDemoMode (env : Env) : res unit :=
  if negb (str_empty (Getenv env "JWT_SIGNING_KEY")) then Err (refusing "JWT_SIGNING_KEY")
  else match find (fun kv => strings_Contains (string_lower kv.1) "prod") (map_to_list env) with
       | Some kv => Err (refusing kv.1)
       | None => Ok tt
       end.

Definition FromEnv (env : Env) : res ServerConfig :=
  let environment := getEnv env "CREDO_ENV" "local" in
  let demoMode := bool_decide (environment = "demo") in
  let cfg := mkServerConfig (getEnv env "ID_GATEWAY_ADDR" ":8080") environment demoMode
    (loadAuthConfig env environment demoMode) (loadConsentConfig env) (loadRegistryConfig env)
    (loadSecurityConfig env environment demoMode) (bool_decide (Getenv env "DISABLE_RATE_LIMITING" = "true"))
    (loadDatabaseConfig env) (loadRedisConfig env) (loadKafkaConfig env) (loadOutboxConfig env) in
  if demoMode then (_ ← validateDemoMode env; Ok cfg) else Ok cfg.
End config.

(** ** Assembly *)

(** What [initPhase2Infra] leaves in the bundle. *)
Record Infra := mkInfra {
  in_DBPool : bool;
  in_RedisClient : bool;
  in_KafkaProducer : bool;
  (** The topic, the batch size and the interval of the outbox worker. *)
  in_OutboxWorker : option (string * Z * duration);
  (** The group and the topic of the consumer. *)
  in_KafkaConsumer : option (string * string);
}.

Section assembly.
Context {W : Type} (connectDatabase : DatabaseSettings -> ST W error unit) (connectRedis : RedisSettings -> ST W error unit).
Context (newProducer newConsumer : KafkaSettings -> ST W error unit).

Definition labelled (label : string) (m : ST W error unit) : ST W error bool := fun w =>
  match m w with (Ok _, w') => (Ok true, w') | (Err e, w') => (Err (EWrap label e), w') end.

(** Subscribing to a topic does not fail. *)
Definition initPhase2Infra (cfg : ServerConfig) : ST W error Infra :=
  db ← (if str_empty (dbc_URL (sc_Database cfg)) then mret false else labelled "initialize database" (connectDatabase (sc_Database cfg)));
  redis ← (if str_empty (rdc_URL (sc_Redis cfg)) then mret false else labelled "initialize redis" (connectRedis (sc_Redis cfg)));
  producer ← (if str_empty (kfc_Brokers (sc_Kafka cfg)) then mret false
              else labelled "initialize kafka producer" (newProducer (sc_Kafka cfg)));
  if db && producer then
    _ ← labelled "initialize kafka consumer" (newConsumer (sc_Kafka cfg));
    mret (mkInfra db redis producer
            (Some (kfc_AuditTopic (sc_Kafka cfg), obc_BatchSize (sc_Outbox cfg), obc_PollInterval (sc_Outbox cfg)))
            (Some (kfc_ConsumerGroup (sc_Kafka cfg), kfc_AuditTopic (sc_Kafka cfg))))
  else mret (mkInfra db redis producer None None).
End assembly.

Definition initializeJWTService (cfg : ServerConfig) : JWTService :=
  let s := NewJWTService (auc_JWTSigningKey (sc_Auth cfg)) (auc_JWTIssuerBaseURL (sc_Auth cfg)) (auc_JWTAudience (sc_Auth cfg))
             (auc_TokenTTL (sc_Auth cfg)) in
  if sc_DemoMode cfg then SetEnv s "demo" else s.

(** The configuration [buildAuthModule] gives to the auth service. *)
Definition authCfg (cfg : ServerConfig) : AuthConfig :=
  mkAuthConfig (auc_SessionTTL (sc_Auth cfg)) (auc_TokenTTL (sc_Auth cfg)) 0 (auc_AllowedRedirectSchemes (sc_Auth cfg))
    (auc_DeviceBindingEnabled (sc_Auth cfg)) TRLFailureModeUnset.

Definition rate_limiting_disabled (cfg : ServerConfig) : bool := sc_DemoMode cfg || sc_DisableRateLimiting cfg.

(** The stores of [buildAuthModule]. *)
Inductive Backend := InMemory | Postgres | RedisServer.
Definition auth_stores (i : Infra) : Backend := if in_DBPool i then Postgres else InMemory.
Definition revocation_list (i : Infra) : Backend :=
  if in_DBPool i then (if in_RedisClient i then RedisServer else Postgres) else InMemory.

(** ** What a server accepts *)

Section contract.
Context (ParseDuration : string -> option duration) (Atoi : string -> option Z).

Lemma parseInt_pos env key dflt : 0 < dflt -> 0 < parseInt Atoi env key dflt.
Proof. intros Hd. unfold parseInt. repeat case_match; bools; done. Qed.

(** Every count the configuration holds is positive. *)
Record counts_positive (cfg : ServerConfig) : Prop := {
  cp_cookie : 0 < auc_DeviceCookieMaxAge (sc_Auth cfg);
  cp_open : 0 < dbc_MaxOpenConns (sc_Database cfg);
  cp_idle : 0 < dbc_MaxIdleConns (sc_Database cfg);
  cp_retries : 0 < kfc_Retries (sc_Kafka cfg);
  cp_batch : 0 < obc_BatchSize (sc_Outbox cfg);
  cp_days : 0 < obc_RetentionDays (sc_Outbox cfg);
  cp_pool : 0 < rdc_PoolSize (sc_Redis cfg);
  cp_min : 0 < rdc_MinIdleConns (sc_Redis cfg);
}.

Lemma FromEnv_Ok env cfg : FromEnv ParseDuration Atoi env = Ok cfg ->
  sc_Environment cfg = getEnv env "CREDO_ENV" "local" /\ sc_DemoMode cfg = bool_decide (sc_Environment cfg = "demo") /\
  sc_Auth cfg = loadAuthConfig ParseDuration Atoi env (sc_Environment cfg) (sc_DemoMode cfg) /\
  sc_Security cfg = loadSecurityConfig env (sc_Environment cfg) (sc_DemoMode cfg) /\
  sc_DisableRateLimiting cfg = bool_decide (Getenv env "DISABLE_RATE_LIMITING" = "true") /\
  (sc_DemoMode cfg = true -> validateDemoMode env = Ok tt) /\ counts_positive cfg.
Proof.
  unfold FromEnv. intros Hc.
  assert (cfg = mkServerConfig (getEnv env "ID_GATEWAY_ADDR" ":8080") (getEnv env "CREDO_ENV" "local")
    (bool_decide (getEnv env "CREDO_ENV" "local" = "demo"))
    (loadAuthConfig ParseDuration Atoi env (getEnv env "CREDO_ENV" "local") (bool_decide (getEnv env "CREDO_ENV" "local" = "demo")))
    (loadConsentConfig ParseDuration env) (loadRegistryConfig ParseDuration env)
    (loadSecurityConfig env (getEnv env "CREDO_ENV" "local") (bool_decide (getEnv env "CREDO_ENV" "local" = "demo")))
    (bool_decide (Getenv env "DISABLE_RATE_LIMITING" = "true"))
    (loadDatabaseConfig ParseDuration Atoi env) (loadRedisConfig ParseDuration Atoi env) (loadKafkaConfig ParseDuration Atoi env)
    (loadOutboxConfig ParseDuration Atoi env) /\
    (bool_decide (getEnv env "CREDO_ENV" "local" = "demo") = true -> validateDemoMode env = Ok tt)) as [-> Hv].
  { destruct (bool_decide _); [|by simplify_eq]. unfold mbind, result_bind in Hc. destruct (validateDemoMode env) as [[]|]; by simplify_eq. }
  simpl. split_and!; try done. split; simpl; apply parseInt_pos; lia.
Qed.

(** What a configuration promises.  All counts are positive and the signing key is not
    empty, in every environment.  Outside development: without an administration token no
    administrative endpoint is mounted on either server; unless schemes are listed, the
    auth service accepts redirects to https only; and rate limiting is off only when the
    variable for it says so.  A demonstration starts only without a signing key and without
    any variable whose name contains prod, and then signs with its own key. *)
Theorem configuration_contract (env : gmap string string) (cfg : ServerConfig) :
  FromEnv ParseDuration Atoi env = Ok cfg ->
  counts_positive cfg /\ auc_JWTSigningKey (sc_Auth cfg) <> "" /\
  (development (sc_Environment cfg) = false ->
     (Getenv env "ADMIN_API_TOKEN" = "" ->
      forall L F X Addr Prefix (HL : RateLimiter L) (HF : RateLimiter F) pm pa pc us up v rev dev clock nid (lim : Handler (Middleware L F * X) -> Handler (Middleware L F * X)) app e,
        group_of e = GroupAdmin \/ group_of e = GroupMonitoring ->
        registerRoutes (Addr := Addr) (Prefix := Prefix) pm pa pc us up v rev dev clock nid (sec_AdminAPIToken (sc_Security cfg)) lim app e = None /\
        registerAdminRoutes (L := L) (F := F) pm clock nid (sec_AdminAPIToken (sc_Security cfg)) app e = None) /\
     (Getenv env "ALLOWED_REDIRECT_SCHEMES" = "" -> forall u,
        isRedirectSchemeAllowed (applyDefaults (authCfg cfg)) u = true -> string_lower (url_Scheme u) = "https") /\
     (rate_limiting_disabled cfg = true -> Getenv env "DISABLE_RATE_LIMITING" = "true")) /\
  (sc_DemoMode cfg = true ->
     Getenv env "JWT_SIGNING_KEY" = "" /\ auc_JWTSigningKey (sc_Auth cfg) = "demo-signing-key-change-me-locally" /\
     forall k v, env !! k = Some v -> strings_Contains (string_lower k) "prod" = false).
Proof.
  intros (He & Hd & Ha & Hs & Hr & Hv & Hc)%FromEnv_Ok. split_and!; [done| |intros Hdev; split_and!|].
  - rewrite Ha. simpl. destruct (sc_DemoMode cfg); [done|]. destruct (str_empty (Getenv env "JWT_SIGNING_KEY")) eqn:E; [done|].
    unfold str_empty in E. by apply bool_decide_eq_false in E.
  - intros Ht L F X Addr Prefix HL HF pm pa pc us up v rev dev clock nid lim app e Hg.
    assert (sec_AdminAPIToken (sc_Security cfg) = "") as -> by (rewrite Hs; unfold loadSecurityConfig; simpl; by rewrite Ht, Hdev).
    split; [|done]. unfold registerRoutes. by destruct Hg as [-> | ->].
  - intros Hschemes u. unfold isRedirectSchemeAllowed, applyDefaults, authCfg. rewrite Ha. simpl. rewrite Hschemes.
    unfold parseAllowedRedirectSchemes. rewrite Hdev. simpl. rewrite orb_false_r. unfold EqualFold. intros Hb. by bools.
  - unfold rate_limiting_disabled. rewrite Hr, Hd. intros [Hb|Hb]%orb_true_iff; [|by bools].
    bools. by rewrite Hb in Hdev.
  - intros Hdemo. specialize (Hv Hdemo). unfold validateDemoMode in Hv. destruct (str_empty (Getenv env "JWT_SIGNING_KEY")) eqn:E; simpl in Hv; [|done].
    split_and!; [by apply bool_decide_eq_true in E|rewrite Ha; simpl; by rewrite Hdemo|].
    intros k v Hk. destruct (find _ _) eqn:Hf; [done|]. by apply (find_none _ _ Hf (k, v)), list_elem_of_In, elem_of_map_to_list.
Qed.

(** A variable that is set but cannot be read, or is not positive, counts as unset for the
    counts; a duration may be zero or negative.  Then the auth service falls back to its
    default while the tokens it issues get the configured lifetime. *)
Lemma token_lifetimes_differ env cfg : FromEnv ParseDuration Atoi env = Ok cfg -> Getenv env "TOKEN_TTL" = "0s" -> ParseDuration "0s" = Some 0 ->
  cfg_TokenTTL (applyDefaults (authCfg cfg)) = 15 * Minute /\ js_tokenTTL (initializeJWTService cfg) = 0.
Proof.
  intros (_ & _ & Ha & _)%FromEnv_Ok Ht Hp. unfold initializeJWTService, authCfg, applyDefaults.
  assert (auc_TokenTTL (sc_Auth cfg) = 0) as E by (rewrite Ha; simpl; unfold parseDuration; by rewrite Ht, Hp).
  simpl. rewrite E. split; [done|]. by destruct (sc_DemoMode cfg).
Qed.
End contract.

(** ** Audit events without Kafka *)

Lemma no_kafka_no_consumer {W} cd cr np nc cfg (w : W) i w' : initPhase2Infra cd cr np nc cfg w = (Ok i, w') ->
  kfc_Brokers (sc_Kafka cfg) = "" -> in_OutboxWorker i = None /\ in_KafkaConsumer i = None.
Proof.
  unfold initPhase2Infra, mbind, st_bind. intros Hi Hb. rewrite Hb in Hi. simpl in Hi.
  do 2 (match goal with H : (let (r, s') := ?x in _) = _ |- _ => destruct x as [[?|] ?] end; [|done]).
  rewrite andb_false_r in Hi. by injection Hi as <- _.
Qed.

Section view.
Context {W : Type} {PG : PgTypes} (db : W -> outcome * W) (newID : nat -> uuid) (uuid_String : uuid -> string).
Context (format_time : time -> string) (json_Marshal : Payload -> res string).

Definition appended (now : time) (e : AuditEvent) (s : @ObState W) : @ObState W :=
  (Store_Append db newID uuid_String format_time json_Marshal now e s).2.

(** Events go to the outbox; with a database but without Kafka nothing takes them from
    there, and the table the administration views read stays empty. *)
Lemma audit_view_needs_kafka (events : list (time * AuditEvent)) (w : W) :
  ob_events (foldl (fun s te => appended te.1 te.2 s) (ob_empty w) events) = ∅.
Proof.
  assert (forall s, ob_events s = ∅ -> ob_events (foldl (fun s te => appended te.1 te.2 s) s events) = ∅) as Hk; [|by apply Hk].
  induction events as [|[t e] events IH]; intros s Hs; simpl; [done|]. apply IH. unfold appended.
  destruct (Store_Append_frame db newID uuid_String format_time json_Marshal t e s) as [-> _]. done.
Qed.
End view.

(** ** Examples *)

Module ConfigExample.
Definition env : gmap string string := {["CREDO_ENV" := "production"]}.
Definition no_parse (A : Type) (s : string) : option A := None.

(** A server in production without a signing key starts, and signs with a key that is in
    the source. *)
Lemma production_signs_with_known_key : exists cfg, FromEnv (no_parse _) (no_parse _) env = Ok cfg /\
  development (sc_Environment cfg) = false /\ js_signingKey (initializeJWTService cfg) = "dev-secret-key-change-in-production".
Proof. eexists. split; [reflexivity|]. split; vm_compute; reflexivity. Qed.

Lemma configuration_contract_witness : exists cfg, FromEnv (no_parse _) (no_parse _) env = Ok cfg /\ counts_positive cfg /\
  forall u, isRedirectSchemeAllowed (applyDefaults (authCfg cfg)) u = true -> string_lower (url_Scheme u) = "https".
Proof.
  eexists. split; [reflexivity|].
  destruct (configuration_contract (no_parse _) (no_parse _) env _ eq_refl) as (Hc & _ & Hp & _). split; [exact Hc|].
  destruct (Hp ltac:(vm_compute; reflexivity)) as (_ & Hs & _). apply Hs. vm_compute. reflexivity.
Defined.
End ConfigExample.
