(* ===== verification/Platform.v ===== *)
(** * Health, devices, audit logging and shutdown
    [internal/platform/health/handler.go], [internal/auth/device/device.go],
    [pkg/platform/attrs/], [pkg/platform/audit/helper.go], the life of the outbox worker in
    [pkg/platform/audit/outbox/worker/worker.go], the channel worker in
    [pkg/platform/audit/worker/worker.go], [internal/platform/kafka/health.go] and the shutdown
    of [cmd/server/main.go]

    The user-agent parser, SHA-256 and the checks of dependencies are arguments. *)
From S2P Require Import Prelude Errors SqlDb Ring AuditTrail Outbox AuthModels AuthService Http Kafka Config.
Open Scope Z_scope.

(** ** Health *)

Section health.
Context {W : Type}.

(** A check reports nothing when the dependency is healthy. *)
Record HealthHandler := mkHealth {
  hh_startTime : time;
  hh_environment : string;
  hh_checks : gmap string (W -> option error * W);
}.

Definition Health_New (now : time) (environment : string) : HealthHandler := mkHealth now environment ∅.
Definition RegisterCheck (name : string) (check : W -> option error * W) (h : HealthHandler) : HealthHandler :=
  mkHealth (hh_startTime h) (hh_environment h) (<[name := check]> (hh_checks h)).

Definition HandleLiveness (h : gmap string string) : HttpResult := WriteJSON 200 [("status", JString "alive")] h.

(** The checks in the order in which Go ranges over the map. *)
Fixpoint run_checks (checks : list (string * (W -> option error * W))) (w : W) : list (string * option error) * W :=
  match checks with
  | [] => ([], w)
  | (name, check) :: rest =>
      let '(r, w1) := check w in
      let '(rs, w2) := run_checks rest w1 in ((name, r) :: rs, w2)
  end.

Definition check_text (r : option error) : string := match r with Some e => "down: " +:+ Error_text e | None => "up" end.

(** An empty map of checks is omitted. *)
Definition readiness (status : string) (results : list (string * option error)) : list (string * jval) :=
  ("status", JString status) ::
  match results with [] => [] | _ => [("checks", JObject ((fun nr => (nr.1, JString (check_text nr.2))) <$> results))] end.

Definition HandleReadiness (hh : HealthHandler) (h : gmap string string) (w : W) : HttpResult * W :=
  let '(results, w') := run_checks (map_to_list (hh_checks hh)) w in
  (if forallb (fun nr => match nr.2 with None => true | Some _ => false end) results
   then WriteJSON 200 (readiness "ready" results) h
   else WriteJSON 503 (readiness "not_ready" results) h, w').

(** [version] is set at build time; [uptime] in whole seconds. *)
Definition HandleStatus (version : string) (format : time -> string) (hh : HealthHandler) (now : time) (h : gmap string string) : HttpResult :=
  WriteJSON 200 [("status", JString "healthy"); ("version", JString version); ("environment", JString (hh_environment hh));
                 ("uptime_seconds", JInt (Z.quot (time_Sub now (hh_startTime hh)) Second)); ("timestamp", JString (format now))] h.

Lemma run_checks_names checks w : (run_checks checks w).1.*1 = checks.*1.
Proof.
  revert w. induction checks as [|[n c] rest IH]; intros w; simpl; [done|]. destruct (c w) as [r w1].
  specialize (IH w1). destruct (run_checks rest w1) as [rs w2]. simpl in *. f_equal. exact IH.
Qed.

(** The readiness probe answers 200 exactly when no check fails, and in any case names
    every registered check once. *)
Lemma readiness_exact hh h w : let '(results, w') := run_checks (map_to_list (hh_checks hh)) w in
  results.*1 ≡ₚ elements (dom (hh_checks hh)) /\
  ((HandleReadiness hh h w).1 = WriteJSON 200 (readiness "ready" results) h <-> Forall (fun nr => nr.2 = None) results) /\
  ((HandleReadiness hh h w).1 = WriteJSON 503 (readiness "not_ready" results) h <-> Exists (fun nr => nr.2 <> None) results).
Proof.
  unfold HandleReadiness. pose proof (run_checks_names (map_to_list (hh_checks hh)) w) as Hn.
  destruct (run_checks _ w) as [results w']. simpl in Hn. split.
  { rewrite Hn. apply NoDup_Permutation; [apply NoDup_fst_map_to_list|apply NoDup_elements|]. intros x. rewrite elem_of_elements, elem_of_dom, list_elem_of_fmap.
    split; [intros ([y c] & -> & Hy%elem_of_map_to_list); by exists c|intros (c & Hc); exists (x, c); split; [done|by apply elem_of_map_to_list]]. }
  assert (forallb (fun nr => match nr.2 with None => true | Some _ => false end) results = true <-> Forall (fun nr : string * option error => nr.2 = None) results) as Hf.
  { rewrite forallb_forall, Forall_forall. setoid_rewrite list_elem_of_In. split; intros Ha x Hx; specialize (Ha x Hx); by destruct (x.2). }
  destruct (forallb _ results) eqn:E; simpl.
  - assert (Forall (fun nr : string * option error => nr.2 = None) results) as Hall by (by apply Hf). split; [done|]. split; [done|].
    intros Hx%Exists_exists. destruct Hx as (x & Hx & Hne). rewrite Forall_forall in Hall. by destruct Hne; apply Hall.
  - assert (~ Forall (fun nr : string * option error => nr.2 = None) results) as Hall by (by rewrite <- Hf). split; [done|]. split; [|done].
    intros _. apply not_Forall_Exists in Hall; [exact Hall|]. intros [n [e|]]; [right|left]; done.
Qed.
End health.

(** ** Devices *)

Record UserAgent := mkUA { ua_Browser : string; ua_Version : string; ua_OS : string; ua_Mobile : bool; ua_Platform : string }.

Section device.
Context (useragent_New : string -> UserAgent) (sha256_hex : string -> string).

Definition or_unknown (s : string) : string := if str_empty s then "unknown" else s.

Definition majorVersion (version : string) : string :=
  if str_empty version then "unknown" else match split_at dot version with p :: _ => or_unknown p | [] => "unknown" end.

(** What identifies a device: neither the address nor a minor version. *)
Definition fingerprint_data (ua : UserAgent) : string :=
  or_unknown (string_lower (TrimSpace (ua_Browser ua))) +:+ "|" +:+ majorVersion (ua_Version ua) +:+ "|" +:+
  or_unknown (string_lower (TrimSpace (ua_OS ua))) +:+ "|" +:+ (if ua_Mobile ua then "mobile" else "desktop").

Definition ComputeFingerprint (enabled : bool) (userAgentString : string) : string :=
  if negb enabled || str_empty userAgentString then "" else sha256_hex (fingerprint_data (useragent_New userAgentString)).

Definition ParseUserAgent (userAgentString : string) : string :=
  if str_empty userAgentString then "Unknown Device"
  else
    let ua := useragent_New userAgentString in
    if ua_Mobile ua && negb (str_empty (ua_Platform ua)) then TrimSpace (ua_Browser ua +:+ " on " +:+ ua_Platform ua)
    else TrimSpace ((if str_empty (ua_Browser ua) then "Unknown Browser" else ua_Browser ua) +:+ " on " +:+
                    (if str_empty (ua_OS ua) then "Unknown OS" else ua_OS ua)).

(** An update of the minor version is no drift. *)
Lemma minor_update_keeps_fingerprint a b : a <> "" -> b <> "" ->
  ua_Browser (useragent_New a) = ua_Browser (useragent_New b) -> ua_OS (useragent_New a) = ua_OS (useragent_New b) ->
  ua_Mobile (useragent_New a) = ua_Mobile (useragent_New b) ->
  majorVersion (ua_Version (useragent_New a)) = majorVersion (ua_Version (useragent_New b)) ->
  CompareFingerprints true (ComputeFingerprint true a) (ComputeFingerprint true b) = (true, false).
Proof.
  intros Ha Hb Hbr Hos Hm Hv. unfold ComputeFingerprint, str_empty. rewrite !bool_decide_eq_false_2 by done. simpl.
  unfold fingerprint_data. rewrite Hbr, Hos, Hm, Hv. unfold CompareFingerprints. simpl. by rewrite bool_decide_eq_true_2.
Qed.
End device.

(** ** Audit logging *)

(** An element of an attribute list. *)
Inductive attr := AttrString (s : string) | AttrOther.

Fixpoint ExtractString (attributes : list attr) (key : string) : string :=
  match attributes with
  | AttrString k :: v :: rest =>
      if bool_decide (k = key) then match v with AttrString s => s | AttrOther => ExtractString rest key end
      else ExtractString rest key
  | AttrOther :: _ :: rest => ExtractString rest key
  | _ => ""
  end.

Section logger.
Context {S : Type} (ParseUserID : string -> option uuid) (emitter : option (AuditEvent -> ST S error unit)).

(** The event the logger emits; an identifier that does not parse is the nil user. *)
Definition logged_event (event requestID : string) (attributes : list attr) : AuditEvent :=
  let userIDStr := ExtractString attributes "user_id" in
  mkEvent "" zero_time (default 0%N (ParseUserID userIDStr)) userIDStr event "" "" "" "" (ExtractString attributes "email") requestID "" "".

(** A failure to emit is logged. *)
Definition Logger_Log (requestID event : string) (attributes : list attr) (s : S) : S :=
  let attributes := if str_empty requestID then attributes else attributes ++ [AttrString "request_id"; AttrString requestID] in
  match emitter with
  | None => s
  | Some emit => (emit (logged_event event requestID attributes) s).2
  end.

(** The attributes given by the caller win over the request identifier that is added. *)
Lemma extract_appended l key x : Nat.Even (length l) -> key <> "request_id" ->
  ExtractString (l ++ [AttrString "request_id"; AttrString x]) key = ExtractString l key.
Proof.
  intros [n Hl] Hk. revert l Hl. induction n as [|n IH]; intros l Hl.
  - destruct l; [|simpl in Hl; lia]. simpl. by rewrite bool_decide_eq_false_2.
  - destruct l as [|a [|b l]]; simpl in Hl; try lia. specialize (IH l ltac:(lia)).
    destruct a as [k|]; simpl; [|done]. case_bool_decide; [|done]. by destruct b.
Qed.
End logger.

(** ** The channel worker *)

Section channel_worker.
Context {S : Type} `{AuditStore S}.

Definition zero_event : AuditEvent := mkEvent "" zero_time 0%N "" "" "" "" "" "" "" "" "" "".

(** What the loop of [Worker.Run] receives: an event, the zero event of a closed channel, or
    the end of the context. *)
Inductive Received := Inbox (e : AuditEvent) | InboxClosed | CtxDone (err : error).

(** The result, if the loop has ended. *)
Fixpoint Channel_Run (received : list Received) (s : S) : option error * S :=
  match received with
  | [] => (None, s)
  | CtxDone err :: _ => (Some err, s)
  | r :: rest =>
      match audit_Append (match r with Inbox e => e | _ => zero_event end) s with
      | (Err e, s') => (Some e, s')
      | (Ok _, s') => Channel_Run rest s'
      end
  end.
End channel_worker.

(** While the worker runs, every event it received is stored.  It does not notice that the
    channel is closed: each turn of the loop then stores an empty event. *)
Lemma channel_worker_stores {S : Type} `{AuditStore S} (received : list Received) (s s' : S) :
  Channel_Run received s = (None, s') ->
  audit_events s' ≡ₚ ((fun r => audit_form (match r with Inbox e => e | _ => zero_event end)) <$> received) ++ audit_events s.
Proof.
  revert s. induction received as [|r rest IH]; intros s; simpl; [by intros [= ->]|].
  destruct r as [e| |err]; [| |done];
    (destruct (audit_Append _ s) as [[[]|x] s1] eqn:E; [|done]; intros Hr; apply IH in Hr; apply audit_Append_Ok in E;
     rewrite Hr, E; apply Permutation_sym, Permutation_middle).
Qed.

(** ** Closing the publishers *)

(** Only the security publisher has something to drain. *)
Definition AuditSystem_Close {S : Type} `{AuditStore S} (cancelled : duration -> S -> bool) (sys : AuditSystem S) : option (AuditSystem S) :=
  p ← Security_Close cancelled (sys_security_config sys) (sys_Security sys);
  Some (mkSystem _ p (sys_security_config sys) (sys_Ops sys)).

(** ** Kafka health *)

Section kafka_health.
Context {W : Type} (dial : string -> ST W error unit).

(** The brokers in turn; the last error is kept. *)
Fixpoint try_brokers (brokers : list string) (lastErr : option error) (w : W) : res unit * W :=
  match brokers with
  | [] => (Err (match lastErr with Some e => EWrap "no kafka brokers reachable" e | None => EOther "no kafka brokers configured" end), w)
  | b :: rest =>
      let b := TrimSpace b in
      if str_empty b then try_brokers rest lastErr w
      else match dial b w with
           | (Err e, w') => try_brokers rest (Some e) w'
           | (Ok _, w') => (Ok tt, w')
           end
  end.

Definition HealthChecker_Check (brokers : string) (w : W) : res unit * W :=
  if str_empty brokers then (Err (EOther "kafka brokers not configured"), w) else try_brokers (split_at comma brokers) None w.

(** With a network whose answers do not change, the check succeeds exactly when one of the
    brokers can be reached. *)
Lemma kafka_healthy_iff brokers w : (forall b v, (dial b v).1 = (dial b w).1) ->
  is_Ok (HealthChecker_Check brokers w).1 = true <->
  exists b, b ∈ split_at comma brokers /\ TrimSpace b <> "" /\ is_Ok (dial (TrimSpace b) w).1 = true.
Proof.
  intros Hd. unfold HealthChecker_Check. destruct (str_empty brokers) eqn:E.
  { unfold str_empty in E. apply bool_decide_eq_true in E. subst brokers. split; [done|]. intros (b & Hb & Hne & _).
    simpl in Hb. apply list_elem_of_singleton in Hb. by subst b. }
  assert (forall v last, is_Ok (try_brokers (split_at comma brokers) last v).1 = true <->
    exists b, b ∈ split_at comma brokers /\ TrimSpace b <> "" /\ is_Ok (dial (TrimSpace b) w).1 = true) as Hx; [|apply Hx].
  induction (split_at comma brokers) as [|b rest IH]; intros v last; simpl.
  { split; [done|]. intros (b & Hb & _). by apply elem_of_nil in Hb. }
  unfold str_empty. case_bool_decide as Eb.
  { rewrite IH. split; intros (x & Hx & Hn & Ho); exists x; (split; [|done]); [by right|]. apply elem_of_cons in Hx as [-> |Hx]; [done|done]. }
  specialize (Hd (TrimSpace b) v). destruct (dial (TrimSpace b) v) as [[[]|e] v'] eqn:Ed; simpl in *.
  - split; [intros _; exists b|done]. split; [by left|]. by rewrite <- Hd.
  - rewrite IH. split; intros (x & Hx & Hn & Ho); exists x; (split; [|done]); [by right|].
    apply elem_of_cons in Hx as [-> |Hx]; [by rewrite <- Hd in Ho|done].
Qed.
End kafka_health.

(** ** The outbox worker and the shutdown *)

Record OutboxWorker := mkWorker { ow_topic : string; ow_batchSize : Z; ow_pollInterval : duration }.
Inductive WorkerOption := WithTopic (topic : string) | WithBatchSize (size : Z) | WithPollInterval (interval : duration).

Definition apply_worker_option (w : OutboxWorker) (o : WorkerOption) : OutboxWorker :=
  match o with
  | WithTopic t => mkWorker t (ow_batchSize w) (ow_pollInterval w)
  | WithBatchSize n => mkWorker (ow_topic w) n (ow_pollInterval w)
  | WithPollInterval d => mkWorker (ow_topic w) (ow_batchSize w) d
  end.
Definition Worker_New (opts : list WorkerOption) : OutboxWorker :=
  foldl apply_worker_option (mkWorker "credo.audit.events" 100 (100 * Millisecond)) opts.

Section worker.
Context {DW PW : Type} {PG : PgTypes} (db : DW -> outcome * DW) (client : ProducerClient PW) (uuid_String : uuid -> string).
Abbreviation World := (DW * @Producer PW)%type.

Definition db_on (w : World) : outcome * World := let '(r, d) := db w.1 in (r, (d, w.2)).
Definition produce_on (m : Message) : ST World error unit := fun w => let '(r, p) := Producer_Produce client m w.2 in (r, (w.1, p)).

Abbreviation poll_on := (poll db_on produce_on uuid_String).
Abbreviation drain_on := (drain db_on produce_on uuid_String).
Implicit Types (s : @ObState World).

(** The loop: a poll per tick and, when the context ends, the drain.  [time.NewTicker] panics
    on an interval that is not positive. *)
Definition Worker_run (wk : OutboxWorker) (ticks : list time) (rounds : nat) (stop : time) s : option (@ObState World) :=
  if ow_pollInterval wk <=? 0 then None
  else Some (drain_on rounds (ow_topic wk) (ow_batchSize wk) stop
              (foldl (fun s now => (poll_on (ow_topic wk) (ow_batchSize wk) now s).2) s ticks)).2.

(** [Stop]: [drained] says whether the loop ends before the context of the caller. *)
Definition Worker_Stop (drained : bool) (ctxErr : error) : res unit := if drained then Ok tt else Err ctxErr.

Definition close_producer s : @ObState World :=
  mkOb (ob_rows s) (ob_events s) (ob_uuids s) (ob_sent s)
    ((ob_world s).1, (Producer_Close client (ob_world s).2).2) (ob_inserted s).

Section healthy.
(** From now on the database and the brokers work. *)
Context (good_db : DW -> Prop) (good_client : PW -> Prop).
Hypothesis db_ok : forall w, good_db w -> (db w).1 = Done /\ good_db (db w).2.
Hypothesis client_ok : forall r w, good_client w -> (pc_ProduceSync client r w).1 = Ok tt /\ good_client (pc_ProduceSync client r w).2.

Definition good_world (w : World) : Prop := good_db w.1 /\ good_client (pr_world w.2) /\ pr_closed w.2 = false.

(** An open producer accepts every message and stays open. *)
Lemma open_produces m w : good_world w -> (produce_on m w).1 = Ok tt /\ good_world (produce_on m w).2.
Proof.
  intros (Hd & Hc & Ho). unfold produce_on, Producer_Produce, on_client, good_world. rewrite Ho.
  destruct (client_ok (message_record m) (pr_world w.2) Hc) as [Hr Hc'].
  destruct (pc_ProduceSync client _ _) as [r p]. simpl in *. by subst r.
Qed.

Lemma db_on_ok w : good_world w -> (db_on w).1 = Done /\ good_world (db_on w).2.
Proof.
  intros (Hd & Hc & Ho). unfold db_on, good_world. destruct (db_ok w.1 Hd) as [Hr Hd']. destruct (db w.1) as [r d]. simpl in *. by subst.
Qed.
End healthy.

Context (newID : nat -> uuid) (uuid_Parse : string -> option uuid) (format_time : time -> string) (parse_time : string -> option time).
Context (json_Marshal : Payload -> res string) (json_Unmarshal : string -> res Payload).
Abbreviation append_on := (Store_Append db_on newID uuid_String format_time json_Marshal).
Abbreviation step_on := (ob_step db_on produce_on newID uuid_String uuid_Parse format_time parse_time json_Marshal json_Unmarshal).

(** [waitForShutdown]: the worker drains the outbox first, then the servers end the requests
    still in flight, which append the events [late], then the producer is closed. *)
Definition shutdown (wk : OutboxWorker) (rounds : nat) (now : time) (late : list (time * AuditEvent)) s : @ObState World :=
  close_producer (foldl (fun s te => (append_on te.1 te.2 s).2) (drain_on rounds (ow_topic wk) (ow_batchSize wk) now s).2 late).

(** Writing an event sends nothing and does not touch the producer. *)
Lemma append_on_keeps now e s :
  ob_sent (append_on now e s).2 = ob_sent s /\ (ob_world (append_on now e s).2).2 = (ob_world s).2.
Proof.
  destruct (Store_Append_frame db_on newID uuid_String format_time json_Marshal now e s) as (_ & -> & Hw). split; [done|].
  destruct Hw as [-> | ->]; [done|]. unfold db_on. by destruct (db (ob_world s).1).
Qed.

Lemma late_appends late s : outbox_inv uuid_String s ->
  let s' := foldl (fun s te => (append_on te.1 te.2 s).2) s late in
  outbox_inv uuid_String s' /\ ob_sent s' = ob_sent s /\ (ob_world s').2 = (ob_world s).2.
Proof.
  revert s. induction late as [|[t e] late IH]; intros s Hi; simpl; [done|].
  destruct (append_on_keeps t e s) as [Hs Hw]. destruct (append_on t e s) as [r s1] eqn:E. simpl in *.
  destruct (IH s1) as (?&?&?); [by eapply Store_Append_inv|]. split_and!; [done|congruence|congruence].
Qed.

End worker.

(** An interval of zero is accepted by the configuration and stops the worker, and the server
    with it, when it starts. *)
Lemma zero_interval_stops_server {DW PW} (db : DW -> outcome * DW) (client : ProducerClient PW) us pd at_ env cfg ticks rounds stop s :
  FromEnv pd at_ env = Ok cfg -> Getenv env "OUTBOX_POLL_INTERVAL" = "0s" -> pd "0s" = Some 0 ->
  Worker_run db client us (Worker_New [WithTopic (kfc_AuditTopic (sc_Kafka cfg)); WithBatchSize (obc_BatchSize (sc_Outbox cfg));
                                       WithPollInterval (obc_PollInterval (sc_Outbox cfg))]) ticks rounds stop s = None.
Proof.
  intros Hc He Hp. assert (obc_PollInterval (sc_Outbox cfg) = 0) as E.
  { assert (sc_Outbox cfg = loadOutboxConfig pd at_ env) as ->.
    { unfold FromEnv in Hc. destruct (bool_decide _); [|by simplify_eq]. unfold mbind, result_bind in Hc.
      destruct (validateDemoMode env); by simplify_eq. }
    simpl. unfold parseDuration. by rewrite He, Hp. }
  unfold Worker_run, Worker_New. simpl. by rewrite E.
Qed.

Module PlatformExample.
Definition client : ProducerClient unit :=
  mkPClient (fun _ w => (Ok tt, w)) (fun _ w => w) (fun _ w => (Ok tt, w)) (fun w => (Ok tt, w)) (fun w => w) (fun _ => 0).
Definition worker : OutboxWorker := Worker_New [WithBatchSize 2].
Abbreviation step := (ob_step (db_on (PW := unit) OutboxExample.db) (produce_on client) OutboxExample.newID OutboxExample.show OutboxExample.parse
                        (fun _ => "t") (fun _ => Some 9) (fun _ => Ok "{}") OutboxExample.unmarshal).

End PlatformExample.
