(* ===== verification/Privacy.v ===== *)
(** * Anonymised addresses
    [pkg/platform/privacy/anonymize.go]

    [net.ParseIP] is written out after the standard library's parser of addresses: dotted
    IPv4, and IPv6 with an ellipsis and a trailing IPv4 part.  An address is the list of its
    sixteen bytes. *)
From S2P Require Import Prelude Config.
Open Scope Z_scope.

Definition colon : Ascii.ascii := Ascii.ascii_of_nat 58.

(** ** Parsing *)

Definition digit (c : Ascii.ascii) : option Z :=
  let n := Z.of_N (Ascii.N_of_ascii c) in if (48 <=? n) && (n <=? 57) then Some (n - 48) else None.
Definition hexdigit (c : Ascii.ascii) : option Z :=
  let n := Z.of_N (Ascii.N_of_ascii c) in
  match digit c with
  | Some d => Some d
  | None => if (97 <=? n) && (n <=? 102) then Some (n - 87) else if (65 <=? n) && (n <=? 70) then Some (n - 55) else None
  end.

(** The digits of an octet: no leading zero, at most 255. *)
Fixpoint octet (s : string) (digLen : nat) (val : Z) : option Z :=
  match s with
  | EmptyString => match digLen with O => None | _ => Some val end
  | String c s' =>
      d ← digit c;
      if Nat.eqb digLen 1 && (val =? 0) then None
      else let val := val * 10 + d in if 255 <? val then None else octet s' (S digLen) val
  end.

Definition parseIPv4Fields (s : string) : option (list Z) :=
  match split_at dot s with
  | [a; b; c; d] => a ← octet a 0 0; b ← octet b 0 0; c ← octet c 0 0; d ← octet d 0 0; Some [a; b; c; d]
  | _ => None
  end.

(** A group of hexadecimal digits: how many, their value and what follows. *)
Fixpoint hex_group (s : string) (off : nat) (acc : Z) : option (nat * Z * string) :=
  match s with
  | EmptyString => Some (off, acc, s)
  | String c s' =>
      match hexdigit c with
      | None => Some (off, acc, s)
      | Some d => if Nat.ltb 3 off then None else hex_group s' (S off) (acc * 16 + d)
      end
  end.

(** The loop over the groups.  Each adds two bytes, so eight rounds reach the sixteenth. *)
Fixpoint v6_groups (rounds : nat) (ip : list Z) (ellipsis : option nat) (s : string) : option (list Z * option nat * string) :=
  match rounds with
  | O => Some (ip, ellipsis, s)
  | S rounds' =>
      '(off, acc, rest) ← hex_group s 0 0;
      if Nat.eqb off 0 then None
      else
        let ip' := ip ++ [acc / 256; acc mod 256] in
        match rest with
        | EmptyString => Some (ip', ellipsis, "")
        | String c r =>
            if Ascii.eqb c dot then
              if bool_decide (ellipsis = None) && negb (Nat.eqb (length ip) 12) then None
              else if Nat.ltb 16 (length ip + 4) then None
              else fields ← parseIPv4Fields s; Some (ip ++ fields, ellipsis, "")
            else if Ascii.eqb c colon then
              match r with
              | EmptyString => None
              | String c2 r2 =>
                  if Ascii.eqb c2 colon then
                    match ellipsis with
                    | Some _ => None
                    | None => if str_empty r2 then Some (ip', Some (length ip'), "") else v6_groups rounds' ip' (Some (length ip')) r2
                    end
                  else v6_groups rounds' ip' ellipsis r
              end
            else None
        end
  end.

(** The ellipsis stands for at least one field of zeros. *)
Definition expand (r : list Z * option nat * string) : option (list Z) :=
  let '(ip, ellipsis, s) := r in
  if negb (str_empty s) then None
  else if Nat.ltb (length ip) 16 then e ← ellipsis; Some (take e ip ++ replicate (16 - length ip) 0 ++ drop e ip)
  else match ellipsis with Some _ => None | None => Some ip end.

Definition parseIPv6 (s : string) : option (list Z) :=
  match s with
  | String c1 (String c2 s') =>
      if Ascii.eqb c1 colon && Ascii.eqb c2 colon then
        if str_empty s' then Some (replicate 16 0) else r ← v6_groups 8 [] (Some O) s'; expand r
      else r ← v6_groups 8 [] None s; expand r
  | _ => r ← v6_groups 8 [] None s; expand r
  end.

Definition v4mapped (fields : list Z) : list Z := replicate 10 0 ++ [255; 255] ++ fields.

(** The first separator decides the family. *)
Fixpoint first_separator (s : string) : option bool :=
  match s with
  | EmptyString => None
  | String c s' => if Ascii.eqb c dot then Some true else if Ascii.eqb c colon then Some false else first_separator s'
  end.

Definition ParseIP (s : string) : option (list Z) :=
  v4 ← first_separator s; if v4 : bool then v4mapped <$> parseIPv4Fields s else parseIPv6 s.

Definition To4 (ip : list Z) : option (list Z) :=
  if bool_decide (take 12 ip = replicate 10 0 ++ [255; 255]) then Some (drop 12 ip) else None.

(** ** Printing *)

Definition hexchar (n : Z) : Ascii.ascii := Ascii.ascii_of_N (Z.to_N (if n <? 10 then n + 48 else n + 87)).
(** [%02x] *)
Definition hex2 (n : Z) : string := String (hexchar (n / 16)) (String (hexchar (n mod 16)) "").

Definition print4 (a b c : Z) : string := pretty a +:+ "." +:+ pretty b +:+ "." +:+ pretty c +:+ ".0".
Definition print6 (a b c d e f : Z) : string :=
  hex2 a +:+ hex2 b +:+ ":" +:+ hex2 c +:+ hex2 d +:+ ":" +:+ hex2 e +:+ hex2 f +:+ "::".

Definition AnonymizeIP (ip : string) : string :=
  if str_empty ip || bool_decide (ip = "unknown") then "unknown"
  else
    match ParseIP ip with
    | None => "invalid"
    | Some parsed =>
        match To4 parsed with
        | Some (a :: b :: c :: _) => print4 a b c
        | _ => match parsed with a :: b :: c :: d :: e :: f :: _ => print6 a b c d e f | _ => "invalid" end
        end
    end.

(** What is left of an address: the first three octets, or the first six bytes. *)
Definition mask (ip : list Z) : list Z :=
  match To4 ip with Some v4 => v4mapped (take 3 v4 ++ [0]) | None => take 6 ip ++ replicate 10 0 end.

(** ** What the parser accepts *)

Definition is_byte (x : Z) : Prop := 0 <= x < 256.
Definition well_formed (ip : list Z) : Prop := length ip = 16%nat /\ Forall is_byte ip.

Lemma digit_range c d : digit c = Some d -> 0 <= d <= 9.
Proof. unfold digit. destruct ((48 <=? _) && _) eqn:E; [|done]. intros [= <-]. apply andb_prop in E as [E1%Z.leb_le E2%Z.leb_le]. lia. Qed.

Lemma hexdigit_range c d : hexdigit c = Some d -> 0 <= d <= 15.
Proof.
  unfold hexdigit. destruct (digit c) as [x|] eqn:Ed; [intros [= <-]; apply digit_range in Ed; lia|].
  destruct ((97 <=? _) && _) eqn:E; [|destruct ((65 <=? _) && _) eqn:E2; [clear E; rename E2 into E|done]];
    intros [= <-]; apply andb_prop in E as [E1%Z.leb_le E2%Z.leb_le]; lia.
Qed.

Lemma octet_range s n val x : 0 <= val < 256 -> octet s n val = Some x -> is_byte x.
Proof.
  revert n val. induction s as [|c s IH]; intros n val Hv; simpl; [destruct n; [done|by intros [= <-]]|].
  destruct (digit c) as [d|] eqn:Ed; [|done]. simpl. destruct (Nat.eqb n 1 && _); [done|].
  destruct (Z.ltb_spec 255 (val * 10 + d)) as [|Hle]; [done|]. apply digit_range in Ed. apply IH. lia.
Qed.

Lemma parseIPv4Fields_wf s l : parseIPv4Fields s = Some l -> length l = 4%nat /\ Forall is_byte l.
Proof.
  unfold parseIPv4Fields. destruct (split_at dot s) as [|a [|b [|c [|d [|]]]]]; try done.
  destruct (octet a 0 0) eqn:Ea; [|done]. simpl. destruct (octet b 0 0) eqn:Eb; [|done]. simpl.
  destruct (octet c 0 0) eqn:Ec; [|done]. simpl. destruct (octet d 0 0) eqn:Ed; [|done]. intros [= <-].
  split; [done|]. repeat constructor; (eapply octet_range; [|eassumption]; lia).
Qed.

Lemma hex_group_range s off acc off' acc' rest : (off <= 4)%nat -> 0 <= acc < 16 ^ Z.of_nat off ->
  hex_group s off acc = Some (off', acc', rest) -> (off' <= 4)%nat /\ 0 <= acc' < 16 ^ Z.of_nat off'.
Proof.
  revert off acc. induction s as [|c s IH]; intros off acc Ho Ha; simpl; [by intros [= <- <- _]|].
  destruct (hexdigit c) as [d|] eqn:Ed; [|by intros [= <- <- _]]. destruct off as [|[|[|[|off]]]]; simpl; try done; apply hexdigit_range in Ed;
    apply IH; try lia; cbn in *; lia.
Qed.

Lemma group_bytes s off acc rest : hex_group s 0 0 = Some (off, acc, rest) -> is_byte (acc / 256) /\ is_byte (acc mod 256).
Proof.
  intros H. apply hex_group_range in H as [Ho Ha]; [|lia|cbn; lia].
  assert (16 ^ Z.of_nat off <= 16 ^ 4) by (apply Z.pow_le_mono_r; lia). unfold is_byte.
  pose proof (Z.mod_pos_bound acc 256). split; [|lia]. split; [apply Z.div_pos; lia|apply Z.div_lt_upper_bound; lia].
Qed.

(** Between the groups: the bytes so far, and an ellipsis among them. *)
Definition groups_ok (ip : list Z) (ellipsis : option nat) : Prop :=
  (length ip <= 16)%nat /\ Forall is_byte ip /\ forall e, ellipsis = Some e -> (e <= length ip)%nat.

Lemma v6_groups_ok rounds ip ellipsis s ip' ellipsis' s' : (length ip + 2 * rounds = 16)%nat -> groups_ok ip ellipsis ->
  v6_groups rounds ip ellipsis s = Some (ip', ellipsis', s') -> groups_ok ip' ellipsis'.
Proof.
  revert ip ellipsis s. induction rounds as [|n IH]; intros ip ellipsis s Hl (H16 & Hb & He); simpl; [by intros [= <- <- _]|].
  destruct (hex_group s 0 0) as [[[off acc] rest]|] eqn:Eg; [|done]. simpl. destruct (Nat.eqb off 0); [done|].
  apply group_bytes in Eg as [Hhi Hlo]. set (ip1 := ip ++ [acc / 256; acc mod 256]).
  assert (length ip1 + 2 * n = 16)%nat as Hl1 by (unfold ip1; rewrite length_app; simpl; lia).
  assert (Forall is_byte ip1) as Hb1 by (apply Forall_app; split; [done|]; apply Forall_cons; split; [done|]; by apply Forall_singleton).
  assert (groups_ok ip1 ellipsis) as Hok by (split_and!; [lia|done|intros e Hel; specialize (He e Hel); unfold ip1; rewrite length_app; lia]).
  assert (groups_ok ip1 (Some (length ip1))) as Hoke by (split_and!; [lia|done|by intros e [= <-]]).
  destruct rest as [|c r]; [by intros [= <- <- _]|]. destruct (Ascii.eqb c dot).
  { destruct (_ && negb _); [done|]. destruct (Nat.ltb_spec 16 (length ip + 4)); [done|].
    destruct (parseIPv4Fields s) as [f|] eqn:Ef; [|done]. simpl. intros [= <- <- _]. apply parseIPv4Fields_wf in Ef as [Hf1 Hf2].
    split_and!; [rewrite length_app; lia|by apply Forall_app|intros e Hel; specialize (He e Hel); rewrite length_app; lia]. }
  destruct (Ascii.eqb c colon); [|done]. destruct r as [|c2 r2]; [done|]. destruct (Ascii.eqb c2 colon); [|by apply IH].
  destruct ellipsis; [done|]. destruct (str_empty r2); [by intros [= <- <- _]|by apply IH].
Qed.

Lemma expand_wf ip ellipsis s l : groups_ok ip ellipsis -> expand (ip, ellipsis, s) = Some l -> well_formed l.
Proof.
  intros (H16 & Hb & He). unfold expand. destruct (negb _); [done|]. destruct (Nat.ltb_spec (length ip) 16) as [Hlt|Hge].
  - destruct ellipsis as [e|]; [|done]. specialize (He e eq_refl). simpl. intros [= <-]. split.
    + rewrite !length_app, length_take, length_replicate, length_drop. lia.
    + repeat (apply Forall_app; split); [by apply Forall_take|apply Forall_replicate; unfold is_byte; lia|by apply Forall_drop].
  - destruct ellipsis; [done|]. intros [= <-]. split; [lia|done].
Qed.

Lemma ParseIP_wf s ip : ParseIP s = Some ip -> well_formed ip.
Proof.
  unfold ParseIP. destruct (first_separator s) as [[|]|]; [| |done]; simpl.
  - destruct (parseIPv4Fields s) as [f|] eqn:Ef; [|done]. intros [= <-]. apply parseIPv4Fields_wf in Ef as [Hl Hb].
    split; [simpl; by rewrite Hl|]. unfold v4mapped. repeat (apply Forall_app; split); [apply Forall_replicate; unfold is_byte; lia| |done].
    repeat (apply Forall_cons; split); by unfold is_byte.
  - assert (forall el s0 l, (forall e, el = Some e -> (e <= 0)%nat) -> (r ← v6_groups 8 [] el s0; expand r) = Some l -> well_formed l) as Hg.
    { intros el s0 l Hel. destruct (v6_groups 8 [] el s0) as [[[ip0 el0] s1]|] eqn:E; [|done]. simpl.
      apply expand_wf. eapply v6_groups_ok; [|split_and!|exact E]; simpl; [lia|lia|constructor|done]. }
    unfold parseIPv6. destruct s as [|c1 [|c2 s']]; [by apply Hg..|]. destruct (Ascii.eqb c1 colon && _); [|by apply Hg].
    destruct (str_empty s'); [intros [= <-]; split; [done|]; by apply (Forall_replicate is_byte 16 0)|]. apply Hg. by intros e [= <-].
Qed.

(** ** What is printed parses *)

Lemma octets_print : forallb (fun n => bool_decide (octet (pretty n) 0 0 = Some n) && bool_decide (first_separator (pretty n) = None)) (seqZ 0 256) = true.
Proof. vm_compute. reflexivity. Qed.

Lemma octet_prints n : is_byte n -> octet (pretty n) 0 0 = Some n /\ first_separator (pretty n) = None.
Proof.
  intros Hn. pose proof octets_print as Ha. rewrite forallb_forall in Ha. specialize (Ha n). rewrite <- list_elem_of_In in Ha.
  specialize (Ha ltac:(apply elem_of_seqZ; unfold is_byte in Hn; lia)). by apply andb_prop in Ha as [E1%bool_decide_eq_true E2%bool_decide_eq_true].
Qed.

Lemma hexdigits_print : forallb (fun n => bool_decide (hexdigit (hexchar n) = Some n) && negb (Ascii.eqb (hexchar n) dot) && negb (Ascii.eqb (hexchar n) colon)) (seqZ 0 16) = true.
Proof. vm_compute. reflexivity. Qed.

Lemma hexdigit_prints n : 0 <= n < 16 -> hexdigit (hexchar n) = Some n /\ Ascii.eqb (hexchar n) dot = false /\ Ascii.eqb (hexchar n) colon = false.
Proof.
  intros Hn. pose proof hexdigits_print as Ha. rewrite forallb_forall in Ha. specialize (Ha n). rewrite <- list_elem_of_In in Ha.
  specialize (Ha ltac:(apply elem_of_seqZ; lia)). apply andb_prop in Ha as [[E1%bool_decide_eq_true E2]%andb_prop E3].
  by apply negb_true_iff in E2, E3.
Qed.

Lemma split_at_dot a s : first_separator a = None -> split_at dot (a +:+ String dot s) = a :: split_at dot s.
Proof.
  induction a as [|c a IH]; [done|]. change (String c a +:+ String dot s) with (String c (a +:+ String dot s)). cbn [first_separator split_at].
  destruct (Ascii.eqb c dot); [done|]. destruct (Ascii.eqb c colon); [done|]. intros Ha. by rewrite (IH Ha).
Qed.

Lemma first_separator_app a s : first_separator a = None -> first_separator (a +:+ s) = first_separator s.
Proof.
  induction a as [|c a IH]; [done|]. change (String c a +:+ s) with (String c (a +:+ s)). cbn [first_separator]. destruct (Ascii.eqb c dot); [done|].
  destruct (Ascii.eqb c colon); [done|]. apply IH.
Qed.

Lemma print4_parses a b c : is_byte a -> is_byte b -> is_byte c -> ParseIP (print4 a b c) = Some (v4mapped [a; b; c; 0]).
Proof.
  intros [Ha1 Ha2]%octet_prints [Hb1 Hb2]%octet_prints [Hc1 Hc2]%octet_prints. unfold ParseIP.
  change (print4 a b c) with (pretty a +:+ String dot (pretty b +:+ String dot (pretty c +:+ String dot "0"))).
  rewrite (first_separator_app _ _ Ha2). change (first_separator _) with (Some true). simpl. unfold parseIPv4Fields.
  rewrite (split_at_dot _ _ Ha2), (split_at_dot _ _ Hb2), (split_at_dot _ _ Hc2). simpl. by rewrite Ha1, Hb1, Hc1.
Qed.

Lemma hex2_group n s off acc : is_byte n -> (off <= 2)%nat -> hex_group (hex2 n +:+ s) off acc = hex_group s (S (S off)) (acc * 256 + n).
Proof.
  unfold is_byte. intros Hn Ho. unfold hex2. change (String ?c1 (String ?c2 (EmptyString)) +:+ s) with (String c1 (String c2 s)). cbn [hex_group].
  destruct (hexdigit_prints (n / 16)) as [-> _]; [split; [apply Z.div_pos; lia|apply Z.div_lt_upper_bound; lia]|].
  destruct (hexdigit_prints (n mod 16)) as [-> _]; [apply Z.mod_pos_bound; lia|].
  destruct (Nat.ltb_spec 3 off); [lia|]. destruct (Nat.ltb_spec 3 (S off)); [lia|]. f_equal.
  pose proof (Z.div_mod n 16). lia.
Qed.

Lemma hex4_group a b s : is_byte a -> is_byte b ->
  hex_group (hex2 a +:+ hex2 b +:+ String colon s) 0 0 = Some (4%nat, a * 256 + b, String colon s) /\
  (a * 256 + b) / 256 = a /\ (a * 256 + b) mod 256 = b.
Proof.
  intros Ha Hb. rewrite !hex2_group by (done || lia). split; [done|]. unfold is_byte in *.
  split; [rewrite Z.div_add_l by lia; rewrite Z.div_small by lia; lia|rewrite Z.add_comm, Z.mod_add by lia; by apply Z.mod_small].
Qed.

Lemma hex2_separator n s : is_byte n -> first_separator (hex2 n +:+ s) = first_separator s.
Proof.
  unfold is_byte. intros Hn. unfold hex2. change (String ?c1 (String ?c2 (EmptyString)) +:+ s) with (String c1 (String c2 s)). cbn [first_separator].
  destruct (hexdigit_prints (n / 16)) as (_ & -> & ->); [split; [apply Z.div_pos; lia|apply Z.div_lt_upper_bound; lia]|].
  by destruct (hexdigit_prints (n mod 16)) as (_ & -> & ->); [apply Z.mod_pos_bound; lia|].
Qed.

Lemma group_next n ip a b c s : is_byte a -> is_byte b -> is_byte c ->
  v6_groups (S n) ip None (hex2 a +:+ hex2 b +:+ String colon (hex2 c +:+ s)) = v6_groups n (ip ++ [a; b]) None (hex2 c +:+ s).
Proof.
  intros Ha Hb Hc. destruct (hex4_group a b (hex2 c +:+ s) Ha Hb) as (E & Eq & Em). cbn [v6_groups]. rewrite E. simpl.
  rewrite Eq, Em. unfold is_byte in Hc. unfold hex2. change (String ?c1 (String ?c2 (EmptyString)) +:+ s) with (String c1 (String c2 s)).
  by destruct (hexdigit_prints (c / 16)) as (_ & _ & ->); [split; [apply Z.div_pos; lia|apply Z.div_lt_upper_bound; lia]|].
Qed.

Lemma group_last n ip a b : is_byte a -> is_byte b ->
  v6_groups (S n) ip None (hex2 a +:+ hex2 b +:+ "::") = Some (ip ++ [a; b], Some (length (ip ++ [a; b])), "").
Proof.
  intros Ha Hb. destruct (hex4_group a b ":" Ha Hb) as (E & Eq & Em). cbn [v6_groups].
  change ("::") with (String colon ":"). rewrite E. simpl. by rewrite Eq, Em.
Qed.

Lemma print6_parses a b c d e f : Forall is_byte [a; b; c; d; e; f] ->
  ParseIP (print6 a b c d e f) = Some ([a; b; c; d; e; f] ++ replicate 10 0).
Proof.
  rewrite !Forall_cons. intros (Ha & Hb & Hc & Hd & He & Hf & _). unfold ParseIP.
  change (print6 a b c d e f) with
    (hex2 a +:+ hex2 b +:+ String colon (hex2 c +:+ (hex2 d +:+ String colon (hex2 e +:+ (hex2 f +:+ "::"))))).
  rewrite (hex2_separator a), (hex2_separator b) by done. change (first_separator (String colon ?s)) with (Some false). cbn [mbind option_bind].
  assert (forall s, parseIPv6 (hex2 a +:+ s) = (r ← v6_groups 8 [] None (hex2 a +:+ s); expand r)) as ->.
  { intros s. unfold hex2, is_byte in *. change (String ?c1 (String ?c2 (EmptyString)) +:+ s) with (String c1 (String c2 s)). cbn [parseIPv6].
    by destruct (hexdigit_prints (a / 16)) as (_ & _ & ->); [split; [apply Z.div_pos; lia|apply Z.div_lt_upper_bound; lia]|]. }
  rewrite group_next, group_next, group_last by done. reflexivity.
Qed.

Lemma To4_wf ip l : well_formed ip -> To4 ip = Some l -> length l = 4%nat /\ Forall is_byte l.
Proof. intros [Hl Hb]. unfold To4. destruct (bool_decide _); [|done]. intros [= <-]. split; [rewrite length_drop; lia|by apply Forall_drop]. Qed.

Lemma anonymized_parses ip parsed : ParseIP ip = Some parsed -> ParseIP (AnonymizeIP ip) = Some (mask parsed).
Proof.
  intros Hp. pose proof (ParseIP_wf _ _ Hp) as Hwf. unfold AnonymizeIP.
  destruct (str_empty ip || bool_decide (ip = "unknown")) eqn:E.
  { apply orb_prop in E as [E|E]; unfold str_empty in E; apply bool_decide_eq_true in E; subst; vm_compute in Hp; discriminate. }
  rewrite Hp. unfold mask. destruct (To4 parsed) as [l|] eqn:E4.
  - apply (To4_wf _ _ Hwf) in E4 as [Hl Hb]. destruct l as [|a [|b [|c [|d [|]]]]]; try done.
    rewrite !Forall_cons in Hb. destruct Hb as (Ha & Hb & Hc & _). by rewrite print4_parses.
  - destruct Hwf as [Hl Hb]. do 6 (destruct parsed as [|? parsed]; [done|]). rewrite !Forall_cons in Hb.
    rewrite print6_parses; [done|]. rewrite !Forall_cons. naive_solver.
Qed.

Lemma anonymized_of_mask ip parsed : ParseIP ip = Some parsed ->
  AnonymizeIP ip = match To4 (mask parsed) with
                   | Some (a :: b :: c :: _) => print4 a b c
                   | _ => match mask parsed with a :: b :: c :: d :: e :: f :: _ => print6 a b c d e f | _ => "invalid" end
                   end.
Proof.
  intros Hp. pose proof (ParseIP_wf _ _ Hp) as Hwf. unfold AnonymizeIP.
  destruct (str_empty ip || bool_decide (ip = "unknown")) eqn:E.
  { apply orb_prop in E as [E|E]; unfold str_empty in E; apply bool_decide_eq_true in E; subst; vm_compute in Hp; discriminate. }
  rewrite Hp. unfold mask. destruct (To4 parsed) as [l|] eqn:E4.
  - apply (To4_wf _ _ Hwf) in E4 as [Hl Hb]. destruct l as [|a [|b [|c [|d [|]]]]]; done.
  - destruct Hwf as [Hl Hb]. do 6 (destruct parsed as [|? parsed]; [done|]). simpl. unfold To4. rewrite bool_decide_eq_false_2; [done|].
    intros Hx. by apply (f_equal (fun l => l !! 10%nat)) in Hx.
Qed.

Lemma mask_idem parsed : well_formed parsed -> mask (mask parsed) = mask parsed.
Proof.
  intros Hwf. unfold mask at 2 3. destruct (To4 parsed) as [l|] eqn:E4.
  - apply (To4_wf _ _ Hwf) in E4 as [Hl _]. destruct l as [|a [|b [|c [|d [|]]]]]; done.
  - destruct Hwf as [Hl _]. do 6 (destruct parsed as [|? parsed]; [done|]). simpl. unfold mask, To4. rewrite bool_decide_eq_false_2; [done|].
    intros Hx. by apply (f_equal (fun l => l !! 10%nat)) in Hx.
Qed.

Lemma anonymize_exact_cases ip : AnonymizeIP ip = "unknown" \/ AnonymizeIP ip = "invalid" \/ exists parsed, ParseIP (AnonymizeIP ip) = Some parsed.
Proof.
  destruct (ParseIP ip) as [parsed|] eqn:Hp; [right; right; eexists; by apply anonymized_parses|].
  unfold AnonymizeIP. rewrite Hp. destruct (_ || _); auto.
Qed.

(** C35: The anonymised text of a valid address is the address with its host part set to zero:
    the last octet of IPv4 (mapped addresses included), the last eighty bits of IPv6.  So
    anonymising twice changes nothing, and two valid addresses get the same text exactly
    when they agree on the network part: nothing of the host remains and no two networks
    are confused.  The empty text and the text unknown give unknown, every other text that
    is not an address gives invalid. *)
Theorem anonymize_exact (ip : string) :
  match ParseIP ip with
  | Some parsed =>
      ParseIP (AnonymizeIP ip) = Some (mask parsed) /\
      forall ip2 parsed2, ParseIP ip2 = Some parsed2 -> (AnonymizeIP ip2 = AnonymizeIP ip <-> mask parsed2 = mask parsed)
  | None => AnonymizeIP ip = if decide (ip = "" \/ ip = "unknown") then "unknown" else "invalid"
  end /\
  AnonymizeIP (AnonymizeIP ip) = AnonymizeIP ip.
Proof.
  destruct (ParseIP ip) as [parsed|] eqn:Hp.
  - pose proof (anonymized_parses _ _ Hp) as Ha. split; [split; [done|]|].
    + intros ip2 p2 Hp2. split; [|intros Hm; by rewrite (anonymized_of_mask _ _ Hp), (anonymized_of_mask _ _ Hp2), Hm].
      intros E. pose proof (anonymized_parses _ _ Hp2) as Ha2. rewrite E, Ha in Ha2. by injection Ha2.
    + by rewrite (anonymized_of_mask _ _ Ha), (anonymized_of_mask _ _ Hp), mask_idem by by eapply ParseIP_wf.
  - assert (AnonymizeIP ip = if decide (ip = "" \/ ip = "unknown") then "unknown" else "invalid") as E.
    { unfold AnonymizeIP, str_empty. rewrite Hp. case_decide as Hd; repeat case_bool_decide; naive_solver. }
    split; [done|]. rewrite E. by case_decide.
Qed.

(** The groups of an IPv6 prefix are printed with four digits. *)
Lemma anonymized_v6_is_padded : AnonymizeIP "2001:db8:85a3::8a2e:370:7334" = "2001:0db8:85a3::".
Proof. vm_compute. reflexivity. Qed.
