(* ===== verification/Observability.v ===== *)
(** * The audit events of the services, attribute by attribute
    [internal/auth/service/observability.go], [internal/ratelimit/observability/audit.go], the
    audit emitter of [internal/tenant/service/common.go], and the request log of
    [pkg/platform/middleware/request/request.go]

    The service models record which events an operation emits.  Here is what reaches the
    security publisher: every call site gives its attributes as a list of names and values, and
    the helpers look for the subject and the reason in that list.  [ExtractString] accepts a
    value whose dynamic type is [string]; a value of a named type, such as [id.TenantID] or
    [id.APIKeyID], is [AttrOther]. *)
From S2P Require Import Prelude Errors Ring AuthModels Http Config Platform AuditTrail Privacy.
Open Scope Z_scope.

Section emission.
Context {S : Type} (uuid_String : uuid -> string).

(** The publisher may be missing. *)
Abbreviation Publisher := (option (@SecurityPublisher S)).
Definition emit_security (now : time) (event : SecurityEvent) (p : Publisher) : Publisher := Security_Emit now event <$> p.

(** The request identifier is appended to the attributes of the call. *)
Definition enrichAttributes (requestID : string) (attributes : list attr) : list attr :=
  if str_empty requestID then attributes else attributes ++ [AttrString "request_id"; AttrString requestID].

(** The first of the names that has a value. *)
Fixpoint first_of (attributes : list attr) (keys : list string) : string :=
  match keys with
  | [] => ""
  | key :: keys' => let v := ExtractString attributes key in if str_empty v then first_of attributes keys' else v
  end.

(** ** The auth service *)

Definition auth_event (requestID event : string) (attributes : list attr) : SecurityEvent :=
  mkSecurity zero_time (ExtractString (enrichAttributes requestID attributes) "user_id") event "" "" requestID "" SeverityInfo.
Definition Service_logAudit (now : time) (requestID event : string) (attributes : list attr) : Publisher -> Publisher :=
  emit_security now (auth_event requestID event attributes).

Record authFailureAttrs := mkFailure {
  fa_requestID : string;
  fa_userIDStr : string;
  fa_userID : uuid;
  fa_email : string;
  fa_clientID : string;
}.

(** A user that does not parse is the nil user. *)
Definition parseAuthFailureAttrs (ParseUserID : string -> option uuid) (requestID : string) (attributes : list attr) : authFailureAttrs :=
  let userIDStr := ExtractString attributes "user_id" in
  mkFailure requestID userIDStr (default 0%N (ParseUserID userIDStr)) (ExtractString attributes "email") (ExtractString attributes "client_id").

Definition failure_event (reason : string) (parsed : authFailureAttrs) : SecurityEvent :=
  mkSecurity zero_time (fa_userIDStr parsed) "auth_failed" reason "" (fa_requestID parsed) "" SeverityWarning.
Definition emitAuthFailure (now : time) (reason : string) (parsed : authFailureAttrs) : Publisher -> Publisher :=
  emit_security now (failure_event reason parsed).

(** Logging and counting aside. *)
Definition Service_authFailure (ParseUserID : string -> option uuid) (now : time) (requestID reason : string) (attributes : list attr) :
    Publisher -> Publisher :=
  emitAuthFailure now reason (parseAuthFailureAttrs ParseUserID requestID attributes).

(** The call sites of the service. *)
Inductive AuthAudit :=
| AuUserCreated (userID : uuid) (clientID : string)
| AuSessionCreated (userID sessionID : uuid) (clientID : string)
| AuTokenIssued (userID sessionID : uuid)
| AuTokenRefreshed (userID sessionID : uuid)
| AuSessionRevoked (userID sessionID : uuid)
| AuTokenRevoked (userID sessionID : uuid)
| AuRevocationUnknown
| AuRevocationNoop (sessionID : uuid)
| AuUserInfoAccessed (userID sessionID : uuid)
| AuSessionsRevoked (userID : uuid) (email : string)
| AuUserDeleted (userID : uuid) (email : string).

Definition id_attr (key : string) (u : uuid) : list attr := [AttrString key; AttrString (uuid_String u)].
Definition str_attr (key value : string) : list attr := [AttrString key; AttrString value].
Definition other_attr (key : string) : list attr := [AttrString key; AttrOther].

(** The session's client is passed as an [id.ClientID]. *)
Definition auth_audit_call (a : AuthAudit) : string * list attr :=
  match a with
  | AuUserCreated u c => ("user_created", id_attr "user_id" u ++ str_attr "client_id" c)
  | AuSessionCreated u s c => ("session_created", id_attr "user_id" u ++ id_attr "session_id" s ++ str_attr "client_id" c)
  | AuTokenIssued u s => ("token_issued", id_attr "session_id" s ++ id_attr "user_id" u ++ other_attr "client_id")
  | AuTokenRefreshed u s => ("token_refreshed", id_attr "session_id" s ++ id_attr "user_id" u ++ other_attr "client_id")
  | AuSessionRevoked u s => ("session_revoked", id_attr "user_id" u ++ id_attr "session_id" s ++ other_attr "client_id" ++ str_attr "reason" "user_initiated")
  | AuTokenRevoked u s => ("token_revoked", id_attr "user_id" u ++ id_attr "session_id" s ++ other_attr "client_id" ++ str_attr "reason" "user_initiated")
  | AuRevocationUnknown => ("token_revocation_noop", str_attr "reason" "token_not_found")
  | AuRevocationNoop s => ("token_revocation_noop", id_attr "session_id" s ++ str_attr "reason" "already_revoked")
  | AuUserInfoAccessed u s => ("userinfo_accessed", id_attr "user_id" u ++ id_attr "session_id" s)
  | AuSessionsRevoked u e => ("sessions_revoked", id_attr "user_id" u ++ str_attr "email" e ++ str_attr "reason" "user_deleted")
  | AuUserDeleted u e => ("user_deleted", id_attr "user_id" u ++ str_attr "email" e ++ str_attr "reason" "user_deleted")
  end.

(** The user whose account the call concerns, where it names one. *)
Definition auth_audit_user (a : AuthAudit) : option uuid :=
  match a with
  | AuUserCreated u _ | AuSessionCreated u _ _ | AuTokenIssued u _ | AuTokenRefreshed u _ | AuSessionRevoked u _
  | AuTokenRevoked u _ | AuUserInfoAccessed u _ | AuSessionsRevoked u _ | AuUserDeleted u _ => Some u
  | AuRevocationUnknown | AuRevocationNoop _ => None
  end.

Definition emit_auth (now : time) (requestID : string) (a : AuthAudit) : Publisher -> Publisher :=
  Service_logAudit now requestID (auth_audit_call a).1 (auth_audit_call a).2.

(** ** The tenant service *)

Inductive TenantEvent :=
| TenantCreated (tenantID : uuid)
| TenantDeactivated (tenantID : uuid)
| TenantReactivated (tenantID : uuid)
| ClientCreated (tenantID clientID : uuid) (clientName : string)
| ClientDeactivated (tenantID clientID : uuid)
| ClientReactivated (tenantID clientID : uuid)
| ClientSecretRotated (tenantID clientID : uuid).

(** The identifiers are passed as [id.TenantID] and [id.ClientID]. *)
Definition tenant_call (e : TenantEvent) : string * list attr :=
  match e with
  | TenantCreated _ => ("tenant_created", other_attr "tenant_id")
  | TenantDeactivated _ => ("tenant_deactivated", other_attr "tenant_id")
  | TenantReactivated _ => ("tenant_reactivated", other_attr "tenant_id")
  | ClientCreated _ _ name => ("client_created", other_attr "tenant_id" ++ other_attr "client_id" ++ str_attr "client_name" name)
  | ClientDeactivated _ _ => ("client_deactivated", other_attr "client_id" ++ other_attr "tenant_id")
  | ClientReactivated _ _ => ("client_reactivated", other_attr "client_id" ++ other_attr "tenant_id")
  | ClientSecretRotated _ _ => ("client_secret_rotated", other_attr "tenant_id" ++ other_attr "client_id")
  end.

Definition resolveAuditSubject (attributes : list attr) (fallbackUserID : string) : string :=
  let s := first_of attributes ["tenant_id"; "client_id"] in if str_empty s then fallbackUserID else s.

Definition tenant_event (requestID event : string) (attributes : list attr) : SecurityEvent :=
  let attributes := enrichAttributes requestID attributes in
  mkSecurity zero_time (resolveAuditSubject attributes (ExtractString attributes "user_id")) event "" "" requestID "" SeverityInfo.

Definition emit_tenant (now : time) (requestID : string) (e : TenantEvent) (p : Publisher) : res unit * Publisher :=
  match p with
  | None => (Err (New CodeInternal "audit publisher is required"), p)
  | Some _ => (Ok tt, emit_security now (tenant_event requestID (tenant_call e).1 (tenant_call e).2) p)
  end.

(** ** The rate limiter *)

Definition extractSubject (attrList : list attr) : string := first_of attrList ["identifier"; "ip"; "user_id"; "client_id"; "api_key_id"].
Definition extractReason (attrList : list attr) : string := first_of attrList ["reason"; "bypass_type"].

Definition rate_event (requestID event : string) (attrList : list attr) : SecurityEvent :=
  let attrList := enrichAttributes requestID attrList in
  mkSecurity zero_time (extractSubject attrList) event (extractReason attrList) "" requestID "" SeverityWarning.
Definition LogAudit (now : time) (requestID event : string) (attrList : list attr) : Publisher -> Publisher :=
  emit_security now (rate_event requestID event attrList).

(** The call sites of the limiter.  The address of a request is given anonymised; the user of
    a request and the identifier of a lockout are strings; the identifier of an allowlist
    entry and an API key have types of their own. *)
Inductive RateAudit :=
| RaAllowlistAdded (identifier : string)
| RaAllowlistRemoved (identifier : string)
| RaReset (identifier : string)
| RaLockoutTriggered (identifier ip : string)
| RaLockoutCleared (identifier ip : string)
| RaQuotaExceeded (apiKeyID : string)
| RaQuotaReset (apiKeyID : string)
| RaTierUpdated (apiKeyID : string)
| RaGlobalThrottle
| RaClientExceeded (anonymizedClientID : string)
| RaConfigMissingIP (ip : string)
| RaConfigMissingUser (userID : string)
| RaBypass (logIdentifier keyPrefix : string)
| RaBypassBoth (ip userID bypassType : string)
| RaExceeded (keyPrefix logIdentifier : string).

Definition rate_audit_call (a : RateAudit) : string * list attr :=
  match a with
  | RaAllowlistAdded _ => ("rate_limit_allowlist_added", other_attr "identifier" ++ other_attr "type" ++ other_attr "expires_at" ++ other_attr "admin_user_id")
  | RaAllowlistRemoved i => ("rate_limit_allowlist_removed", str_attr "identifier" i ++ other_attr "type")
  | RaReset i => ("rate_limit_reset", str_attr "identifier" i ++ other_attr "type" ++ other_attr "class")
  | RaLockoutTriggered i ip => ("auth_lockout_triggered", str_attr "identifier" i ++ str_attr "ip" (AnonymizeIP ip) ++ other_attr "locked_until")
  | RaLockoutCleared i ip => ("auth_lockout_cleared", str_attr "identifier" i ++ str_attr "ip" (AnonymizeIP ip))
  | RaQuotaExceeded _ => ("api_key_quota_exceeded", other_attr "api_key_id" ++ other_attr "current_usage" ++ other_attr "monthly_limit")
  | RaQuotaReset _ => ("api_key_quota_reset", other_attr "api_key_id")
  | RaTierUpdated _ => ("api_key_tier_updated", other_attr "api_key_id" ++ other_attr "tier")
  | RaGlobalThrottle => ("global_throttle_triggered", other_attr "current_count" ++ other_attr "global_limit")
  | RaClientExceeded c => ("client_rate_limit_exceeded", str_attr "client_id" c ++ other_attr "client_type" ++ other_attr "endpoint" ++ other_attr "limit" ++ other_attr "window_seconds")
  | RaConfigMissingIP ip => ("rate_limit_config_missing", str_attr "identifier" (AnonymizeIP ip) ++ other_attr "endpoint_class" ++ other_attr "limit_type")
  | RaConfigMissingUser u => ("rate_limit_config_missing", str_attr "identifier" u ++ other_attr "endpoint_class" ++ other_attr "limit_type")
  | RaBypass i k => ("allowlist_bypass", str_attr "identifier" i ++ other_attr "endpoint_class" ++ str_attr "bypass_type" k)
  | RaBypassBoth ip u b => ("allowlist_bypass", str_attr "ip" (AnonymizeIP ip) ++ str_attr "user_id" u ++ other_attr "endpoint_class" ++ str_attr "bypass_type" b)
  | RaExceeded k i => (k +:+ "_rate_limit_exceeded", str_attr "identifier" i ++ other_attr "endpoint_class" ++ other_attr "limit" ++ other_attr "window_seconds")
  end.

Definition emit_rate (now : time) (requestID : string) (a : RateAudit) : Publisher -> Publisher :=
  LogAudit now requestID (rate_audit_call a).1 (rate_audit_call a).2.

(** ** What the events say *)

(** The request identifier that is added hides no attribute of the call. *)
Lemma enrich_keeps l requestID key : Nat.Even (length l) -> key <> "request_id" ->
  ExtractString (enrichAttributes requestID l) key = ExtractString l key.
Proof. intros. unfold enrichAttributes. destruct (str_empty requestID); [done|by apply extract_appended]. Qed.

Lemma first_of_enriched l requestID keys : Nat.Even (length l) -> "request_id" ∉ keys ->
  first_of (enrichAttributes requestID l) keys = first_of l keys.
Proof.
  intros Hl. induction keys as [|k keys IH]; [done|]. intros [Hk Hks]%not_elem_of_cons. simpl.
  rewrite enrich_keeps by done. by rewrite IH.
Qed.

Lemma AnonymizeIP_nonempty ip : str_empty (AnonymizeIP ip) = false.
Proof.
  destruct (anonymize_exact_cases ip) as [-> | [-> | (parsed & Hp)]]; [done..|].
  unfold str_empty. apply bool_decide_eq_false. intros E. rewrite E in Hp. discriminate.
Qed.

(** Every event about a user that the auth service emits names that user as its subject and
    carries the request identifier; the two that concern no known user have no subject. *)
Lemma auth_events_name_user requestID a :
  let e := auth_event requestID (auth_audit_call a).1 (auth_audit_call a).2 in
  se_RequestID e = requestID /\ se_Subject e = match auth_audit_user a with Some u => uuid_String u | None => "" end.
Proof.
  split; [done|]. simpl. rewrite enrich_keeps; [by destruct a| |done]. apply Nat.even_spec. by destruct a.
Qed.

(** No event of the tenant service names the tenant or the client it concerns: the
    identifiers are not strings, so [ExtractString] passes over them. *)
Lemma tenant_events_have_no_subject requestID e : se_Subject (tenant_event requestID (tenant_call e).1 (tenant_call e).2) = "".
Proof.
  simpl. unfold resolveAuditSubject. assert (Nat.Even (length (tenant_call e).2)) as He by (apply Nat.even_spec; by destruct e).
  rewrite first_of_enriched, enrich_keeps by (done || set_solver). by destruct e.
Qed.

(** The subject of an event of the limiter. *)
Definition rate_subject (a : RateAudit) : string :=
  match a with
  | RaAllowlistRemoved i | RaReset i | RaConfigMissingUser i | RaBypass i _ | RaExceeded _ i => i
  | RaLockoutTriggered i ip | RaLockoutCleared i ip => if str_empty i then AnonymizeIP ip else i
  | RaClientExceeded c => c
  | RaConfigMissingIP ip | RaBypassBoth ip _ _ => AnonymizeIP ip
  | RaAllowlistAdded _ | RaQuotaExceeded _ | RaQuotaReset _ | RaTierUpdated _ | RaGlobalThrottle => ""
  end.

(** The limiter's events name the anonymised address, the user or the client; an allowlist
    entry that is added and an API key are not named. *)
Lemma rate_events_subject requestID a : se_Subject (rate_event requestID (rate_audit_call a).1 (rate_audit_call a).2) = rate_subject a.
Proof.
  simpl. unfold extractSubject. rewrite first_of_enriched; [|apply Nat.even_spec; by destruct a|set_solver].
  destruct a; simpl; rewrite ?AnonymizeIP_nonempty; try done;
    match goal with |- context [str_empty ?x] => destruct (str_empty x) eqn:E; [|done] end;
    unfold str_empty in E; apply bool_decide_eq_true in E; by subst.
Qed.
End emission.

(** ** The request log *)

Record request_line := mkLine { ln_method : string; ln_path : string; ln_status : Z; ln_request_id : string; ln_remote_addr_prefix : string }.

Section request_log.
Context {S : Type}.

(** The line is written after the handler returns; a panic passes through.  Healthy answers of
    the status endpoint are not logged. *)
Definition Logger (next : Handler S) : Handler (S * list request_line) := fun r c h sl =>
  match next r c h sl.1 with
  | (Panics h', s') => (Panics h', (s', sl.2))
  | (Responds resp, s') =>
      (Responds resp,
       (s', if bool_decide (req_Path r = "/health") && (resp_Status resp <? 500) then sl.2
            else sl.2 ++ [mkLine (req_Method r) (req_Path r) (resp_Status resp) (rc_RequestID c) (AnonymizeIP (rc_ClientIP c))]))
  end.

(** The log changes no answer and no state, and tells at most the network of a peer: two
    requests that differ in the host part of their address are logged alike. *)
Lemma Logger_transparent next r c h sl :
  (Logger next r c h sl).1 = (next r c h sl.1).1 /\ (Logger next r c h sl).2.1 = (next r c h sl.1).2.
Proof. unfold Logger. by destruct (next r c h sl.1) as [[resp|h'] s']. Qed.

Lemma Logger_hides_host next r c ip1 ip2 p1 p2 h sl :
  let at_ ip := mkRCtx (rc_UserID c) (rc_SessionID c) (rc_ClientID c) (rc_DeviceID c) (rc_DeviceFingerprint c) ip (rc_UserAgent c) (rc_RequestID c)
                  (rc_Time c) (rc_APIVersion c) (rc_TokenAPIVersion c) (rc_AdminAuthorized c) (rc_AdminActorID c) in
  ParseIP ip1 = Some p1 -> ParseIP ip2 = Some p2 -> mask p1 = mask p2 ->
  next r (at_ ip1) h sl.1 = next r (at_ ip2) h sl.1 ->
  Logger next r (at_ ip1) h sl = Logger next r (at_ ip2) h sl.
Proof.
  intros at_ H1 H2 Hm Hn. unfold Logger. rewrite Hn. simpl.
  by rewrite (anonymized_of_mask _ _ H1), (anonymized_of_mask _ _ H2), Hm.
Qed.
End request_log.
