(* ===== verification/ResourceServer.v ===== *)
(** * The laboratory resource server
    [lab/resource-server/main.go]

    A resource server that trusts tokens signed with the shared key.  Base64, the JSON decoder
    and HMAC-SHA256 are arguments. *)
From S2P Require Import Prelude Errors Config Http.
Open Scope Z_scope.

(** What a JSON object decodes to, as far as the server looks at it: the text of its members. *)
Abbreviation jmap := (gmap string string) (only parsing).

Record apiResponse := mkApi {
  api_Message : string;
  api_Claims : jmap;
  api_Warning : string;
  api_Header : jmap;
}.

(** [strings.SplitN(value, " ", 2)] *)
Fixpoint cut_space (s : string) : option (string * string) :=
  match s with
  | EmptyString => None
  | String c s' =>
      if Ascii.eqb c (Ascii.ascii_of_nat 32) then Some ("", s')
      else match cut_space s' with Some (a, b) => Some (String c a, b) | None => None end
  end.

Definition bearerToken (value : string) : string :=
  if str_empty value then "" else match cut_space value with Some (_, t) => TrimSpace t | None => "" end.

Section server.
Context (b64decode : string -> res string) (json_Unmarshal : string -> jmap * option error) (hmac_b64 : string -> string -> string).

(** The decoder fills the map as far as it gets. *)
Definition parseAndVerify (token key : string) : jmap * jmap * option error :=
  match split_at dot token with
  | [p0; p1; p2] =>
      match b64decode p0 with
      | Err e => (∅, ∅, Some (EWrap "failed to base64 decode header" e))
      | Ok headerBytes =>
          let '(header, herr) := json_Unmarshal headerBytes in
          match herr with
          | Some e => (header, ∅, Some (EWrap "failed to unmarshal header JSON" e))
          | None =>
              match b64decode p1 with
              | Err e => (header, ∅, Some (EWrap "failed to base64 decode claims" e))
              | Ok payloadBytes =>
                  let '(claims, cerr) := json_Unmarshal payloadBytes in
                  match cerr with
                  | Some e => (header, claims, Some (EWrap "failed to unmarshal claims JSON" e))
                  | None =>
                      if bool_decide (hmac_b64 key (p0 +:+ "." +:+ p1) = p2) then (header, claims, None)
                      else (header, claims, Some (EOther "signature mismatch"))
                  end
              end
          end
      end
  | _ => (∅, ∅, Some (EOther "invalid token format"))
  end.

Definition handle_healthz : Z * apiResponse := (200, mkApi "ok" ∅ "" ∅).

Definition handle_data (key authorization : string) : Z * apiResponse :=
  let token := bearerToken authorization in
  if str_empty token then (401, mkApi "missing bearer token" ∅ "" ∅)
  else
    match parseAndVerify token key with
    | (header, claims, Some e) => (401, mkApi "token rejected" claims (Error_text e) header)
    | (header, claims, None) =>
        (200, mkApi "token accepted by naive resource server" claims
                ("audience not checked; token accepted for any service" +:+ match header !! "kid" with None => " (no kid present)" | Some _ => "" end)
                header)
    end.

Definition handle_debug_claims (key authorization : string) : Z * apiResponse :=
  let token := bearerToken authorization in
  if str_empty token then (400, mkApi "provide Authorization: Bearer <token>" ∅ "" ∅)
  else
    match parseAndVerify token key with
    | (header, claims, Some e) => (200, mkApi "parsed with warnings" claims (Error_text e) header)
    | (header, claims, None) => (200, mkApi "claims decoded" claims "signature checked; audience ignored" header)
    end.

(** The data is given out exactly for tokens signed with the key: three parts that decode and
    a third part that is the code of the other two.  Neither the algorithm the header names
    nor the expiry, the audience or the issuer among the claims play a part. *)
Lemma data_needs_signature key authorization :
  (handle_data key authorization).1 = 200 <->
  exists p0 p1 hb pb header claims,
    split_at dot (bearerToken authorization) = [p0; p1; hmac_b64 key (p0 +:+ "." +:+ p1)] /\
    b64decode p0 = Ok hb /\ json_Unmarshal hb = (header, None) /\ b64decode p1 = Ok pb /\ json_Unmarshal pb = (claims, None).
Proof.
  unfold handle_data. destruct (str_empty (bearerToken authorization)) eqn:E.
  { split; [done|]. intros (p0 & p1 & hb & pb & h & c & Hs & _). unfold str_empty in E. apply bool_decide_eq_true in E. by rewrite E in Hs. }
  unfold parseAndVerify. destruct (split_at dot (bearerToken authorization)) as [|p0 [|p1 [|p2 [|]]]];
    try (split; [done|intros (? & ? & ? & ? & ? & ? & ? & _); discriminate]).
  split.
  - destruct (b64decode p0) as [hb|] eqn:E0; [|done]. destruct (json_Unmarshal hb) as [h [|]] eqn:Eh; [done|].
    destruct (b64decode p1) as [pb|] eqn:E1; [|done]. destruct (json_Unmarshal pb) as [c [|]] eqn:Ec; [done|].
    case_bool_decide as Hm; [|done]. intros _. exists p0, p1, hb, pb, h, c. by rewrite Hm.
  - intros (q0 & q1 & hb & pb & h & c & [= <- <- ->] & -> & -> & -> & ->). by rewrite bool_decide_eq_true_2.
Qed.

(** The debug endpoint answers whatever the signature: it shows the claims of any token. *)
Lemma debug_claims_unverified key authorization : str_empty (bearerToken authorization) = false ->
  (handle_debug_claims key authorization).1 = 200 /\
  api_Claims (handle_debug_claims key authorization).2 = (parseAndVerify (bearerToken authorization) key).1.2.
Proof. intros E. unfold handle_debug_claims. rewrite E. by destruct (parseAndVerify _ key) as [[h c] [e|]]. Qed.
End server.
