(* ===== verification/Contracts.v ===== *)
(** * What the administration sees of the auth stores
    [internal/auth/store/session/contracts.go], [internal/auth/store/user/contracts.go] and the
    records of [contracts/auth/models.go]

    The auth module hands its users and sessions over in contract records whose identifiers
    are texts; the adapters of the administration parse them again.  Here both sides are
    composed: nothing is lost on the way. *)
From S2P Require Import Prelude Errors AuthModels TRL AuthStores AuditTrail Http Endpoints.
Open Scope Z_scope.

(** A map built entry by entry under new keys. *)
Lemma rekeyed_list {K1 K2 A B} `{Countable K1, Countable K2} (f : K1 -> K2) (g : A -> B) (m : gmap K1 A) :
  foldr (fun kv m' => <[f kv.1 := g kv.2]> m') (∅ : gmap K2 B) (map_to_list m) = list_to_map (prod_map f g <$> map_to_list m).
Proof. induction (map_to_list m) as [|[k a] l IH]; [done|]. simpl. by rewrite IH. Qed.

Lemma rekeyed_back {K1 K2 A B C} `{Countable K1, Countable K2} (f : K1 -> K2) (h : K2 -> K1) (g : A -> B) (g2 : B -> C) (m : gmap K1 A) :
  (forall k, h (f k) = k) ->
  foldr (fun kv m' => <[h kv.1 := g2 kv.2]> m') (∅ : gmap K1 C)
    (map_to_list (foldr (fun kv m' => <[f kv.1 := g kv.2]> m') (∅ : gmap K2 B) (map_to_list m))) = (g2 ∘ g) <$> m.
Proof.
  intros Hhf. assert (NoDup ((prod_map f g <$> map_to_list m).*1)) as Hnd.
  { rewrite <- list_fmap_compose. change ((fst ∘ prod_map f g) <$> map_to_list m) with ((f ∘ fst) <$> map_to_list m).
    rewrite list_fmap_compose. apply NoDup_fmap_2_strong; [|apply NoDup_fst_map_to_list]. intros x y _ _ Hxy. by rewrite <- (Hhf x), <- (Hhf y), Hxy. }
  rewrite !rekeyed_list. assert ((prod_map h g2 <$> map_to_list (list_to_map (prod_map f g <$> map_to_list m) : gmap K2 B)) ≡ₚ map_to_list ((g2 ∘ g) <$> m)) as Hp.
  { rewrite map_to_list_to_map by done. rewrite map_to_list_fmap, <- list_fmap_compose. apply Permutation_refl', list_fmap_ext.
    intros i [k a] _. simpl. unfold prod_map. simpl. by rewrite Hhf. }
  rewrite <- (list_to_map_to_list ((g2 ∘ g) <$> m)). apply list_to_map_proper; [|done].
  rewrite Hp. apply NoDup_fst_map_to_list.
Qed.

Lemma count_where_fmap {A B} (f : A -> B) (P : B -> bool) (l : list A) : count_where P (f <$> l) = count_where (fun x => P (f x)) l.
Proof. unfold count_where. f_equal. induction l as [|x l IH]; [done|]. rewrite fmap_cons. simpl. destruct (P (f x)); simpl; [f_equal|]; exact IH. Qed.

Section contracts.
Context (uuid_String : uuid -> string) (uuid_Parse : string -> option uuid).

Definition mapSessionToContract (x : Session) : AdminSessionView :=
  mkSessionView (uuid_String (s_ID x)) (uuid_String (s_UserID x)) (s_CreatedAt x) (s_ExpiresAt x) (Session_IsActive x).
Definition mapSessionsToContract (sessions : gmap uuid Session) : gmap string AdminSessionView :=
  foldr (fun kv m => <[uuid_String kv.1 := mapSessionToContract kv.2]> m) ∅ (map_to_list sessions).
Definition mapSessionSliceToContract (sessions : list Session) : list AdminSessionView := mapSessionToContract <$> sessions.

Definition mapUserToContract (u : User) : AdminUserView :=
  mkUserView (uuid_String (u_ID u)) (uuid_String (u_TenantID u)) (u_Email u) (u_FirstName u) (u_LastName u) (u_Verified u) (User_IsActive u).
Definition mapUsersToContract (users : gmap uuid User) : gmap string AdminUserView :=
  foldr (fun kv m => <[uuid_String kv.1 := mapUserToContract kv.2]> m) ∅ (map_to_list users).

(** Over the in-memory stores. *)
Definition UserStore_ListAll : AU (gmap uuid User) := st_gets as_users.
Definition Sessions_ListAllContract : AU (gmap string AdminSessionView) := m ← SessionStore_ListAll; mret (mapSessionsToContract m).
Definition Sessions_ListByUserContract (userID : uuid) : AU (list AdminSessionView) :=
  l ← SessionStore_ListByUser userID; mret (mapSessionSliceToContract l).
Definition Users_ListAllContract : AU (gmap string AdminUserView) := m ← UserStore_ListAll; mret (mapUsersToContract m).
Definition Users_FindByIDContract (userID : uuid) : AU AdminUserView := u ← UserStore_FindByID userID; mret (mapUserToContract u).

(** The stores behind the administration; the audit store is another one. *)
Definition admin_stores (listAll : AU (list AuditEvent)) (listRecent : Z -> AU (list AuditEvent)) : AdminStores AuthState :=
  mkAdminStores _ Users_ListAllContract Sessions_ListAllContract Sessions_ListByUserContract listAll listRecent.

(** The record of a session and of a user on the other side. *)
Definition admin_session (x : Session) : AdminSession := mkAdminSession (s_ID x) (s_UserID x) (s_CreatedAt x) (s_ExpiresAt x) (Session_IsActive x).
Definition admin_user (u : User) : AdminUser :=
  mkAdminUser (u_ID u) (u_TenantID u) (u_Email u) (u_FirstName u) (u_LastName u) (u_Verified u) (User_IsActive u).

Section round_trip.
Hypothesis uuid_round_trip : forall u, uuid_Parse (uuid_String u) = Some u /\ uuid_String u <> "".

Lemma parse_printed u label : parsed_or_nil (parseUUID uuid_Parse (uuid_String u) label) = u.
Proof. destruct (uuid_round_trip u) as [Hp Hn]. unfold parseUUID, str_empty. rewrite bool_decide_eq_false_2 by done. by rewrite Hp. Qed.

Lemma mapSession_contract x : mapSession uuid_Parse (mapSessionToContract x) = admin_session x.
Proof. unfold mapSession. simpl. unfold ParseSessionID, ParseUserID. by rewrite !parse_printed. Qed.

Lemma mapUser_contract u : mapUser uuid_Parse (mapUserToContract u) = admin_user u.
Proof. unfold mapUser. simpl. unfold ParseTenantID, ParseUserID. by rewrite !parse_printed. Qed.

(** The administration sees every user and every session of the auth stores under its own
    identifier, with its fields, and nothing else. *)
Lemma admin_views_exact listAll listRecent s :
  let stores := admin_stores listAll listRecent in
  UserStoreAdapter_ListAll stores uuid_Parse s = (Ok (admin_user <$> as_users s), s) /\
  SessionStoreAdapter_ListAll stores uuid_Parse s = (Ok (admin_session <$> as_sessions s), s) /\
  (forall userID, SessionStoreAdapter_ListByUser stores uuid_Parse userID s =
    (Ok (admin_session <$> filter (fun x => s_UserID x = userID) ((map_to_list (as_sessions s)).*2)), s)).
Proof.
  split_and!.
  - unfold UserStoreAdapter_ListAll. simpl. unfold Users_ListAllContract, UserStore_ListAll. st_unfold. do 2 f_equal.
    unfold mapUsersToContract. rewrite (rekeyed_back uuid_String (fun k => parsed_or_nil (ParseUserID uuid_Parse k))); [|intros k; apply parse_printed].
    apply map_fmap_ext. intros i u _. apply mapUser_contract.
  - unfold SessionStoreAdapter_ListAll. simpl. unfold Sessions_ListAllContract, SessionStore_ListAll. st_unfold. do 2 f_equal.
    unfold mapSessionsToContract. rewrite (rekeyed_back uuid_String (fun k => parsed_or_nil (ParseSessionID uuid_Parse k))); [|intros k; apply parse_printed].
    apply map_fmap_ext. intros i x _. apply mapSession_contract.
  - intros userID. unfold SessionStoreAdapter_ListByUser. simpl. unfold Sessions_ListByUserContract, SessionStore_ListByUser, mapSessionSliceToContract. st_unfold.
    do 2 f_equal. rewrite <- list_fmap_compose. apply list_fmap_ext. intros i x _. apply mapSession_contract.
Qed.

(** The statistics count the users, and as active every session that has not expired, whatever
    its status. *)
Lemma stats_exact listAll listRecent clock s :
  (GetStats (admin_stores listAll listRecent) uuid_Parse clock s).1 =
  Ok (let events := match (listAll s).1 with Ok l => l | Err _ => [] end in
      mkStats (Z.of_nat (size (as_users s))) (count_where (fun x => time_After (s_ExpiresAt x.2) clock) (map_to_list (as_sessions s)))
        (count_where (fun e => bool_decide (ae_Action e = "vc_issued")) events)
        (count_where (fun e => bool_decide (ae_Action e = "decision_made")) events) clock).
Proof.
  destruct (admin_views_exact listAll listRecent s) as (Hu & Hs & _). unfold GetStats, mbind, st_bind. rewrite Hu, Hs. simpl.
  unfold st_try. destruct (listAll s) as [[l|e] s']; simpl; repeat f_equal; (try apply map_size_fmap);
    rewrite map_to_list_fmap; apply count_where_fmap.
Qed.

(** A revoked session is among the active ones until its expiry. *)
Lemma revoked_session_counted listAll listRecent clock s i x :
  as_sessions s = {[i := x]} -> s_Status x = SessionStatusRevoked -> time_After (s_ExpiresAt x) clock = true ->
  Session_IsActive x = false /\
  exists st, (GetStats (admin_stores listAll listRecent) uuid_Parse clock s).1 = Ok st /\ sts_ActiveSessions st = 1.
Proof.
  intros Hs Hr He. split; [unfold Session_IsActive; by rewrite Hr|]. rewrite stats_exact. eexists. split; [done|]. simpl.
  rewrite Hs, map_to_list_singleton. unfold count_where. simpl. by rewrite He.
Qed.
End round_trip.
End contracts.
