(* ===== verification/Tokengen.v ===== *)
(** * The token generator: [cmd/tokengen/main.go]

    The command-line tool that prints tokens for tests, over the token service of [Jwt].  The
    flags are given parsed; the UUID parser, the random identifiers, the text of a duration
    and the JSON encoder are arguments.  A run is its exit code and what it writes. *)
From S2P Require Import Prelude Errors AuthModels AuthService Http Jwt Config.
Open Scope Z_scope.

Definition devSigningKey : string := "dev-secret-key-change-in-production".
Definition demoSigningKey : string := "demo-signing-key-change-me-locally".
Definition devAdminToken : string := "demo-admin-token".
Definition defaultIssuerBaseURL : string := "http://localhost:8080".
Definition defaultAudience : string := "credo-client".
Definition defaultTokenTTL : duration := 15 * Minute.

Definition dquote : string := String (Ascii.ascii_of_nat 34) "".

Record tokenOutput := mkTokenOutput {
  to_Token : string; to_Type : string; to_ExpiresIn : string; to_Claims : list (string * jval); to_Usage : list (string * string);
}.

Record Run := mkRun { rn_code : Z; rn_stdout : list string; rn_stderr : list string }.
Definition exit1 (msg : string) : Run := mkRun 1 [] [msg].

(** The flags of [access] and [id], with their defaults. *)
Record TokenFlags := mkFlags {
  fl_userID : string; fl_sessionID : string; fl_clientID : string; fl_tenantID : string; fl_scopes : string;
  fl_ttl : duration; fl_demo : bool; fl_json : bool;
}.
Definition default_flags : TokenFlags := mkFlags "" "" "test-client" "" "openid,profile,email" defaultTokenTTL false false.

Definition parseScopes (scopes : string) : list string :=
  if str_empty scopes then [] else filter (fun s => str_empty s = false) (TrimSpace <$> split_at comma scopes).

Section tokengen.
Context `{!JwtLibrary} (uuid_String : uuid -> string) (uuid_Parse : string -> option uuid) (duration_String : duration -> string).
Context (encode : tokenOutput -> res string).
(** The random identifiers drawn for the user and the session, the JTI, and the clock. *)
Context (freshUser freshSession : uuid) (jti : res string) (idTokenID : string) (now clock : time).

Definition parseOrGenerate (fresh : uuid) (input fieldName : string) : string + uuid :=
  if str_empty input then inr fresh
  else match uuid_Parse input with None => inl ("Invalid " +:+ fieldName +:+ ": " +:+ input) | Some u => inr u end.
Definition parseOrGenerateUserID (input fieldName : string) : string + uuid := parseOrGenerate freshUser input fieldName.
Definition parseOrGenerateSessionID (input fieldName : string) : string + uuid := parseOrGenerate freshSession input fieldName.
Definition parseClientID (input : string) : string + uuid :=
  match ParseClientID uuid_Parse input with Err _ => inl ("Invalid client-id: " +:+ input) | Ok c => inr c end.
(** Without a tenant the identifier is nil. *)
Definition parseOrGenerateTenantID (input : string) : string + uuid := parseOrGenerate 0%N input "tenant-id".

Definition printJSON (v : tokenOutput) : Run :=
  match encode v with Err e => exit1 ("Error encoding JSON: " +:+ Error_text e) | Ok text => mkRun 0 [text] [] end.

Definition signing (demo : bool) : string * string := if demo then (demoSigningKey, "demo") else (devSigningKey, "dev").

(** The service that signs. *)
Definition tool_service (demo : bool) (ttl : duration) : JWTService :=
  NewJWTService (signing demo).1 defaultIssuerBaseURL defaultAudience ttl.

(** The identifiers in the order in which they are parsed; the first that fails ends the run. *)
Definition with_ids (f : TokenFlags) (k : uuid -> uuid -> uuid -> uuid -> Run) : Run :=
  match parseOrGenerateUserID (fl_userID f) "user-id" with
  | inl m => exit1 m
  | inr userID =>
      match parseOrGenerateSessionID (fl_sessionID f) "session-id" with
      | inl m => exit1 m
      | inr sessionID =>
          match parseClientID (fl_clientID f) with
          | inl m => exit1 m
          | inr clientID =>
              match parseOrGenerateTenantID (fl_tenantID f) with inl m => exit1 m | inr tenantID => k userID sessionID clientID tenantID end
          end
      end
  end.

Definition tenant_line (tenantID : uuid) : list string := if IsNil tenantID then [] else ["Tenant ID:   " +:+ uuid_String tenantID].

(** [%v] of a list of strings. *)
Definition format_list (l : list string) : string := "[" +:+ String.concat " " l +:+ "]".

Definition generateAccessToken (f : TokenFlags) : Run :=
  with_ids f (fun userID sessionID clientID tenantID =>
    let scopeList := parseScopes (fl_scopes f) in
    match GenerateAccessTokenWithJTI uuid_String (tool_service (fl_demo f) (fl_ttl f)) now clock jti userID sessionID clientID tenantID scopeList APIVersionV1 with
    | Err e => exit1 ("Error generating token: " +:+ Error_text e)
    | Ok (token, j) =>
        if fl_json f then
          printJSON (mkTokenOutput token "access_token" (duration_String (fl_ttl f))
            [("user_id", JString (uuid_String userID)); ("session_id", JString (uuid_String sessionID)); ("client_id", JString (uuid_String clientID));
             ("tenant_id", JString (uuid_String tenantID)); ("scope", JStrings scopeList); ("jti", JString j)]
            [("header", "Authorization: Bearer <token>"); ("signing_key", (signing (fl_demo f)).2)])
        else
          mkRun 0 (["Access Token (JWT)"; "=================="; "Signing Key: " +:+ (signing (fl_demo f)).2; "Expires In:  " +:+ duration_String (fl_ttl f);
                    "User ID:     " +:+ uuid_String userID; "Session ID:  " +:+ uuid_String sessionID; "Client ID:   " +:+ uuid_String clientID] ++
                   tenant_line tenantID ++
                   ["Scopes:      " +:+ format_list scopeList; "JTI:         " +:+ j; ""; "Token:"; token; ""; "Usage:";
                    "  curl -H " +:+ dquote +:+ "Authorization: Bearer <token>" +:+ dquote +:+ " http://localhost:8080/..."]) []
    end).

Definition generateIDToken (f : TokenFlags) : Run :=
  with_ids f (fun userID sessionID clientID tenantID =>
    match GenerateIDToken uuid_String (tool_service (fl_demo f) (fl_ttl f)) now idTokenID userID sessionID clientID tenantID APIVersionV1 with
    | Err e => exit1 ("Error generating token: " +:+ Error_text e)
    | Ok token =>
        if fl_json f then
          printJSON (mkTokenOutput token "id_token" (duration_String (fl_ttl f))
            [("sub", JString (uuid_String userID)); ("sid", JString (uuid_String sessionID)); ("azp", JString (uuid_String clientID));
             ("tenant_id", JString (uuid_String tenantID))]
            [("signing_key", (signing (fl_demo f)).2)])
        else
          mkRun 0 (["ID Token (OIDC)"; "==============="; "Signing Key: " +:+ (signing (fl_demo f)).2; "Expires In:  " +:+ duration_String (fl_ttl f);
                    "Subject:     " +:+ uuid_String userID; "Session ID:  " +:+ uuid_String sessionID; "Client ID:   " +:+ uuid_String clientID] ++
                   tenant_line tenantID ++ [""; "Token:"; token]) []
    end).

Definition showAdminToken (json : bool) : Run :=
  if json then
    printJSON (mkTokenOutput devAdminToken "admin_token" "" []
      [("header", "X-Admin-Token: " +:+ devAdminToken); ("note", "Works when CREDO_ENV is local/dev/development/testing/test")])
  else
    mkRun 0 ["Admin API Token"; "==============="; "Token: " +:+ devAdminToken; ""; "Usage:";
             "  curl -H " +:+ dquote +:+ "X-Admin-Token: " +:+ devAdminToken +:+ dquote +:+ " http://localhost:8080/..."; "";
             "Note: This token works when CREDO_ENV is local/dev/development/testing/test"] [].

(** Run without flags, the tool fails: the default client is no UUID. *)
Lemma default_client_refused : uuid_Parse "test-client" = None ->
  generateAccessToken default_flags = exit1 "Invalid client-id: test-client" /\ generateIDToken default_flags = exit1 "Invalid client-id: test-client".
Proof.
  intros Hp. assert (forall k, with_ids default_flags k = exit1 "Invalid client-id: test-client") as Hw.
  { intros k. unfold with_ids, parseClientID, ParseClientID, parseUUID. simpl. by rewrite Hp. }
  split; apply Hw.
Qed.

(** A token of the tool is good at every server that has neither a signing key nor an issuer
    of its own in its environment, in production too. *)
Lemma tool_token_accepted `{!JwtLaws} {ParseDuration Atoi} env cfg ttl userID sessionID clientID tenantID scopes tok j at_ :
  FromEnv ParseDuration Atoi env = Ok cfg -> sc_DemoMode cfg = false ->
  Getenv env "JWT_SIGNING_KEY" = "" -> Getenv env "JWT_ISSUER_BASE_URL" = "" ->
  GenerateAccessTokenWithJTI uuid_String (tool_service false ttl) now clock jti userID sessionID clientID tenantID scopes APIVersionV1 = Ok (tok, j) ->
  at_ < NewNumericDate (now + ttl) * Second ->
  exists claims, ValidateToken (initializeJWTService cfg) at_ tok = Ok claims /\
    at_UserID claims = uuid_String userID /\ at_SessionID claims = uuid_String sessionID /\ at_ClientID claims = uuid_String clientID.
Proof.
  intros (_ & _ & Ha & _)%FromEnv_Ok Hd Hk Hi Hg Ht. unfold GenerateAccessTokenWithJTI in Hg.
  destruct (GenerateAccessToken _ _ _ _ _ _ _ _ _ _) as [t|] eqn:Hgen; [|done].
  destruct (GenerateAccessToken_signed _ _ _ _ _ _ _ _ _ _ _ Hgen) as (j' & w & _ & Hs & Hu & Hse & Hc & _ & He & Hp).
  assert (t = tok) as -> by (destruct (jwt_ParseWithClaims _ _ _ _); by simplify_eq).
  exists (access_of w). rewrite (ValidateToken_signed _ w tok at_); [|unfold initializeJWTService; rewrite Hd, Ha; simpl; by rewrite Hk, Hd|].
  - rewrite He. simpl. by rewrite (proj2 (Z.ltb_lt _ _) Ht).
  - unfold initializeJWTService. rewrite Hd, Ha. simpl. unfold getEnv. by rewrite Hi, Hd.
Qed.
End tokengen.
