(* ===== verification/MockRegistries.v ===== *)
(** * The registries of the test environment
    [mocks/citizen-registry/main.go] and [mocks/sanctions-registry/main.go]

    Two servers that stand for the outside registries: they answer the lookups of the HTTP
    adapters of [Registry] with predefined people or with data drawn from the SHA-256 of the
    national identifier.  The hash, the calendar and the text of dates are arguments, and so
    is the JSON codec.  The theorem joins the servers with the adapters. *)
From S2P Require Import Prelude Errors Registry.
Open Scope Z_scope.

(** ** Requests and responses *)

Record CitizenResponse := mkCitizenResponse {
  ctr_NationalID : string; ctr_FullName : string; ctr_DateOfBirth : string; ctr_Address : string; ctr_Valid : bool; ctr_CheckedAt : string;
}.
Record SanctionsResponse := mkSanctionsResponse {
  sar_NationalID : string; sar_Listed : bool; sar_Source : string; sar_ListType : string; sar_Reason : string; sar_ListedDate : string;
  sar_CheckedAt : string;
}.
Record ErrorResponse := mkErrorResponse { er_Error : string; er_Message : string; er_Code : Z }.

Inductive Answer (A : Type) := Found (a : A) | Refused (status : Z) (e : ErrorResponse).
Arguments Found {A}.
Arguments Refused {A}.

(** [http.StatusText] of the codes used. *)
Definition StatusText (code : Z) : string :=
  if code =? 400 then "Bad Request" else if code =? 401 then "Unauthorized" else if code =? 404 then "Not Found"
  else if code =? 405 then "Method Not Allowed" else "".
Definition sendError {A} (message : string) (code : Z) : Answer A := Refused code (mkErrorResponse (StatusText code) message code).

(** The checks both servers make before they look at the identifier; [decoded] is the
    [national_id] of the body. *)
Definition checked {A} (apiKey method key : string) (decoded : res string) (k : string -> Answer A) : Answer A :=
  if negb (bool_decide (method = "POST")) then sendError "Method not allowed" 405
  else if str_empty key then sendError "Missing X-API-Key header" 401
  else if negb (bool_decide (key = apiKey)) then sendError "Invalid API key" 401
  else match decoded with
       | Err e => sendError ("Invalid request body: " +:+ Error_text e) 400
       | Ok nationalID => if str_empty nationalID then sendError "national_id is required" 400 else k nationalID
       end.

(** ** The citizen registry *)

Inductive Birth := BornOn (date : string) | BornYearsAgo (years days : Z).

(** The people with fixed data: name, birth, address and validity. *)
Definition testCitizens : gmap string (string * Birth * string * bool) := list_to_map [
  ("ADULT123456", ("John Adult Smith", BornOn "1990-01-01", "123 Main St, Springfield, CA 90210", true));
  ("FMTCHECK123", ("Format Check User", BornOn "1985-06-15", "456 Oak Ave, Riverside, TX 75001", true));
  ("REGULATED123", ("Regulated Mode User", BornOn "1980-03-15", "789 Pine Dr, Fairview, NY 10001", true));
  ("FULLDATA123", ("Full Data User", BornOn "1975-12-25", "321 Elm St, Clinton, FL 33101", true));
  ("AUDIT123456", ("Audit Trail User", BornOn "1988-07-20", "654 Cedar Ln, Georgetown, IL 60601", true));
  ("MULTI123456", ("Multi Request User", BornOn "1992-04-10", "987 Birch Way, Franklin, PA 19101", true));
  ("MINOR17", ("Minor Seventeen User", BornYearsAgo 17 1, "111 Youth St, Fairview, CA 90001", true));
  ("JUSTTURNED18", ("Just Turned Eighteen", BornYearsAgo 18 0, "222 Birthday Ln, Madison, TX 75002", true));
  ("INVALID12345", ("Invalid Record User", BornOn "1980-01-01", "333 Invalid Ave, Salem, OH 44001", false));
  ("NOCRED123456", ("No Credential User", BornOn "1990-01-15", "444 Nocred St, Springfield, CA 90211", true));
  ("SANCTIONED123", ("Sanctioned User", BornOn "1990-01-15", "555 Sanctions Ave, Restricted, NY 10002", true));
  ("INVALID123456", ("Invalid Citizen User", BornOn "1990-01-15", "666 Invalid Rd, Nowhere, TX 75003", false));
  ("MINOR123456", ("Minor Sixteen User", BornYearsAgo 16 0, "777 Youth Ln, Kidsville, FL 33102", true));
  ("EXACT18", ("Exactly Eighteen User", BornYearsAgo 18 0, "888 Birthday Blvd, Adulthood, GA 30301", true));
  ("CLEAN123456", ("Clean Record User", BornOn "1990-01-15", "999 Clean St, Clearville, WA 98001", true));
  ("SANCTIONED999", ("Sanctions Test User", BornOn "1985-05-20", "101 Restricted Dr, Blocked, AZ 85001", true));
  ("SANCTIONED99", ("Sanctions Listed User", BornOn "1982-08-15", "202 Watchlist Way, Flagged, NV 89001", true));
  ("INVALID99999", ("Invalid Status User", BornOn "1978-03-22", "303 Inactive St, Expired, OR 97001", false))].

Definition notFoundCitizens : list string := ["UNKNOWN999"; "NOCONSENT123"; "REVOKED123"; "NOTFOUND999"].

Definition firstNames : list string := ["Alice"; "Bob"; "Carol"; "David"; "Emma"; "Frank"; "Grace"; "Henry"; "Isabel"; "Jack"].
Definition middleNames : list string := ["Marie"; "James"; "Lynn"; "Michael"; "Ann"; "Robert"; "Elizabeth"; "William"; "Rose"; "Joseph"].
Definition lastNames : list string := ["Smith"; "Johnson"; "Williams"; "Brown"; "Jones"; "Garcia"; "Miller"; "Davis"; "Rodriguez"; "Martinez"].
Definition streets : list string := ["Main St"; "Oak Ave"; "Maple Dr"; "Pine Rd"; "Elm St"; "Cedar Ln"; "Birch Way"; "Willow Ct"; "Cherry Blvd"; "Ash Pl"].
Definition cities : list string := ["Springfield"; "Riverside"; "Fairview"; "Clinton"; "Georgetown"; "Franklin"; "Madison"; "Salem"; "Arlington"; "Lexington"].
Definition states : list string := ["CA"; "TX"; "FL"; "NY"; "IL"; "PA"; "OH"; "GA"; "NC"; "MI"].

(** A number with at least [width] digits. *)
Fixpoint zeros (n : nat) : string := match n with O => "" | S n' => "0" +:+ zeros n' end.
Definition pad (width : nat) (n : Z) : string := let s := pretty n in zeros (width - String.length s) +:+ s.

(** The element a hash byte selects. *)
Definition pick (l : list string) (b : Z) : string := default "" (l !! Z.to_nat (b mod Z.of_nat (length l))).

Section registries.
Context (sha256 : string -> list Z) (hex : list Z -> string).
Context (Year : time -> Z) (AddDate : time -> Z -> Z -> Z -> time) (format_date format_rfc3339 : time -> string).

Definition birth_date (now : time) (b : Birth) : string :=
  match b with BornOn d => d | BornYearsAgo y d => format_date (AddDate now (- y) 0 d) end.

Definition byte_of (nationalID : string) (i : nat) : Z := default 0 (sha256 nationalID !! i).

(** The last characters of the hexadecimal hash. *)
Definition hash_tail (nationalID : string) (n : nat) : string :=
  let s := hex (sha256 nationalID) in String.substring (String.length s - n) n s.

Definition generated_birth (now : time) (nationalID : string) : Z * Z * Z :=
  let h := byte_of nationalID in (Year now - (18 + h 3%nat mod 62), 1 + h 4%nat mod 12, 1 + h 5%nat mod 28).

Definition generateCitizen (now : time) (nationalID : string) : CitizenResponse :=
  let h := byte_of nationalID in
  let '(birthYear, birthMonth, birthDay) := generated_birth now nationalID in
  let zipCode := 10000 + (h 7%nat * 123 + h 8%nat * 31) mod 90000 in
  mkCitizenResponse nationalID
    (pick firstNames (h 0%nat) +:+ " " +:+ pick middleNames (h 1%nat) +:+ " " +:+ pick lastNames (h 2%nat))
    (pad 4 birthYear +:+ "-" +:+ pad 2 birthMonth +:+ "-" +:+ pad 2 birthDay)
    (pretty (100 + h 6%nat mod 900) +:+ " " +:+ pick streets (h 9%nat) +:+ ", " +:+ pick cities (h 10%nat) +:+ ", " +:+ pick states (h 11%nat) +:+ " " +:+
     pad 5 zipCode)
    (negb (bool_decide (hash_tail nationalID 4 = "0000"))) (format_rfc3339 now).

Definition citizen_data (now : time) (nationalID : string) : CitizenResponse :=
  match testCitizens !! nationalID with
  | Some (name, birth, address, valid) => mkCitizenResponse nationalID name (birth_date now birth) address valid (format_rfc3339 now)
  | None => generateCitizen now nationalID
  end.

Definition handleCitizenLookup (apiKey method key : string) (decoded : res string) (now : time) : Answer CitizenResponse :=
  checked apiKey method key decoded (fun nationalID =>
    if slices_Contains notFoundCitizens nationalID then sendError "Citizen not found" 404 else Found (citizen_data now nationalID)).

(** ** The sanctions registry *)

Definition listedSanctions : list string := ["SANCTIONED123"; "SANCTIONED999"; "SANCTIONED99"; "SANCTIONED_PEP"; "WATCHLIST001"].
Definition notListedSanctions : list string :=
  ["ADULT123456"; "NOCRED123456"; "CLEAN123456"; "MINOR123456"; "INVALID12345"; "INVALID123456"; "EXACT18"; "JUSTTURNED18"; "MINOR17"].

Definition sanctions_source : string := "Mock International Sanctions Database".
Definition listed_tails : list string := ["00"; "ff"; "11"; "22"; "33"; "44"; "55"; "66"; "77"; "88"].

Definition reasons (listType : string) : list string :=
  if bool_decide (listType = "sanctions") then
    ["UN Security Council Resolution 1234"; "EU Sanctions List - Financial Crimes"; "OFAC SDN List - Money Laundering"; "International Arms Embargo"]
  else if bool_decide (listType = "pep") then
    ["Politically Exposed Person - Government Official"; "Politically Exposed Person - Family Member"; "Politically Exposed Person - Close Associate"]
  else ["Enhanced Due Diligence Required"; "Adverse Media - Financial Crimes"; "Law Enforcement Interest"].

Definition generateSanctions (now : time) (nationalID : string) : SanctionsResponse :=
  if slices_Contains listedSanctions nationalID then
    mkSanctionsResponse nationalID true sanctions_source "sanctions" "OFAC SDN List - Test Entry" (format_date (AddDate now (-2) 0 0)) (format_rfc3339 now)
  else if slices_Contains notListedSanctions nationalID then mkSanctionsResponse nationalID false sanctions_source "" "" "" (format_rfc3339 now)
  else
    let h0 := byte_of nationalID 0 in
    if slices_Contains listed_tails (hash_tail nationalID 2) then
      let listType := pick ["sanctions"; "pep"; "watchlist"] h0 in
      mkSanctionsResponse nationalID true sanctions_source listType (pick (reasons listType) h0)
        (format_date (AddDate now (- (1 + h0 mod 5)) (- (h0 mod 12)) (- (h0 mod 28)))) (format_rfc3339 now)
    else mkSanctionsResponse nationalID false sanctions_source "" "" "" (format_rfc3339 now).

Definition handleSanctionsCheck (apiKey method key : string) (decoded : res string) (now : time) : Answer SanctionsResponse :=
  checked apiKey method key decoded (fun nationalID => Found (generateSanctions now nationalID)).
End registries.

(** ** The servers behind the adapters *)

Lemma substring_all s n : (String.length s <= n)%nat -> String.substring 0 n s = s.
Proof. revert n. induction s as [|c s IH]; intros [|n] Hn; simpl in *; try done; [lia|]. f_equal. apply IH. lia. Qed.

Section behind_adapters.
Context (sha256 : string -> list Z) (hex : list Z -> string).
Context (Year : time -> Z) (AddDate : time -> Z -> Z -> Z -> time) (format_date format_rfc3339 : time -> string).
Context (json_Marshal : gmap string string -> res string) (check_url : string -> res unit) (parse_rfc3339 : string -> option time).
Context (unmarshal_citizen : string -> res citizenHTTPResponse) (unmarshal_sanctions : string -> res sanctionsHTTPResponse).
Context (decode : string -> res string) (encode_citizen : CitizenResponse -> string) (encode_sanctions : SanctionsResponse -> string).
Context (encode_error : ErrorResponse -> string).
Abbreviation citizen_of := (citizen_data sha256 hex Year AddDate format_date format_rfc3339).
Abbreviation sanctions_of := (generateSanctions sha256 hex AddDate format_date format_rfc3339).
Abbreviation citizen_adapter := (Citizen_Provider parse_rfc3339 unmarshal_citizen).
Abbreviation sanctions_adapter := (Sanctions_Provider parse_rfc3339 unmarshal_sanctions).

Definition respond {A} (encode : A -> string) (a : Answer A) : http_outcome :=
  match a with Found x => Responded 200 (encode x) | Refused status e => Responded status (encode_error e) end.

(** The adapter posts with its key; the server reads its clock. *)
Definition citizen_server (apiKey key : string) (now : time) (url body : string) : ST unit error http_outcome := fun w =>
  (Ok (respond encode_citizen (handleCitizenLookup sha256 hex Year AddDate format_date format_rfc3339 apiKey "POST" key (decode body) now)), w).
Definition sanctions_server (apiKey key : string) (now : time) (url body : string) : ST unit error http_outcome := fun w =>
  (Ok (respond encode_sanctions (handleSanctionsCheck sha256 hex AddDate format_date format_rfc3339 apiKey "POST" key (decode body) now)), w).

Abbreviation ask n := ({["national_id" := n]} : gmap string string).
Abbreviation lookup_citizen apiKey id baseURL key now n :=
  (HTTPAdapter_Lookup json_Marshal check_url (citizen_server apiKey key now) (citizen_adapter id baseURL key) now (ask n) tt).
Abbreviation lookup_sanctions apiKey id baseURL key now n :=
  (HTTPAdapter_Lookup json_Marshal check_url (sanctions_server apiKey key now) (sanctions_adapter id baseURL key) now (ask n) tt).

(** The codec on this exchange: the request and the responses are read as they were written
    and fit the limit of the adapter; the URL is accepted. *)
Definition codec_ok (now : time) (n : string) : Prop :=
  (exists body, json_Marshal (ask n) = Ok body /\ decode body = Ok n) /\ (forall url, check_url url = Ok tt) /\
  (let c := citizen_of now n in
   unmarshal_citizen (encode_citizen c) =
     Ok (mkCitizenResp (ctr_NationalID c) (ctr_FullName c) (ctr_DateOfBirth c) (ctr_Address c) (ctr_Valid c) (ctr_CheckedAt c)) /\
   Z.of_nat (String.length (encode_citizen c)) <= MaxResponseSize) /\
  (let x := sanctions_of now n in
   unmarshal_sanctions (encode_sanctions x) = Ok (mkSanctionsResp (sar_NationalID x) (sar_Listed x) (sar_Source x) (sar_CheckedAt x)) /\
   Z.of_nat (String.length (encode_sanctions x)) <= MaxResponseSize) /\
  (forall e, Z.of_nat (String.length (encode_error e)) <= MaxResponseSize).

Lemma executeRequest_fits a status body : Z.of_nat (String.length body) <= MaxResponseSize ->
  executeRequest a (Responded status body) = Ok (status, body).
Proof.
  intros Hl. unfold executeRequest. rewrite substring_all by lia. by rewrite (proj2 (Z.ltb_ge _ _) Hl).
Qed.

Lemma Lookup_responded (a : HTTPAdapter) (do : string -> string -> ST unit error http_outcome) now filters body status text :
  json_Marshal filters = Ok body -> (forall url, check_url url = Ok tt) -> (forall url, do url body tt = (Ok (Responded status text), tt)) ->
  Z.of_nat (String.length text) <= MaxResponseSize ->
  (HTTPAdapter_Lookup json_Marshal check_url do a now filters tt).1 =
  match checkStatusCode a status with Ok _ => parseAndEnrich a now status text | Err e => Err e end.
Proof.
  intros Hm Hu Hdo Hl. unfold HTTPAdapter_Lookup, mbind, st_bind, st_lift, buildRequest. rewrite Hm, Hu, Hdo, executeRequest_fits by done.
  by destruct (checkStatusCode a status).
Qed.

(** An accepted request reaches the data; another key is refused. *)
Lemma checked_posts {A} apiKey key n (k : string -> Answer A) : n <> "" -> key <> "" ->
  checked apiKey "POST" key (Ok n) k = if bool_decide (key = apiKey) then k n else sendError "Invalid API key" 401.
Proof.
  intros Hn Hk. unfold checked, str_empty. rewrite (bool_decide_eq_true_2 ("POST" = "POST")), (bool_decide_eq_false_2 (key = "")), (bool_decide_eq_false_2 (n = "")) by done.
  simpl. by destruct (bool_decide (key = apiKey)).
Qed.

Lemma citizen_data_id now n : ctr_NationalID (citizen_of now n) = n.
Proof. unfold citizen_data. by destruct (testCitizens !! n) as [[[[? ?] ?] ?]|]. Qed.

Lemma generateSanctions_fields now n : sar_NationalID (sanctions_of now n) = n /\ sar_Source (sanctions_of now n) = sanctions_source.
Proof.
  unfold generateSanctions. destruct (slices_Contains listedSanctions n); [done|]. destruct (slices_Contains notListedSanctions n); [done|].
  by destruct (slices_Contains listed_tails _).
Qed.

(** What the service learns of a person is what the registry holds: the evidence of a lookup
    carries the name, the birth, the address and the validity the citizen registry answers,
    and the sanctions evidence says listed exactly when the sanctions registry does; a person
    the citizen registry does not know is reported as not found, and a wrong key as a
    failure of authentication. *)
Theorem registries_answer_exactly (id baseURL apiKey key n : string) (now : time) :
  codec_ok now n -> n <> "" -> key <> "" ->
  (key = apiKey -> n ∉ notFoundCitizens ->
     exists ev, (lookup_citizen apiKey id baseURL key now n).1 = Ok ev /\ ev_ProviderID ev = id /\
       ev_Data ev = list_to_map [("national_id", AnyString n); ("full_name", AnyString (ctr_FullName (citizen_of now n)));
         ("date_of_birth", AnyString (ctr_DateOfBirth (citizen_of now n))); ("address", AnyString (ctr_Address (citizen_of now n)));
         ("valid", AnyBool (ctr_Valid (citizen_of now n)))]) /\
  (key = apiKey -> n ∈ notFoundCitizens ->
     exists e, (lookup_citizen apiKey id baseURL key now n).1 = Err e /\ GetCategory e = ErrorNotFound) /\
  (key = apiKey ->
     exists ev, (lookup_sanctions apiKey id baseURL key now n).1 = Ok ev /\ ev_ProviderID ev = id /\
       ev_Data ev = list_to_map [("national_id", AnyString n); ("listed", AnyBool (sar_Listed (sanctions_of now n)));
         ("source", AnyString sanctions_source)]) /\
  (key <> apiKey ->
     (exists e, (lookup_citizen apiKey id baseURL key now n).1 = Err e /\ GetCategory e = ErrorAuthentication) /\
     (exists e, (lookup_sanctions apiKey id baseURL key now n).1 = Err e /\ GetCategory e = ErrorAuthentication)).
Proof.
  intros (Hreq & Hurl & Hcit & Hsan & Herr) Hn Hkey. destruct Hreq as (body & Hm & Hd).
  assert (forall url, citizen_server apiKey key now url body tt = (Ok (respond encode_citizen
    (if bool_decide (key = apiKey) then if slices_Contains notFoundCitizens n then sendError "Citizen not found" 404 else Found (citizen_of now n)
     else sendError "Invalid API key" 401)), tt)) as Hc
    by (intros url; unfold citizen_server, handleCitizenLookup; by rewrite Hd, checked_posts).
  assert (forall url, sanctions_server apiKey key now url body tt = (Ok (respond encode_sanctions
    (if bool_decide (key = apiKey) then Found (sanctions_of now n) else sendError "Invalid API key" 401)), tt)) as Hs
    by (intros url; unfold sanctions_server, handleSanctionsCheck; by rewrite Hd, checked_posts).
  split_and!; intros Hk; [rewrite (bool_decide_eq_true_2 _ Hk) in Hc, Hs.. |rewrite (bool_decide_eq_false_2 _ Hk) in Hc, Hs].
  - intros Hnf. unfold slices_Contains in Hc. rewrite bool_decide_eq_false_2 in Hc by done. destruct Hcit as [Hu Hl].
    rewrite (Lookup_responded _ _ _ _ _ _ _ Hm Hurl Hc Hl). change (checkStatusCode _ 200) with (@Ok error unit tt). unfold parseAndEnrich. cbn [ha_parser Citizen_Provider].
    unfold parseCitizenResponse. cbn [Z.eqb Pos.eqb negb]. rewrite Hu. cbv iota beta. eexists. split; [reflexivity|]. split; [reflexivity|].
    cbn [ev_Data chr_NationalID chr_FullName chr_DateOfBirth chr_Address chr_Valid]. by rewrite citizen_data_id.
  - intros Hnf. unfold slices_Contains in Hc. rewrite bool_decide_eq_true_2 in Hc by done.
    rewrite (Lookup_responded _ _ _ _ _ _ _ Hm Hurl Hc) by apply Herr. by eexists.
  - destruct Hsan as [Hu Hl]. destruct (generateSanctions_fields now n) as [Hid Hsrc].
    rewrite (Lookup_responded _ _ _ _ _ _ _ Hm Hurl Hs Hl). change (checkStatusCode _ 200) with (@Ok error unit tt). unfold parseAndEnrich. cbn [ha_parser Sanctions_Provider].
    unfold parseSanctionsResponse. cbn [Z.eqb Pos.eqb negb]. rewrite Hu. cbv iota beta. eexists. split; [reflexivity|]. split; [reflexivity|].
    cbn [ev_Data shr_NationalID shr_Listed shr_Source]. by rewrite Hid, Hsrc.
  - rewrite (Lookup_responded _ _ _ _ _ _ _ Hm Hurl Hc), (Lookup_responded _ _ _ _ _ _ _ Hm Hurl Hs) by apply Herr. split; by eexists.
Qed.
End behind_adapters.

(** ** What the comments say of the generated data *)

(** Someone of the smallest generated age is born eighteen years before the current year, in
    any month: before the birthday the person is seventeen. *)
Lemma youngest_generated sha256 Year now n :
  byte_of sha256 n 3 = 0 -> byte_of sha256 n 4 = 11 -> byte_of sha256 n 5 = 27 ->
  generated_birth sha256 Year now n = (Year now - 18, 12, 28).
Proof. intros H3 H4 H5. unfold generated_birth. by rewrite H3, H4, H5. Qed.

(** A generated person is invalid for one tail of four hexadecimal digits only. *)
Lemma generated_invalid_iff sha256 hex Year format_rfc3339 now n :
  ctr_Valid (generateCitizen sha256 hex Year format_rfc3339 now n) = false <-> hash_tail sha256 hex n 4 = "0000".
Proof. simpl. rewrite negb_false_iff. apply bool_decide_eq_true. Qed.

(** The entries for a politically exposed person and for the watchlist are reported as
    entries of a sanctions list. *)
Lemma predefined_entries_are_sanctions sha256 hex AddDate format_date format_rfc3339 now :
  sar_ListType (generateSanctions sha256 hex AddDate format_date format_rfc3339 now "SANCTIONED_PEP") = "sanctions" /\
  sar_ListType (generateSanctions sha256 hex AddDate format_date format_rfc3339 now "WATCHLIST001") = "sanctions".
Proof. split; reflexivity. Qed.

Module RegistryExample.
Definition sha (s : string) : list Z := replicate 32 7.
Definition hx (l : list Z) : string := "0707".
Definition person : CitizenResponse := citizen_data sha hx (fun _ => 2025) (fun t _ _ _ => t) (fun _ => "2007-01-01") (fun _ => "2025-01-01T00:00:00Z") 5 "CLEAN123456".
Definition entry : SanctionsResponse := generateSanctions sha hx (fun t _ _ _ => t) (fun _ => "2007-01-01") (fun _ => "2025-01-01T00:00:00Z") 5 "CLEAN123456".

(** One person is looked up in both registries. *)
Lemma registries_answer_exactly_witness :
  ctr_FullName person = "Clean Record User" /\ sar_Listed entry = false /\
  exists ev, (HTTPAdapter_Lookup (fun _ => Ok "{}") (fun _ => Ok tt)
      (sanctions_server sha hx (fun t _ _ _ => t) (fun _ => "2007-01-01") (fun _ => "2025-01-01T00:00:00Z") (fun _ => Ok "CLEAN123456") (fun _ => "{}")
         (fun _ => "{}") "k" "k" 5)
      (Sanctions_Provider (fun _ => Some 5) (fun _ => Ok (mkSanctionsResp "CLEAN123456" false sanctions_source "2025-01-01T00:00:00Z")) "eu" "http://s" "k") 5
      {["national_id" := "CLEAN123456"]} tt).1 = Ok ev /\
    ev_ProviderID ev = "eu" /\
    ev_Data ev = list_to_map [("national_id", AnyString "CLEAN123456"); ("listed", AnyBool (sar_Listed entry)); ("source", AnyString sanctions_source)].
Proof.
  split; [vm_compute; reflexivity|]. split; [vm_compute; reflexivity|].
  refine (proj1 (proj2 (proj2 (registries_answer_exactly sha hx (fun _ => 2025) (fun t _ _ _ => t) (fun _ => "2007-01-01") (fun _ => "2025-01-01T00:00:00Z")
    (fun _ => Ok "{}") (fun _ => Ok tt) (fun _ => Some 5) (fun _ => Ok (mkCitizenResp "CLEAN123456" "Clean Record User" "1990-01-15"
      "999 Clean St, Clearville, WA 98001" true "2025-01-01T00:00:00Z"))
    (fun _ => Ok (mkSanctionsResp "CLEAN123456" false sanctions_source "2025-01-01T00:00:00Z")) (fun _ => Ok "CLEAN123456") (fun _ => "{}") (fun _ => "{}") (fun _ => "{}")
    "eu" "http://s" "k" "k" "CLEAN123456" 5 _ _ _))) eq_refl); [|discriminate|discriminate].
  split; [exists "{}"; split; reflexivity|]. split; [intros; reflexivity|].
  split; [split; [vm_compute; reflexivity|apply Z.leb_le; reflexivity]|]. split; [split; [vm_compute; reflexivity|apply Z.leb_le; reflexivity]|].
  intros. apply Z.leb_le. reflexivity.
Defined.
End RegistryExample.
